(* ===== verification/_CoqProject ===== *)
-Q . S2P
Prelude.v
BitMap.v
HandleTable.v
PtrList.v
Slots.v
Wire.v
ServerState.v
Tables.v
LockServer.v
CVServer.v
MVServer.v
ServerLoop.v
Protocol.v
Synch.v
SynchFrame.v
KernelTables.v
Translate.v
PassportOffice.v
HostFile.v
Paging.v
Lifecycle.v
Stacks.v
Threads.v
Processes.v
UserMem.v
Mips.v
Client.v
ClientServer.v
Disk.v
FileHeader.v
OpenFile.v
Directory.v
MapFile.v
FileSystem.v
FsTest.v
UserFiles.v
Interrupt.v
Drive.v
Devices.v
Preempt.v
PostOffice.v
SynchList.v
