(* ===== verification/Prelude.v ===== *)
(** * Nachos with a distributed lock server: a verification library

    The repository is Nachos, an operating system kernel in C++ that runs on a
    simulated MIPS machine, extended with demand paged virtual memory and with
    a service for locks, condition variables and monitor variables that up to
    five server machines provide to the client machines of a network.  Paths
    below are under src/nachos-csci402/code/.

    ** The parts of the program, bottom up

    - userprog/bitmap.cc, threads/list.cc: the bitmap and the linked list that
      everything else allocates and queues with.
    - machine/translate.cc, machine/mipssim.cc: the simulated processor: memory
      through a TLB or a page table, and the instruction interpreter, which
      calls the kernel on a trap.
    - threads/scheduler.cc, threads/thread.cc, threads/synch.cc: the ready list,
      context switches, semaphores, locks and condition variables of one kernel;
      threads/synchlist.cc: lists that threads wait on; threads/proj1Part2.cc: a
      simulation of a passport office in threads that use all of these.
    - machine/interrupt.cc, machine/timer.cc, machine/console.cc,
      machine/network.cc: the clock of the simulation and the devices whose
      interrupts it delivers.
    - userprog/exception.cc, userprog/addrspace.cc, threads/system.cc: TLB misses
      served from an inverted page table, from the executable and from a swap
      file; threads and processes that start and end; the system calls.
    - machine/disk.cc, filesys/: the simulated disk and the file system on it.
    - network/post.cc: mail boxes over the network device.
    - network/nettest.cc: the server, a loop over the mail it receives.  A
      server that is asked for an object it does not own asks the other four
      and keeps the request pending until one says YES or all said NO.

    ** The files of this library and what they model

    - Prelude: the faults the program can stop with, the state and fault monad
      [M] with its logic [wp] and what an operation preserves ([stays]), checked
      vectors, searches, 32-bit integers.
    - BitMap (userprog/bitmap.cc) and PtrList (threads/list.cc, with the heap
      cells of the list and their [next] pointers).
    - Slots: the interface, a typeclass, of a table made of a bitmap and a
      vector of pointers; Tables has its three instances in the server.
    - Wire: reading and writing numbers and names through [std::stringstream].
    - ServerState: the data of the server, the pending requests, sending;
      LockServer, CVServer, MVServer: the operations on locks, condition
      variables and monitor variables; ServerLoop: the dispatch of [Server()],
      one [Server_turn] per message and [Server_run] for a history; Protocol:
      what two servers make of each other's messages.
    - Synch: one record [Kernel] with the ready list and all semaphores, locks
      and conditions; every call is run to the point where its thread sleeps or
      returns, and [step] is the next call of the running thread, a yield, or
      the idle processor finding a thread.
    - SynchFrame: what a call of Synch leaves alone.  KernelTables: the lock and
      condition system calls of the build without NETWORK, over HandleTable
      (class Table).  SynchList (threads/synchlist.cc): its threads interleave
      between any two calls of Synch.  PassportOffice (threads/proj1Part2.cc): the
      same for programs in a language of commands, with an invariant that each
      command keeps whatever the other threads do.
    - Interrupt (machine/interrupt.cc): pending interrupts and the clock; Drive,
      Devices: when the disk, the timer and the console interrupt; Preempt: Synch
      with a yield at every place where interrupts are enabled; PostOffice: the
      network device, the post office and the mail boxes.
    - Translate and Mips: the [Machine] record; [Translate], [ReadMem],
      [WriteMem]; [Decode], [execute] (the switch), [OneInstruction], [Run].
    - HostFile: files of the host, as the stub file system and the disk use them.
    - Paging: the [VM] record, a machine with the inverted page table, bitmaps,
      swap file, FIFO list and all address spaces; [handleTLBMiss] and all it
      calls, [SaveState], and the page table of a new [AddrSpace].
    - Lifecycle (userprog/addrspace.cc): pages given up by [AddrSpace::Exit] and
      the destructor, stacks added by [AddrSpace::Fork]; Stacks: programs whose
      threads start and end, against programs with private pages.
    - Threads (threads/thread.cc, threads/scheduler.cc): threads as objects, from
      creation to deletion, with the registers and spaces a switch exchanges.
      Processes: Fork, Exec and Exit over the process table of system.cc.
    - UserMem, UserFiles (userprog/exception.cc): [copyin], [copyout] and the file
      system calls, with the page faults served inside them.
    - Client and ClientServer: the network system calls, from the registers of
      the program to the text of the request, and back from the answer.
    - Disk (machine/disk.cc, filesys/synchdisk.cc): sectors in a file of the
      host.  FileHeader, OpenFile, Directory (filesys/, same names): the i-node,
      reads and writes through a buffer of sectors, the table of names.  MapFile
      (userprog/bitmap.cc): the map of free sectors in its file.  FileSystem
      (filesys/filesys.cc): format, mount, create, open, remove, list, and
      histories of calls.  FsTest (filesys/fstest.cc): copy, print, test.

    An operation of the code is a definition of the same name wherever that is
    possible.  State is passed explicitly; an [ASSERT], a vector index out of
    range or a NULL dereference is a value [Fault] and not an excuse, so that a
    theorem which concludes [Done] says that none of these happens.

    ** What the theorems show

    - The server: any sequence of messages keeps its invariant
      (Server_run_safe); locks are exclusive, handed on in the order of the
      requests, and each slot of the table, with a lock, a doomed lock or none,
      refines an abstract slot (LockServer); a broadcast is that many requests for
      the lock (CVServer); each operation is specified on every branch; requests
      and replies survive the wire and are counted right (Protocol); loops over
      pending requests end.
    - A client: a call delivers one request that any server dispatches as the
      operation it names, and returns what the tables of the server that answered
      hold for it (client_gets_answer).
    - The kernel: no thread is lost, locks exclude, semaphores lose no wake-up,
      also under preemption (Preempt), in lists that threads wait on (SynchList)
      and behind the tables of the system calls (KernelTables); a thread gets its
      registers back, no deleted thread is used, every ready thread is listed, and
      the check of the stack stops a switch exactly when the word at the bottom of
      the stack was overwritten (Threads); the process table
      counts the threads there are, so that the last Exit halts (Processes); nobody
      leaves the passport office without the documents (PassportOffice).
    - Devices: interrupts fire in their order and at their time; mail put into
      the network comes out of the right box, whole (PostOffice).
    - The machine: translation as the hardware promises; every byte read is the
      byte written; an instruction that traps can be run again; arithmetic is
      that of the manual but for OR, SRL and SRLV (alu_correct says when).
    - Virtual memory: a served miss maps the page with its contents, eviction
      and swapping lose nothing, a store changes one page of one program and
      nothing else, a context switch keeps all contents; threads that start and
      end take and give up their own eight pages, so that any history refines
      programs with private pages, up to a first stray miss, on a page of a thread
      that ended or one recorded in the executable at a negative offset (Stacks;
      dead_page_takes_swap and clean_stack_page_lost say what happens then); what a
      program writes
      to a file, through its pages, it reads back (UserFiles).
    - The file system: a file is an array of bytes, whatever the sectors; any
      history of calls on a formatted disk, restarts included, refines a finite
      map from names to contents with a count of free sectors, and no sector has
      two owners or is lost (FileSystem); what is copied in is printed (FsTest).
    - The findings of the manifest are theorems about what the code does, where
      that can be stated on the model.

    ** Bounds, fuel and conventions

    Loops the code bounds are structural recursions with the code's bound (500
    tries of [clientSendMail], 5 servers, 32 rounds of [Mult], the sizes of the
    tables).  [delete_all], [handle_all] and [broadcast_loop] take fuel and are
    run with one unit more than the length of the list they consume, which
    [creation_settled] and [broadcast_wakes_all] show to be enough;
    [Broadcast_loop] of Synch is shown to end for the right lock and, for the
    wrong one, to use up any fuel.  [copyin] retries a trapped reference at most
    [fuel] times; [copyin_reads] needs none.  [Copy] and [Print] are run with one
    unit more than the bytes of the file, which [Copy_Print] shows to be enough.

    An [int] is a [Z]; operations wrap around at 32 bits where the code can
    overflow, and [unsigned] values are [u32].  What only counts one by
    one - the requests and creators of the server, the value of a semaphore - is
    not wrapped: the theorems are about fewer than 2^31 such events.  Memory for
    what is allocated is there, but a vector refuses sizes above its [max_size()].
    Undefined behaviour is not modelled as a particular value: an index or pointer out of range is a fault,
    an uninitialised variable and memory behind a dangling pointer are arguments
    of the model ([garbage], [unset], [stale], [dangling], [mem]; [garbage] is one
    arbitrary value for all variables of the server that a short message leaves
    unread).  Other arguments
    stand for what the code does not decide: which sends succeed, which mail
    arrives, the values of [rand()], the byte order of the host, the handler
    that the machine calls.  [printf] and [DEBUG] are left out.  Disabling
    interrupts makes a kernel call atomic, which is how Synch takes it.

    ** Not modelled

    The functions that only print; PrintInt, PrintString, Rand, Sleep and
    StringConcatInt, which print, ask the host or write back what they read; the
    assembly of [SWITCH]; the start of the system and its command line; the calls
    of the host behind machine/sysdep.cc; the debugger; and the demonstrations in
    threads/threadtest.cc and test/.  The passport office starts when all its
    threads are forked, and ends with the first simulation.

    Threads, Synch and Processes cut the code at different places: Synch at the
    calls of the kernel, Threads at the switch, Processes at the sections of the
    system calls that no other thread can enter.  Memory that nothing decides is
    left to [unset], and the names of programs to [executables], in Processes.
    There the machine makes fewer than 2^30 threads. *)
From stdpp Require Import base list strings gmap.
From Stdlib Require Import ZArith Lia ZifyBool.

(** ** Faults: the ways the program stops instead of returning *)

(** [AssertFailed] is the [ASSERT] macro of utility.h (it prints and calls
    [Abort]); the other constructors are the undefined or throwing behaviours
    the code can reach without an [ASSERT]. *)
Inductive fault : Set :=
| AssertFailed
| MailTooLong
| BadMailBox
| NullDeref
| OutOfRange
| LengthError
| OutOfFuel
| Halted
| DivOverflow.

#[export] Instance fault_eq_dec : EqDecision fault.
Proof. solve_decision. Defined.

Inductive outcome (A : Type) : Type :=
| Done (a : A)
| Fault (f : fault).
Arguments Done {A} a.
Arguments Fault {A} f.

Definition obind {A B} (o : outcome A) (k : A → outcome B) : outcome B :=
  match o with Done a => k a | Fault f => Fault f end.

Definition assert (b : bool) : outcome unit :=
  if b then Done () else Fault AssertFailed.

Lemma outcome_bind_Done {A B} (o : outcome A) (k : A → outcome B) b :
  obind o k = Done b ↔ ∃ a, o = Done a ∧ k a = Done b.
Proof. destruct o; cbn; naive_solver. Qed.

(** ** The state and fault monad the stateful components run in *)

Definition M (S A : Type) : Type := S → outcome (A * S).

Definition ret {S A} (a : A) : M S A := λ s, Done (a, s).
Definition bind {S A B} (m : M S A) (k : A → M S B) : M S B := λ s,
  match m s with Done (a, s') => k a s' | Fault f => Fault f end.

Lemma bind_Done {S A B} (m : M S A) (k : A → M S B) s a s' :
  m s = Done (a, s') → bind m k s = k a s'.
Proof. unfold bind. by intros ->. Qed.

Lemma bind_run {S A B} (m m' : M S A) (k : A → M S B) s s' :
  m s = m' s' → bind m k s = bind m' k s'.
Proof. unfold bind. by intros ->. Qed.

Lemma bind_assoc {S A B C} (m : M S A) (k : A → M S B) (k' : B → M S C) s :
  bind (bind m k) k' s = bind m (λ a, bind (k a) k') s.
Proof. unfold bind. by destruct (m s) as [[a s']|f]. Qed.

Definition get {S} : M S S := λ s, Done (s, s).
Definition put {S} (s : S) : M S unit := λ _, Done ((), s).
Definition modify {S} (f : S → S) : M S unit := λ s, Done ((), f s).
Definition fail {S A} (f : fault) : M S A := λ _, Fault f.
Definition lift {S A} (o : outcome A) : M S A := λ s,
  match o with Done a => Done (a, s) | Fault f => Fault f end.

(** Sequencing: [let!] in the state monad, [let?] for fallible pure code. *)
Declare Scope prog_scope.
Delimit Scope prog_scope with prog.
Notation "'let!' x := m 'in' k" := (bind m (λ x, k))
  (at level 10, x name, m at level 100, k at level 200) : prog_scope.
Notation "'let!' ' p := m 'in' k" := (bind m (λ x, match x with p => k end))
  (at level 10, p strict pattern, m at level 100, k at level 200) : prog_scope.
Notation "m ;;; k" := (bind m (λ _, k))
  (at level 100, k at level 200, right associativity, format "'[v' m  ;;; '/' k ']'") : prog_scope.
Notation "'let?' x := o 'in' k" := (obind o (λ x, k))
  (at level 10, x name, o at level 100, k at level 200) : prog_scope.
Open Scope prog_scope.

(** [ASSERT(b)] of threads/utility.h. *)
Definition ASSERT {S} (b : bool) : M S unit :=
  if b then ret () else fail AssertFailed.

(** [wp E m Q s]: run from [s], [m] either returns and establishes [Q], or
    stops with a fault allowed by [E]. *)
Definition wp {S A} (E : fault → Prop) (m : M S A) (Q : A → S → Prop) (s : S) : Prop :=
  match m s with Done (a, s') => Q a s' | Fault f => E f end.
Arguments wp : simpl never.

Section wp.
Context {S : Type} (E : fault → Prop).

Lemma wp_ret {A} (a : A) Q (s : S) : Q a s → wp E (ret a) Q s.
Proof. done. Qed.

Lemma wp_bind {A B} (m : M S A) (k : A → M S B) Q s :
  wp E m (λ a, wp E (k a) Q) s → wp E (bind m k) Q s.
Proof.
  unfold wp, bind. destruct (m s) as [[a s']|f]; done.
Qed.

Lemma wp_get Q (s : S) : Q s s → wp E get Q s.
Proof. done. Qed.
Lemma wp_put s' Q (s : S) : Q () s' → wp E (put s') Q s.
Proof. done. Qed.
Lemma wp_modify f Q (s : S) : Q () (f s) → wp E (modify f) Q s.
Proof. done. Qed.
Lemma wp_fail {A} f (Q : A → S → Prop) s : E f → wp E (fail f) Q s.
Proof. done. Qed.
Lemma wp_lift {A} (a : A) o Q (s : S) : o = Done a → Q a s → wp E (lift o) Q s.
Proof. by intros ->. Qed.
Lemma wp_ASSERT b Q (s : S) :
  (b = true → Q () s) → (b = false → E AssertFailed) → wp E (ASSERT b) Q s.
Proof. unfold wp. destruct b; cbn; auto. Qed.

Lemma wp_mono {A} (m : M S A) (Q Q' : A → S → Prop) s :
  wp E m Q s → (∀ a s', Q a s' → Q' a s') → wp E m Q' s.
Proof. unfold wp. destruct (m s) as [[a s']|f]; auto. Qed.

Lemma wp_conj {A} (m : M S A) (Q Q' : A → S → Prop) s :
  wp E m Q s → wp E m Q' s → wp E m (λ a s', Q a s' ∧ Q' a s') s.
Proof. unfold wp. destruct (m s) as [[a s']|f]; auto. Qed.

Lemma wp_if {A} (b : bool) (m1 m2 : M S A) Q s :
  (b = true → wp E m1 Q s) → (b = false → wp E m2 Q s) →
  wp E (if b then m1 else m2) Q s.
Proof. destruct b; auto. Qed.
End wp.

Lemma wp_done {S A} E (m : M S A) Q s a s' :
  wp E m Q s → m s = Done (a, s') → Q a s'.
Proof. unfold wp. intros H Hm. by rewrite Hm in H. Qed.

(** Running [m] from [s] is running [m'] from [s']. *)
Lemma wp_run {S A} E (m m' : M S A) Q s s' : m s = m' s' → wp E m' Q s' → wp E m Q s.
Proof. unfold wp. by intros ->. Qed.

Lemma wp_fault {S A} E (m : M S A) Q s f :
  wp E m Q s → m s = Fault f → E f.
Proof. unfold wp. intros H Hm. by rewrite Hm in H. Qed.

Lemma wp_faults {S A} (E E' : fault → Prop) (m : M S A) Q s : (∀ f, E f → E' f) → wp E m Q s → wp E' m Q s.
Proof. unfold wp. destruct (m s) as [[a s']|f]; auto. Qed.

(** With no fault allowed, [wp] is total correctness. *)
Definition no_fault : fault → Prop := λ _, False.

Lemma wp_no_fault {S A} (m : M S A) Q s :
  wp no_fault m Q s → ∃ a s', m s = Done (a, s') ∧ Q a s'.
Proof. unfold wp. destruct (m s) as [[a s']|f]; [by exists a, s'|done]. Qed.

(** ** What an operation preserves *)

(** [stays P op]: an operation that returns keeps [P]. *)
Definition stays {S A} (P : S → Prop) (op : M S A) : Prop := ∀ s a s', P s → op s = Done (a, s') → P s'.

Section stays.
Context {S : Type} (P : S → Prop).

Lemma stays_bind {A B} (op : M S A) (k : A → M S B) : stays P op → (∀ a, stays P (k a)) → stays P (bind op k).
Proof.
  intros H1 H2 s b s' Hs. unfold bind. destruct (op s) as [[a s1]|] eqn:Ho; [|done].
  apply H2. by apply (H1 s a s1).
Qed.
Lemma stays_get {B} (k : S → M S B) : (∀ x, P x → stays P (k x)) → stays P (bind get k).
Proof. intros H s b s' Hs. exact (H s Hs s b s' Hs). Qed.
Lemma stays_read {A B} (o : outcome A) (k : A → M S B) : (∀ a, o = Done a → stays P (k a)) → stays P (bind (lift o) k).
Proof. intros H s b s' Hs. unfold bind, lift. destruct o as [a|]; [|done]. by apply (H a). Qed.
Lemma stays_put x : P x → stays P (put x).
Proof. by intros Hx s a s' _ [= _ <-]. Qed.
Lemma stays_modify f : (∀ x, P x → P (f x)) → stays P (modify f).
Proof. intros Hf s a s' Hs [= _ <-]. by apply Hf. Qed.
Lemma stays_ret {A} (a : A) : stays P (ret a).
Proof. by intros s b s' Hs [= _ <-]. Qed.
Lemma stays_fail {A} f : stays P (fail (A := A) f).
Proof. done. Qed.
Lemma stays_lift {A} (o : outcome A) : stays P (lift o).
Proof. intros s a s' Hs. unfold lift. destruct o; [|done]. by intros [= _ <-]. Qed.
Lemma stays_ASSERT b : stays P (ASSERT b).
Proof. unfold ASSERT. destruct b; [apply stays_ret|apply stays_fail]. Qed.
End stays.

Create HintDb stays.
#[export] Hint Resolve stays_ret stays_fail stays_lift stays_ASSERT : stays.

(** Goes through the operations of a program; what it stores is left to the
    lemmas of the database and to the context. *)
Ltac stays_step :=
  match goal with
  | |- stays _ (bind get _) => apply stays_get; intros ? ?
  | |- stays _ (bind (lift _) _) => apply stays_read; intros ? ?
  | |- stays _ (bind _ _) => apply stays_bind; [|intros ?]
  | |- stays _ (put _) => apply stays_put; solve [auto]
  | |- stays _ (modify _) => apply stays_modify; solve [auto]
  | |- stays _ (if ?b then _ else _) => destruct b
  | |- stays _ (match ?x with _ => _ end) => destruct x
  | |- stays _ (let _ := _ in _) => cbv zeta
  | |- stays _ _ => solve [auto with stays]
  end.
Ltac stays := repeat stays_step.

(** ** Vectors indexed by a C++ [int] *)

(** [v[i]] of a [std::vector] or an array: a read outside is a fault. *)
Definition vget {A} (v : list A) (i : Z) : outcome A :=
  if (0 <=? i)%Z then
    match v !! Z.to_nat i with Some x => Done x | None => Fault OutOfRange end
  else Fault OutOfRange.

(** [v[i] = x], with the same bounds. *)
Definition vset {A} (v : list A) (i : Z) (x : A) : outcome (list A) :=
  if ((0 <=? i) && (i <? Z.of_nat (length v)))%Z then Done (<[Z.to_nat i := x]> v)
  else Fault OutOfRange.

(** [v.erase(v.begin() + i)] *)
Definition verase {A} (v : list A) (i : Z) : outcome (list A) :=
  if ((0 <=? i) && (i <? Z.of_nat (length v)))%Z then Done (delete (Z.to_nat i) v)
  else Fault OutOfRange.

Lemma vget_Done {A} (v : list A) (i : nat) x :
  v !! i = Some x → vget v (Z.of_nat i) = Done x.
Proof.
  intros Hx. unfold vget. rewrite (proj2 (Z.leb_le _ _)) by lia.
  by rewrite Nat2Z.id, Hx.
Qed.

Lemma vget_Some {A} (v : list A) (i : Z) x :
  vget v i = Done x ↔ (0 <= i)%Z ∧ v !! Z.to_nat i = Some x.
Proof.
  unfold vget. destruct (Z.leb_spec 0 i); [|split; [done|lia]].
  destruct (v !! Z.to_nat i); naive_solver.
Qed.

Lemma vget_in {A} (v : list A) (i : Z) :
  (0 <= i < Z.of_nat (length v))%Z → ∃ x, vget v i = Done x ∧ v !! Z.to_nat i = Some x.
Proof.
  intros Hi. destruct (lookup_lt_is_Some_2 v (Z.to_nat i)) as [x Hx]; [lia|].
  exists x. rewrite vget_Some. split_and!; [lia|done..].
Qed.

Lemma vset_in {A} (v : list A) (i : Z) x :
  (0 <= i < Z.of_nat (length v))%Z → vset v i x = Done (<[Z.to_nat i := x]> v).
Proof. intros Hi. unfold vset. by rewrite (proj2 (andb_true_iff _ _)) by lia. Qed.

Lemma verase_in {A} (v : list A) (i : Z) :
  (0 <= i < Z.of_nat (length v))%Z → verase v i = Done (delete (Z.to_nat i) v).
Proof. intros Hi. unfold verase. by rewrite (proj2 (andb_true_iff _ _)) by lia. Qed.

(** ** The search loop
    [for (i = 0; i < v.size(); i++) if (p(v[i])) return i; return -1;] *)
Fixpoint find_from {A} (p : A → bool) (i : Z) (v : list A) : Z :=
  match v with
  | [] => -1
  | x :: v' => if p x then i else find_from p (i + 1) v'
  end.
Definition find_index {A} (p : A → bool) (v : list A) : Z := find_from p 0 v.

Lemma find_from_spec {A} (p : A → bool) (v : list A) (i : Z) :
  (find_from p i v = (-1)%Z ∧ ∀ j x, v !! j = Some x → p x = false) ∨
  (∃ j x, find_from p i v = (i + Z.of_nat j)%Z ∧ v !! j = Some x ∧ p x = true ∧
          ∀ k y, k < j → v !! k = Some y → p y = false).
Proof.
  revert i. induction v as [|x v IH]; intros i; [left; split; [done|intros []; done]|].
  cbn. destruct (p x) eqn:Hp.
  - right. exists 0, x. split_and!; [lia|done|done|lia].
  - destruct (IH (i + 1)%Z) as [[Hf Ha]|(j & y & Hf & Hj & Hy & Hk)].
    + left. split; [done|]. intros [|j] z; cbn; [naive_solver|apply Ha].
    + right. exists (S j), y. split_and!; [lia|done|done|].
      intros [|k] z; cbn; [naive_solver|]. intros ?. apply Hk. lia.
Qed.

Lemma find_index_spec {A} (p : A → bool) (v : list A) :
  (find_index p v = (-1)%Z ∧ ∀ j x, v !! j = Some x → p x = false) ∨
  (∃ j x, find_index p v = Z.of_nat j ∧ v !! j = Some x ∧ p x = true ∧
          ∀ k y, k < j → v !! k = Some y → p y = false).
Proof. apply (find_from_spec p v 0). Qed.

Lemma find_index_None {A} (p : A → bool) (v : list A) :
  find_index p v = (-1)%Z ↔ ∀ j x, v !! j = Some x → p x = false.
Proof.
  destruct (find_index_spec p v) as [[? ?]|(j & x & -> & Hj & Hx & ?)]; [done|].
  split; [lia|]. intros Ha. specialize (Ha _ _ Hj). congruence.
Qed.

Lemma find_index_range {A} (p : A → bool) (v : list A) :
  (-1 <= find_index p v < Z.of_nat (length v))%Z.
Proof.
  destruct (find_index_spec p v) as [[-> ?]|(j & x & -> & Hj & _)]; [lia|].
  apply lookup_lt_Some in Hj. lia.
Qed.

(** ** 32-bit integers *)
Definition INT_MIN : Z := - 2 ^ 31.
Definition INT_MAX : Z := 2 ^ 31 - 1.
Definition fits_int (z : Z) : bool := ((INT_MIN <=? z) && (z <=? INT_MAX))%Z.
(** conversion to [unsigned int] *)
Definition u32 (z : Z) : Z := (z mod 2 ^ 32)%Z.

Lemma u32_range z : (0 <= u32 z < 2 ^ 32)%Z.
Proof. apply Z.mod_pos_bound. lia. Qed.

(** The bits [k .. k+n-1] of a word, where they stand and at the bottom. *)
Lemma land_field w n k : (0 <= n → 0 <= k →
  Z.land w (Z.shiftl (Z.ones n) k) = 2 ^ k * ((w / 2 ^ k) mod 2 ^ n))%Z.
Proof.
  intros Hn Hk. transitivity (Z.shiftl (Z.land (Z.shiftr w k) (Z.ones n)) k).
  - apply Z.bits_inj'. intros m Hm. rewrite Z.land_spec, !Z.shiftl_spec, Z.land_spec by lia.
    destruct (Z.ltb_spec m k).
    + rewrite !(Z.testbit_neg_r _ (m - k)) by lia. by rewrite andb_false_r.
    + rewrite Z.shiftr_spec by lia. by replace (m - k + k)%Z with m by lia.
  - rewrite Z.land_ones, Z.shiftr_div_pow2, Z.shiftl_mul_pow2 by lia. ring.
Qed.

Lemma field_range w n k : (0 <= n → 0 <= Z.land (Z.shiftr w k) (Z.ones n) < 2 ^ n)%Z.
Proof. intros Hn. rewrite Z.land_ones by done. apply Z.mod_pos_bound. by apply Z.pow_pos_nonneg. Qed.

(** utility.h [divRoundDown] and [divRoundUp] on C++ integers (division
    truncates towards zero). *)
Definition divRoundDown (n s : Z) : Z := Z.quot n s.
Definition divRoundUp (n s : Z) : Z := Z.quot n s + (if (0 <? Z.rem n s)%Z then 1 else 0).

Lemma divRoundUp_spec n s : (0 <= n → 0 < s →
  s * (divRoundUp n s - 1) < n <= s * divRoundUp n s)%Z.
Proof.
  intros Hn Hs. unfold divRoundUp.
  pose proof (Z.quot_rem' n s) as He. pose proof (Z.rem_bound_pos n s Hn Hs).
  destruct (Z.ltb_spec 0 (Z.rem n s)); nia.
Qed.

Lemma divRoundUp_nonneg n s : (0 <= n → 0 < s → 0 <= divRoundUp n s)%Z.
Proof. intros Hn Hs. pose proof (divRoundUp_spec n s Hn Hs). nia. Qed.
