(* ===== verification/BitMap.v ===== *)
(** * BitMap: userprog/bitmap.cc and bitmap.h *)
From S2P Require Import Prelude.
From stdpp Require Import base list.
From Stdlib Require Import ZArith Lia ZifyBool.

Local Open Scope Z_scope.

Definition BitsInByte : Z := 8.
Definition BitsInWord : Z := 32.

Record BitMap := mkBitMap {
  numBits : Z;       (* number of bits in the bitmap *)
  numWords : Z;      (* number of words of storage *)
  map : list Z       (* the [unsigned int] words *)
}.

(** [1 << (which % BitsInWord)], as the unsigned word it is combined with. *)
Definition bitmask (which : Z) : Z := u32 (Z.shiftl 1 (Z.rem which BitsInWord)).

Definition in_bits (b : BitMap) (which : Z) : bool :=
  (0 <=? which) && (which <? numBits b).

Definition upd_word (b : BitMap) (which : Z) (f : Z → Z) : outcome BitMap :=
  let? x := vget (map b) (Z.quot which BitsInWord) in
  let? m := vset (map b) (Z.quot which BitsInWord) (f x) in
  Done (mkBitMap (numBits b) (numWords b) m).

Definition Mark (b : BitMap) (which : Z) : outcome BitMap :=
  let? _ := assert (in_bits b which) in
  upd_word b which (λ x, Z.lor x (bitmask which)).

Definition Clear (b : BitMap) (which : Z) : outcome BitMap :=
  let? _ := assert (in_bits b which) in
  upd_word b which (λ x, Z.land x (u32 (Z.lnot (bitmask which)))).

Definition Test (b : BitMap) (which : Z) : outcome bool :=
  let? _ := assert (in_bits b which) in
  let? x := vget (map b) (Z.quot which BitsInWord) in
  Done (negb (Z.land x (bitmask which) =? 0)).

(** The constructor: [new unsigned int[numWords]] leaves the words with the
    bits [mem] holds; then every bit below [nitems] is cleared. *)
Fixpoint clear_loop (b : BitMap) (i : Z) (n : nat) : outcome BitMap :=
  match n with
  | O => Done b
  | S n' => let? b' := Clear b i in clear_loop b' (i + 1) n'
  end.

Definition new_BitMap (mem : nat → Z) (nitems : Z) : outcome BitMap :=
  let words := divRoundUp nitems BitsInWord in
  clear_loop (mkBitMap nitems words ((λ k, u32 (mem k)) <$> seq 0 (Z.to_nat words)))
             0 (Z.to_nat nitems).

Fixpoint Find_loop (b : BitMap) (i : Z) (n : nat) : outcome (Z * BitMap) :=
  match n with
  | O => Done (-1, b)
  | S n' =>
      let? t := Test b i in
      if negb t then let? b' := Mark b i in Done (i, b')
      else Find_loop b (i + 1) n'
  end.

Definition Find (b : BitMap) : outcome (Z * BitMap) := Find_loop b 0 (Z.to_nat (numBits b)).

Fixpoint NumClear_loop (b : BitMap) (i : Z) (n : nat) (count : Z) : outcome Z :=
  match n with
  | O => Done count
  | S n' =>
      let? t := Test b i in
      NumClear_loop b (i + 1) n' (if negb t then count + 1 else count)
  end.

Definition NumClear (b : BitMap) : outcome Z := NumClear_loop b 0 (Z.to_nat (numBits b)) 0.

(** ** The abstraction: a bitmap is the set of its used indices *)

Definition used (b : BitMap) (i : Z) : bool :=
  match map b !! Z.to_nat (Z.quot i BitsInWord) with
  | Some w => Z.testbit w (Z.rem i BitsInWord)
  | None => false
  end.

Record wf (b : BitMap) : Prop := {
  wf_bits : 0 <= numBits b;
  wf_words : numWords b = divRoundUp (numBits b) BitsInWord;
  wf_len : Z.of_nat (length (map b)) = numWords b;
  wf_range : Forall (λ w, 0 <= w < 2 ^ 32) (map b)
}.

Lemma in_bits_true b i : in_bits b i = true ↔ 0 <= i < numBits b.
Proof. unfold in_bits. rewrite andb_true_iff. lia. Qed.

Lemma in_bits_false b i : in_bits b i = false ↔ ¬ (0 <= i < numBits b).
Proof. rewrite <- in_bits_true. by destruct (in_bits b i). Qed.

Lemma word_index b i : wf b → 0 <= i < numBits b →
  0 <= Z.quot i BitsInWord < Z.of_nat (length (map b)) ∧ 0 <= Z.rem i BitsInWord < 32.
Proof.
  intros [? Hw Hl ?] Hi. rewrite Hl, Hw. unfold BitsInWord in *.
  pose proof (divRoundUp_spec (numBits b) 32 ltac:(lia) ltac:(lia)).
  pose proof (Z.quot_rem' i 32). pose proof (Z.rem_bound_pos i 32). lia.
Qed.

Lemma bitmask_spec i k : 0 <= Z.rem i 32 < 32 → 0 <= k →
  Z.testbit (bitmask i) k = (k =? Z.rem i 32).
Proof.
  intros Hr Hk. unfold bitmask, u32, BitsInWord. rewrite Z.shiftl_1_l.
  rewrite Z.mod_small; [|split; [lia|apply Z.pow_lt_mono_r; lia]].
  rewrite Z.pow2_bits_eqb by lia. by rewrite Z.eqb_sym.
Qed.

Lemma u32_testbit x k : 0 <= k → Z.testbit (u32 x) k = (k <? 32) && Z.testbit x k.
Proof.
  intros Hk. unfold u32. destruct (Z.ltb_spec k 32).
  - by rewrite Z.mod_pow2_bits_low.
  - by rewrite Z.mod_pow2_bits_high by lia.
Qed.

Lemma range_testbit w k : 0 <= w < 2 ^ 32 → 32 <= k → Z.testbit w k = false.
Proof.
  intros Hw Hk. rewrite <- (Z.mod_small w (2 ^ 32)) by done.
  by rewrite Z.mod_pow2_bits_high by lia.
Qed.

Lemma testbit_range w : 0 <= w → (∀ k, 32 <= k → Z.testbit w k = false) → 0 <= w < 2 ^ 32.
Proof.
  intros H0 Hk. replace w with (w mod 2 ^ 32) by
  (apply Z.bits_inj'; intros k Hk0; destruct (Z.lt_ge_cases k 32);
   [by rewrite Z.mod_pow2_bits_low | rewrite Z.mod_pow2_bits_high, Hk by lia; done]).
  apply Z.mod_pos_bound. lia.
Qed.

Lemma land_bitmask w i : 0 <= Z.rem i 32 < 32 →
  negb (Z.land w (bitmask i) =? 0) = Z.testbit w (Z.rem i 32).
Proof.
  intros Hr. destruct (Z.testbit w (Z.rem i 32)) eqn:Hb.
  - apply negb_true_iff, Z.eqb_neq. intros H0.
    assert (Z.testbit (Z.land w (bitmask i)) (Z.rem i 32) = true) as Ht.
    { rewrite Z.land_spec, Hb, bitmask_spec by lia. by rewrite Z.eqb_refl. }
    by rewrite H0, Z.testbit_0_l in Ht.
  - apply negb_false_iff, Z.eqb_eq, Z.bits_inj'. intros k Hk.
    rewrite Z.land_spec, bitmask_spec, Z.testbit_0_l by lia.
    destruct (Z.eqb_spec k (Z.rem i 32)) as [->|]; [by rewrite Hb|apply andb_false_r].
Qed.

Lemma upd_word_spec b i f :
  wf b → 0 <= i < numBits b → (∀ w, 0 <= w < 2 ^ 32 → 0 <= f w < 2 ^ 32) →
  ∃ b' w, upd_word b i f = Done b' ∧ wf b' ∧ numBits b' = numBits b ∧
    map b !! Z.to_nat (Z.quot i 32) = Some w ∧
    ∀ j, 0 <= j → used b' j =
      if Z.quot j 32 =? Z.quot i 32 then Z.testbit (f w) (Z.rem j 32) else used b j.
Proof.
  intros Hwf Hi Hf. destruct (word_index b i Hwf Hi) as [Hq _]. unfold BitsInWord in *.
  destruct (vget_in (map b) (Z.quot i 32) Hq) as (w & Hg & Hw).
  unfold upd_word, BitsInWord. rewrite Hg. cbn. rewrite vset_in by done. cbn.
  eexists _, w. split_and!; [done| |done|done|].
  - destruct Hwf as [? ? ? Hr]. constructor; cbn; [done..| |].
    + by rewrite length_insert.
    + apply Forall_insert; [done|]. apply Hf. by eapply Forall_lookup_1 in Hr.
  - intros j Hj. unfold used, BitsInWord. cbn.
    destruct (Z.eqb_spec (Z.quot j 32) (Z.quot i 32)) as [->|Hne].
    + rewrite list_lookup_insert_eq by lia. done.
    + rewrite list_lookup_insert_ne; [done|].
      pose proof (Z.quot_pos j 32). lia.
Qed.

Lemma same_bit i j : 0 <= i → 0 <= j →
  (j =? i) = (Z.quot j 32 =? Z.quot i 32) && (Z.rem j 32 =? Z.rem i 32).
Proof.
  intros Hi Hj. pose proof (Z.quot_rem' i 32). pose proof (Z.quot_rem' j 32).
  destruct (Z.eqb_spec j i) as [->|]; [by rewrite !Z.eqb_refl|].
  destruct (Z.eqb_spec (Z.quot j 32) (Z.quot i 32)); [|done].
  destruct (Z.eqb_spec (Z.rem j 32) (Z.rem i 32)); [lia|done].
Qed.

Lemma Test_spec b i : wf b → 0 <= i < numBits b → Test b i = Done (used b i).
Proof.
  intros Hwf Hi. destruct (word_index b i Hwf Hi) as [Hq Hr]. unfold Test, used.
  rewrite (proj2 (in_bits_true b i) Hi). cbn.
  destruct (vget_in (map b) _ Hq) as (w & Hg & Hw). rewrite Hg. cbn.
  rewrite Hw. f_equal. by apply land_bitmask.
Qed.

Lemma Mark_spec b i : wf b → 0 <= i < numBits b →
  ∃ b', Mark b i = Done b' ∧ wf b' ∧ numBits b' = numBits b ∧
    ∀ j, 0 <= j → used b' j = (j =? i) || used b j.
Proof.
  intros Hwf Hi. destruct (word_index b i Hwf Hi) as [Hq Hr].
  destruct (upd_word_spec b i (λ x, Z.lor x (bitmask i)) Hwf Hi) as (b' & w & Hu & ? & ? & Hw & Hs).
  { intros x Hx. apply testbit_range.
    - apply Z.lor_nonneg. split; [lia|]. unfold bitmask. pose proof (u32_range (Z.shiftl 1 (Z.rem i BitsInWord))). lia.
    - intros k Hk. rewrite Z.lor_spec, range_testbit by lia.
      apply range_testbit; [apply u32_range|done]. }
  exists b'. unfold Mark. rewrite (proj2 (in_bits_true b i) Hi). cbn. rewrite Hu.
  split_and!; [done..|]. intros j Hj. rewrite Hs by done. rewrite (same_bit i j) by lia.
  unfold used, BitsInWord in *.
  destruct (Z.eqb_spec (Z.quot j 32) (Z.quot i 32)) as [He|He]; cbn; [|done].
  pose proof (Z.rem_bound_pos j 32 Hj ltac:(lia)).
  rewrite He, Hw, Z.lor_spec, bitmask_spec by lia.
  apply orb_comm.
Qed.

Lemma Clear_spec b i : wf b → 0 <= i < numBits b →
  ∃ b', Clear b i = Done b' ∧ wf b' ∧ numBits b' = numBits b ∧
    ∀ j, 0 <= j → used b' j = negb (j =? i) && used b j.
Proof.
  intros Hwf Hi. destruct (word_index b i Hwf Hi) as [Hq Hr].
  destruct (upd_word_spec b i (λ x, Z.land x (u32 (Z.lnot (bitmask i)))) Hwf Hi)
    as (b' & w & Hu & ? & ? & Hw & Hs).
  { intros x Hx. apply testbit_range; [apply Z.land_nonneg; lia|].
    intros k Hk. by rewrite Z.land_spec, range_testbit by lia. }
  exists b'. unfold Clear. rewrite (proj2 (in_bits_true b i) Hi). cbn. rewrite Hu.
  split_and!; [done..|]. intros j Hj. rewrite Hs by done. rewrite (same_bit i j) by lia.
  unfold used, BitsInWord in *.
  destruct (Z.eqb_spec (Z.quot j 32) (Z.quot i 32)) as [He|He]; cbn; [|done].
  pose proof (Z.rem_bound_pos j 32 Hj ltac:(lia)).
  rewrite He, Hw, Z.land_spec, u32_testbit, Z.lnot_spec, bitmask_spec by lia.
  rewrite (proj2 (Z.ltb_lt _ _)) by lia. apply andb_comm.
Qed.

(** ** The free-slot allocator: [Find] and [NumClear] *)

Definition all_used (b : BitMap) : Prop := ∀ i, 0 <= i < numBits b → used b i = true.

Lemma Find_loop_spec b n i : wf b → 0 <= i → i + Z.of_nat n = numBits b →
  (∀ j, 0 <= j < i → used b j = true) →
  (Find_loop b i n = Done (-1, b) ∧ all_used b) ∨
  (∃ k b', Find_loop b i n = Done (k, b') ∧ i <= k < numBits b ∧ used b k = false ∧
     (∀ j, 0 <= j < k → used b j = true) ∧ wf b' ∧ numBits b' = numBits b ∧
     ∀ j, 0 <= j → used b' j = (j =? k) || used b j).
Proof.
  intros Hwf. revert i. induction n as [|n IH]; intros i Hi Hn Hbelow.
  { left. split; [done|]. intros j Hj. apply Hbelow. lia. }
  cbn. rewrite Test_spec by lia || done. cbn. destruct (used b i) eqn:Hu; cbn.
  - destruct (IH (i + 1)) as [|(k & b' & ? & ? & ?)]; [lia|lia| |by left|].
    + intros j Hj. destruct (Z.eq_dec j i) as [->|]; [done|apply Hbelow; lia].
    + right. exists k, b'. split_and!; [done|lia|lia|tauto..].
  - destruct (Mark_spec b i Hwf ltac:(lia)) as (b' & Hm & ? & ? & ?).
    right. exists i, b'. rewrite Hm. split_and!; done || lia.
Qed.

Lemma Find_cases b : wf b →
  (Find b = Done (-1, b) ∧ all_used b) ∨
  (∃ k b', Find b = Done (k, b') ∧ 0 <= k < numBits b ∧ used b k = false ∧
     (∀ j, 0 <= j < k → used b j = true) ∧ wf b' ∧ numBits b' = numBits b ∧
     ∀ j, 0 <= j → used b' j = (j =? k) || used b j).
Proof.
  intros Hwf. pose proof (wf_bits b Hwf).
  destruct (Find_loop_spec b (Z.to_nat (numBits b)) 0 Hwf) as [?|(k & b' & ?)]; [lia..| | |].
  - lia.
  - by left.
  - right. by exists k, b'.
Qed.

(** ** Counting *)

(** The number of clear bits among [i, i + n). *)
Fixpoint clear_count (b : BitMap) (i : Z) (n : nat) : Z :=
  match n with
  | O => 0
  | S n' => (if used b i then 0 else 1) + clear_count b (i + 1) n'
  end.

Definition free_slots (b : BitMap) : Z := clear_count b 0 (Z.to_nat (numBits b)).

Lemma NumClear_loop_spec b n i c : wf b → 0 <= i → i + Z.of_nat n = numBits b →
  NumClear_loop b i n c = Done (c + clear_count b i n).
Proof.
  intros Hwf. revert i c. induction n as [|n IH]; intros i c Hi Hn; cbn; [f_equal; lia|].
  rewrite Test_spec by lia || done. cbn. rewrite IH by lia. f_equal.
  destruct (used b i); cbn; lia.
Qed.

Lemma NumClear_free b : wf b → NumClear b = Done (free_slots b).
Proof.
  intros Hwf. pose proof (wf_bits b Hwf). unfold NumClear, free_slots.
  by rewrite NumClear_loop_spec by lia || done.
Qed.

Lemma clear_count_bounds b n i : 0 <= clear_count b i n <= Z.of_nat n.
Proof. revert i. induction n as [|n IH]; intros i; cbn; [lia|]. pose proof (IH (i + 1)). destruct (used b i); lia. Qed.

Lemma clear_count_ext b b' n i :
  (∀ j, i <= j < i + Z.of_nat n → used b' j = used b j) → clear_count b' i n = clear_count b i n.
Proof.
  revert i. induction n as [|n IH]; intros i Hext; cbn; [done|].
  rewrite Hext by lia. rewrite IH; [done|]. intros j Hj. apply Hext. lia.
Qed.

(** Changing one bit changes the count by the change of that bit. *)
Lemma clear_count_upd b b' n i k : 0 <= i → i <= k < i + Z.of_nat n →
  (∀ j, 0 <= j → j ≠ k → used b' j = used b j) →
  clear_count b' i n = clear_count b i n
    + (if used b k then 1 else 0) - (if used b' k then 1 else 0).
Proof.
  revert i. induction n as [|n IH]; intros i Hi Hk Hsame; [lia|]. cbn.
  destruct (Z.eq_dec i k) as [->|Hne].
  - rewrite (clear_count_ext b b') by (intros j Hj; apply Hsame; lia).
    destruct (used b k), (used b' k); lia.
  - rewrite (Hsame i) by lia. rewrite IH by (done || lia). lia.
Qed.

Lemma clear_count_0 b n i : clear_count b i n = 0 ↔ ∀ j, i <= j < i + Z.of_nat n → used b j = true.
Proof.
  revert i. induction n as [|n IH]; intros i; cbn; [split; [lia|done]|].
  pose proof (clear_count_bounds b n (i + 1)). split.
  - intros H0 j Hj. destruct (used b i) eqn:Hu; [|lia].
    destruct (Z.eq_dec j i) as [->|]; [done|]. apply (proj1 (IH (i + 1))); lia.
  - intros Ha. rewrite (Ha i) by lia. apply (proj2 (IH (i + 1))). intros j Hj. apply Ha. lia.
Qed.

Lemma free_slots_0 b : wf b → free_slots b = 0 ↔ all_used b.
Proof.
  intros Hwf. pose proof (wf_bits b Hwf). unfold free_slots, all_used. rewrite clear_count_0.
  by rewrite Z2Nat.id.
Qed.

Lemma free_slots_upd b b' k : 0 <= k < numBits b → numBits b' = numBits b →
  (∀ j, 0 <= j → j ≠ k → used b' j = used b j) →
  free_slots b' = free_slots b + (if used b k then 1 else 0) - (if used b' k then 1 else 0).
Proof. intros Hk Hn Hsame. unfold free_slots. rewrite Hn. apply clear_count_upd; [lia|lia|done]. Qed.

(** [Find] on a bitmap with a clear bit. *)
Lemma Find_free b : wf b → 0 < free_slots b →
  ∃ k b', Find b = Done (k, b') ∧ 0 <= k < numBits b ∧ used b k = false ∧ wf b' ∧
    numBits b' = numBits b ∧ (∀ j, 0 <= j → used b' j = (j =? k) || used b j) ∧
    free_slots b' = free_slots b - 1.
Proof.
  intros Hwf Hf. destruct (Find_cases b Hwf) as [[_ Ha]|(k & b' & He & Hk & Hu & _ & Hwf' & Hn & Hs)].
  { apply free_slots_0 in Ha; [lia|done]. }
  exists k, b'. split_and!; [done|lia|lia|done..|].
  rewrite (free_slots_upd b b' k Hk Hn); [rewrite Hu, Hs, Z.eqb_refl by lia; cbn; lia|].
  intros j Hj Hne. by rewrite Hs, (proj2 (Z.eqb_neq j k)).
Qed.

(** [Clear] of a set bit. *)
Lemma Clear_used b i : wf b → 0 <= i < numBits b → used b i = true →
  ∃ b', Clear b i = Done b' ∧ wf b' ∧ numBits b' = numBits b ∧
    (∀ j, 0 <= j → used b' j = negb (j =? i) && used b j) ∧ free_slots b' = free_slots b + 1.
Proof.
  intros Hwf Hi Hu. destruct (Clear_spec b i Hwf Hi) as (b' & He & ? & Hn & Hs).
  exists b'. split_and!; [done..|].
  rewrite (free_slots_upd b b' i Hi Hn); [rewrite Hu, Hs, Z.eqb_refl by lia; cbn; lia|].
  intros j Hj Hne. by rewrite Hs, (proj2 (Z.eqb_neq j i)).
Qed.

(** [Mark] of a clear bit. *)
Lemma Mark_clear b i : wf b → 0 <= i < numBits b → used b i = false →
  ∃ b', Mark b i = Done b' ∧ wf b' ∧ numBits b' = numBits b ∧
    (∀ j, 0 <= j → used b' j = (j =? i) || used b j) ∧ free_slots b' = free_slots b - 1.
Proof.
  intros Hwf Hi Hu. destruct (Mark_spec b i Hwf Hi) as (b' & He & ? & Hn & Hs).
  exists b'. split_and!; [done..|].
  rewrite (free_slots_upd b b' i Hi Hn); [rewrite Hu, Hs, Z.eqb_refl by lia; cbn; lia|].
  intros j Hj Hne. by rewrite Hs, (proj2 (Z.eqb_neq j i)).
Qed.

Lemma free_slots_clear b : wf b → (∀ j, 0 <= j < numBits b → used b j = false) → free_slots b = numBits b.
Proof.
  intros Hwf Hu. pose proof (wf_bits b Hwf) as Hn. unfold free_slots.
  assert (∀ m i, 0 <= i → i + Z.of_nat m <= numBits b → clear_count b i m = Z.of_nat m) as Hc.
  { induction m as [|m IH]; intros i Hi Hm; cbn [clear_count]; [done|]. rewrite Hu, IH by lia. lia. }
  rewrite Hc; lia.
Qed.

(** ** The constructor *)

Lemma clear_loop_spec b n i : wf b → 0 <= i → i + Z.of_nat n <= numBits b →
  ∃ b', clear_loop b i n = Done b' ∧ wf b' ∧ numBits b' = numBits b ∧
    ∀ j, 0 <= j → used b' j = used b j && negb ((i <=? j) && (j <? i + Z.of_nat n)).
Proof.
  revert b i. induction n as [|n IH]; intros b i Hwf Hi Hn; cbn [clear_loop].
  { exists b. split_and!; [done..|]. intros j Hj.
    assert ((i <=? j) && (j <? i + Z.of_nat 0) = false) as ->.
    { change (Z.of_nat 0) with 0. lia. }
    by rewrite andb_true_r. }
  destruct (Clear_spec b i Hwf ltac:(lia)) as (b1 & -> & Hwf1 & Hn1 & Hu1). cbn.
  destruct (IH b1 (i + 1) Hwf1) as (b' & -> & ? & ? & Hu); [lia|lia|].
  exists b'. split_and!; [done|done|congruence|]. intros j Hj. rewrite Hu, Hu1 by done.
  destruct (used b j); rewrite ?andb_false_r; [|done]. rewrite andb_true_r.
  rewrite Nat2Z.inj_succ. lia.
Qed.

Lemma new_BitMap_clear mem n : 0 <= n →
  ∃ b, new_BitMap mem n = Done b ∧ wf b ∧ numBits b = n ∧ ∀ j, 0 <= j < n → used b j = false.
Proof.
  intros Hn. unfold new_BitMap.
  pose proof (divRoundUp_nonneg n 32 Hn ltac:(lia)).
  edestruct (clear_loop_spec
    (mkBitMap n (divRoundUp n BitsInWord)
       ((λ k, u32 (mem k)) <$> seq 0 (Z.to_nat (divRoundUp n BitsInWord)))) (Z.to_nat n) 0)
    as (b & -> & ? & ? & Hu); [|lia|cbn; lia|].
  - constructor; cbn; [done|done| |].
    + rewrite length_fmap, length_seq. unfold BitsInWord in *. lia.
    + apply Forall_fmap, Forall_forall. intros k _. apply u32_range.
  - exists b. split_and!; [done..|]. intros j Hj. rewrite Hu by lia.
    assert ((0 <=? j) && (j <? 0 + Z.of_nat (Z.to_nat n)) = true) as -> by lia. apply andb_false_r.
Qed.

(** ** Properties *)

(** The constructor returns a bitmap of [n] clear bits whatever the
    uninitialised words held. *)
Theorem new_BitMap_spec mem n : 0 <= n →
  ∃ b, new_BitMap mem n = Done b ∧ wf b ∧ numBits b = n ∧
    (∀ j, 0 <= j < n → Test b j = Done false) ∧ NumClear b = Done n.
Proof.
  intros Hn. destruct (new_BitMap_clear mem n Hn) as (b & Hb & Hwf & Hnb & Hu).
  exists b. split_and!; [done..| |].
  - intros j Hj. rewrite Test_spec by lia || done. by rewrite Hu.
  - rewrite NumClear_free by done. f_equal. rewrite <- Hnb. apply free_slots_clear; [done|]. by rewrite Hnb.
Qed.

Lemma new_BitMap_spec_witness : ∃ b, new_BitMap (λ k, Z.of_nat k) 100 = Done b ∧ wf b ∧
  numBits b = 100 ∧ (∀ j, 0 <= j < 100 → Test b j = Done false) ∧ NumClear b = Done 100.
Proof. apply (new_BitMap_spec (λ k, Z.of_nat k) 100). lia. Defined.

(** [Find] is a correct allocator: it returns the least clear index and
    sets exactly that bit, one slot fewer is free, and it returns -1, changing
    nothing, exactly when every bit is set. *)
Theorem Find_allocates b : wf b →
  match Find b with
  | Done (k, b') =>
      wf b' ∧ numBits b' = numBits b ∧
      if k =? -1 then b' = b ∧ NumClear b = Done 0
      else 0 <= k < numBits b ∧ Test b k = Done false ∧
           (∀ j, 0 <= j < k → Test b j = Done true) ∧
           (∀ j, 0 <= j < numBits b → Test b' j = (if j =? k then Done true else Test b j)) ∧
           ∃ n, NumClear b = Done n ∧ NumClear b' = Done (n - 1)
  | Fault _ => False
  end.
Proof.
  intros Hwf. rewrite NumClear_free by done.
  destruct (Find_cases b Hwf) as [[-> Ha]|(k & b' & -> & Hk & Hf & Hl & Hwf' & Hn & Hu)].
  { cbn. split_and!; [done..|]. f_equal. by apply free_slots_0. }
  rewrite (proj2 (Z.eqb_neq k (-1))) by lia.
  split_and!; [done|done|lia|lia|by rewrite Test_spec, Hf|..].
  - intros j Hj. rewrite Test_spec by lia || done. by rewrite Hl.
  - intros j Hj. rewrite !Test_spec by lia || done. rewrite Hu by lia. by destruct (j =? k).
  - eexists. split; [done|]. rewrite NumClear_free by done. f_equal.
    rewrite (free_slots_upd b b' k Hk Hn); [rewrite Hf, Hu, Z.eqb_refl by lia; cbn; lia|].
    intros j Hj Hne. by rewrite Hu, (proj2 (Z.eqb_neq j k)).
Qed.

(** A bitmap of ten with the first three taken. *)
Lemma Find_allocates_witness :
  ∃ b', Find (mkBitMap 10 1 [7]) = Done (3, b') ∧ wf b' ∧ NumClear (mkBitMap 10 1 [7]) = Done 7 ∧
        NumClear b' = Done 6.
Proof.
  assert (wf (mkBitMap 10 1 [7])) as Hwf.
  { constructor; cbn; [done|done|done|by repeat constructor]. }
  assert (Find (mkBitMap 10 1 [7]) = Done (3, mkBitMap 10 1 [15])) as HF by (vm_compute; reflexivity).
  pose proof (Find_allocates _ Hwf) as H. rewrite HF in H. destruct H as (Hw & _).
  exists (mkBitMap 10 1 [15]). split; [exact HF|]. split; [exact Hw|].
  split; vm_compute; reflexivity.
Defined.
