(* ===== verification/HandleTable.v ===== *)
(** * HandleTable: numbered pointers, class Table of userprog/addrspace.cc

    A [BitMap] hands out the numbers and an array holds the pointers, for the
    open files of an address space and, with the same parts, for the locks and
    condition variables of userprog/exception.cc.  [None] is the NULL pointer.
    The lock around [Find], [Test] and [Clear] makes each of these one step; the
    array is read and written outside of it. *)
From S2P Require Import Prelude BitMap.
From stdpp Require Import base list.
From Stdlib Require Import ZArith Lia ZifyBool.

Local Open Scope Z_scope.

Section table.
Context {A : Type}.

Record Table := mkTable { tmap : BitMap; ptrs : list (option A); tsize : Z }.

(** [stale] is what [new void *[size]] finds in memory. *)
Definition new_Table (mem : nat → Z) (stale : list (option A)) (s : Z) : outcome Table :=
  let? m := new_BitMap mem s in Done (mkTable m stale s).

Definition in_table (t : Table) (i : Z) : bool := (0 <=? i) && (i <? tsize t).

Definition Get (t : Table) (i : Z) : outcome (option A) :=
  if in_table t i then
    let? used := Test (tmap t) i in
    if used : bool then vget (ptrs t) i else Done None
  else Done None.

Definition Put (t : Table) (f : option A) : outcome (Z * Table) :=
  let? r := Find (tmap t) in
  if r.1 =? -1 then Done (r.1, mkTable r.2 (ptrs t) (tsize t))
  else let? v := vset (ptrs t) r.1 f in Done (r.1, mkTable r.2 v (tsize t)).

Definition Remove (t : Table) (i : Z) : outcome (option A * Table) :=
  if in_table t i then
    let? used := Test (tmap t) i in
    if used : bool then
      let? m := Clear (tmap t) i in
      let? f := vget (ptrs t) i in
      let? v := vset (ptrs t) i None in
      Done (f, mkTable m v (tsize t))
    else Done (None, t)
  else Done (None, t).

(** ** The table as a partial map *)

Record table_ok (t : Table) : Prop := {
  to_map : BitMap.wf (tmap t);
  to_size : numBits (tmap t) = tsize t;
  to_length : Z.of_nat (length (ptrs t)) = tsize t
}.

(** The pointer behind a number that is in use. *)
Definition slot (t : Table) (i : Z) : option (option A) :=
  if in_table t i && used (tmap t) i then ptrs t !! Z.to_nat i else None.

Lemma in_table_true t i : in_table t i = true ↔ 0 <= i < tsize t.
Proof. unfold in_table. lia. Qed.

Lemma ptr_at t i : table_ok t → 0 <= i < tsize t → ∃ f, ptrs t !! Z.to_nat i = Some f ∧ vget (ptrs t) i = Done f.
Proof.
  intros Ht Hi. destruct (vget_in (ptrs t) i) as (f & Hf & Hl); [rewrite (to_length _ Ht); lia|]. by exists f.
Qed.

Lemma slot_used t i : table_ok t → 0 <= i < tsize t → is_Some (slot t i) ↔ used (tmap t) i = true.
Proof.
  intros Ht Hi. destruct (ptr_at t i Ht Hi) as (f & Hf & _). unfold slot.
  rewrite (proj2 (in_table_true t i) Hi), Hf. by destruct (used (tmap t) i); split; try done; intros [? ?].
Qed.

Lemma slot_in t i f : slot t i = Some f → 0 <= i < tsize t ∧ used (tmap t) i = true ∧ ptrs t !! Z.to_nat i = Some f.
Proof.
  unfold slot. destruct (in_table t i) eqn:Hi; [|done]. destruct (used (tmap t) i); [|done].
  apply in_table_true in Hi. done.
Qed.

(** A number that is not in use, or none at all, gives NULL. *)
Theorem Get_spec t i : table_ok t → Get t i = Done (default None (slot t i)).
Proof.
  intros Ht. unfold Get, slot. destruct (in_table t i) eqn:Hi; [|done]. apply in_table_true in Hi.
  destruct (ptr_at t i Ht Hi) as (f & Hf & Hg).
  rewrite Test_spec by (apply Ht || by rewrite (to_size _ Ht)). cbn. destruct (used (tmap t) i); [|done].
  by rewrite Hg, Hf.
Qed.

(** [Put] takes the least free number, or answers -1 when there is none. *)
Theorem Put_spec t f : table_ok t →
  (Put t f = Done (-1, t) ∧ ∀ i, 0 <= i < tsize t → is_Some (slot t i)) ∨
  (∃ k t', Put t f = Done (k, t') ∧ 0 <= k < tsize t ∧ slot t k = None ∧ (∀ j, 0 <= j < k → is_Some (slot t j)) ∧
     table_ok t' ∧ tsize t' = tsize t ∧ ∀ j, slot t' j = if decide (j = k) then Some f else slot t j).
Proof.
  intros Ht. pose proof Ht as [Hm Hs Hl]. unfold Put.
  destruct (Find_cases (tmap t) Hm) as [[-> Ha]|(k & m & -> & Hk & Hfree & Hbelow & Hm' & Hn & Hu)]; cbn [obind fst snd].
  - left. split; [by destruct t|]. intros i Hi. apply slot_used; [done|done|]. apply Ha. lia.
  - right. rewrite (proj2 (Z.eqb_neq k (-1))) by lia. rewrite Hs in Hk.
    rewrite vset_in by lia. cbn [obind]. eexists k, _. split; [reflexivity|].
    split; [lia|]. split; [unfold slot; by rewrite Hfree, andb_false_r|].
    split; [intros j Hj; apply slot_used; [done|lia|by apply Hbelow]|].
    split; [constructor; cbn; [done|congruence|by rewrite length_insert]|]. split; [done|].
    intros j. unfold slot, in_table. cbn. destruct (Z.leb_spec 0 j) as [Hj|]; [|by rewrite decide_False by lia].
    rewrite Hu by lia. destruct (decide (j = k)) as [->|Hne].
    + rewrite Z.eqb_refl, (proj2 (Z.ltb_lt _ _)) by lia. cbn. apply list_lookup_insert_eq. lia.
    + rewrite (proj2 (Z.eqb_neq _ _) Hne). cbn. by rewrite list_lookup_insert_ne by lia.
Qed.

(** [Remove] frees the number and gives its pointer back. *)
Theorem Remove_spec t i : table_ok t → ∃ t', Remove t i = Done (default None (slot t i), t') ∧ table_ok t' ∧
  tsize t' = tsize t ∧ ∀ j, slot t' j = if decide (j = i) then None else slot t j.
Proof.
  intros Ht. pose proof Ht as [Hm Hs Hl]. unfold Remove.
  assert (slot t i = None → ∃ t', Done (None, t) = Done (default None (slot t i), t') ∧ table_ok t' ∧
    tsize t' = tsize t ∧ ∀ j, slot t' j = if decide (j = i) then None else slot t j) as Hsame.
  { intros Hn. exists t. rewrite Hn. split_and!; try done. intros j. case_decide; [by subst|done]. }
  destruct (in_table t i) eqn:Hi; [|apply Hsame; unfold slot; by rewrite Hi]. apply in_table_true in Hi as Hr.
  rewrite Test_spec by (done || lia). cbn [obind].
  destruct (used (tmap t) i) eqn:Hu; [|apply Hsame; unfold slot; by rewrite Hu, andb_false_r].
  destruct (Clear_spec (tmap t) i Hm ltac:(lia)) as (m & -> & Hm' & Hn & Hu'). cbn [obind].
  destruct (ptr_at t i Ht Hr) as (f & Hf & ->). cbn [obind]. rewrite vset_in by lia. cbn [obind].
  eexists. split; [unfold slot; by rewrite Hi, Hu, Hf|].
  split; [constructor; cbn; [done|congruence|by rewrite length_insert]|]. split; [done|].
  intros j. unfold slot, in_table. cbn. destruct (Z.leb_spec 0 j) as [Hj|]; [|by case_decide].
  rewrite Hu' by lia. destruct (decide (j = i)) as [->|Hne].
  - by rewrite Z.eqb_refl, andb_false_r.
  - rewrite (proj2 (Z.eqb_neq _ _) Hne). cbn. by rewrite list_lookup_insert_ne by lia.
Qed.

Lemma new_Table_ok mem stale s : 0 <= s → Z.of_nat (length stale) = s →
  ∃ t, new_Table mem stale s = Done t ∧ table_ok t ∧ tsize t = s ∧ ∀ i, slot t i = None.
Proof.
  intros Hs Hl. destruct (new_BitMap_clear mem s Hs) as (m & Hm & Hwf & Hn & Hu).
  unfold new_Table. rewrite Hm. cbn. eexists. split; [reflexivity|]. split; [by constructor|]. split; [done|].
  intros i. unfold slot, in_table. cbn. destruct ((0 <=? i) && (i <? s)) eqn:Hi; [|done]. by rewrite Hu by lia.
Qed.
End table.
Arguments Table : clear implicits.
