(* ===== verification/PtrList.v ===== *)
(** * PtrList: threads/list.cc and list.h *)
From S2P Require Import Prelude.
From stdpp Require Import base list gmap fin_maps.
From Stdlib Require Import ZArith Lia ZifyBool Sorting.Sorted.

Section ptr_list.
Context {A : Type}.

(** The heap of [ListElement]s; [None] is a NULL pointer, also as an item. *)
Record ListElement := mkElement {
  next : option nat;
  key : Z;
  item : option A
}.
Definition Heap : Type := gmap nat ListElement.

(** A [List] object together with the heap its elements live in. *)
Record List := mkList { heap : gmap nat ListElement; first : option nat; last : option nat }.

Definition new_ListElement (itemPtr : option A) (sortKey : Z) : M List nat :=
  let! s := get in
  let l := fresh (dom (heap s)) in
  put (mkList (<[l := mkElement None sortKey itemPtr]> (heap s)) (first s) (last s)) ;;;
  ret l.

Definition deref (p : option nat) : M List ListElement := λ s,
  match p ≫= (heap s !!.) with Some e => Done (e, s) | None => Fault NullDeref end.

Definition set_next (p : option nat) (n : option nat) : M List unit :=
  let! e := deref p in
  modify (λ s, mkList (match p with
                       | Some l => <[l := mkElement n (key e) (item e)]> (heap s)
                       | None => heap s end) (first s) (last s)).

Definition set_first (p : option nat) : M List unit := modify (λ s, mkList (heap s) p (last s)).
Definition set_last (p : option nat) : M List unit := modify (λ s, mkList (heap s) (first s) p).
Definition delete_element (p : option nat) : M List unit :=
  modify (λ s, mkList (match p with Some l => delete l (heap s) | None => heap s end)
                      (first s) (last s)).

Definition new_List (h : gmap nat ListElement) : List := mkList h None None.

Definition IsEmpty : M List bool := let! s := get in ret (bool_decide (first s = None)).

Definition Append (it : option A) : M List unit :=
  let! element := new_ListElement it 0 in
  let! e := IsEmpty in
  if e then set_first (Some element) ;;; set_last (Some element)
  else let! s := get in set_next (last s) (Some element) ;;; set_last (Some element).

Definition Prepend (it : option A) : M List unit :=
  let! element := new_ListElement it 0 in
  let! e := IsEmpty in
  if e then set_first (Some element) ;;; set_last (Some element)
  else let! s := get in set_next (Some element) (first s) ;;; set_first (Some element).

(** The loop [for (ptr = first; ptr->next != NULL; ptr = ptr->next)] of
    [SortedInsert]: whether the element was linked in before the end. *)
Fixpoint insert_loop (fuel : nat) (element : nat) (sortKey : Z) (ptr : option nat) : M List bool :=
  match fuel with
  | O => fail OutOfFuel
  | S fuel' =>
      let! p := deref ptr in
      match next p with
      | None => ret false
      | Some _ =>
          let! n := deref (next p) in
          if (sortKey <? key n)%Z then
            set_next (Some element) (next p) ;;;
            set_next ptr (Some element) ;;;
            ret true
          else insert_loop fuel' element sortKey (next p)
      end
  end.

Definition SortedInsert (it : option A) (sortKey : Z) : M List unit :=
  let! element := new_ListElement it sortKey in
  let! e := IsEmpty in
  if e then set_first (Some element) ;;; set_last (Some element)
  else
    let! s := get in
    let! f := deref (first s) in
    if (sortKey <? key f)%Z then
      set_next (Some element) (first s) ;;; set_first (Some element)
    else
      let! inserted := insert_loop (size (heap s)) element sortKey (first s) in
      if inserted : bool then ret ()
      else let! s' := get in set_next (last s') (Some element) ;;; set_last (Some element).

(** [SortedRemove(keyPtr)]: the item, and the key stored through [keyPtr]. *)
Definition SortedRemove : M List (option A * option Z) :=
  let! s := get in
  let element := first s in
  let! e := IsEmpty in
  if e then ret (None, None)
  else
    let! el := deref element in
    (if bool_decide (first s = last s)
         then set_first None ;;; set_last None
         else set_first (next el)) ;;;
    delete_element element ;;;
    ret (item el, Some (key el)).

Definition Remove : M List (option A) := let! r := SortedRemove in ret r.1.

(** [Mapcar]: the items [func] is invoked on, in order. *)
Fixpoint mapcar_loop (fuel : nat) (ptr : option nat) : M List (list (option A)) :=
  match fuel with
  | O => fail OutOfFuel
  | S fuel' =>
      match ptr with
      | None => ret []
      | Some _ => let! p := deref ptr in let! l := mapcar_loop fuel' (next p) in ret (item p :: l)
      end
  end.
Definition Mapcar : M List (list (option A)) :=
  let! s := get in mapcar_loop (S (size (heap s))) (first s).

(** The destructor [while (Remove() != NULL);] *)
Fixpoint destroy_loop (fuel : nat) : M List unit :=
  match fuel with
  | O => fail OutOfFuel
  | S fuel' =>
      let! r := Remove in
      match r with None => ret () | Some _ => destroy_loop fuel' end
  end.
Definition destroy_List : M List unit := let! s := get in destroy_loop (S (size (heap s))).

(** ** The list a [List] object represents *)

(** [seg h p cs q]: from [p], the heap holds the cells [cs] (location, key and
    item of each) linked in this order, and the last one points to [q]. *)
Fixpoint seg (h : gmap nat ListElement) (p : option nat)
    (cs : list (nat * (Z * option A))) (q : option nat) : Prop :=
  match cs with
  | [] => p = q
  | (l, (k, it)) :: cs' =>
      p = Some l ∧ ∃ n, h !! l = Some (mkElement n k it) ∧ seg h n cs' q
  end.

Record rep (s : List) (cs : list (nat * (Z * option A))) : Prop := {
  rep_seg : seg (heap s) (first s) cs None;
  rep_nodup : NoDup cs.*1;
  rep_last : ∀ c cs', cs = cs' ++ [c] → last s = Some c.1;
}.

(** [frame]: an operation touches no element of another list. *)
Definition frame (s s' : List) (cs : list (nat * (Z * option A))) : Prop :=
  ∀ l e, heap s !! l = Some e → l ∉ cs.*1 → heap s' !! l = Some e.

Lemma seg_app h p cs cs' q :
  seg h p (cs ++ cs') q ↔ ∃ r, seg h p cs r ∧ seg h r cs' q.
Proof.
  revert p. induction cs as [|[l [k it]] cs IH]; intros p; cbn.
  { split; [by exists p|by intros (r & -> & ?)]. }
  setoid_rewrite IH. naive_solver.
Qed.

Lemma seg_ext h h' p cs q :
  (∀ l, l ∈ cs.*1 → h' !! l = h !! l) → seg h p cs q → seg h' p cs q.
Proof.
  revert p. induction cs as [|[l [k it]] cs IH]; intros p Hext; cbn; [done|].
  intros (-> & n & Hl & Hs). split; [done|]. exists n. split.
  - rewrite Hext by (cbn; set_solver). done.
  - apply IH; [|done]. intros l' Hl'. apply Hext. cbn. set_solver.
Qed.

Lemma seg_insert h p cs q l e : l ∉ cs.*1 → seg h p cs q → seg (<[l := e]> h) p cs q.
Proof.
  intros Hl. apply seg_ext. intros l' Hl'. rewrite lookup_insert_ne; [done|]. set_solver.
Qed.

Lemma seg_delete h p cs q l : l ∉ cs.*1 → seg h p cs q → seg (delete l h) p cs q.
Proof.
  intros Hl. apply seg_ext. intros l' Hl'. rewrite lookup_delete_ne; [done|]. set_solver.
Qed.

Lemma seg_dom h p cs q : seg h p cs q → ∀ l, l ∈ cs.*1 → l ∈ dom h.
Proof.
  revert p. induction cs as [|[l [k it]] cs IH]; intros p; cbn; [set_solver|].
  intros (-> & n & Hl & Hs) l'. rewrite elem_of_cons. intros [->|]; [|eauto].
  apply elem_of_dom. eauto.
Qed.

Lemma seg_size h p cs q : seg h p cs q → NoDup cs.*1 → length cs ≤ size h.
Proof.
  intros Hs Hn. rewrite <- (length_fmap fst cs), <- size_dom.
  rewrite <- (size_list_to_set (C := gset nat)) by done.
  apply subseteq_size. intros l. rewrite elem_of_list_to_set. by eapply seg_dom.
Qed.

Lemma seg_nil_first h cs : seg h None cs None → cs = [].
Proof. destruct cs as [|[l [k it]] cs]; cbn; [done|by intros (? & _)]. Qed.

(** Linking the last cell to a new one. *)
Lemma seg_snoc h p cs l k it n l' e' : l ∉ cs.*1 → l' ∉ cs.*1 → l ≠ l' →
  seg h p (cs ++ [(l, (k, it))]) n → next e' = None → h !! l' = Some e' →
  seg (<[l := mkElement (Some l') k it]> h) p
      (cs ++ [(l, (k, it)); (l', (key e', item e'))]) None.
Proof.
  intros Hl Hl' Hne. rewrite !seg_app. intros (r & Hs & -> & ? & Hlk & _) Hn He'.
  exists (Some l). split; [by apply seg_insert|]. cbn. split; [done|].
  exists (Some l'). rewrite lookup_insert_eq. split; [done|]. split; [done|].
  exists None. rewrite lookup_insert_ne, He' by done. by destruct e'; cbn in *; subst.
Qed.

Lemma deref_Some s l e : heap s !! l = Some e → deref (Some l) s = Done (e, s).
Proof. intros Hl. unfold deref. cbn. by rewrite Hl. Qed.

Lemma set_next_Some s l e n : heap s !! l = Some e →
  set_next (Some l) n s =
    Done ((), mkList (<[l := mkElement n (key e) (item e)]> (heap s)) (first s) (last s)).
Proof. intros Hl. unfold set_next. by rewrite (bind_Done _ _ _ _ _ (deref_Some _ _ _ Hl)). Qed.

Lemma new_ListElement_spec s cs it sk : rep s cs →
  ∃ l, new_ListElement it sk s =
         Done (l, mkList (<[l := mkElement None sk it]> (heap s)) (first s) (last s)) ∧
       heap s !! l = None ∧ l ∉ cs.*1 ∧
       seg (<[l := mkElement None sk it]> (heap s)) (first s) cs None.
Proof.
  intros Hr. exists (fresh (dom (heap s))). split; [reflexivity|].
  assert (fresh (dom (heap s)) ∉ cs.*1) as Hf.
  { intros Hin. eapply seg_dom in Hin; [|apply Hr]. by apply is_fresh in Hin. }
  split_and!; [apply not_elem_of_dom, is_fresh|done|apply seg_insert; [done|apply Hr]].
Qed.

Lemma rep_empty s cs : rep s cs → bool_decide (first s = None) = bool_decide (cs = []).
Proof.
  intros Hr. apply bool_decide_ext. split; [|intros ->; apply Hr].
  intros Hf. pose proof (rep_seg _ _ Hr) as Hs. rewrite Hf in Hs. by eapply seg_nil_first.
Qed.

(** ** The operations on the represented list *)

(** Insertion before the first element of a larger key. *)
Fixpoint insert_by_key (c : nat * (Z * option A)) (cs : list (nat * (Z * option A))) :
    list (nat * (Z * option A)) :=
  match cs with
  | [] => [c]
  | c' :: cs' => if (c.2.1 <? c'.2.1)%Z then c :: c' :: cs' else c' :: insert_by_key c cs'
  end.

Lemma insert_by_key_perm c cs : insert_by_key c cs ≡ₚ c :: cs.
Proof.
  induction cs as [|c' cs IH]; cbn; [done|]. destruct (_ <? _)%Z; [done|].
  rewrite IH. apply Permutation_swap.
Qed.

Lemma insert_by_key_end c cs : (∀ c', c' ∈ cs → (c'.2.1 <= c.2.1)%Z) → insert_by_key c cs = cs ++ [c].
Proof.
  induction cs as [|c' cs IH]; cbn; [done|]. intros Hle.
  destruct (Z.ltb_spec c.2.1 c'.2.1); [specialize (Hle c' ltac:(set_solver)); lia|].
  rewrite IH; [done|]. set_solver.
Qed.

Lemma link_last s cs c l k it :
  seg (heap s) (first s) (cs ++ [c]) None → NoDup (cs ++ [c]).*1 → last s = Some c.1 →
  heap s !! l = Some (mkElement None k it) → l ∉ (cs ++ [c]).*1 →
  ∃ s', (set_next (last s) (Some l) ;;; set_last (Some l)) s = Done ((), s') ∧
    rep s' (cs ++ [c; (l, (k, it))]) ∧ frame s s' (cs ++ [c]).
Proof.
  intros Hs Hnd Hlast Hl Hnin. destruct c as [lc [kc itc]]. cbn in Hlast.
  rewrite fmap_app in Hnd, Hnin. cbn in Hnd, Hnin.
  apply NoDup_app in Hnd as (Hnd & Hdis & _).
  assert (lc ∉ cs.*1 ∧ l ∉ cs.*1 ∧ lc ≠ l) as (Hc & Hl' & Hne) by set_solver.
  pose proof Hs as Hs'. apply seg_app in Hs' as (r & _ & -> & n & Hlk & _).
  pose proof (seg_snoc _ _ _ _ _ _ None l (mkElement None k it) Hc Hl' Hne Hs eq_refl Hl) as Hseg.
  unfold set_next, deref, bind. cbn. rewrite Hlast. cbn. rewrite Hlk. cbn.
  eexists. split; [reflexivity|]. split.
  - constructor; cbn; [exact Hseg| |].
    + rewrite fmap_app. cbn. apply NoDup_app. split_and!; [done|set_solver|].
      repeat constructor; set_solver.
    + intros c' cs' He. change [(lc, (kc, itc)); (l, (k, it))] with ([(lc, (kc, itc))] ++ [(l, (k, it))]) in He.
      rewrite app_assoc in He. apply app_inj_tail in He as [_ <-]. done.
  - intros l' e He Hin. cbn. rewrite lookup_insert_ne; [done|].
    rewrite fmap_app in Hin. cbn in Hin. set_solver.
Qed.

Lemma frame_alloc s s' l e cs :
  heap s !! l = None → frame (mkList (<[l := e]> (heap s)) (first s) (last s)) s' cs → frame s s' cs.
Proof.
  intros Hl Hf l' e' He Hin. apply Hf; [|done]. cbn. rewrite lookup_insert_ne; [done|congruence].
Qed.

Lemma frame_insert s l e cs fs ls : heap s !! l = None →
  frame s (mkList (<[l := e]> (heap s)) fs ls) cs.
Proof. intros Hl l' e' He _. cbn. rewrite lookup_insert_ne; [done|congruence]. Qed.

Lemma rep_singleton s l k it :
  rep (mkList (<[l := mkElement None k it]> (heap s)) (Some l) (Some l)) [(l, (k, it))].
Proof.
  constructor; cbn; [split; [done|]|by repeat constructor; set_solver|].
  - exists None. by rewrite lookup_insert_eq.
  - intros c [|? [|]]; cbn; intros ?; by simplify_eq.
Qed.

Lemma Append_rep s cs it : rep s cs →
  ∃ l s', Append it s = Done ((), s') ∧ rep s' (cs ++ [(l, (0%Z, it))]) ∧
    heap s !! l = None ∧ frame s s' cs.
Proof.
  intros Hr. destruct (new_ListElement_spec s cs it 0 Hr) as (l & Hnew & Hl & Hnin & Hseg).
  unfold Append, bind at 1. rewrite Hnew. unfold IsEmpty, bind, get. cbn.
  rewrite (rep_empty s cs Hr). destruct cs as [|c cs _] using rev_ind.
  - cbn. eexists l, _. split; [reflexivity|]. split_and!; [apply rep_singleton|done|by apply frame_insert].
  - rewrite bool_decide_false by (by destruct cs).
    destruct (link_last (mkList (<[l := mkElement None 0 it]> (heap s)) (first s) (last s)) cs c l 0 it)
      as (s' & Hrun & Hrep & Hfr).
    + done.
    + apply Hr.
    + cbn. by eapply Hr.
    + cbn. by rewrite lookup_insert_eq.
    + done.
    + exists l, s'. rewrite <- app_assoc. split; [exact Hrun|].
      split_and!; [done|done|]. by eapply frame_alloc.
Qed.

Lemma cons_front s cs l k it n : rep s cs → heap s !! l = None → l ∉ cs.*1 → n = first s → cs ≠ [] →
  rep (mkList (<[l := mkElement n k it]> (heap s)) (Some l) (last s)) ((l, (k, it)) :: cs).
Proof.
  intros Hr Hl Hnin -> Hne. constructor; cbn.
  - split; [done|]. exists (first s). rewrite lookup_insert_eq. split; [done|].
    apply seg_insert; [done|apply Hr].
  - constructor; [done|apply Hr].
  - intros c [|c' cs']; cbn; intros He; [by simplify_eq|].
    simplify_eq. eapply Hr. done.
Qed.

Lemma Prepend_rep s cs it : rep s cs →
  ∃ l s', Prepend it s = Done ((), s') ∧ rep s' ((l, (0%Z, it)) :: cs) ∧
    heap s !! l = None ∧ frame s s' cs.
Proof.
  intros Hr. destruct (new_ListElement_spec s cs it 0 Hr) as (l & Hnew & Hl & Hnin & Hseg).
  unfold Prepend, bind at 1. rewrite Hnew. unfold IsEmpty, set_next, deref, bind, get. cbn.
  rewrite (rep_empty s cs Hr). destruct (decide (cs = [])) as [->|Hne].
  - cbn. eexists l, _. split; [reflexivity|]. split_and!; [apply rep_singleton|done|by apply frame_insert].
  - rewrite bool_decide_false by done. cbn. rewrite lookup_insert_eq. cbn.
    eexists l, _. split; [reflexivity|]. rewrite insert_insert_eq. split_and!; [|done|].
    + by apply (cons_front s).
    + by apply frame_insert.
Qed.

Lemma SortedRemove_rep s cs : rep s cs →
  ∃ s', SortedRemove s = Done (match cs with [] => (None, None) | c :: _ => (c.2.2, Some c.2.1) end, s') ∧
    rep s' (tail cs) ∧ frame s s' cs ∧
    heap s' = match cs with [] => heap s | c :: _ => delete c.1 (heap s) end.
Proof.
  intros Hr. unfold SortedRemove, IsEmpty, deref, bind, get. cbn. rewrite (rep_empty s cs Hr).
  destruct cs as [|[l [k it]] cs]; cbn.
  { exists s. split_and!; [done|done| |done]. by intros l e He _. }
  pose proof (rep_seg _ _ Hr) as (Hf & n & Hl & Hs). rewrite Hf. cbn. rewrite Hl. cbn.
  pose proof (rep_nodup _ _ Hr) as Hnd. cbn in Hnd. apply NoDup_cons in Hnd as [Hnin Hnd].
  assert (∀ fs ls, frame s (mkList (delete l (heap s)) fs ls) ((l, (k, it)) :: cs)) as Hfr.
  { intros fs ls l' e He Hin. cbn in *. rewrite lookup_delete_ne; [done|]. set_solver. }
  destruct cs as [|c cs _] using rev_ind.
  - assert (last s = Some l) as -> by (by apply (rep_last _ _ Hr (l, (k, it)) [])).
    rewrite bool_decide_true by done. cbn.
    eexists. split; [reflexivity|]. split; [|split; [apply Hfr|done]].
    constructor; cbn; [done|constructor|]. by intros ? [].
  - assert (last s = Some c.1) as Hlast by (by apply (rep_last _ _ Hr c ((l, (k, it)) :: cs))).
    rewrite Hlast. rewrite bool_decide_false.
    2: { intros [= ->]. apply Hnin. rewrite fmap_app. cbn. set_solver. }
    cbn. eexists. split; [reflexivity|]. split; [|split; [apply Hfr|done]].
    constructor; cbn; [by apply seg_delete|done|].
    intros c' cs' He. rewrite Hlast. by apply app_inj_tail in He as [_ <-].
Qed.

Lemma insert_by_key_last c cs c0 : c0 ∈ cs → (c.2.1 < c0.2.1)%Z →
  ∀ c' cs', insert_by_key c cs = cs' ++ [c'] → ∃ cs'', cs = cs'' ++ [c'].
Proof.
  induction cs as [|d cs IH]; cbn; [set_solver|]. intros Hin Hlt c' cs'.
  destruct (Z.ltb_spec c.2.1 d.2.1).
  - destruct cs' as [|? cs']; [done|]. intros [= -> He]. by exists cs'.
  - apply elem_of_cons in Hin as [->|Hin]; [lia|].
    destruct cs' as [|? cs']; intros [= -> He].
    + pose proof (insert_by_key_perm c cs) as Hp. rewrite He in Hp. by apply Permutation_nil_cons in Hp.
    + edestruct IH as [cs'' ->]; [done..|]. by eexists (_ :: cs'').
Qed.

Lemma insert_by_key_locs c cs l : l ∈ (insert_by_key c cs).*1 ↔ l = c.1 ∨ l ∈ cs.*1.
Proof. rewrite (insert_by_key_perm c cs). cbn. by rewrite elem_of_cons. Qed.

Lemma insert_loop_spec fuel s l0 sk it0 l k it cs :
  seg (heap s) (Some l) ((l, (k, it)) :: cs) None →
  heap s !! l0 = Some (mkElement None sk it0) → l0 ∉ l :: cs.*1 → NoDup (l :: cs.*1) →
  length cs < fuel →
  (insert_loop fuel l0 sk (Some l) s = Done (false, s) ∧ ∀ c, c ∈ cs → (c.2.1 <= sk)%Z) ∨
  (∃ s', insert_loop fuel l0 sk (Some l) s = Done (true, s') ∧
     first s' = first s ∧ last s' = last s ∧
     seg (heap s') (Some l) ((l, (k, it)) :: insert_by_key (l0, (sk, it0)) cs) None ∧
     (∀ l', l' ≠ l0 → l' ∉ l :: cs.*1 → heap s' !! l' = heap s !! l') ∧
     ∃ c0, c0 ∈ cs ∧ (sk < c0.2.1)%Z).
Proof.
  revert s l k it cs. induction fuel as [|fuel IH]; intros s l k it cs Hs Hl0 Hnin Hnd Hfu; [lia|].
  cbn [insert_loop]. pose proof Hs as (_ & n & Hl & Hs').
  destruct cs as [|[l1 [k1 it1]] cs].
  { left. cbn in Hs'. subst n. rewrite (bind_Done _ _ _ _ _ (deref_Some _ _ _ Hl)). cbn. split; [done|]. set_solver. }
  pose proof Hs' as (-> & n1 & Hl1 & Hs1). cbn in Hnin, Hnd.
  apply NoDup_cons in Hnd as [Hlnin Hnd].
  assert (l0 ≠ l ∧ l0 ≠ l1 ∧ l0 ∉ cs.*1 ∧ l ≠ l1 ∧ l ∉ cs.*1) as (? & ? & ? & ? & ?) by set_solver.
  rewrite (bind_Done _ _ _ _ _ (deref_Some _ _ _ Hl)). cbn [next].
  rewrite (bind_Done _ _ _ _ _ (deref_Some _ _ _ Hl1)). cbn [key insert_by_key fst snd].
  destruct (Z.ltb_spec sk k1).
  - right. rewrite (bind_Done _ _ _ _ _ (set_next_Some _ _ _ _ Hl0)).
    erewrite bind_Done by (apply set_next_Some; cbn; by rewrite lookup_insert_ne).
    eexists. split; [reflexivity|]. cbn.
    split_and!; [done..| | |].
    + exists (Some l0). rewrite lookup_insert_eq. split; [done|]. split; [done|].
      exists (Some l1). rewrite lookup_insert_ne, lookup_insert_eq by done. split; [done|].
      do 2 (apply (seg_insert _ _ ((l1, (k1, it1)) :: cs)); [cbn; set_solver|]). done.
    + intros l' Hl'0 Hl'. rewrite !lookup_insert_ne by set_solver. done.
    + exists (l1, (k1, it1)). split; [set_solver|done].
  - cbn in Hfu. destruct (IH s l1 k1 it1 cs) as [[He Hle]|(s' & He & Hf & Hla & Hseg & Hout & c0 & Hc0 & Hk)];
      [done|done|set_solver|done|lia|left|right].
    + rewrite He. split; [done|]. intros c [->|Hc]%elem_of_cons; [cbn; lia|auto].
    + exists s'. rewrite He. split_and!; [done..| | |].
      * split; [done|]. exists (Some l1). rewrite Hout by set_solver. rewrite Hl. done.
      * intros l' Hl'0 Hl'. apply Hout; set_solver.
      * exists c0. split; [set_solver|done].
Qed.

(** Linking a new cell in behind the head and before a larger key keeps the
    representation. *)
Lemma rep_insert_mid s s' f cs c c0 :
  rep s (f :: cs) → c.1 ∉ (f :: cs).*1 → last s' = last s →
  seg (heap s') (first s') (f :: insert_by_key c cs) None →
  c0 ∈ cs → (c.2.1 < c0.2.1)%Z → rep s' (f :: insert_by_key c cs).
Proof.
  intros Hr Hnin Hla Hseg Hc0 Hk. constructor; [done| |].
  - pose proof (rep_nodup _ _ Hr) as Hnd. cbn in *. rewrite (insert_by_key_perm _ cs). cbn.
    apply NoDup_cons in Hnd as [? ?]. repeat constructor; set_solver.
  - intros c' [|d cs'] Heq; cbn in Heq.
    { apply (f_equal length) in Heq. cbn in Heq. by rewrite (Permutation_length (insert_by_key_perm _ _)) in Heq. }
    injection Heq as <- Heq. destruct (insert_by_key_last _ _ _ Hc0 Hk _ _ Heq) as [cs'' ->].
    rewrite Hla. by apply (rep_last _ _ Hr c' (f :: cs'')).
Qed.

Lemma SortedInsert_rep s cs it sk : rep s cs →
  ∃ l s', SortedInsert it sk s = Done ((), s') ∧ rep s' (insert_by_key (l, (sk, it)) cs) ∧
    heap s !! l = None ∧ frame s s' cs.
Proof.
  intros Hr. destruct (new_ListElement_spec s cs it sk Hr) as (l & Hnew & Hl & Hnin & Hseg).
  set (s1 := mkList (<[l := mkElement None sk it]> (heap s)) (first s) (last s)) in *.
  unfold SortedInsert. rewrite (bind_Done _ _ _ _ _ Hnew), (bind_Done IsEmpty _ _ _ _ eq_refl).
  change (first s1) with (first s). rewrite (rep_empty s cs Hr). destruct (decide (cs = [])) as [->|Hne].
  { cbn. eexists l, _. split; [reflexivity|]. split_and!; [apply rep_singleton|done|by apply frame_insert]. }
  rewrite bool_decide_false by done. destruct cs as [|[lf [kf itf]] cs]; [done|]. cbn in Hnin.
  pose proof Hseg as (Hfirst & nf & Hlf & Hsf).
  rewrite (bind_Done get _ _ _ _ eq_refl). change (first s1) with (first s). rewrite Hfirst.
  erewrite bind_Done by (apply deref_Some; exact Hlf). cbn [key insert_by_key fst snd].
  pose proof (rep_nodup _ _ Hr) as Hnd. cbn in Hnd.
  destruct (Z.ltb_spec sk kf).
  { erewrite bind_Done by (apply set_next_Some; cbn; by rewrite lookup_insert_eq).
    cbn. eexists l, _. split; [reflexivity|]. rewrite insert_insert_eq. split_and!; [|done|].
    - by apply (cons_front s).
    - by apply frame_insert. }
  assert (heap s1 !! l = Some (mkElement None sk it)) as Hl1 by (cbn; by rewrite lookup_insert_eq).
  assert (seg (heap s1) (Some lf) ((lf, (kf, itf)) :: cs) None) as Hseg1
    by (rewrite <- Hfirst; exact Hseg).
  assert (length cs < size (heap s1)) as Hsize.
  { pose proof (seg_size _ _ _ _ Hseg1 Hnd). cbn in *. lia. }
  destruct (insert_loop_spec (size (heap s1)) s1 l sk it lf kf itf cs)
    as [[He Hle]|(s' & He & Hf & Hla & Hseg' & Hout & c0 & Hc0 & Hk)]; [exact Hseg1|done..| |].
  - rewrite (bind_Done _ _ _ _ _ He), (bind_Done get _ _ _ _ eq_refl). destruct (exists_last Hne) as (cs0 & c & Heq).
    destruct (link_last s1 cs0 c l sk it) as (s' & Hrun & Hrep & Hfr).
    + rewrite <- Heq. exact Hseg.
    + rewrite <- Heq. done.
    + cbn. by eapply Hr.
    + done.
    + rewrite <- Heq. done.
    + exists l, s'. split; [exact Hrun|].
      rewrite insert_by_key_end by auto.
      change (?x :: cs ++ ?y) with ((x :: cs) ++ y). rewrite Heq, <- app_assoc.
      split_and!; [done|done|]. by eapply frame_alloc.
  - rewrite (bind_Done _ _ _ _ _ He). exists l, s'. split; [done|]. split_and!; [|done|].
    + eapply (rep_insert_mid s s'); [exact Hr|done|by rewrite Hla| |exact Hc0|done].
      rewrite Hf. cbn. rewrite Hfirst. exact Hseg'.
    + intros l' e He' Hin. assert (l' ≠ l) by congruence. rewrite Hout by done. cbn.
      by rewrite lookup_insert_ne.
Qed.

Lemma Remove_rep s cs : rep s cs →
  ∃ s', Remove s = Done (match cs with [] => None | c :: _ => c.2.2 end, s') ∧
    rep s' (tail cs) ∧ frame s s' cs ∧
    heap s' = match cs with [] => heap s | c :: _ => delete c.1 (heap s) end.
Proof.
  intros Hr. destruct (SortedRemove_rep s cs Hr) as (s' & He & ? & ? & ?). exists s'.
  unfold Remove. rewrite (bind_Done _ _ _ _ _ He). by destruct cs.
Qed.

Lemma mapcar_loop_spec s p cs fuel : seg (heap s) p cs None → length cs < fuel →
  mapcar_loop fuel p s = Done (cs.*2.*2, s).
Proof.
  revert p cs. induction fuel as [|fuel IH]; intros p cs Hs Hf; [lia|].
  destruct cs as [|[l [k it]] cs]; cbn in *; [by subst|].
  destruct Hs as (-> & n & Hl & Hs). rewrite (bind_Done _ _ _ _ _ (deref_Some _ _ _ Hl)). cbn.
  by rewrite (bind_Done _ _ _ _ _ (IH _ _ Hs ltac:(lia))).
Qed.

(** ** The abstract queue: a list of keyed items *)

Inductive cmd :=
| CAppend (it : option A) | CPrepend (it : option A) | CSortedInsert (it : option A) (k : Z)
| CSortedRemove | CRemove | CIsEmpty | CMapcar.

Inductive reply :=
| RUnit | RItem (it : option A) (k : option Z) | RBool (b : bool) | RItems (l : list (option A)).

(** What the code does for each command. *)
Definition exec_cmd (c : cmd) : M List reply :=
  match c with
  | CAppend it => Append it ;;; ret RUnit
  | CPrepend it => Prepend it ;;; ret RUnit
  | CSortedInsert it k => SortedInsert it k ;;; ret RUnit
  | CSortedRemove => let! r := SortedRemove in ret (RItem r.1 r.2)
  | CRemove => let! r := Remove in ret (RItem r None)
  | CIsEmpty => let! b := IsEmpty in ret (RBool b)
  | CMapcar => let! l := Mapcar in ret (RItems l)
  end.

Fixpoint spec_insert (x : Z * option A) (xs : list (Z * option A)) : list (Z * option A) :=
  match xs with
  | [] => [x]
  | y :: ys => if (x.1 <? y.1)%Z then x :: y :: ys else y :: spec_insert x ys
  end.

(** What a queue does. *)
Definition spec_cmd (c : cmd) (xs : list (Z * option A)) : reply * list (Z * option A) :=
  match c with
  | CAppend it => (RUnit, xs ++ [(0%Z, it)])
  | CPrepend it => (RUnit, (0%Z, it) :: xs)
  | CSortedInsert it k => (RUnit, spec_insert (k, it) xs)
  | CSortedRemove =>
      match xs with [] => (RItem None None, []) | (k, it) :: xs' => (RItem it (Some k), xs') end
  | CRemove => match xs with [] => (RItem None None, []) | (k, it) :: xs' => (RItem it None, xs') end
  | CIsEmpty => (RBool (bool_decide (xs = [])), xs)
  | CMapcar => (RItems xs.*2, xs)
  end.

Fixpoint exec_cmds (cs : list cmd) : M List (list reply) :=
  match cs with
  | [] => ret []
  | c :: cs' => let! r := exec_cmd c in let! rs := exec_cmds cs' in ret (r :: rs)
  end.
Fixpoint spec_cmds (cs : list cmd) (xs : list (Z * option A)) : list reply * list (Z * option A) :=
  match cs with
  | [] => ([], xs)
  | c :: cs' => let '(r, xs1) := spec_cmd c xs in
                let '(rs, xs2) := spec_cmds cs' xs1 in (r :: rs, xs2)
  end.

Lemma insert_by_key_snd c cs : (insert_by_key c cs).*2 = spec_insert c.2 cs.*2.
Proof. induction cs as [|c' cs IH]; cbn; [done|]. destruct (_ <? _)%Z; cbn; congruence. Qed.

(** The locations a step may add to a list were free before it. *)
Definition grows (s : List) (cs cs' : list (nat * (Z * option A))) : Prop :=
  ∀ l, l ∈ cs'.*1 → l ∈ cs.*1 ∨ heap s !! l = None.

Lemma exec_cmd_refines c s cs : rep s cs →
  ∃ s' cs', exec_cmd c s = Done ((spec_cmd c cs.*2).1, s') ∧ rep s' cs' ∧
    cs'.*2 = (spec_cmd c cs.*2).2 ∧ frame s s' cs ∧ grows s cs cs'.
Proof.
  intros Hr. destruct c as [it|it|it k| | | |]; cbn [exec_cmd spec_cmd fst snd].
  - destruct (Append_rep s cs it Hr) as (l & s' & He & Hr' & Hl & Hf). rewrite (bind_Done _ _ _ _ _ He).
    eexists s', _. split_and!; [done|exact Hr'|by rewrite fmap_app|done|].
    intros l'. rewrite fmap_app, elem_of_app. cbn. set_solver.
  - destruct (Prepend_rep s cs it Hr) as (l & s' & He & Hr' & Hl & Hf). rewrite (bind_Done _ _ _ _ _ He).
    eexists s', _. split_and!; [done|exact Hr'|done|done|]. intros l'. cbn. set_solver.
  - destruct (SortedInsert_rep s cs it k Hr) as (l & s' & He & Hr' & Hl & Hf).
    rewrite (bind_Done _ _ _ _ _ He).
    eexists s', _. split_and!; [done|exact Hr'|apply insert_by_key_snd|done|].
    intros l' [->| ]%insert_by_key_locs; [by right|by left].
  - destruct (SortedRemove_rep s cs Hr) as (s' & He & Hr' & Hf & _). rewrite (bind_Done _ _ _ _ _ He).
    exists s', (tail cs). split_and!; [by destruct cs as [|[? []]]|done|by destruct cs as [|[? []]]|done|].
    intros l'. destruct cs; cbn; set_solver.
  - destruct (Remove_rep s cs Hr) as (s' & He & Hr' & Hf & _). rewrite (bind_Done _ _ _ _ _ He).
    exists s', (tail cs). split_and!; [by destruct cs as [|[? []]]|done|by destruct cs as [|[? []]]|done|].
    intros l'. destruct cs; cbn; set_solver.
  - exists s, cs. split_and!; [|done|done|by intros ? ?|by left].
    unfold IsEmpty, bind, get, ret. rewrite (rep_empty s cs Hr). by destruct cs.
  - exists s, cs. split_and!; [|done|done|by intros ? ?|by left]. unfold Mapcar.
    pose proof (seg_size _ _ _ _ (rep_seg _ _ Hr) (rep_nodup _ _ Hr)).
    unfold bind at 1 2, get at 1. by rewrite (mapcar_loop_spec s _ cs) by (apply Hr || lia).
Qed.

Lemma destroy_loop_spec fuel s cs : rep s cs → length cs < fuel → (∀ c, c ∈ cs → c.2.2 ≠ None) →
  ∃ s', destroy_loop fuel s = Done ((), s') ∧ rep s' [] ∧
    ∀ l, heap s' !! l = if decide (l ∈ cs.*1) then None else heap s !! l.
Proof.
  revert s cs. induction fuel as [|fuel IH]; intros s cs Hr Hf Hnn; [lia|]. cbn [destroy_loop].
  destruct (Remove_rep s cs Hr) as (s1 & He & Hr1 & Hh1). rewrite (bind_Done _ _ _ _ _ He).
  destruct cs as [|[l [k [it|]]] cs]; cbn in *;
    [exists s1; destruct Hh1 as [_ ->]; split_and!; [done|done|]; intros l; by case_decide; [set_solver|]
    | |by destruct (Hnn _ (list_elem_of_here _ _))].
  destruct (IH s1 cs Hr1 ltac:(lia)) as (s' & -> & Hr' & Hh); [set_solver|].
  exists s'. split_and!; [done..|]. intros l'. rewrite Hh. destruct Hh1 as [_ ->].
  destruct (decide (l' = l)) as [->|Hne].
  - rewrite lookup_delete_eq. rewrite (decide_True (P := l ∈ l :: _)) by set_solver. by case_decide.
  - rewrite lookup_delete_ne by done.
    by rewrite (decide_ext (l' ∈ l :: cs.*1) (l' ∈ cs.*1)) by set_solver.
Qed.

(** ** Properties *)

(** C14: a linked list refines a queue of keyed items: any sequence of
    operations returns what the queue returns, leaves a list that represents
    the queue's contents, and touches no element of any other list. *)
Theorem List_refines_queue cmds s cs : rep s cs →
  ∃ s' cs', exec_cmds cmds s = Done ((spec_cmds cmds cs.*2).1, s') ∧ rep s' cs' ∧
    cs'.*2 = (spec_cmds cmds cs.*2).2 ∧ frame s s' cs.
Proof.
  revert s cs. induction cmds as [|c cmds IH]; intros s cs Hr; cbn.
  { exists s, cs. split_and!; [done..|by intros ? ?]. }
  destruct (exec_cmd_refines c s cs Hr) as (s1 & cs1 & He & Hr1 & Heq & Hf1 & Hg).
  rewrite (bind_Done _ _ _ _ _ He). destruct (spec_cmd c cs.*2) as [r xs1]; cbn in *. subst xs1.
  destruct (IH s1 cs1 Hr1) as (s' & cs' & He' & Hr' & Heq' & Hf').
  rewrite (bind_Done _ _ _ _ _ He'). destruct (spec_cmds cmds cs1.*2) as [rs xs2]; cbn in *.
  exists s', cs'. split_and!; [done..|]. intros l e Hl Hin. apply Hf'; [by apply Hf1|].
  intros [?|?]%Hg; [done|congruence].
Qed.

(** [SortedInsert] keeps a sorted list sorted and is stable: the new
    item goes after every item of a smaller or equal key and before every item
    of a larger one, and no item is lost. *)
Theorem SortedInsert_stable s cs it sk : rep s cs → StronglySorted (λ c c', c.2.1 <= c'.2.1)%Z cs →
  ∃ l s' cs1 cs2, SortedInsert it sk s = Done ((), s') ∧ cs = cs1 ++ cs2 ∧
    rep s' (cs1 ++ (l, (sk, it)) :: cs2) ∧
    StronglySorted (λ c c', c.2.1 <= c'.2.1)%Z (cs1 ++ (l, (sk, it)) :: cs2) ∧
    (∀ c, c ∈ cs1 → (c.2.1 <= sk)%Z) ∧ (∀ c, c ∈ cs2 → (sk < c.2.1)%Z).
Proof.
  intros Hr Hsort. destruct (SortedInsert_rep s cs it sk Hr) as (l & s' & He & Hr' & _ & _).
  exists l, s'. clear Hr. assert (∃ cs1 cs2, cs = cs1 ++ cs2 ∧
    insert_by_key (l, (sk, it)) cs = cs1 ++ (l, (sk, it)) :: cs2 ∧
    StronglySorted (λ c c', c.2.1 <= c'.2.1)%Z (cs1 ++ (l, (sk, it)) :: cs2) ∧
    (∀ c, c ∈ cs1 → (c.2.1 <= sk)%Z) ∧ (∀ c, c ∈ cs2 → (sk < c.2.1)%Z)) as (cs1 & cs2 & -> & Hi & ?).
  2: { exists cs1, cs2. rewrite Hi in Hr'. tauto. }
  clear -Hsort. induction Hsort as [|c cs Hsort IH Hall]; cbn.
  { exists [], []. cbn. split_and!; [done..| |set_solver|set_solver]. repeat constructor. }
  rewrite Forall_forall in Hall. destruct (Z.ltb_spec sk c.2.1) as [Hlt|Hge].
  - exists [], (c :: cs). cbn. split_and!; [done..| |set_solver|].
    + constructor; [by constructor; [|apply Forall_forall]|]. apply Forall_forall. cbn.
      intros c' [->|Hin]%elem_of_cons; [lia|]. specialize (Hall c' Hin). lia.
    + intros c' [->|Hin]%elem_of_cons; [lia|]. specialize (Hall c' Hin). lia.
  - destruct IH as (cs1 & cs2 & -> & Hi & Hs & H1 & H2). exists (c :: cs1), cs2. cbn.
    rewrite Hi. split_and!; [done..| | |done].
    + constructor; [done|]. apply Forall_forall. intros c'.
      rewrite elem_of_app, elem_of_cons. intros [?|[->|?]]; [apply Hall; set_solver|done|].
      apply Hall. set_solver.
    + intros c' [->|?]%elem_of_cons; [done|auto].
Qed.

(** The destructor returns, frees every element of the list and no other,
    and leaves the list empty, when no queued item is NULL. *)
Theorem destroy_List_frees s cs : rep s cs → (∀ c, c ∈ cs → c.2.2 ≠ None) →
  ∃ s', destroy_List s = Done ((), s') ∧ rep s' [] ∧
    ∀ l, heap s' !! l = if decide (l ∈ cs.*1) then None else heap s !! l.
Proof.
  intros Hr Hnn. unfold destroy_List. rewrite (bind_Done get _ _ _ _ eq_refl).
  apply destroy_loop_spec; [done| |done].
  pose proof (seg_size _ _ _ _ (rep_seg _ _ Hr) (rep_nodup _ _ Hr)). lia.
Qed.

End ptr_list.
Arguments ListElement : clear implicits.
Arguments List : clear implicits.

(** ** Examples *)

(** A list of two items with keys 1 and 5, at addresses 0 and 1. *)
Definition example_list : List nat :=
  mkList {[0 := mkElement (Some 1) 1 (Some 10); 1 := mkElement None 5 (Some 20)]} (Some 0) (Some 1).
Definition example_cells : list (nat * (Z * option nat)) := [(0, (1%Z, Some 10)); (1, (5%Z, Some 20))].

Lemma example_rep : rep example_list example_cells.
Proof.
  constructor.
  - cbn. split; [done|]. exists (Some 1). split; [done|]. split; [done|]. by exists None.
  - by repeat constructor; set_solver.
  - intros c [|c1 [|c2 [|c3 cs']]] Hc; unfold example_cells in Hc; cbn in Hc;
      by simplify_eq.
Qed.

Lemma List_refines_queue_witness : ∃ s' cs',
  exec_cmds [CAppend (Some 30); CRemove; CIsEmpty] example_list = Done ((spec_cmds [CAppend (Some 30); CRemove; CIsEmpty] example_cells.*2).1, s') ∧
  rep s' cs' ∧ cs'.*2 = (spec_cmds [CAppend (Some 30); CRemove; CIsEmpty] example_cells.*2).2 ∧
  frame example_list s' example_cells.
Proof. exact (List_refines_queue _ _ _ example_rep). Defined.

Lemma SortedInsert_stable_witness : ∃ l s' cs1 cs2,
  SortedInsert (Some 30) 1 example_list = Done ((), s') ∧ example_cells = cs1 ++ cs2 ∧
  rep s' (cs1 ++ (l, (1%Z, Some 30)) :: cs2) ∧
  StronglySorted (λ c c', c.2.1 <= c'.2.1)%Z (cs1 ++ (l, (1%Z, Some 30)) :: cs2) ∧
  (∀ c, c ∈ cs1 → (c.2.1 <= 1)%Z) ∧ (∀ c, c ∈ cs2 → (1 < c.2.1)%Z).
Proof. apply (SortedInsert_stable _ _ _ _ example_rep). by repeat constructor. Defined.

Lemma destroy_List_frees_witness : ∃ s', destroy_List example_list = Done ((), s') ∧ rep s' [] ∧
  ∀ l, heap s' !! l = if decide (l ∈ example_cells.*1) then None else heap example_list !! l.
Proof.
  apply (destroy_List_frees _ _ example_rep).
  intros c [->|[->|[]%elem_of_nil]%elem_of_cons]%elem_of_cons; done.
Defined.
