(* ===== verification/Slots.v ===== *)
(** * Slots: the numbered tables of named objects of network/nettest.cc *)
From S2P Require Import Prelude.
From S2P Require Import BitMap.
From stdpp Require Import base list strings.
From Stdlib Require Import ZArith Lia ZifyBool.

Local Open Scope Z_scope.

(** ** The allocator interface *)

(** What a table needs of the object that hands out its slot numbers. *)
Class Allocator (B : Type) := {
  a_size : B → Z;
  a_wf : B → Prop;
  a_used : B → Z → bool;
  a_find : B → outcome (Z * B);
  a_clear : B → Z → outcome B;
  a_find_spec b : a_wf b →
    (a_find b = Done (-1, b) ∧ ∀ i, 0 <= i < a_size b → a_used b i = true) ∨
    (∃ k b', a_find b = Done (k, b') ∧ 0 <= k < a_size b ∧ a_used b k = false ∧
       (∀ j, 0 <= j < k → a_used b j = true) ∧ a_wf b' ∧ a_size b' = a_size b ∧
       ∀ j, 0 <= j → a_used b' j = (j =? k) || a_used b j);
  a_clear_spec b i : a_wf b → 0 <= i < a_size b →
    ∃ b', a_clear b i = Done b' ∧ a_wf b' ∧ a_size b' = a_size b ∧
      ∀ j, 0 <= j → a_used b' j = negb (j =? i) && a_used b j
}.

#[export] Instance BitMap_allocator : Allocator BitMap := {|
  a_size := numBits; a_wf := BitMap.wf; a_used := used; a_find := Find; a_clear := Clear;
  a_find_spec := Find_cases; a_clear_spec := Clear_spec
|}.

(** Objects looked up by name. *)
Class Named (T : Type) := name_of : T → string.

Section slots.
Context {B : Type} {alloc : Allocator B} {T : Type} {named : Named T}.

(** A [BitMap] and the [vector] of pointers it numbers; [None] is NULL. *)
Record Slots := mkSlots { slot_map : B; slot_vec : list (option T) }.

(** [checkIf...IDExists] *)
Definition id_exists (t : Slots) (id : Z) : bool :=
  if (Z.of_nat (length (slot_vec t)) <=? id) || (id <? 0) then false
  else match slot_vec t !! Z.to_nat id with Some (Some _) => true | _ => false end.

(** [find...Named] *)
Definition find_named (t : Slots) (name : string) : Z :=
  find_index (λ o, match o with Some x => String.eqb (name_of x) name | None => false end)
             (slot_vec t).

(** Dereferencing [vec[id]]. *)
Definition slot_get (t : Slots) (id : Z) : outcome T :=
  let? o := vget (slot_vec t) id in
  match o with Some x => Done x | None => Fault NullDeref end.

(** Writing through the pointer [vec[id]]. *)
Definition slot_set (t : Slots) (id : Z) (x : T) : outcome Slots :=
  let? v := vset (slot_vec t) id (Some x) in Done (mkSlots (slot_map t) v).

(** [vec[index]] gets a new object: [push_back] at the end, an assignment
    below it, [ASSERT(FALSE)] beyond. *)
Definition slot_place (t : Slots) (index : Z) (x : T) : outcome Slots :=
  if index =? Z.of_nat (length (slot_vec t)) then
    Done (mkSlots (slot_map t) (slot_vec t ++ [Some x]))
  else if index <? Z.of_nat (length (slot_vec t)) then
    let? v := vset (slot_vec t) index (Some x) in Done (mkSlots (slot_map t) v)
  else Fault AssertFailed.

(** The new object [x] goes into the slot [Find()] returns; [-1] when the
    table is full. *)
Definition slot_new (t : Slots) (x : T) : outcome (Z * Slots) :=
  let? r := a_find (slot_map t) in
  let (index, m) := r : Z * B in
  if index =? -1 then Done (-1, mkSlots m (slot_vec t))
  else let? t' := slot_place (mkSlots m (slot_vec t)) index x in Done (index, t').

(** [vec[id] = NULL] and [Clear(id)]. *)
Definition slot_delete (t : Slots) (id : Z) : outcome Slots :=
  let? v := vset (slot_vec t) id None in
  let? m := a_clear (slot_map t) id in
  Done (mkSlots m v).

(** ** The table invariant *)

(** The entry at [id]. *)
Definition entry (t : Slots) (id : Z) (x : T) : Prop :=
  0 <= id ∧ slot_vec t !! Z.to_nat id = Some (Some x).

Record slots_wf (size : Z) (ok : T → Prop) (t : Slots) : Prop := {
  sw_map : a_wf (slot_map t);
  sw_size : a_size (slot_map t) = size;
  sw_len : Z.of_nat (length (slot_vec t)) <= size;
  sw_used : ∀ i, 0 <= i < size → a_used (slot_map t) i = true ↔ ∃ x, entry t i x;
  sw_names : ∀ i j x y, entry t i x → entry t j y → name_of x = name_of y → i = j;
  sw_ok : ∀ i x, entry t i x → ok x
}.

Lemma entry_range t i x : entry t i x → 0 <= i < Z.of_nat (length (slot_vec t)).
Proof. intros [Hi Hx%lookup_lt_Some]. lia. Qed.

Lemma entry_fun t i x y : entry t i x → entry t i y → x = y.
Proof. intros [_ Hx] [_ Hy]. congruence. Qed.

Lemma slot_get_entry t i x : entry t i x → slot_get t i = Done x.
Proof.
  intros [Hi Hx]. unfold slot_get, vget. rewrite (proj2 (Z.leb_le _ _) Hi). by rewrite Hx.
Qed.

Lemma id_exists_spec t id : id_exists t id = true ↔ ∃ x, entry t id x.
Proof.
  unfold id_exists, entry. destruct (_ || _) eqn:Hr.
  - split; [done|]. intros (x & Hi & Hx). apply lookup_lt_Some in Hx. lia.
  - destruct (slot_vec t !! Z.to_nat id) as [[x|]|]; split; try done; try naive_solver.
    intros _. exists x. split; [lia|done].
Qed.

Lemma find_named_None t name :
  find_named t name = -1 ↔ ∀ i x, entry t i x → name_of x ≠ name.
Proof.
  unfold find_named. rewrite find_index_None. split.
  - intros Ha i x [_ Hx] <-. specialize (Ha _ _ Hx). cbn in Ha. by rewrite String.eqb_refl in Ha.
  - intros Ha j [x|] Hx; [|done]. apply String.eqb_neq. apply (Ha (Z.of_nat j)).
    split; [lia|by rewrite Nat2Z.id].
Qed.

Lemma find_named_cases t name :
  (find_named t name = -1 ∧ ∀ i x, entry t i x → name_of x ≠ name) ∨
  (∃ i x, find_named t name = i ∧ entry t i x ∧ name_of x = name).
Proof.
  unfold find_named.
  destruct (find_index_spec (λ o, match o with Some x => String.eqb (name_of x) name | None => false end)
    (slot_vec t)) as [[Hf _]|(j & o & Hf & Hj & Ho & _)].
  - left. split; [done|]. by apply find_named_None.
  - right. destruct o as [x|]; [|done]. exists (Z.of_nat j), x. split_and!; [done| |by apply String.eqb_eq].
    split; [lia|by rewrite Nat2Z.id].
Qed.

Lemma find_named_Some size ok t name i x : slots_wf size ok t → entry t i x → name_of x = name →
  find_named t name = i.
Proof.
  intros Hwf Hx Hn. destruct (find_named_cases t name) as [[_ Ha]|(j & y & -> & Hy & Hny)].
  - by destruct (Ha i x Hx).
  - eapply sw_names; [done..|congruence].
Qed.

Lemma entry_insert t i x m : 0 <= i < Z.of_nat (length (slot_vec t)) →
  ∀ j y, entry (mkSlots m (<[Z.to_nat i := Some x]> (slot_vec t))) j y ↔
    (j = i ∧ y = x) ∨ (j ≠ i ∧ entry t j y).
Proof.
  intros Hi j y. unfold entry. cbn. destruct (decide (j = i)) as [->|Hne].
  - rewrite list_lookup_insert_eq by lia. naive_solver lia.
  - destruct (decide (0 <= j)) as [Hj|]; [|naive_solver lia].
    rewrite list_lookup_insert_ne by lia. naive_solver lia.
Qed.

Lemma entry_snoc t x m : ∀ j y,
  entry (mkSlots m (slot_vec t ++ [Some x])) j y ↔
    (j = Z.of_nat (length (slot_vec t)) ∧ y = x) ∨ (j ≠ Z.of_nat (length (slot_vec t)) ∧ entry t j y).
Proof.
  intros j y. unfold entry. cbn. split.
  - intros [Hj Hy]. apply lookup_app_Some in Hy as [Hy|[Hl Hy]].
    + right. split; [apply lookup_lt_Some in Hy; lia|done].
    + left. apply list_lookup_singleton_Some in Hy as [? ?]. naive_solver lia.
  - intros [[-> ->]|[Hne [Hj Hy]]].
    + split; [lia|]. rewrite Nat2Z.id, lookup_app_r by lia. by rewrite Nat.sub_diag.
    + split; [done|]. rewrite lookup_app_l; [done|]. by eapply lookup_lt_Some.
Qed.

Lemma entry_delete t i m : 0 <= i < Z.of_nat (length (slot_vec t)) →
  ∀ j y, entry (mkSlots m (<[Z.to_nat i := None]> (slot_vec t))) j y ↔ j ≠ i ∧ entry t j y.
Proof.
  intros Hi j y. unfold entry. cbn. destruct (decide (j = i)) as [->|Hne].
  - rewrite list_lookup_insert_eq by lia. naive_solver.
  - destruct (decide (0 <= j)) as [Hj|]; [|naive_solver lia].
    rewrite list_lookup_insert_ne by lia. naive_solver.
Qed.

(** A write through a pointer that keeps the name keeps the invariant. *)
Lemma slot_set_wf size ok t i x y : slots_wf size ok t → entry t i x →
  name_of y = name_of x → ok y →
  ∃ t', slot_set t i y = Done t' ∧ slots_wf size ok t' ∧
    ∀ j z, entry t' j z ↔ (j = i ∧ z = y) ∨ (j ≠ i ∧ entry t j z).
Proof.
  intros Hwf Hx Hn Hok. pose proof (entry_range _ _ _ Hx) as Hr.
  unfold slot_set. rewrite vset_in by done. cbn. eexists. split; [reflexivity|].
  pose proof (entry_insert t i y (slot_map t) Hr) as He. split; [|exact He].
  destruct Hwf as [? ? ? Hu Hnm Ho]. constructor; cbn; [done..| | | |].
  - by rewrite length_insert.
  - intros j Hj. rewrite Hu by done. setoid_rewrite He. destruct (decide (j = i)) as [->|]; naive_solver.
  - intros j k z w. rewrite !He. intros [[-> ->]|[? ?]] [[-> ->]|[? ?]] Hzw; [done| | |by eauto].
    + symmetry. eapply Hnm; [done..|congruence].
    + eapply Hnm; [done..|congruence].
  - intros j z. rewrite He. naive_solver.
Qed.

Lemma slot_delete_wf size ok t i x : slots_wf size ok t → entry t i x →
  ∃ t', slot_delete t i = Done t' ∧ slots_wf size ok t' ∧
    ∀ j z, entry t' j z ↔ j ≠ i ∧ entry t j z.
Proof.
  intros Hwf Hx. pose proof (entry_range _ _ _ Hx) as Hr. destruct Hwf as [Hm Hs Hl Hu Hnm Ho].
  destruct (a_clear_spec (slot_map t) i Hm ltac:(lia)) as (m & Hc & Hm' & Hs' & Hu').
  unfold slot_delete. rewrite vset_in by done. cbn. rewrite Hc. cbn.
  eexists. split; [reflexivity|]. pose proof (entry_delete t i m Hr) as He. split; [|exact He].
  constructor; cbn; [done|congruence|by rewrite length_insert| | |].
  - intros j Hj. rewrite Hu' by lia. setoid_rewrite He. rewrite andb_true_iff, Hu by lia.
    destruct (Z.eqb_spec j i) as [->|]; naive_solver.
  - intros j k z w. rewrite !He. naive_solver.
  - intros j z. rewrite He. naive_solver.
Qed.

Lemma slot_place_spec t k x m : 0 <= k <= Z.of_nat (length (slot_vec t)) →
  ∃ t', slot_place (mkSlots m (slot_vec t)) k x = Done t' ∧ slot_map t' = m ∧
    Z.of_nat (length (slot_vec t')) = Z.max (k + 1) (Z.of_nat (length (slot_vec t))) ∧
    ∀ j z, entry t' j z ↔ (j = k ∧ z = x) ∨ (j ≠ k ∧ entry t j z).
Proof.
  intros Hk. unfold slot_place. cbn.
  destruct (Z.eqb_spec k (Z.of_nat (length (slot_vec t)))) as [->|Hne].
  - eexists. split; [reflexivity|]. cbn. split_and!; [done|rewrite length_app; cbn; lia|apply entry_snoc].
  - rewrite (proj2 (Z.ltb_lt _ _)) by lia. rewrite vset_in by lia. cbn.
    eexists. split; [reflexivity|]. cbn.
    split_and!; [done|rewrite length_insert; lia|apply entry_insert; lia].
Qed.

(** Creation: the least free slot, or [-1] on a full table; never the
    [ASSERT(FALSE)]. *)
Lemma slot_new_wf size ok t x : slots_wf size ok t →
  (∀ i y, entry t i y → name_of y ≠ name_of x) → ok x →
  (∃ t', slot_new t x = Done (-1, t') ∧ slots_wf size ok t' ∧ slot_vec t' = slot_vec t ∧
     ∀ i, 0 <= i < size → ∃ y, entry t i y) ∨
  (∃ k t', slot_new t x = Done (k, t') ∧ 0 <= k < size ∧ slots_wf size ok t' ∧
     (∀ y, ¬ entry t k y) ∧ (∀ j, 0 <= j < k → ∃ y, entry t j y) ∧
     ∀ j z, entry t' j z ↔ (j = k ∧ z = x) ∨ (j ≠ k ∧ entry t j z)).
Proof.
  intros Hwf Hfresh Hok. destruct Hwf as [Hm Hs Hl Hu Hnm Ho]. unfold slot_new.
  destruct (a_find_spec (slot_map t) Hm) as [[Hf Ha]|(k & m & Hf & Hk & Hfree & Hbelow & Hm' & Hs' & Hu')].
  - left. rewrite Hf. cbn. eexists. split; [reflexivity|]. split_and!; [by constructor|done|].
    intros i Hi. apply Hu; [done|]. apply Ha. lia.
  - right. rewrite Hf. cbn [obind]. rewrite (proj2 (Z.eqb_neq k (-1))) by lia.
    assert (∀ y, ¬ entry t k y) as Hno.
    { intros y Hy. assert (a_used (slot_map t) k = true) by (apply Hu; [lia|eauto]). congruence. }
    assert (∀ j, 0 <= j < k → ∃ y, entry t j y) as Hbl.
    { intros j Hj. apply Hu; [lia|]. by apply Hbelow. }
    assert (k <= Z.of_nat (length (slot_vec t))) as Hkl.
    { destruct (decide (k = 0)); [lia|]. destruct (Hbl (k - 1) ltac:(lia)) as [y Hy].
      apply entry_range in Hy. lia. }
    destruct (slot_place_spec t k x m) as (t' & Hp & Hpm & Hpl & He); [lia|].
    exists k, t'. rewrite Hp. cbn. split_and!; [done|lia|lia| |done|done|done].
    constructor; rewrite ?Hpm; [done|lia|lia| | |].
    + intros j Hj. rewrite Hu' by lia. setoid_rewrite He. rewrite orb_true_iff, Hu by lia.
      destruct (Z.eqb_spec j k) as [->|]; naive_solver.
    + intros i j y z. rewrite !He. intros [[-> ->]|[? ?]] [[-> ->]|[? ?]] Heq; [done| | |by eauto].
      * by destruct (Hfresh j z).
      * by destruct (Hfresh i y).
    + intros j z. rewrite He. naive_solver.
Qed.

End slots.
Arguments Slots : clear implicits.
