(* ===== verification/Wire.v ===== *)
(** * Wire: the text messages, written and read through [std::stringstream] *)
From S2P Require Import Prelude.
From stdpp Require Import base list strings.
From Stdlib Require Import ZArith Lia ZifyBool Ascii DecimalString DecimalPos DecimalN DecimalZ DecimalFacts.

(** ** [ss << x] *)

Definition print_int (z : Z) : string := NilEmpty.string_of_int (Z.to_int z).
Definition print_bool (b : bool) : string := if b then "1" else "0".

(** ** [ss >> x] *)

Record istream := mkStream { rest : string; failbit : bool }.

Definition isspace (c : ascii) : bool :=
  let n := N_of_ascii c in ((n =? 32) || ((9 <=? n) && (n <=? 13)))%N.

Fixpoint skipws (s : string) : string :=
  match s with
  | String c s' => if isspace c then skipws s' else s
  | EmptyString => EmptyString
  end.

Definition digit_cons (c : ascii) (d : Decimal.uint) : option Decimal.uint :=
  match c with
  | "0" => Some (Decimal.D0 d) | "1" => Some (Decimal.D1 d) | "2" => Some (Decimal.D2 d)
  | "3" => Some (Decimal.D3 d) | "4" => Some (Decimal.D4 d) | "5" => Some (Decimal.D5 d)
  | "6" => Some (Decimal.D6 d) | "7" => Some (Decimal.D7 d) | "8" => Some (Decimal.D8 d)
  | "9" => Some (Decimal.D9 d) | _ => None
  end%char.

(** The longest prefix of digits, and what follows it. *)
Fixpoint read_digits (s : string) : Decimal.uint * string :=
  match s with
  | String c s' =>
      let (d, t) := read_digits s' in
      match digit_cons c d with Some d' => (d', t) | None => (Decimal.Nil, s) end
  | EmptyString => (Decimal.Nil, EmptyString)
  end.

Definition read_sign (s : string) : bool * string :=
  match s with
  | String "-"%char s' => (true, s')
  | String "+"%char s' => (false, s')
  | _ => (false, s)
  end.

(** [ss >> n] for an [int n]: [None] when the extraction fails, which sets
    [failbit] and stores nothing. *)
Definition read_int (st : istream) : option Z * istream :=
  if failbit st then (None, st)
  else
    let (neg, s) := read_sign (skipws (rest st)) in
    let (d, t) := read_digits s in
    let z := if neg then (- Z.of_uint d)%Z else Z.of_uint d in
    match d with
    | Decimal.Nil => (None, mkStream t true)
    | _ => if fits_int z then (Some z, mkStream t false) else (None, mkStream t true)
    end.

(** [ss >> b] for a [bool b]: the integer 0 or 1. *)
Definition read_bool (st : istream) : option bool * istream :=
  match read_int st with
  | (Some 0%Z, st') => (Some false, st')
  | (Some 1%Z, st') => (Some true, st')
  | (_, st') => (None, mkStream (rest st') true)
  end.

(** The characters up to the next white space. *)
Fixpoint read_word (s : string) : string * string :=
  match s with
  | String c s' =>
      if isspace c then (EmptyString, s)
      else let (w, t) := read_word s' in (String c w, t)
  | EmptyString => (EmptyString, EmptyString)
  end.

(** [ss >> name] for a [string name], empty before. *)
Definition read_string (st : istream) : string * istream :=
  if failbit st then (EmptyString, st)
  else
    match read_word (skipws (rest st)) with
    | (EmptyString, t) => (EmptyString, mkStream t true)
    | (w, t) => (w, mkStream t false)
    end.

(** ** Reading back what was written *)

(** [t] starts with white space or is empty: a token ends before it. *)
Definition at_delim (t : string) : bool :=
  match t with EmptyString => true | String c _ => isspace c end.

(** A name that survives the wire: no white space, and not empty. *)
Fixpoint no_space (w : string) : bool :=
  match w with EmptyString => true | String c w' => negb (isspace c) && no_space w' end.
Definition is_word (w : string) : bool :=
  no_space w && match w with EmptyString => false | _ => true end.

Lemma str_app_cons c s t : String c s +:+ t = String c (s +:+ t).
Proof. done. Qed.
Lemma str_app_nil t : "" +:+ t = t.
Proof. done. Qed.

Lemma isspace_not_digit c d : isspace c = true → digit_cons c d = None.
Proof. destruct c as [[] [] [] [] [] [] [] []]; vm_compute; done. Qed.

Lemma read_digits_delim t : at_delim t = true → read_digits t = (Decimal.Nil, t).
Proof.
  destruct t as [|c t]; [done|]. cbn. intros Hc. destruct (read_digits t).
  by rewrite isspace_not_digit.
Qed.

Lemma read_digits_app d t : at_delim t = true →
  read_digits (NilEmpty.string_of_uint d +:+ t) = (d, t).
Proof.
  intros Ht. induction d as [|d IH|d IH|d IH|d IH|d IH|d IH|d IH|d IH|d IH|d IH];
    cbn [NilEmpty.string_of_uint]; [by apply read_digits_delim|..];
    rewrite str_app_cons; cbn [read_digits]; by rewrite IH.
Qed.

Lemma skipws_digit d t : d ≠ Decimal.Nil →
  skipws (NilEmpty.string_of_uint d +:+ t) = NilEmpty.string_of_uint d +:+ t ∧
  read_sign (NilEmpty.string_of_uint d +:+ t) = (false, NilEmpty.string_of_uint d +:+ t).
Proof. by destruct d. Qed.

Lemma Z_to_int_cases z :
  (∃ d, Z.to_int z = Decimal.Pos d ∧ d ≠ Decimal.Nil ∧ Z.of_uint d = z) ∨
  (∃ d, Z.to_int z = Decimal.Neg d ∧ d ≠ Decimal.Nil ∧ (- Z.of_uint d)%Z = z).
Proof.
  pose proof (DecimalZ.of_to z) as Hz. destruct z as [|p|p]; cbn in *.
  - left. by exists (Decimal.D0 Decimal.Nil).
  - left. eexists. split_and!; [done| |done]. apply DecimalPos.Unsigned.to_uint_nonnil.
  - right. eexists. split_and!; [done| |done]. apply DecimalPos.Unsigned.to_uint_nonnil.
Qed.

Lemma read_int_print z t : fits_int z = true → at_delim t = true →
  read_int (mkStream (print_int z +:+ t) false) = (Some z, mkStream t false).
Proof.
  intros Hz Ht. unfold read_int, print_int. cbn [failbit rest].
  destruct (Z_to_int_cases z) as [(d & -> & Hd & He)|(d & -> & Hd & He)]; cbn [NilEmpty.string_of_int].
  - destruct (skipws_digit d t Hd) as [-> ->]. rewrite read_digits_app by done.
    rewrite He, Hz. by destruct d.
  - rewrite str_app_cons.
    change (skipws (String "-" ?x)) with (String "-" x).
    change (read_sign (String "-" ?x)) with (true, x).
    cbv beta iota. rewrite read_digits_app by done.
    rewrite He, Hz. by destruct d.
Qed.

Lemma read_int_space s : read_int (mkStream (" " +:+ s) false) = read_int (mkStream s false).
Proof. done. Qed.
Lemma read_bool_space s : read_bool (mkStream (" " +:+ s) false) = read_bool (mkStream s false).
Proof. done. Qed.
Lemma read_string_space s : read_string (mkStream (" " +:+ s) false) = read_string (mkStream s false).
Proof. done. Qed.

Lemma read_bool_print b t : at_delim t = true →
  read_bool (mkStream (print_bool b +:+ t) false) = (Some b, mkStream t false).
Proof.
  intros Ht. unfold read_bool.
  replace (print_bool b) with (print_int (if b then 1 else 0)) by (by destruct b).
  rewrite read_int_print by (done || by destruct b). by destruct b.
Qed.

Lemma read_word_app w t : no_space w = true → at_delim t = true → read_word (w +:+ t) = (w, t).
Proof.
  intros Hw Ht. induction w as [|c w IH]; rewrite ?str_app_nil, ?str_app_cons; cbn in *.
  - destruct t as [|c t]; cbn in *; [done|]. by rewrite Ht.
  - apply andb_true_iff in Hw as [Hc Hw]. apply negb_true_iff in Hc. by rewrite Hc, IH.
Qed.

Lemma read_string_print w t : is_word w = true → at_delim t = true →
  read_string (mkStream (w +:+ t) false) = (w, mkStream t false).
Proof.
  intros [Hw Hne]%andb_true_iff Ht. destruct w as [|c w]; [done|].
  unfold read_string. cbn [failbit rest].
  assert (skipws (String c w +:+ t) = String c w +:+ t) as ->.
  { rewrite str_app_cons. cbn in *. apply andb_true_iff in Hw as [Hc _]. apply negb_true_iff in Hc. by rewrite Hc. }
  by rewrite read_word_app.
Qed.

Create HintDb wire.
#[export] Hint Rewrite read_int_space read_bool_space read_string_space : wire.
#[export] Hint Rewrite read_int_print read_bool_print read_string_print using done : wire.

(** ** How long a printed number is *)

Lemma length_uint d : Z.of_nat (String.length (NilEmpty.string_of_uint d)) = Z.of_N (DecimalPos.Unsigned.usize d).
Proof. induction d as [|d IH|d IH|d IH|d IH|d IH|d IH|d IH|d IH|d IH|d IH]; cbn [NilEmpty.string_of_uint String.length DecimalPos.Unsigned.usize]; lia. Qed.

Lemma length_pos p n : (0 <= n)%Z → (Z.pos p < 10 ^ (n + 1))%Z →
  (Z.of_nat (String.length (NilEmpty.string_of_uint (Pos.to_uint p))) <= n + 1)%Z.
Proof.
  intros Hn Hp. rewrite length_uint.
  pose proof (DecimalPos.Unsigned.of_to p) as Ho.
  assert (Pos.to_uint p = Decimal.unorm (Pos.to_uint p)) as Hu.
  { pose proof (DecimalN.Unsigned.to_of (Pos.to_uint p)) as Ht. unfold N.of_uint in Ht. rewrite Ho in Ht. exact Ht. }
  assert (∀ k d, (N.pos (Pos.of_uint_acc d k) < 10 ^ Z.to_N (n + 1))%N →
    (Z.of_N (DecimalPos.Unsigned.usize d) <= n)%Z) as Hacc.
  { intros k d Hlt. rewrite DecimalPos.Unsigned.of_uint_acc_rev in Hlt.
    assert (10 ^ DecimalPos.Unsigned.usize d < 10 ^ Z.to_N (n + 1))%N as Hpow by nia.
    apply N.pow_lt_mono_r_iff in Hpow; lia. }
  assert (N.pos p < 10 ^ Z.to_N (n + 1))%N as Hp'.
  { apply N2Z.inj_lt. rewrite N2Z.inj_pow, Z2N.id by lia. exact Hp. }
  rewrite <- Ho in Hp'.
  destruct (Pos.to_uint p) as [|d|d|d|d|d|d|d|d|d|d] eqn:Hd;
    cbn [Pos.of_uint] in Hp', Ho; cbn [DecimalPos.Unsigned.usize];
    try (specialize (Hacc _ d Hp'); lia); [lia|].
  exfalso. unfold Decimal.unorm in Hu. cbn [Decimal.nzhead] in Hu.
  destruct (Decimal.nzhead d) eqn:Hz; try done; [|by apply DecimalFacts.nzhead_nonzero in Hz].
  injection Hu as ->. done.
Qed.

Lemma length_print_int z n : (0 <= n → - 10 ^ n < z < 10 ^ (n + 1) →
  Z.of_nat (String.length (print_int z)) <= n + 1)%Z.
Proof.
  intros Hn Hz. unfold print_int. destruct z as [|p|p]; cbn [Z.to_int NilEmpty.string_of_int].
  - cbn. lia.
  - apply length_pos; lia.
  - cbn [String.length]. assert (n = 0 ∨ 0 < n)%Z as [->|Hpos] by lia; [lia|].
    pose proof (length_pos p (n - 1)) as Hl. replace (n - 1 + 1)%Z with n in Hl by lia. lia.
Qed.
