(* ===== verification/ServerState.v ===== *)
(** * ServerState: the network server's globals, mail and pending requests *)
From S2P Require Import Prelude.
From S2P Require Import BitMap.
From S2P Require Import Slots.
From S2P Require Import Wire.
From stdpp Require Import base list strings.
From Stdlib Require Import ZArith Lia ZifyBool.

Local Open Scope Z_scope.

(** ** System call codes (userprog/syscall.h) *)
Definition SC_CreateLock : Z := 13.
Definition SC_Acquire : Z := 14.
Definition SC_Release : Z := 15.
Definition SC_DestroyLock : Z := 16.
Definition SC_CreateCondition : Z := 17.
Definition SC_Wait : Z := 18.
Definition SC_Signal : Z := 19.
Definition SC_Broadcast : Z := 20.
Definition SC_DestroyCondition : Z := 21.
Definition SC_CreateMV : Z := 24.
Definition SC_DestroyMV : Z := 25.
Definition SC_Get : Z := 26.
Definition SC_Set : Z := 27.

(** ** Mail sizes (machine/network.h and network/post.h) *)
Definition MaxWireSize : Z := 64.
Definition sizeof_PacketHeader : Z := 12.
Definition sizeof_MailHeader : Z := 12.
Definition MaxPacketSize : Z := MaxWireSize - sizeof_PacketHeader.
Definition MaxMailSize : Z := MaxPacketSize - sizeof_MailHeader.
(** The post office is built with ten boxes (threads/system.cc). *)
Definition numBoxes : Z := 10.

(** ** The server's environment *)

(** Handlers that keep the server's invariant. *)
Create HintDb safe.

Class ServerEnv := {
  (** [postOffice->getNetworkAddress()]: the [-m] argument *)
  netAddr : Z;
  (** [currentThread->getThreadID()] of the server thread *)
  threadID : Z;
  (** whether the n-th [Network::Send] of the run, to this machine, succeeds *)
  up : nat → Z → bool;
  (** what an [int] holds after an extraction into it failed *)
  garbage : Z;
  (** what is read through a pointer into a destroyed temporary string *)
  stale : string → string
}.

(** ** Data *)

Record Mail := mkMail {
  to_machine : Z; to_box : Z; from_box : Z; text : string;
  sent : bool     (* what [Send] returned *)
}.

(** [class PendingRequest]; [self] is the address [new] returned. *)
Record PendingRequest := mkPendingRequest {
  self : nat;
  pktHdr : Z; mailHdr : Z; type : Z; pname : string;
  lockID : Z; CVID : Z; MVID : Z; MVIndex : Z; MVValue : Z;
  sentCount : Z; noCount : Z; requestID : Z
}.

Record ServerReplyMsg := mkReply { r_pktHdr : Z; r_mailHdr : Z; r_msg : string }.

Inductive SERVERLOCKSTATE := FREE | BUSY.
#[export] Instance SERVERLOCKSTATE_eq_dec : EqDecision SERVERLOCKSTATE.
Proof. solve_decision. Defined.

Record ServerLock := mkServerLock {
  state : SERVERLOCKSTATE;
  lname : string;
  ownerMachineID : Z;
  ownerMailboxNumber : Z;
  lq : list ServerReplyMsg;
  isToBeDestroyed : bool;
  createLockCount : Z
}.

Record ServerCV := mkServerCV {
  cname : string;
  cq : list ServerReplyMsg;
  waitingLock : Z;
  createCVCount : Z
}.

Record ServerMV := mkServerMV {
  mname : string;
  msize : Z;
  createMVCount : Z;
  mv : list Z
}.

#[export] Instance ServerLock_named : Named ServerLock := lname.
#[export] Instance ServerCV_named : Named ServerCV := cname.
#[export] Instance ServerMV_named : Named ServerMV := mname.

Definition lockTableSize : Z := 100.
Definition CVTableSize : Z := 100.
Definition MVTableSize : Z := 100.

(** The globals of nettest.cc, with the allocator's next address and the mail
    sent so far. *)
Record Server := mkServer {
  pendingRequestCount : Z;
  nextAddr : nat;
  pendingRequests : list PendingRequest;
  serverLocks : Slots BitMap ServerLock;
  serverCVs : Slots BitMap ServerCV;
  serverMVs : Slots BitMap ServerMV;
  sends : nat;
  outbox : list Mail
}.

Definition with_pending (f : list PendingRequest → list PendingRequest) (s : Server) : Server :=
  mkServer (pendingRequestCount s) (nextAddr s) (f (pendingRequests s))
    (serverLocks s) (serverCVs s) (serverMVs s) (sends s) (outbox s).
Definition with_locks (t : Slots BitMap ServerLock) (s : Server) : Server :=
  mkServer (pendingRequestCount s) (nextAddr s) (pendingRequests s)
    t (serverCVs s) (serverMVs s) (sends s) (outbox s).
Definition with_CVs (t : Slots BitMap ServerCV) (s : Server) : Server :=
  mkServer (pendingRequestCount s) (nextAddr s) (pendingRequests s)
    (serverLocks s) t (serverMVs s) (sends s) (outbox s).
Definition with_MVs (t : Slots BitMap ServerMV) (s : Server) : Server :=
  mkServer (pendingRequestCount s) (nextAddr s) (pendingRequests s)
    (serverLocks s) (serverCVs s) t (sends s) (outbox s).
Definition with_mail (m : Mail) (s : Server) : Server :=
  mkServer (pendingRequestCount s) (nextAddr s) (pendingRequests s)
    (serverLocks s) (serverCVs s) (serverMVs s) (S (sends s)) (outbox s ++ [m]).

(** Writing through the pointer [p]. *)
Definition upd_req (p : PendingRequest) (l : list PendingRequest) : list PendingRequest :=
  (λ p', if decide (self p' = self p) then p else p') <$> l.
Arguments upd_req : simpl never.

(** ** Frames: what a handler leaves alone *)

(** [keeps f m]: when [m] returns, [f] of the state is what it was. *)
Definition keeps {X A} (f : Server → X) (m : M Server A) : Prop :=
  ∀ s, wp (λ _, True) m (λ _ s', f s' = f s) s.

Section keeps.
Context {X : Type} (f : Server → X).

Lemma keeps_ret {A} (a : A) : keeps f (ret a).
Proof. intros s. by apply wp_ret. Qed.
Lemma keeps_get : keeps f get.
Proof. intros s. by apply wp_get. Qed.
Lemma keeps_fail {A} e : keeps f (fail (A := A) e).
Proof. intros s. by apply wp_fail. Qed.
Lemma keeps_lift {A} (o : outcome A) : keeps f (lift o).
Proof. intros s. unfold wp, lift. by destruct o. Qed.
Lemma keeps_modify g : (∀ s, f (g s) = f s) → keeps f (modify g).
Proof. intros Hg s. by apply wp_modify. Qed.
Lemma keeps_bind {A B} (m : M Server A) (k : A → M Server B) :
  keeps f m → (∀ a, keeps f (k a)) → keeps f (bind m k).
Proof.
  intros Hm Hk s. apply wp_bind. eapply wp_mono; [apply Hm|]. cbn. intros a s' He.
  eapply wp_mono; [apply Hk|]. cbn. intros ? s'' ->. done.
Qed.
Lemma keeps_if {A} (b : bool) (m1 m2 : M Server A) :
  keeps f m1 → keeps f m2 → keeps f (if b then m1 else m2).
Proof. by destruct b. Qed.

Lemma wp_keeps {A} Er (m : M Server A) s (Q : A → Server → Prop) :
  keeps f m → wp Er m Q s → wp Er m (λ a s', Q a s' ∧ f s' = f s) s.
Proof.
  intros Hk. specialize (Hk s). unfold wp in *. destruct (m s) as [[a s']|]; [done|done].
Qed.
End keeps.

Create HintDb keeps.

(** Takes a handler apart along its structure. *)
Ltac keep :=
  repeat first
    [ solve [eauto with keeps] | apply keeps_ret | apply keeps_get | apply keeps_fail
    | apply keeps_lift | apply keeps_modify; by auto | apply keeps_if
    | apply keeps_bind; [|intros ?] | progress cbn zeta
    | match goal with |- keeps _ (match ?x with _ => _ end) => destruct x end ].

Section server.
Context {E : ServerEnv}.

(** ** Sending mail *)

(** [PostOffice::Send] and the [Network::Send] under it. *)
Definition PostOffice_Send (machine box from : Z) (msg : string) : M Server bool :=
  (if Z.of_nat (String.length msg) + 1 <=? MaxMailSize then ret () else fail MailTooLong) ;;;
  (if (0 <=? box) && (box <? numBoxes) then ret () else fail BadMailBox) ;;;
  let! s := get in
  let success := up (sends s) machine in
  modify (with_mail (mkMail machine box from msg success)) ;;;
  ret success.

Definition sendMail (msg : string) (pkt mail : Z) : M Server unit :=
  let! success := PostOffice_Send pkt mail threadID msg in
  ret ().

(** ** The pending requests *)

(** [new PendingRequest()] and the assignments to its fields that follow;
    [fill] is given the address and the number of the request. *)
Definition new_PendingRequest (fill : nat → Z → PendingRequest) : M Server PendingRequest :=
  let! s := get in
  let p := fill (nextAddr s) (pendingRequestCount s) in
  put (mkServer (pendingRequestCount s + 1) (S (nextAddr s)) (pendingRequests s)
         (serverLocks s) (serverCVs s) (serverMVs s) (sends s) (outbox s)) ;;;
  ret p.

(** The fields the constructor leaves. *)
Definition default_request (a : nat) (n : Z) : PendingRequest :=
  mkPendingRequest a (-1) (-1) (-1) "" (-1) (-1) (-1) (-1) 0 (-1) 0 n.

Definition push_pending (p : PendingRequest) : M Server unit :=
  modify (with_pending (λ l, l ++ [p])).

Definition deletePendingRequest (index : Z) : M Server unit :=
  let! s := get in
  let! l := lift (verase (pendingRequests s) index) in
  modify (with_pending (λ _, l)).

Definition deletePendingRequestPointer (p : PendingRequest) : M Server unit :=
  let! s := get in
  let i := find_index (λ p', bool_decide (self p' = self p)) (pendingRequests s) in
  if i =? -1 then ret () else deletePendingRequest i.

(** The message [sendPendingRequest] builds. *)
Definition request_text (p : PendingRequest) : string :=
  print_int (type p) +:+ " " +:+ print_bool true +:+ " " +:+ print_int (requestID p) +:+ " "
    +:+ print_int (pktHdr p) +:+ " " +:+ print_int (mailHdr p) +:+ " " +:+
  (if type p =? SC_CreateLock then pname p
   else if type p =? SC_Acquire then print_int (lockID p)
   else if type p =? SC_Release then print_int (lockID p)
   else if type p =? SC_DestroyLock then print_int (lockID p)
   else if type p =? SC_CreateCondition then pname p
   else if type p =? SC_Wait then print_int (CVID p) +:+ " " +:+ print_int (lockID p)
   else if type p =? SC_Signal then print_int (CVID p) +:+ " " +:+ print_int (lockID p)
   else if type p =? SC_Broadcast then print_int (CVID p) +:+ " " +:+ print_int (lockID p)
   else if type p =? SC_DestroyCondition then print_int (CVID p)
   else if type p =? SC_CreateMV then print_int (MVIndex p) +:+ " " +:+ pname p
   else if type p =? SC_Set then
     print_int (MVID p) +:+ " " +:+ print_int (MVIndex p) +:+ " " +:+ print_int (MVValue p)
   else if type p =? SC_Get then print_int (MVID p) +:+ " " +:+ print_int (MVIndex p)
   else if type p =? SC_DestroyMV then print_int (MVID p)
   else "").

Definition with_sentCount (n : Z) (p : PendingRequest) : PendingRequest :=
  mkPendingRequest (self p) (pktHdr p) (mailHdr p) (type p) (pname p) (lockID p) (CVID p)
    (MVID p) (MVIndex p) (MVValue p) n (noCount p) (requestID p).
Definition with_noCount (n : Z) (p : PendingRequest) : PendingRequest :=
  mkPendingRequest (self p) (pktHdr p) (mailHdr p) (type p) (pname p) (lockID p) (CVID p)
    (MVID p) (MVIndex p) (MVValue p) (sentCount p) n (requestID p).

Definition store_req (p : PendingRequest) : M Server unit := modify (with_pending (upd_req p)).

(** [for (int i = 0; i < 5; i++)]: the request goes to every other server;
    returns the [p->sentCount] it leaves. *)
Fixpoint send_loop (p : PendingRequest) (msg : string) (i : Z) (n : nat) : M Server PendingRequest :=
  match n with
  | O => ret p
  | S n' =>
      if i =? netAddr then send_loop p msg (i + 1) n'
      else
        let! ok := PostOffice_Send i 0 threadID msg in
        if ok : bool then
          let p' := with_sentCount (sentCount p + 1) p in
          store_req p' ;;; send_loop p' msg (i + 1) n'
        else send_loop p msg (i + 1) n'
  end.

Definition sendPendingRequest (p : PendingRequest) : M Server bool :=
  let msg := request_text p in
  let p0 := with_sentCount 0 p in
  store_req p0 ;;;
  let! p' := send_loop p0 msg 0 5 in
  ret (negb (sentCount p' =? 0)).

(** What every handler of a request for somebody else's object does: keep
    the request, ask the other servers, and with no other server awake drop
    it and serve the request here. *)
Definition ask_others (fill : nat → Z → PendingRequest) (alone : M Server unit) : M Server unit :=
  let! p := new_PendingRequest fill in
  push_pending p ;;;
  let! awake := sendPendingRequest p in
  if awake : bool then ret ()
  else deletePendingRequestPointer p ;;; alone.

(** ** Finding a pending request *)

Definition match_request (sc pkt mail reqID : Z) (field : PendingRequest → bool)
    (p : PendingRequest) : bool :=
  if requestID p =? reqID then
    if type p =? sc then
      if (pktHdr p =? pkt) && (mailHdr p =? mail) then field p else false
    else false
  else false.

Definition findPendingCreateLockRequest (pkt mail reqID : Z) (name : string) (s : Server) : Z :=
  find_index (match_request SC_CreateLock pkt mail reqID (λ p, String.eqb (pname p) name)) (pendingRequests s).
Definition findPendingCreateLockRequestNamed (name : string) (s : Server) : Z :=
  find_index (λ p, (type p =? SC_CreateLock) && String.eqb (pname p) name) (pendingRequests s).
Definition findPendingAcquireLockRequest (pkt mail reqID lock : Z) (s : Server) : Z :=
  find_index (match_request SC_Acquire pkt mail reqID (λ p, lockID p =? lock)) (pendingRequests s).
Definition findPendingReleaseLockRequest (pkt mail reqID lock : Z) (s : Server) : Z :=
  find_index (match_request SC_Release pkt mail reqID (λ p, lockID p =? lock)) (pendingRequests s).
Definition findPendingDestroyLockRequest (pkt mail reqID lock : Z) (s : Server) : Z :=
  find_index (match_request SC_DestroyLock pkt mail reqID (λ p, lockID p =? lock)) (pendingRequests s).
Definition findPendingCreateMVRequest (pkt mail reqID : Z) (name : string) (s : Server) : Z :=
  find_index (match_request SC_CreateMV pkt mail reqID (λ p, String.eqb (pname p) name)) (pendingRequests s).
Definition findPendingCreateMVRequestNamed (name : string) (s : Server) : Z :=
  find_index (λ p, (type p =? SC_CreateMV) && String.eqb (pname p) name) (pendingRequests s).
Definition findPendingSetMVRequest (pkt mail reqID id : Z) (s : Server) : Z :=
  find_index (match_request SC_Set pkt mail reqID (λ p, MVID p =? id)) (pendingRequests s).
Definition findPendingGetMVRequest (pkt mail reqID id : Z) (s : Server) : Z :=
  find_index (match_request SC_Get pkt mail reqID (λ p, MVID p =? id)) (pendingRequests s).
Definition findPendingDestroyMVRequest (pkt mail reqID id : Z) (s : Server) : Z :=
  find_index (match_request SC_DestroyMV pkt mail reqID (λ p, MVID p =? id)) (pendingRequests s).
Definition findPendingCreateCVRequest (pkt mail reqID : Z) (name : string) (s : Server) : Z :=
  find_index (match_request SC_CreateCondition pkt mail reqID (λ p, String.eqb (pname p) name)) (pendingRequests s).
Definition findPendingCreateCVRequestNamed (name : string) (s : Server) : Z :=
  find_index (λ p, (type p =? SC_CreateCondition) && String.eqb (pname p) name) (pendingRequests s).
Definition findPendingWaitRequest (pkt mail reqID id : Z) (s : Server) : Z :=
  find_index (match_request SC_Wait pkt mail reqID (λ p, CVID p =? id)) (pendingRequests s).
Definition findPendingSignalRequest (pkt mail reqID id : Z) (s : Server) : Z :=
  find_index (match_request SC_Signal pkt mail reqID (λ p, CVID p =? id)) (pendingRequests s).
Definition findPendingBroadcastRequest (pkt mail reqID id : Z) (s : Server) : Z :=
  find_index (match_request SC_Broadcast pkt mail reqID (λ p, CVID p =? id)) (pendingRequests s).
Definition findPendingDestroyCVRequest (pkt mail reqID id : Z) (s : Server) : Z :=
  find_index (match_request SC_DestroyCondition pkt mail reqID (λ p, CVID p =? id)) (pendingRequests s).


(** Handlers that leave [f], for an [f] the mail and the pending requests do
    not change. *)
Section keeps_server.
Context {X : Type} (f : Server → X).
Hypothesis f_mail : ∀ m s, f (with_mail m s) = f s.
Hypothesis f_pending : ∀ g s, f (with_pending g s) = f s.
Hypothesis f_new : ∀ c a s, f (mkServer c a (pendingRequests s) (serverLocks s) (serverCVs s)
                                 (serverMVs s) (sends s) (outbox s)) = f s.

Lemma keeps_PostOffice_Send machine box from msg : keeps f (PostOffice_Send machine box from msg).
Proof. unfold PostOffice_Send. keep. Qed.
Lemma keeps_sendMail msg pkt mail : keeps f (sendMail msg pkt mail).
Proof. unfold sendMail. pose proof keeps_PostOffice_Send. keep. Qed.
Lemma keeps_deletePendingRequest i : keeps f (deletePendingRequest i).
Proof. unfold deletePendingRequest. keep. Qed.
Lemma keeps_send_loop p msg i n : keeps f (send_loop p msg i n).
Proof.
  pose proof keeps_PostOffice_Send. revert p i.
  induction n; intros q i; cbn; unfold store_req; keep.
Qed.
Lemma keeps_sendPendingRequest p : keeps f (sendPendingRequest p).
Proof. pose proof keeps_send_loop. unfold sendPendingRequest, store_req. keep. Qed.
Lemma keeps_ask_others fill alone : keeps f alone → keeps f (ask_others fill alone).
Proof.
  intros Ha. pose proof keeps_sendPendingRequest. pose proof keeps_deletePendingRequest.
  unfold ask_others, new_PendingRequest, push_pending, deletePendingRequestPointer. keep.
Qed.
End keeps_server.

(** ** The server invariant *)

(** A free lock has no waiters, and a waiter's message says success. *)
Definition lock_ok (l : ServerLock) : Prop :=
  (state l = FREE → lq l = []) ∧ Forall (λ r, r_msg r = print_bool true) (lq l).
(** A condition variable tied to a lock has a waiter. *)
Definition cv_ok (c : ServerCV) : Prop := waitingLock c ≠ -1 → cq c ≠ [].
(** The vector of a monitor variable has its declared size. *)
Definition mv_ok (m : ServerMV) : Prop := Z.of_nat (length (mv m)) = msize m.

(** Pending requests are distinct objects with distinct numbers. *)
Record pending_wf (s : Server) : Prop := {
  pw_addr : NoDup (self <$> pendingRequests s);
  pw_next : Forall (λ p, (self p < nextAddr s)%nat) (pendingRequests s);
  pw_id : NoDup (requestID <$> pendingRequests s);
  pw_count : Forall (λ p, requestID p < pendingRequestCount s) (pendingRequests s)
}.

Record Inv (s : Server) : Prop := {
  inv_locks : slots_wf lockTableSize lock_ok (serverLocks s);
  inv_CVs : slots_wf CVTableSize cv_ok (serverCVs s);
  inv_MVs : slots_wf MVTableSize mv_ok (serverMVs s);
  inv_pending : pending_wf s
}.

(** The faults the invariant does not exclude: they depend on the messages
    (a text over [MaxMailSize], a mail box the post office does not have, a
    negative size for a monitor variable). *)
Definition tolerated (f : fault) : Prop := f = MailTooLong ∨ f = BadMailBox ∨ f = LengthError.

(** [safe_at s m]: run from [s], [m] keeps the invariant and the pending
    requests already there (as a prefix), or stops with a tolerated fault. *)
Definition safe_at {A} (s : Server) (m : M Server A) : Prop :=
  wp tolerated m
    (λ _ s', Inv s' ∧ (self <$> pendingRequests s) `prefix_of` (self <$> pendingRequests s')) s.
Definition safe {A} (m : M Server A) : Prop := ∀ s, Inv s → safe_at s m.

Lemma safe_at_ret {A} s (a : A) : Inv s → safe_at s (ret a).
Proof. intros. apply wp_ret. done. Qed.

Lemma safe_at_bind {A B} s (m : M Server A) (k : A → M Server B) :
  safe_at s m → (∀ a, safe (k a)) → safe_at s (bind m k).
Proof.
  intros Hm Hk. apply wp_bind. eapply wp_mono; [exact Hm|]. cbn. intros a s' [Hi Hp].
  eapply wp_mono; [by apply Hk|]. cbn. intros b s'' [Hi' Hp']. split; [done|]. by etrans.
Qed.

(** A step that returns and leaves the pending requests. *)
Lemma safe_at_step {A B} s (m : M Server A) (k : A → M Server B) a s' :
  m s = Done (a, s') → self <$> pendingRequests s' = self <$> pendingRequests s →
  safe_at s' (k a) → safe_at s (bind m k).
Proof.
  intros Hm Hp Hk. unfold safe_at, wp. rewrite (bind_Done _ _ _ _ _ Hm).
  unfold safe_at, wp in Hk. by rewrite Hp in Hk.
Qed.

Lemma safe_ret {A} (a : A) : safe (ret a).
Proof. intros s. apply safe_at_ret. Qed.
Lemma safe_bind {A B} (m : M Server A) (k : A → M Server B) :
  safe m → (∀ a, safe (k a)) → safe (bind m k).
Proof. intros Hm Hk s Hi. apply safe_at_bind; auto. Qed.
Lemma safe_get : safe get.
Proof. intros s Hi. by apply wp_get. Qed.
Lemma safe_if {A} (b : bool) (m1 m2 : M Server A) : safe m1 → safe m2 → safe (if b then m1 else m2).
Proof. by destruct b. Qed.

Lemma with_mail_Inv m s : Inv s → Inv (with_mail m s).
Proof. intros [? ? ? []]. by constructor. Qed.

Lemma safe_PostOffice_Send machine box from msg : safe (PostOffice_Send machine box from msg).
Proof.
  intros s Hi. unfold PostOffice_Send, safe_at.
  apply wp_bind, wp_if; intros _; [apply wp_ret|apply wp_fail; by left].
  apply wp_bind, wp_if; intros _; [apply wp_ret|apply wp_fail; by right; left].
  apply wp_bind, wp_get, wp_bind, wp_modify, wp_ret. split; [by apply with_mail_Inv|done].
Qed.

Lemma safe_sendMail msg pkt mail : safe (sendMail msg pkt mail).
Proof. apply safe_bind; [apply safe_PostOffice_Send|]. intros ?. apply safe_ret. Qed.

(** *** Changes of the pending list *)

Lemma upd_req_self p l : self <$> upd_req p l = self <$> l.
Proof.
  unfold upd_req. rewrite <- list_fmap_compose. apply list_fmap_ext. intros _ p' _. cbn.
  case_decide; congruence.
Qed.

Lemma upd_req_ids p l : (∀ p', p' ∈ l → self p' = self p → requestID p' = requestID p) →
  requestID <$> upd_req p l = requestID <$> l.
Proof.
  intros Hid. unfold upd_req. rewrite <- list_fmap_compose. apply list_fmap_ext.
  intros i p' Hp'%list_elem_of_lookup_2. cbn. case_decide; [|done]. symmetry. auto.
Qed.

Lemma Forall_via {A} (f : PendingRequest → A) (P : A → Prop) l l' :
  f <$> l' = f <$> l → Forall (λ p, P (f p)) l → Forall (λ p, P (f p)) l'.
Proof. intros He. rewrite <- !(Forall_fmap f P). by rewrite He. Qed.

(** [p] is the object at its address, up to its counters. *)
Definition names_req (p : PendingRequest) (s : Server) : Prop :=
  ∀ p', p' ∈ pendingRequests s → self p' = self p → requestID p' = requestID p.

Lemma store_req_Inv p s : Inv s → names_req p s → Inv (with_pending (upd_req p) s).
Proof.
  intros [? ? ? [Ha Hn Hi Hc]] Hid. constructor; [done..|].
  pose proof (upd_req_self p (pendingRequests s)) as He.
  pose proof (upd_req_ids p (pendingRequests s) Hid) as He'.
  constructor; cbn; [by rewrite He| |by rewrite He'|].
  - by apply (Forall_via self (λ a, a < nextAddr s)%nat _ _ He).
  - by apply (Forall_via requestID (λ n, n < pendingRequestCount s) _ _ He').
Qed.

Lemma names_req_upd p q s : names_req p s → self q = self p → requestID q = requestID p →
  names_req q (with_pending (upd_req p) s).
Proof.
  intros Hid Hs Hr p' Hp' Hq. cbn in Hp'. unfold upd_req in Hp'.
  apply list_elem_of_fmap in Hp' as (p'' & -> & Hp''). case_decide; [congruence|].
  rewrite Hr. apply Hid; congruence.
Qed.

Lemma safe_store_req p s : Inv s → names_req p s → safe_at s (store_req p).
Proof.
  intros Hi Hid. apply wp_modify. split; [by apply store_req_Inv|]. cbn. by rewrite upd_req_self.
Qed.

Lemma verase_Inv i l s : Inv s → verase (pendingRequests s) i = Done l →
  Inv (with_pending (λ _, l) s).
Proof.
  intros [? ? ? [Ha Hn Hid Hc]]. unfold verase. destruct (_ && _); intros [= <-].
  constructor; [done..|]. constructor; cbn; rewrite ?list_fmap_delete.
  - eapply sublist_NoDup; [done|apply sublist_delete].
  - by apply Forall_delete.
  - eapply sublist_NoDup; [done|apply sublist_delete].
  - by apply Forall_delete.
Qed.

(** What a step that only touches the pending requests and the mail leaves. *)
Definition same_tables (s s' : Server) : Prop :=
  serverLocks s' = serverLocks s ∧ serverCVs s' = serverCVs s ∧ serverMVs s' = serverMVs s.

Lemma same_tables_trans s1 s2 s3 : same_tables s1 s2 → same_tables s2 s3 → same_tables s1 s3.
Proof. unfold same_tables. intuition congruence. Qed.

Lemma deletePendingRequest_spec i s : Inv s → 0 <= i < Z.of_nat (length (pendingRequests s)) →
  ∃ s', deletePendingRequest i s = Done ((), s') ∧ Inv s' ∧ same_tables s s' ∧
    pendingRequests s' = delete (Z.to_nat i) (pendingRequests s).
Proof.
  intros Hi Hr. unfold deletePendingRequest. rewrite (bind_Done get _ _ _ _ eq_refl).
  pose proof (verase_in _ _ Hr) as Hv. eexists. split; [unfold bind, lift; by rewrite Hv|].
  split; [by eapply verase_Inv|]. done.
Qed.

Lemma deletePendingRequest_outbox i s s' :
  deletePendingRequest i s = Done ((), s') → outbox s' = outbox s.
Proof.
  unfold deletePendingRequest, bind, get, lift, modify.
  destruct (verase _ _); [|done]. by intros [= <-].
Qed.

(** The request at position [j], its counters changed. *)
Lemma names_req_at s j p q : Inv s → pendingRequests s !! j = Some p →
  self q = self p → requestID q = requestID p → names_req q s.
Proof.
  intros Hi Hj Hs Hr p' Hp' He. apply list_elem_of_lookup_1 in Hp' as [k Hk].
  assert (k = j) as ->; [|congruence].
  eapply NoDup_lookup; [apply (pw_addr _ (inv_pending _ Hi))|..];
    rewrite list_lookup_fmap, ?Hk, ?Hj; [reflexivity|]. cbn. congruence.
Qed.

Lemma names_req_with_mail p m s : names_req p s → names_req p (with_mail m s).
Proof. done. Qed.

(** [E] allows what goes wrong when [msg] is posted to [box]; with no fault
    allowed, it says the mail can be posted. *)
Definition sendable (E : fault → Prop) (msg : string) (box : Z) : Prop :=
  (MaxMailSize < Z.of_nat (String.length msg) + 1 → E MailTooLong) ∧
  (¬ (0 <= box < numBoxes) → E BadMailBox).

Lemma sendable_tolerated msg box : sendable tolerated msg box.
Proof. split; intros _; [by left|by right; left]. Qed.

(** A test for it. *)
Definition fits_mail (msg : string) (box : Z) : bool :=
  (Z.of_nat (String.length msg) + 1 <=? MaxMailSize) && (0 <=? box) && (box <? numBoxes).

Lemma fits_mail_sendable Er msg box : fits_mail msg box = true → sendable Er msg box.
Proof. unfold fits_mail. intros H. split; lia. Qed.

(** A successful or failed [Send] only adds to the mail. *)
Lemma PostOffice_Send_spec Er machine box from msg s : sendable Er msg box →
  wp Er (PostOffice_Send machine box from msg)
    (λ ok s', s' = with_mail (mkMail machine box from msg (up (sends s) machine)) s ∧
              ok = up (sends s) machine) s.
Proof.
  intros [Hl Hb]. unfold PostOffice_Send.
  apply wp_bind, wp_if; intros ?; [apply wp_ret|apply wp_fail, Hl; lia].
  apply wp_bind, wp_if; intros ?; [apply wp_ret|apply wp_fail, Hb; lia].
  by apply wp_bind, wp_get, wp_bind, wp_modify, wp_ret.
Qed.

Lemma sendMail_spec Er msg pkt mail s (Q : unit → Server → Prop) : sendable Er msg mail →
  Q () (with_mail (mkMail pkt mail threadID msg (up (sends s) pkt)) s) →
  wp Er (sendMail msg pkt mail) Q s.
Proof.
  intros He HQ. apply wp_bind. eapply wp_mono; [by apply PostOffice_Send_spec|].
  cbn. intros ok s' [-> _]. by apply wp_ret.
Qed.

Lemma send_loop_safe p msg i n s : Inv s → names_req p s →
  wp tolerated (send_loop p msg i n)
    (λ p' s', Inv s' ∧ same_tables s s' ∧ self p' = self p ∧
              self <$> pendingRequests s' = self <$> pendingRequests s) s.
Proof.
  revert p i s. induction n as [|n IH]; intros p i s Hi Hp; cbn [send_loop].
  { by apply wp_ret. }
  destruct (i =? netAddr); [by apply IH|].
  apply wp_bind. eapply wp_mono; [apply PostOffice_Send_spec, sendable_tolerated|]. cbn. intros ok s1 [-> ->].
  pose proof (with_mail_Inv (mkMail i 0 threadID msg (up (sends s) i)) s Hi) as Hi1.
  destruct (up (sends s) i).
  - apply wp_bind, wp_modify. eapply wp_mono; [apply IH|].
    + by apply store_req_Inv.
    + by eapply names_req_upd.
    + cbn. intros p' s' (? & ? & Hs & Hl). rewrite upd_req_self in Hl. done.
  - eapply wp_mono; [by apply IH|]. done.
Qed.

Lemma sendPendingRequest_safe p s : Inv s → names_req p s →
  wp tolerated (sendPendingRequest p)
    (λ _ s', Inv s' ∧ same_tables s s' ∧
             self <$> pendingRequests s' = self <$> pendingRequests s) s.
Proof.
  intros Hi Hp. unfold sendPendingRequest. apply wp_bind, wp_modify, wp_bind.
  eapply wp_mono; [apply send_loop_safe|].
  - by apply store_req_Inv.
  - by eapply names_req_upd.
  - cbn. intros p' s' (? & ? & _ & Hl). apply wp_ret.
    cbn in Hl. rewrite upd_req_self in Hl. done.
Qed.

(** A request is built from the address and the number it is given. *)
Definition good_fill (fill : nat → Z → PendingRequest) : Prop :=
  ∀ a n, self (fill a n) = a ∧ requestID (fill a n) = n.

Lemma push_new_Inv fill s : Inv s → good_fill fill →
  let p := fill (nextAddr s) (pendingRequestCount s) in
  let s' := mkServer (pendingRequestCount s + 1) (S (nextAddr s)) (pendingRequests s ++ [p])
              (serverLocks s) (serverCVs s) (serverMVs s) (sends s) (outbox s) in
  Inv s' ∧ names_req p s'.
Proof.
  intros [? ? ? [Ha Hn Hid Hc]] Hf. destruct (Hf (nextAddr s) (pendingRequestCount s)) as [Hs Hr].
  cbn zeta. rewrite !Forall_forall in *. split.
  - constructor; [done..|]. constructor; cbn; rewrite ?fmap_app; cbn; rewrite ?Hs, ?Hr.
    + apply NoDup_app. split_and!; [done| |apply NoDup_singleton].
      intros a (p' & -> & Hp')%list_elem_of_fmap Hin. apply list_elem_of_singleton in Hin.
      specialize (Hn _ Hp'). lia.
    + apply Forall_forall. intros p'. rewrite elem_of_app, list_elem_of_singleton.
      intros [Hp'| ->]; [specialize (Hn _ Hp'); lia|lia].
    + apply NoDup_app. split_and!; [done| |apply NoDup_singleton].
      intros a (p' & -> & Hp')%list_elem_of_fmap Hin. apply list_elem_of_singleton in Hin.
      specialize (Hc _ Hp'). lia.
    + apply Forall_forall. intros p'. rewrite elem_of_app, list_elem_of_singleton.
      intros [Hp'| ->]; [specialize (Hc _ Hp'); lia|lia].
  - intros p'. cbn. rewrite elem_of_app, list_elem_of_singleton, Hs.
    intros [Hp'| ->] He; [|done]. specialize (Hn _ Hp'). lia.
Qed.

Lemma find_self_snoc l ids (p : PendingRequest) :
  self <$> l = ids ++ [self p] → self p ∉ ids →
  find_index (λ p', bool_decide (self p' = self p)) l = Z.of_nat (length ids) ∧
  length l = S (length ids) ∧ self <$> delete (length ids) l = ids.
Proof.
  intros Hl Hnin.
  assert (length l = S (length ids)) as Hlen.
  { apply (f_equal length) in Hl. rewrite length_fmap, length_app in Hl. cbn in Hl. lia. }
  assert (∀ j p', l !! j = Some p' → (ids ++ [self p]) !! j = Some (self p')) as Hlk.
  { intros j p' Hj. rewrite <- Hl, list_lookup_fmap, Hj. done. }
  split_and!; [|done|].
  - destruct (find_index_spec (λ p', bool_decide (self p' = self p)) l)
      as [[_ Ha]|(j & p' & -> & Hj & Hp' & _)].
    + destruct (lookup_lt_is_Some_2 l (length ids)) as [p' Hp']; [lia|].
      specialize (Ha _ _ Hp'). apply Hlk in Hp'. rewrite lookup_app_r, Nat.sub_diag in Hp' by done.
      injection Hp' as Hp'. by rewrite bool_decide_true in Ha.
    + apply bool_decide_eq_true in Hp'. pose proof (Hlk _ _ Hj) as Hj'.
      apply lookup_lt_Some in Hj. destruct (decide (j < length ids)%nat) as [Hlt|]; [|f_equal; lia].
      rewrite lookup_app_l in Hj' by done. apply list_elem_of_lookup_2 in Hj'. congruence.
  - rewrite list_fmap_delete, Hl, delete_middle. apply app_nil_r.
Qed.

Lemma safe_ask_others fill alone : good_fill fill → safe alone → safe (ask_others fill alone).
Proof.
  intros Hf Halone s Hi. unfold ask_others, new_PendingRequest.
  set (p := fill (nextAddr s) (pendingRequestCount s)).
  destruct (push_new_Inv fill s Hi Hf) as [Hi1 Hp1]. fold p in Hi1, Hp1.
  apply wp_bind, wp_bind, wp_get, wp_bind, wp_put, wp_ret, wp_bind, wp_modify. cbn.
  apply wp_bind. eapply wp_mono; [by apply sendPendingRequest_safe|]. cbn.
  intros awake s' (Hi' & _ & Hl). rewrite fmap_app in Hl. cbn in Hl.
  destruct awake; [apply wp_ret; split; [done|rewrite Hl; by eexists]|].
  assert (self p ∉ self <$> pendingRequests s) as Hnin.
  { assert (self p = nextAddr s) as -> by apply Hf. intros (q & Hq & Hin)%list_elem_of_fmap.
    pose proof (pw_next _ (inv_pending _ Hi)) as Hn. rewrite Forall_forall in Hn.
    specialize (Hn _ Hin). lia. }
  destruct (find_self_snoc _ _ _ Hl Hnin) as (Hfind & Hlen & Hdel).
  destruct (deletePendingRequest_spec (Z.of_nat (length (self <$> pendingRequests s))) s' Hi')
    as (s'' & Hd & Hi'' & _ & Hpd); [lia|].
  eapply wp_bind, wp_mono with (Q := λ _ t, t = s'').
  { unfold deletePendingRequestPointer, wp. rewrite (bind_Done get _ _ _ _ eq_refl). cbn zeta.
    rewrite Hfind, (proj2 (Z.eqb_neq _ (-1))) by lia. by rewrite Hd. }
  intros _ t ->. rewrite Nat2Z.id in Hpd. eapply wp_mono; [by apply Halone|]. cbn.
  intros _ t [? Hpre]. split; [done|]. by rewrite Hpd, Hdel in Hpre.
Qed.

(** *** What the other servers are sent *)

Lemma upd_req_twice p q l : self q = self p → upd_req q (upd_req p l) = upd_req q l.
Proof.
  intros Hs. unfold upd_req. rewrite <- list_fmap_compose. apply list_fmap_ext. intros _ p' _. cbn.
  rewrite Hs. destruct (decide (self p' = self p)) as [He|Hne]; [by rewrite decide_True|by rewrite decide_False].
Qed.

Lemma upd_req_absent p l : (∀ p', p' ∈ l → self p' ≠ self p) → upd_req p l = l.
Proof.
  intros Hno. unfold upd_req. rewrite <- (list_fmap_id l) at 2. apply list_fmap_ext.
  intros i p' Hp'%list_elem_of_lookup_2. by rewrite decide_False by auto.
Qed.

(** Servers [i], [i + 1], ... but this one: the addressees of a request. *)
Fixpoint addressees (i : Z) (n : nat) : list Z :=
  match n with
  | O => []
  | S n' => if i =? netAddr then addressees (i + 1) n' else i :: addressees (i + 1) n'
  end.

(** [ms] is [msg] to each of [tos], in order. *)
Definition sent_to (tos : list Z) (msg : string) (ms : list Mail) : Prop :=
  to_machine <$> ms = tos ∧ Forall (λ m, to_box m = 0 ∧ from_box m = threadID ∧ text m = msg) ms.

(** How many of [ms] the network accepted. *)
Definition accepted (ms : list Mail) : Z := Z.of_nat (length (filter (λ m, sent m = true) ms)).

Lemma accepted_cons m ms : accepted (m :: ms) = (if sent m then 1 else 0) + accepted ms.
Proof. unfold accepted. rewrite filter_cons. destruct (sent m); case_decide; try done; cbn; lia. Qed.

Lemma with_sentCount_twice a b p : with_sentCount a (with_sentCount b p) = with_sentCount a p.
Proof. done. Qed.

Lemma with_sentCount_id p : with_sentCount (sentCount p) p = p.
Proof. by destruct p. Qed.

Lemma send_loop_spec Er msg n l : sendable Er msg 0 → ∀ p i s, pendingRequests s = upd_req p l →
  wp Er (send_loop p msg i n)
    (λ p' s', ∃ ms, p' = with_sentCount (sentCount p + accepted ms) p ∧
       pendingRequests s' = upd_req p' l ∧ same_tables s s' ∧
       pendingRequestCount s' = pendingRequestCount s ∧ nextAddr s' = nextAddr s ∧
       outbox s' = outbox s ++ ms ∧ sent_to (addressees i n) msg ms) s.
Proof.
  intros Hm. induction n as [|n IH]; intros p i s Hp; cbn [send_loop addressees].
  { apply wp_ret. exists []. unfold accepted. cbn. rewrite Z.add_0_r, with_sentCount_id, app_nil_r. done. }
  destruct (i =? netAddr); [by apply IH|].
  apply wp_bind. eapply wp_mono; [by apply PostOffice_Send_spec|]. cbn. intros ok s1 [-> ->].
  set (m := mkMail i 0 threadID msg _).
  assert (∀ q s0, self q = self p → sentCount q = sentCount p + (if sent m then 1 else 0) →
    with_sentCount 0 q = with_sentCount 0 p → same_tables s s0 →
    pendingRequestCount s0 = pendingRequestCount s → nextAddr s0 = nextAddr s →
    pendingRequests s0 = upd_req q l → outbox s0 = outbox s ++ [m] →
    wp Er (send_loop q msg (i + 1) n)
    (λ p' s', ∃ ms, p' = with_sentCount (sentCount p + accepted ms) p ∧
       pendingRequests s' = upd_req p' l ∧ same_tables s s' ∧
       pendingRequestCount s' = pendingRequestCount s ∧ nextAddr s' = nextAddr s ∧
       outbox s' = outbox s ++ ms ∧ sent_to (i :: addressees (i + 1) n) msg ms) s0) as Hnext.
  { intros q s0 Hs Hc He Ht Hpc Hna Hq Ho. eapply wp_mono; [by apply IH|]. cbn.
    intros p' s' (ms & -> & Hp' & Ht' & Hpc' & Hna' & Ho' & Hms & Hf). exists (m :: ms).
    assert (with_sentCount (sentCount q + accepted ms) q =
            with_sentCount (sentCount p + accepted (m :: ms)) p) as Heq.
    { rewrite accepted_cons, Hc, Z.add_assoc. set (c := _ + accepted ms).
      apply (f_equal (with_sentCount c)) in He. exact He. }
    rewrite Heq in *. split_and!; [done|exact Hp'|by eapply same_tables_trans|congruence|congruence| |].
    - by rewrite Ho', Ho, <- app_assoc.
    - split; [cbn; by rewrite Hms|by constructor]. }
  destruct (up (sends s) i) eqn:Hup.
  - apply wp_bind, wp_modify. apply Hnext; [done|subst m; cbn; by rewrite ?Hup|done..| |done].
    cbn. rewrite Hp. by apply upd_req_twice.
  - apply Hnext; try done. subst m. cbn. rewrite ?Hup. lia.
Qed.

Lemma sendPendingRequest_spec Er p s : sendable Er (request_text p) 0 →
  wp Er (sendPendingRequest p)
    (λ ok s', ∃ ms, ok = negb (accepted ms =? 0) ∧
       pendingRequests s' = upd_req (with_sentCount (accepted ms) p) (pendingRequests s) ∧
       same_tables s s' ∧ pendingRequestCount s' = pendingRequestCount s ∧ nextAddr s' = nextAddr s ∧
       outbox s' = outbox s ++ ms ∧ sent_to (addressees 0 5) (request_text p) ms) s.
Proof.
  intros Hm. unfold sendPendingRequest. cbn zeta. apply wp_bind, wp_modify, wp_bind.
  eapply wp_mono; [by apply (send_loop_spec Er _ 5 (pendingRequests s) Hm)|]. cbn beta.
  intros p' s' (ms & -> & ? & ? & ? & ? & ? & ?). apply wp_ret. by exists ms.
Qed.

(** ** Properties *)

(** A request for an object of somebody else goes once to
    each of the five machines but this one. When the network took [n > 0] of
    the copies the request is pending with [sentCount = n] and nothing else
    happens; when it took none the request is dropped and served here. *)
Theorem ask_others_spec fill alone s : Inv s → good_fill fill →
  let p := fill (nextAddr s) (pendingRequestCount s) in
  fits_mail (request_text p) 0 = true →
  ∃ ms s1, sent_to (addressees 0 5) (request_text p) ms ∧ Inv s1 ∧ same_tables s s1 ∧
    outbox s1 = outbox s ++ ms ∧
    if accepted ms =? 0 then
      pendingRequests s1 = pendingRequests s ∧ ask_others fill alone s = alone s1
    else
      pendingRequests s1 = pendingRequests s ++ [with_sentCount (accepted ms) p] ∧
      ask_others fill alone s = Done ((), s1).
Proof.
  intros Hi Hf p Hfit. destruct (push_new_Inv fill s Hi Hf) as [Hi1 Hp1]. fold p in Hi1, Hp1.
  set (s0 := mkServer _ _ _ _ _ _ _ _) in Hi1, Hp1.
  assert (ask_others fill alone s =
    (let! awake := sendPendingRequest p in
     if awake : bool then ret () else deletePendingRequestPointer p ;;; alone) s0) as -> by done.
  assert (∀ p', p' ∈ pendingRequests s → self p' ≠ self p) as Hnew.
  { intros p' Hp' He. assert (self p = nextAddr s) as Ha by apply Hf.
    pose proof (pw_next _ (inv_pending _ Hi)) as Hn. rewrite Forall_forall in Hn.
    specialize (Hn _ Hp'). lia. }
  pose proof (wp_no_fault _ _ _ (sendPendingRequest_spec no_fault p s0 (fits_mail_sendable _ _ _ Hfit)))
    as (ok & s1 & Hs & ms & -> & Hp & Ht & Hpc & Hna & Ho & Hms).
  pose proof (wp_done _ _ _ _ _ _ (sendPendingRequest_safe p s0 Hi1 Hp1) Hs) as (His & _ & _).
  rewrite (bind_Done _ _ _ _ _ Hs). cbn in Hp. unfold upd_req in Hp. rewrite fmap_app in Hp.
  fold (upd_req (with_sentCount (accepted ms) p) (pendingRequests s)) in Hp.
  rewrite upd_req_absent in Hp by done. cbn in Hp. rewrite decide_True in Hp by done.
  destruct (accepted ms =? 0) eqn:Hacc; cbn [negb].
  2: { exists ms, s1. rewrite Hacc. by split_and!. }
  assert (self <$> pendingRequests s1 = (self <$> pendingRequests s) ++ [self p]) as Hl
    by (rewrite Hp, fmap_app; done).
  assert (self p ∉ self <$> pendingRequests s) as Hnin.
  { intros (q & Hq & Hin)%list_elem_of_fmap. by apply (Hnew q). }
  destruct (find_self_snoc _ _ _ Hl Hnin) as (Hfind & Hlen & _).
  destruct (deletePendingRequest_spec (Z.of_nat (length (self <$> pendingRequests s))) s1 His)
    as (s2 & Hd & Hi2 & Ht2 & Hp2); [lia|].
  exists ms, s2. rewrite Hacc. split_and!; [exact Hms|done|by eapply same_tables_trans| | |].
  - change (outbox s) with (outbox s0). rewrite <- Ho. by eapply deletePendingRequest_outbox.
  - rewrite Hp2, Hp, Nat2Z.id, length_fmap, delete_middle. by rewrite app_nil_r.
  - rewrite (bind_Done _ _ s1 () s2); [done|]. unfold deletePendingRequestPointer.
    rewrite (bind_Done get _ _ _ _ eq_refl). cbn zeta. rewrite Hfind.
    by rewrite (proj2 (Z.eqb_neq _ (-1))) by lia.
Qed.

End server.

(** ** The first state *)

(** The globals at the start: empty tables and three fresh bitmaps. *)
Definition initial_server (mem : nat → Z) : outcome Server :=
  let? b1 := new_BitMap mem lockTableSize in
  let? b2 := new_BitMap mem CVTableSize in
  let? b3 := new_BitMap mem MVTableSize in
  Done (mkServer 0 0 [] (mkSlots b1 []) (mkSlots b2 []) (mkSlots b3 []) 0 []).

Lemma fresh_slots_wf {T} {named : Named T} (ok : T → Prop) mem n : 0 <= n →
  ∃ b, new_BitMap mem n = Done b ∧ slots_wf n ok (mkSlots b []).
Proof.
  intros Hn. destruct (new_BitMap_clear mem n Hn) as (b & Hb & Hwf & Hnb & Hu).
  exists b. split; [done|]. assert (∀ i (x : T), ¬ entry (mkSlots b []) i x) as Hno by (by intros ? ? []).
  constructor; cbn; [done|done|lia| |by intros ? ? ? ? []%Hno|by intros ? ? []%Hno].
  intros i Hi. rewrite Hu by done. split; [done|]. by intros [? []%Hno].
Qed.

Lemma initial_server_Inv mem : ∃ s, initial_server mem = Done s ∧ Inv s ∧
  pendingRequests s = [] ∧ outbox s = [] ∧
  slot_vec (serverLocks s) = [] ∧ slot_vec (serverCVs s) = [] ∧ slot_vec (serverMVs s) = [].
Proof.
  unfold initial_server.
  destruct (fresh_slots_wf lock_ok mem lockTableSize ltac:(done)) as (b & -> & ?).
  destruct (fresh_slots_wf cv_ok mem CVTableSize ltac:(done)) as (b2 & -> & ?).
  destruct (fresh_slots_wf mv_ok mem MVTableSize ltac:(done)) as (b3 & -> & ?).
  eexists. split; [done|]. split; [|done]. constructor; [done..|].
  constructor; cbn; by constructor.
Qed.

Lemma initial_Inv mem : ∃ s, initial_server mem = Done s ∧ Inv s.
Proof.
  destruct (initial_server_Inv mem) as (s & Hs & Hi & _). exact (ex_intro _ s (conj Hs Hi)).
Qed.

(** ** Runs on concrete servers *)

(** A server alone on machine 0: no other server is up. *)
Definition lone_env : ServerEnv := {|
  netAddr := 0; threadID := 0; up := λ _ m, 4 <? m; garbage := 0; stale := λ x, x
|}.

(** The state after [m], from [s]. *)
Definition after {A} (m : M Server A) (s : outcome Server) : outcome Server :=
  let? s := s in let? r := m s in Done r.2.

(** A state of a run, for the examples: the empty server if it stopped. *)
Definition state_or_empty (o : outcome Server) : Server :=
  match o with
  | Done s => s
  | Fault _ => mkServer 0 0 [] (mkSlots (mkBitMap 0 0 []) []) (mkSlots (mkBitMap 0 0 []) [])
                 (mkSlots (mkBitMap 0 0 []) []) 0 []
  end.

Lemma after_Inv {A} (m : M Server A) (o : outcome Server) : safe m →
  (∃ s, o = Done s ∧ Inv s) → (∃ s, after m o = Done s) → ∃ s, after m o = Done s ∧ Inv s.
Proof.
  intros Hm (s & -> & Hi) [s' Hs']. exists s'. split; [done|]. unfold after in Hs'. cbn in Hs'.
  destruct (m s) as [[a s1]|f] eqn:Hr; [|done]. injection Hs' as <-.
  by destruct (wp_done _ _ _ _ _ _ (Hm s Hi) Hr).
Qed.

Lemma state_or_empty_Inv o : (∃ s, o = Done s ∧ Inv s) → Inv (state_or_empty o).
Proof. by intros (s & -> & ?). Qed.

(** The empty server. *)
Definition empty_server : Server := Eval vm_compute in state_or_empty (initial_server (λ _, 0)).

Lemma empty_server_Inv : Inv empty_server.
Proof.
  replace empty_server with (state_or_empty (initial_server (λ _, 0))) by (vm_compute; reflexivity).
  apply state_or_empty_Inv, initial_Inv.
Qed.

(** A server on machine 0 whose neighbours 1 and 2 are up. *)
Definition busy_env : ServerEnv := {|
  netAddr := 0; threadID := 0; up := λ _ m, (m <? 3) || (4 <? m); garbage := 0; stale := λ x, x
|}.

Definition example_fill (a : nat) (n : Z) : PendingRequest :=
  mkPendingRequest a 7 1 SC_Acquire "" 105 (-1) (-1) (-1) 0 (-1) 0 n.

Lemma ask_others_spec_witness : ∃ ms s1,
  sent_to (E := busy_env) [1; 2; 3; 4] "14 1 0 7 1 105" ms ∧ Inv s1 ∧ same_tables empty_server s1 ∧
  outbox s1 = ms ∧
  if accepted ms =? 0 then
    pendingRequests s1 = [] ∧ ask_others (E := busy_env) example_fill (ret ()) empty_server = Done ((), s1)
  else
    pendingRequests s1 = [with_sentCount (accepted ms) (example_fill 0 0)] ∧
    ask_others (E := busy_env) example_fill (ret ()) empty_server = Done ((), s1).
Proof.
  exact (ask_others_spec (E := busy_env) example_fill (ret ()) empty_server empty_server_Inv
           (λ a n, conj eq_refl eq_refl) eq_refl).
Defined.
