(* ===== verification/Tables.v ===== *)
(** * Tables: one interface for the server's three object tables

    The lock, condition and monitor-variable tables of network/nettest.cc are
    each a BitMap and a vector of pointers.  [Table] says what such a table
    is to its handlers; the instances discharge its laws; the lemmas are
    proved once against the interface. *)
From S2P Require Import Prelude.
From S2P Require Import BitMap.
From S2P Require Import Slots.
From S2P Require Import Wire.
From S2P Require Import ServerState.
From stdpp Require Import base list strings.
From Stdlib Require Import ZArith Lia ZifyBool.

Local Open Scope Z_scope.

Class Table (T : Type) {named : Named T} := {
  table : Server → Slots BitMap T;
  with_table : Slots BitMap T → Server → Server;
  table_size : Z;
  table_ok : T → Prop;
  table_with t s : table (with_table t s) = t;
  table_pending t s : pendingRequests (with_table t s) = pendingRequests s;
  table_outbox t s : outbox (with_table t s) = outbox s;
  table_mail m s : table (with_mail m s) = table s;
  table_twice t t' s : with_table t' (with_table t s) = with_table t' s;
  table_same s s' : same_tables s s' → table s' = table s;
  table_Inv s : Inv s → slots_wf table_size table_ok (table s);
  with_table_Inv t s : Inv s → slots_wf table_size table_ok t → Inv (with_table t s)
}.

#[export] Instance lock_table : Table ServerLock.
Proof.
  refine {| table := serverLocks; with_table := with_locks; table_size := lockTableSize;
            table_ok := lock_ok |}; try done.
  - by intros s s' [? _].
  - by intros s [].
  - intros t s [? ? ? []] ?. by constructor.
Defined.

#[export] Instance CV_table : Table ServerCV.
Proof.
  refine {| table := serverCVs; with_table := with_CVs; table_size := CVTableSize;
            table_ok := cv_ok |}; try done.
  - by intros s s' (? & ? & ?).
  - by intros s [].
  - intros t s [? ? ? []] ?. by constructor.
Defined.

#[export] Instance MV_table : Table ServerMV.
Proof.
  refine {| table := serverMVs; with_table := with_MVs; table_size := MVTableSize;
            table_ok := mv_ok |}; try done.
  - by intros s s' (? & ? & ?).
  - by intros s [].
  - intros t s [? ? ? []] ?. by constructor.
Defined.

Section table.
Context {T : Type} {named : Named T} {tab : Table T}.

(** ** Operations through the interface *)

(** [checkIf...IDExists(id)] *)
Definition table_exists (id : Z) : M Server bool :=
  let! s := get in ret (id_exists (table s) id).
(** [find...Named(name)] *)
Definition table_find (name : string) : M Server Z :=
  let! s := get in ret (find_named (table s) name).
(** [*table[id]] *)
Definition table_get (id : Z) : M Server T :=
  let! s := get in lift (slot_get (table s) id).
(** assignments to fields of [*table[id]] *)
Definition table_set (id : Z) (x : T) : M Server unit :=
  let! s := get in
  let! t := lift (slot_set (table s) id x) in
  modify (with_table t).
(** a new object in the slot [Find()] returns, [-1] when there is none *)
Definition table_new (x : T) : M Server Z :=
  let! s := get in
  let! r := lift (slot_new (table s) x) in
  modify (with_table r.2) ;;;
  ret r.1.
(** [table[id] = NULL; Clear(id);] *)
Definition table_delete (id : Z) : M Server unit :=
  let! s := get in
  let! t := lift (slot_delete (table s) id) in
  modify (with_table t).

(** ** Their behaviour *)

Lemma table_get_at s id x : entry (table s) id x → table_get id s = Done (x, s).
Proof. intros He. unfold table_get, bind, get, lift. by rewrite (slot_get_entry _ _ _ He). Qed.

(** [s'] is [s] with the entry of [id] now [o], NULL when it is [None]. *)
Definition entry_upd (s : Server) (id : Z) (o : option T) (s' : Server) : Prop :=
  ∀ j z, entry (table s') j z ↔ (j = id ∧ o = Some z) ∨ (j ≠ id ∧ entry (table s) j z).

Lemma entry_upd_here s id x s' : entry_upd s id (Some x) s' → entry (table s') id x.
Proof. intros He. apply He. by left. Qed.

Lemma entry_upd_upd s id o s1 o' s2 :
  entry_upd s id o s1 → entry_upd s1 id o' s2 → entry_upd s id o' s2.
Proof. intros H1 H2 j z. rewrite (H2 j z), (H1 j z). naive_solver. Qed.

Lemma entry_upd_same s id x : entry (table s) id x → entry_upd s id (Some x) s.
Proof.
  intros Hx j z. destruct (decide (j = id)) as [->|]; [|naive_solver].
  split; [|naive_solver]. intros Hz. left. by rewrite (entry_fun _ _ _ _ Hx Hz).
Qed.

Lemma entry_upd_mail s id o s' m : entry_upd s id o s' → entry_upd s id o (with_mail m s').
Proof. unfold entry_upd. by rewrite table_mail. Qed.

Lemma table_set_at s id x y : Inv s → entry (table s) id x → name_of y = name_of x → table_ok y →
  ∃ t, table_set id y s = Done ((), with_table t s) ∧ Inv (with_table t s) ∧
    entry_upd s id (Some y) (with_table t s).
Proof.
  intros Hi Hx Hn Hok.
  destruct (slot_set_wf _ _ _ _ _ _ (table_Inv _ Hi) Hx Hn Hok) as (t & Ht & Hwf & He).
  exists t. unfold table_set, bind, get, lift. rewrite Ht. split_and!; [done| |].
  - by apply with_table_Inv.
  - intros j z. rewrite table_with, (He j z). naive_solver.
Qed.

Lemma table_delete_at s id x : Inv s → entry (table s) id x →
  ∃ t, table_delete id s = Done ((), with_table t s) ∧ Inv (with_table t s) ∧
    entry_upd s id None (with_table t s).
Proof.
  intros Hi Hx. destruct (slot_delete_wf _ _ _ _ _ (table_Inv _ Hi) Hx) as (t & Ht & Hwf & He).
  exists t. unfold table_delete, bind, get, lift. rewrite Ht. split_and!; [done| |].
  - by apply with_table_Inv.
  - intros j z. rewrite table_with, (He j z). naive_solver.
Qed.

(** A new object: the least free slot, or [-1] and nothing changed. *)
Lemma table_new_at s x : Inv s →
  (∀ i y, entry (table s) i y → name_of y ≠ name_of x) → table_ok x →
  ∃ k t, table_new x s = Done (k, with_table t s) ∧ Inv (with_table t s) ∧
    ((k = -1 ∧ slot_vec t = slot_vec (table s) ∧
      ∀ i, 0 <= i < table_size → ∃ y, entry (table s) i y) ∨
     (0 <= k < table_size ∧ (∀ y, ¬ entry (table s) k y) ∧
      (∀ j, 0 <= j < k → ∃ y, entry (table s) j y) ∧
      entry_upd s k (Some x) (with_table t s))).
Proof.
  intros Hi Hfresh Hok. unfold table_new, bind, get, lift.
  destruct (slot_new_wf _ _ _ x (table_Inv _ Hi) Hfresh Hok)
    as [(t & Ht & Hwf & Hv & Hfull)|(k & t & Ht & Hk & Hwf & Hno & Hbl & He)]; rewrite Ht; cbn.
  - exists (-1), t. split_and!; [done|by apply with_table_Inv|by left].
  - exists k, t. split_and!; [done|by apply with_table_Inv|right].
    split_and!; [lia|lia|done|done|]. intros j z. rewrite table_with, (He j z). naive_solver.
Qed.

(** The same as weakest preconditions. *)
Lemma wp_table_get Er id s x Q : entry (table s) id x → Q x s → wp Er (table_get id) Q s.
Proof. intros Hx HQ. unfold wp. by rewrite (table_get_at _ _ _ Hx). Qed.

Lemma wp_table_exists Er id s Q : Q (id_exists (table s) id) s → wp Er (table_exists id) Q s.
Proof. done. Qed.

Lemma wp_table_set Er id s x y Q : Inv s → entry (table s) id x → name_of y = name_of x → table_ok y →
  (∀ t, Inv (with_table t s) → entry_upd s id (Some y) (with_table t s) → Q () (with_table t s)) →
  wp Er (table_set id y) Q s.
Proof.
  intros Hi Hx Hn Hok HQ. destruct (table_set_at s id x y) as (t & Ht & ? & ?); [done..|].
  unfold wp. rewrite Ht. auto.
Qed.

Lemma wp_table_delete Er id s x Q : Inv s → entry (table s) id x →
  (∀ t, Inv (with_table t s) → entry_upd s id None (with_table t s) → Q () (with_table t s)) →
  wp Er (table_delete id) Q s.
Proof.
  intros Hi Hx HQ. destruct (table_delete_at s id x) as (t & Ht & ? & ?); [done..|].
  unfold wp. rewrite Ht. auto.
Qed.

Lemma id_exists_entry s id x : entry (table s) id x → id_exists (table s) id = true.
Proof. intros Hx. apply id_exists_spec. by exists x. Qed.

Lemma id_exists_no s id : (∀ x, ¬ entry (table s) id x) → id_exists (table s) id = false.
Proof. intros Hx. apply not_true_iff_false. rewrite id_exists_spec. naive_solver. Qed.

(** ** Safety of the common shapes *)

Lemma safe_table_exists id : safe (table_exists id).
Proof. apply safe_bind; [apply safe_get|]. intros ?. apply safe_ret. Qed.

Lemma safe_at_get {A} s id x (k : T → M Server A) :
  entry (table s) id x → safe_at s (k x) → safe_at s (let! y := table_get id in k y).
Proof. intros Hx. apply safe_at_step; [by apply table_get_at|done]. Qed.

(** [ok = checkIf...IDExists(id); if (!ok) ...; p = table[id]; ...] *)
Lemma safe_if_exists {A} id (m : bool → M Server A) (k : bool → T → M Server A) :
  safe (m false) → (∀ s x, Inv s → entry (table s) id x → safe_at s (k true x)) →
  safe (let! ok := table_exists id in
        if negb ok then m ok else let! x := table_get id in k ok x).
Proof.
  intros Hm Hk s Hi. unfold table_exists, safe_at. apply wp_bind, wp_bind, wp_get, wp_ret.
  destruct (id_exists (table s) id) eqn:Hid; [|by apply Hm].
  apply id_exists_spec in Hid as [x Hx]. eapply safe_at_get; [done|]. by apply Hk.
Qed.

Lemma safe_at_set {A} s id x y (k : M Server A) :
  Inv s → entry (table s) id x → name_of y = name_of x → table_ok y →
  (∀ s', Inv s' → entry (table s') id y → safe_at s' k) →
  safe_at s (table_set id y ;;; k).
Proof.
  intros Hi Hx Hn Hok Hk. destruct (table_set_at s id x y) as (t & Ht & Hi' & He); [done..|].
  eapply safe_at_step; [exact Ht|by rewrite table_pending|].
  apply Hk; [done|by eapply entry_upd_here].
Qed.

Lemma safe_at_set_last s id x y :
  Inv s → entry (table s) id x → name_of y = name_of x → table_ok y →
  safe_at s (table_set id y).
Proof.
  intros Hi Hx Hn Hok. destruct (table_set_at s id x y) as (t & Ht & Hi' & He); [done..|].
  unfold safe_at, wp. rewrite Ht. by rewrite table_pending.
Qed.

Lemma safe_at_delete s id x : Inv s → entry (table s) id x → safe_at s (table_delete id).
Proof.
  intros Hi Hx. destruct (table_delete_at s id x) as (t & Ht & Hi' & He); [done..|].
  unfold safe_at, wp. rewrite Ht. by rewrite table_pending.
Qed.

(** Finding by name, then creating when there is none or updating the one
    there is. *)
Lemma safe_find_or {A} name (m : M Server A) (k : Z → T → M Server A) :
  (∀ s, Inv s → (∀ i y, entry (table s) i y → name_of y ≠ name) → safe_at s m) →
  (∀ s i x, Inv s → entry (table s) i x → name_of x = name → safe_at s (k i x)) →
  safe (let! i := table_find name in
        if i =? -1 then m else let! x := table_get i in k i x).
Proof.
  intros Hm Hk s Hi. unfold table_find, safe_at. apply wp_bind, wp_bind, wp_get, wp_ret.
  destruct (find_named_cases (table s) name) as [[-> Hno]|(i & x & -> & Hx & Hn)].
  - by apply Hm.
  - pose proof (entry_range _ _ _ Hx). rewrite (proj2 (Z.eqb_neq i (-1))) by lia.
    eapply safe_at_get; [done|]. by apply Hk.
Qed.

Lemma safe_at_new s x : Inv s → (∀ i y, entry (table s) i y → name_of y ≠ name_of x) →
  table_ok x → safe_at s (table_new x).
Proof.
  intros Hi Hn Hok. destruct (table_new_at s x) as (k & t & Ht & Hi' & _); [done..|].
  unfold safe_at, wp. rewrite Ht. by rewrite table_pending.
Qed.

(** Two writes in a row are the second one. *)
Lemma table_set_twice id x y s x0 : entry (table s) id x0 →
  (table_set id x ;;; table_set id y) s = table_set id y s.
Proof.
  intros Hx%entry_range. unfold table_set, slot_set, bind, get, lift, modify.
  rewrite !vset_in by done. cbn. rewrite table_with. cbn.
  rewrite vset_in by (rewrite length_insert; done). cbn. by rewrite table_twice, list_insert_insert_eq.
Qed.

Lemma table_set_sees id x s x0 : entry (table s) id x0 →
  ∃ s', table_set id x s = Done ((), s') ∧ entry (table s') id x ∧
        pendingRequests s' = pendingRequests s.
Proof.
  intros Hx. pose proof (entry_range _ _ _ Hx) as Hr.
  unfold table_set, slot_set, bind, get, lift, modify. rewrite vset_in by done. cbn.
  eexists. split; [done|]. rewrite table_with, table_pending. split; [|done].
  apply (entry_insert _ _ _ (slot_map (table s)) Hr). by left.
Qed.

(** ** Frames *)

Lemma keeps_table_set {X} (f : Server → X) id x :
  (∀ t s, f (with_table t s) = f s) → keeps f (table_set id x).
Proof. intros Hf. unfold table_set. keep. Qed.
Lemma keeps_table_delete {X} (f : Server → X) id :
  (∀ t s, f (with_table t s) = f s) → keeps f (table_delete id).
Proof. intros Hf. unfold table_delete. keep. Qed.
Lemma keeps_table_new {X} (f : Server → X) x :
  (∀ t s, f (with_table t s) = f s) → keeps f (table_new x).
Proof. intros Hf. unfold table_new. keep. Qed.
Lemma keeps_table_read {X} (f : Server → X) id name :
  keeps f (table_exists id) ∧ keeps f (table_get id) ∧ keeps f (table_find name).
Proof. unfold table_exists, table_get, table_find. split_and!; keep. Qed.

End table.
