(* ===== verification/LockServer.v ===== *)
(** * LockServer: the lock handlers of network/nettest.cc *)
From S2P Require Import Prelude.
From S2P Require Import BitMap.
From S2P Require Import Slots.
From S2P Require Import Wire.
From S2P Require Import ServerState.
From S2P Require Import Tables.
From stdpp Require Import base list strings.
From Stdlib Require Import ZArith Lia ZifyBool.

Local Open Scope Z_scope.

Section lock_server.
Context {E : ServerEnv}.

Definition new_ServerLock (name : string) : ServerLock :=
  mkServerLock FREE name garbage garbage [] false 1.

Definition isOwner (l : ServerLock) (machineID mailbox : Z) : bool :=
  (ownerMachineID l =? machineID) && (ownerMailboxNumber l =? mailbox) &&
  bool_decide (state l = BUSY).

Definition checkIfLockIsMineAndGetMyIndex (lock : Z) : Z :=
  let index := Z.rem lock lockTableSize in
  let machineID := Z.quot (lock - index) lockTableSize in
  if machineID =? netAddr then index else -1.

Definition checkIfLockIDExists (lock : Z) : M Server bool := table_exists (T := ServerLock) lock.
Definition findLockNamed (name : string) : M Server Z := table_find (T := ServerLock) name.
(** [serverLocks[lock]], dereferenced. *)
Definition get_lock (lock : Z) : M Server ServerLock := table_get lock.
(** Assignments to fields of [*serverLocks[lock]]. *)
Definition set_lock (lock : Z) (l : ServerLock) : M Server unit := table_set lock l.

Definition with_state (st : SERVERLOCKSTATE) (l : ServerLock) : ServerLock :=
  mkServerLock st (lname l) (ownerMachineID l) (ownerMailboxNumber l) (lq l)
    (isToBeDestroyed l) (createLockCount l).
Definition with_owner (pkt mail : Z) (l : ServerLock) : ServerLock :=
  mkServerLock (state l) (lname l) pkt mail (lq l) (isToBeDestroyed l) (createLockCount l).
Definition with_lq (q : list ServerReplyMsg) (l : ServerLock) : ServerLock :=
  mkServerLock (state l) (lname l) (ownerMachineID l) (ownerMailboxNumber l) q
    (isToBeDestroyed l) (createLockCount l).
Definition with_lock_count (n : Z) (l : ServerLock) : ServerLock :=
  mkServerLock (state l) (lname l) (ownerMachineID l) (ownerMailboxNumber l) (lq l)
    (isToBeDestroyed l) n.
Definition with_toBeDestroyed (l : ServerLock) : ServerLock :=
  mkServerLock (state l) (lname l) (ownerMachineID l) (ownerMailboxNumber l) (lq l)
    true (createLockCount l).

Definition createLockNamed (name : string) : M Server Z :=
  let! index := findLockNamed name in
  if index =? -1 then
    table_new (new_ServerLock name)
  else
    let! l := get_lock index in
    set_lock index (with_lock_count (createLockCount l + 1) l) ;;;
    ret index.

Definition create_reply (id : Z) : string :=
  print_bool (negb (id =? -1)) +:+ " " +:+ print_int id.

(** The reply is sent through a pointer into the destroyed [rs.str()]. *)
Definition serverDoCreateLock (name : string) (pkt mail : Z) : M Server unit :=
  let! i := createLockNamed name in
  let lock := netAddr * lockTableSize + i in
  sendMail (stale (create_reply lock)) pkt mail.

Definition serverCreateLock (name : string) (pkt mail : Z) : M Server unit :=
  let! i := findLockNamed name in
  if negb (i =? -1) then serverDoCreateLock name pkt mail
  else
    ask_others
      (λ a n, mkPendingRequest a pkt mail SC_CreateLock name (-1) (-1) (-1) (-1) 0 (-1) 0 n)
      (serverDoCreateLock name pkt mail).

Definition checkLockAndDestroy (lock : Z) : M Server bool :=
  let! ok := checkIfLockIDExists lock in
  if negb ok then ret false
  else
    let! l := get_lock lock in
    if isToBeDestroyed l && bool_decide (state l = FREE) && (createLockCount l =? 0) then
      table_delete (T := ServerLock) lock ;;; ret true
    else ret false.

(** [msg] points into the destroyed [rs.str()], also when it is queued. *)
Definition serverDoAcquireLock (lock : Z) (pkt mail : Z) : M Server unit :=
  let! status := checkIfLockIDExists lock in
  let msg := print_bool status in
  if negb status then sendMail (stale msg) pkt mail
  else
    let! l := get_lock lock in
    if isOwner l pkt mail then sendMail (stale msg) pkt mail
    else
      match state l with
      | BUSY => set_lock lock (with_lq (lq l ++ [mkReply pkt mail msg]) l)
      | FREE =>
          set_lock lock (with_owner pkt mail (with_state BUSY l)) ;;;
          sendMail (stale msg) pkt mail
      end.

Definition serverAcquireLock (lock pkt mail : Z) : M Server unit :=
  let myIndex := checkIfLockIsMineAndGetMyIndex lock in
  if myIndex =? -1 then
    ask_others
      (λ a n, mkPendingRequest a pkt mail SC_Acquire "" lock (-1) (-1) (-1) 0 (-1) 0 n)
      (serverDoAcquireLock myIndex pkt mail)
  else serverDoAcquireLock myIndex pkt mail.

Definition serverDoReleaseLock (lock pkt mail : Z) : M Server unit :=
  let! ok := checkIfLockIDExists lock in
  if negb ok then ret ()
  else
    let! l := get_lock lock in
    if negb (isOwner l pkt mail) then ret ()
    else
      match lq l with
      | r :: q =>
          set_lock lock (with_owner (r_pktHdr r) (r_mailHdr r) (with_lq q l)) ;;;
          sendMail (stale (r_msg r)) (r_pktHdr r) (r_mailHdr r)
      | [] =>
          set_lock lock (with_state FREE l) ;;;
          let! d := checkLockAndDestroy lock in ret ()
      end.

Definition serverReleaseLock (lock pkt mail : Z) : M Server unit :=
  let myIndex := checkIfLockIsMineAndGetMyIndex lock in
  if myIndex =? -1 then
    ask_others
      (λ a n, mkPendingRequest a pkt mail SC_Release "" lock (-1) (-1) (-1) 0 (-1) 0 n)
      (serverDoReleaseLock myIndex pkt mail)
  else serverDoReleaseLock myIndex pkt mail.

Definition serverDoDestroyLock (lock : Z) : M Server unit :=
  let! ok := checkIfLockIDExists lock in
  if negb ok then ret ()
  else
    let! l := get_lock lock in
    set_lock lock (with_lock_count (createLockCount l - 1) (with_toBeDestroyed l)) ;;;
    let! d := checkLockAndDestroy lock in ret ().

Definition serverDestroyLock (lock pkt mail : Z) : M Server unit :=
  let myIndex := checkIfLockIsMineAndGetMyIndex lock in
  if myIndex =? -1 then
    ask_others
      (λ a n, mkPendingRequest a pkt mail SC_DestroyLock "" lock (-1) (-1) (-1) 0 (-1) 0 n)
      (serverDoDestroyLock myIndex)
  else serverDoDestroyLock myIndex.

(** ** Identifiers *)

(** The identifier a client is given for slot [i]. *)
Definition lock_global (i : Z) : Z := netAddr * lockTableSize + i.

(** ** What a lock is to its clients: a holder and those waiting *)

Definition client : Type := Z * Z.

Record AbsLock := mkAbsLock { holder : option client; waiting : list client }.

Definition lock_abs (l : ServerLock) : AbsLock := {|
  holder := match state l with BUSY => Some (ownerMachineID l, ownerMailboxNumber l) | FREE => None end;
  waiting := (λ r, (r_pktHdr r, r_mailHdr r)) <$> lq l
|}.
Arguments lock_abs : simpl never.

Inductive lock_op := Acq (c : client) | Rel (c : client).
#[local] Instance lock_op_eq_dec : EqDecision lock_op.
Proof. intros [] []; unfold client in *; solve_decision. Defined.

(** One request: the lock after it, and the client told it holds the lock. *)
Definition abs_step (op : lock_op) (a : AbsLock) : AbsLock * option client :=
  match op, holder a with
  | Acq c, None => (mkAbsLock (Some c) (waiting a), Some c)
  | Acq c, Some h =>
      if decide (h = c) then (a, Some c) else (mkAbsLock (Some h) (waiting a ++ [c]), None)
  | Rel c, None => (a, None)
  | Rel c, Some h =>
      if decide (h = c) then
        match waiting a with
        | w :: ws => (mkAbsLock (Some w) ws, Some w)
        | [] => (mkAbsLock None [], None)
        end
      else (a, None)
  end.

(** The server's part of a request for the lock in slot [i]. *)
Definition exec_op (i : Z) (op : lock_op) : M Server unit :=
  match op with
  | Acq c => serverDoAcquireLock i c.1 c.2
  | Rel c => serverDoReleaseLock i c.1 c.2
  end.

(** [c] can be told that it holds the lock. *)
Definition grantable (Er : fault → Prop) (c : client) : Prop :=
  sendable Er (stale (print_bool true)) c.2.

(** Whose requests wait or are answered. *)
Definition op_clients (op : lock_op) : list client :=
  match op with Acq c => [c] | Rel _ => [] end.

(** The mail that tells [c] it holds the lock, sent from [s]. *)
Definition grant_mail (s : Server) (o : option client) : list Mail :=
  match o with
  | Some c => [mkMail c.1 c.2 threadID (stale (print_bool true)) (up (sends s) c.1)]
  | None => []
  end.

(** Destroyed as soon as it is free. *)
Definition doomed (l : ServerLock) : bool := isToBeDestroyed l && (createLockCount l =? 0).

(** The request [op] is the release that frees a doomed lock. *)
Definition destroys (op : lock_op) (l : ServerLock) : bool :=
  doomed l && bool_decide (holder (lock_abs l) ≠ None) &&
  bool_decide (holder (abs_step op (lock_abs l)).1 = None).

(** Slot [i] after [op] on its lock [l]: destroyed by the release that frees
    a doomed lock, the same lock one step further otherwise. *)
Definition lock_after (s : Server) (i : Z) (op : lock_op) (l : ServerLock) (s' : Server) : Prop :=
  if destroys op l then entry_upd s i (None : option ServerLock) s'
  else ∃ l', entry_upd s i (Some l') s' ∧ lock_abs l' = (abs_step op (lock_abs l)).1 ∧
             lname l' = lname l ∧ doomed l' = doomed l.

Record step_post (s : Server) (i : Z) (op : lock_op) (l : ServerLock) (s' : Server) : Prop := {
  sp_Inv : Inv s';
  sp_pending : pendingRequests s' = pendingRequests s;
  sp_CVs : serverCVs s' = serverCVs s;
  sp_MVs : serverMVs s' = serverMVs s;
  sp_mail : outbox s' = outbox s ++ grant_mail s (abs_step op (lock_abs l)).2;
  sp_lock : lock_after s i op l s'
}.

(** ** Auxiliary facts *)

Lemma isOwner_abs l c : isOwner l c.1 c.2 = bool_decide (holder (lock_abs l) = Some c).
Proof.
  destruct c as [a b], l as [[] ? o m ? ? ?]; unfold isOwner; cbn.
  - rewrite bool_decide_false by done. by rewrite !andb_false_r.
  - rewrite andb_true_r. destruct (Z.eqb_spec o a), (Z.eqb_spec m b); cbn; symmetry;
      rewrite ?bool_decide_eq_true, ?bool_decide_eq_false; naive_solver.
Qed.

Definition reply_client (r : ServerReplyMsg) : client := (r_pktHdr r, r_mailHdr r).

Lemma lock_abs_busy l : state l = BUSY →
  lock_abs l = mkAbsLock (Some (ownerMachineID l, ownerMailboxNumber l)) (reply_client <$> lq l).
Proof. unfold lock_abs. by intros ->. Qed.

Lemma lock_abs_free l : state l = FREE → lock_abs l = mkAbsLock None (reply_client <$> lq l).
Proof. unfold lock_abs. by intros ->. Qed.

Lemma new_ServerLock_ok name : lock_ok (new_ServerLock name).
Proof. by split. Qed.

(** A lock that keeps its state and queue stays well formed. *)
Lemma lock_ok_same l l' : lock_ok l → state l' = state l → lq l' = lq l → lock_ok l'.
Proof. unfold lock_ok. by intros ? -> ->. Qed.

Lemma lock_ok_busy l l' : lock_ok l → state l' = BUSY → lq l' = lq l → lock_ok l'.
Proof. unfold lock_ok. intros [_ ?] -> ->. done. Qed.

Lemma lock_ok_free l l' : lock_ok l → lq l = [] → lq l' = lq l → lock_ok l'.
Proof. unfold lock_ok. intros [_ ?] Hq ->. by rewrite Hq. Qed.

Lemma lock_ok_enqueue l pkt mail : lock_ok l → state l = BUSY →
  lock_ok (with_lq (lq l ++ [mkReply pkt mail (print_bool true)]) l).
Proof.
  intros [_ Hm] Hb. split; cbn; [by rewrite Hb|]. apply Forall_app. by rewrite Forall_singleton.
Qed.

Lemma lock_ok_dequeue l r q pkt mail : lock_ok l → state l = BUSY → lq l = r :: q →
  lock_ok (with_owner pkt mail (with_lq q l)) ∧ r_msg r = print_bool true.
Proof.
  intros [_ Hm] Hb Hq. rewrite Hq in Hm. apply Forall_cons in Hm as [? ?].
  split; [|done]. split; cbn; [by rewrite Hb|done].
Qed.

Lemma lock_entry_ok s i (l : ServerLock) : Inv s → entry (table s) i l → lock_ok l.
Proof. intros Hi. exact (sw_ok _ _ _ (table_Inv (T := ServerLock) _ Hi) i l). Qed.

(** [checkLockAndDestroy] on a lock that exists. *)
Lemma checkLockAndDestroy_wp Er i l s (Q : bool → Server → Prop) :
  Inv s → entry (table s) i l →
  (doomed l = true → state l = FREE →
     ∀ t, Inv (with_locks t s) → entry_upd s i (None : option ServerLock) (with_locks t s) →
     Q true (with_locks t s)) →
  (doomed l = false ∨ state l = BUSY → Q false s) →
  wp Er (checkLockAndDestroy i) Q s.
Proof.
  intros Hi Hl Hyes Hno. unfold checkLockAndDestroy.
  apply wp_bind, wp_table_exists. rewrite (id_exists_entry _ _ _ Hl). cbn [negb].
  apply wp_bind. apply (wp_table_get _ _ _ _ _ Hl). unfold doomed in *.
  apply wp_if; intros Hd.
  - rewrite !andb_true_iff, bool_decide_eq_true in Hd. destruct Hd as [[Hd Hf] Hc].
    apply wp_bind. eapply wp_table_delete; [done..|]. intros t Hit Het. apply wp_ret.
    apply Hyes; [by rewrite Hd, Hc|done|done|done].
  - apply wp_ret, Hno. destruct (state l); [|by right].
    rewrite bool_decide_true, andb_true_r in Hd by done. by left.
Qed.

(** ** One request refines one abstract step *)

(** The four ways a request ends. *)
Lemma post_nothing s i op l : Inv s → entry (table s) i l →
  abs_step op (lock_abs l) = (lock_abs l, None) → step_post s i op l s.
Proof.
  intros Hi Hl Hs. constructor; [done..|by rewrite Hs, app_nil_r|].
  unfold lock_after, destroys. rewrite Hs. cbn.
  destruct (_ && _) eqn:Hd; [apply andb_true_iff in Hd as [[??]%andb_true_iff Hd];
    rewrite bool_decide_eq_true in *; naive_solver|].
  exists l. by split_and!; [apply entry_upd_same| | |].
Qed.

Lemma post_set s i op l l' t :
  Inv (with_locks t s) → entry_upd s i (Some l') (with_locks t s) →
  abs_step op (lock_abs l) = (lock_abs l', None) → destroys op l = false →
  lname l' = lname l → doomed l' = doomed l → step_post s i op l (with_locks t s).
Proof.
  intros Hi He Hs Hd Hn Hdm. constructor; [done..|by rewrite Hs, app_nil_r|].
  unfold lock_after. rewrite Hd, Hs. by exists l'.
Qed.

Lemma post_set_mail s i op l l' s' c :
  Inv s' → entry_upd s i (Some l') s' → pendingRequests s' = pendingRequests s →
  serverCVs s' = serverCVs s → serverMVs s' = serverMVs s → outbox s' = outbox s →
  sends s' = sends s →
  abs_step op (lock_abs l) = (lock_abs l', Some c) → destroys op l = false →
  lname l' = lname l → doomed l' = doomed l →
  step_post s i op l (with_mail (mkMail c.1 c.2 threadID (stale (print_bool true)) (up (sends s') c.1)) s').
Proof.
  intros Hi He Hp Hc Hm Ho Hn' Hs Hd Hn Hdm. constructor; [by apply with_mail_Inv|done..| |].
  - rewrite Hs. cbn. by rewrite Ho, Hn'.
  - unfold lock_after. rewrite Hd, Hs. exists l'. by split_and!; [apply entry_upd_mail| | |].
Qed.

Lemma acquire_wp Er i c l s : Inv s → entry (table s) i l → grantable Er c →
  wp Er (serverDoAcquireLock i c.1 c.2) (λ _, step_post s i (Acq c) l) s.
Proof.
  intros Hi Hl Hg. pose proof (lock_entry_ok _ _ _ Hi Hl) as Hok. unfold serverDoAcquireLock.
  apply wp_bind, wp_table_exists. rewrite (id_exists_entry _ _ _ Hl). cbn [negb].
  apply wp_bind, (wp_table_get _ _ _ _ _ Hl). rewrite isOwner_abs. case_bool_decide as Ho.
  { assert (abs_step (Acq c) (lock_abs l) = (lock_abs l, Some c)) as Hs.
    { cbn. rewrite Ho. by rewrite decide_True. }
    apply sendMail_spec; [done|]. eapply post_set_mail; [done|by apply entry_upd_same|done..| |done|done].
    unfold destroys. rewrite Hs. cbn. rewrite Ho. by rewrite !andb_false_r. }
  destruct (state l) eqn:Hst.
  - apply wp_bind. eapply wp_table_set; [done..|by eapply lock_ok_busy|].
    intros t Hit Het. apply sendMail_spec; [done|]. eapply post_set_mail; [done..| | |done|done].
    + rewrite (lock_abs_free l Hst), lock_abs_busy by done. by destruct c.
    + unfold destroys. rewrite (lock_abs_free l Hst). cbn. by rewrite andb_false_r.
  - eapply wp_table_set; [done..|by apply lock_ok_enqueue|].
    rewrite (lock_abs_busy l Hst) in Ho. cbn in Ho. intros t Hit Het.
    eapply post_set; [done..| | |done|done].
    + rewrite (lock_abs_busy l Hst), lock_abs_busy by done. cbn.
      rewrite decide_False by naive_solver. rewrite fmap_app. by destruct c.
    + unfold destroys. rewrite (lock_abs_busy l Hst). cbn.
      rewrite decide_False by naive_solver. cbn. by rewrite !andb_false_r.
Qed.

Lemma release_wp Er i c l s : Inv s → entry (table s) i l →
  Forall (grantable Er) (waiting (lock_abs l)) →
  wp Er (serverDoReleaseLock i c.1 c.2) (λ _, step_post s i (Rel c) l) s.
Proof.
  intros Hi Hl Hg. pose proof (lock_entry_ok _ _ _ Hi Hl) as Hok. unfold serverDoReleaseLock.
  apply wp_bind, wp_table_exists. rewrite (id_exists_entry _ _ _ Hl). cbn [negb].
  apply wp_bind, (wp_table_get _ _ _ _ _ Hl). rewrite isOwner_abs. case_bool_decide as Ho; cbn [negb].
  2: { apply wp_ret, post_nothing; [done..|]. cbn. destruct (holder (lock_abs l)) as [h|] in Ho |- *; [|done].
       by rewrite decide_False by naive_solver. }
  assert (state l = BUSY) as Hst by (destruct (state l) eqn:Hst; [|done]; by rewrite lock_abs_free in Ho).
  pose proof (lock_abs_busy l Hst) as Habs. rewrite Habs in Ho. injection Ho as Ho.
  destruct (lq l) as [|r q] eqn:Hq.
  - apply wp_bind. eapply wp_table_set; [done..|by eapply lock_ok_free|]. intros t Hit Het.
    apply wp_bind. eapply checkLockAndDestroy_wp; [done|by eapply entry_upd_here|..].
    + intros Hd _ t' Hit' Het'. apply wp_ret.
      constructor; [done..|rewrite Habs; cbn; by rewrite Ho, decide_True, app_nil_r|].
      assert (doomed l = true) as Hd' by exact Hd.
      unfold lock_after, destroys. rewrite Habs, Hd'. cbn. rewrite Ho, decide_True by done. cbn.
      by eapply entry_upd_upd.
    + intros Hd. apply wp_ret. eapply post_set; [done..| | |done|done].
      * rewrite Habs, lock_abs_free by done. cbn. by rewrite Ho, decide_True, Hq.
      * destruct Hd as [Hd|Hd]; [|done]. unfold destroys. change (doomed (with_state FREE l)) with (doomed l) in Hd. by rewrite Hd.
  - destruct (lock_ok_dequeue l r q (r_pktHdr r) (r_mailHdr r) Hok Hst Hq) as [Hok' Hr].
    apply wp_bind. eapply wp_table_set; [done..|]. intros t Hit Het.
    rewrite Habs in Hg. apply Forall_cons in Hg as [Hg _].
    rewrite Hr. apply sendMail_spec; [done|].
    apply (post_set_mail _ _ _ _ (with_owner (r_pktHdr r) (r_mailHdr r) (with_lq q l)) _ (reply_client r));
      [done..| | |done|done].
    + rewrite Habs, lock_abs_busy by done. cbn. by rewrite Ho, decide_True.
    + unfold destroys. rewrite Habs. cbn. rewrite Ho, decide_True by done. cbn. by rewrite andb_false_r.
Qed.

Lemma exec_op_wp Er i op l s : Inv s → entry (table s) i l →
  Forall (grantable Er) (op_clients op ++ waiting (lock_abs l)) →
  wp Er (exec_op i op) (λ _, step_post s i op l) s.
Proof.
  intros Hi Hl [Ho Hw]%Forall_app.
  destruct op; [apply acquire_wp; [done..|by apply Forall_singleton]|by apply release_wp].
Qed.

Lemma grantable_tolerated cs : Forall (grantable tolerated) cs.
Proof. apply Forall_forall. intros ? _. apply sendable_tolerated. Qed.

(** ** Requests for a lock that is not there *)

Lemma acquire_missing_wp Er i c s : (∀ l : ServerLock, ¬ entry (table s) i l) →
  sendable Er (stale (print_bool false)) c.2 →
  wp Er (serverDoAcquireLock i c.1 c.2)
    (λ _ s', s' = with_mail (mkMail c.1 c.2 threadID (stale (print_bool false)) (up (sends s) c.1)) s) s.
Proof.
  intros Hno Hg. unfold serverDoAcquireLock. apply wp_bind, wp_table_exists.
  rewrite id_exists_no by done. by apply sendMail_spec.
Qed.

Lemma release_missing_wp Er i c s : (∀ l : ServerLock, ¬ entry (table s) i l) →
  wp Er (serverDoReleaseLock i c.1 c.2) (λ _ s', s' = s) s.
Proof.
  intros Hno. unfold serverDoReleaseLock. apply wp_bind, wp_table_exists.
  rewrite id_exists_no by done. by apply wp_ret.
Qed.

Lemma entry_dec s i : (∃ l : ServerLock, entry (table s) i l) ∨ (∀ l : ServerLock, ¬ entry (table s) i l).
Proof.
  destruct (id_exists (table (T := ServerLock) s) i) eqn:He; [left; exact (proj1 (id_exists_spec _ _) He)|right].
  intros l Hl. by rewrite (id_exists_entry _ _ _ Hl) in He.
Qed.

(** ** Safety of the handlers *)

Lemma step_post_safe s i op l m : step_post s i op l m →
  Inv m ∧ (self <$> pendingRequests s) `prefix_of` (self <$> pendingRequests m).
Proof. intros []. split; [done|]. by rewrite sp_pending0. Qed.

Lemma safe_createLockNamed name : safe (createLockNamed name).
Proof.
  apply safe_find_or.
  - intros s Hi Hno. apply safe_at_new; [done..|apply new_ServerLock_ok].
  - intros s i l Hi Hl _. eapply safe_at_set; [done..| |].
    + by eapply lock_ok_same; [eapply lock_entry_ok|..].
    + intros s' Hi' _. by apply safe_at_ret.
Qed.

Lemma safe_serverDoCreateLock name pkt mail : safe (serverDoCreateLock name pkt mail).
Proof. apply safe_bind; [apply safe_createLockNamed|]. intros i. apply safe_sendMail. Qed.

Lemma safe_serverCreateLock name pkt mail : safe (serverCreateLock name pkt mail).
Proof.
  apply safe_bind; [apply safe_bind; [apply safe_get|intros; apply safe_ret]|]. intros i.
  apply safe_if; [apply safe_serverDoCreateLock|].
  apply safe_ask_others; [by intros|apply safe_serverDoCreateLock].
Qed.

Lemma safe_checkLockAndDestroy i : safe (checkLockAndDestroy i).
Proof.
  apply (safe_if_exists _ (λ _, ret false)); [apply safe_ret|]. intros s l Hi Hl.
  apply wp_if; intros _; [|by apply safe_at_ret].
  apply safe_at_bind; [by eapply safe_at_delete|]. intros _. apply safe_ret.
Qed.

Lemma safe_serverDoAcquireLock i pkt mail : safe (serverDoAcquireLock i pkt mail).
Proof.
  intros s Hi. destruct (entry_dec s i) as [[l Hl]|Hno].
  - eapply wp_mono; [apply (acquire_wp tolerated i (pkt, mail) l); [done..|apply sendable_tolerated]|].
    intros ? s'. apply step_post_safe.
  - eapply wp_mono; [apply (acquire_missing_wp tolerated i (pkt, mail)); [done|apply sendable_tolerated]|].
    cbn. intros ? s' ->. split; [by apply with_mail_Inv|done].
Qed.

Lemma safe_serverDoReleaseLock i pkt mail : safe (serverDoReleaseLock i pkt mail).
Proof.
  intros s Hi. destruct (entry_dec s i) as [[l Hl]|Hno].
  - eapply wp_mono; [by apply (release_wp tolerated i (pkt, mail) l), grantable_tolerated|].
    intros ? s'. apply step_post_safe.
  - eapply wp_mono; [by apply (release_missing_wp tolerated i (pkt, mail))|]. by intros ? s' ->.
Qed.

Lemma safe_serverDoDestroyLock i : safe (serverDoDestroyLock i).
Proof.
  apply (safe_if_exists _ (λ _, ret ())); [apply safe_ret|]. intros s l Hi Hl.
  eapply safe_at_set; [done..| |].
  - by eapply lock_ok_same; [eapply lock_entry_ok|..].
  - intros s' Hi' _. revert s' Hi'. apply safe_bind; [apply safe_checkLockAndDestroy|].
    intros _. apply safe_ret.
Qed.

Lemma safe_serverAcquireLock lock pkt mail : safe (serverAcquireLock lock pkt mail).
Proof.
  apply safe_if; [apply safe_ask_others; [by intros|]|]; apply safe_serverDoAcquireLock.
Qed.
Lemma safe_serverReleaseLock lock pkt mail : safe (serverReleaseLock lock pkt mail).
Proof.
  apply safe_if; [apply safe_ask_others; [by intros|]|]; apply safe_serverDoReleaseLock.
Qed.
Lemma safe_serverDestroyLock lock pkt mail : safe (serverDestroyLock lock pkt mail).
Proof.
  apply safe_if; [apply safe_ask_others; [by intros|]|]; apply safe_serverDoDestroyLock.
Qed.

(** ** The lock handlers leave the other tables *)
Section lock_frame.
Context {X : Type} (f : Server → X).
Hypothesis f_mail : ∀ m s, f (with_mail m s) = f s.
Hypothesis f_pending : ∀ g s, f (with_pending g s) = f s.
Hypothesis f_new : ∀ c a s, f (mkServer c a (pendingRequests s) (serverLocks s) (serverCVs s)
                                 (serverMVs s) (sends s) (outbox s)) = f s.
Hypothesis f_locks : ∀ t s, f (with_locks t s) = f s.

Lemma keeps_lock_ops lock pkt mail :
  keeps f (serverDoAcquireLock lock pkt mail) ∧ keeps f (serverDoReleaseLock lock pkt mail).
Proof.
  pose proof (keeps_sendMail f f_mail). pose proof (λ i x, keeps_table_set (T := ServerLock) f i x f_locks).
  pose proof (λ i, keeps_table_delete (T := ServerLock) f i f_locks).
  split; unfold serverDoAcquireLock, serverDoReleaseLock, checkLockAndDestroy,
    checkIfLockIDExists, table_exists, get_lock, table_get, set_lock; keep.
Qed.

Lemma keeps_serverAcquireLock lock pkt mail : keeps f (serverAcquireLock lock pkt mail).
Proof.
  pose proof keeps_lock_ops as Hops. unfold serverAcquireLock. cbn zeta.
  apply keeps_if; [apply keeps_ask_others; [done..|]|]; apply Hops.
Qed.
Lemma keeps_serverReleaseLock lock pkt mail : keeps f (serverReleaseLock lock pkt mail).
Proof.
  pose proof keeps_lock_ops as Hops. unfold serverReleaseLock. cbn zeta.
  apply keeps_if; [apply keeps_ask_others; [done..|]|]; apply Hops.
Qed.
End lock_frame.

(** ** Histories of one lock *)

(** Serve [ops] on the lock of slot [i]; with each, the mail it sent. *)
Fixpoint lock_events (i : Z) (ops : list lock_op) : M Server (list (lock_op * list Mail)) :=
  match ops with
  | [] => ret []
  | op :: ops' =>
      let! s := get in
      exec_op i op ;;;
      let! s' := get in
      let! es := lock_events i ops' in
      ret ((op, drop (length (outbox s)) (outbox s')) :: es)
  end.

(** The abstract history: each request with the client it answers. *)
Fixpoint abs_events (ops : list lock_op) (a : AbsLock) : list (lock_op * option client) :=
  match ops with
  | [] => []
  | op :: ops' => (op, (abs_step op a).2) :: abs_events ops' (abs_step op a).1
  end.

Fixpoint abs_final (ops : list lock_op) (a : AbsLock) : AbsLock :=
  match ops with [] => a | op :: ops' => abs_final ops' (abs_step op a).1 end.

(** [e] is what the server does for the abstract event [a]: one mail to the
    client [a] names, which says success, or none. *)
Definition event_match (e : lock_op * list Mail) (a : lock_op * option client) : Prop :=
  e.1 = a.1 ∧
  match a.2 with
  | Some c => ∃ ok, e.2 = [mkMail c.1 c.2 threadID (stale (print_bool true)) ok]
  | None => e.2 = []
  end.

Lemma abs_step_waiting Er op a : Forall (grantable Er) (op_clients op ++ waiting a) →
  Forall (grantable Er) (waiting (abs_step op a).1).
Proof.
  rewrite Forall_app. intros [Ho Hw]. destruct op as [c|c]; cbn; destruct (holder a) as [h|]; cbn;
    try case_decide; cbn; [done| |done| |done|done].
  - apply Forall_app. done.
  - destruct (waiting a); cbn; [constructor|]. by apply Forall_cons in Hw as [_ ?].
Qed.

Lemma acquire_keeps c l : destroys (Acq c) l = false.
Proof.
  unfold destroys. apply andb_false_intro2, bool_decide_eq_false. cbn.
  destruct (holder (lock_abs l)) as [h|] eqn:Hh; [|done]. case_decide; cbn; by rewrite ?Hh.
Qed.

Lemma not_doomed_stays op l : doomed l = false → destroys op l = false.
Proof. unfold destroys. by intros ->. Qed.

Lemma lock_events_wp Er i ops s l : Inv s → entry (table s) i l → doomed l = false →
  Forall (grantable Er) (ops ≫= op_clients) → Forall (grantable Er) (waiting (lock_abs l)) →
  wp Er (lock_events i ops)
    (λ es s', Inv s' ∧ Forall2 event_match es (abs_events ops (lock_abs l)) ∧
       ∃ l', entry (table s') i l' ∧ lock_abs l' = abs_final ops (lock_abs l) ∧
             lname l' = lname l ∧ doomed l' = false) s.
Proof.
  revert s l. induction ops as [|op ops IH]; intros s l Hi Hl Hd Hg Hw; cbn.
  { apply wp_ret. split_and!; [done|constructor|]. by exists l. }
  cbn in Hg. apply Forall_app in Hg as [Hgo Hg].
  apply wp_bind, wp_get, wp_bind. eapply wp_mono.
  { apply exec_op_wp; [done..|]. by apply Forall_app. }
  cbn. intros _ s1 [Hi1 _ _ _ Hm Ha]. unfold lock_after in Ha. rewrite (not_doomed_stays _ _ Hd) in Ha.
  destruct Ha as (l1 & He1 & Hl1 & Hn1 & Hd1). apply entry_upd_here in He1.
  apply wp_bind, wp_get, wp_bind. eapply wp_mono.
  { apply IH; [done|done|congruence|done|]. rewrite Hl1. apply abs_step_waiting, Forall_app. done. }
  cbn. intros es s2 (Hi2 & Hes & l2 & He2 & Hl2 & Hn2 & Hd2). apply wp_ret. split_and!; [done| |].
  - rewrite Hl1 in Hes. constructor; [|done]. split; [done|]. cbn.
    rewrite Hm, drop_app_length. destruct (abs_step op (lock_abs l)).2; cbn; [by eexists|done].
  - exists l2. rewrite Hl2, Hl1. split_and!; [done..|congruence|done].
Qed.

(** ** A slot, whatever is in it *)

(** A slot with no lock, or a lock and whether it goes when it is free. *)
Definition AbsSlot : Type := option (bool * AbsLock).

Definition slot_is (s : Server) (i : Z) (x : AbsSlot) : Prop :=
  match x with
  | None => ∀ l : ServerLock, ¬ entry (table s) i l
  | Some (d, a) => ∃ l, entry (table s) i l ∧ doomed l = d ∧ lock_abs l = a
  end.

(** The slot after a request, and the client that is told whether it holds the
    lock: a request for a lock that is not there is refused, a doomed lock goes
    with the release that frees it. *)
Definition slot_step (op : lock_op) (x : AbsSlot) : AbsSlot * option (client * bool) :=
  match x with
  | None => (None, match op with Acq c => Some (c, false) | Rel _ => None end)
  | Some (d, a) =>
      let '(a', o) := abs_step op a in
      (if d && bool_decide (holder a ≠ None) && bool_decide (holder a' = None) then None else Some (d, a'),
       (λ c, (c, true)) <$> o)
  end.

Fixpoint slot_events (ops : list lock_op) (x : AbsSlot) : list (lock_op * option (client * bool)) :=
  match ops with [] => [] | op :: ops => (op, (slot_step op x).2) :: slot_events ops (slot_step op x).1 end.
Definition slot_final (ops : list lock_op) (x : AbsSlot) : AbsSlot := foldl (λ x op, (slot_step op x).1) x ops.

Definition slot_waiting (x : AbsSlot) : list client := match x with Some (_, a) => waiting a | None => [] end.

(** The mail of an answer. *)
Definition answer_mail (ms : list Mail) (o : option (client * bool)) : Prop :=
  match o with
  | Some (c, b) => ∃ ok, ms = [mkMail c.1 c.2 threadID (stale (print_bool b)) ok]
  | None => ms = []
  end.
Definition answered (e : lock_op * list Mail) (a : lock_op * option (client * bool)) : Prop :=
  e.1 = a.1 ∧ answer_mail e.2 a.2.

(** A client that can be told either. *)
Definition answerable (Er : fault → Prop) (c : client) : Prop := ∀ b, sendable Er (stale (print_bool b)) c.2.

Lemma answerable_grantable Er cs : Forall (answerable Er) cs → Forall (grantable Er) cs.
Proof. intros H. eapply Forall_impl; [exact H|]. intros c Hc. apply (Hc true). Qed.

Lemma slot_step_waiting Er op x : Forall (answerable Er) (op_clients op ++ slot_waiting x) →
  Forall (answerable Er) (slot_waiting (slot_step op x).1).
Proof.
  rewrite Forall_app. intros [Ho Hw]. destruct x as [[d a]|]; [|done]. cbn in *.
  destruct (abs_step op a) as [a' o] eqn:Hs. cbn. destruct (_ && _); [done|]. cbn.
  replace a' with (abs_step op a).1 by (by rewrite Hs). clear Hs. destruct op as [c|c]; cbn in *; destruct (holder a) as [h|]; cbn;
    try case_decide; cbn; try done; [by apply Forall_app|].
  destruct (waiting a); cbn; [constructor|]. by apply Forall_cons in Hw as [_ ?].
Qed.

(** What stops the sending of an answer. *)
Definition unreachable (f : fault) : Prop := f = MailTooLong ∨ f = BadMailBox.
Lemma answerable_unreachable cs : Forall (answerable unreachable) cs.
Proof. apply Forall_forall. intros c _ b. split; intros _; [by left|by right]. Qed.

(** One request refines one step of the slot. *)
Definition slot_post (i : Z) (op : lock_op) (x : AbsSlot) (s s' : Server) : Prop :=
  Inv s' ∧ slot_is s' i (slot_step op x).1 ∧ ∃ ms, outbox s' = outbox s ++ ms ∧ answer_mail ms (slot_step op x).2.

Lemma step_post_slot i op l s s' : step_post s i op l s' → slot_post i op (Some (doomed l, lock_abs l)) s s'.
Proof.
  intros [Hi' _ _ _ Hm Ha]. unfold slot_post, slot_step. destruct (abs_step op (lock_abs l)) as [a' o] eqn:Hs. cbn [fst snd] in *.
  split; [done|]. split; [|exists (grant_mail s o); split; [done|by destruct o; [eexists|]]].
  unfold lock_after, destroys in Ha. rewrite Hs in Ha. cbn [fst] in Ha. destruct (_ && _).
  - cbn. intros l' Hl'. apply Ha in Hl'. naive_solver.
  - destruct Ha as (l' & He & Hl' & _ & Hd). exists l'. split_and!; [by eapply entry_upd_here|done|done].
Qed.

Lemma slot_acquire_wp Er i c x s : Inv s → slot_is s i x → answerable Er c →
  wp Er (exec_op i (Acq c)) (λ _, slot_post i (Acq c) x s) s.
Proof.
  intros Hi Hx Hc. destruct x as [[d a]|]; cbn [slot_is exec_op] in *.
  - destruct Hx as (l & Hl & <- & <-). eapply wp_mono; [by apply (acquire_wp Er i c l s); [..|apply (Hc true)]|].
    intros ? s'. apply step_post_slot.
  - eapply wp_mono; [apply acquire_missing_wp; [done|apply (Hc false)]|]. cbn. intros _ s' ->.
    split; [by apply with_mail_Inv|]. split; [exact Hx|]. eexists. split; [done|by eexists].
Qed.

Lemma slot_op_wp Er i op x s : Inv s → slot_is s i x → Forall (answerable Er) (op_clients op ++ slot_waiting x) →
  wp Er (exec_op i op) (λ _, slot_post i op x s) s.
Proof.
  intros Hi Hx [Ho Hw]%Forall_app. destruct op as [c|c]; [by apply slot_acquire_wp; [..|apply Forall_inv in Ho]|].
  destruct x as [[d a]|]; cbn [slot_is exec_op] in *.
  - destruct Hx as (l & Hl & <- & <-). eapply wp_mono; [by apply (release_wp Er i c l s), answerable_grantable|].
    intros ? s'. apply step_post_slot.
  - eapply wp_mono; [by apply release_missing_wp|]. cbn. intros _ s' ->. split; [done|]. split; [done|].
    exists []. by rewrite app_nil_r.
Qed.

Lemma slot_events_wp Er i ops : ∀ s x, Inv s → slot_is s i x →
  Forall (answerable Er) (ops ≫= op_clients) → Forall (answerable Er) (slot_waiting x) →
  wp Er (lock_events i ops)
    (λ es s', Inv s' ∧ slot_is s' i (slot_final ops x) ∧ Forall2 answered es (slot_events ops x)) s.
Proof.
  induction ops as [|op ops IH]; intros s x Hi Hx Hg Hw; cbn.
  { apply wp_ret. split_and!; [done|done|constructor]. }
  cbn in Hg. apply Forall_app in Hg as [Hgo Hg].
  apply wp_bind, wp_get, wp_bind. eapply wp_mono; [apply (slot_op_wp Er i op x); [done..|by apply Forall_app]|].
  cbn. intros _ s1 (Hi1 & Hx1 & ms & Ho & Hms). apply wp_bind, wp_get, wp_bind. eapply wp_mono.
  { apply IH; [done|exact Hx1|done|]. apply slot_step_waiting, Forall_app. done. }
  cbn. intros es s2 (Hi2 & Hx2 & Hes). apply wp_ret. split_and!; [done..|]. constructor; [|done].
  split; [done|]. cbn. by rewrite Ho, drop_app_length.
Qed.

(** ** Creation and destruction *)

Definition lock_named (s : Server) (name : string) (i : Z) : Prop :=
  ∃ l, entry (table s) i l ∧ lname l = name.

(** What [createLockNamed] did from [s] when it returned [i] in [s']. *)
Inductive created (s : Server) (name : string) : Z → Server → Prop :=
| created_old i l s' : entry (table s) i l → lname l = name →
    entry_upd s i (Some (with_lock_count (createLockCount l + 1) l)) s' → created s name i s'
| created_full s' : (∀ i, ¬ lock_named s name i) →
    (∀ i, 0 <= i < lockTableSize → ∃ l : ServerLock, entry (table s) i l) →
    slot_vec (serverLocks s') = slot_vec (serverLocks s) → created s name (-1) s'
| created_new i s' : (∀ j, ¬ lock_named s name j) → 0 <= i < lockTableSize →
    (∀ l : ServerLock, ¬ entry (table s) i l) →
    (∀ j, 0 <= j < i → ∃ l : ServerLock, entry (table s) j l) →
    entry_upd s i (Some (new_ServerLock name)) s' → created s name i s'.

Lemma createLockNamed_at name s : Inv s →
  ∃ i s', createLockNamed name s = Done (i, s') ∧ Inv s' ∧ created s name i s' ∧
    ∃ t, s' = with_locks t s.
Proof.
  intros Hi. unfold createLockNamed, findLockNamed, table_find.
  destruct (find_named_cases (table (T := ServerLock) s) name) as [[Hf Hno]|(i & l & Hf & Hl & Hn)].
  - rewrite (bind_Done _ _ s (-1) s) by (unfold bind, get, ret; by rewrite Hf). rewrite Z.eqb_refl.
    destruct (table_new_at s (new_ServerLock name) Hi Hno (new_ServerLock_ok name))
      as (k & t & -> & Hi' & Hk).
    exists k, (with_locks t s). split_and!; [done|exact Hi'| |by exists t].
    assert (∀ j, ¬ lock_named s name j) as Hnn by (intros j (l & Hl & ?); by eapply Hno).
    destruct Hk as [(-> & Hv & Hfull)|(Hr & Hfree & Hbl & He)].
    + by apply created_full.
    + by apply created_new.
  - rewrite (bind_Done _ _ s i s) by (unfold bind, get, ret; by rewrite Hf).
    pose proof (entry_range _ _ _ Hl). rewrite (proj2 (Z.eqb_neq i (-1))) by lia.
    rewrite (bind_Done _ _ _ _ _ (table_get_at _ _ _ Hl)).
    destruct (table_set_at s i l (with_lock_count (createLockCount l + 1) l) Hi Hl eq_refl)
      as (t & Ht & Hi' & He).
    { by eapply lock_ok_same; [eapply lock_entry_ok|..]. }
    unfold set_lock. rewrite (bind_Done _ _ _ _ _ Ht).
    exists i, (with_locks t s). split_and!; [done|exact Hi'| |by exists t].
    by eapply created_old.
Qed.

(** Slot [i] after its lock [l] lost one of its creators. *)
Definition uncreated (l : ServerLock) : option ServerLock :=
  if bool_decide (state l = FREE) && (createLockCount l =? 1) then None
  else Some (with_lock_count (createLockCount l - 1) (with_toBeDestroyed l)).

Lemma destroy_wp Er i l s : Inv s → entry (table s) i l →
  wp Er (serverDoDestroyLock i) (λ _ s', Inv s' ∧ entry_upd s i (uncreated l) s' ∧
     outbox s' = outbox s ∧ pendingRequests s' = pendingRequests s) s.
Proof.
  intros Hi Hl. pose proof (lock_entry_ok _ _ _ Hi Hl) as Hok. unfold serverDoDestroyLock, uncreated.
  apply wp_bind, wp_table_exists. rewrite (id_exists_entry _ _ _ Hl). cbn [negb].
  apply wp_bind, (wp_table_get _ _ _ _ _ Hl), wp_bind.
  set (l' := with_lock_count _ _).
  eapply wp_table_set; [done..|by eapply lock_ok_same|]. intros t Hit Het.
  apply wp_bind. eapply checkLockAndDestroy_wp; [done|by eapply entry_upd_here|..].
  - intros Hd Hf t' Hit' Het'. apply wp_ret. split_and!; [done| |done..].
    unfold doomed in Hd. cbn in Hd, Hf. rewrite bool_decide_true by done.
    replace (createLockCount l =? 1) with true by lia. by eapply entry_upd_upd.
  - intros Hd. apply wp_ret. split_and!; [done| |done..]. destruct (_ && _) eqn:Hb; [|done].
    rewrite andb_true_iff, bool_decide_eq_true in Hb. destruct Hb as [Hf Hc].
    unfold doomed in Hd. cbn in Hd. rewrite Hf in Hd. destruct Hd as [Hd|Hd]; [lia|done].
Qed.

(** *** The abstract machine is a fair lock *)

(** A client that got the lock in the past still holds it, unless it let it
    go. *)
Lemma abs_hold ops a c n : holder a = Some c →
  (∀ k e, k < n → abs_events ops a !! k = Some e → e.1 ≠ Rel c)%nat →
  ∀ e, abs_events ops a !! n = Some e → ∀ c', e.2 = Some c' → c' = c ∨ e.1 = Rel c.
Proof.
  revert a n. induction ops as [|op ops IH]; intros a n Ha Hno e He c' Hc'; [done|].
  destruct n as [|n]; cbn in He.
  - injection He as <-. cbn in *. destruct op as [d|d]; cbn in *; rewrite Ha in Hc';
      case_decide; try done; naive_solver.
  - apply (IH (abs_step op a).1 n); [|intros k e' Hk He'; by apply (Hno (S k)); [lia|]|done|done].
    specialize (Hno 0%nat (op, (abs_step op a).2) ltac:(lia) eq_refl). cbn in Hno.
    destruct op as [d|d]; cbn; rewrite Ha; case_decide; cbn; naive_solver.
Qed.

(** Whoever is told it holds the lock holds it. *)
Lemma abs_grant op a c : (abs_step op a).2 = Some c → holder (abs_step op a).1 = Some c.
Proof.
  destruct op, a as [[h|] [|w ws]]; cbn; try case_decide; cbn; naive_solver.
Qed.

Lemma abs_exclusion ops a m n e1 e2 c1 c2 : (m < n)%nat →
  abs_events ops a !! m = Some e1 → e1.2 = Some c1 →
  abs_events ops a !! n = Some e2 → e2.2 = Some c2 → c1 ≠ c2 →
  ∃ k e, (m < k <= n)%nat ∧ abs_events ops a !! k = Some e ∧ e.1 = Rel c1.
Proof.
  revert a m n. induction ops as [|op ops IH]; intros a m n Hmn H1 Hc1 H2 Hc2 Hne; [done|].
  destruct n as [|n]; [lia|]. destruct m as [|m]; cbn in *.
  2: { destruct (IH (abs_step op a).1 m n) as (k & e & Hk & ?); [lia|done..|].
       exists (S k), e. split; [lia|done]. }
  injection H1 as <-. cbn in Hc1. apply abs_grant in Hc1.
  set (b := (abs_step op a).1) in *.
  destruct (decide (Exists (λ e, e.1 = Rel c1) (take n (abs_events ops b)))) as [Hex|Hno].
  - apply Exists_exists in Hex as (e & [k Hk]%list_elem_of_lookup_1 & He).
    apply lookup_take_Some in Hk as [Hk Hkn]. exists (S k), e. split; [lia|done].
  - rewrite <- Forall_Exists_neg, Forall_lookup in Hno.
    destruct (abs_hold ops b c1 n Hc1) with (e := e2) (c' := c2) as [->|He]; [|done|done|done|].
    + intros k e Hk He. apply (Hno k). by rewrite lookup_take_lt.
    + exists (S n), e2. split; [lia|done].
Qed.

Definition queued (e : lock_op * option client) : option client :=
  match e with (Acq c, None) => Some c | _ => None end.
Definition handed (e : lock_op * option client) : option client :=
  match e with (Rel _, Some c) => Some c | _ => None end.

Lemma abs_fifo ops a :
  omap handed (abs_events ops a) ++ waiting (abs_final ops a) =
  waiting a ++ omap queued (abs_events ops a).
Proof.
  revert a. induction ops as [|op ops IH]; intros a; cbn; [by rewrite app_nil_r|].
  specialize (IH (abs_step op a).1).
  destruct op, a as [[h|] [|w ws]]; cbn in *; try case_decide; cbn in *;
    rewrite ?IH, <- ?(assoc_L app); done.
Qed.

(** What an event of the server says. *)
Definition told (e : lock_op * list Mail) : option client :=
  match e.2 with m :: _ => Some (to_machine m, to_box m) | [] => None end.

Lemma told_match e a : event_match e a → (e.1, told e) = a.
Proof.
  intros [H1 H2]. destruct e as [op ms], a as [op' [[x y]|]]; cbn in *; [|by subst].
  destruct H2 as [ok ->]. by subst.
Qed.

Lemma omap_map {A B C} (f : B → option C) (g : A → B) (l : list A) : omap f (g <$> l) = omap (λ x, f (g x)) l.
Proof. induction l as [|x l IH]; [done|]. cbn. by rewrite <- IH. Qed.

Lemma told_events es evs : Forall2 event_match es evs → (λ e, (e.1, told e)) <$> es = evs.
Proof. induction 1 as [|e a es evs He _ IH]; [done|]. cbn. by rewrite (told_match _ _ He), IH. Qed.

(** ** Properties *)

(** C3: the server implements the abstract slot: whatever is in the
    slot, a lock, a lock that goes when it is free, or nothing, any sequence of
    acquire and release requests gives each request the mail the abstract machine
    says and no other, and leaves the slot as that machine leaves it.  It can stop
    only on a client that mail cannot reach, its box not being one of the post
    office or the answer too long, and does not stop when all can be reached. *)
Theorem lock_refines i ops s x : Inv s → slot_is s i x →
  let refines := λ es s', Inv s' ∧ slot_is s' i (slot_final ops x) ∧ Forall2 answered es (slot_events ops x) in
  wp unreachable (lock_events i ops) refines s ∧
  (Forall (answerable no_fault) ((ops ≫= op_clients) ++ slot_waiting x) →
   ∃ es s', lock_events i ops s = Done (es, s') ∧ refines es s').
Proof.
  intros Hi Hx refines. split.
  - apply slot_events_wp; [done..| |]; apply answerable_unreachable.
  - intros [Hg Hw]%Forall_app. exact (wp_no_fault _ _ _ (slot_events_wp _ i ops s x Hi Hx Hg Hw)).
Qed.

(** C2: mutual exclusion: in the history of a lock, after
    a client was told it holds the lock no other client is told so before the
    first one asked for its release. *)
Theorem lock_mutual_exclusion i ops s l : Inv s → entry (table s) i l → doomed l = false →
  wp tolerated (lock_events i ops)
    (λ es _, ∀ m n e1 e2 c1 c2, (m < n)%nat →
       es !! m = Some e1 → told e1 = Some c1 → es !! n = Some e2 → told e2 = Some c2 → c1 ≠ c2 →
       ∃ k e, (m < k <= n)%nat ∧ es !! k = Some e ∧ e.1 = Rel c1) s.
Proof.
  intros Hi Hl Hd. eapply wp_mono.
  { eapply lock_events_wp; [done..|apply grantable_tolerated|apply grantable_tolerated]. }
  cbn. intros es s' (_ & Hes%told_events & _) m n e1 e2 c1 c2 Hmn H1 Hc1 H2 Hc2 Hne.
  destruct (abs_exclusion ops (lock_abs l) m n (e1.1, told e1) (e2.1, told e2) c1 c2)
    as (k & e & Hk & He & Hr); try done.
  - by rewrite <- Hes, list_lookup_fmap, H1.
  - by rewrite <- Hes, list_lookup_fmap, H2.
  - rewrite <- Hes, list_lookup_fmap in He. destruct (es !! k) as [e'|] eqn:Hek; [|done].
    injection He as <-. by exists k, e'.
Qed.

(** The lock is handed over first come first served: the clients
    that got it from a release, followed by those still waiting, are the ones
    that waited before followed by those that asked and got no answer, in the
    order they asked. *)
Theorem lock_fifo i ops s l : Inv s → entry (table s) i l → doomed l = false →
  wp tolerated (lock_events i ops)
    (λ es s', ∃ l', entry (table s') i l' ∧
       omap (λ e, handed (e.1, told e)) es ++ waiting (lock_abs l') =
       waiting (lock_abs l) ++ omap (λ e, queued (e.1, told e)) es) s.
Proof.
  intros Hi Hl Hd. eapply wp_mono.
  { eapply lock_events_wp; [done..|apply grantable_tolerated|apply grantable_tolerated]. }
  cbn. intros es s' (_ & Hes%told_events & l' & Hl' & Ha & _). exists l'. split; [done|].
  pose proof (abs_fifo ops (lock_abs l)) as Hf. rewrite <- Ha, <- Hes in Hf.
  by rewrite !omap_map in Hf.
Qed.

(** Creation by name never faults, keeps the
    invariant and does one of three things: a name in the table keeps its slot
    and gains a creator; a new name gets the least free slot; a full table
    leaves every slot as it was and gives -1. *)
Theorem createLockNamed_spec name s : Inv s →
  ∃ i s', createLockNamed name s = Done (i, s') ∧ Inv s' ∧ created s name i s' ∧
    (i ≠ -1 → lock_named s' name i ∧ ∀ j, lock_named s' name j → j = i).
Proof.
  intros Hi. destruct (createLockNamed_at name s Hi) as (i & s' & He & Hi' & Hc & _).
  exists i, s'. split_and!; [done..|]. intros Hne.
  assert (lock_named s' name i) as (l' & Hl' & Hn').
  { destruct Hc as [i l s' _ Hn He'|s' _ _ _|i s' _ _ _ _ He']; [|done|];
      apply entry_upd_here in He'; (eexists; split; [exact He'|done]). }
  split; [by exists l'|]. intros j (l2 & Hl2 & Hn2).
  refine (sw_names _ _ _ (table_Inv (T := ServerLock) _ Hi') _ _ _ _ Hl2 Hl' _).
  unfold name_of, ServerLock_named. congruence.
Qed.

(** A lock goes when the last of its creators has
    destroyed it and it is free; until then only its count changes. Neither
    mail is sent nor a pending request touched. *)
Theorem destroy_lifecycle i l s : Inv s → entry (table s) i l →
  ∃ s', serverDoDestroyLock i s = Done ((), s') ∧ Inv s' ∧ entry_upd s i (uncreated l) s' ∧
    outbox s' = outbox s ∧ pendingRequests s' = pendingRequests s.
Proof.
  intros Hi Hl. destruct (wp_no_fault _ _ _ (destroy_wp no_fault i l s Hi Hl)) as ([] & s' & He & ?).
  by exists s'.
Qed.

(** On a server other than machine 0 a create request
    that finds the table full is answered with status 1 (success) and the
    identifier of the last slot of the machine before, where the code of the
    condition and monitor variables answers 0 and -1. *)
Theorem createLock_full_reply name pkt mail s : Inv s → 0 < netAddr →
  (∀ j, ¬ lock_named s name j) →
  (∀ j, 0 <= j < lockTableSize → ∃ l : ServerLock, entry (table s) j l) →
  sendable no_fault (stale ("1 " +:+ print_int (netAddr * lockTableSize - 1))) mail →
  ∃ s', serverDoCreateLock name pkt mail s = Done ((), s') ∧
    slot_vec (serverLocks s') = slot_vec (serverLocks s) ∧
    outbox s' = outbox s ++
      [mkMail pkt mail threadID (stale ("1 " +:+ print_int (netAddr * lockTableSize - 1))) (up (sends s) pkt)].
Proof.
  intros Hi Hnet Hno Hfull Hs.
  destruct (createLockNamed_at name s Hi) as (i & s1 & He & _ & Hc & t & ->).
  assert (i = -1 ∧ slot_vec t = slot_vec (serverLocks s)) as [-> Hv].
  { inversion Hc as [i' l ? Hl Hn|? _ _ Hv|i' ? _ Hr Hfree]; subst; [by destruct (Hno i); exists l|done|].
    destruct (Hfull i Hr) as [l Hl]. by destruct (Hfree l). }
  unfold serverDoCreateLock. rewrite (bind_Done _ _ _ _ _ He). cbn zeta.
  replace (netAddr * lockTableSize + -1) with (netAddr * lockTableSize - 1) by lia.
  assert (create_reply (netAddr * lockTableSize - 1) =
          "1 " +:+ print_int (netAddr * lockTableSize - 1)) as ->.
  { unfold create_reply, lockTableSize. by rewrite (proj2 (Z.eqb_neq _ (-1))) by lia. }
  destruct (wp_no_fault _ _ _ (sendMail_spec no_fault _ pkt mail (with_locks t s)
    (λ _ s', s' = with_mail (mkMail pkt mail threadID
       (stale ("1 " +:+ print_int (netAddr * lockTableSize - 1))) (up (sends s) pkt)) (with_locks t s))
    Hs eq_refl)) as ([] & s' & Hs' & ->).
  by eexists.
Qed.

End lock_server.

(** ** Examples *)

(** A server with one lock, in slot 0. *)
Definition lock_example : outcome Server :=
  after (createLockNamed (E := lone_env) "l") (initial_server (λ _, 0)).

Lemma lock_example_Inv : Inv (state_or_empty lock_example).
Proof.
  apply state_or_empty_Inv, after_Inv; [apply safe_createLockNamed|apply initial_Inv|by vm_compute; eexists].
Qed.

Lemma lock_example_entry :
  entry (table (state_or_empty lock_example)) 0 (new_ServerLock (E := lone_env) "l").
Proof. by split; [|vm_compute]. Qed.

Definition example_ops : list lock_op := [Acq (5, 1); Acq (6, 2); Acq (5, 1); Rel (5, 1); Rel (6, 2)].

Lemma lock_refines_witness : ∃ es s',
  lock_events (E := lone_env) 0 example_ops (state_or_empty lock_example) = Done (es, s') ∧ Inv s' ∧
  slot_is s' 0 (slot_final example_ops (Some (false, mkAbsLock None []))) ∧
  Forall2 (answered (E := lone_env)) es (slot_events example_ops (Some (false, mkAbsLock None []))).
Proof.
  assert (slot_is (state_or_empty lock_example) 0 (Some (false, mkAbsLock None []))) as Hx.
  { exists (new_ServerLock (E := lone_env) "l"). split; [exact lock_example_entry|done]. }
  apply (lock_refines (E := lone_env) 0 example_ops _ _ lock_example_Inv Hx).
  cbn. repeat (apply Forall_cons; split; [intros []; by apply fits_mail_sendable|]). by apply Forall_nil.
Defined.

Lemma lock_mutual_exclusion_witness :
  wp tolerated (lock_events (E := lone_env) 0 example_ops)
    (λ es _, ∀ m n e1 e2 c1 c2, (m < n)%nat →
       es !! m = Some e1 → told e1 = Some c1 → es !! n = Some e2 → told e2 = Some c2 → c1 ≠ c2 →
       ∃ k e, (m < k <= n)%nat ∧ es !! k = Some e ∧ e.1 = Rel c1) (state_or_empty lock_example).
Proof.
  exact (lock_mutual_exclusion (E := lone_env) 0 example_ops _ _ lock_example_Inv lock_example_entry eq_refl).
Defined.

Lemma lock_fifo_witness :
  wp tolerated (lock_events (E := lone_env) 0 example_ops)
    (λ es s', ∃ l', entry (table s') 0 l' ∧
       omap (λ e, handed (e.1, told e)) es ++ waiting (lock_abs l') =
       omap (λ e, queued (e.1, told e)) es) (state_or_empty lock_example).
Proof.
  exact (lock_fifo (E := lone_env) 0 example_ops _ _ lock_example_Inv lock_example_entry eq_refl).
Defined.

Lemma createLockNamed_spec_witness : ∃ i s',
  createLockNamed (E := lone_env) "m" (state_or_empty lock_example) = Done (i, s') ∧ Inv s' ∧
  created (E := lone_env) (state_or_empty lock_example) "m" i s' ∧
  (i ≠ -1 → lock_named s' "m" i ∧ ∀ j, lock_named s' "m" j → j = i).
Proof. exact (createLockNamed_spec (E := lone_env) "m" _ lock_example_Inv). Defined.

Lemma destroy_lifecycle_witness : ∃ s',
  serverDoDestroyLock 0 (state_or_empty lock_example) = Done ((), s') ∧ Inv s' ∧
  entry_upd (state_or_empty lock_example) 0 (None : option ServerLock) s' ∧
  outbox s' = outbox (state_or_empty lock_example) ∧
  pendingRequests s' = pendingRequests (state_or_empty lock_example).
Proof. exact (destroy_lifecycle 0 _ _ lock_example_Inv lock_example_entry). Defined.

(** A server on machine 1 with a hundred locks. *)
Definition full_env : ServerEnv := {|
  netAddr := 1; threadID := 0; up := λ _ m, 4 <? m; garbage := 0; stale := λ x, x
|}.

Fixpoint fill_locks (n : nat) : outcome Server :=
  match n with
  | O => initial_server (λ _, 0)
  | S n' => after (createLockNamed (E := full_env) (print_int (Z.of_nat n'))) (fill_locks n')
  end.

Lemma fill_locks_Inv n : (∃ s, fill_locks n = Done s) → ∃ s, fill_locks n = Done s ∧ Inv s.
Proof.
  induction n as [|n IH]; [intros _; apply initial_Inv|]. intros Hs. cbn [fill_locks] in *.
  apply after_Inv; [apply safe_createLockNamed| |done]. apply IH.
  unfold after in Hs. destruct (fill_locks n) as [s|f]; [by exists s|by destruct Hs].
Qed.

Definition full_locks : Server := Eval vm_compute in state_or_empty (fill_locks 100).

Lemma full_locks_Inv : Inv full_locks.
Proof.
  replace full_locks with (state_or_empty (fill_locks 100)) by (vm_compute; reflexivity).
  apply state_or_empty_Inv, fill_locks_Inv. exists full_locks. vm_compute. reflexivity.
Qed.

Lemma createLock_full_reply_witness : ∃ s',
  serverDoCreateLock (E := full_env) "new" 7 1 full_locks = Done ((), s') ∧
  slot_vec (serverLocks s') = slot_vec (serverLocks full_locks) ∧
  outbox s' = [mkMail 7 1 0 "1 99" true].
Proof.
  apply (createLock_full_reply (E := full_env) "new" 7 1 full_locks full_locks_Inv eq_refl).
  - intros j (l & Hl & Hn).
    assert (find_named (table (T := ServerLock) full_locks) "new" = -1) as Hf by (vm_compute; reflexivity).
    by apply (proj1 (find_named_None _ _) Hf j l Hl).
  - intros j Hj. apply id_exists_spec.
    assert (forallb (λ k, id_exists (serverLocks full_locks) (Z.of_nat k)) (seq 0 100) = true) as Ha
      by (vm_compute; reflexivity).
    rewrite forallb_forall in Ha. unfold lockTableSize in Hj.
    specialize (Ha (Z.to_nat j)). rewrite Z2Nat.id in Ha by lia. apply Ha, in_seq. lia.
  - by apply fits_mail_sendable.
Defined.

#[export] Hint Resolve safe_ret safe_sendMail safe_serverDoCreateLock safe_serverCreateLock
  safe_serverDoAcquireLock safe_serverAcquireLock safe_serverDoReleaseLock safe_serverReleaseLock
  safe_serverDoDestroyLock safe_serverDestroyLock : safe.
