(* ===== verification/CVServer.v ===== *)
(** * CVServer: the condition-variable handlers of network/nettest.cc *)
From S2P Require Import Prelude.
From S2P Require Import BitMap.
From S2P Require Import Slots.
From S2P Require Import Wire.
From S2P Require Import ServerState.
From S2P Require Import Tables.
From S2P Require Import LockServer.
From stdpp Require Import base list strings.
From Stdlib Require Import ZArith Lia ZifyBool.

Local Open Scope Z_scope.

Section cv_server.
Context {E : ServerEnv}.

Definition new_ServerCV (name : string) : ServerCV := mkServerCV name [] (-1) 1.

Definition checkIfCVIsMineAndGetMyIndex (cv : Z) : Z :=
  let index := Z.rem cv CVTableSize in
  let machineID := Z.quot (cv - index) CVTableSize in
  if machineID =? netAddr then index else -1.

Definition checkIfCVIDExists (cv : Z) : M Server bool := table_exists (T := ServerCV) cv.
Definition findCVNamed (name : string) : M Server Z := table_find (T := ServerCV) name.
(** [serverCVs[cv]], dereferenced. *)
Definition get_CV (cv : Z) : M Server ServerCV := table_get cv.
(** Assignments to fields of [*serverCVs[cv]]. *)
Definition set_CV (cv : Z) (c : ServerCV) : M Server unit := table_set cv c.

Definition with_cq (q : list ServerReplyMsg) (c : ServerCV) : ServerCV :=
  mkServerCV (cname c) q (waitingLock c) (createCVCount c).
Definition with_waitingLock (l : Z) (c : ServerCV) : ServerCV :=
  mkServerCV (cname c) (cq c) l (createCVCount c).
Definition with_cv_count (n : Z) (c : ServerCV) : ServerCV :=
  mkServerCV (cname c) (cq c) (waitingLock c) n.

Definition createCVNamed (name : string) : M Server Z :=
  let! cv := findCVNamed name in
  if cv =? -1 then
    table_new (new_ServerCV name)
  else
    let! c := get_CV cv in
    set_CV cv (with_cv_count (createCVCount c + 1) c) ;;;
    ret cv.

Definition serverDoCreateCV (name : string) (pkt mail : Z) : M Server unit :=
  let! i := createCVNamed name in
  let status := negb (i =? -1) in
  let cv := if i =? -1 then i else netAddr * CVTableSize + i in
  sendMail (print_bool status +:+ " " +:+ print_int cv) pkt mail.

Definition serverCreateCV (name : string) (pkt mail : Z) : M Server unit :=
  let! i := findCVNamed name in
  if negb (i =? -1) then serverDoCreateCV name pkt mail
  else
    ask_others
      (λ a n, mkPendingRequest a pkt mail SC_CreateCondition name (-1) (-1) (-1) (-1) 0 (-1) 0 n)
      (serverDoCreateCV name pkt mail).

Definition checkCVAndDestroy (cv : Z) : M Server bool :=
  let! ok := checkIfCVIDExists cv in
  if negb ok then ret false
  else
    let! c := get_CV cv in
    if bool_decide (cq c = []) && (createCVCount c =? 0) then
      table_delete (T := ServerCV) cv ;;; ret true
    else ret false.

Definition serverDoDestroyCV (cv : Z) : M Server unit :=
  let! ok := checkIfCVIDExists cv in
  if negb ok then ret ()
  else
    let! c := get_CV cv in
    set_CV cv (with_cv_count (createCVCount c - 1) c) ;;;
    let! d := checkCVAndDestroy cv in ret ().

Definition serverDestroyCV (cv pkt mail : Z) : M Server unit :=
  let myIndex := checkIfCVIsMineAndGetMyIndex cv in
  if myIndex =? -1 then
    ask_others
      (λ a n, mkPendingRequest a pkt mail SC_DestroyCondition "" (-1) cv (-1) (-1) 0 (-1) 0 n)
      (serverDoDestroyCV myIndex)
  else serverDoDestroyCV myIndex.

Definition serverDoWait (cv lock pkt mail : Z) : M Server unit :=
  let! ok := checkIfCVIDExists cv in
  if negb ok then sendMail (print_bool false) pkt mail
  else
    let! c := get_CV cv in
    (if waitingLock c =? -1 then set_CV cv (with_waitingLock lock c) else ret ()) ;;;
    let! c := get_CV cv in
    if negb (waitingLock c =? lock) then sendMail (print_bool false) pkt mail
    else
      set_CV cv (with_cq (cq c ++ [mkReply pkt mail (print_bool true)]) c) ;;;
      serverReleaseLock lock pkt mail.

Definition serverWait (cv lock pkt mail : Z) : M Server unit :=
  let myIndex := checkIfCVIsMineAndGetMyIndex cv in
  if myIndex =? -1 then
    ask_others
      (λ a n, mkPendingRequest a pkt mail SC_Wait "" lock cv (-1) (-1) 0 (-1) 0 n)
      (serverDoWait myIndex lock pkt mail)
  else serverDoWait myIndex lock pkt mail.

(** [c->q->Remove()] and the reset of [waitingLock] when the queue empties:
    the message removed, NULL when there is none. *)
Definition wakeup_one (cv : Z) : M Server (option ServerReplyMsg) :=
  let! c := get_CV cv in
  let q := tail (cq c) in
  set_CV cv (with_waitingLock (if bool_decide (q = []) then -1 else waitingLock c) (with_cq q c)) ;;;
  ret (head (cq c)).

Definition deref_reply (r : option ServerReplyMsg) : M Server ServerReplyMsg :=
  match r with Some r => ret r | None => fail NullDeref end.

Definition serverDoSignal (cv lock pkt mail : Z) : M Server unit :=
  let! ok := checkIfCVIDExists cv in
  if negb ok then sendMail (print_bool false) pkt mail
  else
    let! c := get_CV cv in
    if waitingLock c =? -1 then sendMail (print_bool true) pkt mail
    else if negb (waitingLock c =? lock) then sendMail (print_bool false) pkt mail
    else
      let! r := wakeup_one cv in
      let! r := deref_reply r in
      serverAcquireLock lock (r_pktHdr r) (r_mailHdr r) ;;;
      sendMail (print_bool true) pkt mail.

Definition serverSignal (cv lock pkt mail : Z) : M Server unit :=
  let myIndex := checkIfCVIsMineAndGetMyIndex cv in
  if myIndex =? -1 then
    ask_others
      (λ a n, mkPendingRequest a pkt mail SC_Signal "" lock cv (-1) (-1) 0 (-1) 0 n)
      (serverDoSignal myIndex lock pkt mail)
  else serverDoSignal myIndex lock pkt mail.

(** [while( !c->q->IsEmpty() )]; each turn shortens the queue. *)
Fixpoint broadcast_loop (fuel : nat) (cv lock : Z) : M Server unit :=
  match fuel with
  | O => fail OutOfFuel
  | S fuel' =>
      let! c := get_CV cv in
      if bool_decide (cq c = []) then ret ()
      else
        let! r := wakeup_one cv in
        let! r := deref_reply r in
        serverAcquireLock lock (r_pktHdr r) (r_mailHdr r) ;;;
        broadcast_loop fuel' cv lock
  end.

Definition serverDoBroadcast (cv lock pkt mail : Z) : M Server unit :=
  let! ok := checkIfCVIDExists cv in
  if negb ok then sendMail (print_bool false) pkt mail
  else
    let! c := get_CV cv in
    broadcast_loop (S (length (cq c))) cv lock ;;;
    sendMail (print_bool true) pkt mail.

Definition serverBroadcast (cv lock pkt mail : Z) : M Server unit :=
  let myIndex := checkIfCVIsMineAndGetMyIndex cv in
  if myIndex =? -1 then
    ask_others
      (λ a n, mkPendingRequest a pkt mail SC_Broadcast "" lock cv (-1) (-1) 0 (-1) 0 n)
      (serverDoBroadcast myIndex lock pkt mail)
  else serverDoBroadcast myIndex lock pkt mail.

(** ** Safety of the handlers *)

Lemma cv_entry_ok s i (c : ServerCV) : Inv s → entry (table s) i c → cv_ok c.
Proof. intros Hi. exact (sw_ok _ _ _ (table_Inv (T := ServerCV) _ Hi) i c). Qed.

Lemma safe_createCVNamed name : safe (createCVNamed name).
Proof.
  apply safe_find_or.
  - intros s Hi Hno. apply safe_at_new; [done..|by intros []].
  - intros s i c Hi Hc _. eapply safe_at_set; [done..|exact (cv_entry_ok _ _ _ Hi Hc)|].
    intros s' Hi' _. by apply safe_at_ret.
Qed.

(** The slot returned has the name; there is none when the table is full. *)
Lemma createCVNamed_at name s : Inv s →
  ∃ i t, createCVNamed name s = Done (i, with_CVs t s) ∧ Inv (with_CVs t s) ∧
    ((0 <= i < CVTableSize ∧ ∃ c, entry (table (with_CVs t s)) i c ∧ cname c = name) ∨
     (i = -1 ∧ slot_vec t = slot_vec (serverCVs s) ∧ (∀ j c, entry (table s) j c → cname c ≠ name) ∧
      ∀ j, 0 <= j < CVTableSize → ∃ c : ServerCV, entry (table s) j c)).
Proof.
  intros Hi. unfold createCVNamed, findCVNamed, table_find.
  destruct (find_named_cases (table (T := ServerCV) s) name) as [[Hf Hno]|(i & c & Hf & Hc & Hn)].
  - rewrite (bind_Done _ _ s (-1) s) by (unfold bind, get, ret; by rewrite Hf). rewrite Z.eqb_refl.
    destruct (table_new_at s (new_ServerCV name) Hi Hno ltac:(by intros [])) as (k & t & -> & Hi' & Hk).
    exists k, t. split; [done|]. split; [exact Hi'|].
    destruct Hk as [(-> & Hv & Hfull)|(Hr & _ & _ & He)]; [by right|left].
    split; [exact Hr|]. eexists. split; [by eapply entry_upd_here|done].
  - rewrite (bind_Done _ _ s i s) by (unfold bind, get, ret; by rewrite Hf).
    pose proof (entry_range _ _ _ Hc). rewrite (proj2 (Z.eqb_neq i (-1))) by lia.
    rewrite (bind_Done _ _ _ _ _ (table_get_at _ _ _ Hc)).
    destruct (table_set_at s i c (with_cv_count (createCVCount c + 1) c) Hi Hc eq_refl) as (t & Ht & Hi' & He);
      [exact (cv_entry_ok _ _ _ Hi Hc)|].
    unfold set_CV. rewrite (bind_Done _ _ _ _ _ Ht). exists i, t. split; [done|]. split; [exact Hi'|]. left.
    pose proof (sw_len _ _ _ (inv_CVs _ Hi)). change (length (slot_vec (table s))) with (length (slot_vec (serverCVs s))) in *.
    split; [lia|]. eexists. split; [by eapply entry_upd_here|done].
Qed.

Lemma safe_serverDoCreateCV name pkt mail : safe (serverDoCreateCV name pkt mail).
Proof. apply safe_bind; [apply safe_createCVNamed|]. intros i. apply safe_sendMail. Qed.

Lemma safe_serverCreateCV name pkt mail : safe (serverCreateCV name pkt mail).
Proof.
  apply safe_bind; [apply safe_bind; [apply safe_get|intros; apply safe_ret]|]. intros i.
  apply safe_if; [apply safe_serverDoCreateCV|].
  apply safe_ask_others; [by intros|apply safe_serverDoCreateCV].
Qed.

Lemma safe_serverDoDestroyCV cv : safe (serverDoDestroyCV cv).
Proof.
  apply (safe_if_exists _ (λ _, ret ())); [apply safe_ret|]. intros s c Hi Hc.
  eapply safe_at_set; [done..|exact (cv_entry_ok _ _ _ Hi Hc)|].
  intros s' Hi' _. revert s' Hi'. apply safe_bind; [|intros _; apply safe_ret].
  apply (safe_if_exists _ (λ _, ret false)); [apply safe_ret|]. intros s' c' Hi' Hc'.
  apply wp_if; intros _; [|by apply safe_at_ret].
  apply safe_at_bind; [by eapply safe_at_delete|]. intros _. apply safe_ret.
Qed.

Lemma safe_serverDestroyCV cv pkt mail : safe (serverDestroyCV cv pkt mail).
Proof.
  apply safe_if; [apply safe_ask_others; [by intros|]|]; apply safe_serverDoDestroyCV.
Qed.

(** *** Wait *)

(** The condition variable [c] once [pkt:mail] waits on it with [lock]. *)
Definition cv_enqueue (lock pkt mail : Z) (c : ServerCV) : ServerCV :=
  mkServerCV (cname c) (cq c ++ [mkReply pkt mail (print_bool true)]) lock (createCVCount c).

(** The waiter is queued when the variable is free of a lock or tied to this
    one; then the lock is released for it. *)
Lemma serverDoWait_at cv lock pkt mail c s : entry (table s) cv c →
  serverDoWait cv lock pkt mail s =
  (if (waitingLock c =? -1) || (waitingLock c =? lock) then
     set_CV cv (cv_enqueue lock pkt mail c) ;;; serverReleaseLock lock pkt mail
   else sendMail (print_bool false) pkt mail) s.
Proof.
  intros Hc. unfold serverDoWait.
  rewrite (bind_Done (checkIfCVIDExists cv) _ s true s)
    by (unfold checkIfCVIDExists, table_exists, bind, get; by rewrite (id_exists_entry _ _ _ Hc)).
  cbn [negb]. rewrite (bind_Done _ _ _ _ _ (table_get_at _ _ _ Hc)).
  destruct (Z.eqb_spec (waitingLock c) (-1)) as [Hw|Hw]; cbn [orb].
  - destruct (table_set_sees cv (with_waitingLock lock c) s c Hc) as (s1 & Hs1 & Hc1 & _).
    rewrite (bind_Done _ _ _ _ _ Hs1), (bind_Done _ _ _ _ _ (table_get_at _ _ _ Hc1)). cbn.
    rewrite Z.eqb_refl. cbn.
    pose proof (table_set_twice cv (with_waitingLock lock c) (cv_enqueue lock pkt mail c) s c Hc) as Ht.
    rewrite (bind_Done _ _ _ _ _ Hs1) in Ht. unfold bind at 1. unfold set_CV at 1.
    change (with_cq _ _) with (cv_enqueue lock pkt mail c). rewrite Ht. done.
  - rewrite (bind_Done (ret ()) _ s () s eq_refl), (bind_Done _ _ _ _ _ (table_get_at _ _ _ Hc)).
    destruct (Z.eqb_spec (waitingLock c) lock) as [<-|]; done.
Qed.

Lemma cv_enqueue_ok lock pkt mail c : cv_ok (cv_enqueue lock pkt mail c).
Proof. intros _. cbn. by destruct (cq c). Qed.

Lemma cv_dec s i : (∃ c : ServerCV, entry (table s) i c) ∨ (∀ c : ServerCV, ¬ entry (table s) i c).
Proof.
  destruct (id_exists (table (T := ServerCV) s) i) eqn:He; [left; exact (proj1 (id_exists_spec _ _) He)|right].
  intros c Hc. by rewrite (id_exists_entry _ _ _ Hc) in He.
Qed.

Lemma safe_serverDoWait cv lock pkt mail : safe (serverDoWait cv lock pkt mail).
Proof.
  intros s Hi. destruct (cv_dec s cv) as [[c Hc]|Hno].
  - unfold safe_at, wp. rewrite (serverDoWait_at _ _ _ _ _ _ Hc).
    match goal with |- match ?m s with _ => _ end => change (safe_at s m) end.
    apply wp_if; intros _; [|by apply safe_sendMail].
    eapply safe_at_set; [done..|apply cv_enqueue_ok|]. intros s' Hi' _. by apply safe_serverReleaseLock.
  - apply wp_bind, wp_table_exists. rewrite id_exists_no by done. by apply safe_sendMail.
Qed.

Lemma safe_serverWait cv lock pkt mail : safe (serverWait cv lock pkt mail).
Proof. apply safe_if; [apply safe_ask_others; [by intros|]|]; apply safe_serverDoWait. Qed.

(** *** Signal and Broadcast *)

(** The condition variable [c] without its first waiter. *)
Definition cv_dequeue (c : ServerCV) : ServerCV :=
  mkServerCV (cname c) (tail (cq c)) (if bool_decide (tail (cq c) = []) then -1 else waitingLock c)
    (createCVCount c).

Lemma cv_dequeue_ok c : cv_ok (cv_dequeue c).
Proof. unfold cv_ok, cv_dequeue. cbn. by case_bool_decide. Qed.

(** Waking the first waiter [r] of [c]. *)
Lemma wakeup_one_wp {A} Er cv c r q s (k : ServerReplyMsg → M Server A) Q :
  Inv s → entry (table s) cv c → cq c = r :: q →
  (∀ t, Inv (with_CVs t s) → entry_upd s cv (Some (cv_dequeue c)) (with_CVs t s) →
     wp Er (k r) Q (with_CVs t s)) →
  wp Er (let! r := wakeup_one cv in let! r := deref_reply r in k r) Q s.
Proof.
  intros Hi Hc Hq Hk. unfold wakeup_one.
  apply wp_bind, wp_bind, (wp_table_get _ _ _ _ _ Hc), wp_bind.
  eapply wp_table_set; [done..|exact (cv_dequeue_ok c)|]. intros t Hit Het.
  apply wp_ret. rewrite Hq. apply wp_bind, wp_ret. by apply Hk.
Qed.

Lemma keeps_CVs_acquire lock pkt mail : keeps serverCVs (serverAcquireLock lock pkt mail).
Proof. by apply keeps_serverAcquireLock. Qed.

(** The loop, for a property [P] of the waiters left and the state. *)
Lemma broadcast_loop_wp Er (P : list ServerReplyMsg → Server → Prop) cv lock fuel :
  (∀ q t s, P q s → P q (with_CVs t s)) →
  (∀ r q s, Inv s → P (r :: q) s →
     wp Er (serverAcquireLock lock (r_pktHdr r) (r_mailHdr r)) (λ _ s', Inv s' ∧ P q s') s) →
  ∀ c s, Inv s → entry (table s) cv c → (length (cq c) < fuel)%nat → P (cq c) s →
  wp Er (broadcast_loop fuel cv lock)
    (λ _ s', Inv s' ∧ P [] s' ∧
       entry (table s') cv (mkServerCV (cname c) []
         (if bool_decide (cq c = []) then waitingLock c else -1) (createCVCount c))) s.
Proof.
  intros Hset Hacq. induction fuel as [|fuel IH]; intros c s Hi Hc Hf HP; [lia|]. cbn [broadcast_loop].
  apply wp_bind, (wp_table_get _ _ _ _ _ Hc). destruct (cq c) as [|r q] eqn:Hq.
  - apply wp_ret. split_and!; [done..|]. by destruct c; cbn in *; subst.
  - rewrite !bool_decide_false by done. eapply wakeup_one_wp; [done..|]. intros t Hit Het.
    apply wp_bind. pose proof (Hset _ t _ HP) as HP'.
    eapply wp_mono; [eapply wp_keeps; [apply keeps_CVs_acquire|by apply (Hacq r q)]|].
    cbn. intros ? s' [[Hi' HP''] Hcv].
    assert (entry (table s') cv (cv_dequeue c)) as Hc'.
    { cbn. rewrite Hcv. by apply (entry_upd_here _ _ _ _ Het). }
    assert (cq (cv_dequeue c) = q) as Hq' by (unfold cv_dequeue; by rewrite Hq).
    eapply wp_mono; [apply (IH _ _ Hi' Hc')|]; rewrite ?Hq'; [cbn in Hf; lia|done|].
    cbn. intros ? s''. rewrite Hq. cbn. by repeat case_bool_decide.
Qed.

Lemma safe_serverDoSignal cv lock pkt mail : safe (serverDoSignal cv lock pkt mail).
Proof.
  apply (safe_if_exists _ (λ _, sendMail (print_bool false) pkt mail)); [apply safe_sendMail|].
  intros s c Hi Hc. apply wp_if; intros Hw; [by apply safe_sendMail|].
  apply wp_if; intros _; [by apply safe_sendMail|].
  destruct (cq c) as [|r q] eqn:Hq; [by destruct (cv_entry_ok _ _ _ Hi Hc); [lia|]|].
  eapply wakeup_one_wp; [done..|]. intros t Hit _.
  pose proof (safe_bind _ (λ _, sendMail (print_bool true) pkt mail)
    (safe_serverAcquireLock lock (r_pktHdr r) (r_mailHdr r)) (λ _, safe_sendMail _ _ _)) as Hs.
  exact (Hs _ Hit).
Qed.

Lemma safe_serverSignal cv lock pkt mail : safe (serverSignal cv lock pkt mail).
Proof. apply safe_if; [apply safe_ask_others; [by intros|]|]; apply safe_serverDoSignal. Qed.

Lemma safe_serverDoBroadcast cv lock pkt mail : safe (serverDoBroadcast cv lock pkt mail).
Proof.
  apply (safe_if_exists _ (λ _, sendMail (print_bool false) pkt mail)); [apply safe_sendMail|].
  intros s c Hi Hc. apply safe_at_bind; [|intros; apply safe_sendMail].
  eapply wp_mono.
  - apply (broadcast_loop_wp _ (λ _ s', (self <$> pendingRequests s) `prefix_of` (self <$> pendingRequests s'))
             cv lock _) with (c := c); [done| |done..|lia|done].
    intros r q s' Hi' Hpre. eapply wp_mono; [by apply safe_serverAcquireLock|].
    cbn. intros ? s'' [? Hpre']. split; [done|]. by etrans.
  - cbn. by intros ? s' (? & ? & _).
Qed.

Lemma safe_serverBroadcast cv lock pkt mail : safe (serverBroadcast cv lock pkt mail).
Proof. apply safe_if; [apply safe_ask_others; [by intros|]|]; apply safe_serverDoBroadcast. Qed.

(** ** Properties *)

(** Waiting on a condition variable that is free or tied to the
    same lock queues the caller behind the other waiters, ties the variable to
    the lock and then releases the lock on the caller's behalf, no mail in
    between; on a variable tied to another lock it only answers 0. *)
Theorem wait_spec cv lock pkt mail c s : Inv s → entry (table s) cv c →
  if (waitingLock c =? -1) || (waitingLock c =? lock) then
    ∃ s1, serverDoWait cv lock pkt mail s = serverReleaseLock lock pkt mail s1 ∧ Inv s1 ∧
      entry_upd s cv (Some (cv_enqueue lock pkt mail c)) s1 ∧
      serverLocks s1 = serverLocks s ∧ outbox s1 = outbox s ∧ pendingRequests s1 = pendingRequests s
  else serverDoWait cv lock pkt mail s = sendMail (print_bool false) pkt mail s.
Proof.
  intros Hi Hc. rewrite (serverDoWait_at _ _ _ _ _ _ Hc). destruct (_ || _); [|done].
  destruct (table_set_at s cv c (cv_enqueue lock pkt mail c) Hi Hc eq_refl (cv_enqueue_ok _ _ _ _))
    as (t & Ht & Hi' & He).
  exists (with_CVs t s). split_and!; [|exact Hi'|exact He|done..].
  unfold set_CV. by rewrite (bind_Done _ _ _ _ _ Ht).
Qed.

(** A signal without waiters answers 1 and changes nothing,
    with a lock other than the waiters' it answers 0 and changes nothing, and
    otherwise it removes the first waiter, unties the variable if that was the
    last one, asks for the lock for that waiter and answers 1; it never reads
    through the NULL that an empty queue returns. *)
Theorem signal_spec cv lock pkt mail c s : Inv s → entry (table s) cv c →
  if waitingLock c =? -1 then serverDoSignal cv lock pkt mail s = sendMail (print_bool true) pkt mail s
  else if negb (waitingLock c =? lock) then
    serverDoSignal cv lock pkt mail s = sendMail (print_bool false) pkt mail s
  else
    ∃ r q s1, cq c = r :: q ∧
      serverDoSignal cv lock pkt mail s =
        (serverAcquireLock lock (r_pktHdr r) (r_mailHdr r) ;;; sendMail (print_bool true) pkt mail) s1 ∧
      Inv s1 ∧ entry_upd s cv (Some (cv_dequeue c)) s1 ∧
      serverLocks s1 = serverLocks s ∧ outbox s1 = outbox s.
Proof.
  intros Hi Hc.
  assert (checkIfCVIDExists cv s = Done (true, s)) as Hex.
  { unfold checkIfCVIDExists, table_exists, bind, get, ret. by rewrite (id_exists_entry _ _ _ Hc). }
  assert (get_CV cv s = Done (c, s)) as Hget by exact (table_get_at _ _ _ Hc).
  unfold serverDoSignal. rewrite (bind_Done _ _ _ _ _ Hex). cbn [negb]. rewrite (bind_Done _ _ _ _ _ Hget).
  destruct (waitingLock c =? -1) eqn:Hw; [done|]. destruct (negb (waitingLock c =? lock)); [done|].
  destruct (cq c) as [|r q] eqn:Hq; [by destruct (cv_entry_ok _ _ _ Hi Hc); [lia|]|].
  destruct (table_set_at s cv c (cv_dequeue c) Hi Hc eq_refl (cv_dequeue_ok c)) as (t & Ht & Hi' & He).
  exists r, q, (with_CVs t s). split_and!; [done| |exact Hi'|exact He|done..].
  assert (wakeup_one cv s = Done (Some r, with_CVs t s)) as Hwk.
  { unfold wakeup_one. rewrite (bind_Done _ _ _ _ _ Hget). cbn zeta. unfold set_CV.
    change (with_waitingLock _ _) with (cv_dequeue c). by rewrite (bind_Done _ _ _ _ _ Ht), Hq. }
  by rewrite (bind_Done _ _ _ _ _ Hwk), (bind_Done (deref_reply (Some r)) _ _ _ _ eq_refl).
Qed.

(** The lock requests of the waiters. *)
Definition wakeups (q : list ServerReplyMsg) : list lock_op := (λ r, Acq (reply_client r)) <$> q.

(** The whole broadcast, for a property [P] that each request for the lock
    keeps. *)
Lemma broadcast_wp Er (P : list ServerReplyMsg → Server → Prop) cv lock pkt mail c s : Inv s → entry (table s) cv c →
  (∀ q t s1, P q s1 → P q (with_CVs t s1)) →
  (∀ r q s1, Inv s1 → P (r :: q) s1 →
     wp Er (serverAcquireLock lock (r_pktHdr r) (r_mailHdr r)) (λ _ s2, Inv s2 ∧ P q s2) s1) →
  sendable Er (print_bool true) mail → P (cq c) s →
  wp Er (serverDoBroadcast cv lock pkt mail) (λ _ s', ∃ s1, Inv s1 ∧ P [] s1 ∧
    entry (table s1) cv (mkServerCV (cname c) [] (-1) (createCVCount c)) ∧
    s' = with_mail (mkMail pkt mail threadID (print_bool true) (up (sends s1) pkt)) s1) s.
Proof.
  intros Hi Hc HP Hstep Hsend Hp. pose proof (cv_entry_ok _ _ _ Hi Hc) as Hok. unfold serverDoBroadcast.
  apply wp_bind, wp_table_exists. rewrite (id_exists_entry _ _ _ Hc). cbn [negb].
  apply wp_bind, (wp_table_get _ _ _ _ _ Hc), wp_bind. eapply wp_mono.
  - by apply (broadcast_loop_wp Er P) with (c := c); [|done..|lia|].
  - cbn. intros ? s1 (Hi1 & Hp1 & Hc1). apply sendMail_spec; [done|]. exists s1. split_and!; [done..| |done].
    replace (-1) with (if bool_decide (cq c = []) then waitingLock c else -1); [exact Hc1|].
    case_bool_decide as Hnil; [|done]. destruct (decide (waitingLock c = -1)); [done|by destruct Hok].
Qed.

(** Waking the waiters [q] of a lock of this server, from a slot [x]: what the
    slot, the waiters left and the mail are in between. *)
Definition waking (i : Z) (x : AbsSlot) (all : list ServerReplyMsg) (s : Server) (q : list ServerReplyMsg) (s1 : Server) : Prop :=
  ∃ x1 ms as1, slot_is s1 i x1 ∧ Forall (answerable no_fault) (reply_client <$> q) ∧
    slot_final (wakeups q) x1 = slot_final (wakeups all) x ∧
    (slot_events (wakeups all) x).*2 = as1 ++ (slot_events (wakeups q) x1).*2 ∧
    outbox s1 = outbox s ++ concat ms ∧ Forall2 answer_mail ms as1.

Lemma waking_start i x q s : slot_is s i x → Forall (answerable no_fault) (reply_client <$> q) → waking i x q s q s.
Proof. intros Hx Hq. exists x, [], []. split_and!; [done..|by rewrite app_nil_r|constructor]. Qed.

Lemma waking_one i x all s r q s1 : Inv s1 → waking i x all s (r :: q) s1 →
  wp no_fault (exec_op i (Acq (reply_client r))) (λ _ s2, Inv s2 ∧ waking i x all s q s2) s1.
Proof.
  intros Hi (x1 & ms & as1 & Hx & [Hr Hq]%Forall_cons & Hfin & Hev & Ho & Hms).
  eapply wp_mono; [apply (slot_acquire_wp no_fault i (reply_client r) x1 s1 Hi Hx Hr)|].
  cbn. intros _ s2 (Hi2 & Hx2 & m & Hm & Ha). split; [done|].
  exists (slot_step (Acq (reply_client r)) x1).1, (ms ++ [m]), (as1 ++ [(slot_step (Acq (reply_client r)) x1).2]).
  split_and!; [done..|exact Hfin| | |].
  - rewrite Hev, <- (assoc_L app). done.
  - rewrite Hm, Ho, concat_app. cbn. by rewrite app_nil_r, (assoc_L app).
  - apply Forall2_app; [done|]. by constructor.
Qed.

(** C13: a broadcast on a condition variable that exists terminates,
    whatever the lock, and leaves it without waiters and tied to no lock, with
    success as the last mail; it stops only with one of the faults that messages
    can cause, [tolerated].  With a lock of this server, there or gone meanwhile,
    and clients that can be reached, it does not stop, and the lock and the mail
    are as if each waiter, in the order they waited, had asked for the lock. *)
Theorem broadcast_wakes_all cv lock pkt mail c s : Inv s → entry (table s) cv c →
  let woken := mkServerCV (cname c) [] (-1) (createCVCount c) in
  let success := λ ok, mkMail pkt mail threadID (print_bool true) ok in
  wp tolerated (serverDoBroadcast cv lock pkt mail) (λ _ s', Inv s' ∧ entry (table s') cv woken ∧
    ∃ ms ok, outbox s' = ms ++ [success ok]) s ∧
  ∀ i x, checkIfLockIsMineAndGetMyIndex lock = i → i ≠ -1 → slot_is s i x →
    Forall (answerable no_fault) (reply_client <$> cq c) → fits_mail (print_bool true) mail = true →
    ∃ s' ms ok, serverDoBroadcast cv lock pkt mail s = Done ((), s') ∧ Inv s' ∧ entry (table s') cv woken ∧
      slot_is s' i (slot_final (wakeups (cq c)) x) ∧
      outbox s' = outbox s ++ concat ms ++ [success ok] ∧
      Forall2 answer_mail ms (slot_events (wakeups (cq c)) x).*2.
Proof.
  intros Hi Hc woken success. split.
  - eapply wp_mono; [apply (broadcast_wp tolerated (λ _ _, True) cv lock pkt mail c s Hi Hc); [done| |apply sendable_tolerated|done]|].
    + intros r q s1 Hi1 _. eapply wp_mono; [by apply safe_serverAcquireLock|]. by intros _ s2 [? _].
    + intros [] s' (s1 & Hi1 & _ & Hc1 & ->). split_and!; [by apply with_mail_Inv|done|by eexists _, _].
  - intros i x Hmine Hne Hx Hq Hf.
    destruct (wp_no_fault _ _ _ (broadcast_wp no_fault (waking i x (cq c) s) cv lock pkt mail c s Hi Hc ltac:(done)
      ltac:(intros r q s1 Hi1 Hw; unfold serverAcquireLock; rewrite Hmine, (proj2 (Z.eqb_neq i (-1))) by done;
            exact (waking_one i x (cq c) s r q s1 Hi1 Hw))
      (fits_mail_sendable _ _ _ Hf) (waking_start i x (cq c) s Hx Hq)))
      as ([] & s' & He & s1 & Hi1 & (x1 & ms & as1 & Hx1 & _ & Hfin & Hev & Ho & Hms) & Hc1 & ->).
    exists (with_mail (success (up (sends s1) pkt)) s1), ms, (up (sends s1) pkt). cbn in Hfin, Hev. rewrite app_nil_r in Hev.
    split_and!; [exact He|by apply with_mail_Inv|exact Hc1|by rewrite <- Hfin| |by rewrite Hev].
    cbn. by rewrite Ho, (assoc_L app).
Qed.

End cv_server.

(** ** Examples *)

(** A server with a lock and a condition variable two clients wait on. *)
Definition cv_example : outcome Server :=
  after (serverDoWait (E := lone_env) 0 0 6 2)
    (after (serverDoWait (E := lone_env) 0 0 5 1)
      (after (createCVNamed "c") lock_example)).

Definition cv_example_cv : ServerCV := mkServerCV "c" [mkReply 5 1 "1"; mkReply 6 2 "1"] 0 1.

Lemma cv_example_Inv : Inv (state_or_empty cv_example).
Proof.
  apply state_or_empty_Inv.
  apply after_Inv; [apply safe_serverDoWait| |by vm_compute; eexists].
  apply after_Inv; [apply safe_serverDoWait| |by vm_compute; eexists].
  apply after_Inv; [apply safe_createCVNamed| |by vm_compute; eexists].
  apply after_Inv; [apply safe_createLockNamed|apply initial_Inv|by vm_compute; eexists].
Qed.

Lemma cv_example_entry : entry (table (state_or_empty cv_example)) 0 cv_example_cv.
Proof. by split; [|vm_compute]. Qed.

Lemma cv_example_lock :
  entry (table (state_or_empty cv_example)) 0 (new_ServerLock (E := lone_env) "l").
Proof. by split; [|vm_compute]. Qed.

Lemma wait_spec_witness : ∃ s1,
  serverDoWait (E := lone_env) 0 0 7 3 (state_or_empty cv_example) =
    serverReleaseLock (E := lone_env) 0 7 3 s1 ∧ Inv s1 ∧
  entry_upd (state_or_empty cv_example) 0 (Some (cv_enqueue 0 7 3 cv_example_cv)) s1 ∧
  serverLocks s1 = serverLocks (state_or_empty cv_example) ∧
  outbox s1 = outbox (state_or_empty cv_example) ∧
  pendingRequests s1 = pendingRequests (state_or_empty cv_example).
Proof. exact (wait_spec (E := lone_env) 0 0 7 3 _ _ cv_example_Inv cv_example_entry). Defined.

Lemma signal_spec_witness : ∃ r q s1, cq cv_example_cv = r :: q ∧
  serverDoSignal (E := lone_env) 0 0 7 3 (state_or_empty cv_example) =
    (serverAcquireLock (E := lone_env) 0 (r_pktHdr r) (r_mailHdr r) ;;;
     sendMail (E := lone_env) (print_bool true) 7 3) s1 ∧
  Inv s1 ∧ entry_upd (state_or_empty cv_example) 0 (Some (cv_dequeue cv_example_cv)) s1 ∧
  serverLocks s1 = serverLocks (state_or_empty cv_example) ∧
  outbox s1 = outbox (state_or_empty cv_example).
Proof. exact (signal_spec (E := lone_env) 0 0 7 3 _ _ cv_example_Inv cv_example_entry). Defined.

Lemma broadcast_wakes_all_witness : ∃ s' ms ok,
  serverDoBroadcast (E := lone_env) 0 0 7 3 (state_or_empty cv_example) = Done ((), s') ∧ Inv s' ∧
  entry (table s') 0 (mkServerCV "c" [] (-1) 1) ∧
  slot_is s' 0 (Some (false, mkAbsLock (Some (5, 1)) [(6, 2)])) ∧
  outbox s' = outbox (state_or_empty cv_example) ++ concat ms ++ [mkMail 7 3 0 (print_bool true) ok] ∧
  Forall2 (answer_mail (E := lone_env)) ms [Some ((5, 1), true); None].
Proof.
  assert (slot_is (state_or_empty cv_example) 0 (Some (false, mkAbsLock None []))) as Hx.
  { exists (new_ServerLock (E := lone_env) "l"). split; [exact cv_example_lock|done]. }
  apply (proj2 (broadcast_wakes_all (E := lone_env) 0 0 7 3 cv_example_cv _ cv_example_Inv cv_example_entry) 0 _
    eq_refl ltac:(done) Hx); [|done].
  cbn. repeat (apply Forall_cons; split; [intros []; by apply fits_mail_sendable|]). by apply Forall_nil.
Defined.

#[export] Hint Resolve safe_serverDoCreateCV safe_serverCreateCV safe_serverDoDestroyCV
  safe_serverDestroyCV safe_serverDoWait safe_serverWait safe_serverDoSignal safe_serverSignal
  safe_serverDoBroadcast safe_serverBroadcast : safe.
