(* ===== verification/MVServer.v ===== *)
(** * MVServer: the monitor-variable handlers of network/nettest.cc *)
From S2P Require Import Prelude.
From S2P Require Import BitMap.
From S2P Require Import Slots.
From S2P Require Import Wire.
From S2P Require Import ServerState.
From S2P Require Import Tables.
From stdpp Require Import base list strings.
From Stdlib Require Import ZArith Lia ZifyBool.

Local Open Scope Z_scope.

Section mv_server.
Context {E : ServerEnv}.

(** [max_size()] of a vector of [int]s where [size_t] has 32 bits. *)
Definition vector_max : Z := 2 ^ 30 - 1.
Definition too_long (size : Z) : bool := (size <? 0) || (vector_max <? size).

(** [ServerMV(name, size)]: [v.resize(size, 0)] throws above [max_size()], and on
    a negative size, which converts to a huge [size_t].  Memory for less is there. *)
Definition new_ServerMV (name : string) (size : Z) : outcome ServerMV :=
  if too_long size then Fault LengthError
  else Done (mkServerMV name size 1 (replicate (Z.to_nat size) 0)).

Definition checkIfMVIsMineAndGetMyIndex (id : Z) : Z :=
  let index := Z.rem id MVTableSize in
  let machineID := Z.quot (id - index) MVTableSize in
  if machineID =? netAddr then index else -1.

Definition checkIfMVIDExists (id : Z) : M Server bool := table_exists (T := ServerMV) id.
Definition findMVNamed (name : string) : M Server Z := table_find (T := ServerMV) name.
(** [serverMVs[id]], dereferenced. *)
Definition get_MV (id : Z) : M Server ServerMV := table_get id.
(** Assignments to fields of [*serverMVs[id]]. *)
Definition set_MV (id : Z) (m : ServerMV) : M Server unit := table_set id m.

Definition with_mv_count (n : Z) (m : ServerMV) : ServerMV :=
  mkServerMV (mname m) (msize m) n (mv m).
Definition with_mv (v : list Z) (m : ServerMV) : ServerMV :=
  mkServerMV (mname m) (msize m) (createMVCount m) v.

(** The slot is taken from the bitmap before the object is built. *)
Definition createMV (name : string) (size : Z) : M Server Z :=
  let! id := findMVNamed name in
  if id =? -1 then
    let! s := get in
    let! r := lift (Find (slot_map (serverMVs s))) in
    modify (with_MVs (mkSlots r.2 (slot_vec (serverMVs s)))) ;;;
    if r.1 =? -1 then ret (-1)
    else
      let! m := lift (new_ServerMV name size) in
      let! s := get in
      let! t := lift (slot_place (serverMVs s) r.1 m) in
      modify (with_MVs t) ;;;
      ret r.1
  else
    let! m := get_MV id in
    if negb (msize m =? size) then ret (-1)
    else
      set_MV id (with_mv_count (createMVCount m + 1) m) ;;;
      ret id.

Definition serverDoCreateMV (name : string) (size pkt mail : Z) : M Server unit :=
  let! i := createMV name size in
  let status := negb (i =? -1) in
  let id := if i =? -1 then i else netAddr * MVTableSize + i in
  sendMail (print_bool status +:+ " " +:+ print_int id) pkt mail.

Definition serverCreateMV (name : string) (size pkt mail : Z) : M Server unit :=
  let! i := findMVNamed name in
  if negb (i =? -1) then serverDoCreateMV name size pkt mail
  else
    ask_others
      (λ a n, mkPendingRequest a pkt mail SC_CreateMV name (-1) (-1) (-1) size 0 (-1) 0 n)
      (serverDoCreateMV name size pkt mail).

Definition serverDoDestroyMV (id : Z) : M Server unit :=
  let! ok := checkIfMVIDExists id in
  if negb ok then ret ()
  else
    let! m := get_MV id in
    set_MV id (with_mv_count (createMVCount m - 1) m) ;;;
    if createMVCount m - 1 =? 0 then table_delete (T := ServerMV) id
    else ret ().

Definition serverDestroyMV (id pkt mail : Z) : M Server unit :=
  let myIndex := checkIfMVIsMineAndGetMyIndex id in
  if myIndex =? -1 then
    ask_others
      (λ a n, mkPendingRequest a pkt mail SC_DestroyMV "" (-1) (-1) id (-1) 0 (-1) 0 n)
      (serverDoDestroyMV myIndex)
  else serverDoDestroyMV myIndex.

Definition in_MV (m : ServerMV) (index : Z) : bool := negb ((index <? 0) || (msize m <=? index)).

Definition serverDoSet (id index value pkt mail : Z) : M Server unit :=
  let! ok := checkIfMVIDExists id in
  let! status :=
    (if negb ok then ret false
     else
       let! m := get_MV id in
       if in_MV m index then
         let! v := lift (vset (mv m) index value) in
         set_MV id (with_mv v m) ;;; ret true
       else ret false) in
  sendMail (print_bool status) pkt mail.

Definition serverSet (id index value pkt mail : Z) : M Server unit :=
  let myIndex := checkIfMVIsMineAndGetMyIndex id in
  if myIndex =? -1 then
    ask_others
      (λ a n, mkPendingRequest a pkt mail SC_Set "" (-1) (-1) id index value (-1) 0 n)
      (serverDoSet myIndex index value pkt mail)
  else serverDoSet myIndex index value pkt mail.

(** The status and the value of the reply. *)
Definition serverDoGet (id index pkt mail : Z) : M Server unit :=
  let! ok := checkIfMVIDExists id in
  let! r :=
    (if negb ok then ret (false, 0)
     else
       let! m := get_MV id in
       if in_MV m index then
         let! value := lift (vget (mv m) index) in ret (true, value)
       else ret (false, 0)) in
  sendMail (print_bool r.1 +:+ " " +:+ print_int r.2) pkt mail.

Definition serverGet (id index pkt mail : Z) : M Server unit :=
  let myIndex := checkIfMVIsMineAndGetMyIndex id in
  if myIndex =? -1 then
    ask_others
      (λ a n, mkPendingRequest a pkt mail SC_Get "" (-1) (-1) id index 0 (-1) 0 n)
      (serverDoGet myIndex index pkt mail)
  else serverDoGet myIndex index pkt mail.

(** ** Safety of the handlers *)

Lemma mv_entry_ok s i (m : ServerMV) : Inv s → entry (table s) i m → mv_ok m.
Proof. intros Hi. exact (sw_ok _ _ _ (table_Inv (T := ServerMV) _ Hi) i m). Qed.

(** The variable a successful [new ServerMV(name, size)] builds. *)
Definition fresh_MV (name : string) (size : Z) : ServerMV :=
  mkServerMV name size 1 (replicate (Z.to_nat size) 0).

Lemma fresh_MV_ok name size : 0 <= size → mv_ok (fresh_MV name size).
Proof. intros Hs. unfold mv_ok. cbn. rewrite length_replicate. lia. Qed.

(** Taking the slot first and building the object second is [table_new], but
    for a size the vector refuses with a slot left. *)
Lemma createMV_new name size s : find_named (table (T := ServerMV) s) name = -1 →
  createMV name size s =
  if too_long size then
    (let! s := get in
     let! r := lift (Find (slot_map (serverMVs s))) in
     if r.1 =? -1 then modify (with_MVs (mkSlots r.2 (slot_vec (serverMVs s)))) ;;; ret (-1)
     else fail LengthError) s
  else table_new (fresh_MV name size) s.
Proof.
  intros Hn. unfold createMV, findMVNamed, table_find, table_new, slot_new, new_ServerMV.
  unfold bind, get, ret, lift, modify, fail, obind. rewrite Hn. cbn.
  destruct (Find (slot_map (serverMVs s))) as [[i b]|f]; cbn; [|by destruct (too_long size)].
  destruct (i =? -1) eqn:Hi; destruct (too_long size); cbn; try done.
  by destruct (slot_place _ i _).
Qed.

(** [createMV] on a name the table has. *)
Lemma createMV_old name size i m s : Inv s → entry (table s) i m → mname m = name →
  createMV name size s =
  (if negb (msize m =? size) then ret (-1)
   else set_MV i (with_mv_count (createMVCount m + 1) m) ;;; ret i) s.
Proof.
  intros Hi Hm Hn. unfold createMV, findMVNamed, table_find.
  rewrite (bind_Done _ _ s i s) by (unfold bind, get, ret;
    by rewrite (find_named_Some _ _ _ _ _ _ (table_Inv (T := ServerMV) _ Hi) Hm Hn)).
  pose proof (entry_range _ _ _ Hm). rewrite (proj2 (Z.eqb_neq i (-1))) by lia.
  by rewrite (bind_Done _ _ _ _ _ (table_get_at _ _ _ Hm)).
Qed.

Lemma safe_createMV name size : safe (createMV name size).
Proof.
  intros s Hi. unfold safe_at, wp.
  destruct (find_named_cases (table (T := ServerMV) s) name) as [[Hn Hno]|(i & m & _ & Hm & Hn)].
  - rewrite (createMV_new _ _ _ Hn). destruct (too_long size) eqn:Hlong.
    + match goal with |- match ?m s with _ => _ end => change (safe_at s m) end.
      apply wp_bind, wp_get, wp_bind.
      destruct (Find_cases (slot_map (serverMVs s))) as [[Hf _]|(k & b & Hf & Hk & _)];
        [apply Hi|..]; eapply wp_lift; [exact Hf| |exact Hf|]; cbn.
      * apply wp_bind, wp_modify, wp_ret. split; [|done]. refine (with_table_Inv (T := ServerMV) _ _ Hi _).
        pose proof (table_Inv (T := ServerMV) s Hi) as Hw. cbn in *. by destruct (serverMVs s).
      * rewrite (proj2 (Z.eqb_neq k (-1))) by lia. apply wp_fail. by right; right.
    + apply (safe_at_new (T := ServerMV)); [done..|]. apply fresh_MV_ok. unfold too_long in Hlong. lia.
  - rewrite (createMV_old _ _ _ _ _ Hi Hm Hn).
    match goal with |- match ?m s with _ => _ end => change (safe_at s m) end.
    apply wp_if; intros _; [by apply safe_at_ret|].
    eapply safe_at_set; [done..|exact (mv_entry_ok _ _ _ Hi Hm)|]. intros s' Hi' _. by apply safe_at_ret.
Qed.

Lemma safe_serverDoCreateMV name size pkt mail : safe (serverDoCreateMV name size pkt mail).
Proof. apply safe_bind; [apply safe_createMV|]. intros i. apply safe_sendMail. Qed.

Lemma safe_serverCreateMV name size pkt mail : safe (serverCreateMV name size pkt mail).
Proof.
  apply safe_bind; [apply safe_bind; [apply safe_get|intros; apply safe_ret]|]. intros i.
  apply safe_if; [apply safe_serverDoCreateMV|].
  apply safe_ask_others; [by intros|apply safe_serverDoCreateMV].
Qed.

Lemma safe_serverDoDestroyMV id : safe (serverDoDestroyMV id).
Proof.
  apply (safe_if_exists _ (λ _, ret ())); [apply safe_ret|]. intros s m Hi Hm.
  eapply safe_at_set; [done..|exact (mv_entry_ok _ _ _ Hi Hm)|].
  intros s' Hi' Hm'. apply wp_if; intros _; [by eapply safe_at_delete|by apply safe_at_ret].
Qed.

Lemma safe_serverDestroyMV id pkt mail : safe (serverDestroyMV id pkt mail).
Proof. apply safe_if; [apply safe_ask_others; [by intros|]|]; apply safe_serverDoDestroyMV. Qed.

(** The bounds check of Set and Get is the one of the vector. *)
Lemma in_MV_spec m index : mv_ok m → in_MV m index = true ↔ 0 <= index < Z.of_nat (length (mv m)).
Proof. unfold mv_ok, in_MV. intros ->. lia. Qed.

Lemma with_mv_ok m i x : mv_ok m → mv_ok (with_mv (<[i := x]> (mv m)) m).
Proof. unfold mv_ok. cbn. by rewrite length_insert. Qed.

Lemma mv_dec s i : (∃ m : ServerMV, entry (table s) i m) ∨ (∀ m : ServerMV, ¬ entry (table s) i m).
Proof.
  destruct (id_exists (table (T := ServerMV) s) i) eqn:He; [left; exact (proj1 (id_exists_spec _ _) He)|right].
  intros m Hm. by rewrite (id_exists_entry _ _ _ Hm) in He.
Qed.

(** Set, on a variable that exists. *)
Lemma serverDoSet_wp Er id index value pkt mail s m (Q : unit → Server → Prop) :
  Inv s → entry (table s) id m →
  sendable Er (print_bool (in_MV m index)) mail →
  (in_MV m index = true → ∀ t,
     let m' := with_mv (<[Z.to_nat index := value]> (mv m)) m in
     Inv (with_MVs t s) → entry_upd s id (Some m') (with_MVs t s) →
     Q () (with_mail (mkMail pkt mail threadID (print_bool true) (up (sends s) pkt)) (with_MVs t s))) →
  (in_MV m index = false →
     Q () (with_mail (mkMail pkt mail threadID (print_bool false) (up (sends s) pkt)) s)) →
  wp Er (serverDoSet id index value pkt mail) Q s.
Proof.
  intros Hi Hm Hs Hin Hout. pose proof (mv_entry_ok _ _ _ Hi Hm) as Hok. unfold serverDoSet.
  apply wp_bind, wp_table_exists. rewrite (id_exists_entry _ _ _ Hm). cbn [negb].
  apply wp_bind, wp_bind, (wp_table_get _ _ _ _ _ Hm). destruct (in_MV m index) eqn:Hidx.
  - pose proof (proj1 (in_MV_spec m index Hok) Hidx) as Hr.
    apply wp_bind. eapply wp_lift; [by apply vset_in|]. apply wp_bind.
    eapply wp_table_set; [done..|by apply with_mv_ok|]. intros t Hit Het.
    apply wp_ret, sendMail_spec; [done|]. by apply Hin.
  - apply wp_ret, sendMail_spec; [done|]. by apply Hout.
Qed.

(** Get, on a variable that exists. *)
Lemma serverDoGet_wp Er id index pkt mail s m (Q : unit → Server → Prop) :
  Inv s → entry (table s) id m →
  let reply := match mv m !! Z.to_nat index with
               | Some v => if in_MV m index then print_bool true +:+ " " +:+ print_int v
                           else print_bool false +:+ " " +:+ print_int 0
               | None => print_bool false +:+ " " +:+ print_int 0
               end in
  sendable Er reply mail →
  Q () (with_mail (mkMail pkt mail threadID reply (up (sends s) pkt)) s) →
  wp Er (serverDoGet id index pkt mail) Q s.
Proof.
  intros Hi Hm reply Hs HQ. pose proof (mv_entry_ok _ _ _ Hi Hm) as Hok. unfold serverDoGet.
  apply wp_bind, wp_table_exists. rewrite (id_exists_entry _ _ _ Hm). cbn [negb].
  apply wp_bind, wp_bind, (wp_table_get _ _ _ _ _ Hm). subst reply.
  destruct (in_MV m index) eqn:Hidx.
  - destruct (vget_in (mv m) index) as (v & Hv & Hl); [by apply in_MV_spec|].
    rewrite Hl in *. apply wp_bind. eapply wp_lift; [exact Hv|]. by apply wp_ret, sendMail_spec.
  - apply wp_ret. destruct (mv m !! _); by apply sendMail_spec.
Qed.

Lemma safe_serverDoSet id index value pkt mail : safe (serverDoSet id index value pkt mail).
Proof.
  intros s Hi. destruct (mv_dec s id) as [[m Hm]|Hno].
  - eapply serverDoSet_wp; [done..|apply sendable_tolerated| |].
    + intros _ t m' Hit _. split; [by apply with_mail_Inv|done].
    + intros _. split; [by apply with_mail_Inv|done].
  - apply wp_bind, wp_table_exists. rewrite id_exists_no by done.
    apply wp_bind, wp_ret. by apply safe_sendMail.
Qed.

Lemma safe_serverSet id index value pkt mail : safe (serverSet id index value pkt mail).
Proof. apply safe_if; [apply safe_ask_others; [by intros|]|]; apply safe_serverDoSet. Qed.

Lemma safe_serverDoGet id index pkt mail : safe (serverDoGet id index pkt mail).
Proof.
  intros s Hi. destruct (mv_dec s id) as [[m Hm]|Hno].
  - eapply serverDoGet_wp; [done..|apply sendable_tolerated|]. split; [by apply with_mail_Inv|done].
  - apply wp_bind, wp_table_exists. rewrite id_exists_no by done.
    apply wp_bind, wp_ret. by apply safe_sendMail.
Qed.

Lemma safe_serverGet id index pkt mail : safe (serverGet id index pkt mail).
Proof. apply safe_if; [apply safe_ask_others; [by intros|]|]; apply safe_serverDoGet. Qed.

(** ** Properties *)

(** A cell of a monitor variable holds what was last stored
    in it: after a Set inside the bounds a Get of the same cell answers 1 and
    the value, and a Get of any other cell answers what it did before. *)
Theorem get_after_set id index value p1 m1 m s : Inv s → entry (table s) id m →
  in_MV m index = true → fits_mail (print_bool true) m1 = true →
  ∃ s1, serverDoSet id index value p1 m1 s = Done ((), s1) ∧ Inv s1 ∧
    outbox s1 = outbox s ++ [mkMail p1 m1 threadID (print_bool true) (up (sends s) p1)] ∧
    ∀ j p2 m2 v, in_MV m j = true → (if j =? index then v = value else mv m !! Z.to_nat j = Some v) →
      fits_mail ("1 " +:+ print_int v) m2 = true →
      ∃ s2, serverDoGet id j p2 m2 s1 = Done ((), s2) ∧
        outbox s2 = outbox s1 ++ [mkMail p2 m2 threadID ("1 " +:+ print_int v) (up (sends s1) p2)].
Proof.
  intros Hi Hm Hin Hf1.
  assert (wp no_fault (serverDoSet id index value p1 m1) (λ _ s1, Inv s1 ∧
    outbox s1 = outbox s ++ [mkMail p1 m1 threadID (print_bool true) (up (sends s) p1)] ∧
    entry (table s1) id (with_mv (<[Z.to_nat index := value]> (mv m)) m)) s) as Hwp.
  { eapply serverDoSet_wp; [done..|rewrite Hin; by apply fits_mail_sendable| |by rewrite Hin].
    intros _ t m' Hit Het. apply entry_upd_here in Het. by split; [apply with_mail_Inv|]. }
  apply wp_no_fault in Hwp as ([] & s1 & He1 & Hi1 & Ho1 & Hm1).
  exists s1. split_and!; [done..|]. intros j p2 m2 v Hj Hv Hf2.
  pose proof (proj1 (in_MV_spec m index (mv_entry_ok _ _ _ Hi Hm)) Hin) as Hr1.
  pose proof (proj1 (in_MV_spec m j (mv_entry_ok _ _ _ Hi Hm)) Hj) as Hr2.
  assert (<[Z.to_nat index := value]> (mv m) !! Z.to_nat j = Some v) as Hlk.
  { destruct (Z.eqb_spec j index) as [->|]; [subst; by apply list_lookup_insert_eq; lia|].
    by rewrite list_lookup_insert_ne by lia. }
  assert (wp no_fault (serverDoGet id j p2 m2) (λ _ s2, outbox s2 = outbox s1 ++
    [mkMail p2 m2 threadID ("1 " +:+ print_int v) (up (sends s1) p2)]) s1) as Hwp.
  { eapply serverDoGet_wp; [done..| |]; cbn [mv with_mv]; rewrite Hlk;
      change (in_MV (with_mv _ m) j) with (in_MV m j); rewrite Hj; [by apply fits_mail_sendable|done]. }
  apply wp_no_fault in Hwp as ([] & s2 & He2 & Ho2). by exists s2.
Qed.

(** Outside its bounds a monitor variable is neither read
    nor written: Set answers 0, Get answers 0 and the value 0, and the tables
    stay as they are. *)
Theorem mv_out_of_bounds id index value pkt mail m s : Inv s → entry (table s) id m →
  in_MV m index = false → fits_mail "0 0" mail = true →
  serverDoSet id index value pkt mail s =
    Done ((), with_mail (mkMail pkt mail threadID "0" (up (sends s) pkt)) s) ∧
  serverDoGet id index pkt mail s =
    Done ((), with_mail (mkMail pkt mail threadID "0 0" (up (sends s) pkt)) s).
Proof.
  intros Hi Hm Hin Hf. split.
  - assert (wp no_fault (serverDoSet id index value pkt mail) (λ _ s', s' =
      with_mail (mkMail pkt mail threadID "0" (up (sends s) pkt)) s) s) as Hwp.
    { eapply serverDoSet_wp; [done..|rewrite Hin|by rewrite Hin|done].
      apply fits_mail_sendable. unfold fits_mail in *. cbn in *. lia. }
    by apply wp_no_fault in Hwp as ([] & s' & -> & ->).
  - assert (wp no_fault (serverDoGet id index pkt mail) (λ _ s', s' =
      with_mail (mkMail pkt mail threadID "0 0" (up (sends s) pkt)) s) s) as Hwp.
    { eapply serverDoGet_wp; [done..| |]; rewrite Hin; destruct (mv m !! _);
        [by apply fits_mail_sendable..|done|done]. }
    by apply wp_no_fault in Hwp as ([] & s' & -> & ->).
Qed.

(** Creating a monitor variable by name: an existing one of
    the same size keeps its slot and gains a creator, one of another size is
    refused with -1; a new one gets the least free slot and is all zeros; a
    full table gives -1; a size the vector refuses with a slot left ends the server with
    the exception of [vector::resize], the slot already taken. *)
Theorem createMV_spec name size s : Inv s →
  match createMV name size s with
  | Done (i, s') => Inv s' ∧
      ((∃ m, entry (table s) i m ∧ mname m = name ∧ msize m = size ∧
          entry_upd s i (Some (with_mv_count (createMVCount m + 1) m)) s') ∨
       (i = -1 ∧ slot_vec (serverMVs s') = slot_vec (serverMVs s) ∧
          ((∃ j m, entry (table s) j m ∧ mname m = name ∧ msize m ≠ size) ∨
           ∀ j, 0 <= j < MVTableSize → ∃ m : ServerMV, entry (table s) j m)) ∨
       (0 <= i < MVTableSize ∧ 0 <= size ∧ (∀ j m, entry (table s) j m → mname m ≠ name) ∧
          (∀ m : ServerMV, ¬ entry (table s) i m) ∧
          (∀ j, 0 <= j < i → ∃ m : ServerMV, entry (table s) j m) ∧
          entry_upd s i (Some (fresh_MV name size)) s'))
  | Fault f => f = LengthError ∧ too_long size = true
  end.
Proof.
  intros Hi. pose proof (safe_createMV name size s Hi) as Hsafe. unfold safe_at, wp in Hsafe.
  destruct (find_named_cases (table (T := ServerMV) s) name) as [[Hf Hno]|(i & m & _ & Hm & Hn)].
  - rewrite (createMV_new _ _ _ Hf) in *. destruct (too_long size) eqn:Hlong.
    + unfold bind, get, lift, modify, ret, fail in *.
      destruct (Find_cases (slot_map (serverMVs s))) as [[HF Hu]|(k & b & HF & Hk & _)]; [apply Hi|..]; rewrite HF in *; cbn in *.
      * split; [apply Hsafe|]. right. left. split_and!; [done..|right]. intros j Hj.
        apply (sw_used _ _ _ (inv_MVs _ Hi)); [done|]. apply Hu.
        pose proof (sw_size _ _ _ (inv_MVs _ Hi)) as Hsz. cbn in Hsz. by rewrite Hsz.
      * by rewrite (proj2 (Z.eqb_neq k (-1))) by lia.
    + assert (0 <= size) as Hpos by (unfold too_long in Hlong; lia).
      destruct (table_new_at s (fresh_MV name size) Hi Hno (fresh_MV_ok _ _ Hpos))
        as (k & t & Ht & Hi' & Hk). rewrite Ht in *.
      split; [exact Hi'|]. destruct Hk as [(-> & Hv & Hfull)|(Hr & Hfree & Hbl & He)]; right; [left|right].
      * split_and!; [done|exact Hv|by right].
      * split_and!; [apply Hr|apply Hr|exact Hpos|exact Hno|exact Hfree|exact Hbl|exact He].
  - rewrite (createMV_old _ _ _ _ _ Hi Hm Hn) in *. destruct (Z.eqb_spec (msize m) size) as [Hs|Hs].
    + destruct (table_set_at s i m (with_mv_count (createMVCount m + 1) m) Hi Hm eq_refl)
        as (t & Ht & Hi' & He); [exact (mv_entry_ok _ _ _ Hi Hm)|].
      cbn [negb]. unfold set_MV. rewrite (bind_Done _ _ _ _ _ Ht). cbn.
      split; [exact Hi'|]. left. by exists m.
    + cbn. split; [done|]. right. left. split_and!; [done..|left]. by exists i, m.
Qed.

End mv_server.

(** ** Examples *)

(** A server with a monitor variable of three cells. *)
Definition mv_example : outcome Server :=
  after (createMV "v" 3) (initial_server (λ _, 0)).

Lemma mv_example_Inv : Inv (state_or_empty mv_example).
Proof.
  apply state_or_empty_Inv, after_Inv; [apply safe_createMV|apply initial_Inv|by vm_compute; eexists].
Qed.

Lemma mv_example_entry : entry (table (state_or_empty mv_example)) 0 (fresh_MV "v" 3).
Proof. by split; [|vm_compute]. Qed.

Lemma get_after_set_witness : ∃ s1,
  serverDoSet (E := lone_env) 0 1 42 7 1 (state_or_empty mv_example) = Done ((), s1) ∧ Inv s1 ∧
  outbox s1 = [mkMail 7 1 0 "1" true] ∧
  ∀ j p2 m2 v, in_MV (fresh_MV "v" 3) j = true →
    (if j =? 1 then v = 42 else mv (fresh_MV "v" 3) !! Z.to_nat j = Some v) →
    fits_mail ("1 " +:+ print_int v) m2 = true →
    ∃ s2, serverDoGet (E := lone_env) 0 j p2 m2 s1 = Done ((), s2) ∧
      outbox s2 = outbox s1 ++ [mkMail p2 m2 0 ("1 " +:+ print_int v) (up (ServerEnv := lone_env) (sends s1) p2)].
Proof.
  exact (get_after_set (E := lone_env) 0 1 42 7 1 _ _ mv_example_Inv mv_example_entry eq_refl eq_refl).
Defined.

Lemma mv_out_of_bounds_witness :
  serverDoSet (E := lone_env) 0 3 42 7 1 (state_or_empty mv_example) =
    Done ((), with_mail (mkMail 7 1 0 "0" true) (state_or_empty mv_example)) ∧
  serverDoGet (E := lone_env) 0 3 7 1 (state_or_empty mv_example) =
    Done ((), with_mail (mkMail 7 1 0 "0 0" true) (state_or_empty mv_example)).
Proof.
  exact (mv_out_of_bounds (E := lone_env) 0 3 42 7 1 _ _ mv_example_Inv mv_example_entry eq_refl eq_refl).
Defined.

Lemma createMV_spec_witness :
  match createMV "v" 5 (state_or_empty mv_example) with
  | Done (i, s') => i = -1 ∧ Inv s'
  | Fault _ => False
  end.
Proof.
  pose proof (createMV_spec "v" 5 _ mv_example_Inv) as H.
  assert (createMV "v" 5 (state_or_empty mv_example) = Done (-1, state_or_empty mv_example)) as He
    by (vm_compute; reflexivity).
  rewrite He in *. destruct H as [Hi _]. split; [reflexivity|exact Hi].
Defined.

#[export] Hint Resolve safe_serverDoCreateMV safe_serverCreateMV safe_serverDoDestroyMV
  safe_serverDestroyMV safe_serverDoSet safe_serverSet safe_serverDoGet safe_serverGet : safe.
