(* ===== verification/ServerLoop.v ===== *)
(** * ServerLoop: the message dispatch of network/nettest.cc, Server() *)
From S2P Require Import Prelude.
From S2P Require Import BitMap.
From S2P Require Import Slots.
From S2P Require Import Wire.
From S2P Require Import ServerState.
From S2P Require Import Tables.
From S2P Require Import LockServer.
From S2P Require Import CVServer.
From S2P Require Import MVServer.
From stdpp Require Import base list strings.
From Stdlib Require Import ZArith Lia ZifyBool.

Local Open Scope Z_scope.

Section server_loop.
Context {E : ServerEnv}.

(** ** Reading the message *)

Definition extract_int (ss : istream) : Z * istream :=
  match read_int ss with (Some z, ss') => (z, ss') | (None, ss') => (garbage, ss') end.
Definition extract_bool (ss : istream) : bool * istream :=
  match read_bool ss with (Some b, ss') => (b, ss') | (None, ss') => (negb (garbage =? 0), ss') end.
Definition extract_string (ss : istream) : string * istream := read_string ss.

(** What [Server()] reads before it looks at the request: the rest of the
    stream and the locals it has set. *)
Record Header := mkHeader {
  which : Z;
  fromServer : bool;
  serverReply : bool;   (* [serverRequest] is its negation on a server message *)
  h_requestID : Z;
  in_pkt : Z;           (* [inPktHdr.from] *)
  in_mail : Z;          (* [inMailHdr.from] *)
  ss : istream
}.

Definition read_header (pkt mail : Z) (buffer : string) : Header :=
  let ss0 := mkStream buffer false in
  let (w, ss1) := extract_int ss0 in
  if pkt <? 5 then
    let (request, ss2) := extract_int ss1 in
    let (reqID, ss3) := extract_int ss2 in
    mkHeader w true (request =? 0) reqID pkt mail ss3
  else mkHeader w false false garbage pkt mail ss1.

(** [ss >> reqPktHdr; ss >> reqMailHdr;] *)
Definition read_requester (ss : istream) : Z * Z * istream :=
  let (reqPkt, ss1) := extract_int ss in
  let (reqMail, ss2) := extract_int ss1 in
  (reqPkt, reqMail, ss2).

(** The reply to another server's request:
    [sc << " " << false << " " << requestID << " " << reqPktHdr << " " <<
     reqMailHdr << " " << payload << " " << answer]. *)
Definition reply_text (sc : Z) (reqID reqPkt reqMail : Z) (payload : string) (answer : bool) : string :=
  print_int sc +:+ " " +:+ print_bool false +:+ " " +:+ print_int reqID +:+ " "
    +:+ print_int reqPkt +:+ " " +:+ print_int reqMail +:+ " " +:+ payload +:+ " "
    +:+ print_bool answer.

(** ** The three parts every branch of the dispatch has *)

(** A reply from another server: [index] is the pending request it answers. *)
Definition on_reply (index : Server → Z) (response : bool)
    (handle : PendingRequest → M Server unit) (after_yes after_no : M Server unit) : M Server unit :=
  let! s := get in
  let i := index s in
  if i =? -1 then ret ()
  else
    let! p := lift (vget (pendingRequests s) i) in
    if response then deletePendingRequest i ;;; after_yes
    else
      let p := with_noCount (noCount p + 1) p in
      store_req p ;;;
      if noCount p =? sentCount p then
        handle p ;;; deletePendingRequest i ;;; after_no
      else ret ().

(** A request from another server for an object with a number: YES and the
    work when [myIndex] says it is ours, NO otherwise. *)
Definition on_request (from box : Z) (myIndex : Z) (answer : bool → string)
    (work : M Server unit) : M Server unit :=
  if negb (myIndex =? -1) then
    sendMail (answer true) from box ;;; work
  else sendMail (answer false) from box.

(** [while(true)]: delete every pending request the search finds. *)
Fixpoint delete_all (fuel : nat) (index : Server → Z) : M Server unit :=
  match fuel with
  | O => fail OutOfFuel
  | S fuel' =>
      let! s := get in
      if index s =? -1 then ret ()
      else deletePendingRequest (index s) ;;; delete_all fuel' index
  end.

(** [while(true)]: handle and delete every pending request it finds. *)
Fixpoint handle_all (fuel : nat) (index : Server → Z) (handle : PendingRequest → M Server unit) :
    M Server unit :=
  match fuel with
  | O => fail OutOfFuel
  | S fuel' =>
      let! s := get in
      if index s =? -1 then ret ()
      else
        let! p := lift (vget (pendingRequests s) (index s)) in
        handle p ;;; deletePendingRequest (index s) ;;; handle_all fuel' index handle
  end.

(** The fuel: one turn per pending request and one to leave. *)
Definition while_named (loop : nat → M Server unit) : M Server unit :=
  let! s := get in loop (S (length (pendingRequests s))).

(** A request from another server to create an object by name. *)
Definition on_create_request (from box : Z) (named : Server → Z) (pending : Server → Z)
    (answer : bool → string) (work : M Server unit) (fill : nat → Z → PendingRequest) : M Server unit :=
  let! s := get in
  if negb (named s =? -1) then
    sendMail (answer true) from box ;;; work
  else if negb (pending s =? -1) then
    if netAddr <? from then
      sendMail (answer true) from box ;;;
      let! p := new_PendingRequest fill in
      push_pending p
    else sendMail (answer false) from box
  else sendMail (answer false) from box.

(** ** The branches *)

Definition handle_CreateLock (h : Header) : M Server unit :=
  if negb (fromServer h) then
    let (name, ss1) := extract_string (ss h) in
    serverCreateLock name (in_pkt h) (in_mail h)
  else
    let '(reqPkt, reqMail, ss1) := read_requester (ss h) in
    let (name, ss2) := extract_string ss1 in
    if serverReply h then
      let (response, ss3) := extract_bool ss2 in
      on_reply (findPendingCreateLockRequest reqPkt reqMail (h_requestID h) name) response
        (λ p, serverDoCreateLock (pname p) (pktHdr p) (mailHdr p))
        (while_named (λ n, delete_all n (findPendingCreateLockRequestNamed name)))
        (while_named (λ n, handle_all n (findPendingCreateLockRequestNamed name)
           (λ p, serverDoCreateLock (pname p) (pktHdr p) (mailHdr p))))
    else
      on_create_request (in_pkt h) (in_mail h) (λ s, find_named (serverLocks s) name)
        (findPendingCreateLockRequestNamed name)
        (reply_text SC_CreateLock (h_requestID h) reqPkt reqMail (name))
        (serverDoCreateLock name reqPkt reqMail)
        (λ a n, mkPendingRequest a reqPkt reqMail SC_CreateLock name (-1) (-1) (-1) (-1) 0 (-1) 0 n).

Definition handle_Acquire (h : Header) : M Server unit :=
  if negb (fromServer h) then
    let (lock, ss2) := extract_int (ss h) in
    serverAcquireLock lock (in_pkt h) (in_mail h)
  else
    let '(reqPkt, reqMail, ss1) := read_requester (ss h) in
    let (lock, ss2) := extract_int ss1 in
    if serverReply h then
      let (response, ss_end) := extract_bool ss2 in
      on_reply (findPendingAcquireLockRequest reqPkt reqMail (h_requestID h) lock) response
        (λ p, serverDoAcquireLock lock (pktHdr p) (mailHdr p))
        (ret ()) (ret ())
    else
      let myIndex := checkIfLockIsMineAndGetMyIndex lock in
      on_request (in_pkt h) (in_mail h) myIndex
        (reply_text SC_Acquire (h_requestID h) reqPkt reqMail (print_int lock))
        (serverDoAcquireLock myIndex reqPkt reqMail).

Definition handle_Release (h : Header) : M Server unit :=
  if negb (fromServer h) then
    let (lock, ss2) := extract_int (ss h) in
    serverReleaseLock lock (in_pkt h) (in_mail h)
  else
    let '(reqPkt, reqMail, ss1) := read_requester (ss h) in
    let (lock, ss2) := extract_int ss1 in
    if serverReply h then
      let (response, ss_end) := extract_bool ss2 in
      on_reply (findPendingReleaseLockRequest reqPkt reqMail (h_requestID h) lock) response
        (λ p, serverDoReleaseLock lock (pktHdr p) (mailHdr p))
        (ret ()) (ret ())
    else
      let myIndex := checkIfLockIsMineAndGetMyIndex lock in
      on_request (in_pkt h) (in_mail h) myIndex
        (reply_text SC_Release (h_requestID h) reqPkt reqMail (print_int lock))
        (serverDoReleaseLock myIndex reqPkt reqMail).

Definition handle_DestroyLock (h : Header) : M Server unit :=
  if negb (fromServer h) then
    let (lock, ss2) := extract_int (ss h) in
    serverDestroyLock lock (in_pkt h) (in_mail h)
  else
    let '(reqPkt, reqMail, ss1) := read_requester (ss h) in
    let (lock, ss2) := extract_int ss1 in
    if serverReply h then
      let (response, ss_end) := extract_bool ss2 in
      on_reply (findPendingDestroyLockRequest reqPkt reqMail (h_requestID h) lock) response
        (λ p, serverDoDestroyLock lock)
        (ret ()) (ret ())
    else
      let myIndex := checkIfLockIsMineAndGetMyIndex lock in
      on_request (in_pkt h) (in_mail h) myIndex
        (reply_text SC_DestroyLock (h_requestID h) reqPkt reqMail (print_int lock))
        (serverDoDestroyLock myIndex).

Definition handle_CreateCondition (h : Header) : M Server unit :=
  if negb (fromServer h) then
    let (name, ss1) := extract_string (ss h) in
    serverCreateCV name (in_pkt h) (in_mail h)
  else
    let '(reqPkt, reqMail, ss1) := read_requester (ss h) in
    let (name, ss2) := extract_string ss1 in
    if serverReply h then
      let (response, ss3) := extract_bool ss2 in
      on_reply (findPendingCreateCVRequest reqPkt reqMail (h_requestID h) name) response
        (λ p, serverDoCreateCV (pname p) (pktHdr p) (mailHdr p))
        (while_named (λ n, delete_all n (findPendingCreateCVRequestNamed name)))
        (while_named (λ n, handle_all n (findPendingCreateCVRequestNamed name)
           (λ p, serverDoCreateCV (pname p) (pktHdr p) (mailHdr p))))
    else
      on_create_request (in_pkt h) (in_mail h) (λ s, find_named (serverCVs s) name)
        (findPendingCreateCVRequestNamed name)
        (reply_text SC_CreateCondition (h_requestID h) reqPkt reqMail (name))
        (serverDoCreateCV name reqPkt reqMail)
        (λ a n, mkPendingRequest a reqPkt reqMail SC_CreateCondition name (-1) (-1) (-1) (-1) 0 (-1) 0 n).

Definition handle_Wait (h : Header) : M Server unit :=
  if negb (fromServer h) then
    let (cv, ss2) := extract_int (ss h) in
    let (lock, ss3) := extract_int ss2 in
    serverWait cv lock (in_pkt h) (in_mail h)
  else
    let '(reqPkt, reqMail, ss1) := read_requester (ss h) in
    let (cv, ss2) := extract_int ss1 in
    let (lock, ss3) := extract_int ss2 in
    if serverReply h then
      let (response, ss_end) := extract_bool ss3 in
      on_reply (findPendingWaitRequest reqPkt reqMail (h_requestID h) cv) response
        (λ p, serverDoWait cv lock (pktHdr p) (mailHdr p))
        (ret ()) (ret ())
    else
      let myIndex := checkIfCVIsMineAndGetMyIndex cv in
      on_request (in_pkt h) (in_mail h) myIndex
        (reply_text SC_Wait (h_requestID h) reqPkt reqMail (print_int cv +:+ " " +:+ print_int lock))
        (serverDoWait myIndex lock reqPkt reqMail).

Definition handle_Signal (h : Header) : M Server unit :=
  if negb (fromServer h) then
    let (cv, ss2) := extract_int (ss h) in
    let (lock, ss3) := extract_int ss2 in
    serverSignal cv lock (in_pkt h) (in_mail h)
  else
    let '(reqPkt, reqMail, ss1) := read_requester (ss h) in
    let (cv, ss2) := extract_int ss1 in
    let (lock, ss3) := extract_int ss2 in
    if serverReply h then
      let (response, ss_end) := extract_bool ss3 in
      on_reply (findPendingSignalRequest reqPkt reqMail (h_requestID h) cv) response
        (λ p, serverDoSignal cv lock (pktHdr p) (mailHdr p))
        (ret ()) (ret ())
    else
      let myIndex := checkIfCVIsMineAndGetMyIndex cv in
      on_request (in_pkt h) (in_mail h) myIndex
        (reply_text SC_Signal (h_requestID h) reqPkt reqMail (print_int cv +:+ " " +:+ print_int lock))
        (serverDoSignal myIndex lock reqPkt reqMail).

Definition handle_Broadcast (h : Header) : M Server unit :=
  if negb (fromServer h) then
    let (cv, ss2) := extract_int (ss h) in
    let (lock, ss3) := extract_int ss2 in
    serverBroadcast cv lock (in_pkt h) (in_mail h)
  else
    let '(reqPkt, reqMail, ss1) := read_requester (ss h) in
    let (cv, ss2) := extract_int ss1 in
    let (lock, ss3) := extract_int ss2 in
    if serverReply h then
      let (response, ss_end) := extract_bool ss3 in
      on_reply (findPendingBroadcastRequest reqPkt reqMail (h_requestID h) cv) response
        (λ p, serverDoBroadcast cv lock (pktHdr p) (mailHdr p))
        (ret ()) (ret ())
    else
      let myIndex := checkIfCVIsMineAndGetMyIndex cv in
      on_request (in_pkt h) (in_mail h) myIndex
        (reply_text SC_Broadcast (h_requestID h) reqPkt reqMail (print_int cv +:+ " " +:+ print_int lock))
        (serverDoBroadcast myIndex lock reqPkt reqMail).

Definition handle_DestroyCondition (h : Header) : M Server unit :=
  if negb (fromServer h) then
    let (cv, ss2) := extract_int (ss h) in
    serverDestroyCV cv (in_pkt h) (in_mail h)
  else
    let '(reqPkt, reqMail, ss1) := read_requester (ss h) in
    let (cv, ss2) := extract_int ss1 in
    if serverReply h then
      let (response, ss_end) := extract_bool ss2 in
      on_reply (findPendingDestroyCVRequest reqPkt reqMail (h_requestID h) cv) response
        (λ p, serverDoDestroyCV cv)
        (ret ()) (ret ())
    else
      let myIndex := checkIfCVIsMineAndGetMyIndex cv in
      on_request (in_pkt h) (in_mail h) myIndex
        (reply_text SC_DestroyCondition (h_requestID h) reqPkt reqMail (print_int cv))
        (serverDoDestroyCV myIndex).

Definition handle_CreateMV (h : Header) : M Server unit :=
  if negb (fromServer h) then
    let (size, ss_) := extract_int (ss h) in
    let (name, ss1) := extract_string ss_ in
    serverCreateMV name size (in_pkt h) (in_mail h)
  else
    let '(reqPkt, reqMail, ss1) := read_requester (ss h) in
    let (size, ss_) := extract_int ss1 in
    let (name, ss2) := extract_string ss_ in
    if serverReply h then
      let (response, ss3) := extract_bool ss2 in
      on_reply (findPendingCreateMVRequest reqPkt reqMail (h_requestID h) name) response
        (λ p, serverDoCreateMV (pname p) (MVIndex p) (pktHdr p) (mailHdr p))
        (while_named (λ n, delete_all n (findPendingCreateMVRequestNamed name)))
        (while_named (λ n, handle_all n (findPendingCreateMVRequestNamed name)
           (λ p, serverDoCreateMV (pname p) (MVIndex p) (pktHdr p) (mailHdr p))))
    else
      on_create_request (in_pkt h) (in_mail h) (λ s, find_named (serverMVs s) name)
        (findPendingCreateMVRequestNamed name)
        (reply_text SC_CreateMV (h_requestID h) reqPkt reqMail (print_int size +:+ " " +:+ name))
        (serverDoCreateMV name size reqPkt reqMail)
        (λ a n, mkPendingRequest a reqPkt reqMail SC_CreateMV name (-1) (-1) (-1) size 0 (-1) 0 n).

Definition handle_DestroyMV (h : Header) : M Server unit :=
  if negb (fromServer h) then
    let (id, ss2) := extract_int (ss h) in
    serverDestroyMV id (in_pkt h) (in_mail h)
  else
    let '(reqPkt, reqMail, ss1) := read_requester (ss h) in
    let (id, ss2) := extract_int ss1 in
    if serverReply h then
      let (response, ss_end) := extract_bool ss2 in
      on_reply (findPendingDestroyMVRequest reqPkt reqMail (h_requestID h) id) response
        (λ p, serverDoDestroyMV id)
        (ret ()) (ret ())
    else
      let myIndex := checkIfMVIsMineAndGetMyIndex id in
      on_request (in_pkt h) (in_mail h) myIndex
        (reply_text SC_DestroyMV (h_requestID h) reqPkt reqMail (print_int id))
        (serverDoDestroyMV myIndex).

Definition handle_Set (h : Header) : M Server unit :=
  if negb (fromServer h) then
    let (id, ss2) := extract_int (ss h) in
    let (index, ss3) := extract_int ss2 in
    let (value, ss4) := extract_int ss3 in
    serverSet id index value (in_pkt h) (in_mail h)
  else
    let '(reqPkt, reqMail, ss1) := read_requester (ss h) in
    let (id, ss2) := extract_int ss1 in
    let (index, ss3) := extract_int ss2 in
    let (value, ss4) := extract_int ss3 in
    if serverReply h then
      let (response, ss_end) := extract_bool ss4 in
      on_reply (findPendingSetMVRequest reqPkt reqMail (h_requestID h) id) response
        (λ p, serverDoSet id index value (pktHdr p) (mailHdr p))
        (ret ()) (ret ())
    else
      let myIndex := checkIfMVIsMineAndGetMyIndex id in
      on_request (in_pkt h) (in_mail h) myIndex
        (reply_text SC_Set (h_requestID h) reqPkt reqMail (print_int id +:+ " " +:+ print_int index +:+ " " +:+ print_int value))
        (serverDoSet myIndex index value reqPkt reqMail).

Definition handle_Get (h : Header) : M Server unit :=
  if negb (fromServer h) then
    let (id, ss2) := extract_int (ss h) in
    let (index, ss3) := extract_int ss2 in
    serverGet id index (in_pkt h) (in_mail h)
  else
    let '(reqPkt, reqMail, ss1) := read_requester (ss h) in
    let (id, ss2) := extract_int ss1 in
    let (index, ss3) := extract_int ss2 in
    if serverReply h then
      let (response, ss_end) := extract_bool ss3 in
      on_reply (findPendingGetMVRequest reqPkt reqMail (h_requestID h) id) response
        (λ p, serverDoGet id index (pktHdr p) (mailHdr p))
        (ret ()) (ret ())
    else
      let myIndex := checkIfMVIsMineAndGetMyIndex id in
      on_request (in_pkt h) (in_mail h) myIndex
        (reply_text SC_Get (h_requestID h) reqPkt reqMail (print_int id +:+ " " +:+ print_int index))
        (serverDoGet myIndex index reqPkt reqMail).

(** One turn of the loop of [Server()] on a received message. *)
Definition Server_turn (pkt mail : Z) (buffer : string) : M Server unit :=
  let h := read_header pkt mail buffer in
  if which h =? SC_CreateLock then handle_CreateLock h
  else if which h =? SC_Acquire then handle_Acquire h
  else if which h =? SC_Release then handle_Release h
  else if which h =? SC_DestroyLock then handle_DestroyLock h
  else if which h =? SC_CreateCondition then handle_CreateCondition h
  else if which h =? SC_Wait then handle_Wait h
  else if which h =? SC_Signal then handle_Signal h
  else if which h =? SC_Broadcast then handle_Broadcast h
  else if which h =? SC_DestroyCondition then handle_DestroyCondition h
  else if which h =? SC_CreateMV then handle_CreateMV h
  else if which h =? SC_DestroyMV then handle_DestroyMV h
  else if which h =? SC_Set then handle_Set h
  else if which h =? SC_Get then handle_Get h
  else ret ().

(** A run: the messages received, in order. *)
Fixpoint Server_run (msgs : list (Z * Z * string)) : M Server unit :=
  match msgs with
  | [] => ret ()
  | (pkt, mail, buffer) :: msgs' => Server_turn pkt mail buffer ;;; Server_run msgs'
  end.

(** ** Turns keep the invariant *)

(** [m] keeps the invariant or stops with a tolerated fault. *)
Definition pres {A} (m : M Server A) : Prop := ∀ s, Inv s → wp tolerated m (λ _ s', Inv s') s.

Lemma safe_pres {A} (m : M Server A) : safe m → pres m.
Proof. intros Hm s Hi. eapply wp_mono; [by apply Hm|]. by intros ? s' []. Qed.

Lemma pres_bind {A B} (m : M Server A) (k : A → M Server B) :
  pres m → (∀ a, pres (k a)) → pres (bind m k).
Proof.
  intros Hm Hk s Hi. apply wp_bind. eapply wp_mono; [by apply Hm|]. cbn. intros a s' Hi'. by apply Hk.
Qed.

Lemma pres_if {A} (b : bool) (m1 m2 : M Server A) : pres m1 → pres m2 → pres (if b then m1 else m2).
Proof. by destruct b. Qed.

(** [index] is one of the [findPending...] searches: the first request with
    the property [pred], or -1. *)
Definition searches (index : Server → Z) (pred : PendingRequest → bool) : Prop :=
  ∀ s, index s = find_index pred (pendingRequests s).

Lemma filter_all (P : PendingRequest → Prop) `{!∀ p, Decision (P p)} l : Forall P l → filter P l = l.
Proof. induction 1; [done|]. rewrite filter_cons_True by done. by f_equal. Qed.

Lemma searches_cases index pred s : searches index pred →
  (index s = -1 ∧ filter (λ p, pred p = false) (pendingRequests s) = pendingRequests s) ∨
  (∃ j p, index s = Z.of_nat j ∧ pendingRequests s !! j = Some p ∧ pred p = true).
Proof.
  intros Hs. rewrite !(Hs s). destruct (find_index_spec pred (pendingRequests s))
    as [[-> Ha]|(j & p & -> & Hj & Hp & _)]; [left|right; by exists j, p].
  split; [done|]. apply filter_all, Forall_lookup. exact Ha.
Qed.

Lemma pres_on_reply index pred response handle after_yes after_no :
  searches index pred → (∀ p, safe (handle p)) → pres after_yes → pres after_no →
  pres (on_reply index response handle after_yes after_no).
Proof.
  intros Hs Hh Hy Hn s Hi. unfold on_reply. apply wp_bind, wp_get. cbn zeta.
  destruct (searches_cases index pred s Hs) as [[-> _]|(j & p & -> & Hj & _)]; [by apply wp_ret|].
  rewrite (proj2 (Z.eqb_neq (Z.of_nat j) (-1))) by lia.
  pose proof (lookup_lt_Some _ _ _ Hj) as Hlt.
  apply wp_bind. eapply wp_lift; [by apply vget_Done|]. destruct response.
  - destruct (deletePendingRequest_spec (Z.of_nat j) s Hi) as (s1 & Hd & Hi1 & _); [lia|].
    apply wp_bind. unfold wp. rewrite Hd. by apply Hy.
  - apply wp_bind, wp_modify. set (q := with_noCount _ p).
    assert (Inv (with_pending (upd_req q) s)) as Hi1.
    { apply store_req_Inv; [done|]. by eapply names_req_at. }
    destruct (_ =? _); [|by apply wp_ret].
    apply wp_bind. eapply wp_mono; [by apply Hh|]. cbn. intros ? s2 [Hi2 Hpre].
    apply prefix_length in Hpre. rewrite !length_fmap in Hpre. unfold upd_req in Hpre.
    rewrite length_fmap in Hpre.
    destruct (deletePendingRequest_spec (Z.of_nat j) s2 Hi2) as (s3 & Hd & Hi3 & _); [lia|].
    apply wp_bind. unfold wp. rewrite Hd. by apply Hn.
Qed.

(** *** The deletion and handling loops *)

Lemma filter_delete_no (pred : PendingRequest → bool) (l : list PendingRequest) (j : nat) p : l !! j = Some p → pred p = true →
  filter (λ p, pred p = false) (delete j l) = filter (λ p, pred p = false) l.
Proof.
  intros Hj Hp. rewrite <- (take_drop_middle l j p Hj) at 2.
  rewrite delete_take_drop, !filter_app, filter_cons_False by congruence. done.
Qed.

(** With a turn for each pending request and one to leave, the loop handles
    and removes exactly the requests the search finds. *)
Lemma handle_all_wp index pred handle fuel : searches index pred →
  (∀ p, safe (handle p)) → (∀ p, keeps pendingRequests (handle p)) →
  ∀ s, Inv s → (length (pendingRequests s) < fuel)%nat →
  wp tolerated (handle_all fuel index handle)
    (λ _ s', Inv s' ∧ pendingRequests s' = filter (λ p, pred p = false) (pendingRequests s)) s.
Proof.
  intros Hs Hh Hk. induction fuel as [|fuel IH]; intros s Hi Hf; [lia|]. cbn [handle_all].
  apply wp_bind, wp_get. destruct (searches_cases index pred s Hs) as [[-> Hn]|(j & p & -> & Hj & Hp)].
  { apply wp_ret. by rewrite Hn. }
  rewrite (proj2 (Z.eqb_neq (Z.of_nat j) (-1))) by lia.
  pose proof (lookup_lt_Some _ _ _ Hj) as Hlt.
  apply wp_bind. eapply wp_lift; [by apply vget_Done|]. apply wp_bind.
  eapply wp_mono; [apply (wp_keeps pendingRequests); [apply Hk|by apply Hh]|]. cbn. intros ? s1 [[Hi1 _] Hp1].
  destruct (deletePendingRequest_spec (Z.of_nat j) s1 Hi1) as (s2 & Hd & Hi2 & _ & Hp2);
    [rewrite Hp1; lia|].
  apply wp_bind. unfold wp at 1. rewrite Hd. rewrite Nat2Z.id, Hp1 in Hp2.
  eapply wp_mono; [apply IH; [done|rewrite Hp2, length_delete by eauto; lia]|].
  cbn. intros ? s3 [? ->]. by rewrite Hp2, (filter_delete_no _ _ _ _ Hj Hp).
Qed.

(** [delete_all] leaves everything but the requests the search finds. *)
Lemma delete_all_wp Er index pred fuel : searches index pred →
  ∀ s, Inv s → (length (pendingRequests s) < fuel)%nat →
  wp Er (delete_all fuel index)
    (λ _ s', Inv s' ∧ same_tables s s' ∧
       pendingRequests s' = filter (λ p, pred p = false) (pendingRequests s)) s.
Proof.
  intros Hs. induction fuel as [|fuel IH]; intros s Hi Hf; [lia|]. cbn [delete_all].
  apply wp_bind, wp_get. destruct (searches_cases index pred s Hs) as [[-> Hn]|(j & p & -> & Hj & Hp)].
  { apply wp_ret. by rewrite Hn. }
  rewrite (proj2 (Z.eqb_neq (Z.of_nat j) (-1))) by lia.
  pose proof (lookup_lt_Some _ _ _ Hj) as Hlt.
  destruct (deletePendingRequest_spec (Z.of_nat j) s Hi) as (s2 & Hd & Hi2 & Ht & Hp2); [lia|].
  apply wp_bind. unfold wp at 1. rewrite Hd. rewrite Nat2Z.id in Hp2.
  eapply wp_mono; [apply IH; [done|rewrite Hp2, length_delete by eauto; lia]|].
  cbn. intros ? s3 (? & Ht' & ->). split_and!; [done|by eapply same_tables_trans|].
  by rewrite Hp2, (filter_delete_no _ _ _ _ Hj Hp).
Qed.

Lemma pres_delete_all index pred : searches index pred →
  pres (while_named (λ n, delete_all n index)).
Proof.
  intros Hs s Hi. apply wp_bind, wp_get.
  eapply wp_mono; [by apply (delete_all_wp _ _ _ _ Hs); [|lia]|]. by intros ? s' [? _].
Qed.

Lemma pres_handle_all index pred handle : searches index pred →
  (∀ p, safe (handle p)) → (∀ p, keeps pendingRequests (handle p)) →
  pres (while_named (λ n, handle_all n index handle)).
Proof.
  intros Hs Hh Hk s Hi. apply wp_bind, wp_get.
  eapply wp_mono; [by apply (handle_all_wp _ _ _ _ Hs Hh Hk); [|lia]|]. by intros ? s' [? _].
Qed.

Lemma safe_new_pending fill : good_fill fill →
  safe (let! p := new_PendingRequest fill in push_pending p).
Proof.
  intros Hf s Hi. destruct (push_new_Inv fill s Hi Hf) as [Hi1 _].
  apply wp_bind, wp_bind, wp_get, wp_bind, wp_put, wp_ret, wp_modify. split; [exact Hi1|].
  cbn. rewrite fmap_app. by eexists.
Qed.

Lemma safe_on_create_request from box named pending answer work fill :
  safe work → good_fill fill → safe (on_create_request from box named pending answer work fill).
Proof.
  intros Hw Hf. apply safe_bind; [apply safe_get|]. intros s.
  repeat apply safe_if; auto with safe.
  - by apply safe_bind; [auto with safe|].
  - apply safe_bind; [auto with safe|]. intros _. by apply safe_new_pending.
Qed.

Lemma safe_on_request from box myIndex answer work :
  safe work → safe (on_request from box myIndex answer work).
Proof. intros Hw. apply safe_if; [|auto with safe]. by apply safe_bind; [auto with safe|]. Qed.

(** *** The branches *)

Lemma keeps_pending_creates name size pkt mail :
  keeps pendingRequests (serverDoCreateLock name pkt mail) ∧
  keeps pendingRequests (serverDoCreateCV name pkt mail) ∧
  keeps pendingRequests (serverDoCreateMV name size pkt mail).
Proof.
  pose proof (keeps_sendMail pendingRequests (λ _ _, eq_refl)).
  split_and!; [unfold serverDoCreateLock, createLockNamed|unfold serverDoCreateCV, createCVNamed
              |unfold serverDoCreateMV, createMV];
  unfold findLockNamed, get_lock, set_lock, findCVNamed, get_CV, set_CV, findMVNamed, get_MV, set_MV,
    table_find, table_get, table_set, table_new; keep.
Qed.

Lemma searches_refl index pred : (∀ s, index s = find_index pred (pendingRequests s)) → searches index pred.
Proof. done. Qed.

Ltac turn :=
  repeat match goal with
  | |- pres (if _ then _ else _) => apply pres_if
  | |- pres (match ?x with _ => _ end) => destruct x
  | |- pres (on_reply _ _ _ _ _) =>
      eapply pres_on_reply; [apply searches_refl; intros ?; reflexivity|intros ?; solve [auto with safe]|..]
  | |- pres (while_named (λ n, delete_all n _)) =>
      eapply pres_delete_all; apply searches_refl; intros ?; reflexivity
  | |- pres (while_named (λ n, handle_all n _ _)) =>
      eapply pres_handle_all; [apply searches_refl; intros ?; reflexivity|intros ?; solve [auto with safe]
                              |intros p; apply (keeps_pending_creates (pname p) (MVIndex p))|..]
  | |- pres (on_request _ _ _ _ _) => apply safe_pres, safe_on_request; solve [auto with safe]
  | |- pres (on_create_request _ _ _ _ _ _ _) =>
      apply safe_pres, safe_on_create_request; [solve [auto with safe]|by intros]
  | |- pres _ => apply safe_pres; solve [auto with safe]
  end.

Lemma pres_locks h : pres (handle_CreateLock h) ∧ pres (handle_Acquire h) ∧
  pres (handle_Release h) ∧ pres (handle_DestroyLock h).
Proof.
  unfold handle_CreateLock, handle_Acquire, handle_Release, handle_DestroyLock.
  split_and!; turn.
Qed.

Lemma pres_CVs h : pres (handle_CreateCondition h) ∧ pres (handle_Wait h) ∧
  pres (handle_Signal h) ∧ pres (handle_Broadcast h) ∧ pres (handle_DestroyCondition h).
Proof.
  unfold handle_CreateCondition, handle_Wait, handle_Signal, handle_Broadcast, handle_DestroyCondition.
  split_and!; turn.
Qed.

Lemma pres_MVs h : pres (handle_CreateMV h) ∧ pres (handle_DestroyMV h) ∧
  pres (handle_Set h) ∧ pres (handle_Get h).
Proof.
  unfold handle_CreateMV, handle_DestroyMV, handle_Set, handle_Get.
  split_and!; turn.
Qed.

Lemma pres_Server_turn pkt mail buffer : pres (Server_turn pkt mail buffer).
Proof.
  unfold Server_turn. cbn zeta. set (h := read_header pkt mail buffer).
  destruct (pres_locks h) as (? & ? & ? & ?), (pres_CVs h) as (? & ? & ? & ? & ?),
    (pres_MVs h) as (? & ? & ? & ?).
  repeat (match goal with |- pres (if _ then _ else _) => apply pres_if; [done|] end).
  apply safe_pres, safe_ret.
Qed.

Lemma pres_Server_run msgs : pres (Server_run msgs).
Proof.
  induction msgs as [|[[pkt mail] buffer] msgs IH]; [apply safe_pres, safe_ret|].
  apply pres_bind; [apply pres_Server_turn|done].
Qed.

(** ** Properties *)

(** C1: from its first state the server survives any sequence
    of messages from any machines: it keeps its invariant (well-formed tables,
    unique names, no waiter on a free lock, no tied condition variable without
    a waiter, monitor variables of their declared size, distinct pending
    requests), its loops terminate, and it never reads through NULL, indexes
    out of range or hits [ASSERT(FALSE)]. What can stop it are only a reply
    longer than a mail, a mail box number that does not exist, and a size for a
    monitor variable that its vector refuses. *)
Theorem Server_run_safe mem msgs : ∃ s, initial_server mem = Done s ∧
  match Server_run msgs s with
  | Done (_, s') => Inv s'
  | Fault f => f = MailTooLong ∨ f = BadMailBox ∨ f = LengthError
  end.
Proof.
  destruct (initial_Inv mem) as (s & Hs & Hi). refine (ex_intro _ s (conj Hs _)).
  pose proof (pres_Server_run msgs s Hi) as Hw. unfold wp in Hw.
  destruct (Server_run msgs s) as [[]|]; exact Hw.
Qed.

End server_loop.
