(* ===== verification/Protocol.v ===== *)
(** * Protocol: what the servers say to each other

    The request a server writes ([request_text] of ServerState.v) and the
    reply ([reply_text] of ServerLoop.v) are text; this file shows that the
    dispatch of [Server()] reads back exactly what was written. *)
From S2P Require Import Prelude.
From S2P Require Import BitMap.
From S2P Require Import Slots.
From S2P Require Import Wire.
From S2P Require Import ServerState.
From S2P Require Import Tables.
From S2P Require Import LockServer.
From S2P Require Import CVServer.
From S2P Require Import MVServer.
From S2P Require Import ServerLoop.
From stdpp Require Import base list strings.
From Stdlib Require Import ZArith Lia ZifyBool.

Local Open Scope Z_scope.

(** Decides the comparisons of two constants. *)
Ltac eval_codes :=
  repeat match goal with
  | |- context [Z.eqb ?a ?b] =>
      let v := eval vm_compute in (Z.eqb a b) in
      lazymatch v with true => idtac | false => idtac end;
      change (Z.eqb a b) with v; cbv iota
  end.

Section protocol.
Context {E : ServerEnv}.

(** ** The meaning of a request *)

(** The codes of the requests servers pass on. *)
Definition creates (t : Z) : bool :=
  (t =? SC_CreateLock) || (t =? SC_CreateCondition) || (t =? SC_CreateMV).
Definition request_codes : list Z :=
  [SC_CreateLock; SC_Acquire; SC_Release; SC_DestroyLock; SC_CreateCondition; SC_Wait; SC_Signal;
   SC_Broadcast; SC_DestroyCondition; SC_CreateMV; SC_DestroyMV; SC_Set; SC_Get].

(** The payload of a request, which its reply repeats. *)
Definition payload (p : PendingRequest) : string :=
  if type p =? SC_CreateLock then pname p
  else if type p =? SC_Acquire then print_int (lockID p)
  else if type p =? SC_Release then print_int (lockID p)
  else if type p =? SC_DestroyLock then print_int (lockID p)
  else if type p =? SC_CreateCondition then pname p
  else if type p =? SC_Wait then print_int (CVID p) +:+ " " +:+ print_int (lockID p)
  else if type p =? SC_Signal then print_int (CVID p) +:+ " " +:+ print_int (lockID p)
  else if type p =? SC_Broadcast then print_int (CVID p) +:+ " " +:+ print_int (lockID p)
  else if type p =? SC_DestroyCondition then print_int (CVID p)
  else if type p =? SC_CreateMV then print_int (MVIndex p) +:+ " " +:+ pname p
  else if type p =? SC_Set then
    print_int (MVID p) +:+ " " +:+ print_int (MVIndex p) +:+ " " +:+ print_int (MVValue p)
  else if type p =? SC_Get then print_int (MVID p) +:+ " " +:+ print_int (MVIndex p)
  else print_int (MVID p).

(** What a server does with the request [p] of the server [from]:[box]. *)
Definition serve_request (from box : Z) (p : PendingRequest) : M Server unit :=
  let answer := reply_text (type p) (requestID p) (pktHdr p) (mailHdr p) (payload p) in
  let lock := checkIfLockIsMineAndGetMyIndex (lockID p) in
  let cv := checkIfCVIsMineAndGetMyIndex (CVID p) in
  let id := checkIfMVIsMineAndGetMyIndex (MVID p) in
  let P := pktHdr p in
  let B := mailHdr p in
  if type p =? SC_CreateLock then
    on_create_request from box (λ s, find_named (serverLocks s) (pname p))
      (findPendingCreateLockRequestNamed (pname p)) answer (serverDoCreateLock (pname p) P B)
      (λ a n, mkPendingRequest a P B SC_CreateLock (pname p) (-1) (-1) (-1) (-1) 0 (-1) 0 n)
  else if type p =? SC_Acquire then on_request from box lock answer (serverDoAcquireLock lock P B)
  else if type p =? SC_Release then on_request from box lock answer (serverDoReleaseLock lock P B)
  else if type p =? SC_DestroyLock then on_request from box lock answer (serverDoDestroyLock lock)
  else if type p =? SC_CreateCondition then
    on_create_request from box (λ s, find_named (serverCVs s) (pname p))
      (findPendingCreateCVRequestNamed (pname p)) answer (serverDoCreateCV (pname p) P B)
      (λ a n, mkPendingRequest a P B SC_CreateCondition (pname p) (-1) (-1) (-1) (-1) 0 (-1) 0 n)
  else if type p =? SC_Wait then on_request from box cv answer (serverDoWait cv (lockID p) P B)
  else if type p =? SC_Signal then on_request from box cv answer (serverDoSignal cv (lockID p) P B)
  else if type p =? SC_Broadcast then on_request from box cv answer (serverDoBroadcast cv (lockID p) P B)
  else if type p =? SC_DestroyCondition then on_request from box cv answer (serverDoDestroyCV cv)
  else if type p =? SC_CreateMV then
    on_create_request from box (λ s, find_named (serverMVs s) (pname p))
      (findPendingCreateMVRequestNamed (pname p)) answer (serverDoCreateMV (pname p) (MVIndex p) P B)
      (λ a n, mkPendingRequest a P B SC_CreateMV (pname p) (-1) (-1) (-1) (MVIndex p) 0 (-1) 0 n)
  else if type p =? SC_DestroyMV then on_request from box id answer (serverDoDestroyMV id)
  else if type p =? SC_Set then
    on_request from box id answer (serverDoSet id (MVIndex p) (MVValue p) P B)
  else on_request from box id answer (serverDoGet id (MVIndex p) P B).

(** The fields survive the text: numbers are [int]s, a name is one word. *)
Definition wire_ok (p : PendingRequest) : bool :=
  forallb fits_int [type p; requestID p; pktHdr p; mailHdr p; lockID p; CVID p; MVID p; MVIndex p; MVValue p] &&
  (negb (creates (type p)) || is_word (pname p)).

(** ** Reading one field *)

Lemma extract_int_print z t : fits_int z = true → at_delim t = true →
  extract_int (mkStream (print_int z +:+ t) false) = (z, mkStream t false).
Proof. intros. unfold extract_int. by rewrite read_int_print. Qed.

Lemma str_app_empty t : t +:+ "" = t.
Proof. induction t as [|c t IH]; [done|]. by rewrite str_app_cons, IH. Qed.

Lemma extract_int_last z : fits_int z = true →
  extract_int (mkStream (print_int z) false) = (z, mkStream "" false).
Proof. intros. rewrite <- (str_app_empty (print_int z)). by apply extract_int_print. Qed.

Lemma extract_int_space t : extract_int (mkStream (" " +:+ t) false) = extract_int (mkStream t false).
Proof. done. Qed.

Lemma extract_flag b t : at_delim t = true →
  extract_int (mkStream (print_bool b +:+ t) false) = ((if b then 1 else 0), mkStream t false).
Proof.
  intros. replace (print_bool b) with (print_int (if b then 1 else 0)) by (by destruct b).
  apply extract_int_print; [by destruct b|done].
Qed.

Lemma extract_string_print w t : is_word w = true → at_delim t = true →
  extract_string (mkStream (w +:+ t) false) = (w, mkStream t false).
Proof. apply read_string_print. Qed.

Lemma extract_string_last w : is_word w = true →
  extract_string (mkStream w false) = (w, mkStream "" false).
Proof. intros. rewrite <- (str_app_empty w) at 1. by apply read_string_print. Qed.

Lemma extract_string_space t :
  extract_string (mkStream (" " +:+ t) false) = extract_string (mkStream t false).
Proof. done. Qed.

Lemma extract_bool_last b : extract_bool (mkStream (print_bool b) false) = (b, mkStream "" false).
Proof. by destruct b. Qed.
Lemma extract_bool_space t : extract_bool (mkStream (" " +:+ t) false) = extract_bool (mkStream t false).
Proof. done. Qed.

Lemma at_delim_space t : at_delim (" " +:+ t) = true.
Proof. done. Qed.

(** ** Reading the message *)

(** The beginning of every message between servers. *)
Definition header_text (t : Z) (request : bool) (id P B : Z) (rest : string) : string :=
  print_int t +:+ " " +:+ print_bool request +:+ " " +:+ print_int id +:+ " " +:+
  print_int P +:+ " " +:+ print_int B +:+ " " +:+ rest.

Lemma read_header_text from box t request id P B rest : from < 5 →
  fits_int t = true → fits_int id = true →
  read_header from box (header_text t request id P B rest) =
  mkHeader t true (negb request) id from box
    (mkStream (" " +:+ print_int P +:+ " " +:+ print_int B +:+ " " +:+ rest) false).
Proof.
  intros Hf Ht Hid. unfold read_header, header_text. rewrite extract_int_print by done.
  rewrite (proj2 (Z.ltb_lt from 5)) by done.
  rewrite extract_int_space, extract_flag by done.
  rewrite extract_int_space, extract_int_print by done. by destruct request.
Qed.

Lemma read_requester_text P B rest : fits_int P = true → fits_int B = true →
  read_requester (mkStream (" " +:+ print_int P +:+ " " +:+ print_int B +:+ " " +:+ rest) false) =
  (P, B, mkStream (" " +:+ rest) false).
Proof.
  intros HP HB. unfold read_requester. rewrite extract_int_space, extract_int_print by done.
  by rewrite extract_int_space, extract_int_print.
Qed.

Lemma request_text_header p : type p ∈ request_codes →
  request_text p = header_text (type p) true (requestID p) (pktHdr p) (mailHdr p) (payload p).
Proof.
  intros Ht. unfold request_text, header_text, payload. unfold request_codes in Ht.
  repeat (apply elem_of_cons in Ht as [Ht|Ht]); [..|by apply elem_of_nil in Ht];
    rewrite Ht; eval_codes; reflexivity.
Qed.

Lemma wire_ok_ints p : wire_ok p = true →
  fits_int (type p) = true ∧ fits_int (requestID p) = true ∧ fits_int (pktHdr p) = true ∧
  fits_int (mailHdr p) = true ∧ fits_int (lockID p) = true ∧ fits_int (CVID p) = true ∧
  fits_int (MVID p) = true ∧ fits_int (MVIndex p) = true ∧ fits_int (MVValue p) = true.
Proof. unfold wire_ok. cbn. rewrite !andb_true_iff. tauto. Qed.

Lemma wire_ok_name p : wire_ok p = true → creates (type p) = true → is_word (pname p) = true.
Proof. unfold wire_ok. intros [_ H]%andb_true_iff Hc. by rewrite Hc in H. Qed.

End protocol.

(** Reads the fields of a message one after the other. *)
Ltac read_fields :=
  repeat first
    [ rewrite read_requester_text by done
    | rewrite extract_int_space | rewrite extract_string_space | rewrite extract_bool_space
    | rewrite extract_int_print by done | rewrite extract_int_last by done
    | rewrite extract_string_print by done | rewrite extract_string_last by done
    | rewrite extract_bool_last ];
  cbv beta iota zeta.

Section roundtrip.
Context {E : ServerEnv}.

Lemma turn_request from box p : from < 5 → type p ∈ request_codes → wire_ok p = true →
  Server_turn from box (request_text p) = serve_request from box p.
Proof.
  intros Hf Ht Hok. destruct (wire_ok_ints p Hok) as (? & ? & ? & ? & ? & ? & ? & ? & ?).
  pose proof (wire_ok_name p Hok) as Hname. rewrite request_text_header by done.
  unfold Server_turn. rewrite read_header_text by done. cbn [which negb].
  unfold serve_request, payload. unfold request_codes in Ht.
  repeat (apply elem_of_cons in Ht as [Ht|Ht]); [..|by apply elem_of_nil in Ht];
    rewrite Ht in *; try specialize (Hname eq_refl); eval_codes; cbv zeta;
    unfold handle_CreateLock, handle_Acquire, handle_Release, handle_DestroyLock,
      handle_CreateCondition, handle_Wait, handle_Signal, handle_Broadcast, handle_DestroyCondition,
      handle_CreateMV, handle_DestroyMV, handle_Set, handle_Get;
    cbn [fromServer serverReply negb ss in_pkt in_mail h_requestID]; read_fields; reflexivity.
Qed.

(** ** The meaning of a reply *)

(** The search for the pending request that a reply to [p] is about. *)
Definition reply_index (p : PendingRequest) : Server → Z :=
  let P := pktHdr p in
  let B := mailHdr p in
  let r := requestID p in
  if type p =? SC_CreateLock then findPendingCreateLockRequest P B r (pname p)
  else if type p =? SC_Acquire then findPendingAcquireLockRequest P B r (lockID p)
  else if type p =? SC_Release then findPendingReleaseLockRequest P B r (lockID p)
  else if type p =? SC_DestroyLock then findPendingDestroyLockRequest P B r (lockID p)
  else if type p =? SC_CreateCondition then findPendingCreateCVRequest P B r (pname p)
  else if type p =? SC_Wait then findPendingWaitRequest P B r (CVID p)
  else if type p =? SC_Signal then findPendingSignalRequest P B r (CVID p)
  else if type p =? SC_Broadcast then findPendingBroadcastRequest P B r (CVID p)
  else if type p =? SC_DestroyCondition then findPendingDestroyCVRequest P B r (CVID p)
  else if type p =? SC_CreateMV then findPendingCreateMVRequest P B r (pname p)
  else if type p =? SC_DestroyMV then findPendingDestroyMVRequest P B r (MVID p)
  else if type p =? SC_Set then findPendingSetMVRequest P B r (MVID p)
  else findPendingGetMVRequest P B r (MVID p).

(** What is done here when every other server said NO: [p] holds what the
    last reply repeats, [q] is the pending request. *)
Definition serve_here (p q : PendingRequest) : M Server unit :=
  let P := pktHdr q in
  let B := mailHdr q in
  if type p =? SC_CreateLock then serverDoCreateLock (pname q) P B
  else if type p =? SC_Acquire then serverDoAcquireLock (lockID p) P B
  else if type p =? SC_Release then serverDoReleaseLock (lockID p) P B
  else if type p =? SC_DestroyLock then serverDoDestroyLock (lockID p)
  else if type p =? SC_CreateCondition then serverDoCreateCV (pname q) P B
  else if type p =? SC_Wait then serverDoWait (CVID p) (lockID p) P B
  else if type p =? SC_Signal then serverDoSignal (CVID p) (lockID p) P B
  else if type p =? SC_Broadcast then serverDoBroadcast (CVID p) (lockID p) P B
  else if type p =? SC_DestroyCondition then serverDoDestroyCV (CVID p)
  else if type p =? SC_CreateMV then serverDoCreateMV (pname q) (MVIndex q) P B
  else if type p =? SC_DestroyMV then serverDoDestroyMV (MVID p)
  else if type p =? SC_Set then serverDoSet (MVID p) (MVIndex p) (MVValue p) P B
  else serverDoGet (MVID p) (MVIndex p) P B.

(** The requests to create the object that [p] names. *)
Definition same_name_index (p : PendingRequest) : Server → Z :=
  if type p =? SC_CreateLock then findPendingCreateLockRequestNamed (pname p)
  else if type p =? SC_CreateCondition then findPendingCreateCVRequestNamed (pname p)
  else findPendingCreateMVRequestNamed (pname p).

(** What follows a YES, and the last NO. *)
Definition after_yes (p : PendingRequest) : M Server unit :=
  if creates (type p) then while_named (λ n, delete_all n (same_name_index p)) else ret ().
Definition after_no (p : PendingRequest) : M Server unit :=
  if creates (type p) then
    while_named (λ n, handle_all n (same_name_index p) (λ q, serve_here p q))
  else ret ().

Definition reply_of (p : PendingRequest) (answer : bool) : string :=
  reply_text (type p) (requestID p) (pktHdr p) (mailHdr p) (payload p) answer.

Lemma reply_of_header p answer :
  reply_of p answer =
  header_text (type p) false (requestID p) (pktHdr p) (mailHdr p) (payload p +:+ " " +:+ print_bool answer).
Proof. done. Qed.

Lemma str_app_assoc a b c : (a +:+ b) +:+ c = a +:+ b +:+ c.
Proof. induction a as [|x a IH]; [done|]. by rewrite !str_app_cons, IH. Qed.

Lemma turn_reply from box p answer : from < 5 → type p ∈ request_codes → wire_ok p = true →
  Server_turn from box (reply_of p answer) =
  on_reply (reply_index p) answer (serve_here p) (after_yes p) (after_no p).
Proof.
  intros Hf Ht Hok. destruct (wire_ok_ints p Hok) as (? & ? & ? & ? & ? & ? & ? & ? & ?).
  pose proof (wire_ok_name p Hok) as Hname. rewrite reply_of_header.
  unfold Server_turn. rewrite read_header_text by done. cbn [which negb].
  unfold payload, reply_index, after_yes, after_no, same_name_index, serve_here. unfold request_codes in Ht.
  repeat (apply elem_of_cons in Ht as [Ht|Ht]); [..|by apply elem_of_nil in Ht];
    unfold creates in *; rewrite Ht in *; try specialize (Hname eq_refl); eval_codes; cbn [orb]; cbv zeta;
    rewrite ?str_app_assoc;
    unfold handle_CreateLock, handle_Acquire, handle_Release, handle_DestroyLock,
      handle_CreateCondition, handle_Wait, handle_Signal, handle_Broadcast, handle_DestroyCondition,
      handle_CreateMV, handle_DestroyMV, handle_Set, handle_Get;
    cbn [fromServer serverReply negb ss in_pkt in_mail h_requestID]; read_fields; reflexivity.
Qed.

(** ** The reply finds its request *)

Lemma match_request_found s j p sc field : Inv s → pendingRequests s !! j = Some p →
  type p = sc → field p = true →
  find_index (match_request sc (pktHdr p) (mailHdr p) (requestID p) field) (pendingRequests s) = Z.of_nat j.
Proof.
  intros Hi Hj Ht Hf.
  assert (match_request sc (pktHdr p) (mailHdr p) (requestID p) field p = true) as Hm
    by (unfold match_request; by rewrite Ht, !Z.eqb_refl).
  destruct (find_index_spec (match_request sc (pktHdr p) (mailHdr p) (requestID p) field)
    (pendingRequests s)) as [[_ Ha]|(k & q & -> & Hk & Hq & _)]; [by rewrite (Ha _ _ Hj) in Hm|].
  f_equal. eapply NoDup_lookup; [apply (pw_id _ (inv_pending _ Hi))|..];
    rewrite list_lookup_fmap, ?Hk, ?Hj; [reflexivity|]. cbn. f_equal.
  unfold match_request in Hq. by destruct (Z.eqb_spec (requestID q) (requestID p)).
Qed.

Lemma reply_index_found p j s : Inv s → pendingRequests s !! j = Some p → type p ∈ request_codes →
  reply_index p s = Z.of_nat j.
Proof.
  intros Hi Hj Ht. unfold reply_index. unfold request_codes in Ht.
  repeat (apply elem_of_cons in Ht as [Ht|Ht]); [..|by apply elem_of_nil in Ht];
    rewrite Ht; eval_codes;
    (eapply match_request_found; [done|done|done|]); cbn; by rewrite ?Z.eqb_refl, ?String.eqb_refl.
Qed.

(** *** Serving keeps the server safe *)

Lemma safe_serve_here p q : safe (serve_here p q).
Proof. unfold serve_here. cbn zeta. repeat (apply safe_if; [auto with safe|]). auto with safe. Qed.

Lemma keeps_serve_here p q : creates (type p) = true → keeps pendingRequests (serve_here p q).
Proof.
  intros Hc. unfold serve_here. cbn zeta.
  unfold creates in Hc. rewrite !orb_true_iff, !Z.eqb_eq in Hc.
  destruct Hc as [[->| ->]| ->]; eval_codes; apply (keeps_pending_creates (pname q) (MVIndex q)).
Qed.

Lemma searches_same_name p : ∃ pred, searches (same_name_index p) pred.
Proof.
  unfold same_name_index. destruct (_ =? _); [|destruct (_ =? _)];
    (eexists; apply searches_refl; intros ?; reflexivity).
Qed.


(** ** Properties *)

(** C5: what one server writes another reads: the turn of the
    dispatch that receives the text of a pending request does what the request
    asks, with the requester, the numbers and the name it was written with. *)
Theorem request_roundtrip from box p : from < 5 → type p ∈ request_codes → wire_ok p = true →
  ∀ s, Server_turn from box (request_text p) s = serve_request from box p s.
Proof. intros Hf Ht Hok s. by rewrite turn_request. Qed.


(** A search finds nothing once what it finds is filtered out. *)
Lemma searches_filtered index pred s l : searches index pred →
  pendingRequests s = filter (λ p, pred p = false) l → index s = -1.
Proof.
  intros Hs Hp. rewrite (Hs s), find_index_None, Hp. intros j p Hj.
  by apply list_elem_of_lookup_2, list_elem_of_filter in Hj as [? _].
Qed.

(** C12: once a creation by name is settled, by a YES or by the
    last NO, no request for the name is left pending: the loops that delete or
    serve the others terminate and leave none. *)
Theorem creation_settled from box p j (answer : bool) s : from < 5 → type p ∈ request_codes →
  creates (type p) = true → wire_ok p = true → Inv s → pendingRequests s !! j = Some p →
  answer = true ∨ noCount p + 1 = sentCount p →
  wp tolerated (Server_turn from box (reply_of p answer))
    (λ _ s', Inv s' ∧ same_name_index p s' = -1) s.
Proof.
  intros Hf Ht Hc Hok Hi Hj Hans. pose proof (reply_index_found p j s Hi Hj Ht) as Hidx.
  pose proof (lookup_lt_Some _ _ _ Hj) as Hlt. destruct (searches_same_name p) as [pred Hpred].
  rewrite (turn_reply from box p answer Hf Ht Hok). unfold on_reply, after_yes, after_no. rewrite Hc.
  apply wp_bind, wp_get. cbn zeta. rewrite Hidx, (proj2 (Z.eqb_neq _ (-1))) by lia.
  apply wp_bind. eapply wp_lift; [by apply vget_Done|]. destruct answer.
  - destruct (deletePendingRequest_spec (Z.of_nat j) s Hi) as (s1 & Hd & Hi1 & _); [lia|].
    apply wp_bind. unfold wp at 1. rewrite Hd. apply wp_bind, wp_get.
    eapply wp_mono; [by apply (delete_all_wp _ _ _ _ Hpred); [|lia]|].
    cbn. intros ? s2 (Hi2 & _ & Hp2). split; [done|by eapply searches_filtered].
  - destruct Hans as [|Hcnt]; [done|].
    apply wp_bind, wp_modify. set (q := with_noCount _ p).
    assert (Inv (with_pending (upd_req q) s)) as Hi1.
    { apply store_req_Inv; [done|]. by eapply names_req_at. }
    replace (noCount q =? sentCount q) with true by (cbn; lia).
    apply wp_bind. eapply wp_mono; [by apply safe_serve_here|]. cbn. intros ? s2 [Hi2 Hpre].
    apply prefix_length in Hpre. rewrite !length_fmap in Hpre. unfold upd_req in Hpre.
    rewrite length_fmap in Hpre.
    destruct (deletePendingRequest_spec (Z.of_nat j) s2 Hi2) as (s3 & Hd & Hi3 & _); [lia|].
    apply wp_bind. unfold wp at 1. rewrite Hd. apply wp_bind, wp_get. eapply wp_mono.
    + apply (handle_all_wp _ _ _ _ Hpred (safe_serve_here p)); [|done|lia].
      intros q'. by apply keeps_serve_here.
    + cbn. intros ? s4 (Hi4 & Hp4). split; [done|by eapply searches_filtered].
Qed.

(** When every other server says NO to an acquire, the
    identifier the client sent is used as a slot of this server: a client that
    asks for lock [i] of machine 0 is told it holds a lock, and the lock it
    got is this server's lock in slot [i], whose identifier is another one. *)
Theorem last_no_wrong_lock from box p j s l : from < 5 → wire_ok p = true → Inv s → 0 < netAddr →
  pendingRequests s !! j = Some p → type p = SC_Acquire → noCount p + 1 = sentCount p →
  entry (table s) (lockID p) l → state l = FREE → lockID p < lockTableSize →
  grantable no_fault (pktHdr p, mailHdr p) →
  checkIfLockIsMineAndGetMyIndex (lockID p) = -1 ∧ lock_global (lockID p) ≠ lockID p ∧
  ∃ s', Server_turn from box (reply_of p false) s = Done ((), s') ∧
    outbox s' = outbox s ++ [mkMail (pktHdr p) (mailHdr p) threadID (stale (print_bool true))
                               (up (sends s) (pktHdr p))] ∧
    ∃ l', entry (table s') (lockID p) l' ∧ holder (lock_abs l') = Some (pktHdr p, mailHdr p).
Proof.
  intros Hf Hok Hi Hnet Hj Ht Hcnt Hl Hfree Hlt Hg. pose proof (proj1 Hl) as Hge.
  unfold lockTableSize in Hlt.
  assert (type p ∈ request_codes) as Hin by (rewrite Ht; by right; left).
  split_and!.
  { unfold checkIfLockIsMineAndGetMyIndex, lockTableSize. rewrite Z.rem_small by lia.
    rewrite Z.sub_diag. cbn. by rewrite (proj2 (Z.eqb_neq 0 netAddr)) by lia. }
  { unfold lock_global, lockTableSize. lia. }
  pose proof (reply_index_found p j s Hi Hj Hin) as Hidx. pose proof (lookup_lt_Some _ _ _ Hj) as Hjl.
  set (q := with_noCount (noCount p + 1) p). set (s1 := with_pending (upd_req q) s).
  assert (Inv s1) as Hi1 by (apply store_req_Inv; [done|by eapply names_req_at]).
  destruct (wp_no_fault _ _ _ (acquire_wp no_fault (lockID p) (pktHdr p, mailHdr p) l s1 Hi1 Hl Hg))
    as ([] & s2 & Hs2 & [Hi2 Hp2 _ _ Ho2 Hl2]).
  destruct (deletePendingRequest_spec (Z.of_nat j) s2 Hi2) as (s3 & Hd & _ & Ht3 & _).
  { rewrite Hp2. cbn. unfold upd_req. rewrite length_fmap. lia. }
  assert (Server_turn from box (reply_of p false) s = Done ((), s3)) as Hturn.
  { rewrite (turn_reply from box p false Hf Hin Hok). unfold on_reply.
    rewrite (bind_Done get _ _ _ _ eq_refl). cbn zeta. rewrite Hidx, (proj2 (Z.eqb_neq _ (-1))) by lia.
    rewrite (bind_Done (lift _) _ s p s) by (unfold lift; by rewrite (vget_Done _ _ _ Hj)).
    rewrite (bind_Done (store_req q) _ s () s1 eq_refl).
    replace (noCount _ =? sentCount _) with true by (cbn; lia).
    assert (serve_here p q s1 = Done ((), s2)) as Hsv by (unfold serve_here; rewrite Ht; exact Hs2).
    rewrite (bind_Done _ _ _ _ _ Hsv), (bind_Done _ _ _ _ _ Hd). unfold after_no, creates. by rewrite Ht. }
  exists s3. split; [exact Hturn|]. unfold lock_after in Hl2. rewrite acquire_keeps in Hl2.
  destruct Hl2 as (l' & He' & Ha' & _). rewrite (lock_abs_free l Hfree) in Ha', Ho2. split.
  - transitivity (outbox s2); [|exact Ho2]. by eapply deletePendingRequest_outbox.
  - exists l'. apply entry_upd_here in He'. rewrite (table_same _ _ Ht3). by rewrite Ha'.
Qed.

End roundtrip.

(** Where this server looks for the lock, the condition variable and the
    monitor variable of an identifier; -1 when it is not its own. *)
Definition route {E : ServerEnv} (id : Z) : Z * Z * Z :=
  (checkIfLockIsMineAndGetMyIndex id, checkIfCVIsMineAndGetMyIndex id, checkIfMVIsMineAndGetMyIndex id).

(** The identifiers servers hand out route themselves: the server
    that created an object finds its slot again in the identifier, and any
    other server sees that the object is not its own. *)
Theorem ids_route (E1 E2 : ServerEnv) i :
  0 <= netAddr (ServerEnv := E1) → 0 <= netAddr (ServerEnv := E2) → 0 <= i < 100 →
  let mine := if netAddr (ServerEnv := E2) =? netAddr (ServerEnv := E1) then i else -1 in
  route (E := E2) (lock_global (E := E1) i) = (mine, mine, mine).
Proof.
  intros H1 H2 Hi. cbn zeta. unfold route, lock_global, checkIfLockIsMineAndGetMyIndex,
    checkIfCVIsMineAndGetMyIndex, checkIfMVIsMineAndGetMyIndex, lockTableSize, CVTableSize, MVTableSize.
  revert H1 H2. generalize (@netAddr E1) as b, (@netAddr E2) as a. intros b a H1 H2.
  assert (Z.rem (b * 100 + i) 100 = i) as ->.
  { rewrite Z.rem_mod_nonneg by lia. rewrite Z.add_comm, Z_mod_plus_full. by apply Z.mod_small. }
  assert (Z.quot (b * 100 + i - i) 100 = b) as ->.
  { replace (b * 100 + i - i) with (b * 100) by lia. by apply Z.quot_mul. }
  rewrite (Z.eqb_sym b a). done.
Qed.

(** ** Examples *)

(** Machine 1, with machine 2 up; it has a lock, and asked machine 2 for lock 0
    of machine 0, which is down. *)
Definition env1 : ServerEnv := {|
  netAddr := 1; threadID := 0; up := λ _ m, (m =? 2) || (4 <? m); garbage := 0; stale := λ x, x
|}.

Definition asking : outcome Server :=
  after (serverAcquireLock (E := env1) 0 7 1)
    (after (createLockNamed (E := env1) "a") (initial_server (λ _, 0))).

Definition asked : PendingRequest := mkPendingRequest 0 7 1 SC_Acquire "" 0 (-1) (-1) (-1) 0 1 0 0.

Lemma asking_Inv : Inv (state_or_empty asking).
Proof.
  apply state_or_empty_Inv, after_Inv; [apply safe_serverAcquireLock| |by vm_compute; eexists].
  apply after_Inv; [apply safe_createLockNamed|apply initial_Inv|by vm_compute; eexists].
Qed.

Lemma asking_asked : pendingRequests (state_or_empty asking) !! 0%nat = Some asked.
Proof. by vm_compute. Qed.

Lemma request_roundtrip_witness :
  Server_turn (E := lone_env) 1 0 "14 1 0 7 1 0" empty_server =
  serve_request (E := lone_env) 1 0 asked empty_server.
Proof.
  exact (request_roundtrip (E := lone_env) 1 0 asked eq_refl
    (list_elem_of_further _ _ _ (list_elem_of_here _ _)) eq_refl empty_server).
Defined.


Lemma last_no_wrong_lock_witness :
  checkIfLockIsMineAndGetMyIndex (E := env1) 0 = -1 ∧ lock_global (E := env1) 0 ≠ 0 ∧
  ∃ s', Server_turn (E := env1) 2 0 "14 0 0 7 1 0 0" (state_or_empty asking) = Done ((), s') ∧
    outbox s' = outbox (state_or_empty asking) ++ [mkMail 7 1 0 "1" true] ∧
    ∃ l', entry (table s') 0 l' ∧ holder (lock_abs l') = Some (7, 1).
Proof.
  apply (last_no_wrong_lock (E := env1) 2 0 asked 0 (state_or_empty asking) (new_ServerLock (E := env1) "a")
    eq_refl eq_refl asking_Inv eq_refl asking_asked eq_refl eq_refl); [|done|done|].
  - by split; [|vm_compute].
  - by apply fits_mail_sendable.
Defined.

(** Two clients want a lock of the same name. *)
Definition creating : outcome Server :=
  after (serverCreateLock (E := env1) "x" 8 2)
    (after (serverCreateLock (E := env1) "x" 7 1) (initial_server (λ _, 0))).

Definition create_x : PendingRequest := mkPendingRequest 0 7 1 SC_CreateLock "x" (-1) (-1) (-1) (-1) 0 1 0 0.

Lemma creating_Inv : Inv (state_or_empty creating).
Proof.
  apply state_or_empty_Inv, after_Inv; [apply safe_serverCreateLock| |by vm_compute; eexists].
  apply after_Inv; [apply safe_serverCreateLock|apply initial_Inv|by vm_compute; eexists].
Qed.

Lemma creation_settled_witness :
  wp tolerated (Server_turn (E := env1) 2 0 "13 0 0 7 1 x 0")
    (λ _ s', Inv s' ∧ same_name_index create_x s' = -1) (state_or_empty creating).
Proof.
  exact (creation_settled (E := env1) 2 0 create_x 0 false (state_or_empty creating) eq_refl
    (list_elem_of_here _ _) eq_refl eq_refl creating_Inv eq_refl (or_intror eq_refl)).
Defined.

Lemma ids_route_witness : route (E := env1) 105 = (5, 5, 5).
Proof. apply (ids_route env1 env1 5); vm_compute; intuition discriminate. Defined.
