(* ===== verification/Synch.v ===== *)
(** * Synch: semaphores, locks and condition variables of threads/synch.cc

    The routines run with interrupts off, so each is atomic up to the
    [Sleep()] inside it ([Broadcast] alone has interrupts on between the
    signals of its loop, so that in the system below it is a caller of
    [Signal]).  A thread that sleeps leaves a [resumption]: what is
    left of the routine it sleeps in.  The scheduler of threads/scheduler.cc
    picks the next thread from the ready list and resumes it. *)
From S2P Require Import Prelude.
From stdpp Require Import functions base list.
From Stdlib Require Import ZArith Lia ZifyBool.

Local Open Scope Z_scope.

(** ** Data *)

Definition tid : Type := nat.

Inductive LockState := FREE | BUSY.
#[export] Instance LockState_eq_dec : EqDecision LockState.
Proof. solve_decision. Defined.

Record Semaphore := mkSemaphore { value : Z; sem_queue : list tid }.
Record Lock := mkLock { lockState : LockState; lockOwner : option tid; lock_queue : list tid }.
Record Condition := mkCondition { waitingLock : option nat; cond_queue : list tid }.

(** What is left of a routine after its [Sleep()]: the test of [P] again, the
    return from [Acquire], the [Acquire] of [Wait]. *)
Inductive resumption :=
| InP (s : nat)
| InAcquire (l : nat)
| InWait (c l : nat).
#[export] Instance resumption_eq_dec : EqDecision resumption.
Proof. solve_decision. Defined.

Record Kernel := mkKernel {
  current : option tid;           (* [None] inside the loop of [Thread::Sleep] *)
  readyList : list tid;
  suspended : tid → option resumption;
  sems : nat → Semaphore;
  locks : nat → Lock;
  conds : nat → Condition
}.

Inductive status := Returned | Slept.

Definition new_Semaphore (initialValue : Z) : Semaphore := mkSemaphore initialValue [].
Definition new_Lock : Lock := mkLock FREE None [].
Definition new_Condition : Condition := mkCondition None [].

Definition with_current (t : option tid) (K : Kernel) : Kernel :=
  mkKernel t (readyList K) (suspended K) (sems K) (locks K) (conds K).
Definition with_ready (l : list tid) (K : Kernel) : Kernel :=
  mkKernel (current K) l (suspended K) (sems K) (locks K) (conds K).
Definition with_suspended (t : tid) (r : option resumption) (K : Kernel) : Kernel :=
  mkKernel (current K) (readyList K) (<[t := r]> (suspended K)) (sems K) (locks K) (conds K).
Definition with_sem (i : nat) (x : Semaphore) (K : Kernel) : Kernel :=
  mkKernel (current K) (readyList K) (suspended K) (<[i := x]> (sems K)) (locks K) (conds K).
Definition with_lock (i : nat) (x : Lock) (K : Kernel) : Kernel :=
  mkKernel (current K) (readyList K) (suspended K) (sems K) (<[i := x]> (locks K)) (conds K).
Definition with_cond (i : nat) (x : Condition) (K : Kernel) : Kernel :=
  mkKernel (current K) (readyList K) (suspended K) (sems K) (locks K) (<[i := x]> (conds K)).

(** ** The scheduler *)

Definition ReadyToRun (t : tid) : M Kernel unit :=
  modify (λ K, with_ready (readyList K ++ [t]) K).

(** [Scheduler::FindNextToRun] *)
Definition FindNextToRun : M Kernel (option tid) :=
  let! K := get in
  match readyList K with
  | [] => ret None
  | t :: q => put (with_ready q K) ;;; ret (Some t)
  end.

(** [currentThread]; there is none while the processor idles. *)
Definition currentThread : M Kernel tid :=
  let! K := get in
  match current K with Some t => ret t | None => fail NullDeref end.

(** [Thread::Sleep] up to the switch; [r] is what the thread does when it is
    switched to again. *)
Definition Sleep (r : resumption) : M Kernel unit :=
  let! t := currentThread in
  modify (λ K, with_suspended t (Some r) (with_current None K)).

(** ** The routines of synch.cc *)

Definition P (s : nat) : M Kernel status :=
  let! t := currentThread in
  let! K := get in
  let x := sems K s in
  if value x =? 0 then
    put (with_sem s (mkSemaphore (value x) (sem_queue x ++ [t])) K) ;;;
    Sleep (InP s) ;;; ret Slept
  else
    put (with_sem s (mkSemaphore (value x - 1) (sem_queue x)) K) ;;; ret Returned.

Definition V (s : nat) : M Kernel status :=
  let! K := get in
  let x := sems K s in
  match sem_queue x with
  | t :: q =>
      put (with_sem s (mkSemaphore (value x) q) K) ;;;
      ReadyToRun t ;;;
      modify (λ K, with_sem s (mkSemaphore (value x + 1) q) K) ;;; ret Returned
  | [] => put (with_sem s (mkSemaphore (value x + 1) []) K) ;;; ret Returned
  end.

Definition isHeldByCurrentThread (l : nat) : M Kernel bool :=
  let! t := currentThread in
  let! K := get in ret (bool_decide (lockOwner (locks K l) = Some t)).

Definition isBusy (l : nat) : M Kernel bool :=
  let! K := get in ret (bool_decide (lockState (locks K l) = BUSY)).

Definition Acquire (l : nat) : M Kernel status :=
  let! t := currentThread in
  let! held := isHeldByCurrentThread l in
  if held : bool then ret Returned
  else
    let! K := get in
    let x := locks K l in
    match lockState x with
    | FREE => put (with_lock l (mkLock BUSY (Some t) (lock_queue x)) K) ;;; ret Returned
    | BUSY =>
        put (with_lock l (mkLock (lockState x) (lockOwner x) (lock_queue x ++ [t])) K) ;;;
        Sleep (InAcquire l) ;;; ret Slept
    end.

Definition Release (l : nat) : M Kernel status :=
  let! held := isHeldByCurrentThread l in
  if negb held then ret Returned
  else
    let! K := get in
    let x := locks K l in
    match lock_queue x with
    | t :: q =>
        put (with_lock l (mkLock (lockState x) (Some t) q) K) ;;;
        ReadyToRun t ;;; ret Returned
    | [] => put (with_lock l (mkLock FREE None []) K) ;;; ret Returned
    end.

(** [conditionLock] is [None] when the caller passes NULL. *)
Definition Wait (c : nat) (conditionLock : option nat) : M Kernel status :=
  let! t := currentThread in
  match conditionLock with
  | None => ret Returned
  | Some l =>
      let! K := get in
      let x := conds K c in
      let waiting := match waitingLock x with None => Some l | w => w end in
      let x := mkCondition waiting (cond_queue x) in
      put (with_cond c x K) ;;;
      if negb (bool_decide (Some l = waitingLock x)) then ret Returned
      else
        modify (with_cond c (mkCondition (waitingLock x) (cond_queue x ++ [t]))) ;;;
        let! _r := Release l in
        Sleep (InWait c l) ;;; ret Slept
  end.

Definition Signal (c : nat) (conditionLock : option nat) : M Kernel status :=
  let! K := get in
  let x := conds K c in
  match waitingLock x with
  | None => ret Returned
  | Some w =>
      if negb (bool_decide (Some w = conditionLock)) then ret Returned
      else
        match cond_queue x with
        | [] => fail NullDeref          (* [ReadyToRun(NULL)] *)
        | t :: q =>
            ReadyToRun t ;;;
            modify (with_cond c (mkCondition (match q with [] => None | _ => Some w end) q)) ;;;
            ret Returned
        end
  end.

(** [while(!queue->IsEmpty()) Signal(conditionLock);] *)
Fixpoint Broadcast_loop (fuel : nat) (c : nat) (conditionLock : option nat) : M Kernel status :=
  match fuel with
  | O => fail OutOfFuel
  | S fuel' =>
      let! K := get in
      match cond_queue (conds K c) with
      | [] => ret Returned
      | _ => let! _r := Signal c conditionLock in Broadcast_loop fuel' c conditionLock
      end
  end.

Definition Broadcast (fuel : nat) (c : nat) (conditionLock : option nat) : M Kernel status :=
  let! K := get in
  match waitingLock (conds K c) with
  | None => ret Returned
  | Some _ => Broadcast_loop fuel c conditionLock
  end.

(** ** Switching *)

(** The rest of the routine a thread sleeps in. *)
Definition resume (r : option resumption) : M Kernel status :=
  match r with
  | None => ret Returned
  | Some (InP s) => P s
  | Some (InAcquire l) => ret Returned
  | Some (InWait c l) => Acquire l
  end.

(** [Scheduler::Run(nextThread)]: [currentThread] changes, and the thread goes
    on where it left. *)
Definition Run (nextThread : tid) : M Kernel status :=
  let! K := get in
  put (with_suspended nextThread None (with_current (Some nextThread) K)) ;;;
  resume (suspended K nextThread).

(** The end of [Thread::Sleep]: switch to the next ready thread, or idle. *)
Definition dispatch : M Kernel (option status) :=
  let! next := FindNextToRun in
  match next with
  | None => ret None
  | Some t => let! st := Run t in ret (Some st)
  end.

(** [Thread::Yield]; the status is that of the thread switched to. *)
Definition Yield : M Kernel status :=
  let! t := currentThread in
  let! next := FindNextToRun in
  match next with
  | None => ret Returned
  | Some nextThread => ReadyToRun t ;;; Run nextThread
  end.

(** ** The system *)

(** What the running thread can call. *)
Inductive call :=
| CallP (s : nat) | CallV (s : nat)
| CallAcquire (l : nat) | CallRelease (l : nat)
| CallWait (c : nat) (l : option nat) | CallSignal (c : nat) (l : option nat).

Definition run_call (x : call) : M Kernel status :=
  match x with
  | CallP s => P s | CallV s => V s
  | CallAcquire l => Acquire l | CallRelease l => Release l
  | CallWait c l => Wait c l | CallSignal c l => Signal c l
  end.

(** One step: the running thread makes a call or yields, the idle processor
    switches to the next ready thread, or the handler of an interrupt signals a
    semaphore, whether a thread runs or not. *)
Inductive step (K K' : Kernel) : Prop :=
| step_call x st : is_Some (current K) → run_call x K = Done (st, K') → step K K'
| step_yield st : is_Some (current K) → Yield K = Done (st, K') → step K K'
| step_dispatch st : current K = None → dispatch K = Done (st, K') → step K K'
| step_interrupt s st : V s K = Done (st, K') → step K K'.

(** A schedule, executed. *)
Inductive event := Call (x : call) | YieldNow | Dispatch | InterruptV (s : nat).

Definition run_event (e : event) : M Kernel unit :=
  match e with
  | Call x => let! _t := currentThread in let! _r := run_call x in ret ()
  | YieldNow => let! _r := Yield in ret ()
  | Dispatch =>
      let! K := get in
      match current K with Some _ => fail AssertFailed | None => let! _r := dispatch in ret () end
  | InterruptV s => let! _r := V s in ret ()
  end.

Fixpoint run_events (es : list event) (K : Kernel) : Kernel :=
  match es with
  | [] => K
  | e :: es' => match run_event e K with Done (_, K') => run_events es' K' | Fault _ => K end
  end.

(** The start: thread 0 runs, the threads [ts] are ready, and no routine of
    this file has been called yet. *)
Definition initial (ts : list tid) (values : nat → Z) : Kernel :=
  mkKernel (Some 0%nat) ts (λ _, None) (λ s, new_Semaphore (values s)) (λ _, new_Lock)
    (λ _, new_Condition).

Inductive reachable (ts : list tid) (values : nat → Z) : Kernel → Prop :=
| reach_init : reachable ts values (initial ts values)
| reach_step K K' : reachable ts values K → step K K' → reachable ts values K'.

(** ** The invariant *)

(** What a thread can sleep on. *)
Inductive object := OSem (s : nat) | OLock (l : nat) | OCond (c : nat).
#[export] Instance object_eq_dec : EqDecision object.
Proof. solve_decision. Defined.

Definition queue_of (K : Kernel) (o : object) : list tid :=
  match o with
  | OSem s => sem_queue (sems K s)
  | OLock l => lock_queue (locks K l)
  | OCond c => cond_queue (conds K c)
  end.

Definition waits (r : resumption) : object :=
  match r with InP s => OSem s | InAcquire l => OLock l | InWait c _ => OCond c end.

(** Every thread is in one place: it runs, is ready, or sleeps in the queue of
    the object its resumption names. *)
Record places (ts : list tid) (cur : option tid) (ready : list tid)
    (susp : tid → option resumption) (q : object → list tid) : Prop := {
  pl_queue : ∀ o t, t ∈ q o → ∃ r, susp t = Some r ∧ waits r = o;
  pl_nodup : ∀ o, NoDup (q o);
  pl_ready : NoDup ready;
  pl_ready_queue : ∀ t o, t ∈ ready → t ∉ q o;
  pl_current : ∀ t, cur = Some t → susp t = None ∧ t ∉ ready;
  pl_susp : ∀ t r, susp t = Some r → t ∈ ready ∨ t ∈ q (waits r);
  pl_all : ∀ t, t ∈ ts → cur = Some t ∨ t ∈ ready ∨ ∃ o, t ∈ q o
}.

(** A lock is held exactly when it is busy, a free one has no waiters, its
    owner does not wait for it, and a thread woken in [Acquire] owns it. *)
Record lock_inv (l : nat) (x : Lock) (ready : list tid) (susp : tid → option resumption) : Prop := {
  li_owner : lockState x = BUSY ↔ is_Some (lockOwner x);
  li_free : lockState x = FREE → lock_queue x = [];
  li_apart : ∀ t, lockOwner x = Some t → t ∉ lock_queue x;
  li_granted : ∀ t, susp t = Some (InAcquire l) → t ∈ ready → lockOwner x = Some t
}.

Record cond_inv (c : nat) (x : Condition) (susp : tid → option resumption) : Prop := {
  ci_tied : waitingLock x = None ↔ cond_queue x = [];
  ci_lock : ∀ t, t ∈ cond_queue x → ∃ l, susp t = Some (InWait c l) ∧ waitingLock x = Some l
}.

(** The threads woken in [P] that have not run yet. *)
Definition woken (s : nat) (ready : list tid) (susp : tid → option resumption) : Z :=
  Z.of_nat (length (filter (λ t, susp t = Some (InP s)) ready)).

(** The value is never negative, and sleeping threads are never left alone
    with a positive value: as many woken ones are on their way, up to [d]. *)
Record sem_inv (d : Z) (s : nat) (x : Semaphore) (ready : list tid)
    (susp : tid → option resumption) : Prop := {
  si_value : 0 <= value x;
  si_woken : sem_queue x ≠ [] → value x <= woken s ready susp + d
}.

Record kinv_with (d : nat → Z) (ts : list tid) (K : Kernel) : Prop := {
  k_places : places ts (current K) (readyList K) (suspended K) (queue_of K);
  k_locks : ∀ l, lock_inv l (locks K l) (readyList K) (suspended K);
  k_conds : ∀ c, cond_inv c (conds K c) (suspended K);
  k_sems : ∀ s, sem_inv (d s) s (sems K s) (readyList K) (suspended K)
}.

Definition kinv : list tid → Kernel → Prop := kinv_with (λ _, 0).

(** ** Threads keep their place *)

Section places.
Context {ts : list tid}.
Implicit Types (ready : list tid) (susp : tid → option resumption) (q : object → list tid).

Lemma places_ext cur ready susp q q' : (∀ o, q' o = q o) →
  places ts cur ready susp q → places ts cur ready susp q'.
Proof. intros He []. constructor; intros *; rewrite ?He; eauto. setoid_rewrite He. eauto. Qed.

Lemma places_block t ready susp q q' o r : places ts (Some t) ready susp q → waits r = o →
  q' o = q o ++ [t] → (∀ o', o' ≠ o → q' o' = q o') →
  places ts None ready (<[t := Some r]> susp) q'.
Proof.
  intros [Hq Hnd Hr Hrq Hc Hs Ha] Hw Ho Hne. destruct (Hc t eq_refl) as [Hst Htr].
  assert (∀ o', t ∉ q o') as Htq by (intros o' (r' & ? & _)%Hq; congruence).
  assert (∀ o' t', t' ∈ q' o' ↔ t' ∈ q o' ∨ (t' = t ∧ o' = o)) as Hin.
  { intros o' t'. destruct (decide (o' = o)) as [->|]; [rewrite Ho, elem_of_app, list_elem_of_singleton|
      rewrite Hne by done]; naive_solver. }
  constructor; [| |done| |done| |].
  - intros o' t' [Ht'|[-> ->]]%Hin; [|exists r; by rewrite fn_lookup_insert].
    destruct (decide (t' = t)) as [->|]; [by apply Htq in Ht'|]. rewrite fn_lookup_insert_ne by done. auto.
  - intros o'. destruct (decide (o' = o)) as [->|]; [|by rewrite Hne].
    rewrite Ho. apply NoDup_app. split_and!; [done| |apply NoDup_singleton].
    intros t' Ht' ->%list_elem_of_singleton. by eapply Htq.
  - intros t' o' Ht' [?|[-> _]]%Hin; [by eapply Hrq|done].
  - intros t' r'. rewrite Hin. destruct (decide (t' = t)) as [->|].
    + rewrite fn_lookup_insert. intros [= <-]. auto.
    + rewrite fn_lookup_insert_ne by done. intros ?%Hs. tauto.
  - intros t' [[= ->]|[?|[o' ?]]]%Ha; right; [right|by left|right]; setoid_rewrite Hin; eauto.
Qed.

Lemma places_wake cur ready susp q q' o t rest : places ts cur ready susp q → q o = t :: rest →
  q' o = rest → (∀ o', o' ≠ o → q' o' = q o') → places ts cur (ready ++ [t]) susp q'.
Proof.
  intros [Hq Hnd Hr Hrq Hc Hs Ha] Ho Ho' Hne.
  assert (t ∈ q o) as Ht by (rewrite Ho; by left).
  destruct (Hq o t Ht) as (r & Hst & Hw).
  pose proof (Hnd o) as Hno. rewrite Ho in Hno. apply NoDup_cons in Hno as [Htn Hno].
  assert (∀ o' t', t' ∈ q' o' ↔ t' ∈ q o' ∧ t' ≠ t) as Hin.
  { intros o' t'. destruct (decide (o' = o)) as [->|].
    - rewrite Ho', Ho, elem_of_cons. naive_solver.
    - rewrite Hne by done. split; [|tauto]. intros Ht'. split; [done|]. intros ->.
      destruct (Hq _ _ Ht') as (r' & ? & ?). congruence. }
  constructor.
  - intros o' t' [? _]%Hin. auto.
  - intros o'. destruct (decide (o' = o)) as [->|]; [by rewrite Ho'|by rewrite Hne].
  - apply NoDup_app. split_and!; [done| |apply NoDup_singleton].
    intros t' Ht' ->%list_elem_of_singleton. by eapply Hrq.
  - intros t' o'. rewrite elem_of_app, list_elem_of_singleton, Hin. naive_solver.
  - intros t' Ht'. rewrite elem_of_app, list_elem_of_singleton. destruct (Hc t' Ht'). naive_solver.
  - intros t' r' Ht'. rewrite elem_of_app, list_elem_of_singleton, Hin.
    destruct (decide (t' = t)); [naive_solver|]. destruct (Hs _ _ Ht'); tauto.
  - intros t' Ht'. rewrite elem_of_app, list_elem_of_singleton. setoid_rewrite Hin.
    destruct (decide (t' = t)); [tauto|]. destruct (Ha _ Ht') as [?|[?|[o' ?]]]; eauto.
Qed.

Lemma places_dispatch t ready susp q : places ts None (t :: ready) susp q →
  places ts (Some t) ready (<[t := None]> susp) q.
Proof.
  intros [Hq Hnd Hr Hrq Hc Hs Ha]. apply NoDup_cons in Hr as [Htr Hr].
  assert (∀ o, t ∉ q o) as Htq by (intros o; apply Hrq; by left).
  constructor; [|done|done| | | |].
  - intros o t' Ht'. rewrite fn_lookup_insert_ne; [auto|]. intros <-. by eapply Htq.
  - intros t' o ?. apply Hrq. by right.
  - intros t' [= <-]. by rewrite fn_lookup_insert.
  - intros t' r. destruct (decide (t' = t)) as [->|]; [by rewrite fn_lookup_insert|].
    rewrite fn_lookup_insert_ne by done. intros [[->|?]%elem_of_cons|?]%Hs; tauto.
  - intros t' [?|[[->|?]%elem_of_cons|?]]%Ha; naive_solver.
Qed.

Lemma places_yield t ready susp q : places ts (Some t) ready susp q →
  places ts None (ready ++ [t]) susp q.
Proof.
  intros [Hq Hnd Hr Hrq Hc Hs Ha]. destruct (Hc t eq_refl) as [Hst Htr].
  assert (∀ o', t ∉ q o') as Htq by (intros o' (r' & ? & _)%Hq; congruence).
  constructor; [done|done| | |done| |].
  - apply NoDup_app. split_and!; [done| |apply NoDup_singleton].
    by intros t' Ht' ->%list_elem_of_singleton.
  - intros t' o. rewrite elem_of_app, list_elem_of_singleton. intros [?| ->]; auto.
  - intros t' r Ht'. rewrite elem_of_app. destruct (Hs _ _ Ht'); tauto.
  - intros t' Ht'. rewrite elem_of_app, list_elem_of_singleton.
    destruct (Ha _ Ht') as [[= <-]|[?|?]]; tauto.
Qed.
End places.

(** ** The objects while threads move *)

Lemma li_block l x ready susp t r : t ∉ ready → lock_inv l x ready susp →
  lock_inv l x ready (<[t := r]> susp).
Proof.
  intros Ht []. constructor; [done..|]. intros t' Hs Ht'. apply li_granted0; [|done].
  rewrite fn_lookup_insert_ne in Hs; [done|]. by intros <-.
Qed.

Lemma li_ready l x ready susp t : susp t ≠ Some (InAcquire l) → lock_inv l x ready susp →
  lock_inv l x (ready ++ [t]) susp.
Proof.
  intros Ht []. constructor; [done..|]. intros t' Hs.
  rewrite elem_of_app, list_elem_of_singleton. intros [?| ->]; auto. done.
Qed.

Lemma li_dispatch l x ready susp t : t ∉ ready → lock_inv l x (t :: ready) susp →
  lock_inv l x ready (<[t := None]> susp).
Proof.
  intros Ht Hl. apply li_block; [done|]. destruct Hl. constructor; [done..|].
  intros t' Hs Ht'. apply li_granted0; [done|by right].
Qed.

Lemma ci_susp c x susp t r : t ∉ cond_queue x → cond_inv c x susp → cond_inv c x (<[t := r]> susp).
Proof.
  intros Ht []. constructor; [done|]. intros t' Ht'. destruct (ci_lock0 t' Ht') as (l & ? & ?).
  exists l. rewrite fn_lookup_insert_ne; [done|]. by intros <-.
Qed.

Lemma woken_susp s ready susp t r : t ∉ ready → woken s ready (<[t := r]> susp) = woken s ready susp.
Proof.
  intros Ht. unfold woken. do 2 f_equal. induction ready as [|t' ready IH]; [done|].
  apply not_elem_of_cons in Ht as [Hne Ht]. rewrite !filter_cons.
  rewrite fn_lookup_insert_ne by done. by rewrite IH.
Qed.

Lemma woken_app s ready susp t : woken s (ready ++ [t]) susp =
  woken s ready susp + (if decide (susp t = Some (InP s)) then 1 else 0).
Proof.
  unfold woken. rewrite filter_app, length_app, filter_cons, filter_nil. case_decide; cbn; lia.
Qed.

Lemma woken_cons s ready susp t : woken s (t :: ready) susp =
  (if decide (susp t = Some (InP s)) then 1 else 0) + woken s ready susp.
Proof. unfold woken. rewrite filter_cons. case_decide; cbn [length]; lia. Qed.

Lemma woken_nonneg s ready susp : 0 <= woken s ready susp.
Proof. unfold woken. lia. Qed.

Lemma si_susp d s x ready susp t r : t ∉ ready → sem_inv d s x ready susp →
  sem_inv d s x ready (<[t := r]> susp).
Proof. intros Ht []. constructor; [done|]. by rewrite woken_susp. Qed.

Lemma si_ready d s x ready susp t : sem_inv d s x ready susp → sem_inv d s x (ready ++ [t]) susp.
Proof.
  intros []. constructor; [done|]. rewrite woken_app. intros ?%si_woken0. case_decide; lia.
Qed.

Lemma si_dispatch s x ready susp t : t ∉ ready → sem_inv 0 s x (t :: ready) susp →
  sem_inv (if decide (susp t = Some (InP s)) then 1 else 0) s x ready (<[t := None]> susp).
Proof.
  intros Ht []. constructor; [done|]. rewrite woken_susp by done. rewrite woken_cons in si_woken0.
  intros ?%si_woken0. case_decide; lia.
Qed.

Lemma si_weaken d d' s x ready susp : d <= d' → sem_inv d s x ready susp → sem_inv d' s x ready susp.
Proof. intros Hd []. constructor; [done|]. intros ?%si_woken0. lia. Qed.

Lemma queue_of_sem s x K o : queue_of (with_sem s x K) o =
  if decide (o = OSem s) then sem_queue x else queue_of K o.
Proof.
  destruct o as [s'|l|c]; cbn; case_decide; simplify_eq; try done.
  - by rewrite fn_lookup_insert.
  - rewrite fn_lookup_insert_ne; congruence.
Qed.
Lemma queue_of_lock l x K o : queue_of (with_lock l x K) o =
  if decide (o = OLock l) then lock_queue x else queue_of K o.
Proof.
  destruct o as [s|l'|c]; cbn; case_decide; simplify_eq; try done.
  - by rewrite fn_lookup_insert.
  - rewrite fn_lookup_insert_ne; congruence.
Qed.
Lemma queue_of_cond c x K o : queue_of (with_cond c x K) o =
  if decide (o = OCond c) then cond_queue x else queue_of K o.
Proof.
  destruct o as [s|l|c']; cbn; case_decide; simplify_eq; try done.
  - by rewrite fn_lookup_insert.
  - rewrite fn_lookup_insert_ne; congruence.
Qed.

(** A goal about every object after an update of one: that one, then the rest. *)
Ltac by_object :=
  let j := fresh "j" in intros j;
  lazymatch goal with
  | |- context [(<[?i := ?x]> ?f) j] =>
      destruct (decide (j = i)) as [->|?Hj];
      [rewrite fn_lookup_insert|rewrite fn_lookup_insert_ne by done]
  end.

(** ** The routines keep the invariant *)

Lemma wp_currentThread t K (Q : tid → Kernel → Prop) : current K = Some t → Q t K →
  wp no_fault currentThread Q K.
Proof. intros Hc HQ. unfold currentThread. apply wp_bind, wp_get. rewrite Hc. by apply wp_ret. Qed.

Lemma wp_Sleep t r K (Q : unit → Kernel → Prop) : current K = Some t →
  Q () (with_suspended t (Some r) (with_current None K)) → wp no_fault (Sleep r) Q K.
Proof.
  intros Hc HQ. unfold Sleep. apply wp_bind, (wp_currentThread t); [done|]. by apply wp_modify.
Qed.

Lemma wp_held l t K (Q : bool → Kernel → Prop) : current K = Some t →
  Q (bool_decide (lockOwner (locks K l) = Some t)) K → wp no_fault (isHeldByCurrentThread l) Q K.
Proof.
  intros Hc HQ. unfold isHeldByCurrentThread. apply wp_bind, (wp_currentThread t); [done|].
  by apply wp_bind, wp_get, wp_ret.
Qed.

(** After a routine of thread [t]: it runs on, or sleeps. *)
Definition post (ts : list tid) (t : tid) (st : status) (K : Kernel) : Prop :=
  kinv ts K ∧ current K = match st with Returned => Some t | Slept => None end.

Section routines.
Context {ts : list tid}.

Lemma current_facts d K t : kinv_with d ts K → current K = Some t →
  t ∉ readyList K ∧ suspended K t = None ∧ ∀ o, t ∉ queue_of K o.
Proof.
  intros Hk Hc. destruct (pl_current _ _ _ _ _ (k_places _ _ _ Hk) t Hc) as [Hs Hr].
  split_and!; [done..|]. intros o (r & ? & _)%(pl_queue _ _ _ _ _ (k_places _ _ _ Hk)). congruence.
Qed.

(** The first of a queue is suspended on that object and not ready. *)
Lemma head_facts d K o t q : kinv_with d ts K → queue_of K o = t :: q →
  t ∉ readyList K ∧ ∃ r, suspended K t = Some r ∧ waits r = o.
Proof.
  intros Hk Hq. assert (t ∈ queue_of K o) as Ht by (rewrite Hq; by left). split.
  - intros Hr. by apply (pl_ready_queue _ _ _ _ _ (k_places _ _ _ Hk) t o).
  - by apply (pl_queue _ _ _ _ _ (k_places _ _ _ Hk)).
Qed.

(** [P], possibly by the thread that was just woken in it. *)
Lemma P_kinv s t K : kinv_with (λ s', if decide (s' = s) then 1 else 0) ts K → current K = Some t →
  wp no_fault (P s) (post ts t) K.
Proof.
  intros Hk Hc. destruct (current_facts _ K t Hk Hc) as (Htr & Hts & Htq). destruct Hk as [Hp Hl Hcv Hs].
  pose proof (Hs s) as Hsv. rewrite decide_True in Hsv by done.
  assert (∀ s', sem_inv (if decide (s' = s) then 1 else 0) s' (sems K s') (readyList K) (suspended K) →
    s' ≠ s → sem_inv 0 s' (sems K s') (readyList K) (suspended K)) as Hother.
  { intros s' H Hne. by rewrite decide_False in H by done. }
  unfold P. apply wp_bind, (wp_currentThread t); [done|]. apply wp_bind, wp_get. cbn zeta.
  destruct (Z.eqb_spec (value (sems K s)) 0) as [Hv|Hv].
  - apply wp_bind, wp_put, wp_bind, (wp_Sleep t); [done|]. apply wp_ret. split; [|done]. constructor; cbn.
    + rewrite Hc in Hp. eapply places_block; [exact Hp|reflexivity|..].
      * cbn. by rewrite fn_lookup_insert.
      * intros o Hne. destruct o as [s'|l|c]; try done. cbn in *. by rewrite fn_lookup_insert_ne by congruence.
    + intros l. by apply li_block.
    + intros c. apply ci_susp; [apply (Htq (OCond c))|done].
    + intros s'. apply si_susp; [done|]. destruct (decide (s' = s)) as [->|].
      * rewrite fn_lookup_insert. constructor; cbn; [lia|]. intros _.
        pose proof (woken_nonneg s (readyList K) (suspended K)). lia.
      * rewrite fn_lookup_insert_ne by done. by apply Hother.
  - apply wp_bind, wp_put, wp_ret. split; [|done]. constructor; cbn; [|done|done|].
    + eapply places_ext; [|exact Hp]. intros o. rewrite queue_of_sem. by case_decide; subst.
    + intros s'. destruct (decide (s' = s)) as [->|].
      * rewrite fn_lookup_insert. destruct Hsv as [Hv0 Hw]. constructor; cbn; [lia|].
        intros Hq. specialize (Hw Hq). lia.
      * rewrite fn_lookup_insert_ne by done. by apply Hother.
Qed.

Lemma kinv_slack d K : (∀ s, 0 <= d s) → kinv ts K → kinv_with d ts K.
Proof. intros Hd []. constructor; [done..|]. intros s. by apply (si_weaken 0). Qed.

Lemma V_kinv s K : kinv ts K →
  wp no_fault (V s) (λ st K', st = Returned ∧ kinv ts K' ∧ current K' = current K) K.
Proof.
  intros Hk. pose proof Hk as [Hp Hl Hcv Hs]. unfold V. apply wp_bind, wp_get. cbn zeta.
  destruct (Hs s) as [Hv Hw]. destruct (sem_queue (sems K s)) as [|w q] eqn:Hq.
  - apply wp_bind, wp_put, wp_ret. split; [done|]. split; [|done]. constructor; cbn; [|done|done|].
    + eapply places_ext; [|exact Hp]. intros o. rewrite queue_of_sem. case_decide; subst; cbn; by rewrite ?Hq.
    + by_object; [|done]. constructor; cbn; [lia|done].
  - destruct (head_facts _ K (OSem s) w q Hk Hq) as (Hwr & r & Hr & Hwt).
    assert (suspended K w = Some (InP s)) as Hws by (destruct r; cbn in *; congruence).
    apply wp_bind, wp_put, wp_bind, wp_modify, wp_bind, wp_modify, wp_ret. split; [done|]. split; [|done].
    constructor; cbn.
    + eapply (places_wake _ _ _ _ _ (OSem s)); [exact Hp|exact Hq|..].
      * cbn. by rewrite fn_lookup_insert.
      * intros o Hne. destruct o as [s'|l|c]; try done. cbn in *. by rewrite !fn_lookup_insert_ne by congruence.
    + intros l. apply li_ready; [congruence|done].
    + done.
    + by_object; [|rewrite fn_lookup_insert_ne by done; by apply si_ready].
      constructor; cbn; [lia|]. intros _. rewrite woken_app, decide_True by done.
      specialize (Hw ltac:(done)). lia.
Qed.

(** An [Acquire] that returns leaves the thread the owner. *)
Lemma Acquire_kinv l t K : kinv ts K → current K = Some t →
  wp no_fault (Acquire l)
    (λ st K', post ts t st K' ∧ (st = Returned → lockOwner (locks K' l) = Some t)) K.
Proof.
  intros Hk Hc. destruct (current_facts _ K t Hk Hc) as (Htr & Hts & Htq). pose proof Hk as [Hp Hl Hcv Hs].
  destruct (Hl l) as [Ho Hf Ha Hg]. unfold Acquire. apply wp_bind, (wp_currentThread t); [done|].
  apply wp_bind, (wp_held _ t); [done|]. case_bool_decide as Hown; [by apply wp_ret|].
  apply wp_bind, wp_get. cbn zeta. destruct (lockState (locks K l)) eqn:Hst.
  - specialize (Hf eq_refl). apply wp_bind, wp_put, wp_ret. split; [split; [|done]|].
    2: { intros _. cbn. by rewrite fn_lookup_insert. }
    constructor; cbn; [| |done|done].
    + eapply places_ext; [|exact Hp]. intros o. rewrite queue_of_lock. by case_decide; subst.
    + by_object; [|done]. constructor; cbn; [by split; [eexists|]|done| |].
      * intros ? _. rewrite Hf. apply not_elem_of_nil.
      * intros t' Hs' Hr'. specialize (Hg t' Hs' Hr'). assert (is_Some (lockOwner (locks K l))) as Hb by eauto.
        by apply Ho in Hb.
  - apply wp_bind, wp_put, wp_bind, (wp_Sleep t); [done|]. apply wp_ret. split; [split; [|done]|done].
    constructor; cbn.
    + rewrite Hc in Hp. eapply places_block; [exact Hp|reflexivity|..].
      * cbn. by rewrite fn_lookup_insert.
      * intros o Hne. destruct o as [s'|l'|c]; try done. cbn in *. by rewrite fn_lookup_insert_ne by congruence.
    + by_object; [|by apply li_block]. apply li_block; [done|]. constructor; cbn; [done|done| |done].
      intros t' Ht'. rewrite elem_of_app, list_elem_of_singleton. intros [?| ->]; [by eapply Ha|done].
    + intros c. apply ci_susp; [apply (Htq (OCond c))|done].
    + intros s'. by apply si_susp.
Qed.

Lemma Release_kinv l t K : kinv ts K → current K = Some t →
  wp no_fault (Release l) (λ st K', st = Returned ∧ kinv ts K' ∧ current K' = Some t ∧
     sems K' = sems K ∧ conds K' = conds K ∧ suspended K' = suspended K) K.
Proof.
  intros Hk Hc. pose proof Hk as [Hp Hl Hcv Hs]. destruct (Hl l) as [Ho Hf Ha Hg].
  unfold Release. apply wp_bind, (wp_held _ t); [done|]. case_bool_decide as Hown; cbn [negb]; [|by apply wp_ret].
  apply wp_bind, wp_get. cbn zeta. destruct (lock_queue (locks K l)) as [|w q] eqn:Hq.
  - apply wp_bind, wp_put, wp_ret. split_and!; try done. constructor; cbn; [| |done|done].
    + eapply places_ext; [|exact Hp]. intros o. rewrite queue_of_lock. case_decide; subst; cbn; by rewrite ?Hq.
    + by_object; [|done]. constructor; cbn; [split; [done|by intros []]|done|done|].
      intros t' Hs' Hr'. specialize (Hg t' Hs' Hr').
      destruct (pl_current _ _ _ _ _ Hp t Hc). assert (t' = t) by congruence. by subst.
  - destruct (head_facts _ K (OLock l) w q Hk Hq) as (Hwr & r & Hr & Hwt).
    assert (suspended K w = Some (InAcquire l)) as Hws by (destruct r; cbn in *; congruence).
    pose proof (pl_nodup _ _ _ _ _ Hp (OLock l)) as Hnd. cbn in Hnd. rewrite Hq in Hnd.
    apply NoDup_cons in Hnd as [Hwq _].
    apply wp_bind, wp_put, wp_bind, wp_modify, wp_ret. split_and!; try done. constructor; cbn.
    + eapply (places_wake _ _ _ _ _ (OLock l)); [exact Hp|exact Hq|..].
      * cbn. by rewrite fn_lookup_insert.
      * intros o Hne. destruct o as [s'|l'|c]; try done. cbn in *. by rewrite !fn_lookup_insert_ne by congruence.
    + intros l'. destruct (decide (l' = l)) as [->|Hne].
      * rewrite fn_lookup_insert. constructor; cbn.
        -- rewrite Ho, Hown. by split; eexists.
        -- intros Hfree. specialize (Hf Hfree). congruence.
        -- by intros t' [= <-].
        -- intros t' Hs'. rewrite elem_of_app, list_elem_of_singleton. intros [Hr'| ->]; [|done].
           specialize (Hg t' Hs' Hr'). destruct (pl_current _ _ _ _ _ Hp t Hc).
           assert (t' = t) by congruence. by subst.
      * rewrite fn_lookup_insert_ne by done. apply li_ready; [congruence|done].
    + done.
    + intros s'. by apply si_ready.
Qed.

(** [Release] neither reads nor writes the condition variables. *)
Lemma Release_with_cond l c x K r K' : Release l K = Done (r, K') →
  Release l (with_cond c x K) = Done (r, with_cond c x K').
Proof.
  unfold Release, isHeldByCurrentThread, currentThread, bind, get. cbn.
  destruct (current K) as [t|] eqn:Hc; cbn; [|done]. rewrite ?Hc.
  case_bool_decide; cbn; [|by intros [= <- <-]].
  destruct (lock_queue (locks K l)); cbn; by intros [= <- <-].
Qed.

Lemma with_cond_same c K d : kinv_with d ts K →
  kinv_with d ts (with_cond c (mkCondition (waitingLock (conds K c)) (cond_queue (conds K c))) K).
Proof.
  intros [Hp Hl Hcv Hs]. constructor; cbn; [|done| |done].
  - eapply places_ext; [|exact Hp]. intros o. rewrite queue_of_cond. by case_decide; subst.
  - by_object; [|done]. destruct (Hcv c). by constructor.
Qed.

Lemma Wait_kinv c lk t K : kinv ts K → current K = Some t →
  wp no_fault (Wait c lk) (post ts t) K.
Proof.
  intros Hk Hc. unfold Wait. apply wp_bind, (wp_currentThread t); [done|].
  destruct lk as [l|]; [|by apply wp_ret].
  apply wp_bind, wp_get. cbn zeta. apply wp_bind, wp_put. cbn [waitingLock cond_queue].
  case_bool_decide as Hw; cbn [negb].
  2: { destruct (waitingLock (conds K c)) as [w|] eqn:Hwl; [|done]. apply wp_ret. split; [|done].
       rewrite <- Hwl. by apply with_cond_same. }
  apply wp_bind, wp_modify.
  rewrite <- Hw.
  destruct (wp_no_fault _ _ _ (Release_kinv l t K Hk Hc)) as (r & K' & Hr & -> & Hk' & Hc' & _ & Hcv & _).
  apply wp_bind. unfold wp. rewrite (Release_with_cond _ c _ _ _ _ (Release_with_cond _ c _ _ _ _ Hr)).
  apply wp_bind, (wp_Sleep t); [done|]. apply wp_ret. split; [|done].
  destruct (current_facts _ K' t Hk' Hc') as (Htr & Hts & Htq). destruct Hk' as [Hp' Hl' Hcv' Hs'].
  constructor; cbn.
  - rewrite Hc' in Hp'. eapply (places_block _ _ _ _ _ (OCond c)); [exact Hp'|reflexivity|..].
    + cbn. by rewrite fn_lookup_insert, Hcv.
    + intros o Hne. destruct o as [s'|l'|c']; try done. cbn in *. by rewrite !fn_lookup_insert_ne by congruence.
  - intros l'. by apply li_block.
  - by_object.
    + constructor; cbn; [by destruct (cond_queue (conds K c))|]. intros t'.
      rewrite elem_of_app, list_elem_of_singleton. intros [Ht'| ->].
      * destruct (Hcv' c) as [_ Hcl]. rewrite Hcv in Hcl. destruct (Hcl t' Ht') as (l' & Hs1 & Hs2).
        exists l'. rewrite Hs2 in Hw. rewrite fn_lookup_insert_ne; [done|].
        intros <-. congruence.
      * exists l. by rewrite fn_lookup_insert.
    + rewrite fn_lookup_insert_ne by done. apply ci_susp; [apply (Htq (OCond _))|done].
  - intros s'. by apply si_susp.
Qed.

Lemma Signal_kinv c lk t K : kinv ts K → current K = Some t →
  wp no_fault (Signal c lk) (λ st K', st = Returned ∧ post ts t Returned K') K.
Proof.
  intros Hk Hc. pose proof Hk as [Hp Hl Hcv Hs]. destruct (Hcv c) as [Htie Hlk].
  unfold Signal. apply wp_bind, wp_get. cbn zeta.
  destruct (waitingLock (conds K c)) as [w|] eqn:Hwl; [|by apply wp_ret].
  case_bool_decide as Hw; cbn [negb]; [|by apply wp_ret].
  destruct (cond_queue (conds K c)) as [|t' q] eqn:Hq; [by destruct Htie as [_ Htie]; specialize (Htie eq_refl)|].
  destruct (head_facts _ K (OCond c) t' q Hk Hq) as (Htr & r & Hr & Hwt).
  apply wp_bind, wp_modify, wp_bind, wp_modify, wp_ret. split; [done|]. split; [|done]. constructor; cbn.
  - eapply (places_wake _ _ _ _ _ (OCond c)); [exact Hp|exact Hq|..].
    + cbn. by rewrite fn_lookup_insert.
    + intros o Hne. destruct o as [s'|l'|c']; try done. cbn in *. by rewrite !fn_lookup_insert_ne by congruence.
  - intros l'. apply li_ready; [|done]. rewrite Hr. intros [= ->]. done.
  - by_object; [|done]. constructor; cbn; [by destruct q|].
    intros t'' Ht''. destruct (Hlk t'') as (l' & ? & ?); [by right|]. exists l'.
    split; [done|]. destruct q; [by apply not_elem_of_nil in Ht''|done].
  - intros s'. by apply si_ready.
Qed.

(** The lock a thread that returns from the routine it sleeps in has. *)
Definition wanted (r : option resumption) : option nat :=
  match r with Some (InAcquire l) | Some (InWait _ l) => Some l | _ => None end.

Definition resumed (t : tid) (r : option resumption) (st : status) (K' : Kernel) : Prop :=
  post ts t st K' ∧
  ∀ l, st = Returned → wanted r = Some l → lockOwner (locks K' l) = Some t.

Lemma Run_kinv n K : kinv ts (with_current None (with_ready (n :: readyList K) K)) →
  wp no_fault (Run n) (resumed n (suspended K n)) K.
Proof.
  intros [Hp Hl Hcv Hs]. cbn in *. unfold Run. apply wp_bind, wp_get, wp_bind, wp_put.
  assert (n ∉ readyList K) as Hn by (by pose proof (pl_ready _ _ _ _ _ Hp) as [? _]%NoDup_cons).
  assert (∀ o, n ∉ queue_of K o) as Hnq.
  { intros o. apply (pl_ready_queue _ _ _ _ _ Hp). by left. }
  set (K1 := with_suspended n None (with_current (Some n) K)).
  assert (kinv_with (λ s, if decide (suspended K n = Some (InP s)) then 1 else 0) ts K1) as Hk1.
  { constructor; cbn; [|intros l; by apply li_dispatch| |intros s; by apply si_dispatch].
    - eapply places_ext; [|by eapply places_dispatch]. by intros [].
    - intros c. apply ci_susp; [apply (Hnq (OCond c))|done]. }
  assert ((∀ s, suspended K n ≠ Some (InP s)) → kinv ts K1) as Hk0.
  { intros Hne. destruct Hk1 as [? ? ? Hs1]. constructor; [done..|]. intros s. specialize (Hs1 s).
    by rewrite decide_False in Hs1 by apply Hne. }
  destruct (suspended K n) as [[s|l|c l]|] eqn:Hr; cbn [resume].
  - eapply wp_mono; [apply (P_kinv s n); [|done]|intros st K' HK'; by split].
    destruct Hk1 as [? ? ? Hs1]. constructor; [done..|]. intros s'. specialize (Hs1 s').
    repeat case_decide; try congruence; done.
  - apply wp_ret. split; [split; [by apply Hk0|done]|]. intros l' _ [= ->].
    apply (li_granted _ _ _ _ (Hl l')); [done|by left].
  - eapply wp_mono; [apply (Acquire_kinv l n); [by apply Hk0|done]|].
    cbn. intros st K' [? ?]. split; [done|]. intros l' -> [= <-]. auto.
  - apply wp_ret. split; [split; [by apply Hk0|done]|done].
Qed.

Lemma dispatch_kinv K : kinv ts K → current K = None →
  wp no_fault dispatch (λ st K', match readyList K with
    | [] => st = None ∧ K' = K
    | n :: _ => ∃ st', st = Some st' ∧ resumed n (suspended K n) st' K' end) K.
Proof.
  intros Hk Hc. unfold dispatch, FindNextToRun. apply wp_bind, wp_bind, wp_get.
  destruct (readyList K) as [|n q] eqn:Hr; [by apply wp_ret, wp_ret|].
  apply wp_bind, wp_put, wp_ret, wp_bind. eapply wp_mono; [apply Run_kinv|].
  - destruct K; cbn in *. by subst.
  - cbn. intros st K' HK'. apply wp_ret. by exists st.
Qed.

Lemma Yield_kinv t K : kinv ts K → current K = Some t →
  wp no_fault Yield (λ st K', match readyList K with
    | [] => st = Returned ∧ K' = K
    | n :: _ => resumed n (suspended K n) st K' end) K.
Proof.
  intros Hk Hc. destruct (current_facts _ K t Hk Hc) as (Htr & Hts & Htq).
  unfold Yield, FindNextToRun. apply wp_bind, (wp_currentThread t); [done|]. apply wp_bind, wp_bind, wp_get.
  destruct (readyList K) as [|n q] eqn:Hr; [by apply wp_ret, wp_ret|].
  apply wp_bind, wp_put, wp_ret, wp_bind, wp_modify.
  eapply wp_mono; [apply Run_kinv|done]. cbn. destruct Hk as [Hp Hl Hcv Hs]. rewrite Hr in *. constructor; cbn; [| |done|].
  - rewrite Hc in Hp. apply (places_yield (ts := ts)) in Hp.
    eapply places_ext; [|exact Hp]. by intros [].
  - intros l. apply (li_ready _ _ (n :: q)); [congruence|done].
  - intros s. by apply (si_ready _ _ _ (n :: q)).
Qed.

(** Every call of the running thread returns or sleeps. *)
Lemma run_call_kinv x t K : kinv ts K → current K = Some t → wp no_fault (run_call x) (post ts t) K.
Proof.
  intros Hk Hc. destruct x as [s|s|l|l|c l|c l]; cbn [run_call].
  - apply P_kinv; [|done]. apply kinv_slack; [|done]. intros s'. case_decide; lia.
  - eapply wp_mono; [by eapply (V_kinv s)|]. intros ? ? (-> & ? & ?). split; [done|congruence].
  - eapply wp_mono; [by eapply (Acquire_kinv l t)|by intros ? ? [? ?]].
  - eapply wp_mono; [by eapply (Release_kinv l t)|]. by intros ? ? (-> & ? & ? & _).
  - by apply Wait_kinv.
  - eapply wp_mono; [by eapply (Signal_kinv c l t)|]. by intros ? ? (-> & ?).
Qed.

Lemma step_kinv K K' : kinv ts K → step K K' → kinv ts K'.
Proof.
  intros Hk [x st [t Hc] Hx|st [t Hc] Hx|st Hc Hx|s st Hx].
  - by destruct (wp_done _ _ _ _ _ _ (run_call_kinv x t K Hk Hc) Hx).
  - pose proof (wp_done _ _ _ _ _ _ (Yield_kinv t K Hk Hc) Hx) as HY. cbn in HY.
    destruct (readyList K); [by destruct HY as [_ ->]|by destruct HY as [[? _] _]].
  - pose proof (wp_done _ _ _ _ _ _ (dispatch_kinv K Hk Hc) Hx) as HY. cbn in HY.
    destruct (readyList K); [by destruct HY as [_ ->]|by destruct HY as (? & _ & [? _] & _)].
  - by destruct (wp_done _ _ _ _ _ _ (V_kinv s K Hk) Hx) as (_ & ? & _).
Qed.
End routines.

Lemma initial_kinv ts values : NoDup (0%nat :: ts) → (∀ s, 0 <= values s) →
  kinv (0%nat :: ts) (initial ts values).
Proof.
  intros [H0 Hts]%NoDup_cons Hv. constructor; cbn.
  - constructor; cbn; try done.
    + intros [] t; cbn; by intros ?%not_elem_of_nil.
    + intros []; cbn; by apply NoDup_nil.
    + intros t [] _; cbn; apply not_elem_of_nil.
    + by intros t [= <-].
    + intros t [->|?]%elem_of_cons; auto.
  - intros l. by constructor; cbn.
  - intros c. constructor; cbn; [done|]. by intros t ?%not_elem_of_nil.
  - intros s. constructor; cbn; [apply Hv|done].
Qed.

Lemma reachable_kinv ts values K : NoDup (0%nat :: ts) → (∀ s, 0 <= values s) →
  reachable ts values K → kinv (0%nat :: ts) K.
Proof.
  intros Hts Hv. induction 1 as [|K K' _ IH Hstep]; [by apply initial_kinv|by eapply step_kinv].
Qed.

Lemma run_event_step e K K' : run_event e K = Done ((), K') → step K K'.
Proof.
  destruct e as [x| | |s]; cbn [run_event]; unfold bind, get, currentThread; [cbn..|].
  - destruct (current K) as [t|] eqn:Hc; cbn; [|done].
    destruct (run_call x K) as [[st K1]|f] eqn:Hx; [|done]. intros [= <-]. eapply step_call; eauto.
  - destruct (Yield K) as [[st K1]|f] eqn:Hx; [|done]. intros [= <-]. eapply step_yield; [|done].
    unfold Yield, currentThread, bind, get in Hx. cbn in Hx. by destruct (current K).
  - destruct (current K) as [t|] eqn:Hc; cbn; [done|].
    destruct (dispatch K) as [[st K1]|f] eqn:Hx; [|done]. intros [= <-]. by eapply step_dispatch.
  - destruct (V s K) as [[st K1]|f] eqn:Hx; [|done]. intros [= <-]. exact (step_interrupt _ _ s st Hx).
Qed.

Lemma run_events_reachable ts values es K : reachable ts values K →
  reachable ts values (run_events es K).
Proof.
  revert K. induction es as [|e es IH]; intros K HK; [done|]. cbn.
  destruct (run_event e K) as [[[] K1]|f] eqn:He; [|done].
  apply IH. eapply reach_step; [done|]. by eapply run_event_step.
Qed.

(** ** What the invariant gives the callers *)

Definition holds (K : Kernel) (l : nat) (t : tid) : Prop := lockOwner (locks K l) = Some t.

(** Only its owner takes a lock away. *)
Section ownership.
Context (E := λ _ : fault, True) (l : nat) (t : tid).

Lemma Acquire_holds l' K : holds K l t → lockState (locks K l) = BUSY →
  wp E (Acquire l') (λ _ K', holds K' l t) K.
Proof.
  intros Ht Hb. unfold holds, wp, Acquire, isHeldByCurrentThread, currentThread, bind, get. cbn.
  destruct (current K) as [u|]; cbn; [|done]. destruct (current K) as [u'|]; cbn; [|done].
  case_bool_decide; cbn; [done|].
  destruct (decide (l' = l)) as [->|Hne]; [|destruct (lockState (locks K l'))]; rewrite ?Hb; cbn;
    unfold Sleep, currentThread, bind, get; cbn; try (destruct (current K) as [v|]; cbn; [|done]);
    by rewrite ?fn_lookup_insert, ?fn_lookup_insert_ne.
Qed.

Lemma Release_holds l' u K : holds K l t → current K = Some u → u ≠ t →
  wp E (Release l') (λ _ K', holds K' l t ∧ current K' = Some u) K.
Proof.
  intros Ht Hc Hu. unfold holds, wp, Release, isHeldByCurrentThread, currentThread, bind, get. cbn.
  rewrite Hc. cbn. case_bool_decide as Hd; cbn; [|done].
  assert (l' ≠ l) by (intros ->; unfold holds in Ht; congruence).
  destruct (lock_queue (locks K l')); cbn; by rewrite fn_lookup_insert_ne.
Qed.

Lemma P_holds s K : holds K l t → wp E (P s) (λ _ K', holds K' l t) K.
Proof.
  intros Ht. unfold P, Sleep, currentThread, wp, bind, get. cbn. destruct (current K) as [u|] eqn:Hc; cbn; [|done].
  destruct (value (sems K s) =? 0); cbn; [|done]. by rewrite Hc.
Qed.

Lemma V_holds s K : holds K l t → wp E (V s) (λ _ K', holds K' l t) K.
Proof. intros Ht. unfold V, wp, bind, get. cbn. by destruct (sem_queue (sems K s)); cbn. Qed.

Lemma Run_holds n K : holds K l t → lockState (locks K l) = BUSY →
  wp E (Run n) (λ _ K', holds K' l t) K.
Proof.
  intros Ht Hb. unfold Run. apply wp_bind, wp_get, wp_bind, wp_put.
  destruct (suspended K n) as [[s|l'|c l']|]; cbn [resume];
    [by apply P_holds|by apply wp_ret|by apply Acquire_holds|by apply wp_ret].
Qed.

Lemma call_holds x u K : holds K l t → lockState (locks K l) = BUSY → current K = Some u → u ≠ t →
  wp E (run_call x) (λ _ K', holds K' l t) K.
Proof.
  intros Ht Hb Hc Hu. destruct x as [s|s|l'|l'|c lk|c lk]; cbn [run_call].
  - by apply P_holds.
  - by apply V_holds.
  - by apply Acquire_holds.
  - eapply wp_mono; [by eapply (Release_holds l' u)|by intros ? ? [? ?]].
  - unfold Wait, currentThread. apply wp_bind, wp_bind, wp_get. rewrite Hc. apply wp_ret.
    destruct lk as [l'|]; [|by apply wp_ret]. apply wp_bind, wp_get, wp_bind, wp_put.
    case_bool_decide; cbn [negb]; [|by apply wp_ret]. apply wp_bind, wp_modify, wp_bind.
    eapply wp_mono; [by apply (Release_holds l' u)|]. cbn. intros _ K' [HK Hc'].
    unfold wp, Sleep, currentThread, bind, get. cbn. by rewrite Hc'.
  - unfold Signal, wp, bind, get. cbn. destruct (waitingLock (conds K c)); [|done].
    case_bool_decide; cbn; [|done]. by destruct (cond_queue (conds K c)); cbn.
Qed.

Lemma step_holds K K' : holds K l t → lockState (locks K l) = BUSY → step K K' →
  current K ≠ Some t → holds K' l t.
Proof.
  intros Ht Hb [x st [u Hc] Hx|st [u Hc] Hx|st Hc Hx|s st Hx] Hne.
  - refine (wp_done _ _ _ _ _ _ (call_holds x u K Ht Hb Hc _) Hx). congruence.
  - refine (wp_done E _ (λ _ K', holds K' l t) _ _ _ _ Hx). unfold Yield, FindNextToRun, currentThread.
    apply wp_bind, wp_bind, wp_get. rewrite Hc. apply wp_ret, wp_bind, wp_bind, wp_get.
    destruct (readyList K) as [|n q]; [by apply wp_ret, wp_ret|].
    apply wp_bind, wp_put, wp_ret, wp_bind, wp_modify. by apply Run_holds.
  - refine (wp_done E _ (λ _ K', holds K' l t) _ _ _ _ Hx). unfold dispatch, FindNextToRun.
    apply wp_bind, wp_bind, wp_get. destruct (readyList K) as [|n q]; [by apply wp_ret, wp_ret|].
    apply wp_bind, wp_put, wp_ret, wp_bind. eapply wp_mono; [by apply Run_holds|].
    intros st' K1 ?. by apply wp_ret.
  - exact (wp_done _ _ _ _ _ _ (V_holds s K Ht) Hx).
Qed.
End ownership.

(** A thread that is switched to and runs on owns the lock it slept for. *)
Lemma step_resumes {ts} K K' l n : kinv ts K → step K K' → current K ≠ Some n → current K' = Some n →
  wanted (suspended K n) = Some l → holds K' l n.
Proof.
  intros Hk Hstep Hne Hcur Hw. destruct Hstep as [x st [t Hc] Hx|st [t Hc] Hx|st Hc Hx|s st Hx].
  - pose proof (wp_done _ _ _ _ _ _ (run_call_kinv x t K Hk Hc) Hx) as [_ Hc']. destruct st; congruence.
  - pose proof (wp_done _ _ _ _ _ _ (Yield_kinv t K Hk Hc) Hx) as HY. cbn in HY.
    destruct (readyList K) as [|m q]; [destruct HY as [_ ->]; congruence|]. destruct HY as [[_ Hc'] Hown].
    destruct st; [|congruence]. rewrite Hcur in Hc'. injection Hc' as ->. by apply Hown.
  - pose proof (wp_done _ _ _ _ _ _ (dispatch_kinv K Hk Hc) Hx) as HY. cbn in HY.
    destruct (readyList K) as [|m q]; [destruct HY as [_ ->]; congruence|]. destruct HY as (st' & _ & [_ Hc'] & Hown).
    destruct st'; [|congruence]. rewrite Hcur in Hc'. injection Hc' as ->. by apply Hown.
  - pose proof (wp_done _ _ _ _ _ _ (V_kinv s K Hk) Hx) as (_ & _ & Hc'). congruence.
Qed.

(** [Wait] returns at once only when it did nothing. *)
Lemma Wait_returned c lk t K K' : current K = Some t → Wait c lk K = Done (Returned, K') →
  locks K' = locks K ∧ (lk = None ∨ ∃ w, waitingLock (conds K c) = Some w ∧ Some w ≠ lk).
Proof.
  intros Hc. unfold Wait, currentThread, bind, get. cbn. rewrite Hc. cbn. destruct lk as [l|]; [|intros [= <-]; auto].
  destruct (waitingLock (conds K c)) as [w|]; cbn; case_bool_decide as Hw; cbn.
  - match goal with |- context [Release ?l ?x] => destruct (Release l x) as [[st1 K1]|f] end; [|done].
    unfold Sleep, currentThread, bind, get. cbn. by destruct (current K1).
  - intros [= <-]. split; [done|]. right. exists w. split; [done|congruence].
  - match goal with |- context [Release ?l ?x] => destruct (Release l x) as [[st1 K1]|f] end; [|done].
    unfold Sleep, currentThread, bind, get. cbn. by destruct (current K1).
  - done.
Qed.

(** ** Broadcast *)

Lemma Signal_pop c w K t q : waitingLock (conds K c) = Some w → cond_queue (conds K c) = t :: q →
  Signal c (Some w) K = Done (Returned,
    with_cond c (mkCondition (match q with [] => None | _ => Some w end) q)
      (with_ready (readyList K ++ [t]) K)).
Proof.
  intros Hw Hq. unfold Signal, bind, get. cbn. rewrite Hw, bool_decide_true by done. cbn. by rewrite Hq.
Qed.

Lemma Broadcast_loop_spec c w : ∀ q K fuel, cond_queue (conds K c) = q → (length q < fuel)%nat →
  waitingLock (conds K c) = match q with [] => None | _ => Some w end →
  ∃ K', Broadcast_loop fuel c (Some w) K = Done (Returned, K') ∧
    readyList K' = readyList K ++ q ∧ conds K' c = new_Condition ∧
    (∀ c', c' ≠ c → conds K' c' = conds K c') ∧
    current K' = current K ∧ suspended K' = suspended K ∧ sems K' = sems K ∧ locks K' = locks K.
Proof.
  induction q as [|t q IH]; intros K [|fuel] Hq Hf Hw; cbn in Hf; try lia;
    cbn [Broadcast_loop]; unfold bind at 1; cbn; rewrite Hq.
  - exists K. rewrite app_nil_r. split_and!; try done. destruct (conds K c). cbn in *. by subst.
  - rewrite (bind_Done _ _ _ _ _ (Signal_pop c w K t q Hw Hq)).
    destruct (IH (with_cond c (mkCondition (match q with [] => None | _ => Some w end) q)
      (with_ready (readyList K ++ [t]) K)) fuel) as (K' & -> & Hr & Hc & Ho & Hrest);
      [cbn; by rewrite fn_lookup_insert|lia|cbn; by rewrite fn_lookup_insert|].
    exists K'. cbn in *. rewrite Hr, <- app_assoc. split_and!; try done; [|by apply Hrest..].
    intros c' Hc'. by rewrite Ho, fn_lookup_insert_ne.
Qed.

Lemma Broadcast_loop_stuck c w lk fuel K : waitingLock (conds K c) = Some w → Some w ≠ lk →
  cond_queue (conds K c) ≠ [] → Broadcast_loop fuel c lk K = Fault OutOfFuel.
Proof.
  intros Hw Hne Hq. induction fuel as [|fuel IH]; [done|]. cbn [Broadcast_loop]. unfold bind at 1. cbn.
  destruct (cond_queue (conds K c)) as [|t q] eqn:Hcq; [done|].
  rewrite (bind_Done _ _ K Returned K); [by apply IH|].
  unfold Signal, bind, get. cbn. by rewrite Hw, bool_decide_false.
Qed.

(** The loop is a sequence of calls of [Signal]. *)
Lemma Broadcast_loop_reachable ts values c lk t : NoDup (0%nat :: ts) → (∀ s, 0 <= values s) → ∀ fuel K st K',
  reachable ts values K → current K = Some t → Broadcast_loop fuel c lk K = Done (st, K') →
  reachable ts values K' ∧ current K' = Some t.
Proof.
  intros Hts Hv. induction fuel as [|fuel IH]; intros K st K' Hr Hc; [done|].
  cbn [Broadcast_loop]. unfold bind at 1. cbn. destruct (cond_queue (conds K c)) as [|u q]; [by intros [= _ <-]|].
  unfold bind at 1. destruct (Signal c lk K) as [[st1 K1]|f] eqn:HS; [|done]. intros HB.
  assert (reachable ts values K1) as Hr1.
  { eapply reach_step; [exact Hr|]. apply (step_call _ _ (CallSignal c lk) st1); [by eexists|exact HS]. }
  apply (IH K1 st K' Hr1); [|exact HB].
  unfold Signal, bind, get in HS. cbn in HS. destruct (waitingLock (conds K c)) as [w|]; [|by injection HS as _ <-].
  destruct (negb _); [by injection HS as _ <-|]. destruct (cond_queue (conds K c)); [done|]. by injection HS as _ <-.
Qed.

(** What [Broadcast] does in a consistent state. *)
Lemma Broadcast_cases ts values K c lk t : NoDup (0%nat :: ts) → (∀ s, 0 <= values s) →
  reachable ts values K → current K = Some t →
  if decide (waitingLock (conds K c) = None ∨ waitingLock (conds K c) = lk) then
    ∃ K', Broadcast (S (length (cond_queue (conds K c)))) c lk K = Done (Returned, K') ∧ reachable ts values K' ∧
      current K' = Some t ∧ cond_queue (conds K' c) = []
  else ∀ fuel, Broadcast fuel c lk K = Fault OutOfFuel.
Proof.
  intros Hts Hv Hr Hc. pose proof (k_conds _ _ _ (reachable_kinv _ _ _ Hts Hv Hr) c) as Hk.
  unfold Broadcast, bind, get. cbn. destruct (waitingLock (conds K c)) as [w|] eqn:Hw.
  2: { rewrite decide_True by by left. exists K. split_and!; try done. by apply (ci_tied _ _ _ Hk). }
  assert (cond_queue (conds K c) ≠ []) as Hq by (intros Hq; apply (ci_tied _ _ _ Hk) in Hq; congruence). case_decide as Hlk.
  - destruct Hlk as [|<-]; [done|].
    destruct (Broadcast_loop_spec c w (cond_queue (conds K c)) K (S (length (cond_queue (conds K c))))) as (K' & HB & _ & Hn & _ & Hcur & _);
      [done|lia|by destruct (cond_queue (conds K c))|].
    exists K'. split; [done|]. destruct (Broadcast_loop_reachable ts values c (Some w) t Hts Hv _ _ _ _ Hr Hc HB) as [Hr' Hc'].
    split_and!; [done..|by rewrite Hn].
  - intros fuel. apply (Broadcast_loop_stuck c w); [done| |done]. intros ?. apply Hlk. by right.
Qed.

(** ** Properties *)

(** Six threads: 0 has lock 0, 1 waits for it, 2 was woken in [P] of semaphore 0
    and 3 sleeps there, 4 and 5 wait on condition 0 with lock 1. *)
Definition crew : list tid := [1; 2; 3; 4; 5]%nat.
Definition scene_events : list event :=
  [Call (CallAcquire 0); YieldNow; Call (CallAcquire 0); Dispatch; Call (CallP 0); Dispatch;
   Call (CallP 0); Dispatch; Call (CallAcquire 1); Call (CallWait 0 (Some 1%nat)); Dispatch;
   Call (CallAcquire 1); Call (CallWait 0 (Some 1%nat)); Dispatch; Call (CallV 0)].
Definition scene : Kernel := run_events scene_events (initial crew (λ _, 0)).
(** Then 0 releases the lock and sleeps, 2 runs and sleeps: 1 is next. *)
Definition handover : Kernel :=
  run_events [Call (CallRelease 0); Call (CallP 1); Dispatch; Call (CallP 1)] scene.

Lemma crew_distinct : NoDup (0%nat :: crew).
Proof. apply (bool_decide_unpack _). by vm_compute. Qed.
Lemma scene_reachable : reachable crew (λ _, 0) scene.
Proof. apply run_events_reachable, reach_init. Qed.
Lemma handover_reachable : reachable crew (λ _, 0) handover.
Proof. apply run_events_reachable, scene_reachable. Qed.

(** Every call, switch and interrupt goes through and leaves a reachable state. *)
Lemma kernel_goes_on ts values K : NoDup (0%nat :: ts) → (∀ s, 0 <= values s) →
  reachable ts values K →
  (∀ t, current K = Some t →
     (∀ x, ∃ st K', run_call x K = Done (st, K') ∧ reachable ts values K' ∧
        current K' = match st with Returned => Some t | Slept => None end) ∧
     (∃ st K', Yield K = Done (st, K') ∧ reachable ts values K')) ∧
  (current K = None → ∃ st K', dispatch K = Done (st, K') ∧ reachable ts values K') ∧
  (∀ s, ∃ K', V s K = Done (Returned, K') ∧ reachable ts values K' ∧ current K' = current K).
Proof.
  intros Hts Hv Hr. pose proof (reachable_kinv _ _ _ Hts Hv Hr) as Hk. split_and!.
  - intros t Hc. split.
    + intros x. pose proof (run_call_kinv x t K Hk Hc) as Hw.
      destruct (wp_no_fault _ _ _ Hw) as (st & K' & Hx & _ & Hc'). exists st, K'. split_and!; [done| |done].
      eapply reach_step; [done|]. by eapply step_call.
    + destruct (wp_no_fault _ _ _ (Yield_kinv t K Hk Hc)) as (st & K' & Hx & _). exists st, K'.
      split; [done|]. eapply reach_step; [done|]. by eapply step_yield.
  - intros Hc. destruct (wp_no_fault _ _ _ (dispatch_kinv K Hk Hc)) as (st & K' & Hx & _). exists st, K'.
    split; [done|]. eapply reach_step; [done|]. by eapply step_dispatch.
  - intros s. destruct (wp_no_fault _ _ _ (V_kinv s K Hk)) as (st & K' & Hx & -> & _ & Hc). exists K'.
    split_and!; [done| |done]. eapply reach_step; [done|]. by eapply step_interrupt.
Qed.

(** C15: from a start with distinct threads and semaphore values that
    are not negative, every call of the running thread returns or sleeps (in
    particular [Signal] never readies a NULL thread), so does a yield, a switch and
    the [V] of an interrupt handler, and no thread is ever lost: each runs, is ready, or sleeps in
    exactly one queue, that of the object its pending routine names.  [Broadcast],
    a loop of signals each of which is a step of the system, not interrupted
    between them, empties the queue if no thread waits or the lock is that of the
    waiters, and never returns if it is another one. *)
Theorem kernel_safe ts values K : NoDup (0%nat :: ts) → (∀ s, 0 <= values s) →
  reachable ts values K →
  (∀ t, current K = Some t →
     (∀ x, ∃ st K', run_call x K = Done (st, K') ∧ reachable ts values K' ∧
        current K' = match st with Returned => Some t | Slept => None end) ∧
     (∃ st K', Yield K = Done (st, K') ∧ reachable ts values K') ∧
     (∀ c lk, if decide (waitingLock (conds K c) = None ∨ waitingLock (conds K c) = lk) then
        ∃ K', Broadcast (S (length (cond_queue (conds K c)))) c lk K = Done (Returned, K') ∧ reachable ts values K' ∧
          current K' = Some t ∧ cond_queue (conds K' c) = []
      else ∀ fuel, Broadcast fuel c lk K = Fault OutOfFuel)) ∧
  (current K = None → ∃ st K', dispatch K = Done (st, K') ∧ reachable ts values K') ∧
  (∀ s, ∃ K', V s K = Done (Returned, K') ∧ reachable ts values K' ∧ current K' = current K) ∧
  (∀ t, t ∈ 0%nat :: ts → current K = Some t ∨ t ∈ readyList K ∨
     ∃ r, suspended K t = Some r ∧ ∀ o, t ∈ queue_of K o ↔ o = waits r).
Proof.
  intros Hts Hv Hr. pose proof (reachable_kinv _ _ _ Hts Hv Hr) as Hk.
  destruct (kernel_goes_on ts values K Hts Hv Hr) as (Hrun & Hd & HV). split_and!; [|done..|].
  - intros t Hc. destruct (Hrun t Hc) as [Hx Hy]. split_and!; [done..|]. intros c lk. by apply Broadcast_cases.
  - intros t Ht. destruct (k_places _ _ _ Hk) as [Hq _ _ _ _ _ Ha].
    destruct (Ha t Ht) as [?|[?|[o Ho]]]; [auto..|]. right. right.
    destruct (Hq o t Ho) as (r & Hr' & <-). exists r. split; [done|]. intros o'.
    split; [|by intros ->]. intros (r' & ? & <-)%Hq. congruence.
Qed.

Lemma kernel_safe_witness :
  (∃ st K', run_call (CallWait 1 (Some 0%nat)) scene = Done (st, K') ∧ reachable crew (λ _, 0) K' ∧
    current K' = match st with Returned => Some 0%nat | Slept => None end) ∧
  reachable crew (λ _, 0) scene.
Proof.
  pose proof (λ s : nat, Z.le_refl 0) as H0. split; [|exact scene_reachable].
  destruct (kernel_safe crew (λ _, 0) scene crew_distinct H0 scene_reachable) as (Hc & _).
  destruct (Hc 0%nat eq_refl) as [Hx _]. exact (Hx (CallWait 1 (Some 0%nat))).
Defined.

(** C23: in a reachable state, a thread that returns from
    [Acquire], at once or when it is switched to again, by the idle processor or
    by the [Yield] of another thread, from the sleep in [Acquire] or [Wait], owns
    the lock; a lock that a thread owns stays its own over every step of the
    system in which it is not running.  A [Wait] that returns without a sleep,
    which is for NULL or a lock other than that of the waiters, leaves all locks
    as they were. *)
Theorem Lock_exclusion ts values K : NoDup (0%nat :: ts) → (∀ s, 0 <= values s) →
  reachable ts values K →
  (∀ l t K', current K = Some t → Acquire l K = Done (Returned, K') → holds K' l t) ∧
  (∀ l n K', step K K' → current K ≠ Some n → current K' = Some n → wanted (suspended K n) = Some l → holds K' l n) ∧
  (∀ l t K', holds K l t → step K K' → current K ≠ Some t → holds K' l t) ∧
  (∀ c lk K', is_Some (current K) → Wait c lk K = Done (Returned, K') →
     locks K' = locks K ∧ (lk = None ∨ ∃ w, waitingLock (conds K c) = Some w ∧ Some w ≠ lk)).
Proof.
  intros Hts Hv Hr. pose proof (reachable_kinv _ _ _ Hts Hv Hr) as Hk. split_and!.
  - intros l t K' Hc Ha. pose proof (wp_done _ _ _ _ _ _ (Acquire_kinv l t K Hk Hc) Ha) as [_ Hown].
    by apply Hown.
  - intros l n K' Hst. by apply (step_resumes _ _ _ _ Hk Hst).
  - intros l t K' Ht. apply step_holds; [done|]. apply (li_owner _ _ _ _ (k_locks _ _ _ Hk l)). by exists t.
  - intros c lk K' [t Hc] HW. by apply (Wait_returned c lk t).
Qed.

Lemma Lock_exclusion_witness : holds scene 0 0%nat ∧ current handover = None ∧
  ∃ K', dispatch handover = Done (Some Returned, K') ∧ current K' = Some 1%nat ∧ holds K' 0 1%nat.
Proof.
  pose proof (λ s : nat, Z.le_refl 0) as H0.
  split; [reflexivity|]. split; [reflexivity|]. exists (run_events [Dispatch] handover).
  split; [reflexivity|]. split; [reflexivity|].
  destruct (Lock_exclusion crew (λ _, 0) handover crew_distinct H0 handover_reachable) as (_ & Hd & _).
  apply (Hd 0%nat 1%nat); [|discriminate|reflexivity|reflexivity].
  apply (step_dispatch _ _ (Some Returned)); reflexivity.
Defined.

(** C25: in a reachable state a semaphore's value is
    never negative, and when threads sleep in [P] while it is positive, at
    least that many woken threads are on the ready list on their way to
    take it. *)
Theorem Semaphore_no_lost_wakeup ts values K s : NoDup (0%nat :: ts) → (∀ s', 0 <= values s') →
  reachable ts values K →
  0 <= value (sems K s) ∧
  (sem_queue (sems K s) ≠ [] → value (sems K s) <=
     Z.of_nat (length (filter (λ t, suspended K t = Some (InP s)) (readyList K)))).
Proof.
  intros Hts Hv Hr. destruct (k_sems _ _ _ (reachable_kinv _ _ _ Hts Hv Hr) s) as [H0 Hw].
  split; [done|]. intros Hq. specialize (Hw Hq). unfold woken in Hw. lia.
Qed.

Lemma Semaphore_no_lost_wakeup_witness : sem_queue (sems scene 0) = [3%nat] ∧ value (sems scene 0) = 1 ∧
  value (sems scene 0) <=
    Z.of_nat (length (filter (λ t, suspended scene t = Some (InP 0)) (readyList scene))).
Proof.
  pose proof (λ s : nat, Z.le_refl 0) as H0. split; [reflexivity|]. split; [reflexivity|].
  apply (Semaphore_no_lost_wakeup crew (λ _, 0) scene 0 crew_distinct H0 scene_reachable).
  intros Hq. assert (sem_queue (sems scene 0) = [3%nat]) as Hs by reflexivity. congruence.
Defined.

(** The owner of a lock that releases it in a reachable
    state makes the first waiter the owner and ready, without the lock being
    free in between; with no waiter the lock is free. A release by any other
    thread changes nothing. *)
Theorem Release_hands_off ts values K l t : NoDup (0%nat :: ts) → (∀ s, 0 <= values s) →
  reachable ts values K → current K = Some t →
  Release l K = Done (Returned,
    if bool_decide (lockOwner (locks K l) = Some t) then
      match lock_queue (locks K l) with
      | w :: q => with_ready (readyList K ++ [w]) (with_lock l (mkLock BUSY (Some w) q) K)
      | [] => with_lock l new_Lock K
      end
    else K).
Proof.
  intros Hts Hv Hr Hc. destruct (k_locks _ _ _ (reachable_kinv _ _ _ Hts Hv Hr) l) as [Ho _ _ _].
  unfold Release, isHeldByCurrentThread, currentThread, bind, get. cbn. rewrite Hc. cbn.
  case_bool_decide as Hown; cbn; [|done].
  assert (lockState (locks K l) = BUSY) as Hb by (apply Ho; by exists t).
  destruct (lock_queue (locks K l)); cbn; by rewrite ?Hb.
Qed.

Lemma Release_hands_off_witness : lock_queue (locks scene 0) = [1%nat] ∧
  ∃ K', Release 0 scene = Done (Returned, K') ∧ holds K' 0 1%nat.
Proof.
  pose proof (λ s : nat, Z.le_refl 0) as H0. split; [reflexivity|]. eexists. split.
  - apply (Release_hands_off crew (λ _, 0) scene 0 0%nat crew_distinct H0 scene_reachable). reflexivity.
  - reflexivity.
Defined.

(** With the condition's lock, [Broadcast] makes every
    waiter ready, in the order they waited, and leaves the condition variable
    as new; as many rounds as waiters and one test of the loop are enough. *)
Theorem Broadcast_readies_all ts values K c w fuel : NoDup (0%nat :: ts) → (∀ s, 0 <= values s) →
  reachable ts values K → waitingLock (conds K c) = Some w →
  (length (cond_queue (conds K c)) < fuel)%nat →
  ∃ K', Broadcast fuel c (Some w) K = Done (Returned, K') ∧
    readyList K' = readyList K ++ cond_queue (conds K c) ∧ conds K' c = new_Condition ∧
    (∀ c', c' ≠ c → conds K' c' = conds K c') ∧
    current K' = current K ∧ suspended K' = suspended K ∧ sems K' = sems K ∧ locks K' = locks K.
Proof.
  intros Hts Hv Hr Hw Hf. destruct (k_conds _ _ _ (reachable_kinv _ _ _ Hts Hv Hr) c) as [Htie _].
  unfold Broadcast, bind at 1. cbn. rewrite Hw. apply Broadcast_loop_spec; [done|done|].
  rewrite Hw. destruct (cond_queue (conds K c)); [|done]. destruct Htie as [_ Htie].
  rewrite Htie in Hw by done. done.
Qed.

Lemma Broadcast_readies_all_witness : cond_queue (conds scene 0) = [4; 5]%nat ∧
  ∃ K', Broadcast 3 0 (Some 1%nat) scene = Done (Returned, K') ∧
    readyList K' = readyList scene ++ cond_queue (conds scene 0).
Proof.
  pose proof (λ s : nat, Z.le_refl 0) as H0. split; [reflexivity|].
  destruct (Broadcast_readies_all crew (λ _, 0) scene 0 1 3 crew_distinct H0 scene_reachable)
    as (K' & HK & Hr & _); [reflexivity|apply (bool_decide_unpack _); reflexivity|]. exists K'. by split.
Defined.

(** With waiters and another lock than theirs,
    [Broadcast] prints its message and then never leaves its loop: no number
    of rounds is enough. *)
Theorem Broadcast_wrong_lock_spins K c w lk fuel : waitingLock (conds K c) = Some w →
  Some w ≠ lk → cond_queue (conds K c) ≠ [] → Broadcast fuel c lk K = Fault OutOfFuel.
Proof.
  intros Hw Hne Hq. unfold Broadcast, bind at 1. cbn. rewrite Hw. by apply (Broadcast_loop_stuck c w).
Qed.

Lemma Broadcast_wrong_lock_spins_witness : waitingLock (conds scene 0) = Some 1%nat ∧
  Broadcast 100 0 (Some 0%nat) scene = Fault OutOfFuel.
Proof.
  split; [reflexivity|]. apply (Broadcast_wrong_lock_spins scene 0 1); [reflexivity|congruence|].
  assert (cond_queue (conds scene 0) = [4; 5]%nat) as Hs by reflexivity. congruence.
Defined.
