(* ===== verification/SynchFrame.v ===== *)
(** * SynchFrame: what the routines of threads/synch.cc leave alone

    For the components that own some locks and condition variables: a call
    changes the sleepers and the objects it names and no others, and the thread
    that is switched to goes on in the routine it sleeps in. *)
From S2P Require Import Prelude Synch.
From Stdlib Require Import ZArith Lia.
From stdpp Require Import functions base list.

#[local] Notation holds := Synch.holds.

Section frame.
Implicit Types (t u : tid) (K : Kernel).

Definition sleeps_in (x : call) : option resumption :=
  match x with
  | CallP s => Some (InP s) | CallAcquire l => Some (InAcquire l)
  | CallWait c (Some l) => Some (InWait c l) | _ => None
  end.

(** The effect of a call on the sleepers and on the condition variables it does
    not name. *)
Record framed (c : nat) t (x : option resumption) K (st : status) K' : Prop := {
  fr_others : ∀ u, u ≠ t → suspended K' u = suspended K u;
  fr_self : (st = Returned ∧ suspended K' t = suspended K t) ∨ (st = Slept ∧ suspended K' t = x ∧ is_Some x);
  fr_conds : conds K' c = conds K c
}.

Lemma framed_same c t x K K' : suspended K' = suspended K → conds K' c = conds K c →
  framed c t x K Returned K'.
Proof. intros Hs Hc. constructor; [by rewrite Hs|left; by rewrite Hs|done]. Qed.

Lemma framed_sleep c t r K K' : suspended K' = <[t := Some r]> (suspended K) → conds K' c = conds K c →
  framed c t (Some r) K Slept K'.
Proof.
  intros Hs Hc. constructor; [|right|done].
  - intros u Hu. by rewrite Hs, fn_lookup_insert_ne.
  - by rewrite Hs, fn_lookup_insert.
Qed.

Lemma Release_framed l K st K' : Release l K = Done (st, K') →
  st = Returned ∧ suspended K' = suspended K ∧ conds K' = conds K ∧ current K' = current K ∧
  ∀ l', l' ≠ l → locks K' l' = locks K l'.
Proof.
  unfold Release, isHeldByCurrentThread, currentThread, bind, get. cbn.
  destruct (current K) as [t0|] eqn:Hc; cbn; [|done]. case_bool_decide; cbn; [|by intros [= <- <-]].
  destruct (lock_queue (locks K l)); intros [= <- <-]; split_and!; try done;
    intros l' Hl; cbn; by rewrite fn_lookup_insert_ne.
Qed.

Lemma Acquire_framed c l K st K' t : current K = Some t → Acquire l K = Done (st, K') →
  framed c t (Some (InAcquire l)) K st K'.
Proof.
  intros Hc. unfold Acquire, isHeldByCurrentThread, currentThread, bind, get. cbn. rewrite Hc. cbn. rewrite Hc. cbn.
  case_bool_decide; cbn; [by intros [= <- <-]; apply framed_same|].
  destruct (lockState (locks K l)); cbn; [by intros [= <- <-]; apply framed_same|].
  unfold Sleep, currentThread, bind, get. cbn. rewrite Hc. cbn. intros [= <- <-]. by apply framed_sleep.
Qed.

Lemma P_framed c s K st K' t : current K = Some t → P s K = Done (st, K') → framed c t (Some (InP s)) K st K'.
Proof.
  intros Hc. unfold P, currentThread, bind, get. cbn. rewrite Hc. cbn.
  destruct (value (sems K s) =? 0)%Z; cbn; [|by intros [= <- <-]; apply framed_same].
  unfold Sleep, currentThread, bind, get. cbn. rewrite Hc. cbn. intros [= <- <-]. by apply framed_sleep.
Qed.

Lemma V_framed s K st K' : V s K = Done (st, K') →
  st = Returned ∧ suspended K' = suspended K ∧ conds K' = conds K ∧ locks K' = locks K.
Proof. unfold V, bind, get. cbn. destruct (sem_queue (sems K s)); by intros [= <- <-]. Qed.

Lemma call_framed c x K st K' t : current K = Some t → run_call x K = Done (st, K') →
  match x with CallWait c' _ | CallSignal c' _ => c' ≠ c | _ => True end →
  framed c t (sleeps_in x) K st K'.
Proof.
  intros Hc Hx Hne. destruct x as [s|s|l|l|c' l|c' l]; cbn [run_call sleeps_in] in *.
  - by apply (P_framed _ s).
  - destruct (V_framed _ _ _ _ Hx) as (-> & ? & Hcs & _). apply framed_same; [done|by rewrite Hcs].
  - by apply (Acquire_framed _ l).
  - destruct (Release_framed _ _ _ _ Hx) as (-> & ? & Hcs & _). apply framed_same; [done|by rewrite Hcs].
  - unfold Wait, currentThread in Hx. unfold bind, get in Hx. cbn in Hx. rewrite Hc in Hx. cbn in Hx.
    destruct l as [l|]; [|injection Hx as <- <-; by apply framed_same].
    case_bool_decide; cbn in Hx; [|injection Hx as <- <-; apply framed_same; [done|cbn; by rewrite fn_lookup_insert_ne]].
    match type of Hx with match Release l ?K0 with _ => _ end = _ => set (K1 := K0) in Hx end.
    assert (suspended K1 = suspended K ∧ conds K1 c = conds K c) as [Hs1 Hc1]
      by (cbn; by rewrite !fn_lookup_insert_ne by done).
    destruct (Release l K1) as [[r K2]|] eqn:HR; [|done]. destruct (Release_framed _ _ _ _ HR) as (_ & Hs2 & Hc2 & Hcur & _).
    unfold Sleep, currentThread, bind, get in Hx. cbn in Hx.
    destruct (current K2) as [t'|] eqn:Hc'; [|done]. cbn in Hx. injection Hx as <- <-.
    change (Some t' = current K) in Hcur. assert (t' = t) as -> by congruence.
    apply framed_sleep; cbn; [by rewrite Hs2, Hs1|by rewrite Hc2].
  - unfold Signal, bind, get in Hx. cbn in Hx. destruct (waitingLock (conds K c')) as [w|];
      [|injection Hx as <- <-; by apply framed_same].
    case_bool_decide; cbn in Hx; [|injection Hx as <- <-; by apply framed_same].
    destruct (cond_queue (conds K c')); [done|]. injection Hx as <- <-.
    apply framed_same; [done|cbn; by rewrite fn_lookup_insert_ne].
Qed.

(** The thread switched to sleeps again, in [P] or for its lock, or not at all. *)
Definition sleeps_again (r : option resumption) : option resumption :=
  match r with Some (InP s) => Some (InP s) | Some (InWait _ l) => Some (InAcquire l) | _ => None end.

Lemma Run_framed c n K st K' : Run n K = Done (st, K') →
  (∀ u, u ≠ n → suspended K' u = suspended K u) ∧
  suspended K' n = (match st with Returned => None | Slept => sleeps_again (suspended K n) end) ∧
  (st = Slept → is_Some (sleeps_again (suspended K n))) ∧ conds K' c = conds K c.
Proof.
  unfold Run. intros HR. cbn in HR. set (K1 := with_suspended n None (with_current (Some n) K)).
  assert (∀ r, framed c n (sleeps_again r) K1 st K' → (∀ u, u ≠ n → suspended K' u = suspended K u) ∧
    suspended K' n = (match st with Returned => None | Slept => sleeps_again r end) ∧
    (st = Slept → is_Some (sleeps_again r)) ∧ conds K' c = conds K c) as Hdone.
  { intros r [Ho Hs Hc]. cbn in Hs. rewrite fn_lookup_insert in Hs.
    split_and!; [|by destruct Hs as [[-> ?]|(-> & ? & _)]|by destruct Hs as [[-> ?]|(_ & _ & ?)]|done].
    intros u Hu. rewrite Ho by done. cbn. by rewrite fn_lookup_insert_ne. }
  unfold bind, put, get in HR. cbn in HR. fold K1 in HR. apply Hdone.
  destruct (suspended K n) as [[s|l|c' l]|]; cbn [resume sleeps_again] in *.
  - by apply P_framed.
  - injection HR as <- <-. by apply framed_same.
  - by apply (Acquire_framed _ l).
  - injection HR as <- <-. by apply framed_same.
Qed.

(** A call that does not name the lock [lock]. *)
Definition leaves_lock (lock : nat) (x : call) : Prop :=
  match x with
  | CallAcquire l | CallRelease l => l ≠ lock
  | CallWait _ l => l ≠ Some lock
  | _ => True
  end.

Lemma call_lock lock x K st K' t : current K = Some t → leaves_lock lock x → run_call x K = Done (st, K') →
  locks K' lock = locks K lock.
Proof.
  intros Hc He Hx. destruct x as [s|s|l|l|c l|c l]; cbn [run_call leaves_lock] in *.
  - revert Hx. unfold P, currentThread, bind, get. cbn. rewrite Hc. cbn.
    destruct (value (sems K s) =? 0)%Z; cbn; [|by intros [= <- <-]].
    unfold Sleep, currentThread, bind, get. cbn. rewrite Hc. by intros [= <- <-].
  - destruct (V_framed _ _ _ _ Hx) as (_ & _ & _ & Hl). by rewrite Hl.
  - revert Hx. unfold Acquire, isHeldByCurrentThread, currentThread, bind, get. cbn. rewrite Hc. cbn. rewrite Hc. cbn.
    case_bool_decide; cbn; [by intros [= <- <-]|].
    destruct (lockState (locks K l)); cbn; [intros [= <- <-]; cbn; by rewrite fn_lookup_insert_ne|].
    unfold Sleep, currentThread, bind, get. cbn. rewrite Hc. intros [= <- <-]. cbn. by rewrite fn_lookup_insert_ne.
  - destruct (Release_framed _ _ _ _ Hx) as (_ & _ & _ & _ & Hl). by apply Hl.
  - unfold Wait, currentThread in Hx. unfold bind, get in Hx. cbn in Hx. rewrite Hc in Hx. cbn in Hx.
    destruct l as [l|]; [|by injection Hx as _ <-].
    case_bool_decide; cbn in Hx; [|by injection Hx as _ <-].
    match type of Hx with match Release l ?K0 with _ => _ end = _ => set (K1 := K0) in Hx end.
    destruct (Release l K1) as [[r K2]|] eqn:HR; [|done].
    destruct (Release_framed _ _ _ _ HR) as (_ & _ & _ & _ & Hl).
    unfold Sleep, currentThread, bind, get in Hx. cbn in Hx. destruct (current K2) as [t'|]; [|done].
    injection Hx as _ <-. cbn. rewrite Hl; [done|]. by intros ->.
  - unfold Signal, bind, get in Hx. cbn in Hx. destruct (waitingLock (conds K c)) as [w|]; [|by injection Hx as _ <-].
    case_bool_decide; cbn in Hx; [|by injection Hx as _ <-].
    destruct (cond_queue (conds K c)); [done|]. by injection Hx as _ <-.
Qed.

Lemma Run_lock l n K st K' : Run n K = Done (st, K') → (∀ c, suspended K n ≠ Some (InWait c l)) →
  locks K' l = locks K l.
Proof.
  intros HR Hn. unfold Run, bind, put, get in HR. cbn in HR.
  set (K1 := with_suspended n None (with_current (Some n) K)) in HR. change (locks K l) with (locks K1 l).
  destruct (suspended K n) as [[s|l'|c' l']|]; cbn [resume] in *.
  - by apply (call_lock l (CallP s) K1 st K' n).
  - by injection HR as _ <-.
  - apply (call_lock l (CallAcquire l') K1 st K' n); [done| |done]. cbn. intros ->. by destruct (Hn c').
  - by injection HR as _ <-.
Qed.

Lemma FindNextToRun_cons K n r : readyList K = n :: r → FindNextToRun K = Done (Some n, with_ready r K).
Proof. intros Hr. unfold FindNextToRun, bind, get. cbn. by rewrite Hr. Qed.
Lemma FindNextToRun_nil K : readyList K = [] → FindNextToRun K = Done (None, K).
Proof. intros Hr. unfold FindNextToRun, bind, get. cbn. by rewrite Hr. Qed.


(** The same objects, cell by cell. *)
Lemma kinv_ext ts K K' : kinv ts K → current K' = current K → readyList K' = readyList K →
  suspended K' = suspended K → (∀ s, sems K' s = sems K s) → (∀ l, locks K' l = locks K l) →
  (∀ c, conds K' c = conds K c) → kinv ts K'.
Proof.
  intros [Hp Hl Hcv Hs] H1 H2 H3 H4 H5 H6. constructor; rewrite ?H1, ?H2, ?H3.
  - eapply places_ext; [|exact Hp]. intros [s|l|c]; cbn; by rewrite ?H4, ?H5, ?H6.
  - intros l. by rewrite H5.
  - intros c. by rewrite H6.
  - intros s. by rewrite H4.
Qed.

(** ** Objects that are not in use yet *)

(** The locks from [nl] and the condition variables from [nc] on are as new, and
    nobody sleeps for one of them. *)
Definition below (nl nc : nat) (r : resumption) : Prop :=
  match r with InP _ => True | InAcquire l => l < nl | InWait c l => c < nc ∧ l < nl end.

Record own_ok (nl nc : nat) K : Prop := {
  ow_locks : ∀ l, nl ≤ l → locks K l = new_Lock;
  ow_conds : ∀ c, nc ≤ c → conds K c = new_Condition;
  ow_sleepers : ∀ t r, suspended K t = Some r → below nl nc r
}.

Definition call_below (nl nc : nat) (x : call) : Prop :=
  match x with
  | CallP _ | CallV _ => True
  | CallAcquire l | CallRelease l => l < nl
  | CallWait c l => c < nc ∧ ∀ l', l = Some l' → l' < nl
  | CallSignal c _ => c < nc
  end.

Lemma own_call nl nc K K' x st t : own_ok nl nc K → current K = Some t → suspended K t = None →
  call_below nl nc x → run_call x K = Done (st, K') → own_ok nl nc K'.
Proof.
  intros [Hl Hc Hs] Hct Hst Hx HR. constructor.
  - intros l Hle. rewrite (call_lock l x K st K' t); [by apply Hl|done| |done].
    destruct x as [s|s|l'|l'|c [l'|]|c l']; cbn in *; try done; try lia. destruct Hx as [_ Hx].
    specialize (Hx l' eq_refl). intros [= ->]. lia.
  - intros c Hle. destruct (call_framed c x K st K' t Hct HR) as [_ _ ->]; [|by apply Hc].
    destruct x as [s|s|l'|l'|c' l'|c' l']; cbn in *; try done; lia.
  - intros u r Hr. destruct (call_framed nc x K st K' t Hct HR) as [Ho Hself _].
    { destruct x as [s|s|l'|l'|c' l'|c' l']; cbn in *; try done; lia. }
    destruct (decide (u = t)) as [->|]; [|apply (Hs u); by rewrite <- Ho].
    destruct Hself as [[_ He]|(_ & He & _)]; rewrite He in Hr; [congruence|].
    destruct x as [s|s|l'|l'|c' [l'|]|c' l']; cbn in *; simplify_eq; cbn; [done|done|].
    split; [apply Hx|]. by apply Hx.
Qed.

Lemma own_run nl nc K K' n st : own_ok nl nc K → Run n K = Done (st, K') → own_ok nl nc K'.
Proof.
  intros [Hl Hc Hs] HR. constructor.
  - intros l Hle. rewrite (Run_lock l n K st K' HR); [by apply Hl|]. intros c Hn. apply Hs in Hn as [_ ?]. lia.
  - intros c Hle. destruct (Run_framed c n K st K' HR) as (_ & _ & _ & ->). by apply Hc.
  - intros u r Hr. destruct (Run_framed nc n K st K' HR) as (Ho & Hn & _ & _).
    destruct (decide (u = n)) as [->|]; [|apply (Hs u); by rewrite <- Ho].
    rewrite Hn in Hr. destruct st; [done|]. destruct (suspended K n) as [[s|l|c l]|] eqn:Hsn; cbn in Hr; simplify_eq;
      [done|]. by apply Hs in Hsn as [_ ?].
Qed.

Lemma own_switch nl nc K K0 : own_ok nl nc K → suspended K0 = suspended K → locks K0 = locks K →
  conds K0 = conds K → own_ok nl nc K0.
Proof. intros [Hl Hc Hs] H1 H2 H3. constructor; rewrite ?H1, ?H2, ?H3; done. Qed.

Lemma own_dispatch nl nc K K' st : own_ok nl nc K → dispatch K = Done (st, K') → own_ok nl nc K'.
Proof.
  intros Ho Hd. unfold dispatch in Hd. destruct (readyList K) as [|n r] eqn:Hr.
  - rewrite (bind_Done _ _ _ _ _ (FindNextToRun_nil K Hr)) in Hd. by injection Hd as _ <-.
  - rewrite (bind_Done _ _ _ _ _ (FindNextToRun_cons K n r Hr)) in Hd. unfold bind in Hd.
    destruct (Run n (with_ready r K)) as [[st1 K1]|] eqn:HR; [|done]. injection Hd as _ <-.
    eapply own_run; [|done]. by eapply own_switch.
Qed.

Lemma own_Yield nl nc K K' st t : own_ok nl nc K → current K = Some t → Yield K = Done (st, K') → own_ok nl nc K'.
Proof.
  intros Ho Hc Hd. unfold Yield in Hd.
  rewrite (bind_Done _ _ K t K) in Hd by (unfold currentThread, bind, get; by rewrite Hc).
  destruct (readyList K) as [|n r] eqn:Hr.
  - rewrite (bind_Done _ _ _ _ _ (FindNextToRun_nil K Hr)) in Hd. by injection Hd as _ <-.
  - rewrite (bind_Done _ _ _ _ _ (FindNextToRun_cons K n r Hr)) in Hd.
    apply (own_run nl nc (with_ready (r ++ [t]) K) K' n st); [by eapply own_switch|exact Hd].
Qed.
End frame.
