(* ===== verification/KernelTables.v ===== *)
(** * KernelTables: locks and conditions of user programs, userprog/exception.cc

    The build without NETWORK: a program names a lock or a condition variable by
    its number in a table of 200; an entry says whose it is and whether it is to
    be deleted once nobody uses it.  A system call is cut at the end of the
    kernel routine it calls: that routine can sleep, and enables interrupts when
    it returns, so that other threads run before the rest of the call, the
    [tail].  Entries are objects on the heap; [delete] removes them, and reading
    one that is gone is a fault. *)
From S2P Require Import Prelude BitMap HandleTable Synch SynchFrame.
From stdpp Require Import functions base list gmap.
From Stdlib Require Import ZArith Lia ZifyBool.

Local Open Scope Z_scope.

Definition lockTableSize : Z := 200.
Definition ConditionTableSize : Z := 200.

(** [LockTableEntry] and [ConditionTableEntry]; an [AddrSpace *] is a number. *)
Record TableEntry := mkTE { object : nat; owner_space : nat; isToBeDeleted : bool }.

(** The [BitMap], the array of pointers, the entries on the heap, and the
    addresses that [new] will use next. *)
Record ObjTable := mkObjTable {
  handles : Table nat;
  entries : gmap nat TableEntry;
  next_entry : nat;
  next_object : nat
}.

(** What is left of a call after the kernel routine. *)
Inductive tail :=
| AfterRelease (lock : Z) (le : nat)
| AfterSignal (condition : Z) (ce : nat)
| Broadcasting (condition : Z) (ce : nat) (l : nat).

Record Kern := mkKern {
  sync : Kernel;
  lockTab : ObjTable;
  condTab : ObjTable;
  tails : tid → option tail
}.

Definition with_sync (K : Kernel) (S : Kern) : Kern := mkKern K (lockTab S) (condTab S) (tails S).
Definition with_lockTab (x : ObjTable) (S : Kern) : Kern := mkKern (sync S) x (condTab S) (tails S).
Definition with_condTab (x : ObjTable) (S : Kern) : Kern := mkKern (sync S) (lockTab S) x (tails S).
Definition with_tail (t : tid) (x : option tail) (S : Kern) : Kern :=
  mkKern (sync S) (lockTab S) (condTab S) (<[t := x]> (tails S)).

(** ** Entries *)

(** [table[i]] as a pointer, and through it. *)
Definition entry_at (T : ObjTable) (p : nat) : outcome TableEntry :=
  match entries T !! p with Some e => Done e | None => Fault NullDeref end.

(** [new LockTableEntry()], [new Lock(...)] and [lockTable[i] = te]. *)
Definition new_entry (T : ObjTable) (space : nat) : outcome (Z * ObjTable) :=
  let? r := Find (tmap (handles T)) in
  if r.1 =? -1 then
    Done (-1, mkObjTable (mkTable r.2 (ptrs (handles T)) (tsize (handles T))) (entries T) (next_entry T) (next_object T))
  else
    let te := mkTE (next_object T) space false in
    let? v := vset (ptrs (handles T)) r.1 (Some (next_entry T)) in
    Done (r.1, mkObjTable (mkTable r.2 v (tsize (handles T))) (<[next_entry T := te]> (entries T))
      (S (next_entry T)) (S (next_object T))).

(** [delete te; table[i] = NULL; Clear(i)]. *)
Definition delete_entry (T : ObjTable) (i : Z) (p : nat) : outcome ObjTable :=
  let? _ := entry_at T p in
  let? v := vset (ptrs (handles T)) i None in
  let? m := Clear (tmap (handles T)) i in
  Done (mkObjTable (mkTable m v (tsize (handles T))) (base.delete p (entries T)) (next_entry T) (next_object T)).

Definition mark_entry (T : ObjTable) (p : nat) : outcome ObjTable :=
  let? e := entry_at T p in
  Done (mkObjTable (handles T) (<[p := mkTE (object e) (owner_space e) true]> (entries T)) (next_entry T) (next_object T)).

Section calls.
(** [currentThread->space] *)
Context (space_of : tid → nat).

(** The checks on a number: its range, that the entry exists, and whose it is. *)
Definition validated (T : ObjTable) (t : tid) (i : Z) : outcome bool :=
  if (i <? 0) || (tsize (handles T) <=? i) then Done false
  else
    let? f := vget (ptrs (handles T)) i in
    match f with
    | None => Done false
    | Some p => let? e := entry_at T p in Done (bool_decide (owner_space e = space_of t))
    end.

Definition on_sync {A} (op : M Kernel A) : M Kern A := λ S,
  match op (sync S) with Done (a, K) => Done (a, with_sync K S) | Fault f => Fault f end.

Definition current_thread : M Kern tid := on_sync currentThread.

(** The pointer [table[i]] where the code follows it without a test. *)
Definition pointer (T : ObjTable) (i : Z) : outcome nat :=
  let? f := vget (ptrs (handles T)) i in match f with Some p => Done p | None => Fault NullDeref end.

Definition Lock_Syscall_InputValidation (lock : Z) : M Kern bool :=
  let! t := current_thread in
  let! S := get in lift (validated (lockTab S) t lock).

Definition Condition_Syscall_InputValidation (cond lock : Z) : M Kern bool :=
  let! ok := Lock_Syscall_InputValidation lock in
  if negb ok then ret false
  else
    let! t := current_thread in
    let! S := get in lift (validated (condTab S) t cond).

(** ** Locks *)

Definition CreateLock_Syscall : M Kern Z :=
  let! t := current_thread in
  let! S := get in
  let! r := lift (new_entry (lockTab S) (space_of t)) in
  (if r.1 =? -1 then put (with_lockTab r.2 S)
   else put (with_lockTab r.2 (with_sync (with_lock (next_object (lockTab S)) new_Lock (sync S)) S))) ;;;
  ret r.1.

Definition Acquire_Syscall (lock : Z) : M Kern unit :=
  let! ok := Lock_Syscall_InputValidation lock in
  if negb ok then ret ()
  else
    let! S := get in
    let! p := lift (pointer (lockTab S) lock) in
    let! le := lift (entry_at (lockTab S) p) in
    let! _s := on_sync (Acquire (object le)) in ret ().

Definition Release_Syscall (lock : Z) : M Kern unit :=
  let! ok := Lock_Syscall_InputValidation lock in
  if negb ok then ret ()
  else
    let! t := current_thread in
    let! S := get in
    let! p := lift (pointer (lockTab S) lock) in
    let! le := lift (entry_at (lockTab S) p) in
    modify (with_tail t (Some (AfterRelease lock p))) ;;;
    let! _s := on_sync (Release (object le)) in ret ().

Definition DestroyLock_Syscall (lock : Z) : M Kern unit :=
  let! ok := Lock_Syscall_InputValidation lock in
  if negb ok then ret ()
  else
    let! S := get in
    let! p := lift (pointer (lockTab S) lock) in
    let! le := lift (entry_at (lockTab S) p) in
    let! busy := on_sync (isBusy (object le)) in
    let! T := lift (if busy : bool then mark_entry (lockTab S) p else delete_entry (lockTab S) lock p) in
    modify (with_lockTab T).

(** ** Conditions *)

Definition Condition_isBusy (c : nat) : M Kernel bool :=
  let! K := get in ret (negb (bool_decide (cond_queue (conds K c) = []))).

Definition CreateCondition_Syscall : M Kern Z :=
  let! t := current_thread in
  let! S := get in
  let! r := lift (new_entry (condTab S) (space_of t)) in
  (if r.1 =? -1 then put (with_condTab r.2 S)
   else put (with_condTab r.2 (with_sync (with_cond (next_object (condTab S)) new_Condition (sync S)) S))) ;;;
  ret r.1.

(** The two entries of a call on a condition with its lock. *)
Definition condition_and_lock (condition lock : Z) : M Kern (option (nat * TableEntry * TableEntry)) :=
  let! ok := Condition_Syscall_InputValidation condition lock in
  if negb ok then ret None
  else
    let! S := get in
    let! p := lift (pointer (condTab S) condition) in
    let! ce := lift (entry_at (condTab S) p) in
    let! q := lift (pointer (lockTab S) lock) in
    let! le := lift (entry_at (lockTab S) q) in
    ret (Some (p, ce, le)).

Definition Wait_Syscall (condition lock : Z) : M Kern unit :=
  let! r := condition_and_lock condition lock in
  match r with
  | None => ret ()
  | Some (_, ce, le) => let! _s := on_sync (Wait (object ce) (Some (object le))) in ret ()
  end.

Definition Signal_Syscall (condition lock : Z) : M Kern unit :=
  let! r := condition_and_lock condition lock in
  match r with
  | None => ret ()
  | Some (p, ce, le) =>
      let! t := current_thread in
      modify (with_tail t (Some (AfterSignal condition p))) ;;;
      let! _s := on_sync (Signal (object ce) (Some (object le))) in ret ()
  end.

(** [Broadcast] enables interrupts before its loop. *)
Definition Broadcast_Syscall (condition lock : Z) : M Kern unit :=
  let! r := condition_and_lock condition lock in
  match r with
  | None => ret ()
  | Some (p, ce, le) =>
      let! t := current_thread in
      let! S := get in
      match waitingLock (conds (sync S) (object ce)) with
      | None => put (with_tail t (Some (AfterSignal condition p)) S)
      | Some _ => put (with_tail t (Some (Broadcasting condition p (object le))) S)
      end
  end.

(** No validation here. *)
Definition DestroyCondition_Syscall (condition : Z) : M Kern unit :=
  let! S := get in
  let! p := lift (pointer (condTab S) condition) in
  let! ce := lift (entry_at (condTab S) p) in
  let! busy := on_sync (Condition_isBusy (object ce)) in
  let! T := lift (if busy : bool then mark_entry (condTab S) p else delete_entry (condTab S) condition p) in
  modify (with_condTab T).

(** ** The tails *)

Definition finish (x : tail) : M Kern unit :=
  let! t := current_thread in
  let! S := get in
  match x with
  | AfterRelease lock p =>
      put (with_tail t None S) ;;;
      let! le := lift (entry_at (lockTab S) p) in
      let! busy := on_sync (isBusy (object le)) in
      if isToBeDeleted le && negb busy then
        let! T := lift (delete_entry (lockTab S) lock p) in modify (with_lockTab T)
      else ret ()
  | AfterSignal condition p =>
      put (with_tail t None S) ;;;
      let! ce := lift (entry_at (condTab S) p) in
      let! busy := on_sync (Condition_isBusy (object ce)) in
      if isToBeDeleted ce && negb busy then
        let! T := lift (delete_entry (condTab S) condition p) in modify (with_condTab T)
      else ret ()
  | Broadcasting condition p l =>
      let! ce := lift (entry_at (condTab S) p) in
      let! busy := on_sync (Condition_isBusy (object ce)) in
      if busy : bool then let! _s := on_sync (Signal (object ce) (Some l)) in ret ()
      else put (with_tail t (Some (AfterSignal condition p)) S)
  end.

(** ** The system *)

Inductive syscall :=
| SysCreateLock | SysAcquire (lock : Z) | SysRelease (lock : Z) | SysDestroyLock (lock : Z)
| SysCreateCondition | SysWait (c l : Z) | SysSignal (c l : Z) | SysBroadcast (c l : Z)
| SysDestroyCondition (c : Z).

Definition run_syscall (x : syscall) : M Kern unit :=
  match x with
  | SysCreateLock => let! _i := CreateLock_Syscall in ret ()
  | SysAcquire l => Acquire_Syscall l
  | SysRelease l => Release_Syscall l
  | SysDestroyLock l => DestroyLock_Syscall l
  | SysCreateCondition => let! _i := CreateCondition_Syscall in ret ()
  | SysWait c l => Wait_Syscall c l
  | SysSignal c l => Signal_Syscall c l
  | SysBroadcast c l => Broadcast_Syscall c l
  | SysDestroyCondition c => DestroyCondition_Syscall c
  end.

(** The thread that is switched to and goes on in [Wait] acquires its lock: the
    [Lock] has to be there still. *)
Definition lock_live (T : ObjTable) (l : nat) : bool :=
  bool_decide (map_Exists (λ _ e, object e = l) (entries T)).

Definition Run_next {A} (op : M Kernel A) : M Kern A :=
  let! S := get in
  match readyList (sync S) with
  | [] => on_sync op
  | n :: _ =>
      match suspended (sync S) n with
      | Some (InWait _ l) => if lock_live (lockTab S) l then on_sync op else fail NullDeref
      | _ => on_sync op
      end
  end.

(** The tables are global: no pointers at first. *)
Definition boot (ts : list tid) (values : nat → Z) (mem1 mem2 : nat → Z) : outcome Kern :=
  let? h1 := new_Table mem1 (replicate 200 None) lockTableSize in
  let? h2 := new_Table mem2 (replicate 200 None) ConditionTableSize in
  Done (mkKern (initial ts values) (mkObjTable h1 ∅ 0 0) (mkObjTable h2 ∅ 0 0) (λ _, None)).

(** A thread calls, or goes on with a call; threads are switched. *)
Inductive kstep (S : Kern) : Kern → Prop :=
| kstep_call t x S' : current (sync S) = Some t → tails S t = None → run_syscall x S = Done ((), S') → kstep S S'
| kstep_tail t x S' : current (sync S) = Some t → tails S t = Some x → finish x S = Done ((), S') → kstep S S'
| kstep_yield t st S' : current (sync S) = Some t → Run_next Yield S = Done (st, S') → kstep S S'
| kstep_dispatch st S' : current (sync S) = None → Run_next dispatch S = Done (st, S') → kstep S S'.

(** A schedule, executed. *)
Inductive kevent := KCall (x : syscall) | KTail | KYield | KDispatch.

Definition run_kevent (e : kevent) (S : Kern) : outcome Kern :=
  match e, current (sync S) with
  | KCall x, Some t =>
      match tails S t with
      | None => let? r := run_syscall x S in Done r.2
      | Some _ => Fault AssertFailed
      end
  | KTail, Some t =>
      match tails S t with
      | Some x => let? r := finish x S in Done r.2
      | None => Fault AssertFailed
      end
  | KYield, Some t => let? r := Run_next Yield S in Done r.2
  | KDispatch, None => let? r := Run_next dispatch S in Done r.2
  | _, _ => Fault AssertFailed
  end.

Fixpoint run_kevents (es : list kevent) (S : Kern) : outcome Kern :=
  match es with [] => Done S | e :: es' => let? S' := run_kevent e S in run_kevents es' S' end.

Inductive ksteps (S0 : Kern) : Kern → Prop :=
| ksteps_start : ksteps S0 S0
| ksteps_step S S' : ksteps S0 S → kstep S S' → ksteps S0 S'.

(** ** The tables *)

Definition at_slot (T : ObjTable) (i : Z) (p : nat) : Prop :=
  0 <= i ∧ ptrs (handles T) !! Z.to_nat i = Some (Some p).

(** A number in use has an entry of its own, with an object of its own. *)
Record tab_ok (T : ObjTable) : Prop := {
  ko_handles : table_ok (handles T);
  ko_size : tsize (handles T) = 200;
  ko_used : ∀ i, 0 <= i < 200 → used (tmap (handles T)) i = true ↔ ∃ p, at_slot T i p;
  ko_live : ∀ i p, at_slot T i p → is_Some (entries T !! p);
  ko_inj : ∀ i j p, at_slot T i p → at_slot T j p → i = j;
  ko_fresh : ∀ p e, entries T !! p = Some e → (p < next_entry T)%nat ∧ (object e < next_object T)%nat;
  ko_objects : ∀ p q e e', entries T !! p = Some e → entries T !! q = Some e' → object e = object e' → p = q
}.

Lemma at_slot_range T i p : tab_ok T → at_slot T i p → 0 <= i < 200.
Proof.
  intros HT [Hi Hp%lookup_lt_Some]. pose proof (to_length _ (ko_handles _ HT)). rewrite (ko_size _ HT) in *. lia.
Qed.

Lemma at_slot_vget T i p : at_slot T i p → vget (ptrs (handles T)) i = Done (Some p).
Proof. intros [Hi Hp]. apply vget_Some. done. Qed.

Lemma at_slot_entry T i p e : at_slot T i p → entries T !! p = Some e → pointer T i = Done p ∧ entry_at T p = Done e.
Proof. intros Hp He. unfold pointer, entry_at. by rewrite (at_slot_vget _ _ _ Hp), He. Qed.

Lemma pointer_at_slot T i p : pointer T i = Done p → at_slot T i p.
Proof.
  unfold pointer. destruct (vget (ptrs (handles T)) i) as [[q|]|] eqn:Hv; cbn; try done. intros [= ->].
  by apply vget_Some in Hv.
Qed.

Lemma at_slot_insert T i x m es n o : 0 <= i < Z.of_nat (length (ptrs (handles T))) →
  ∀ j q, at_slot (mkObjTable (mkTable m (<[Z.to_nat i := x]> (ptrs (handles T))) (tsize (handles T))) es n o) j q ↔
    (j = i ∧ x = Some q) ∨ (j ≠ i ∧ at_slot T j q).
Proof.
  intros Hi j q. unfold at_slot. cbn. destruct (decide (j = i)) as [->|Hne].
  - rewrite list_lookup_insert_eq by lia. naive_solver lia.
  - destruct (decide (0 <= j)); [rewrite list_lookup_insert_ne by lia|]; naive_solver lia.
Qed.

Lemma validated_spec T t i : tab_ok T → ∃ b, validated T t i = Done b ∧
  (b = true → ∃ p e, at_slot T i p ∧ entries T !! p = Some e ∧ owner_space e = space_of t) ∧
  (b = false → ∀ p e, at_slot T i p → entries T !! p = Some e → owner_space e ≠ space_of t).
Proof.
  intros HT. unfold validated. destruct (_ || _) eqn:Hr.
  - exists false. split_and!; [done|done|]. intros _ p e Hp. pose proof (at_slot_range _ _ _ HT Hp).
    rewrite (ko_size _ HT) in Hr. lia.
  - destruct (vget_in (ptrs (handles T)) i) as (f & -> & Hl); [rewrite (to_length _ (ko_handles _ HT)); lia|].
    cbn [obind]. destruct f as [p|].
    + assert (at_slot T i p) as Hp by (split; [lia|done]). destruct (ko_live _ HT _ _ Hp) as [e He].
      unfold entry_at. rewrite He. cbn. eexists. split; [done|]. split.
      * intros Hb%bool_decide_eq_true. by exists p, e.
      * intros Hb%bool_decide_eq_false p' e' [_ Hp'] He'. congruence.
    + exists false. split_and!; [done|done|]. intros _ p e [_ Hp]. congruence.
Qed.

Lemma new_entry_spec T a : tab_ok T →
  (new_entry T a = Done (-1, T) ∧ ∀ i, 0 <= i < 200 → ∃ p, at_slot T i p) ∨
  (∃ k T', new_entry T a = Done (k, T') ∧ 0 <= k < 200 ∧ (∀ p, ¬ at_slot T k p) ∧ tab_ok T' ∧
     next_entry T' = S (next_entry T) ∧ next_object T' = S (next_object T) ∧
     entries T' = <[next_entry T := mkTE (next_object T) a false]> (entries T) ∧
     ∀ j q, at_slot T' j q ↔ (j = k ∧ q = next_entry T) ∨ (j ≠ k ∧ at_slot T j q)).
Proof.
  intros HT. pose proof HT as [Hh Hs Hu Hlv Hinj Hf Ho]. destruct Hh as [Hm Hn Hl]. unfold new_entry.
  destruct (Find_cases (tmap (handles T)) Hm) as [[-> Ha]|(k & m & -> & Hk & Hfree & _ & Hm' & Hn' & Hu')]; cbn [obind fst snd].
  - left. split; [by destruct T as [[] ? ? ?]|]. intros i Hi. apply Hu; [done|]. apply Ha. lia.
  - right. rewrite (proj2 (Z.eqb_neq k (-1))) by lia. rewrite vset_in by lia. cbn [obind].
    assert (entries T !! next_entry T = None) as Hnew.
    { destruct (entries T !! next_entry T) as [e|] eqn:He; [|done]. apply Hf in He. lia. }
    pose proof (at_slot_insert T k (Some (next_entry T)) m
      (<[next_entry T := mkTE (next_object T) a false]> (entries T)) (S (next_entry T)) (S (next_object T))
      ltac:(lia)) as Hat.
    assert (∀ p, ¬ at_slot T k p) as Hno.
    { intros p Hp. assert (used (tmap (handles T)) k = true) by (apply Hu; [lia|eauto]). congruence. }
    eexists k, _. split; [reflexivity|]. split; [lia|]. split; [done|].
    split; [|split; [done|]; split; [done|]; split; [done|]; intros j q; rewrite Hat; naive_solver].
    constructor; cbn; [constructor; cbn; [done|congruence|by rewrite length_insert]|done|..].
    + intros i Hi. rewrite Hu' by lia. setoid_rewrite Hat. rewrite orb_true_iff, Hu by lia.
      destruct (Z.eqb_spec i k) as [->|]; naive_solver.
    + intros i p. rewrite Hat. intros [[-> [= <-]]|[_ Hp]]; [by rewrite lookup_insert_eq|].
      destruct (Hlv i p Hp) as [e He]. rewrite lookup_insert_ne by (intros <-; congruence). by exists e.
    + intros i j p. rewrite !Hat. intros [[-> [= <-]]|[? Hi]] [[-> Hj]|[? Hj]]; [done|..].
      * destruct (Hlv _ _ Hj). congruence.
      * injection Hj as <-. destruct (Hlv _ _ Hi). congruence.
      * by eapply Hinj.
    + intros p e [[<- <-]|[_ [? ?]%Hf]]%lookup_insert_Some; cbn; lia.
    + intros p q e e' [[<- <-]|[Hp He]]%lookup_insert_Some [[<- <-]|[Hq He']]%lookup_insert_Some; cbn; [done|..].
      * intros Heq. apply Hf in He' as [_ ?]. lia.
      * intros Heq. apply Hf in He as [_ ?]. lia.
      * by apply Ho.
Qed.

Lemma delete_entry_spec T i p : tab_ok T → at_slot T i p → ∃ T', delete_entry T i p = Done T' ∧ tab_ok T' ∧
  next_entry T' = next_entry T ∧ next_object T' = next_object T ∧ entries T' = base.delete p (entries T) ∧
  ∀ j q, at_slot T' j q ↔ j ≠ i ∧ at_slot T j q.
Proof.
  intros HT Hp. pose proof (at_slot_range _ _ _ HT Hp) as Hr.
  pose proof HT as [Hh Hs Hu Hlv Hinj Hf Ho]. destruct Hh as [Hm Hn Hl]. unfold delete_entry, entry_at.
  destruct (Hlv _ _ Hp) as [e He]. rewrite He. cbn [obind]. rewrite vset_in by lia. cbn [obind].
  destruct (Clear_spec (tmap (handles T)) i Hm ltac:(lia)) as (m & -> & Hm' & Hn' & Hu'). cbn [obind].
  pose proof (at_slot_insert T i None m (base.delete p (entries T)) (next_entry T) (next_object T) ltac:(lia)) as Hat.
  eexists. split; [reflexivity|].
  split; [|split; [done|]; split; [done|]; split; [done|]; intros j q; rewrite Hat; naive_solver].
  constructor; cbn; [constructor; cbn; [done|congruence|by rewrite length_insert]|done|..].
  - intros j Hj. rewrite Hu' by lia. setoid_rewrite Hat. rewrite andb_true_iff, Hu by lia.
    destruct (Z.eqb_spec j i) as [->|]; naive_solver.
  - intros j q. rewrite Hat. intros [[_ ?]|[Hne Hq]]; [done|]. destruct (Hlv _ _ Hq) as [e' He'].
    rewrite lookup_delete_ne by (intros <-; apply Hne; by eapply Hinj). by exists e'.
  - intros j k q. rewrite !Hat. naive_solver.
  - intros q e' [_ He']%lookup_delete_Some. by apply Hf.
  - intros q r e1 e2 [_ H1]%lookup_delete_Some [_ H2]%lookup_delete_Some. by apply Ho.
Qed.

Lemma mark_entry_spec T p e : tab_ok T → entries T !! p = Some e → ∃ T', mark_entry T p = Done T' ∧ tab_ok T' ∧
  next_entry T' = next_entry T ∧ next_object T' = next_object T ∧ handles T' = handles T ∧
  entries T' = <[p := mkTE (object e) (owner_space e) true]> (entries T).
Proof.
  intros [Hh Hs Hu Hlv Hinj Hf Ho] He. unfold mark_entry, entry_at. rewrite He. cbn [obind].
  eexists. split; [reflexivity|]. split_and!; [|done..]. constructor; cbn; [done|done|done| |done|..].
  - intros i q Hq. destruct (Hlv i q Hq) as [e' He']. destruct (decide (p = q)) as [<-|];
      [by rewrite lookup_insert_eq|rewrite lookup_insert_ne by done; by exists e'].
  - intros q e' [[<- <-]|[_ ?]]%lookup_insert_Some; [by apply (Hf p e)|by apply Hf].
  - intros q r e1 e2 [[<- <-]|[_ H1]]%lookup_insert_Some [[<- <-]|[_ H2]]%lookup_insert_Some; cbn; [done|..].
    + by apply (Ho p r e).
    + intros Heq. by apply (Ho q p e1 e).
    + by apply Ho.
Qed.

(** ** What a step leaves alone *)

Definition live (T : ObjTable) (l : nat) : Prop := ∃ p e, entries T !! p = Some e ∧ object e = l.

Lemma lock_live_true T l : lock_live T l = true ↔ live T l.
Proof. unfold lock_live, live. rewrite bool_decide_eq_true. unfold map_Exists. naive_solver. Qed.

(** No address is used twice: an entry or an object that is gone stays gone, and
    an entry stays under its number. *)
Record evolves (T T' : ObjTable) : Prop := {
  ev_entry : (next_entry T <= next_entry T')%nat;
  ev_object : (next_object T <= next_object T')%nat;
  ev_kept : ∀ p, (p < next_entry T)%nat → is_Some (entries T' !! p) → is_Some (entries T !! p);
  ev_slot : ∀ i p, (p < next_entry T)%nat → is_Some (entries T' !! p) → at_slot T i p → at_slot T' i p;
  ev_dead : ∀ l, (l < next_object T)%nat → live T' l → live T l
}.

Lemma evolves_refl T : evolves T T.
Proof. by constructor. Qed.

Lemma new_entry_evolves T T' k a : (∀ p, ¬ at_slot T k p) → next_entry T' = S (next_entry T) →
  next_object T' = S (next_object T) → entries T' = <[next_entry T := mkTE (next_object T) a false]> (entries T) →
  (∀ j q, at_slot T' j q ↔ (j = k ∧ q = next_entry T) ∨ (j ≠ k ∧ at_slot T j q)) → evolves T T'.
Proof.
  intros Hk Hn Ho He Hs. constructor; rewrite ?Hn, ?Ho, ?He; [lia|lia|..].
  - intros p Hp. by rewrite lookup_insert_ne by lia.
  - intros i p _ _ Hi. apply Hs. right. split; [|done]. intros ->. by apply (Hk p).
  - intros l Hl (p & e & Hp & Hol). rewrite He in Hp.
    apply lookup_insert_Some in Hp as [[_ <-]|[_ Hp]]; [cbn in Hol; lia|]. by exists p, e.
Qed.

Lemma delete_entry_evolves T T' i p : at_slot T i p → next_entry T' = next_entry T → next_object T' = next_object T →
  entries T' = base.delete p (entries T) → (∀ j q, at_slot T' j q ↔ j ≠ i ∧ at_slot T j q) → evolves T T'.
Proof.
  intros Hi Hn Ho He Hs. constructor; rewrite ?Hn, ?Ho, ?He; [done|done|..].
  - intros q _ [e Hq]. apply lookup_delete_Some in Hq as [_ Hq]. by exists e.
  - intros j q _ [e Hq] Hj. apply lookup_delete_Some in Hq as [Hne _]. apply Hs. split; [|done]. intros ->.
    destruct Hi as [_ Hi], Hj as [_ Hj]. congruence.
  - intros l _ (q & e & Hq & Hol). rewrite He in Hq. apply lookup_delete_Some in Hq as [_ Hq]. by exists q, e.
Qed.

Lemma mark_entry_evolves T T' p e : entries T !! p = Some e → next_entry T' = next_entry T →
  next_object T' = next_object T → handles T' = handles T →
  entries T' = <[p := mkTE (object e) (owner_space e) true]> (entries T) → evolves T T'.
Proof.
  intros Hp Hn Ho Hh He. constructor; rewrite ?Hn, ?Ho, ?He; [done|done|..].
  - intros q _ Hq. destruct (decide (p = q)) as [<-|]; [by rewrite Hp|by rewrite lookup_insert_ne in Hq].
  - intros i q _ _ Hq. unfold at_slot. by rewrite Hh.
  - intros l _ (q & e' & Hq & Hol). rewrite He in Hq.
    apply lookup_insert_Some in Hq as [[<- <-]|[_ Hq]]; [by exists p, e|by exists q, e'].
Qed.

Lemma evolves_trans T1 T2 T3 : evolves T1 T2 → evolves T2 T3 → evolves T1 T3.
Proof.
  intros [? ? Hk Hs Hd] [? ? Hk' Hs' Hd']. constructor; [lia|lia|..].
  - intros p Hp Hi. apply Hk; [done|]. apply Hk'; [lia|done].
  - intros i p Hp Hi Hat. apply Hs'; [lia|done|]. apply Hs; [done| |done]. apply Hk'; [lia|done].
  - intros l Hl Hlv. apply Hd; [done|]. apply Hd'; [lia|done].
Qed.

(** ** The invariant *)

(** An entry that a tail will look at is under its number, if it is there. *)
Definition held (T : ObjTable) (i : Z) (p : nat) : Prop :=
  (p < next_entry T)%nat ∧ (is_Some (entries T !! p) → at_slot T i p).

Definition tail_ok (S : Kern) (x : tail) : Prop :=
  match x with
  | AfterRelease i p => held (lockTab S) i p
  | AfterSignal i p => held (condTab S) i p
  | Broadcasting i p l => held (condTab S) i p ∧ (l < next_object (lockTab S))%nat
  end.

Record inv (ts : list tid) (S : Kern) : Prop := {
  iv_sync : kinv ts (sync S);
  iv_own : own_ok (next_object (lockTab S)) (next_object (condTab S)) (sync S);
  iv_locks : tab_ok (lockTab S);
  iv_conds : tab_ok (condTab S);
  iv_tails : ∀ t x, tails S t = Some x → tail_ok S x
}.

(** A thread sleeps in a condition variable for a lock that is gone, and no
    [Broadcast] with that lock is under way. *)
Record stranded (t : tid) (c l : nat) (S : Kern) : Prop := {
  sd_queue : t ∈ cond_queue (conds (sync S) c);
  sd_sleeps : suspended (sync S) t = Some (InWait c l);
  sd_old : (l < next_object (lockTab S))%nat;
  sd_gone : ¬ live (lockTab S) l;
  sd_tails : ∀ u i p, tails S u ≠ Some (Broadcasting i p l)
}.

(** What every step guarantees. *)
Record good (ts : list tid) (S S' : Kern) : Prop := {
  gd_inv : inv ts S';
  gd_locks : evolves (lockTab S) (lockTab S');
  gd_conds : evolves (condTab S) (condTab S');
  gd_stranded : ∀ t c l, stranded t c l S → stranded t c l S'
}.

Lemma held_evolves T T' i p : evolves T T' → held T i p → held T' i p.
Proof.
  intros [? ? Hk Hs _] [Hp Hh]. split; [lia|]. intros He. apply Hs; [done|done|]. apply Hh. by apply Hk.
Qed.

Lemma tail_ok_evolves S S' x : evolves (lockTab S) (lockTab S') → evolves (condTab S) (condTab S') →
  tail_ok S x → tail_ok S' x.
Proof.
  intros Hl Hc. destruct x as [i p|i p|i p l]; cbn; [by apply held_evolves..|].
  intros [Hh ?]. split; [by eapply held_evolves|]. destruct Hl. lia.
Qed.

Lemma good_refl ts S : inv ts S → good ts S S.
Proof. intros H. constructor; [done|apply evolves_refl..|done]. Qed.

Lemma good_trans ts S1 S2 S3 : good ts S1 S2 → good ts S2 S3 → good ts S1 S3.
Proof. intros [] []. constructor; [done|by eapply evolves_trans..|auto]. Qed.

(** ** Steps of the kernel below *)

Lemma waiter_kept ts K K' u x t c l st : kinv ts K → current K = Some u → t ∈ cond_queue (conds K c) →
  suspended K t = Some (InWait c l) → (∀ c', x ≠ CallSignal c' (Some l)) → run_call x K = Done (st, K') →
  t ∈ cond_queue (conds K' c) ∧ suspended K' t = suspended K t.
Proof.
  intros Hk Hu Hq Hs Hx HR.
  assert (t ≠ u) as Hne.
  { intros ->. destruct (current_facts _ K u Hk Hu) as (_ & _ & Hn). by apply (Hn (OCond c)). }
  assert (∀ d, match x with CallWait c' _ | CallSignal c' _ => c' ≠ d | _ => True end →
    suspended K' t = suspended K t ∧ conds K' d = conds K d) as Hfr.
  { intros d Hd. destruct (call_framed d x K st K' u Hu HR Hd) as [Ho _ ?]. split; [by apply Ho|done]. }
  split; [|destruct x as [s|s|l'|l'|c' l'|c' l']; (apply (Hfr O); done) || (apply (Hfr (Datatypes.S c')); lia)].
  destruct (k_conds _ _ _ Hk c) as [_ Hcl]. destruct (Hcl t Hq) as (l0 & Hl0 & Hw). assert (l0 = l) as -> by congruence.
  destruct x as [s|s|l'|l'|c' l'|c' l']; try (by destruct (Hfr c I) as [_ ->]);
    (destruct (decide (c' = c)) as [->|]; [|by destruct (Hfr c ltac:(done)) as [_ ->]]); cbn [run_call] in HR.
  - unfold Wait, currentThread in HR. unfold bind, get in HR. cbn in HR. rewrite Hu in HR. cbn in HR.
    destruct l' as [l'|]; [|by injection HR as _ <-]. rewrite Hw in HR.
    case_bool_decide; cbn in HR; [|injection HR as _ <-; cbn; by rewrite fn_lookup_insert].
    match type of HR with match Release l' ?K0 with _ => _ end = _ => set (K1 := K0) in HR end.
    destruct (Release l' K1) as [[r K2]|] eqn:HRl; [|done].
    destruct (Release_framed _ _ _ _ HRl) as (_ & _ & Hc2 & _ & _).
    unfold Sleep, currentThread, bind, get in HR. cbn in HR. destruct (current K2) as [t'|]; [|done].
    injection HR as _ <-. cbn. rewrite Hc2. cbn. rewrite !fn_lookup_insert. cbn. rewrite elem_of_app. by left.
  - unfold Signal, bind, get in HR. cbn in HR. rewrite Hw in HR. case_bool_decide as Hl; cbn in HR.
    + by destruct (Hx c); rewrite Hl.
    + by injection HR as _ <-.
Qed.

(** The kernel below has moved, and the tables are as before. *)
Lemma good_sync ts S K' : inv ts S → kinv ts K' → own_ok (next_object (lockTab S)) (next_object (condTab S)) K' →
  (∀ t c l, stranded t c l S → t ∈ cond_queue (conds K' c) ∧ suspended K' t = Some (InWait c l)) →
  good ts S (with_sync K' S).
Proof.
  intros [? ? ? ? ?] Hk Ho Hs. constructor; [by constructor|apply evolves_refl..|].
  intros t c l Hst. pose proof (Hs t c l Hst) as [? ?]. destruct Hst. by constructor.
Qed.

Lemma wp_on_sync {A} (op : M Kernel A) Q S : wp no_fault op (λ a K, Q a (with_sync K S)) (sync S) →
  wp no_fault (on_sync op) Q S.
Proof. unfold wp, on_sync. by destruct (op (sync S)) as [[a K]|f]. Qed.

Lemma wp_current_thread t Q S : current (sync S) = Some t → Q t S → wp no_fault current_thread Q S.
Proof. intros Hc HQ. apply wp_on_sync, (wp_currentThread t); [done|]. by destruct S. Qed.

Lemma wp_call ts t x Q S : inv ts S → current (sync S) = Some t →
  call_below (next_object (lockTab S)) (next_object (condTab S)) x →
  (∀ c l, x = CallSignal c (Some l) → live (lockTab S) l ∨ ∃ u i p, tails S u = Some (Broadcasting i p l)) →
  (∀ st S', good ts S S' → Q st S') → wp no_fault (on_sync (run_call x)) Q S.
Proof.
  intros Hi Hc Hb Hl HQ. destruct (wp_no_fault _ _ _ (run_call_kinv x t _ (iv_sync _ _ Hi) Hc)) as (st & K' & HR & Hk & _).
  apply wp_on_sync. unfold wp. rewrite HR. apply HQ, good_sync; [done|done|..].
  - apply (own_call _ _ (sync S) K' x st t); [apply (iv_own _ _ Hi)|done| |done|done].
    by destruct (current_facts _ _ t (iv_sync _ _ Hi) Hc) as (_ & ? & _).
  - intros u d l Hst. destruct (waiter_kept ts (sync S) K' t x u d l st) as [? ->];
      [apply Hi|done|apply Hst|apply Hst| |done|split; [done|apply Hst]].
    intros c' ->. destruct Hst as [_ _ _ Hg Ht]. destruct (Hl c' l eq_refl) as [?|(v & i & p & Hv)]; [done|].
    by apply (Ht v i p).
Qed.

(** ** The calls *)

Lemma wp_validation t l Q S : current (sync S) = Some t → tab_ok (lockTab S) →
  (∀ ok, (ok = true → ∃ p e, at_slot (lockTab S) l p ∧ entries (lockTab S) !! p = Some e ∧ owner_space e = space_of t) →
     Q ok S) → wp no_fault (Lock_Syscall_InputValidation l) Q S.
Proof.
  intros Hc HT HQ. unfold Lock_Syscall_InputValidation. apply wp_bind, (wp_current_thread t); [done|].
  apply wp_bind, wp_get. destruct (validated_spec _ t l HT) as (b & Hb & H1 & _).
  apply (wp_lift _ b); [done|]. by apply HQ.
Qed.

Lemma wp_condition_and_lock t c l Q S : current (sync S) = Some t → tab_ok (lockTab S) → tab_ok (condTab S) →
  Q None S →
  (∀ p ce q le, at_slot (condTab S) c p → entries (condTab S) !! p = Some ce →
     at_slot (lockTab S) l q → entries (lockTab S) !! q = Some le → owner_space ce = space_of t →
     owner_space le = space_of t → Q (Some (p, ce, le)) S) → wp no_fault (condition_and_lock c l) Q S.
Proof.
  intros Hc HT HC HN HQ. unfold condition_and_lock, Condition_Syscall_InputValidation.
  apply wp_bind, wp_bind, (wp_validation t); [done|done|]. intros ok Hok. destruct ok; cbn [negb]; [|by apply wp_ret, wp_ret].
  apply wp_bind, (wp_current_thread t); [done|]. apply wp_bind, wp_get.
  destruct (validated_spec _ t c HC) as (b & Hb & H1 & _). apply (wp_lift _ b); [done|].
  destruct b; cbn [negb]; [|by apply wp_ret].
  destruct (Hok eq_refl) as (q & le & Hq & Hle & Hol). destruct (H1 eq_refl) as (p & ce & Hp & Hce & Hoc).
  destruct (at_slot_entry _ _ _ _ Hq Hle) as [Hq1 Hq2], (at_slot_entry _ _ _ _ Hp Hce) as [Hp1 Hp2].
  apply wp_bind, wp_get, wp_bind, (wp_lift _ p); [done|]. apply wp_bind, (wp_lift _ ce); [done|].
  apply wp_bind, (wp_lift _ q); [done|]. apply wp_bind, (wp_lift _ le); [done|]. apply wp_ret. by apply (HQ p ce q le).
Qed.

Lemma good_tail ts S t x : inv ts S →
  (∀ y, x = Some y → tail_ok S y ∧ ∀ i p l u c, y = Broadcasting i p l → ¬ stranded u c l S) →
  good ts S (with_tail t x S).
Proof.
  intros [? ? ? ? Ht] Hx. constructor; [constructor; try done|apply evolves_refl..|].
  - intros u y. cbn. destruct (decide (u = t)) as [->|]; [rewrite fn_lookup_insert|rewrite fn_lookup_insert_ne by done].
    + intros ->. by destruct (Hx y eq_refl).
    + intros Hy. exact (Ht u y Hy).
  - intros u c l Hs. pose proof Hs as [? ? ? ? Hn]. constructor; [done..|]. intros v i p. cbn.
    destruct (decide (v = t)) as [->|]; [rewrite fn_lookup_insert|by rewrite fn_lookup_insert_ne].
    intros ->. destruct (Hx _ eq_refl) as [_ Hd]. by apply (Hd i p l u c).
Qed.

Lemma stranded_lockTab u c l T' S : evolves (lockTab S) T' → stranded u c l S → stranded u c l (with_lockTab T' S).
Proof.
  intros He [? ? ? Hg ?]. constructor; [done|done| | |done]; cbn.
  - pose proof (ev_object _ _ He). lia.
  - intros Hl. apply Hg. by apply (ev_dead _ _ He).
Qed.

Lemma good_lockTab ts S T' : inv ts S → tab_ok T' → evolves (lockTab S) T' → next_object T' = next_object (lockTab S) →
  good ts S (with_lockTab T' S).
Proof.
  intros [? ? ? ? Ht] HT He Hn. constructor; [|done|apply evolves_refl|].
  - constructor; cbn; [done|by rewrite Hn|done|done|]. intros t x Hx.
    apply (tail_ok_evolves S); [done|apply evolves_refl|]. by apply (Ht t).
  - intros u c l. by apply stranded_lockTab.
Qed.

Lemma good_condTab ts S T' : inv ts S → tab_ok T' → evolves (condTab S) T' → next_object T' = next_object (condTab S) →
  good ts S (with_condTab T' S).
Proof.
  intros [? ? ? ? Ht] HT He Hn. constructor; [|apply evolves_refl|done|].
  - constructor; cbn; [done|by rewrite Hn|done|done|]. intros t x Hx.
    apply (tail_ok_evolves S); [apply evolves_refl|done|]. by apply (Ht t).
  - intros u c l []. by constructor.
Qed.

(** An object that is not in use yet looks like a new one. *)
Lemma good_new_lock ts S T' : inv ts S → tab_ok T' → evolves (lockTab S) T' →
  next_object T' = Datatypes.S (next_object (lockTab S)) →
  good ts S (with_lockTab T' (with_sync (with_lock (next_object (lockTab S)) new_Lock (sync S)) S)).
Proof.
  intros [Hk [Hl Hc Hs] ? ? Ht] HT He Hn. set (K' := with_lock (next_object (lockTab S)) new_Lock (sync S)).
  assert (∀ l, locks K' l = locks (sync S) l) as Hsame.
  { intros l. cbn. destruct (decide (l = next_object (lockTab S))) as [->|];
      [rewrite fn_lookup_insert; symmetry; by apply Hl|by rewrite fn_lookup_insert_ne]. }
  constructor; [|done|apply evolves_refl|].
  - constructor; cbn [lockTab condTab tails sync with_lockTab with_sync]; [by eapply kinv_ext| |done|done|].
    + constructor; [intros l ?; rewrite Hsame; apply Hl; lia|exact Hc|]. intros t r Hr.
      specialize (Hs t r Hr). destruct r; cbn in *; lia.
    + intros t x Hx. apply (tail_ok_evolves S); [done|apply evolves_refl|]. by apply (Ht t).
  - intros u c l Hst. apply (stranded_lockTab u c l T' (with_sync K' S)); [done|]. destruct Hst. by constructor.
Qed.

Lemma good_new_cond ts S T' : inv ts S → tab_ok T' → evolves (condTab S) T' →
  next_object T' = Datatypes.S (next_object (condTab S)) →
  good ts S (with_condTab T' (with_sync (with_cond (next_object (condTab S)) new_Condition (sync S)) S)).
Proof.
  intros [Hk [Hl Hc Hs] ? ? Ht] HT He Hn. set (K' := with_cond (next_object (condTab S)) new_Condition (sync S)).
  assert (∀ c, conds K' c = conds (sync S) c) as Hsame.
  { intros c. cbn. destruct (decide (c = next_object (condTab S))) as [->|];
      [rewrite fn_lookup_insert; symmetry; by apply Hc|by rewrite fn_lookup_insert_ne]. }
  constructor; [|apply evolves_refl|done|].
  - constructor; cbn [lockTab condTab tails sync with_condTab with_sync]; [by eapply kinv_ext| |done|done|].
    + constructor; [exact Hl|intros c ?; rewrite Hsame; apply Hc; lia|]. intros t r Hr.
      specialize (Hs t r Hr). destruct r; cbn in *; lia.
    + intros t x Hx. apply (tail_ok_evolves S); [apply evolves_refl|done|]. by apply (Ht t).
  - intros u c l [Hq ? ? ? ?]. constructor; [|done..]. cbn [sync with_condTab with_sync]. by rewrite Hsame.
Qed.

(** [delete] or the mark of an entry that is under its number. *)
Lemma retire_spec T i p e (b : bool) : tab_ok T → at_slot T i p → entries T !! p = Some e →
  ∃ T', (if b then mark_entry T p else delete_entry T i p) = Done T' ∧ tab_ok T' ∧ evolves T T' ∧
    next_object T' = next_object T.
Proof.
  intros HT Hp He. destruct b.
  - destruct (mark_entry_spec T p e HT He) as (T' & -> & ? & ? & ? & ? & ?). exists T'.
    split_and!; [done..| |done]. by eapply mark_entry_evolves.
  - destruct (delete_entry_spec T i p HT Hp) as (T' & -> & ? & ? & ? & ? & ?). exists T'.
    split_and!; [done..| |done]. by eapply delete_entry_evolves.
Qed.

Definition ends_good ts (S : Kern) : unit → Kern → Prop := λ _ S', good ts S S'.

Lemma wp_create_lock ts t S : inv ts S → current (sync S) = Some t →
  wp no_fault CreateLock_Syscall (λ _ S', good ts S S') S.
Proof.
  intros Hi Hc. unfold CreateLock_Syscall. apply wp_bind, (wp_current_thread t); [done|]. apply wp_bind, wp_get.
  destruct (new_entry_spec (lockTab S) (space_of t) (iv_locks _ _ Hi)) as [[-> _]|(k & T' & -> & Hk & Hno & HT & Hn & Ho & He & Hs)].
  - apply wp_bind, (wp_lift _ (-1, lockTab S)); [done|]. apply wp_bind. cbn. apply wp_put, wp_ret.
    destruct S. by apply good_refl.
  - apply wp_bind, (wp_lift _ (k, T')); [done|]. apply wp_bind. cbn [fst snd]. rewrite (proj2 (Z.eqb_neq k (-1))) by lia.
    apply wp_put, wp_ret. apply good_new_lock; [done|done| |done]. by eapply new_entry_evolves.
Qed.

Lemma wp_create_cond ts t S : inv ts S → current (sync S) = Some t →
  wp no_fault CreateCondition_Syscall (λ _ S', good ts S S') S.
Proof.
  intros Hi Hc. unfold CreateCondition_Syscall. apply wp_bind, (wp_current_thread t); [done|]. apply wp_bind, wp_get.
  destruct (new_entry_spec (condTab S) (space_of t) (iv_conds _ _ Hi)) as [[-> _]|(k & T' & -> & Hk & Hno & HT & Hn & Ho & He & Hs)].
  - apply wp_bind, (wp_lift _ (-1, condTab S)); [done|]. apply wp_bind. cbn. apply wp_put, wp_ret.
    destruct S. by apply good_refl.
  - apply wp_bind, (wp_lift _ (k, T')); [done|]. apply wp_bind. cbn [fst snd]. rewrite (proj2 (Z.eqb_neq k (-1))) by lia.
    apply wp_put, wp_ret. apply good_new_cond; [done|done| |done]. by eapply new_entry_evolves.
Qed.

(** A valid lock: its entry, and the rest of the call. *)
Lemma wp_on_lock t l (k : M Kern unit) Q S : current (sync S) = Some t → tab_ok (lockTab S) → Q () S →
  (∀ p e, at_slot (lockTab S) l p → entries (lockTab S) !! p = Some e → wp no_fault k Q S) →
  wp no_fault (let! ok := Lock_Syscall_InputValidation l in if negb ok then ret () else k) Q S.
Proof.
  intros Hc HT HN HQ. apply wp_bind, (wp_validation t); [done|done|]. intros ok Hok. destruct ok; cbn [negb]; [|by apply wp_ret].
  destruct (Hok eq_refl) as (p & e & Hp & He & _). by apply (HQ p e).
Qed.

Lemma at_slot_held T i p e : tab_ok T → at_slot T i p → entries T !! p = Some e → held T i p.
Proof. intros HT Hp He. split; [by apply (ko_fresh _ HT) in He as [? _]|done]. Qed.

Lemma not_stranded T p e l u c S : lockTab S = T → entries T !! p = Some e → object e = l → ¬ stranded u c l S.
Proof. intros <- He <- [_ _ _ Hg _]. apply Hg. by exists p, e. Qed.

(** A call of the kernel below, after the tail has been noted. *)
Lemma wp_tail_call ts t y x S : inv ts S → current (sync S) = Some t → tail_ok S y →
  (∀ i p l, y ≠ Broadcasting i p l) → call_below (next_object (lockTab S)) (next_object (condTab S)) x →
  (∀ c l, x = CallSignal c (Some l) → live (lockTab S) l) →
  wp no_fault (modify (with_tail t (Some y)) ;;; let! _s := on_sync (run_call x) in ret ()) (ends_good ts S) S.
Proof.
  intros Hi Hc Hy Hb Hx Hs. set (S1 := with_tail t (Some y) S).
  assert (good ts S S1) as Hg by (apply good_tail; [done|]; intros ? [= <-]; split; [done|]; intros i p l ? ? ->; by destruct (Hb i p l)).
  apply wp_bind, wp_modify, wp_bind. apply (wp_call ts t); [apply Hg|done|done| |].
  - intros c l ->. left. by apply (Hs c).
  - intros st S' HS'. apply wp_ret. by eapply good_trans.
Qed.

Lemma wp_run_syscall ts t x S : inv ts S → current (sync S) = Some t →
  (∀ c, x = SysDestroyCondition c → ∃ p, at_slot (condTab S) c p) →
  wp no_fault (run_syscall x) (ends_good ts S) S.
Proof.
  intros Hi Hc Hx. pose proof (good_refl ts S Hi) as Hsame. pose proof Hi as [Hk Ho HL HC Ht].
  destruct x as [|l|l|l| |c l|c l|c l|c]; cbn [run_syscall].
  - apply wp_bind. eapply wp_mono; [by apply (wp_create_lock ts t)|]. intros. by apply wp_ret.
  - apply (wp_on_lock t); [done..|]. intros p e Hp He. destruct (at_slot_entry _ _ _ _ Hp He) as [Hp1 Hp2].
    apply wp_bind, wp_get, wp_bind, (wp_lift _ p); [done|]. apply wp_bind, (wp_lift _ e); [done|].
    apply wp_bind, (wp_call ts t (CallAcquire (object e))); [done|done| |done|intros; by apply wp_ret].
    by apply (ko_fresh _ HL) in He as [_ ?].
  - apply (wp_on_lock t); [done..|]. intros p e Hp He. destruct (at_slot_entry _ _ _ _ Hp He) as [Hp1 Hp2].
    apply wp_bind, (wp_current_thread t); [done|].
    apply wp_bind, wp_get, wp_bind, (wp_lift _ p); [done|]. apply wp_bind, (wp_lift _ e); [done|].
    apply (wp_tail_call ts t (AfterRelease l p) (CallRelease (object e))); [done|done|by eapply at_slot_held|done| |done].
    by apply (ko_fresh _ HL) in He as [_ ?].
  - apply (wp_on_lock t); [done..|]. intros p e Hp He. destruct (at_slot_entry _ _ _ _ Hp He) as [Hp1 Hp2].
    apply wp_bind, wp_get, wp_bind, (wp_lift _ p); [done|]. apply wp_bind, (wp_lift _ e); [done|].
    apply wp_bind, wp_on_sync. unfold isBusy. apply wp_bind, wp_get, wp_ret.
    destruct (retire_spec _ _ _ _ (bool_decide (lockState (locks (sync S) (object e)) = BUSY)) HL Hp He) as (T' & HT & ? & ? & ?).
    apply wp_bind, (wp_lift _ T'); [done|]. apply wp_modify. destruct S. by apply good_lockTab.
  - apply wp_bind. eapply wp_mono; [by apply (wp_create_cond ts t)|]. intros. by apply wp_ret.
  - apply wp_bind, (wp_condition_and_lock t); [done..|by apply wp_ret|]. intros p ce q le Hp Hce Hq Hle _ _.
    apply wp_bind, (wp_call ts t (CallWait (object ce) (Some (object le)))); [done|done| |done|intros; by apply wp_ret].
    apply (ko_fresh _ HL) in Hle as [_ ?]. apply (ko_fresh _ HC) in Hce as [_ ?]. split; [done|]. by intros ? [= <-].
  - apply wp_bind, (wp_condition_and_lock t); [done..|by apply wp_ret|]. intros p ce q le Hp Hce Hq Hle _ _.
    apply wp_bind, (wp_current_thread t); [done|].
    apply (wp_tail_call ts t (AfterSignal c p) (CallSignal (object ce) (Some (object le))));
      [done|done|by eapply at_slot_held|done| |].
    + by apply (ko_fresh _ HC) in Hce as [_ ?].
    + intros ? ? [= _ <-]. by exists q, le.
  - apply wp_bind, (wp_condition_and_lock t); [done..|by apply wp_ret|]. intros p ce q le Hp Hce Hq Hle _ _.
    apply wp_bind, (wp_current_thread t); [done|]. apply wp_bind, wp_get.
    destruct (waitingLock _); apply wp_put, good_tail; try done; intros ? [= <-].
    + split; [split; [by eapply at_slot_held|by apply (ko_fresh _ HL) in Hle as [_ ?]]|].
      intros i r l' u d [= _ _ <-]. by eapply not_stranded.
    + split; [by eapply at_slot_held|done].
  - destruct (Hx c eq_refl) as [p Hp]. destruct (ko_live _ HC _ _ Hp) as [e He].
    destruct (at_slot_entry _ _ _ _ Hp He) as [Hp1 Hp2].
    apply wp_bind, wp_get, wp_bind, (wp_lift _ p); [done|]. apply wp_bind, (wp_lift _ e); [done|].
    apply wp_bind, wp_on_sync. unfold Condition_isBusy. apply wp_bind, wp_get, wp_ret.
    destruct (retire_spec _ _ _ _ (negb (bool_decide (cond_queue (conds (sync S) (object e)) = []))) HC Hp He) as (T' & HT & ? & ? & ?).
    apply wp_bind, (wp_lift _ T'); [done|]. apply wp_modify. destruct S. by apply good_condTab.
Qed.

(** The entry a tail looks at first. *)
Definition looks_at (S : Kern) (x : tail) : option TableEntry :=
  match x with
  | AfterRelease _ p => entries (lockTab S) !! p
  | AfterSignal _ p | Broadcasting _ p _ => entries (condTab S) !! p
  end.

Lemma finish_gone t x S : current (sync S) = Some t → looks_at S x = None → finish x S = Fault NullDeref.
Proof.
  intros Hc Hx. unfold finish, current_thread, on_sync, currentThread. unfold bind, get. cbn. rewrite Hc. cbn.
  destruct x; cbn in *; unfold lift, entry_at; by rewrite Hx.
Qed.

Lemma wp_finish ts t x S : inv ts S → current (sync S) = Some t → tails S t = Some x → is_Some (looks_at S x) →
  wp no_fault (finish x) (ends_good ts S) S.
Proof.
  intros Hi Hc Hx [e He]. pose proof (iv_tails _ _ Hi t x Hx) as Hok.
  assert (good ts S (with_tail t None S)) as Hg by (by apply good_tail).
  unfold finish. apply wp_bind, (wp_current_thread t); [done|]. apply wp_bind, wp_get.
  destruct x as [i p|i p|i p l]; cbn [looks_at tail_ok] in *.
  - apply wp_bind, wp_put, wp_bind, (wp_lift _ e); [unfold entry_at; by rewrite He|].
    apply wp_bind, wp_on_sync. unfold isBusy. apply wp_bind, wp_get, wp_ret.
    destruct (_ && _); [|by apply wp_ret]. destruct Hok as [_ Hp]. specialize (Hp ltac:(by rewrite He)).
    destruct (retire_spec _ _ _ _ false (iv_locks _ _ Hi) Hp He) as (T' & HT & ? & ? & ?).
    apply wp_bind, (wp_lift _ T'); [done|]. apply wp_modify. eapply good_trans; [exact Hg|]. by apply good_lockTab; [apply Hg|..].
  - apply wp_bind, wp_put, wp_bind, (wp_lift _ e); [unfold entry_at; by rewrite He|].
    apply wp_bind, wp_on_sync. unfold Condition_isBusy. apply wp_bind, wp_get, wp_ret.
    destruct (_ && _); [|by apply wp_ret]. destruct Hok as [_ Hp]. specialize (Hp ltac:(by rewrite He)).
    destruct (retire_spec _ _ _ _ false (iv_conds _ _ Hi) Hp He) as (T' & HT & ? & ? & ?).
    apply wp_bind, (wp_lift _ T'); [done|]. apply wp_modify. eapply good_trans; [exact Hg|]. by apply good_condTab; [apply Hg|..].
  - apply wp_bind, (wp_lift _ e); [unfold entry_at; by rewrite He|].
    apply wp_bind, wp_on_sync. unfold Condition_isBusy. apply wp_bind, wp_get, wp_ret.
    destruct (negb _).
    + apply wp_bind. replace (with_sync (sync S) S) with S by (by destruct S).
      apply (wp_call ts t (CallSignal (object e) (Some l))); [done|done| | |intros; by apply wp_ret].
      * by apply (ko_fresh _ (iv_conds _ _ Hi)) in He as [_ ?].
      * intros ? ? [= _ <-]. right. by exists t, i, p.
    + apply wp_put, good_tail; [done|]. intros ? [= <-]. split; [apply Hok|done].
Qed.

(** A switch ends in a fault exactly when the thread switched to is about to
    acquire a lock that is gone. *)
Definition next_resumption (S : Kern) : option resumption :=
  match readyList (sync S) with [] => None | n :: _ => suspended (sync S) n end.

Definition about_to_fault (S : Kern) : Prop := ∃ c l, next_resumption S = Some (InWait c l) ∧ ¬ live (lockTab S) l.

Lemma Run_next_gone {A} (op : M Kernel A) S : about_to_fault S → Run_next op S = Fault NullDeref.
Proof.
  intros (c & l & Hn & Hl). unfold Run_next, next_resumption, bind, get in *. destruct (readyList (sync S)); [done|].
  rewrite Hn. destruct (lock_live (lockTab S) l) eqn:Hb; [|done]. by apply lock_live_true in Hb.
Qed.

Lemma Run_next_live {A} (op : M Kernel A) S : ¬ about_to_fault S → Run_next op S = on_sync op S.
Proof.
  intros Hn. unfold Run_next, bind, get. unfold about_to_fault, next_resumption in Hn. destruct (readyList (sync S)) as [|n r]; [done|].
  destruct (suspended (sync S) n) as [[s|l|c l]|]; try done. destruct (lock_live (lockTab S) l) eqn:Hb; [done|].
  destruct Hn. exists c, l. split; [done|]. rewrite <- lock_live_true. by rewrite Hb.
Qed.

Lemma wp_Run_next {A} (op : M Kernel A) ts S : inv ts S → ¬ about_to_fault S →
  wp no_fault op (λ _ K', kinv ts K' ∧ own_ok (next_object (lockTab S)) (next_object (condTab S)) K' ∧
    (∀ c, conds K' c = conds (sync S) c) ∧ ∀ u, hd_error (readyList (sync S)) ≠ Some u → suspended K' u = suspended (sync S) u) (sync S) →
  wp no_fault (Run_next op) (λ _ S', good ts S S') S.
Proof.
  intros Hi Hn Hop. eapply wp_run; [by apply Run_next_live|]. apply wp_on_sync. eapply wp_mono; [exact Hop|].
  cbn. intros _ K' (Hk & Ho & Hc & Hs). apply good_sync; [done..|]. intros t c l [Hq Ht _ _ _].
  rewrite Hc. split; [done|]. rewrite Hs; [done|]. destruct (readyList (sync S)) as [|n r] eqn:Hr; [done|].
  intros [= ->]. apply (pl_ready_queue _ _ _ _ _ (k_places _ _ _ (iv_sync _ _ Hi)) t (OCond c)); [rewrite Hr; by left|done].
Qed.

Lemma Yield_frame K st K' t : current K = Some t → Yield K = Done (st, K') → (∀ c, conds K' c = conds K c) ∧
  ∀ u, hd_error (readyList K) ≠ Some u → suspended K' u = suspended K u.
Proof.
  intros Hc Hd. unfold Yield in Hd.
  rewrite (bind_Done _ _ K t K) in Hd by (unfold currentThread, bind, get; by rewrite Hc).
  destruct (readyList K) as [|n r] eqn:Hr.
  - rewrite (bind_Done _ _ _ _ _ (FindNextToRun_nil K Hr)) in Hd. by injection Hd as _ <-.
  - rewrite (bind_Done _ _ _ _ _ (FindNextToRun_cons K n r Hr)) in Hd.
    change (Run n (with_ready (r ++ [t]) K) = Done (st, K')) in Hd. split.
    + intros c. by destruct (Run_framed c _ _ _ _ Hd) as (_ & _ & _ & ->).
    + intros u Hu. destruct (Run_framed O _ _ _ _ Hd) as (Hs & _). rewrite Hs; [done|]. intros ->. by apply Hu.
Qed.

Lemma dispatch_frame K st K' : dispatch K = Done (st, K') → (∀ c, conds K' c = conds K c) ∧
  ∀ u, hd_error (readyList K) ≠ Some u → suspended K' u = suspended K u.
Proof.
  intros Hd. unfold dispatch in Hd. destruct (readyList K) as [|n r] eqn:Hr.
  - rewrite (bind_Done _ _ _ _ _ (FindNextToRun_nil K Hr)) in Hd. by injection Hd as _ <-.
  - rewrite (bind_Done _ _ _ _ _ (FindNextToRun_cons K n r Hr)) in Hd. unfold bind in Hd.
    destruct (Run n (with_ready r K)) as [[st1 K1]|] eqn:HR; [|done]. injection Hd as _ <-. split.
    + intros c. by destruct (Run_framed c _ _ _ _ HR) as (_ & _ & _ & ->).
    + intros u Hu. destruct (Run_framed O _ _ _ _ HR) as (Hs & _). rewrite Hs; [done|]. intros ->. by apply Hu.
Qed.

Lemma wp_switch ts S st K' : inv ts S → step (sync S) K' → ¬ about_to_fault S →
  (∀ t, current (sync S) = Some t → Yield (sync S) = Done (st, K') → wp no_fault (Run_next Yield) (λ _ S', good ts S S') S) ∧
  (∀ o, dispatch (sync S) = Done (o, K') → wp no_fault (Run_next dispatch) (λ _ S', good ts S S') S).
Proof.
  intros Hi Hst Hn. pose proof (step_kinv _ _ (iv_sync _ _ Hi) Hst) as Hk. split.
  - intros t Hc HY. apply wp_Run_next; [done|done|]. unfold wp. rewrite HY. split; [done|].
    split; [eapply own_Yield; [apply Hi|done|done]|by eapply Yield_frame].
  - intros o HY. apply wp_Run_next; [done|done|]. unfold wp. rewrite HY. split; [done|].
    split; [eapply own_dispatch; [apply Hi|done]|by eapply dispatch_frame].
Qed.

Lemma wp_Yield ts t S : inv ts S → current (sync S) = Some t → ¬ about_to_fault S →
  wp no_fault (Run_next Yield) (λ _ S', good ts S S') S.
Proof.
  intros Hi Hc Hn. destruct (wp_no_fault _ _ _ (Yield_kinv t _ (iv_sync _ _ Hi) Hc)) as (st & K' & HY & _).
  assert (step (sync S) K') as Hst by (by eapply step_yield).
  destruct (wp_switch ts S st K' Hi Hst Hn) as [H _]. by apply (H t).
Qed.

Lemma wp_dispatch ts S : inv ts S → current (sync S) = None → ¬ about_to_fault S →
  wp no_fault (Run_next dispatch) (λ _ S', good ts S S') S.
Proof.
  intros Hi Hc Hn. destruct (wp_no_fault _ _ _ (dispatch_kinv _ (iv_sync _ _ Hi) Hc)) as (st & K' & HY & _).
  assert (step (sync S) K') as Hst by (by eapply step_dispatch).
  destruct (wp_switch ts S Returned K' Hi Hst Hn) as [_ H]. by apply (H st).
Qed.

Lemma about_to_fault_dec S : about_to_fault S ∨ ¬ about_to_fault S.
Proof.
  unfold about_to_fault. destruct (next_resumption S) as [[s|l|c l]|]; try (right; by intros (c' & l' & ? & ?)).
  destruct (lock_live (lockTab S) l) eqn:Hl; [right|left].
  - intros (c' & l' & [= -> ->] & Hn). by apply Hn, lock_live_true.
  - exists c, l. split; [done|]. rewrite <- lock_live_true. by rewrite Hl.
Qed.

Lemma kstep_good ts S S' : inv ts S → kstep S S' → good ts S S'.
Proof.
  intros Hi [t x S1 Hc Ht Hx|t x S1 Hc Ht Hx|t st S1 Hc Hx|st S1 Hc Hx].
  - refine (wp_done _ _ _ _ _ _ (wp_run_syscall ts t x S Hi Hc _) Hx). intros c ->. cbn [run_syscall] in Hx.
    unfold DestroyCondition_Syscall, pointer, bind, get, lift in Hx. cbn in Hx.
    destruct (vget (ptrs (handles (condTab S))) c) as [[p|]|] eqn:Hv; cbn in Hx; try done.
    exists p. by apply vget_Some in Hv.
  - refine (wp_done _ _ _ _ _ _ (wp_finish ts t x S Hi Hc Ht _) Hx). destruct (looks_at S x) eqn:Hl; [done|].
    by rewrite (finish_gone t x S Hc Hl) in Hx.
  - destruct (about_to_fault_dec S) as [Ha|Ha]; [by rewrite (Run_next_gone _ _ Ha) in Hx|].
    exact (wp_done _ _ _ _ _ _ (wp_Yield ts t S Hi Hc Ha) Hx).
  - destruct (about_to_fault_dec S) as [Ha|Ha]; [by rewrite (Run_next_gone _ _ Ha) in Hx|].
    exact (wp_done _ _ _ _ _ _ (wp_dispatch ts S Hi Hc Ha) Hx).
Qed.

Lemma ksteps_good ts S S' : inv ts S → ksteps S S' → good ts S S'.
Proof.
  intros Hi. induction 1 as [|S1 S2 _ IH Hst]; [by apply good_refl|]. eapply good_trans; [exact IH|].
  apply kstep_good; [apply IH|done].
Qed.

Lemma empty_tab_ok mem stale T : Z.of_nat (length stale) = 200 → (∀ i p, stale !! i ≠ Some (Some p)) →
  new_Table mem stale 200 = Done T → tab_ok (mkObjTable T ∅ 0 0).
Proof.
  intros Hlen Hst HT. destruct (new_Table_ok mem stale 200) as (T' & HT' & Hok & Hs & Hn); [lia|done|].
  rewrite HT' in HT. injection HT as ->.
  assert (∀ i p, ¬ at_slot (mkObjTable T ∅ 0 0) i p) as Hno.
  { intros i p [_ Hp]. unfold new_Table in HT'. destruct (new_BitMap mem 200); [|done]. injection HT' as <-. by apply Hst in Hp. }
  constructor; [exact Hok|exact Hs|..].
  - intros i Hi. split; [|intros [p Hp]; destruct (Hno i p Hp)]. intros Hu.
    apply (slot_used _ i Hok) in Hu; [|rewrite Hs; exact Hi]. rewrite Hn in Hu. destruct Hu as [? ?]. congruence.
  - intros i p Hp. destruct (Hno i p Hp).
  - intros i j p Hp. destruct (Hno i p Hp).
  - intros p e He. cbn [entries] in He. by rewrite lookup_empty in He.
  - intros p q e e' He. cbn [entries] in He. by rewrite lookup_empty in He.
Qed.

Lemma boot_inv ts values mem1 mem2 S : NoDup (0%nat :: ts) → (∀ s, 0 <= values s) →
  boot ts values mem1 mem2 = Done S → inv (0%nat :: ts) S.
Proof.
  intros Hnd Hv HB. unfold boot, lockTableSize, ConditionTableSize in HB.
  assert (∀ i p, replicate 200 (@None nat) !! i ≠ Some (Some p)) as Hno.
  { intros i p Hr. apply lookup_replicate in Hr as [Hr _]. discriminate Hr. }
  assert (Z.of_nat (length (replicate 200 (@None nat))) = 200) as Hlen by (by rewrite length_replicate).
  revert HB Hno Hlen. generalize (replicate 200 (@None nat)). intros stale HB Hno Hlen.
  destruct (new_Table mem1 stale 200) as [T1|] eqn:H1; [|discriminate HB].
  destruct (new_Table mem2 stale 200) as [T2|] eqn:H2; [|discriminate HB]. cbn [obind] in HB. injection HB as <-.
  constructor; [by apply initial_kinv|by constructor|by eapply empty_tab_ok|by eapply empty_tab_ok|].
  intros t x Hx. discriminate Hx.
Qed.

Lemma run_kevents_ksteps es S S' : run_kevents es S = Done S' → ksteps S S'.
Proof.
  assert (∀ S0 S1, kstep S0 S1 → ksteps S1 S' → ksteps S0 S') as Hcons.
  { intros S0 S1 H. induction 1 as [|S2 S3 _ IH ?]; [by eapply ksteps_step; [apply ksteps_start|]|by eapply ksteps_step]. }
  revert S. induction es as [|e es IH]; cbn; intros S H; [injection H as ->; apply ksteps_start|].
  apply outcome_bind_Done in H as (S1 & He & Hes). apply (Hcons S S1); [|by apply IH].
  unfold run_kevent in He. destruct e as [x| | |], (current (sync S)) as [t|] eqn:Hc; try done.
  - destruct (tails S t) eqn:Ht; [done|]. apply outcome_bind_Done in He as ([[] S2] & Hx & [= <-]).
    by eapply kstep_call.
  - destruct (tails S t) eqn:Ht; [|done]. apply outcome_bind_Done in He as ([[] S2] & Hx & [= <-]).
    by eapply kstep_tail.
  - apply outcome_bind_Done in He as ([st S2] & Hx & [= <-]). by eapply kstep_yield.
  - apply outcome_bind_Done in He as ([st S2] & Hx & [= <-]). by eapply kstep_dispatch.
Qed.

Lemma ksteps_inv ts values mem1 mem2 S0 S : NoDup (0%nat :: ts) → (∀ s, 0 <= values s) →
  boot ts values mem1 mem2 = Done S0 → ksteps S0 S → inv (0%nat :: ts) S.
Proof. intros Hnd Hv HB HS. pose proof (boot_inv _ _ _ _ _ Hnd Hv HB) as Hi. by apply (ksteps_good _ S0 S Hi). Qed.

(** A free lock is deleted, and those who wait for it in a condition variable
    are left behind. *)
Lemma DestroyLock_strands ts u t c i p e S S1 : inv ts S → current (sync S) = Some u → at_slot (lockTab S) i p →
  entries (lockTab S) !! p = Some e → owner_space e = space_of u → lockState (locks (sync S) (object e)) = FREE →
  t ∈ cond_queue (conds (sync S) c) → suspended (sync S) t = Some (InWait c (object e)) →
  (∀ v j q, tails S v ≠ Some (Broadcasting j q (object e))) → DestroyLock_Syscall i S = Done ((), S1) →
  stranded t c (object e) S1.
Proof.
  intros Hi Hc Hp He Hown Hfree Hq Ht Hb. pose proof (iv_locks _ _ Hi) as HT.
  destruct (validated_spec (lockTab S) u i HT) as (b & Hv & _ & Hb2).
  destruct b; [|destruct (Hb2 eq_refl p e Hp He Hown)]. destruct (at_slot_entry _ _ _ _ Hp He) as [Hp1 Hp2].
  destruct (delete_entry_spec _ _ _ HT Hp) as (T' & HD & _ & _ & Hn & Hes & _).
  unfold DestroyLock_Syscall. rewrite (bind_Done _ _ S true S); cbn [negb].
  2:{ unfold Lock_Syscall_InputValidation, current_thread, on_sync, currentThread, bind, get, lift. cbn. rewrite Hc. cbn.
      rewrite Hv. by destruct S. }
  unfold on_sync, isBusy, bind, get, lift. rewrite Hp1, Hp2. cbn [with_sync]. rewrite bool_decide_eq_false_2 by congruence.
  rewrite HD. intros [= <-]. constructor; cbn; [done|done| | |done].
  - rewrite Hn. by apply (ko_fresh _ HT) in He as [_ ?].
  - intros (q & e' & Hq' & Ho). rewrite Hes in Hq'. apply lookup_delete_Some in Hq' as [Hne Hq'].
    apply Hne. symmetry. by apply (ko_objects _ HT q p e' e).
Qed.
End calls.

(** DestroyCondition with a number that is not in use. *)
Definition destroys_nothing (S : Kern) (x : syscall) : bool :=
  match x with
  | SysDestroyCondition c => match pointer (condTab S) c with Done _ => false | Fault _ => true end
  | _ => false
  end.

(** ** Concrete runs *)

(** Two threads of one process. *)
Definition one_space : tid → nat := λ _, 0%nat.
Definition booted : outcome Kern := boot [1%nat] (λ _, 0) (λ _, 0) (λ _, 0).

Definition kern_or_idle (o : outcome Kern) : Kern :=
  match o with
  | Done x => x
  | Fault _ => mkKern (initial [] (λ _, 0)) (mkObjTable (mkTable (mkBitMap 0 0 []) [] 0) ∅ 0 0)
                 (mkObjTable (mkTable (mkBitMap 0 0 []) [] 0) ∅ 0 0) (λ _, None)
  end.

(** Thread 0 releases the lock, and thread 1 destroys it before thread 0 goes on. *)
Definition released_then_destroyed : list kevent :=
  [KCall SysCreateLock; KCall (SysAcquire 0); KCall (SysRelease 0); KYield; KCall (SysDestroyLock 0); KYield].

(** Thread 1 waits, ... *)
Definition one_waits : list kevent :=
  [KCall SysCreateLock; KCall SysCreateCondition; KYield; KCall (SysAcquire 0); KCall (SysWait 0 0); KDispatch].

(** ... thread 0 signals it and destroys the lock before it runs. *)
Definition signalled_then_destroyed : list kevent :=
  one_waits ++ [KCall (SysSignal 0 0); KTail; KCall (SysDestroyLock 0)].

Definition after (es : list kevent) : Kern :=
  kern_or_idle (let? S := booted in run_kevents one_space es S).

Definition one_waiting : Kern := after one_waits.

Lemma pair_distinct : NoDup [0%nat; 1%nat].
Proof. by apply (bool_decide_eq_true_1 (NoDup [0%nat; 1%nat])). Qed.
Definition runs (es : list kevent) : bool :=
  match (let? S := booted in run_kevents one_space es S) with Done _ => true | Fault _ => false end.

Lemma booted_eq : boot [1%nat] (λ _, 0) (λ _, 0) (λ _, 0) = Done (after []).
Proof.
  assert (runs [] = true) as Hr by (vm_compute; reflexivity). unfold runs, after in *.
  change (boot [1%nat] (λ _, 0) (λ _, 0) (λ _, 0)) with booted.
  destruct booted as [S|f]; [reflexivity|discriminate Hr].
Qed.

Lemma run_app es1 es2 S : run_kevents one_space (es1 ++ es2) S =
  (let? S' := run_kevents one_space es1 S in run_kevents one_space es2 S').
Proof.
  revert S. induction es1 as [|e es1 IH]; cbn; intros S; [done|]. destruct (run_kevent one_space e S); cbn; [apply IH|done].
Qed.

(** A run that completes, in two parts. *)
Lemma after_run es1 es2 : runs (es1 ++ es2) = true → run_kevents one_space es2 (after es1) = Done (after (es1 ++ es2)).
Proof.
  unfold runs, after. destruct booted as [S|f]; cbn; [|done]. rewrite run_app.
  destruct (run_kevents one_space es1 S) as [S1|f]; cbn; [|done]. by destruct (run_kevents one_space es2 S1).
Qed.

Lemma after_ksteps es1 es2 : runs (es1 ++ es2) = true → ksteps one_space (after es1) (after (es1 ++ es2)).
Proof. intros Hr. by apply (run_kevents_ksteps one_space es2), after_run. Qed.

Lemma call_run es x : runs (es ++ [KCall x]) = true →
  run_syscall one_space x (after es) = Done ((), after (es ++ [KCall x])).
Proof.
  intros Hr. pose proof (after_run es [KCall x] Hr) as H. revert H. generalize (after (es ++ [KCall x])), (after es).
  intros S2 S1 H. cbn [run_kevents] in H. apply outcome_bind_Done in H as (S' & He & [= ->]). unfold run_kevent in He.
  destruct (current (sync S1)) as [t|]; [|discriminate He]. destruct (tails S1 t); [discriminate He|].
  apply outcome_bind_Done in He as ([[] S3] & -> & [= ->]). reflexivity.
Qed.

(** ** Properties *)

(** C24: in every state the system calls lead to, the two tables are
    well formed (a number in use has an entry of its own, with an object of its
    own), and the calls go wrong in three ways only.  A call of the running
    thread completes, unless it is DestroyCondition, which checks nothing, with a
    number that is not in use: that one always goes wrong.  The rest of a call
    completes exactly while the entry it goes back to has not been deleted
    meanwhile.  A switch completes exactly when the next thread does not go on
    in Wait with a lock that has been deleted. *)
Theorem tables_safe space_of ts values mem1 mem2 S0 S : NoDup (0%nat :: ts) → (∀ s, 0 <= values s) →
  boot ts values mem1 mem2 = Done S0 → ksteps space_of S0 S →
  tab_ok (lockTab S) ∧ tab_ok (condTab S) ∧
  (∀ t, current (sync S) = Some t →
     (∀ x, if destroys_nothing S x then ∃ f, run_syscall space_of x S = Fault f
           else ∃ S', run_syscall space_of x S = Done ((), S')) ∧
     (∀ x, tails S t = Some x →
        if looks_at S x then ∃ S', finish x S = Done ((), S') else finish x S = Fault NullDeref) ∧
     (about_to_fault S → Run_next Yield S = Fault NullDeref) ∧
     (¬ about_to_fault S → ∃ st S', Run_next Yield S = Done (st, S'))) ∧
  (current (sync S) = None →
     (about_to_fault S → Run_next dispatch S = Fault NullDeref) ∧
     (¬ about_to_fault S → ∃ st S', Run_next dispatch S = Done (st, S'))).
Proof.
  intros Hnd Hv HB HS. pose proof (ksteps_inv _ _ _ _ _ _ _ Hnd Hv HB HS) as Hi. clear HB HS.
  split; [apply Hi|]. split; [apply Hi|]. split.
  - intros t Hc. split; [|split; [|split; [apply (Run_next_gone space_of)|]]].
    + intros x. destruct (destroys_nothing S x) eqn:Hx.
      * destruct x; try done. cbn in *. unfold DestroyCondition_Syscall, bind, get, lift.
        destruct (pointer (condTab S) c); [done|by eexists].
      * destruct (wp_no_fault _ _ _ (wp_run_syscall space_of _ t x S Hi Hc ltac:(
          intros c ->; cbn in Hx; destruct (pointer (condTab S) c) as [p|] eqn:Hp; [|done]; exists p;
          by apply pointer_at_slot))) as ([] & S' & HR & _). by exists S'.
    + intros x Hx. destruct (looks_at S x) as [e|] eqn:He; [|by apply (finish_gone t)].
      destruct (wp_no_fault _ _ _ (wp_finish space_of _ t x S Hi Hc Hx ltac:(by rewrite He))) as ([] & S' & HR & _). by exists S'.
    + intros Hn. destruct (wp_no_fault _ _ _ (wp_Yield space_of _ t S Hi Hc Hn)) as (st & S' & HR & _). by exists st, S'.
  - intros Hc. split; [apply (Run_next_gone space_of)|]. intros Hn.
    destruct (wp_no_fault _ _ _ (wp_dispatch space_of _ S Hi Hc Hn)) as (st & S' & HR & _). by exists st, S'.
Qed.

Lemma tables_safe_witness : current (sync one_waiting) = Some 0%nat ∧
  destroys_nothing one_waiting (SysDestroyLock 0) = false ∧
  ∃ S', run_syscall one_space (SysDestroyLock 0) one_waiting = Done ((), S').
Proof.
  split; [vm_compute; reflexivity|]. split; [vm_compute; reflexivity|].
  pose proof (tables_safe one_space [1%nat] (λ _, 0) (λ _, 0) (λ _, 0) (after []) one_waiting
    pair_distinct ltac:(intros; lia) booted_eq (after_ksteps [] one_waits ltac:(vm_compute; reflexivity))) as (_ & _ & H & _).
  destruct (H 0%nat ltac:(vm_compute; reflexivity)) as [Hx _]. exact (Hx (SysDestroyLock 0)).
Defined.

(** DestroyLock deletes a lock that is free although
    threads wait in a condition variable for it; such a thread stays in the queue
    of the condition variable for ever, whatever the threads call from then on
    (Signal and Broadcast compare the lock they are given with the one the
    waiters came with, and no live lock has its address), unless a Broadcast with
    that lock was already under way. *)
Theorem DestroyLock_strands_waiters space_of ts values mem1 mem2 S0 S S1 S2 u t c i p e :
  NoDup (0%nat :: ts) → (∀ s, 0 <= values s) → boot ts values mem1 mem2 = Done S0 → ksteps space_of S0 S →
  current (sync S) = Some u → at_slot (lockTab S) i p → entries (lockTab S) !! p = Some e →
  owner_space e = space_of u → lockState (locks (sync S) (KernelTables.object e)) = FREE →
  t ∈ cond_queue (conds (sync S) c) → suspended (sync S) t = Some (InWait c (KernelTables.object e)) →
  (∀ v j q, tails S v ≠ Some (Broadcasting j q (KernelTables.object e))) →
  run_syscall space_of (SysDestroyLock i) S = Done ((), S1) → ksteps space_of S1 S2 →
  t ∈ cond_queue (conds (sync S2) c) ∧ suspended (sync S2) t = Some (InWait c (KernelTables.object e)).
Proof.
  intros Hnd Hv HB HS Hc Hp He Hown Hfree Hq Ht Hb Hd H2.
  pose proof (ksteps_inv _ _ _ _ _ _ _ Hnd Hv HB HS) as Hi. clear HB HS.
  assert (inv (0%nat :: ts) S1) as Hi1.
  { by destruct (wp_done _ _ _ _ _ _ (wp_run_syscall space_of _ u (SysDestroyLock i) S Hi Hc ltac:(done)) Hd). }
  destruct (ksteps_good _ _ _ _ Hi1 H2) as [_ _ _ Hst]. destruct (Hst t c (KernelTables.object e)) as [? ? _ _ _]; [|done].
  by apply (DestroyLock_strands space_of (0%nat :: ts) u t c i p e S S1).
Qed.

(** Thread 1 waits in condition variable 0, and thread 0 destroys its lock. *)
Lemma DestroyLock_strands_waiters_witness :
  cond_queue (conds (sync (after (one_waits ++ [KCall (SysDestroyLock 0)]))) 0%nat) = [1%nat] ∧
  1%nat ∈ cond_queue (conds (sync (after (one_waits ++ [KCall (SysDestroyLock 0); KCall (SysBroadcast 0 0)]))) 0%nat).
Proof.
  split; [vm_compute; reflexivity|].
  refine (proj1 (DestroyLock_strands_waiters one_space [1%nat] (λ _, 0) (λ _, 0) (λ _, 0) (after []) one_waiting
    (after (one_waits ++ [KCall (SysDestroyLock 0)]))
    (after (one_waits ++ [KCall (SysDestroyLock 0); KCall (SysBroadcast 0 0)])) 0%nat 1%nat 0%nat 0 0%nat (mkTE 0 0 false)
    pair_distinct _ booted_eq (after_ksteps [] one_waits ltac:(vm_compute; reflexivity))
    _ _ _ _ _ _ _ _ (call_run one_waits (SysDestroyLock 0) _)
    (after_ksteps (one_waits ++ [KCall (SysDestroyLock 0)]) [KCall (SysBroadcast 0 0)] _)));
    first [intros; lia | vm_compute; reflexivity | idtac].
  - split; [lia|vm_compute; reflexivity].
  - vm_compute. by left.
  - intros v j q. vm_compute. discriminate.
Defined.

(** C36: two threads of one process, and each of the two faults that
    [tables_safe] leaves to threads that use numbers in use.  The first releases
    a lock, the second destroys it before the first goes on: Release_Syscall
    then reads the entry that has been deleted.  Or the first signals the second
    and destroys the lock before the second runs: the second then acquires, in
    Wait, a lock that has been deleted. *)
Theorem Release_race :
  (∃ S, run_kevents one_space released_then_destroyed (after []) = Done S ∧ ksteps one_space (after []) S ∧
     current (sync S) = Some 0%nat ∧ tails S 0%nat = Some (AfterRelease 0 0) ∧
     finish (AfterRelease 0 0) S = Fault NullDeref) ∧
  (∃ S, run_kevents one_space signalled_then_destroyed (after []) = Done S ∧ ksteps one_space (after []) S ∧
     current (sync S) = Some 0%nat ∧ readyList (sync S) = [1%nat] ∧ about_to_fault S ∧
     Run_next Yield S = Fault NullDeref).
Proof.
  assert (∀ es, runs es = true → run_kevents one_space es (after []) = Done (after es) ∧
    ksteps one_space (after []) (after es)) as Hk.
  { intros es Hr. split; [by apply (after_run [])|by apply (after_ksteps [])]. }
  destruct (Hk released_then_destroyed ltac:(vm_compute; reflexivity)) as [H1 H1'].
  destruct (Hk signalled_then_destroyed ltac:(vm_compute; reflexivity)) as [H2 H2'].
  split; [exists (after released_then_destroyed)|exists (after signalled_then_destroyed)];
    (split; [assumption|]); (split; [assumption|]); (split; [vm_compute; reflexivity|]); (split; [vm_compute; reflexivity|]).
  - vm_compute. reflexivity.
  - assert (about_to_fault (after signalled_then_destroyed)) as Ha; [|split; [done|by apply (Run_next_gone one_space)]].
    exists 0%nat, 0%nat. split; [vm_compute; reflexivity|]. rewrite <- (lock_live_true one_space). vm_compute. discriminate.
Qed.
