(* ===== verification/Translate.v ===== *)
(** * Translate: the memory of the simulated machine, machine/translate.cc

    [ReadMem] and [WriteMem] translate a virtual address through the TLB or
    the page table and move 1, 2 or 4 bytes, which main memory holds in little
    endian whatever the host.  [big_endian] is HOST_IS_BIG_ENDIAN; [char] is
    signed.  A trap goes to the kernel's [ExceptionHandler], an argument. *)
From S2P Require Import Prelude.
From stdpp Require Import base list.
From Stdlib Require Import ZArith Lia ZifyBool.

Local Open Scope Z_scope.
#[local] Ltac Zify.zify_post_hook ::= Z.to_euclidean_division_equations.

(** ** Data *)

Definition SectorSize : Z := 128.
Definition PageSize : Z := SectorSize.
Definition NumPhysPages : Z := 32.
Definition MemorySize : Z := NumPhysPages * PageSize.
Definition TLBSize : Z := 4.
Definition NumTotalRegs : Z := 40.
Definition LoadReg : Z := 37.
Definition LoadValueReg : Z := 38.
Definition BadVAddrReg : Z := 39.

Inductive ExceptionType :=
| NoException | SyscallException | PageFaultException | ReadOnlyException
| BusErrorException | AddressErrorException | OverflowException | IllegalInstrException.

Record TranslationEntry := mkEntry {
  virtualPage : Z; physicalPage : Z;
  valid : bool; readOnly : bool; use : bool; dirty : bool
}.

Inductive MachineStatus := IdleMode | SystemMode | UserMode.

(** The machine, with [stats->totalTicks] and the mode of [interrupt]. *)
Record Machine := mkMachine {
  mainMemory : list Z;
  registers : list Z;
  tlb : option (list TranslationEntry);
  pageTable : option (list TranslationEntry);
  pageTableSize : Z;
  lastUsed : list Z;
  totalTicks : Z;
  mode : MachineStatus
}.

Definition with_memory (x : list Z) (m : Machine) : Machine :=
  mkMachine x (registers m) (tlb m) (pageTable m) (pageTableSize m) (lastUsed m) (totalTicks m) (mode m).
Definition with_registers (x : list Z) (m : Machine) : Machine :=
  mkMachine (mainMemory m) x (tlb m) (pageTable m) (pageTableSize m) (lastUsed m) (totalTicks m) (mode m).
Definition with_tlb (x : list TranslationEntry) (m : Machine) : Machine :=
  mkMachine (mainMemory m) (registers m) (Some x) (pageTable m) (pageTableSize m) (lastUsed m) (totalTicks m) (mode m).
Definition with_pageTable (x : list TranslationEntry) (m : Machine) : Machine :=
  mkMachine (mainMemory m) (registers m) (tlb m) (Some x) (pageTableSize m) (lastUsed m) (totalTicks m) (mode m).
Definition with_lastUsed (x : list Z) (m : Machine) : Machine :=
  mkMachine (mainMemory m) (registers m) (tlb m) (pageTable m) (pageTableSize m) x (totalTicks m) (mode m).
Definition with_mode (x : MachineStatus) (m : Machine) : Machine :=
  mkMachine (mainMemory m) (registers m) (tlb m) (pageTable m) (pageTableSize m) (lastUsed m) (totalTicks m) x.

(** ** Words in memory *)

Fixpoint bytes_le (n : nat) (v : Z) : list Z :=
  match n with O => [] | S n' => v mod 256 :: bytes_le n' (v / 256) end.
Fixpoint of_le (bs : list Z) : Z :=
  match bs with [] => 0 | b :: bs' => b + 256 * of_le bs' end.

(** What the host stores for, and loads from, an integer of [n] bytes. *)
Definition host_bytes (big_endian : bool) (n : nat) (v : Z) : list Z :=
  if big_endian then rev (bytes_le n v) else bytes_le n v.
Definition host_value (big_endian : bool) (bs : list Z) : Z :=
  of_le (if big_endian then rev bs else bs).

(** Conversions to [unsigned short], [int] and [signed char]. *)
Definition u16 (z : Z) : Z := z mod 2 ^ 16.
Definition s32 (z : Z) : Z := if u32 z <? 2 ^ 31 then u32 z else u32 z - 2 ^ 32.
Definition s8 (z : Z) : Z := if z mod 256 <? 128 then z mod 256 else z mod 256 - 256.

Definition WordToHost (big_endian : bool) (word : Z) : Z :=
  if big_endian then
    let result := Z.land (Z.shiftr word 24) 0x000000ff in
    let result := Z.lor result (Z.land (Z.shiftr word 8) 0x0000ff00) in
    let result := Z.lor result (Z.land (u32 (Z.shiftl word 8)) 0x00ff0000) in
    u32 (Z.lor result (Z.land (u32 (Z.shiftl word 24)) 0xff000000))
  else word.

Definition ShortToHost (big_endian : bool) (shortword : Z) : Z :=
  if big_endian then
    let result := u16 (Z.land (Z.shiftl shortword 8) 0xff00) in
    u16 (Z.lor result (Z.land (Z.shiftr shortword 8) 0x00ff))
  else shortword.

Definition WordToMachine (big_endian : bool) (word : Z) : Z := WordToHost big_endian word.
Definition ShortToMachine (big_endian : bool) (shortword : Z) : Z := ShortToHost big_endian shortword.

(** [n] bytes at [&mainMemory[p]]. *)
Definition mem_read (mem : list Z) (p : Z) (n : nat) : outcome (list Z) :=
  if (0 <=? p) && (p + Z.of_nat n <=? Z.of_nat (length mem))
  then Done (take n (drop (Z.to_nat p) mem)) else Fault OutOfRange.
Definition mem_write (mem : list Z) (p : Z) (bs : list Z) : outcome (list Z) :=
  if (0 <=? p) && (p + Z.of_nat (length bs) <=? Z.of_nat (length mem))
  then Done (take (Z.to_nat p) mem ++ bs ++ drop (Z.to_nat p + length bs) mem) else Fault OutOfRange.

(** ** Translate *)

(** Where [entry] points: into the page table or the TLB. *)
Inductive entry_ptr := InPageTable (i : Z) | InTLB (i : Z).

Definition table_of (p : entry_ptr) (m : Machine) : option (list TranslationEntry) :=
  match p with InPageTable _ => pageTable m | InTLB _ => tlb m end.
Definition index_of (p : entry_ptr) : Z := match p with InPageTable i => i | InTLB i => i end.

Definition get_entry (p : entry_ptr) : M Machine TranslationEntry :=
  let! m := get in
  match table_of p m with
  | Some t => lift (vget t (index_of p))
  | None => fail NullDeref
  end.

Definition set_entry (p : entry_ptr) (e : TranslationEntry) : M Machine unit :=
  let! m := get in
  match table_of p m with
  | Some t =>
      let! t' := lift (vset t (index_of p) e) in
      put (match p with InPageTable _ => with_pageTable t' m | InTLB _ => with_tlb t' m end)
  | None => fail NullDeref
  end.

Definition tlb_match (vpn : Z) (e : TranslationEntry) : bool :=
  valid e && (u32 (virtualPage e) =? vpn).

(** The end of [Translate], once [entry] is found. *)
Definition translate_entry (entry : entry_ptr) (offset size : Z) (writing : bool) : M Machine (ExceptionType + Z) :=
  let! e := get_entry entry in
  if readOnly e && writing then ret (inl ReadOnlyException)
  else
    let pageFrame := u32 (physicalPage e) in
    if NumPhysPages <=? pageFrame then ret (inl BusErrorException)
    else
      set_entry entry (mkEntry (virtualPage e) (physicalPage e) (valid e) (readOnly e) true
        (dirty e || writing)) ;;;
      let physAddr := pageFrame * PageSize + offset in
      ASSERT ((0 <=? physAddr) && (physAddr + size <=? MemorySize)) ;;;
      ret (inr physAddr).

(** [inr p] is [NoException] with [*physAddr = p]; [inl e] is the exception [e]. *)
Definition Translate (virtAddr size : Z) (writing : bool) : M Machine (ExceptionType + Z) :=
  if ((size =? 4) && negb (Z.land virtAddr 0x3 =? 0)) || ((size =? 2) && negb (Z.land virtAddr 0x1 =? 0))
  then ret (inl AddressErrorException)
  else
    let! m := get in
    ASSERT (bool_decide (tlb m = None) || bool_decide (pageTable m = None)) ;;;
    ASSERT (negb (bool_decide (tlb m = None)) || negb (bool_decide (pageTable m = None))) ;;;
    let vpn := u32 virtAddr / PageSize in
    let offset := u32 virtAddr mod PageSize in
    match tlb m with
    | None =>
        if pageTableSize m <=? vpn then ret (inl AddressErrorException)
        else
          let! e := get_entry (InPageTable vpn) in
          if negb (valid e) then ret (inl PageFaultException)
          else translate_entry (InPageTable vpn) offset size writing
    | Some t =>
        let i := find_index (tlb_match vpn) (take (Z.to_nat TLBSize) t) in
        if i =? -1 then ret (inl PageFaultException)
        else translate_entry (InTLB i) offset size writing
    end.

(** ** ReadMem and WriteMem *)

Definition DelayedLoad (nextReg nextValue : Z) : M Machine unit :=
  let! m := get in
  let! r := lift (vget (registers m) LoadReg) in
  let! v := lift (vget (registers m) LoadValueReg) in
  let! rs := lift (vset (registers m) r v) in
  let! rs := lift (vset rs LoadReg nextReg) in
  let! rs := lift (vset rs LoadValueReg nextValue) in
  let! rs := lift (vset rs 0 0) in
  put (with_registers rs m).

Section memory.
Context (big_endian : bool) (ExceptionHandler : ExceptionType → M Machine unit).

Definition RaiseException (which : ExceptionType) (badVAddr : Z) : M Machine unit :=
  let! m := get in
  let! rs := lift (vset (registers m) BadVAddrReg badVAddr) in
  put (with_registers rs m) ;;;
  DelayedLoad 0 0 ;;;
  modify (with_mode SystemMode) ;;;
  ExceptionHandler which ;;;
  modify (with_mode UserMode).

(** [machine->lastUsed[ppn] = stats->totalTicks] *)
Definition touch (physicalAddress : Z) : M Machine unit :=
  let! m := get in
  let! l := lift (vset (lastUsed m) (physicalAddress / PageSize) (totalTicks m)) in
  put (with_lastUsed l m).

(** The answer with the value stored through [value], if one is. *)
Definition ReadMem (addr size : Z) : M Machine (bool * option Z) :=
  let! r := Translate addr size false in
  match r with
  | inl exception => RaiseException exception addr ;;; ret (false, None)
  | inr physicalAddress =>
      let! m := get in
      let! value :=
        (if size =? 1 then
           let! bs := lift (mem_read (mainMemory m) physicalAddress 1) in
           ret (s8 (of_le bs))
         else if size =? 2 then
           let! bs := lift (mem_read (mainMemory m) physicalAddress 2) in
           ret (ShortToHost big_endian (u16 (host_value big_endian bs)))
         else if size =? 4 then
           let! bs := lift (mem_read (mainMemory m) physicalAddress 4) in
           let data := s32 (host_value big_endian bs) in
           ret (s32 (WordToHost big_endian (u32 data)))
         else fail AssertFailed) in
      touch physicalAddress ;;;
      ret (true, Some value)
  end.

Definition WriteMem (addr size value : Z) : M Machine bool :=
  let! r := Translate addr size true in
  match r with
  | inl exception => RaiseException exception addr ;;; ret false
  | inr physicalAddress =>
      let! m := get in
      let! bs :=
        (if size =? 1 then ret [Z.land value 0xff]
         else if size =? 2 then
           ret (host_bytes big_endian 2 (ShortToMachine big_endian (u16 (Z.land value 0xffff))))
         else if size =? 4 then
           ret (host_bytes big_endian 4 (WordToMachine big_endian (u32 value)))
         else fail AssertFailed) in
      let! mem := lift (mem_write (mainMemory m) physicalAddress bs) in
      put (with_memory mem m) ;;;
      touch physicalAddress ;;;
      ret true
  end.
End memory.

(** ** Byte order *)

Definition byte (b : Z) : Prop := 0 <= b < 256.

Lemma u32_of_s32 z : u32 (s32 z) = u32 z.
Proof.
  unfold s32. pose proof (u32_range z) as Hr. unfold u32 in *. case_match.
  - by rewrite Z.mod_mod.
  - rewrite <- (Z.mod_add _ 1) by done. rewrite Z.mul_1_l, Z.sub_add. by rewrite Z.mod_mod.
Qed.

Lemma length_bytes_le n v : length (bytes_le n v) = n.
Proof. revert v. induction n; intros v; cbn; auto. Qed.

Lemma bytes_le_byte n v : Forall byte (bytes_le n v).
Proof.
  revert v. induction n as [|n IH]; intros v; constructor; [|apply IH].
  apply Z.mod_pos_bound. lia.
Qed.

Lemma of_le_bytes n v : of_le (bytes_le n v) = v mod 2 ^ (8 * Z.of_nat n).
Proof.
  revert v. induction n as [|n IH]; intros v; [cbn; by rewrite Z.mod_1_r|].
  cbn [bytes_le of_le]. rewrite IH. replace (8 * Z.of_nat (S n)) with (8 + 8 * Z.of_nat n) by lia.
  rewrite Z.pow_add_r by lia. change (2 ^ 8) with 256. rewrite Z.rem_mul_r; [done|lia|]. 
  apply Z.pow_pos_nonneg; lia.
Qed.

Lemma length_host_bytes big n v : length (host_bytes big n v) = n.
Proof. unfold host_bytes. destruct big; [rewrite length_rev|]; apply length_bytes_le. Qed.

Lemma host_roundtrip big n v : host_value big (host_bytes big n v) = v mod 2 ^ (8 * Z.of_nat n).
Proof. unfold host_value, host_bytes. destruct big; rewrite ?rev_involutive; apply of_le_bytes. Qed.

Lemma of_le_range bs : Forall byte bs → 0 <= of_le bs < 2 ^ (8 * Z.of_nat (length bs)).
Proof.
  induction 1 as [|b bs Hb _ IH]; [done|]. cbn [of_le length].
  replace (8 * Z.of_nat (S (length bs))) with (8 + 8 * Z.of_nat (length bs)) by lia.
  rewrite Z.pow_add_r by lia. change (2 ^ 8) with 256. unfold byte in Hb. nia.
Qed.

(** The mask of a byte at bit [k], as arithmetic. *)
Lemma land_byte w k : 0 <= k → Z.land w (Z.shiftl 255 k) = 2 ^ k * ((w / 2 ^ k) mod 256).
Proof. by apply (land_field w 8). Qed.

Lemma lor_add a b : Z.land a b = 0 → Z.lor a b = a + b.
Proof. intros H. by rewrite Z.add_nocarry_lxor, Z.lxor_lor. Qed.

(** Disjoint parts: one below [2 ^ k], the other a multiple of it. *)
Lemma lor_parts a b k : 0 <= k → 0 <= a < 2 ^ k → Z.lor a (2 ^ k * b) = a + 2 ^ k * b.
Proof.
  intros Hk Ha. apply lor_add, Z.bits_inj'. intros n Hn. rewrite Z.land_spec, Z.bits_0.
  replace (2 ^ k * b) with (Z.shiftl b k) by (rewrite Z.shiftl_mul_pow2 by lia; ring).
  rewrite Z.shiftl_spec by lia. destruct (Z.ltb_spec n k).
  - rewrite (Z.testbit_neg_r b) by lia. apply andb_false_r.
  - destruct (decide (a = 0)) as [->|]; [by rewrite Z.bits_0|].
    rewrite Z.bits_above_log2; [done|lia|]. assert (Z.log2 a < k); [|lia]. apply Z.log2_lt_pow2; lia.
Qed.

Lemma WordToHost_reverses w : 0 <= w < 2 ^ 32 → WordToHost true w = of_le (rev (bytes_le 4 w)).
Proof.
  intros Hw. unfold WordToHost, u32. cbn [rev app bytes_le of_le].
  change 0xff000000 with (Z.shiftl 255 24). change 0x00ff0000 with (Z.shiftl 255 16).
  change 0x0000ff00 with (Z.shiftl 255 8). change 0x000000ff with (Z.shiftl 255 0).
  rewrite !land_byte, !Z.shiftr_div_pow2, !Z.shiftl_mul_pow2 by lia.
  change (2 ^ 0) with 1. change (2 ^ 8) with 256. change (2 ^ 16) with 65536.
  change (2 ^ 24) with 16777216. change (2 ^ 32) with 4294967296 in *.
  assert (∀ a b, Z.lor (1 * a) b = Z.lor a b) as E1 by (intros; by rewrite Z.mul_1_l).
  rewrite E1, Z.div_1_r.
  set (b3 := (w / 16777216) mod 256).
  assert (((w / 256) / 256) mod 256 = (w / 65536) mod 256) as E2.
  { by rewrite Z.div_div by lia. }
  assert ((w * 256) mod 4294967296 / 65536 mod 256 = (w / 256) mod 256) as E3.
  { replace 4294967296 with (16777216 * 256) by done. rewrite Z.mul_mod_distr_r by lia.
    replace 65536 with (256 * 256) by done. rewrite Z.div_mul_cancel_r by lia.
    rewrite (Z.div_mod w 16777216) at 2 by lia. set (q := w / 16777216). set (r := w mod 16777216).
    replace (16777216 * q + r) with (r + 65536 * q * 256) by ring. rewrite Z.div_add by lia.
    replace (65536 * q) with (256 * q * 256) by ring. by rewrite Z.mod_add by lia. }
  assert ((w * 16777216) mod 4294967296 / 16777216 mod 256 = w mod 256) as E4.
  { replace 4294967296 with (256 * 16777216) by done. rewrite Z.mul_mod_distr_r, Z.div_mul by lia.
    by rewrite Z.mod_mod by lia. }
  rewrite E3, E4, E2.
  pose proof (lor_parts b3 (w / 65536 mod 256) 8) as L1. change (2 ^ 8) with 256 in L1.
  pose proof (lor_parts (b3 + 256 * (w / 65536 mod 256)) (w / 256 mod 256) 16) as L2.
  change (2 ^ 16) with 65536 in L2.
  pose proof (lor_parts (b3 + 256 * (w / 65536 mod 256) + 65536 * (w / 256 mod 256)) (w mod 256) 24) as L3.
  change (2 ^ 24) with 16777216 in L3.
  assert (0 <= b3 < 256 ∧ 0 <= w / 65536 mod 256 < 256 ∧ 0 <= w / 256 mod 256 < 256 ∧ 0 <= w mod 256 < 256)
    as (? & ? & ? & ?) by (split_and!; apply Z.mod_pos_bound; lia).
  rewrite L1, L2, L3 by lia. rewrite Z.mod_small by lia.
  assert (w / 256 / 256 / 256 mod 256 = b3) as -> by (by rewrite !Z.div_div by lia).
  ring.
Qed.

Lemma ShortToHost_reverses w : 0 <= w < 2 ^ 16 → ShortToHost true w = of_le (rev (bytes_le 2 w)).
Proof.
  intros Hw. unfold ShortToHost, u16. cbn [rev app bytes_le of_le].
  change 0xff00 with (Z.shiftl 255 8). change 0x00ff with (Z.shiftl 255 0).
  rewrite !land_byte, Z.shiftr_div_pow2, Z.shiftl_mul_pow2 by lia.
  change (2 ^ 0) with 1. change (2 ^ 8) with 256. change (2 ^ 16) with 65536 in *.
  rewrite Z.mul_1_l, Z.div_1_r.
  assert (w * 256 / 256 mod 256 = w mod 256) as -> by (by rewrite Z.div_mul).
  assert (0 <= w mod 256 < 256 ∧ 0 <= w / 256 mod 256 < 256) as [? ?] by (split; apply Z.mod_pos_bound; lia).
  rewrite (Z.mod_small (256 * _)) by lia. rewrite Z.lor_comm.
  pose proof (lor_parts (w / 256 mod 256) (w mod 256) 8) as L. change (2 ^ 8) with 256 in L.
  rewrite L by lia. rewrite Z.mod_small by lia. ring.
Qed.

Lemma bytes_of_le bs : Forall byte bs → bytes_le (length bs) (of_le bs) = bs.
Proof.
  induction 1 as [|b bs Hb _ IH]; [done|]. cbn [length bytes_le of_le]. unfold byte in Hb.
  rewrite Z.mul_comm, Z.mod_add, Z.div_add, Z.mod_small, Z.div_small by lia. by rewrite Z.add_0_l, IH.
Qed.

(** Memory is little endian on both hosts: what is stored... *)
Lemma store_word big v : 0 <= v < 2 ^ 32 → host_bytes big 4 (WordToMachine big v) = bytes_le 4 v.
Proof.
  intros Hv. destruct big; [|done]. unfold host_bytes, WordToMachine. rewrite WordToHost_reverses by done.
  rewrite <- (rev_involutive (bytes_le 4 v)) at 2. f_equal.
  apply (bytes_of_le (rev (bytes_le 4 v))). apply Forall_rev, bytes_le_byte.
Qed.
Lemma store_short big v : 0 <= v < 2 ^ 16 → host_bytes big 2 (ShortToMachine big v) = bytes_le 2 v.
Proof.
  intros Hv. destruct big; [|done]. unfold host_bytes, ShortToMachine. rewrite ShortToHost_reverses by done.
  rewrite <- (rev_involutive (bytes_le 2 v)) at 2. f_equal.
  apply (bytes_of_le (rev (bytes_le 2 v))). apply Forall_rev, bytes_le_byte.
Qed.

(** ...and what is loaded. *)
Lemma load_word big bs : Forall byte bs → length bs = 4%nat →
  WordToHost big (host_value big bs) = of_le bs.
Proof.
  intros Hb Hl. destruct big; [|done]. unfold host_value.
  assert (Forall byte (rev bs)) as Hr by (by apply Forall_rev).
  pose proof (of_le_range _ Hr) as Hrange. rewrite length_rev, Hl in Hrange. rewrite WordToHost_reverses by done.
  replace 4%nat with (length (rev bs)) by (by rewrite length_rev).
  by rewrite bytes_of_le, rev_involutive.
Qed.
Lemma load_short big bs : Forall byte bs → length bs = 2%nat →
  ShortToHost big (host_value big bs) = of_le bs.
Proof.
  intros Hb Hl. destruct big; [|done]. unfold host_value.
  assert (Forall byte (rev bs)) as Hr by (by apply Forall_rev).
  pose proof (of_le_range _ Hr) as Hrange. rewrite length_rev, Hl in Hrange. rewrite ShortToHost_reverses by done.
  replace 2%nat with (length (rev bs)) by (by rewrite length_rev).
  by rewrite bytes_of_le, rev_involutive.
Qed.

Lemma host_value_range big bs : Forall byte bs → 0 <= host_value big bs < 2 ^ (8 * Z.of_nat (length bs)).
Proof.
  intros Hb. unfold host_value. destruct big; [|by apply of_le_range].
  rewrite <- length_rev. by apply of_le_range, Forall_rev.
Qed.

(** ** Reading and writing a slice *)

Lemma mem_read_in mem p n : 0 <= p → p + Z.of_nat n <= Z.of_nat (length mem) →
  mem_read mem p n = Done (take n (drop (Z.to_nat p) mem)).
Proof. intros. unfold mem_read. by rewrite (proj2 (andb_true_iff _ _)) by lia. Qed.

Lemma mem_write_in mem p bs : 0 <= p → p + Z.of_nat (length bs) <= Z.of_nat (length mem) →
  mem_write mem p bs = Done (take (Z.to_nat p) mem ++ bs ++ drop (Z.to_nat p + length bs) mem).
Proof. intros. unfold mem_write. by rewrite (proj2 (andb_true_iff _ _)) by lia. Qed.

(** [mem'] is [mem] with [bs] at [p]. *)
Definition written (mem : list Z) (p : Z) (bs mem' : list Z) : Prop :=
  length mem' = length mem ∧
  (∀ k b, bs !! k = Some b → mem' !! (Z.to_nat p + k)%nat = Some b) ∧
  (∀ j, (j < Z.to_nat p ∨ Z.to_nat p + length bs <= j)%nat → mem' !! j = mem !! j).

Lemma mem_write_written mem p bs mem' : mem_write mem p bs = Done mem' → written mem p bs mem'.
Proof.
  unfold mem_write. destruct (andb _ _) eqn:H; [|done]. intros [= <-].
  apply andb_true_iff in H as [H1 H2].
  assert (length (take (Z.to_nat p) mem) = Z.to_nat p) as Hl by (rewrite length_take; lia).
  split_and!.
  - rewrite !length_app, Hl, length_drop. lia.
  - intros k b Hk. rewrite lookup_app_r, Hl by lia. replace (Z.to_nat p + k - Z.to_nat p)%nat with k by lia.
    rewrite lookup_app_l; [done|]. by eapply lookup_lt_Some.
  - intros j [Hj|Hj].
    + by rewrite lookup_app_l, lookup_take_lt by lia.
    + rewrite lookup_app_r, Hl, lookup_app_r, lookup_drop by lia. f_equal. lia.
Qed.

Lemma written_unique mem p bs mem1 mem2 : written mem p bs mem1 → written mem p bs mem2 → mem1 = mem2.
Proof.
  intros (L1 & I1 & O1) (L2 & I2 & O2). apply list_eq. intros j.
  destruct (decide (j < Z.to_nat p ∨ Z.to_nat p + length bs <= j)%nat) as [Ho|Hi]; [by rewrite O1, O2|].
  destruct (lookup_lt_is_Some_2 bs (j - Z.to_nat p)) as [b Hb]; [lia|].
  specialize (I1 _ _ Hb). specialize (I2 _ _ Hb). replace (Z.to_nat p + (j - Z.to_nat p))%nat with j in * by lia.
  congruence.
Qed.

Lemma written_read mem p bs mem' : written mem p bs mem' →
  take (length bs) (drop (Z.to_nat p) mem') = bs.
Proof.
  intros (Hl & Hb & _). apply list_eq. intros k. destruct (decide (k < length bs)%nat) as [Hk|Hk].
  - rewrite lookup_take_lt, lookup_drop by done. destruct (bs !! k) as [b|] eqn:Hbk; [by apply Hb|].
    apply lookup_ge_None in Hbk. lia.
  - rewrite !lookup_ge_None_2; [done|lia|]. rewrite length_take. lia.
Qed.

(** ** What the hardware promises *)

(** Exactly one of TLB and page table, with the sizes the machine is built with. *)
Record machine_wf (m : Machine) : Prop := {
  mw_memory : length (mainMemory m) = Z.to_nat MemorySize;
  mw_bytes : Forall byte (mainMemory m);
  mw_table : match tlb m, pageTable m with
    | Some t, None => length t = Z.to_nat TLBSize
    | None, Some t => pageTableSize m = Z.of_nat (length t)
    | _, _ => False
    end;
  mw_used : length (lastUsed m) = Z.to_nat NumPhysPages
}.

(** [e], at [p], is the entry for page [vpn]: the entry of that index, or the
    first of the TLB with that page number. *)
Inductive hit (m : Machine) (vpn : Z) : entry_ptr → TranslationEntry → Prop :=
| hit_table t e : tlb m = None → pageTable m = Some t → 0 <= vpn → t !! Z.to_nat vpn = Some e →
    valid e = true → hit m vpn (InPageTable vpn) e
| hit_tlb t i e : tlb m = Some t → pageTable m = None → t !! i = Some e →
    valid e = true → u32 (virtualPage e) = vpn →
    (∀ j e', (j < i)%nat → t !! j = Some e' → valid e' = true → u32 (virtualPage e') ≠ vpn) →
    hit m vpn (InTLB (Z.of_nat i)) e.

(** The entry as a reference marks it. *)
Definition marked (e : TranslationEntry) (writing : bool) : TranslationEntry :=
  mkEntry (virtualPage e) (physicalPage e) (valid e) (readOnly e) true (dirty e || writing).

Definition put_entry (p : entry_ptr) (e : TranslationEntry) (m : Machine) : Machine :=
  match p with
  | InPageTable i => match pageTable m with Some t => with_pageTable (<[Z.to_nat i := e]> t) m | None => m end
  | InTLB i => match tlb m with Some t => with_tlb (<[Z.to_nat i := e]> t) m | None => m end
  end.

Definition frame (e : TranslationEntry) : Z := u32 (physicalPage e).
Definition page (va : Z) : Z := u32 va / PageSize.
Definition place (e : TranslationEntry) (va : Z) : Z := frame e * PageSize + u32 va mod PageSize.

Inductive translates (m : Machine) (va size : Z) (writing : bool) : ExceptionType + Z → Machine → Prop :=
| tr_misaligned : va mod size ≠ 0 → translates m va size writing (inl AddressErrorException) m
| tr_beyond t : va mod size = 0 → pageTable m = Some t → Z.of_nat (length t) <= page va →
    translates m va size writing (inl AddressErrorException) m
| tr_fault : va mod size = 0 → (∀ p e, ¬ hit m (page va) p e) →
    (∀ t, pageTable m = Some t → page va < Z.of_nat (length t)) →
    translates m va size writing (inl PageFaultException) m
| tr_readonly p e : va mod size = 0 → hit m (page va) p e → readOnly e = true → writing = true →
    translates m va size writing (inl ReadOnlyException) m
| tr_bus p e : va mod size = 0 → hit m (page va) p e → readOnly e && writing = false →
    NumPhysPages <= frame e → translates m va size writing (inl BusErrorException) m
| tr_ok p e : va mod size = 0 → hit m (page va) p e → readOnly e && writing = false →
    frame e < NumPhysPages → 0 <= place e va → place e va + size <= MemorySize →
    translates m va size writing (inr (place e va)) (put_entry p (marked e writing) m).

Lemma aligned_room v size : size = 1 ∨ size = 2 ∨ size = 4 → v mod size = 0 → v mod 128 + size <= 128.
Proof. intros [->|[->| ->]] Hv; lia. Qed.

(** An aligned reference stays in its page. *)
Lemma place_bounds e va size : size = 1 ∨ size = 2 ∨ size = 4 → va mod size = 0 →
  frame e < NumPhysPages → 0 <= place e va ∧ place e va + size <= MemorySize ∧
  place e va / PageSize = frame e ∧ place e va mod PageSize + size <= PageSize.
Proof.
  intros Hs Ha Hf. pose proof (u32_range (physicalPage e)) as Hu. unfold place, frame, PageSize,
    MemorySize, NumPhysPages, SectorSize, PageSize in *. 
  assert (u32 va mod size = 0) as Hu32.
  { unfold u32. destruct Hs as [->|[->| ->]]; [by rewrite Z.mod_1_r|..].
    - change (2 ^ 32) with (2 * 2 ^ 31). rewrite Z.rem_mul_r, Ha, Z.add_0_l, Z.mul_comm by lia. by apply Z.mod_mul.
    - change (2 ^ 32) with (4 * 2 ^ 30). rewrite Z.rem_mul_r, Ha, Z.add_0_l, Z.mul_comm by lia. by apply Z.mod_mul. }
  set (v := u32 va) in *. assert (0 <= v mod 128 < 128) by (apply Z.mod_pos_bound; lia).
  pose proof (aligned_room v size Hs Hu32).
  unfold SectorSize in *. split_and!; try lia.
Qed.

Section translate.
Context (va size : Z) (writing : bool) (Hsize : size = 1 ∨ size = 2 ∨ size = 4).

Lemma misaligned_test :
  ((size =? 4) && negb (Z.land va 0x3 =? 0)) || ((size =? 2) && negb (Z.land va 0x1 =? 0)) =
  negb (va mod size =? 0).
Proof.
  change 0x3 with (Z.ones 2). change 0x1 with (Z.ones 1). rewrite !Z.land_ones by lia.
  destruct Hsize as [->|[->| ->]]; cbn; [by rewrite Z.mod_1_r|by rewrite ?orb_false_r..].
Qed.

Lemma translate_entry_spec m p e : machine_wf m → va mod size = 0 → hit m (page va) p e →
  ∃ r m', translate_entry p (u32 va mod PageSize) size writing m = Done (r, m') ∧
    translates m va size writing r m'.
Proof.
  intros Hm Ha Hh.
  assert (∃ t, table_of p m = Some t ∧ vget t (index_of p) = Done e ∧
    ∀ e', set_entry p e' m = Done ((), put_entry p e' m)) as (t & Ht & Hget & Hset).
  { destruct Hh as [t e Htlb Hpt Hv Hte Hval|t i e Htlb Hpt Hte Hval Hp Hfirst]; exists t; cbn.
    - split; [done|]. split; [by apply vget_Some|]. intros e'. unfold set_entry, bind, get, lift. cbn.
      rewrite Hpt, vset_in; [done|]. apply lookup_lt_Some in Hte. lia.
    - split; [done|]. split; [by apply vget_Done|]. intros e'. unfold set_entry, bind, get, lift. cbn.
      rewrite Htlb, vset_in; [done|]. apply lookup_lt_Some in Hte. lia. }
  unfold translate_entry. rewrite (bind_Done _ _ m e m).
  2: { unfold get_entry, bind, get, lift. cbn. by rewrite Ht, Hget. }
  destruct (readOnly e && writing) eqn:Hro.
  { apply andb_true_iff in Hro as [Hr Hw]. eexists _, _. split; [done|]. by eapply tr_readonly. }
  cbn zeta. destruct (Z.leb_spec NumPhysPages (u32 (physicalPage e))) as [Hf|Hf].
  { eexists _, _. split; [done|]. by eapply tr_bus. }
  destruct (place_bounds e va size Hsize Ha Hf) as (H0 & H1 & _).
  rewrite (bind_Done _ _ m () _ (Hset _)). unfold ASSERT.
  rewrite (proj2 (andb_true_iff _ _)) by (fold (frame e); fold (place e va); lia).
  eexists _, _. split; [done|]. by eapply tr_ok.
Qed.

Lemma Translate_translates m : machine_wf m →
  ∃ r m', Translate va size writing m = Done (r, m') ∧ translates m va size writing r m'.
Proof.
  intros Hm. unfold Translate. rewrite misaligned_test. destruct (Z.eqb_spec (va mod size) 0) as [Ha|Ha]; cbn [negb].
  2: { eexists _, _. split; [done|]. by apply tr_misaligned. }
  pose proof (mw_table _ Hm) as Ht. unfold bind at 1. cbn [get]. 
  pose proof (u32_range va) as Hva.
  assert (0 <= page va) as Hpage by (unfold page, PageSize, SectorSize; lia).
  fold (page va). destruct (tlb m) as [t|] eqn:Htlb; destruct (pageTable m) as [t'|] eqn:Hpt; try done.
  - rewrite !(bind_Done _ _ m () m) by done. cbn zeta. rewrite take_ge by lia.
    destruct (find_index_spec (tlb_match (page va)) t) as [[-> Hnone]|(i & e & -> & Hi & He & Hfirst)]; cbn.
    + eexists _, _. split; [done|]. apply tr_fault; [done| |by rewrite Hpt].
      intros p e Hh. destruct Hh as [|t0 i e Htlb' _ Hi Hv Hp _]; [congruence|].
      rewrite Htlb in Htlb'. injection Htlb' as <-. specialize (Hnone _ _ Hi). unfold tlb_match in Hnone.
      rewrite Hv, Hp, Z.eqb_refl in Hnone. done.
    + destruct (Z.eqb_spec (Z.of_nat i) (-1)); [lia|]. apply (translate_entry_spec _ _ e); [done..|].
      unfold tlb_match in He. apply andb_true_iff in He as [Hv Hp%Z.eqb_eq].
      eapply hit_tlb; [done..|]. intros j e' Hj Hj' Hv' Hp'. specialize (Hfirst _ _ Hj Hj').
      unfold tlb_match in Hfirst. rewrite Hv', Hp', Z.eqb_refl in Hfirst. done.
  - rewrite !(bind_Done _ _ m () m) by done. cbn zeta. rewrite Ht.
    destruct (Z.leb_spec (Z.of_nat (length t')) (page va)) as [Hl|Hl].
    { eexists _, _. split; [done|]. by eapply tr_beyond. }
    destruct (vget_in t' (page va)) as (e & Hget & He); [lia|].
    rewrite (bind_Done _ _ m e m).
    2: { unfold get_entry, bind, get, lift. cbn. by rewrite Hpt, Hget. }
    destruct (valid e) eqn:Hv; cbn [negb].
    + apply (translate_entry_spec _ _ e); [done..|]. by eapply hit_table.
    + eexists _, _. split; [done|]. apply tr_fault; [done| |congruence].
      intros p e' Hh. destruct Hh as [t0 e' _ Hpt' _ He' Hv'|]; [|congruence].
      rewrite Hpt in Hpt'. injection Hpt' as <-. congruence.
Qed.
End translate.

(** ** Marked entries *)

Lemma hit_unique m vpn p e p' e' : hit m vpn p e → hit m vpn p' e' → p = p' ∧ e = e'.
Proof.
  intros H H'. destruct H as [t e Htlb Hpt Hv He Hval|t i e Htlb Hpt He Hval Hp Hfirst];
    destruct H' as [t' e' Htlb' Hpt' Hv' He' Hval'|t' i' e' Htlb' Hpt' He' Hval' Hp' Hfirst']; try congruence.
  - split; congruence.
  - assert (t' = t) as -> by congruence.
    destruct (Nat.lt_trichotomy i i') as [Hi|[->|Hi]].
    + by destruct (Hfirst' i e Hi He Hval).
    + split; congruence.
    + by destruct (Hfirst i' e' Hi He' Hval').
Qed.

Lemma hit_marked m vpn p e w : hit m vpn p e → hit (put_entry p (marked e w) m) vpn p (marked e w).
Proof.
  intros H. destruct H as [t e Htlb Hpt Hv He Hval|t i e Htlb Hpt He Hval Hp Hfirst]; cbn.
  - rewrite Hpt. eapply hit_table; cbn; [done..| |done].
    apply list_lookup_insert_eq. by eapply lookup_lt_Some.
  - rewrite Htlb. eapply hit_tlb; cbn; [done..| |done|done|].
    + rewrite Nat2Z.id. apply list_lookup_insert_eq. by eapply lookup_lt_Some.
    + intros j e' Hj. rewrite Nat2Z.id, list_lookup_insert_ne by lia. by apply Hfirst.
Qed.

Lemma put_entry_fields p e m : mainMemory (put_entry p e m) = mainMemory m ∧
  registers (put_entry p e m) = registers m ∧ lastUsed (put_entry p e m) = lastUsed m ∧
  totalTicks (put_entry p e m) = totalTicks m ∧ mode (put_entry p e m) = mode m.
Proof. by destruct p; cbn; [destruct (pageTable m)|destruct (tlb m)]. Qed.

Lemma put_entry_wf p e m : machine_wf m → machine_wf (put_entry p e m).
Proof.
  intros [H1 H2 H3 H4]. destruct p as [i|i]; cbn.
  - destruct (pageTable m) eqn:Hpt; [|by split; rewrite ?Hpt].
    split; cbn; try done. by destruct (tlb m); rewrite ?length_insert.
  - destruct (tlb m) eqn:Htlb; [|by split; rewrite ?Htlb].
    split; cbn; try done. by destruct (pageTable m); rewrite ?length_insert.
Qed.

Lemma translates_wf m va size w r m' : machine_wf m → translates m va size w r m' → machine_wf m'.
Proof. intros Hm H. destruct H; [done..|]. by apply put_entry_wf. Qed.

(** What a written reference leaves is read at the same place. *)
Lemma read_after_write m va size pa m1 used mem r m2 :
  translates m va size true (inr pa) m1 →
  translates (with_lastUsed used (with_memory mem m1)) va size false r m2 →
  r = inr pa.
Proof.
  inversion 1 as [| | | | |p e Ha Hh Hro Hf H0 H1]; subst.
  assert (hit (with_lastUsed used (with_memory mem (put_entry p (marked e true) m))) (page va) p (marked e true))
    as Hh'.
  { apply (hit_marked _ _ _ _ true) in Hh. inversion Hh; subst; [by eapply hit_table|by eapply hit_tlb]. }
  inversion 1 as [|t Ha' Hpt Hl|Ha' Hno Hl|p' e' _ Hh2 Hr Hw|p' e' _ Hh2 Hr Hb|p' e' _ Hh2 Hr Hb]; subst.
  - done.
  - inversion Hh' as [t0 e0 Htlb Hpt' Hv He Hval|t0 i e0 Htlb Hpt' He Hval Hp Hfirst]; [|congruence].
    assert (t0 = t) as -> by congruence. apply lookup_lt_Some in He. lia.
  - by destruct (Hno _ _ Hh').
  - done.
  - destruct (hit_unique _ _ _ _ _ _ Hh' Hh2) as [-> <-]. change (frame (marked e true)) with (frame e) in Hb. lia.
  - by destruct (hit_unique _ _ _ _ _ _ Hh' Hh2) as [-> <-].
Qed.

(** ** The two operations, once translated *)

(** A value of [size] bytes as [ReadMem] gives it: a signed [char], an
    [unsigned short], an [int]. *)
Definition narrow (size v : Z) : Z := if size =? 1 then s8 v else if size =? 2 then u16 v else s32 v.

Lemma bytes_le_mod n v : bytes_le n (v mod 2 ^ (8 * Z.of_nat n)) = bytes_le n v.
Proof.
  rewrite <- of_le_bytes. rewrite <- (length_bytes_le n v) at 1.
  apply bytes_of_le, bytes_le_byte.
Qed.

Lemma u32_s32 v : 0 <= v < 2 ^ 32 → u32 (s32 v) = v.
Proof.
  intros Hv. unfold s32, u32. rewrite (Z.mod_small v) by done.
  destruct (v <? 2 ^ 31); [by apply Z.mod_small|].
  replace (v - 2 ^ 32) with (v + (-1) * 2 ^ 32) by ring. by rewrite Z.mod_add, Z.mod_small.
Qed.

Section memory_spec.
Context (big_endian : bool) (ExceptionHandler : ExceptionType → M Machine unit).
Context (addr size : Z) (Hsize : size = 1 ∨ size = 2 ∨ size = 4).

Let used (pa : Z) (m : Machine) : list Z := <[Z.to_nat (pa / PageSize) := totalTicks m]> (lastUsed m).

Lemma Translate_Done m w r m1 : machine_wf m → Translate addr size w m = Done (r, m1) →
  translates m addr size w r m1.
Proof.
  intros Hm HT. destruct (Translate_translates addr size w Hsize m Hm) as (r' & m1' & HT' & Htr).
  by assert (r' = r ∧ m1' = m1) as [-> ->] by (split; congruence).
Qed.

Lemma translated m w pa m1 : machine_wf m → Translate addr size w m = Done (inr pa, m1) →
  0 <= pa ∧ pa + size <= MemorySize ∧ mainMemory m1 = mainMemory m ∧
  lastUsed m1 = lastUsed m ∧ totalTicks m1 = totalTicks m ∧
  ∀ mem, touch pa (with_memory mem m1) = Done ((), with_lastUsed (used pa m) (with_memory mem m1)).
Proof.
  intros Hm HT. apply Translate_Done in HT; [|done].
  inversion HT as [| | | | |p e Ha Hh Hro Hf H0 H1]; subst.
  destruct (put_entry_fields p (marked e w) m) as (Hmem & _ & Hl & Ht & _). split_and!; try done.
  intros mem. destruct (place_bounds e addr size Hsize Ha Hf) as (_ & _ & Hp & _).
  unfold touch, bind, get, lift. cbn. rewrite Hl, Ht. rewrite vset_in; [done|].
  rewrite Hp, (mw_used _ Hm). pose proof (u32_range (physicalPage e)). fold (frame e) in *.
  unfold NumPhysPages in *. lia.
Qed.

(** What [WriteMem] moves: the low bytes of the value, lowest first. *)
Lemma written_bytes v : ∃ bs, (∀ m : Machine,
   (if size =? 1 then ret [Z.land v 0xff]
    else if size =? 2 then
      ret (host_bytes big_endian 2 (ShortToMachine big_endian (u16 (Z.land v 0xffff))))
    else if size =? 4 then ret (host_bytes big_endian 4 (WordToMachine big_endian (u32 v)))
    else fail AssertFailed) m = Done (bs, m)) ∧ bs = bytes_le (Z.to_nat size) v.
Proof.
  eexists. split; [intros m|reflexivity]. destruct Hsize as [->|[->| ->]]; cbn -[bytes_le Z.land].
  - change 0xff with (Z.ones 8). by rewrite Z.land_ones.
  - change 0xffff with (Z.ones 16). rewrite Z.land_ones by lia. unfold u16. rewrite Z.mod_mod by done.
    rewrite store_short by (by apply Z.mod_pos_bound). unfold ret. do 2 f_equal. apply (bytes_le_mod 2).
  - rewrite store_word by apply u32_range. unfold ret. do 2 f_equal. apply (bytes_le_mod 4).
Qed.

Lemma WriteMem_translated v m pa m1 : machine_wf m → Translate addr size true m = Done (inr pa, m1) →
  ∃ mem, WriteMem big_endian ExceptionHandler addr size v m =
    Done (true, with_lastUsed (used pa m) (with_memory mem m1)) ∧
    written (mainMemory m) pa (bytes_le (Z.to_nat size) v) mem.
Proof.
  intros Hm HT. destruct (translated m true pa m1 Hm HT) as (H0 & H1 & Hmem & _ & _ & Htouch).
  destruct (written_bytes v) as (bs & Hbs & ->).
  unfold WriteMem. rewrite (bind_Done _ _ _ _ _ HT). unfold bind at 1. cbn [get].
  rewrite (bind_Done _ _ _ _ _ (Hbs m1)).
  assert (mem_write (mainMemory m1) pa (bytes_le (Z.to_nat size) v) =
    Done (take (Z.to_nat pa) (mainMemory m) ++ bytes_le (Z.to_nat size) v ++
          drop (Z.to_nat pa + length (bytes_le (Z.to_nat size) v)) (mainMemory m))) as Hw.
  { rewrite Hmem. apply mem_write_in; [done|]. rewrite length_bytes_le, (mw_memory _ Hm). lia. }
  rewrite Hw. eexists. split; [|rewrite Hmem in Hw; by eapply mem_write_written].
  cbn [lift]. unfold bind at 1, lift. unfold bind at 1. cbn [put].
  by rewrite (bind_Done _ _ _ _ _ (Htouch _)).
Qed.

Lemma ReadMem_translated m pa m1 : machine_wf m → Translate addr size false m = Done (inr pa, m1) →
  ReadMem big_endian ExceptionHandler addr size m =
    Done (true, Some (narrow size (of_le (take (Z.to_nat size) (drop (Z.to_nat pa) (mainMemory m))))),
      with_lastUsed (used pa m) m1).
Proof.
  intros Hm HT. destruct (translated m false pa m1 Hm HT) as (H0 & H1 & Hmem & _ & _ & Htouch).
  set (bs := take (Z.to_nat size) (drop (Z.to_nat pa) (mainMemory m))).
  assert (Forall byte bs) as Hb by (apply Forall_take, Forall_drop, (mw_bytes _ Hm)).
  assert (length bs = Z.to_nat size) as Hl.
  { unfold bs. rewrite length_take, length_drop, (mw_memory _ Hm). lia. }
  assert (mem_read (mainMemory m1) pa (Z.to_nat size) = Done bs) as Hr.
  { rewrite Hmem. apply mem_read_in; [done|]. rewrite (mw_memory _ Hm). lia. }
  specialize (Htouch (mainMemory m1)). replace (with_memory (mainMemory m1) m1) with m1 in Htouch by (by destruct m1).
  pose proof (host_value_range big_endian bs Hb) as Hh.
  unfold ReadMem. rewrite (bind_Done _ _ _ _ _ HT). unfold bind at 1. cbn [get].
  destruct Hsize as [->|[->| ->]];
    [change (Z.to_nat 1) with 1%nat in *|change (Z.to_nat 2) with 2%nat in *|change (Z.to_nat 4) with 4%nat in *];
    cbn -[Z.to_nat mem_read touch WordToHost ShortToHost] in *;
    unfold bind at 2; unfold lift; rewrite Hr; cbn -[touch WordToHost ShortToHost];
    rewrite Hl in Hh; unfold bind at 1; cbn -[touch WordToHost ShortToHost];
    rewrite Htouch; unfold narrow; cbn -[WordToHost ShortToHost].
  - done.
  - unfold u16. rewrite (Z.mod_small (host_value _ _)) by done. rewrite load_short by done.
    pose proof (of_le_range bs Hb) as Ho. rewrite Hl in Ho. by rewrite (Z.mod_small (of_le bs)).
  - rewrite u32_s32 by done. by rewrite load_word.
Qed.
End memory_spec.

Lemma narrow_written size v : size = 1 ∨ size = 2 ∨ size = 4 →
  narrow size (of_le (bytes_le (Z.to_nat size) v)) = narrow size v.
Proof.
  rewrite of_le_bytes. intros [->|[->| ->]]; unfold narrow, s8, u16, s32, u32; cbn -[Z.pow];
    [change (2 ^ (8 * 1)) with 256|change (2 ^ (8 * 2)) with (2 ^ 16)|change (2 ^ (8 * 4)) with (2 ^ 32)];
    by rewrite Z.mod_mod by done.
Qed.

Lemma memory_wf m pa bs mem : machine_wf m → written (mainMemory m) pa bs mem → Forall byte bs →
  machine_wf (with_memory mem m).
Proof.
  intros [H1 H2 H3 H4] (Hl & Hb & Ho) Hbs. split; cbn; [congruence| |done|done].
  apply Forall_lookup. intros j b Hj.
  destruct (decide (j < Z.to_nat pa ∨ Z.to_nat pa + length bs <= j)%nat) as [Hout|Hin].
  - rewrite Ho in Hj by done. exact (Forall_lookup_1 _ _ _ _ H2 Hj).
  - destruct (lookup_lt_is_Some_2 bs (j - Z.to_nat pa)) as [b' Hb']; [lia|].
    pose proof (Hb _ _ Hb') as Hj'. replace (Z.to_nat pa + (j - Z.to_nat pa))%nat with j in Hj' by lia.
    assert (b' = b) as -> by congruence. exact (Forall_lookup_1 _ _ _ _ Hbs Hb').
Qed.

Lemma written_wf m pa n v mem used : machine_wf m → written (mainMemory m) pa (bytes_le n v) mem →
  length used = length (lastUsed m) → machine_wf (with_lastUsed used (with_memory mem m)).
Proof.
  intros Hm Hw Hu. destruct (memory_wf _ _ _ _ Hm Hw (bytes_le_byte n v)) as [H1 H2 H3 H4].
  split; cbn in *; try done. congruence.
Qed.

(** ** Properties *)

(** C28: on a machine with either a TLB or a page table, a
    reference of 1, 2 or 4 bytes is translated as [translates] says: it is an
    address error exactly when misaligned or beyond the page table, a page
    fault when no valid entry hits, a read-only exception when writing to a
    read-only page, a bus error for a frame that does not exist, and otherwise
    the place of the frame, wholly inside memory, with the use bit (and the
    dirty bit of a write) set in that entry and nothing else changed. No
    assertion of the code can fail. *)
Theorem Translate_spec va size writing m : machine_wf m → size = 1 ∨ size = 2 ∨ size = 4 →
  ∃ r m', Translate va size writing m = Done (r, m') ∧ translates m va size writing r m' ∧
    machine_wf m'.
Proof.
  intros Hm Hs. destruct (Translate_translates va size writing Hs m Hm) as (r & m' & HT & Htr).
  exists r, m'. split_and!; [done..|]. by eapply translates_wf.
Qed.

(** A value written to virtual memory is read back from the same
    address, cut to its size, in the state the write leaves, even when the
    writing and the reading host have different byte orders. *)
Theorem write_read big big' handler handler' addr size v m m1 : machine_wf m →
  size = 1 ∨ size = 2 ∨ size = 4 → WriteMem big handler addr size v m = Done (true, m1) →
  machine_wf m1 ∧ ∃ m2, ReadMem big' handler' addr size m1 = Done (true, Some (narrow size v), m2).
Proof.
  intros Hm Hs HW. destruct (Translate_translates addr size true Hs m Hm) as (r & m' & HT & Htr).
  destruct r as [e|pa].
  { unfold WriteMem in HW. rewrite (bind_Done _ _ _ _ _ HT) in HW. unfold bind in HW.
    by destruct (RaiseException handler e addr m') as [[]|]. }
  destruct (WriteMem_translated big handler addr size Hs v m pa m' Hm HT) as (mem & HW' & Hmem).
  rewrite HW in HW'. injection HW' as ->.
  destruct (translated addr size Hs m true pa m' Hm HT) as (Hpa & Hend & Hm' & Hl' & _).
  assert (machine_wf (with_lastUsed (<[Z.to_nat (pa / PageSize) := totalTicks m]> (lastUsed m)) (with_memory mem m')))
    as Hwf.
  { eapply written_wf; [by eapply translates_wf|by rewrite Hm'|]. by rewrite length_insert, Hl'. }
  split; [done|]. destruct (Translate_translates addr size false Hs _ Hwf) as (r2 & m2 & HT2 & Htr2).
  pose proof (read_after_write _ _ _ _ _ _ _ _ _ Htr Htr2) as ->.
  eexists. rewrite (ReadMem_translated big' handler' addr size Hs _ pa m2 Hwf HT2). cbn [mainMemory with_lastUsed with_memory].
  apply written_read in Hmem. rewrite length_bytes_le in Hmem. rewrite Hmem, narrow_written by done. done.
Qed.

(** A write either traps, with nothing moved and the answer
    FALSE, or puts the low bytes of the value, lowest first, at the translated
    place, whatever the byte order of the host, leaves every other byte of
    memory alone and stamps the page's frame with the time. *)
Theorem WriteMem_spec big handler addr size v m : machine_wf m → size = 1 ∨ size = 2 ∨ size = 4 →
  ∃ r m1, Translate addr size true m = Done (r, m1) ∧ translates m addr size true r m1 ∧
  match r with
  | inl e => WriteMem big handler addr size v m = (RaiseException handler e addr ;;; ret false) m
  | inr pa => ∃ mem, WriteMem big handler addr size v m =
      Done (true, with_lastUsed (<[Z.to_nat (pa / PageSize) := totalTicks m]> (lastUsed m)) (with_memory mem m1)) ∧
      written (mainMemory m) pa (bytes_le (Z.to_nat size) v) mem
  end.
Proof.
  intros Hm Hs. destruct (Translate_translates addr size true Hs m Hm) as (r & m1 & HT & Htr).
  exists r, m1. split_and!; [done..|]. destruct r as [e|pa].
  - unfold WriteMem. rewrite (bind_Done _ _ _ _ _ HT).
    inversion Htr; subst; done.
  - by apply WriteMem_translated.
Qed.

(** A program sees the same memory on a big endian
    host as on a little endian one: reads and writes of 1, 2 and 4 bytes give
    the same answers and the same machine. *)
Theorem memory_host_independent handler addr size v m : machine_wf m →
  size = 1 ∨ size = 2 ∨ size = 4 →
  ReadMem true handler addr size m = ReadMem false handler addr size m ∧
  WriteMem true handler addr size v m = WriteMem false handler addr size v m.
Proof.
  intros Hm Hs. split.
  - destruct (Translate_translates addr size false Hs m Hm) as ([e|pa] & m1 & HT & _).
    + unfold ReadMem. by rewrite !(bind_Done _ _ _ _ _ HT).
    + by rewrite !(ReadMem_translated _ handler addr size Hs m pa m1 Hm HT).
  - destruct (written_bytes true size Hs v) as (bs & Hbs & Hv).
    destruct (written_bytes false size Hs v) as (bs' & Hbs' & Hv').
    destruct (Translate_translates addr size true Hs m Hm) as ([e|pa] & m1 & HT & _).
    + unfold WriteMem. by rewrite !(bind_Done _ _ _ _ _ HT).
    + unfold WriteMem. rewrite !(bind_Done _ _ _ _ _ HT). unfold bind at 1. cbn [get].
      rewrite (bind_Done _ _ _ _ _ (Hbs m1)). symmetry. unfold bind at 1. cbn [get].
      by rewrite (bind_Done _ _ _ _ _ (Hbs' m1)), Hv, Hv'.
Qed.

(** A machine whose TLB maps page 3 to frame 5 and page 4, read only, to frame 6. *)
Definition example_tlb : list TranslationEntry :=
  [mkEntry 3 5 true false false false; mkEntry 4 6 true true false false;
   mkEntry 0 0 false false false false; mkEntry 0 0 false false false false].
Definition example_machine : Machine :=
  mkMachine (replicate (Z.to_nat MemorySize) 0) (replicate (Z.to_nat NumTotalRegs) 0) (Some example_tlb)
    None 0 (replicate (Z.to_nat NumPhysPages) 0) 7 UserMode.

Lemma example_machine_wf : machine_wf example_machine.
Proof.
  split; [apply length_replicate|by apply Forall_replicate|reflexivity|apply length_replicate].
Qed.

Lemma Translate_spec_witness : ∃ m', Translate 388 4 true example_machine = Done (inr 644, m') ∧
  translates example_machine 388 4 true (inr 644) m'.
Proof.
  destruct (Translate_spec 388 4 true example_machine example_machine_wf ltac:(lia)) as (r & m' & HT & Htr & _).
  exists m'. assert (r = inr 644) as ->; [|by split].
  assert (Translate 388 4 true example_machine = Done (inr 644, put_entry (InTLB 0)
    (marked (mkEntry 3 5 true false false false) true) example_machine)) as HT' by (vm_compute; reflexivity).
  congruence.
Defined.

Lemma write_read_witness : ∃ m1 m2,
  WriteMem true (λ _, ret ()) 388 4 (-559038737) example_machine = Done (true, m1) ∧
  ReadMem false (λ _, ret ()) 388 4 m1 = Done (true, Some (-559038737), m2).
Proof.
  destruct (WriteMem_spec true (λ _, ret ()) 388 4 (-559038737) example_machine example_machine_wf ltac:(lia))
    as (r & m1 & HT & _ & HW).
  assert (∃ m', Translate 388 4 true example_machine = Done (inr 644, m')) as [m' HT']
    by (eexists; vm_compute; reflexivity).
  assert (r = inr 644) as -> by congruence. destruct HW as (mem & HW & _).
  destruct (write_read true false _ (λ _, ret ()) 388 4 (-559038737) example_machine _ example_machine_wf ltac:(lia) HW)
    as (_ & m2 & HR).
  eexists _, m2. split; [exact HW|]. exact HR.
Defined.

Lemma WriteMem_spec_witness : ∃ m1,
  Translate 512 1 true example_machine = Done (inl ReadOnlyException, m1) ∧
  WriteMem false (λ _, ret ()) 512 1 65 example_machine =
    (RaiseException (λ _, ret ()) ReadOnlyException 512 ;;; ret false) example_machine.
Proof.
  destruct (WriteMem_spec false (λ _, ret ()) 512 1 65 example_machine example_machine_wf ltac:(lia))
    as (r & m1 & HT & _ & HW).
  assert (Translate 512 1 true example_machine = Done (inl ReadOnlyException, example_machine)) as HT'
    by (vm_compute; reflexivity).
  assert (r = inl ReadOnlyException) as -> by congruence. exists m1. split; [exact HT|exact HW].
Defined.

Lemma memory_host_independent_witness :
  ReadMem true (λ _, ret ()) 386 2 example_machine = ReadMem false (λ _, ret ()) 386 2 example_machine.
Proof.
  apply (memory_host_independent (λ _, ret ()) 386 2 0 example_machine example_machine_wf). lia.
Defined.
