(* ===== verification/PassportOffice.v ===== *)
(** * PassportOffice: the simulation of threads/proj1Part2.cc

    Customers, senators, four kinds of clerks and a manager, threads over the
    locks and condition variables of Synch.  Their functions are written in a
    small language of commands, [cmd]; what a thread does between two calls of
    the kernel is one [Do].  The four kinds of clerks and the four visits to them
    are copies of each other in the code; here what they share has the kind as
    an argument. *)
From S2P Require Import Prelude Translate Synch.
From stdpp Require Import functions base list.
From Stdlib Require Import ZArith Lia ZifyBool.

Local Open Scope Z_scope.

(** ** Data *)

(** [bool] and [int] variables are numbers. *)
Definition truth (b : bool) : Z := if b then 1 else 0.

Inductive kind := Application | Picture | Passport | Cash.
#[export] Instance kind_eq_dec : EqDecision kind.
Proof. solve_decision. Defined.

(** [CLERKSTATE] *)
Definition AVAILABLE : Z := 0.
Definition SIGNALEDCUSTOMER : Z := 1.
Definition BUSY : Z := 2.
Definition ONBREAK : Z := 3.

(** The global variables, vectors and not. *)
Inductive vector :=
| clerkState (k : kind) | lineCount (k : kind) | bribeLineCount (k : kind) | sharedDataSSN (k : kind)
| pictureClerkSharedDataPicture
| applicationCompletion | pictureCompletion | passportCompletion
| passportPunishment | cashierRejection | doneCompletely.
#[export] Instance vector_eq_dec : EqDecision vector.
Proof. solve_decision. Defined.
Inductive global :=
| customersPresentCount | senatorPresentCount | checkedOutCount | senatorLineCount | passportOfficeOutsideLineCount
| senatorSafeToEnter | senatorPresentWaitOutSide | THEEND.
#[export] Instance global_eq_dec : EqDecision global.
Proof. solve_decision. Defined.
Record Office := mkOffice { vec : vector → list Z; glob : global → Z }.

(** The local variables of all functions; [result] is what a function returned,
    [limit] the bound of a loop of yields. *)
Inductive var :=
| SSN | VIP | myLine | money | bribe | appClerkFirst
| appClerkDone | pictureClerkDone | passportClerkDone | cashierDone
| customerFromLine | customerSSN | certified
| present | result | test | i | limit
| senatorWaiting | senatorsInside | customersInside.
#[export] Instance var_eq_dec : EqDecision var.
Proof. solve_decision. Defined.
Definition Locals : Type := var → Z.

(** ** Locks and condition variables *)

Definition index (k : kind) : nat := match k with Application => 0 | Picture => 1 | Passport => 2 | Cash => 3 end.
Definition managerLock : nat := 0.
Definition lineLock (k : kind) : nat := 1 + index k.
Definition clerkLock (k : kind) (n : Z) : nat := 5 + 4 * Z.to_nat n + index k.
Definition passportOfficeOutsideLineCV : nat := 0.
Definition senatorLineCV : nat := 1.
Definition breakCV (k : kind) : nat := 2 + index k.
Definition clerkCV (k : kind) (n : Z) : nat := 6 + 12 * Z.to_nat n + 3 * index k.
Definition lineCV (k : kind) (n : Z) : nat := 7 + 12 * Z.to_nat n + 3 * index k.
Definition bribeLineCV (k : kind) (n : Z) : nat := 8 + 12 * Z.to_nat n + 3 * index k.

(** ** Commands *)

Inductive cmd :=
| Skip
| Do (f : Office → Locals → outcome (Office * Locals))
| Call (x : Locals → call)
| Broadcast (c : Locals → nat) (l : nat)
| YieldNow
| Rand (f : Z → Locals → Locals)
| Finish
| If (b : Locals → bool) (c1 c2 : cmd)
| While (b : Locals → bool) (c : cmd)
| Seq (c1 c2 : cmd).

Declare Scope cmd_scope.
Delimit Scope cmd_scope with cmd.
Bind Scope cmd_scope with cmd.
Notation "c1 ;; c2" := (Seq c1 c2) (at level 100, c2 at level 200, right associativity) : cmd_scope.

Definition expr : Type := Office → Locals → outcome Z.
Definition lift1 (f : Locals → Z) : expr := λ _ l, Done (f l).
Definition read (g : global) : expr := λ o _, Done (glob o g).
Definition at_index (v : vector) (n : Locals → Z) : expr := λ o l, vget (vec o v) (n l).

Definition assign (x : var) (e : expr) : cmd :=
  Do (λ o l, match e o l with Done z => Done (o, <[x := z]> l) | Fault f => Fault f end).
Definition set (x : var) (f : Locals → Z) : cmd := assign x (lift1 f).
Definition put_global (g : global) (e : expr) : cmd :=
  Do (λ o l, match e o l with Done z => Done (mkOffice (vec o) (<[g := z]> (glob o)), l) | Fault f => Fault f end).
Definition with_vec (v : vector) (zs : list Z) (o : Office) : Office := mkOffice (<[v := zs]> (vec o)) (glob o).
Definition store (v : vector) (n : Locals → Z) (e : expr) : cmd :=
  Do (λ o l, match e o l with
    | Done z => match vset (vec o v) (n l) z with Done zs => Done (with_vec v zs o, l) | Fault f => Fault f end
    | Fault f => Fault f
    end).
Definition change (v : vector) (n : Locals → Z) (d : Z) : cmd :=
  store v n (λ o l, match vget (vec o v) (n l) with Done z => Done (s32 (z + d)) | Fault f => Fault f end).
Definition count (g : global) (d : Z) : cmd := put_global g (λ o _, Done (s32 (glob o g + d))).

Definition Acquire (l : nat) : cmd := Call (λ _, CallAcquire l).
Definition Release (l : nat) : cmd := Call (λ _, CallRelease l).
Definition line (l : Locals) : Z := l myLine.

(** ** The functions *)

Section office.
Context (CLERKCOUNT CUSTOMERCOUNT SENATORCOUNT : Z).
Local Open Scope cmd_scope.

Fixpoint pick_loop (counts states : list Z) (j : Z) (n : nat) (myLine lineSize : Z) : outcome Z :=
  match n with
  | O => Done myLine
  | S n' =>
      let? c := vget counts j in
      if (c <? lineSize)%Z then
        let? st := vget states j in
        if (st =? ONBREAK)%Z then pick_loop counts states (j + 1) n' myLine lineSize
        else pick_loop counts states (j + 1) n' j c
      else pick_loop counts states (j + 1) n' myLine lineSize
  end.
Definition pickShortestLine (counts states : list Z) : outcome Z :=
  pick_loop counts states 0 (Z.to_nat CLERKCOUNT) (-1) 1000.

(** [for (int i = 0; i < rand() % a + b; i++) currentThread->Yield();] *)
Definition yields (a b : Z) : cmd :=
  set i (λ _, 0%Z) ;;
  Rand (λ r l, <[limit := (r mod a + b)%Z]> l) ;;
  While (λ l, (l i <? l limit)%Z)
    (YieldNow ;; set i (λ l, (l i + 1)%Z) ;; Rand (λ r l, <[limit := (r mod a + b)%Z]> l)).

Definition on (x : var) (l : Locals) : bool := negb (l x =? 0)%Z.
Definition off (x : var) (l : Locals) : bool := (l x =? 0)%Z.

(** *** Customers and senators *)

Definition customerSenatorPresentWaitOutside : cmd :=
  count customersPresentCount (-1) ;;
  count passportOfficeOutsideLineCount 1 ;;
  Call (λ _, CallWait passportOfficeOutsideLineCV (Some managerLock)) ;;
  count passportOfficeOutsideLineCount (-1) ;;
  count customersPresentCount 1.

Definition customerCheckSenator : cmd :=
  Acquire managerLock ;;
  assign present (read senatorPresentWaitOutSide) ;;
  If (on present) customerSenatorPresentWaitOutside Skip ;;
  Release managerLock.

Definition customerCheckIn : cmd :=
  Acquire managerLock ;; count customersPresentCount 1 ;; Release managerLock.
Definition customerCheckOut : cmd :=
  Acquire managerLock ;; count customersPresentCount (-1) ;; count checkedOutCount 1 ;; Release managerLock ;; Finish.

(** Waiting in a line until the clerk, or the manager, signals; [result] is 0
    where the visit returns false. *)
Definition wait_in_line (k : kind) (lines : vector) (cv : Z → nat) : cmd :=
  change lines line 1 ;;
  Call (λ l, CallWait (cv (line l)) (Some (lineLock k))) ;;
  change lines line (-1) ;;
  assign test (λ o l, let? z := vget (vec o (clerkState k)) (line l) in Done (truth (negb (z =? SIGNALEDCUSTOMER)%Z))) ;;
  If (on test) (Release (lineLock k) ;; customerCheckSenator ;; set result (λ l, truth (off present l))) Skip.

Definition get_in_line (k : kind) : cmd :=
  Rand (λ r l, <[bribe := truth ((500 <? l money)%Z && negb (r mod 2 =? 0)%Z && off VIP l)]> l) ;;
  Acquire (lineLock k) ;;
  assign myLine (λ o l, pickShortestLine (vec o (if on bribe l then bribeLineCount k else lineCount k)) (vec o (clerkState k))) ;;
  set result (λ _, 1%Z) ;;
  assign test (λ o l, let? z := vget (vec o (clerkState k)) (line l) in Done (truth (negb (z =? AVAILABLE)%Z))) ;;
  If (on test)
    (If (off bribe) (wait_in_line k (lineCount k) (lineCV k))
       (wait_in_line k (bribeLineCount k) (bribeLineCV k) ;; If (on result) (set money (λ l, s32 (l money - 500))) Skip))
    Skip ;;
  If (on result) (store (clerkState k) line (lift1 (λ _, BUSY)) ;; Release (lineLock k)) Skip.

Definition signal_clerk (k : kind) : cmd := Call (λ l, CallSignal (clerkCV k (line l)) (Some (clerkLock k (line l)))).
Definition wait_clerk (k : kind) : cmd := Call (λ l, CallWait (clerkCV k (line l)) (Some (clerkLock k (line l)))).
Definition acquire_clerk (k : kind) : cmd := Call (λ l, CallAcquire (clerkLock k (line l))).
Definition release_clerk (k : kind) : cmd := Call (λ l, CallRelease (clerkLock k (line l))).

(** At the counter: the number is given, and the clerk does its job. *)
Definition give_SSN (k : kind) : cmd :=
  acquire_clerk k ;;
  store (sharedDataSSN k) line (lift1 (λ l, l SSN)) ;;
  signal_clerk k ;;
  wait_clerk k.

Definition customerApplicationClerkInteraction : cmd :=
  get_in_line Application ;;
  If (on result) (give_SSN Application ;; release_clerk Application) Skip.

(** The customer looks at pictures until one is liked. *)
Definition picture_missing : cmd :=
  assign test (λ o l, let? z := vget (vec o pictureClerkSharedDataPicture) (line l) in Done (truth (z =? 0)%Z)).
Definition customerPictureClerkInteraction : cmd :=
  get_in_line Picture ;;
  If (on result)
    (give_SSN Picture ;;
     picture_missing ;;
     While (on test)
       (Rand (λ r l, <[test := (r mod 10)%Z]> l) ;;
        store pictureClerkSharedDataPicture line (lift1 (λ l, if (7 <? l test)%Z then 0%Z else 1%Z)) ;;
        signal_clerk Picture ;;
        wait_clerk Picture ;;
        picture_missing) ;;
     release_clerk Picture)
    Skip.

Definition customerPassportClerkInteraction : cmd :=
  get_in_line Passport ;;
  If (on result)
    (give_SSN Passport ;;
     assign result (λ o l, let? z := vget (vec o passportPunishment) (l SSN) in Done (truth (negb (z =? 1)%Z))) ;;
     release_clerk Passport)
    Skip.

Definition customerCashierInteraction : cmd :=
  get_in_line Cash ;;
  If (on result)
    (give_SSN Cash ;;
     assign result (λ o l, let? z := vget (vec o cashierRejection) (l SSN) in Done (truth (negb (z =? 1)%Z))) ;;
     If (on result) (set money (λ l, s32 (l money - 100)) ;; signal_clerk Cash ;; wait_clerk Cash) Skip ;;
     release_clerk Cash)
    Skip.

(** The next visit of a customer or a senator; [last] is what is left to do
    when all four are done. *)
Definition visit (last : cmd) : cmd :=
  If (λ l, off appClerkDone l && (on appClerkFirst l || on pictureClerkDone l))
    (customerApplicationClerkInteraction ;; set appClerkDone (λ l, l result))
  (If (off pictureClerkDone)
    (customerPictureClerkInteraction ;; set pictureClerkDone (λ l, l result))
  (If (off passportClerkDone)
    (customerPassportClerkInteraction ;; set passportClerkDone (λ l, l result) ;;
     If (off passportClerkDone) (yields 901 100) Skip)
  (If (off cashierDone)
    (customerCashierInteraction ;; set cashierDone (λ l, l result) ;;
     If (off cashierDone) (yields 901 100) Skip)
    last))).

Definition arrive (id vip : Z) : cmd :=
  set SSN (λ _, id) ;; set VIP (λ _, vip) ;;
  Rand (λ r l, <[money := (r mod 4 * 500 + 100)%Z]> l) ;;
  Rand (λ r l, <[appClerkFirst := (r mod 2)%Z]> l).

Definition Customer (id : Z) : cmd :=
  arrive id 0 ;;
  customerCheckIn ;;
  While (λ _, true) (customerCheckSenator ;; visit customerCheckOut).

Definition senatorArriveAtPassportOffice : cmd :=
  Acquire managerLock ;;
  assign test (λ o _, Done (truth (glob o senatorSafeToEnter =? 0)%Z)) ;;
  While (on test)
    (count senatorLineCount 1 ;;
     Call (λ _, CallWait senatorLineCV (Some managerLock)) ;;
     count senatorLineCount (-1) ;;
     assign test (λ o _, Done (truth (glob o senatorSafeToEnter =? 0)%Z))) ;;
  count senatorPresentCount 1 ;;
  Release managerLock.
Definition senatorLeavePassportOffice : cmd :=
  Acquire managerLock ;; count senatorPresentCount (-1) ;; count checkedOutCount 1 ;; Release managerLock.

Definition Senator (id : Z) : cmd :=
  arrive id 1 ;;
  senatorArriveAtPassportOffice ;;
  While (off cashierDone) (visit Skip) ;;
  senatorLeavePassportOffice.

(** *** Clerks *)

Definition clerkCheckForSenator : cmd :=
  Acquire managerLock ;;
  assign result (λ o _, Done (truth (negb (glob o senatorPresentWaitOutSide =? 0)%Z && (glob o senatorSafeToEnter =? 0)%Z))) ;;
  Release managerLock ;;
  If (on result) (yields 780 20) Skip.

(** Whether another clerk is AVAILABLE or BUSY. *)
Fixpoint free_other (states : list Z) (j : Z) (n : nat) (myLine : Z) : outcome bool :=
  match n with
  | O => Done false
  | S n' =>
      if (j =? myLine)%Z then free_other states (j + 1) n' myLine
      else
        let? st := vget states j in
        if (st =? AVAILABLE)%Z || (st =? BUSY)%Z then Done true else free_other states (j + 1) n' myLine
  end.

(** The scan and the break that follows it. *)
Definition go_on_break (k : kind) : cmd :=
  Do (λ o l,
    let? free := free_other (vec o (clerkState k)) 0 (Z.to_nat CLERKCOUNT) (l myLine) in
    if free : bool then
      let? zs := vset (vec o (clerkState k)) (l myLine) ONBREAK in Done (with_vec (clerkState k) zs o, <[test := 1%Z]> l)
    else Done (o, <[test := 0%Z]> l)).

Definition all_done : expr := λ o _, Done (truth (glob o checkedOutCount =? s32 (CUSTOMERCOUNT + SENATORCOUNT))%Z).

Definition checkAndGoOnBreak (k : kind) : cmd :=
  go_on_break k ;;
  If (on test)
    (Call (λ _, CallWait (breakCV k) (Some (lineLock k))) ;;
     store (clerkState k) line (lift1 (λ _, BUSY)))
    (Release (lineLock k) ;;
     Acquire managerLock ;;
     assign test all_done ;;
     If (on test) (Release managerLock ;; Finish) Skip ;;
     Release managerLock ;;
     YieldNow ;;
     Acquire (lineLock k)).

(** The next customer, or a break; [serve] is what the clerk does with a
    customer's number. *)
Definition next_customer (k : kind) : cmd :=
  Acquire (lineLock k) ;;
  assign customerFromLine (λ o l,
    let? b := vget (vec o (bribeLineCount k)) (line l) in
    if (0 <? b)%Z then Done 1%Z
    else let? c := vget (vec o (lineCount k)) (line l) in Done (if (0 <? c)%Z then 2%Z else 0%Z)) ;;
  If (λ l, (l customerFromLine =? 1)%Z)
    (Call (λ l, CallSignal (bribeLineCV k (line l)) (Some (lineLock k))) ;;
     store (clerkState k) line (lift1 (λ _, SIGNALEDCUSTOMER)))
  (If (λ l, (l customerFromLine =? 2)%Z)
    (Call (λ l, CallSignal (lineCV k (line l)) (Some (lineLock k))) ;;
     store (clerkState k) line (lift1 (λ _, SIGNALEDCUSTOMER)))
    (checkAndGoOnBreak k ;; Release (lineLock k))).

Definition take_number (k : kind) : cmd :=
  acquire_clerk k ;;
  Release (lineLock k) ;;
  wait_clerk k ;;
  assign customerSSN (at_index (sharedDataSSN k) line) ;;
  If (λ l, (l customerFromLine =? 1)%Z) (set money (λ l, s32 (l money + 500)) ;; YieldNow) Skip.

Definition clerk (k : kind) (serve : cmd) (id : Z) : cmd :=
  set myLine (λ _, id) ;;
  While (λ _, true)
    (clerkCheckForSenator ;;
     If (off result)
       (next_customer k ;; If (on customerFromLine) (take_number k ;; serve) Skip)
       Skip).

Definition ssn (l : Locals) : Z := l customerSSN.
Definition serve_application : cmd :=
  signal_clerk Application ;;
  release_clerk Application ;;
  yields 81 20 ;;
  store applicationCompletion ssn (lift1 (λ _, 1%Z)).

Definition serve_picture : cmd :=
  store pictureClerkSharedDataPicture line (lift1 (λ _, 0%Z)) ;;
  picture_missing ;;
  While (on test) (signal_clerk Picture ;; wait_clerk Picture ;; picture_missing) ;;
  signal_clerk Picture ;;
  yields 81 20 ;;
  store pictureCompletion ssn (lift1 (λ _, 1%Z)) ;;
  release_clerk Picture.

(** The documents are looked at and the answer is written down. *)
Definition certify : cmd :=
  Do (λ o l,
    let? a := vget (vec o applicationCompletion) (ssn l) in
    let? p := (if (a =? 1)%Z then vget (vec o pictureCompletion) (ssn l) else Done 0%Z) in
    let ok := (a =? 1)%Z && (p =? 1)%Z in
    let? zs := vset (vec o passportPunishment) (ssn l) (truth (negb ok)) in
    let o1 := with_vec passportPunishment zs o in
    if ok then let? zs := vset (vec o1 passportCompletion) (ssn l) 1%Z in Done (with_vec passportCompletion zs o1, <[certified := 1%Z]> l)
    else Done (o1, <[certified := 0%Z]> l)).

Definition serve_passport : cmd :=
  certify ;;
  signal_clerk Passport ;;
  If (on certified) (yields 81 20) Skip ;;
  release_clerk Passport.

Definition serve_cashier : cmd :=
  assign certified (at_index passportCompletion ssn) ;;
  If (off certified)
    (store cashierRejection ssn (lift1 (λ _, 1%Z)))
    (store cashierRejection ssn (lift1 (λ _, 0%Z)) ;;
     signal_clerk Cash ;;
     wait_clerk Cash ;;
     store doneCompletely ssn (lift1 (λ _, 1%Z)) ;;
     signal_clerk Cash) ;;
  release_clerk Cash.

Definition ApplicationClerk (id : Z) : cmd := clerk Application serve_application id.
Definition PictureClerk (id : Z) : cmd := clerk Picture serve_picture id.
Definition PassportClerk (id : Z) : cmd := clerk Passport serve_passport id.
Definition Cashier (id : Z) : cmd := clerk Cash serve_cashier id.

(** *** The manager *)

Definition managerBroacastLine (k : kind) : cmd :=
  Acquire (lineLock k) ;;
  set i (λ _, 0%Z) ;;
  While (λ l, (l i <? CLERKCOUNT)%Z)
    (Broadcast (λ l, lineCV k (l i)) (lineLock k) ;;
     Broadcast (λ l, bribeLineCV k (l i)) (lineLock k) ;;
     set i (λ l, (l i + 1)%Z)) ;;
  Release (lineLock k).
Definition managerBroadcastCustomerLines : cmd :=
  managerBroacastLine Application ;; managerBroacastLine Picture ;; managerBroacastLine Passport ;; managerBroacastLine Cash.

Definition managerSenatorCheck : cmd :=
  Acquire managerLock ;;
  assign senatorWaiting (λ o _, Done (truth (0 <? glob o senatorLineCount)%Z)) ;;
  assign senatorsInside (λ o _, Done (truth (0 <? glob o senatorPresentCount)%Z)) ;;
  assign customersInside (λ o _, Done (truth (0 <? glob o customersPresentCount)%Z)) ;;
  If (on senatorWaiting) (put_global senatorPresentWaitOutSide (λ _ _, Done 1%Z)) Skip ;;
  If (λ l, on senatorWaiting l && on customersInside l)
    (Release managerLock ;; managerBroadcastCustomerLines)
    (If (λ l, on senatorWaiting l && off customersInside l)
       (put_global senatorSafeToEnter (λ _ _, Done 1%Z) ;; Broadcast (λ _, senatorLineCV) managerLock) Skip ;;
     assign test (λ o l, Done (truth (negb (glob o senatorSafeToEnter =? 0)%Z && off senatorWaiting l && off senatorsInside l))) ;;
     If (on test)
       (put_global senatorSafeToEnter (λ _ _, Done 0%Z) ;;
        put_global senatorPresentWaitOutSide (λ _ _, Done 0%Z) ;;
        Broadcast (λ _, passportOfficeOutsideLineCV) managerLock) Skip ;;
     Release managerLock).

(** Whether a clerk sleeps and a line is longer than three. *)
Fixpoint sleeper_needed (counts states : list Z) (j : Z) (n : nat) (wakeUp asleep : bool) : outcome bool :=
  match n with
  | O => Done (wakeUp && asleep)
  | S n' =>
      let? st := vget states j in
      let? c := vget counts j in
      sleeper_needed counts states (j + 1) n' (wakeUp || (3 <? c)%Z) (asleep || (st =? ONBREAK)%Z)
  end.
Definition managerCheckandWakeupCLERK (k : kind) : cmd :=
  Acquire (lineLock k) ;;
  assign test (λ o _, let? b := sleeper_needed (vec o (lineCount k)) (vec o (clerkState k)) 0 (Z.to_nat CLERKCOUNT) false false in
    Done (truth b)) ;;
  If (on test) (Call (λ _, CallSignal (breakCV k) (Some (lineLock k)))) Skip ;;
  Release (lineLock k).
Definition managerCheckandWakupClerks : cmd :=
  managerCheckandWakeupCLERK Application ;; managerCheckandWakeupCLERK Picture ;;
  managerCheckandWakeupCLERK Passport ;; managerCheckandWakeupCLERK Cash.

Definition checkEndOfDay : cmd :=
  Acquire managerLock ;;
  assign test all_done ;;
  If (on test) (put_global THEEND (λ _ _, Done 1%Z) ;; Release managerLock ;; Finish) Skip ;;
  Release managerLock.

(** [managerCountMoney] only prints. *)
Definition Manager : cmd :=
  While (λ _, true)
    (set limit (λ _, 0%Z) ;;
     While (λ l, (l limit <? 1000)%Z)
       (managerSenatorCheck ;; managerCheckandWakupClerks ;; checkEndOfDay ;;
        YieldNow ;; YieldNow ;; YieldNow ;;
        set limit (λ l, (l limit + 1)%Z))).

(** *** The start *)

(** The loop of [Part2TestSuit] while the threads run. *)
Definition until_the_end : cmd :=
  assign test (λ o _, Done (truth (glob o THEEND =? 0)%Z)) ;;
  While (on test) (YieldNow ;; assign test (λ o _, Done (truth (glob o THEEND =? 0)%Z))).

Definition numbers (n : Z) : list Z := Z.of_nat <$> seq 0 (Z.to_nat n).

(** The threads in the order in which they are forked; the first is main. *)
Definition all_threads : list cmd :=
  until_the_end :: (Customer <$> numbers CUSTOMERCOUNT) ++
  ((λ j, Senator (CUSTOMERCOUNT + j)) <$> numbers SENATORCOUNT) ++
  (numbers CLERKCOUNT ≫= λ j, [ApplicationClerk j; PictureClerk j; PassportClerk j; Cashier j]) ++
  [Manager].

(** [cashierSharedDataSSN] has the size of the vectors of customers. *)
Definition first_office : Office :=
  let clerks := Z.to_nat CLERKCOUNT in
  let people := Z.to_nat (CUSTOMERCOUNT + SENATORCOUNT) in
  mkOffice (λ v, match v with
    | clerkState _ => replicate clerks BUSY
    | lineCount _ | bribeLineCount _ | pictureClerkSharedDataPicture => replicate clerks 0%Z
    | sharedDataSSN Cash => replicate people 0%Z
    | sharedDataSSN _ => replicate clerks 0%Z
    | _ => replicate people 0%Z
    end) (λ _, 0%Z).
End office.

(** ** What a thread does *)

(** [stacks t] is what thread [t] has left to do. *)
Record World := mkWorld { kern : Kernel; office : Office; stacks : tid → list cmd; locals : tid → Locals }.

Definition on_kern {B} (op : M Kernel B) : M World B := λ W,
  match op (kern W) with Done (b, K) => Done (b, mkWorld K (office W) (stacks W) (locals W)) | Fault f => Fault f end.
Definition goes_to (t : tid) (cs : list cmd) : M World unit :=
  modify (λ W, mkWorld (kern W) (office W) (<[t := cs]> (stacks W)) (locals W)).
Definition put_local (t : tid) (l : Locals) : M World unit :=
  modify (λ W, mkWorld (kern W) (office W) (stacks W) (<[t := l]> (locals W))).
Definition put_office (o : Office) : M World unit :=
  modify (λ W, mkWorld (kern W) o (stacks W) (locals W)).

(** One command of thread [t], which runs; [r] is the next value of [rand()].
    A thread that finishes leaves the processor for good, and so does one whose
    function returns. *)
Definition exec (t : tid) (r : Z) : M World unit :=
  let! W := get in
  let l := locals W t in
  match stacks W t with
  | [] => on_kern (modify (with_current None))
  | c :: cs =>
      match c with
      | Skip => goes_to t cs
      | Do f => let! x := lift (f (office W) l) in put_office x.1 ;;; put_local t x.2 ;;; goes_to t cs
      | Call x => goes_to t cs ;;; let! _s := on_kern (run_call (x l)) in ret ()
      | Broadcast cv k =>
          match waitingLock (conds (kern W) (cv l)), cond_queue (conds (kern W) (cv l)) with
          | Some _, _ :: _ => let! _s := on_kern (Signal (cv l) (Some k)) in ret ()
          | _, _ => goes_to t cs
          end
      | YieldNow => goes_to t cs ;;; let! _s := on_kern Yield in ret ()
      | Rand f => put_local t (f r l) ;;; goes_to t cs
      | Finish => goes_to t [] ;;; on_kern (modify (with_current None))
      | If b c1 c2 => goes_to t ((if b l then c1 else c2) :: cs)
      | While b c1 => goes_to t (if b l then c1 :: c :: cs else cs)
      | Seq c1 c2 => goes_to t (c1 :: c2 :: cs)
      end
  end.

(** The running thread goes on or is preempted, or the idle processor finds a
    ready thread. *)
Inductive step (W : World) : World → Prop :=
| step_exec t r W' : current (kern W) = Some t → 0 <= r → exec t r W = Done ((), W') → step W W'
| step_yield st K' : is_Some (current (kern W)) → Yield (kern W) = Done (st, K') →
    step W (mkWorld K' (office W) (stacks W) (locals W))
| step_dispatch st K' : current (kern W) = None → dispatch (kern W) = Done (st, K') →
    step W (mkWorld K' (office W) (stacks W) (locals W)).
Inductive steps (W : World) : World → Prop :=
| steps_nil : steps W W
| steps_cons W1 W2 : steps W W1 → step W1 W2 → steps W W2.

(** [Part2TestSuit] after the threads are forked; the flags of the functions
    start as false. *)
Definition start (clerks customers senators : Z) : World :=
  let ts := all_threads clerks customers senators in
  mkWorld (initial (seq 1 (length ts - 1)) (λ _, 0)) (first_office clerks customers senators)
    (λ t, match ts !! t with Some c => [c] | None => [] end) (λ _ _, 0).

(** ** What no interleaving breaks *)

(** An entry that is set. *)
Definition marked (v : vector) (o : Office) (n : nat) : Prop := ∃ z, vec o v !! n = Some z ∧ z ≠ 0.

Section invariant.
Context (CLERKCOUNT : Z).

(** The line that a customer chose, bribed or not. *)
Definition line_of (k : kind) (bribed : bool) : vector := if bribed then bribeLineCount k else lineCount k.

Record office_inv (o : Office) : Prop := {
  oi_done : ∀ n, marked doneCompletely o n → marked passportCompletion o n;
  oi_passport : ∀ n, marked passportCompletion o n → marked applicationCompletion o n ∧ marked pictureCompletion o n;
  oi_clerks : ∀ k, Z.of_nat (length (vec o (clerkState k))) = CLERKCOUNT ∧
    ∃ (j : nat) st, vec o (clerkState k) !! j = Some st ∧ st ≠ ONBREAK;
  oi_lines : ∀ k b, Z.of_nat (length (vec o (line_of k b))) = CLERKCOUNT
}.

(** What other threads can do: no document is taken back. *)
Definition document (v : vector) : Prop := v = applicationCompletion ∨ v = pictureCompletion ∨ v = passportCompletion.
Definition grows (o o' : Office) : Prop := ∀ v n, document v → marked v o n → marked v o' n.

Definition assertion : Type := Office → Locals → Prop.
Definition stable (P : assertion) : Prop := ∀ o o' l, grows o o' → P o l → P o' l.
Definition always : assertion := λ _ _, True.
Definition when (P : assertion) (b : Locals → bool) (x : bool) : assertion := λ o l, P o l ∧ b l = x.

(** Rely-guarantee triples: from a state where [P] holds, whatever the other
    threads do in between, [c] keeps the invariant and takes nothing back, and
    ends where [Q] holds. *)
Inductive ok : assertion → cmd → assertion → Prop :=
| ok_skip P : ok P Skip P
| ok_do P Q f : (∀ o l o' l', office_inv o → P o l → f o l = Done (o', l') → office_inv o' ∧ grows o o' ∧ Q o' l') → ok P (Do f) Q
| ok_call P x : ok P (Call x) P
| ok_broadcast P cv k : ok P (Broadcast cv k) P
| ok_yield P : ok P YieldNow P
| ok_rand P Q f : (∀ r o l, P o l → Q o (f r l)) → ok P (Rand f) Q
| ok_finish P Q : ok P Finish Q
| ok_if P Q b c1 c2 : ok (when P b true) c1 Q → ok (when P b false) c2 Q → ok P (If b c1 c2) Q
| ok_while P b c : ok (when P b true) c P → ok P (While b c) (when P b false)
| ok_seq P Q R c1 c2 : stable Q → ok P c1 Q → ok Q c2 R → ok P (c1 ;; c2)%cmd R
| ok_conseq P P' Q Q' c : stable P' → stable Q' → (∀ o l, P o l → P' o l) → ok P' c Q' → (∀ o l, Q' o l → Q o l) → ok P c Q.

(** What is left to do, one command after the other. *)
Inductive chain : assertion → list cmd → Prop :=
| chain_nil P : chain P []
| chain_cons P c cs Q : stable Q → ok P c Q → chain Q cs → chain P (c :: cs).

Definition thread_ok (o : Office) (l : Locals) (cs : list cmd) : Prop := ∃ P, stable P ∧ P o l ∧ chain P cs.
Definition world_ok (W : World) : Prop := office_inv (office W) ∧ ∀ t, thread_ok (office W) (locals W t) (stacks W t).

Lemma grows_refl o : grows o o. Proof. by intros v n. Qed.
Lemma stable_always : stable always. Proof. done. Qed.
Lemma stable_when P b x : stable P → stable (when P b x).
Proof. intros HP o o' l Hg [H1 H2]. split; [by eapply HP|done]. Qed.

Lemma chain_weaken P P' cs : stable P' → (∀ o l, P o l → P' o l) → chain P' cs → chain P cs.
Proof.
  intros HP' Himp Hc. inversion Hc as [|? c cs' Q HQ Hok Hrest]; subst; [constructor|].
  apply (chain_cons _ _ _ Q); [done| |done]. by apply (ok_conseq _ P' _ Q).
Qed.

Lemma world_step W K o' l' t cs : world_ok W → office_inv o' → grows (office W) o' → thread_ok o' l' cs →
  world_ok (mkWorld K o' (<[t := cs]> (stacks W)) (<[t := l']> (locals W))).
Proof.
  intros [Hi Ht] Hi' Hg Hth. split; [done|]. intros u. cbn. destruct (decide (u = t)) as [->|Hne].
  - by rewrite !fn_lookup_insert.
  - rewrite !fn_lookup_insert_ne by done. destruct (Ht u) as (P & HP & Hp & Hc). exists P. split_and!; [done|by eapply HP|done].
Qed.

(** The same without a change of the locals, or of the office. *)
Lemma world_stack W K t cs : world_ok W → thread_ok (office W) (locals W t) cs →
  world_ok (mkWorld K (office W) (<[t := cs]> (stacks W)) (locals W)).
Proof.
  intros HW Hth. pose proof (world_step W K (office W) (locals W t) t cs HW (proj1 HW) (grows_refl _) Hth) as [H1 H2].
  split; [exact H1|]. intros u. specialize (H2 u). cbn in *. destruct (decide (u = t)) as [->|Hne].
  - by rewrite fn_lookup_insert in H2 |- *; rewrite fn_lookup_insert in H2.
  - by rewrite !fn_lookup_insert_ne in * by done.
Qed.
Lemma world_kern W K : world_ok W → world_ok (mkWorld K (office W) (stacks W) (locals W)).
Proof. by intros [H1 H2]. Qed.

(** What calls of the kernel leave alone. *)
Lemma on_kern_done {B} (op : M Kernel B) W b W' : on_kern op W = Done (b, W') → ∃ K, W' = mkWorld K (office W) (stacks W) (locals W).
Proof. unfold on_kern. destruct (op (kern W)) as [[x K]|]; [|done]. intros [= _ <-]. by exists K. Qed.

Lemma after_kern {B} (op : M Kernel B) W W' : (let! _s := on_kern op in ret ()) W = Done ((), W') →
  ∃ K, W' = mkWorld K (office W) (stacks W) (locals W).
Proof.
  unfold bind. destruct (on_kern op W) as [[x W1]|] eqn:Ho; [|done]. intros [= <-]. exact (on_kern_done _ _ _ _ Ho).
Qed.

Lemma exec_cmd c P Q : ok P c Q → ∀ cs t r W W', stable P → stable Q → chain Q cs → world_ok W → P (office W) (locals W t) →
  stacks W t = c :: cs → exec t r W = Done ((), W') → world_ok W'.
Proof.
  induction 1 as [P|P Q f Hf|P x|P cv k|P|P Q f Hf|P Q|P Q b c1 c2 H1 _ H2 _|P b c Hc _|P Q R c1 c2 HQ H1 _ H2 _|P P' Q Q' c HP' HQ' HP Hc IH HQ];
    intros cs t r W W' HsP HsQ Hch HW Hp Hst Hex.
  1-10: unfold exec, bind at 1, get in Hex; cbn zeta in Hex; rewrite Hst in Hex.
  - injection Hex as <-. apply world_stack; [done|by exists P].
  - unfold lift, bind at 1 in Hex. destruct (f (office W) (locals W t)) as [[o' l']|] eqn:Hfo; [|done]. injection Hex as <-.
    destruct (Hf _ _ _ _ (proj1 HW) Hp Hfo) as (Hi & Hg & Hq). apply world_step; try done. by exists Q.
  - unfold bind at 1 in Hex. cbn [goes_to modify] in Hex. apply after_kern in Hex as [K ->].
    apply (world_stack (mkWorld (kern W) _ _ _) K t cs HW). by exists P.
  - assert (thread_ok (office W) (locals W t) cs) as Hth by (by exists P).
    destruct (waitingLock _); [|injection Hex as <-; by apply world_stack].
    destruct (cond_queue _); [injection Hex as <-; by apply world_stack|].
    apply after_kern in Hex as [K ->]. by apply world_kern.
  - unfold bind at 1 in Hex. cbn [goes_to modify] in Hex. apply after_kern in Hex as [K ->].
    apply (world_stack (mkWorld (kern W) _ _ _) K t cs HW). by exists P.
  - injection Hex as <-. apply world_step; [done|apply HW|apply grows_refl|]. exists Q. split_and!; [done|by apply Hf|done].
  - unfold bind at 1 in Hex. cbn [goes_to modify] in Hex. apply on_kern_done in Hex as [K ->].
    apply (world_stack (mkWorld (kern W) _ _ _) K t [] HW). exists always. split_and!; [done|done|constructor].
  - injection Hex as <-. apply world_stack; [done|]. exists (when P b (b (locals W t))). split; [by apply stable_when|]. split; [done|].
    apply (chain_cons _ _ _ Q); [done| |done]. by destruct (b (locals W t)).
  - injection Hex as <-. apply world_stack; [done|]. exists (when P b (b (locals W t))). split; [by apply stable_when|]. split; [done|].
    destruct (b (locals W t)) eqn:Hb; [|done]. apply (chain_cons _ _ _ P); [done|exact Hc|].
    apply (chain_cons _ _ _ (when P b false)); [by apply stable_when|by constructor|done].
  - injection Hex as <-. apply world_stack; [done|]. exists P. split_and!; [done|done|].
    apply (chain_cons _ _ _ Q); [done|done|]. by apply (chain_cons _ _ _ R).
  - apply (IH cs t r W W'); try done; [by apply (chain_weaken _ Q)|by apply HP].
Qed.

Lemma step_ok W W' : world_ok W → step W W' → world_ok W'.
Proof.
  intros HW [t r W1 Hc Hr Hex|st K' _ _|st K' _ _]; [|by apply world_kern|by apply world_kern].
  destruct (proj2 HW t) as (P & HP & Hp & Hch). remember (stacks W t) as cs0 eqn:Hcs. symmetry in Hcs.
  destruct Hch as [P|P c cs Q HQ Hok Hrest]; [|by eapply (exec_cmd c P Q)].
  unfold exec, bind at 1, get in Hex. cbn zeta in Hex. rewrite Hcs in Hex. apply on_kern_done in Hex as [K ->]. by apply world_kern.
Qed.

Lemma steps_ok W W' : world_ok W → steps W W' → world_ok W'.
Proof. induction 2; [done|by eapply step_ok]. Qed.

(** ** The commands of the office *)

Lemma local_eq (l : Locals) x z : (<[x := z]> l) x = z.
Proof. apply (fn_lookup_insert (l : var → Z)). Qed.
Lemma local_ne (l : Locals) x y z : x ≠ y → (<[x := z]> l) y = l y.
Proof. apply (fn_lookup_insert_ne (l : var → Z)). Qed.

Lemma with_vec_eq v zs o : vec (with_vec v zs o) v = zs.
Proof. apply fn_lookup_insert. Qed.
Lemma with_vec_ne v v' zs o : v' ≠ v → vec (with_vec v zs o) v' = vec o v'.
Proof. intros Hne. by apply fn_lookup_insert_ne. Qed.

Lemma marked_other v v' zs o n : v' ≠ v → marked v' (with_vec v zs o) n ↔ marked v' o n.
Proof. intros Hne. unfold marked. by rewrite with_vec_ne. Qed.

(** A store of a number that is not zero marks its entry and no other. *)
Lemma marked_store v o n z zs m : vset (vec o v) n z = Done zs → z ≠ 0 →
  marked v (with_vec v zs o) m ↔ m = Z.to_nat n ∨ marked v o m.
Proof.
  intros Hs Hz. unfold vset in Hs. destruct ((0 <=? n) && (n <? Z.of_nat (length (vec o v)))) eqn:Hr; [|done]. injection Hs as <-.
  unfold marked. rewrite with_vec_eq. destruct (decide (m = Z.to_nat n)) as [->|Hne].
  - rewrite list_lookup_insert_eq by lia. split; [by left|intros _; by exists z].
  - rewrite list_lookup_insert_ne by done. split; [by right|intros [?|?]; done].
Qed.

Lemma store_grows v o n z zs : vset (vec o v) n z = Done zs → z ≠ 0 ∨ ¬ document v → grows o (with_vec v zs o).
Proof.
  intros Hs Hz v' m Hd Hm. destruct (decide (v' = v)) as [->|Hne]; [|by apply marked_other].
  destruct Hz as [Hz|?]; [|done]. apply (marked_store _ _ _ _ _ _ Hs Hz). by right.
Qed.

(** A store leaves the length of a vector. *)
Lemma with_vec_length v v' n z zs o : vset (vec o v) n z = Done zs → length (vec (with_vec v zs o) v') = length (vec o v').
Proof.
  intros Hs. destruct (decide (v' = v)) as [->|Hne]; [|by rewrite with_vec_ne]. rewrite with_vec_eq. unfold vset in Hs.
  destruct (_ && _); [|done]. injection Hs as <-. apply length_insert.
Qed.
Lemma lines_kept v n z zs o : vset (vec o v) n z = Done zs → office_inv o →
  ∀ k b, Z.of_nat (length (vec (with_vec v zs o) (line_of k b))) = CLERKCOUNT.
Proof. intros Hs Hi k b. rewrite (with_vec_length _ _ _ _ _ _ Hs). by apply oi_lines. Qed.

(** A vector whose entries the invariant does not speak of. *)
Definition harmless (v : vector) : Prop :=
  match v with
  | clerkState _ | applicationCompletion | pictureCompletion | passportCompletion | doneCompletely => False
  | _ => True
  end.

Lemma harmless_inv v n z zs o : vset (vec o v) n z = Done zs → harmless v → office_inv o → office_inv (with_vec v zs o).
Proof.
  intros Hs Hv Hi. pose proof Hi as [H1 H2 H3 _]. constructor; [| | |by eapply lines_kept].
  - intros m. rewrite !marked_other by (intros <-; exact Hv). apply H1.
  - intros m. rewrite !marked_other by (intros <-; exact Hv). apply H2.
  - intros k. rewrite with_vec_ne by (intros <-; exact Hv). apply H3.
Qed.

Lemma ok_store P v n e : stable P → harmless v → ok P (store v n e) P.
Proof.
  intros HP Hv. apply ok_do. intros o l o' l' Hi Hp. destruct (e o l) as [z|]; [|done].
  destruct (vset (vec o v) (n l) z) as [zs|] eqn:Hs; [|done]. intros [= <- <-].
  assert (grows o (with_vec v zs o)) as Hg by (apply (store_grows v o (n l) z); [done|right; intros [->|[->| ->]]; exact Hv]).
  split_and!; [by eapply harmless_inv|done|by eapply HP].
Qed.

Lemma ok_change P v n d : stable P → harmless v → ok P (change v n d) P.
Proof. intros. by apply ok_store. Qed.

Lemma ok_global P g e : stable P → ok P (put_global g e) P.
Proof.
  intros HP. apply ok_do. intros o l o' l' [H1 H2 H3 H4] Hp. destruct (e o l) as [z|]; [|done]. intros [= <- <-].
  split_and!; [constructor; [exact H1|exact H2|exact H3|exact H4]|intros v n _ Hm; exact Hm|].
  eapply HP; [|exact Hp]. intros v n _ Hm. exact Hm.
Qed.

(** Clerks start to work. *)
Lemma ok_at_work k n st : st ≠ ONBREAK → ok always (store (clerkState k) n (lift1 (λ _, st))) always.
Proof.
  intros Hst. apply ok_do. intros o l o' l' Hi _. pose proof Hi as [H1 H2 H3 _]. cbn.
  destruct (vset (vec o (clerkState k)) (n l) st) as [zs|] eqn:Hs; [|done]. intros [= <- <-].
  split_and!; [|apply (store_grows _ _ _ _ _ Hs); right; by intros [?|[?|?]]|done]. constructor; [| | |by eapply lines_kept].
  - intros m. rewrite !marked_other by done. apply H1.
  - intros m. rewrite !marked_other by done. apply H2.
  - intros k'. destruct (decide (k' = k)) as [->|Hne]; [|rewrite with_vec_ne by congruence; apply H3].
    rewrite with_vec_eq. unfold vset in Hs. destruct (H3 k) as [Hl _].
    destruct ((0 <=? n l) && (n l <? Z.of_nat (length (vec o (clerkState k))))) eqn:Hr; [|done]. injection Hs as <-.
    rewrite length_insert. split; [done|]. exists (Z.to_nat (n l)), st. split; [|done]. apply list_lookup_insert_eq. lia.
Qed.

(** The first two documents are filed. *)
Lemma ok_file v n : v = applicationCompletion ∨ v = pictureCompletion → ok always (store v n (lift1 (λ _, 1))) always.
Proof.
  intros Hv. apply ok_do. intros o l o' l' Hi _. pose proof Hi as [H1 H2 H3 _]. cbn.
  destruct (vset (vec o v) (n l) 1) as [zs|] eqn:Hs; [|done]. intros [= <- <-].
  assert (grows o (with_vec v zs o)) as Hg by (apply (store_grows v o (n l) 1); [done|by left]).
  split_and!; [|done|done]. constructor; [| | |by eapply lines_kept].
  - intros m. rewrite !marked_other by (by destruct Hv as [->| ->]). apply H1.
  - intros m. rewrite marked_other by (by destruct Hv as [->| ->]). intros Hm.
    split; apply Hg; [by left|by apply H2|right; by left|by apply H2].
  - intros k. rewrite with_vec_ne by (by destruct Hv as [->| ->]). apply H3.
Qed.

(** The scan finds another clerk that works. *)
Lemma free_other_spec states : ∀ n j mine, 0 <= j → free_other states j n mine = Done true →
  ∃ j' st, j' ≠ mine ∧ 0 <= j' ∧ states !! Z.to_nat j' = Some st ∧ st ≠ ONBREAK.
Proof.
  induction n as [|n IH]; intros j mine Hj; cbn [free_other]; [done|]. destruct (Z.eqb_spec j mine) as [->|Hne]; [apply IH; lia|].
  destruct (vget states j) as [st|] eqn:Hst; [|done]. cbn [obind]. apply vget_Some in Hst as [_ Hst].
  destruct ((st =? AVAILABLE) || (st =? BUSY)) eqn:Hf; [|apply IH; lia]. intros _. exists j, st. split_and!; try done.
  intros ->. by vm_compute in Hf.
Qed.

Lemma ok_go_on_break k : ok always (go_on_break CLERKCOUNT k) always.
Proof.
  apply ok_do. intros o l o' l' Hi _. pose proof Hi as [H1 H2 H3 _]. destruct (free_other _ _ _ _) as [[]|] eqn:Hfree; [| |done]; cbn [obind].
  - destruct (vset (vec o (clerkState k)) (l myLine) ONBREAK) as [zs|] eqn:Hs; [|done]. intros [= <- <-].
    split_and!; [|apply (store_grows _ _ _ _ _ Hs); right; by intros [?|[?|?]]|done]. constructor; [| | |by eapply lines_kept].
    + intros m. rewrite !marked_other by done. apply H1.
    + intros m. rewrite !marked_other by done. apply H2.
    + intros k'. destruct (decide (k' = k)) as [->|Hne]; [|rewrite with_vec_ne by congruence; apply H3].
      rewrite with_vec_eq. unfold vset in Hs. destruct (H3 k) as [Hl _].
      destruct ((0 <=? l myLine) && (l myLine <? Z.of_nat (length (vec o (clerkState k))))) eqn:Hr; [|done]. injection Hs as <-.
      rewrite length_insert. split; [done|]. apply free_other_spec in Hfree as (j & st & Hj & H0 & Hst & Hne); [|lia].
      exists (Z.to_nat j), st. split; [|done]. by rewrite list_lookup_insert_ne by lia.
  - intros [= <- <-]. split_and!; [done|apply grows_refl|done].
Qed.

Lemma ok_certify : ok always certify always.
Proof.
  apply ok_do. intros o l o' l' Hi _. destruct (vget (vec o applicationCompletion) (ssn l)) as [a|] eqn:Ha; [|done]. cbn [obind].
  destruct (if a =? 1 then vget (vec o pictureCompletion) (ssn l) else Done 0) as [p|] eqn:Hp; [|done]. cbn [obind].
  destruct (vset (vec o passportPunishment) (ssn l) _) as [zs|] eqn:Hs; [|done]. cbn [obind].
  assert (office_inv (with_vec passportPunishment zs o)) as Hi1 by (by eapply harmless_inv).
  assert (grows o (with_vec passportPunishment zs o)) as Hg1 by (apply (store_grows _ _ _ _ _ Hs); right; by intros [?|[?|?]]).
  destruct ((a =? 1) && (p =? 1)) eqn:Hok; [|intros [= <- <-]; by split_and!].
  destruct (vset _ (ssn l) 1) as [zs'|] eqn:Hs'; [|done]. intros [= <- <-]. set (o1 := with_vec passportPunishment zs o) in *.
  assert (grows o1 (with_vec passportCompletion zs' o1)) as Hg2 by (apply (store_grows passportCompletion o1 (ssn l) 1); [exact Hs'|by left]).
  split_and!; [|intros v m Hd Hm; by apply Hg2, Hg1|done]. pose proof Hi1 as [H1 H2 H3 _]. constructor; [| | |by eapply lines_kept].
  - intros m. rewrite marked_other by done. intros Hm. apply Hg2; [by right; right|by apply H1].
  - intros m. rewrite (marked_store passportCompletion o1 (ssn l) 1) by done. rewrite !marked_other by done.
    intros [->|Hm]; [|by apply H2]. apply andb_true_iff in Hok as [Ha1%Z.eqb_eq Hp1%Z.eqb_eq]. subst a p. cbn in Hp.
    apply vget_Some in Ha as [_ Ha]. apply vget_Some in Hp as [_ Hp]. split; by eexists.
  - intros k. rewrite with_vec_ne by done. apply H3.
Qed.

(** A cashier that found a certificate. *)
Definition has_certificate : assertion := λ o l, off certified l = false → marked passportCompletion o (Z.to_nat (ssn l)).
Lemma stable_certificate : stable has_certificate.
Proof. intros o o' l Hg HP Hc. apply Hg; [by right; right|by apply HP]. Qed.

Lemma ok_look : ok always (assign certified (at_index passportCompletion ssn)) has_certificate.
Proof.
  apply ok_do. intros o l o' l' Hi _. unfold at_index. destruct (vget (vec o passportCompletion) (ssn l)) as [z|] eqn:Hz; [|done].
  intros [= <- <-]. split_and!; [done|apply grows_refl|]. intros Hne. unfold off in Hne. rewrite local_eq in Hne.
  unfold ssn at 1. rewrite local_ne by done. apply vget_Some in Hz as [_ Hz]. exists z. split; [done|lia].
Qed.

Lemma ok_hand_over : ok (when has_certificate (off certified) false) (store doneCompletely ssn (lift1 (λ _, 1))) always.
Proof.
  apply ok_do. intros o l o' l' Hi [Hcert Hc]. pose proof Hi as [H1 H2 H3 _]. cbn.
  destruct (vset (vec o doneCompletely) (ssn l) 1) as [zs|] eqn:Hs; [|done].
  intros [= <- <-]. split_and!; [|apply (store_grows _ _ _ _ _ Hs); by left|done]. constructor; [| | |by eapply lines_kept].
  - intros m. rewrite (marked_other doneCompletely passportCompletion) by done. rewrite (marked_store doneCompletely o (ssn l) 1) by done.
    intros [->|Hm]; [by apply Hcert|by apply H1].
  - intros m. rewrite !marked_other by done. apply H2.
  - intros k. rewrite with_vec_ne by done. apply H3.
Qed.

(** ** Commands that need nothing to hold *)

Definition calm (c : cmd) : Prop := ok always c always.

Lemma calm_of P c Q : (∀ o l, P o l) → stable P → stable Q → ok P c Q → calm c.
Proof. intros HP HsP HsQ Hok. by apply (ok_conseq _ P _ Q). Qed.
Lemma calm_when P c : calm c → ok P c always.
Proof. intros Hc. by apply (ok_conseq _ always _ always). Qed.
Lemma calm_seq c1 c2 : calm c1 → calm c2 → calm (c1 ;; c2)%cmd.
Proof. intros H1 H2. by apply (ok_seq _ always). Qed.
Lemma calm_if b c1 c2 : calm c1 → calm c2 → calm (If b c1 c2).
Proof. intros H1 H2. apply ok_if; by apply calm_when. Qed.
Lemma calm_while b c : calm c → calm (While b c).
Proof.
  intros Hc. apply (ok_conseq _ always _ (when always b false)); [done|by apply stable_when|done| |done].
  by apply ok_while, calm_when.
Qed.
Lemma calm_assign x e : calm (assign x e).
Proof. apply ok_do. intros o l o' l' Hi _. destruct (e o l); [|done]. intros [= <- <-]. split_and!; [done|apply grows_refl|done]. Qed.
Lemma calm_rand f : calm (Rand f). Proof. by apply ok_rand. Qed.
Lemma calm_skip : calm Skip. Proof. constructor. Qed.
Lemma calm_call x : calm (Call x). Proof. constructor. Qed.
Lemma calm_broadcast cv k : calm (Broadcast cv k). Proof. constructor. Qed.
Lemma calm_yield : calm YieldNow. Proof. constructor. Qed.
Lemma calm_finish : calm Finish. Proof. constructor. Qed.
Lemma calm_store v n e : harmless v → calm (store v n e). Proof. intros. by apply ok_store. Qed.
Lemma calm_change v n d : harmless v → calm (change v n d). Proof. intros. by apply ok_change. Qed.
Lemma calm_global g e : calm (put_global g e). Proof. by apply ok_global. Qed.
Lemma calm_at_work k n st : st ≠ ONBREAK → calm (store (clerkState k) n (lift1 (λ _, st))). Proof. apply ok_at_work. Qed.
Lemma calm_go_on_break k : calm (go_on_break CLERKCOUNT k). Proof. apply ok_go_on_break. Qed.
Lemma calm_certify : calm certify. Proof. apply ok_certify. Qed.
End invariant.

Create HintDb calm.
#[export] Hint Resolve calm_assign calm_rand calm_skip calm_call calm_broadcast calm_yield calm_finish
  calm_global calm_go_on_break calm_certify : calm.
#[export] Hint Extern 1 (calm _ (store _ _ _)) => (first [apply calm_store; exact I|apply calm_at_work; vm_compute; discriminate]) : calm.
#[export] Hint Extern 1 (calm _ (change _ _ _)) => (apply calm_change; exact I) : calm.
Ltac calm_step :=
  match goal with
  | |- calm _ (Seq _ _) => apply calm_seq
  | |- calm _ (If _ _ _) => apply calm_if
  | |- calm _ (While _ _) => apply calm_while
  | |- calm _ _ => solve [auto with calm]
  end.
Ltac calm := repeat calm_step.

(** ** The threads keep the invariant *)

Section functions.
Context (CLERKCOUNT CUSTOMERCOUNT SENATORCOUNT : Z).
Local Notation calm := (calm CLERKCOUNT).

Lemma calm_yields a b : calm (yields a b). Proof. unfold yields, set. calm. Qed.
#[local] Hint Resolve calm_yields : calm.
Lemma calm_check_senator : calm customerCheckSenator.
Proof. unfold customerCheckSenator, customerSenatorPresentWaitOutside, Acquire, Release, count. calm. Qed.
#[local] Hint Resolve calm_check_senator : calm.
Lemma calm_wait_in_line k lines cv : lines = lineCount k ∨ lines = bribeLineCount k → calm (wait_in_line k lines cv).
Proof. intros [->| ->]; unfold wait_in_line, Release, set; calm. Qed.
Lemma calm_get_in_line k : calm (get_in_line CLERKCOUNT k).
Proof. unfold get_in_line, Acquire, Release, set. calm; apply calm_wait_in_line; [by left|by right]. Qed.
#[local] Hint Resolve calm_get_in_line : calm.
Lemma calm_give_SSN k : calm (give_SSN k).
Proof. unfold give_SSN, acquire_clerk, signal_clerk, wait_clerk. calm. Qed.
#[local] Hint Resolve calm_give_SSN : calm.
Lemma calm_visit last : calm last → calm (visit CLERKCOUNT last).
Proof.
  intros Hl. unfold visit, customerApplicationClerkInteraction, customerPictureClerkInteraction, customerPassportClerkInteraction,
    customerCashierInteraction, release_clerk, signal_clerk, wait_clerk, picture_missing, set. calm.
Qed.
Lemma calm_Customer id : calm (Customer CLERKCOUNT id).
Proof.
  unfold Customer, arrive, customerCheckIn, Acquire, Release, count, set. calm. apply calm_visit.
  unfold customerCheckOut, Acquire, Release, count. calm.
Qed.
Lemma calm_Senator id : calm (Senator CLERKCOUNT id).
Proof.
  unfold Senator, arrive, senatorArriveAtPassportOffice, senatorLeavePassportOffice, Acquire, Release, count, set. calm.
  apply calm_visit. calm.
Qed.
Lemma calm_clerk k serve id : calm serve → calm (clerk CLERKCOUNT CUSTOMERCOUNT SENATORCOUNT k serve id).
Proof.
  intros Hs. unfold clerk, clerkCheckForSenator, next_customer, checkAndGoOnBreak, take_number, acquire_clerk, wait_clerk, Acquire, Release, set.
  calm.
Qed.
Lemma calm_serve_application : calm serve_application.
Proof. unfold serve_application, signal_clerk, release_clerk. calm. apply ok_file. by left. Qed.
Lemma calm_serve_picture : calm serve_picture.
Proof. unfold serve_picture, signal_clerk, wait_clerk, release_clerk, picture_missing. calm. apply ok_file. by right. Qed.
Lemma calm_serve_passport : calm serve_passport.
Proof. unfold serve_passport, signal_clerk, release_clerk. calm. Qed.
Lemma calm_serve_cashier : calm serve_cashier.
Proof.
  unfold serve_cashier. apply (ok_seq _ _ has_certificate); [apply stable_certificate|apply ok_look|].
  apply (ok_seq _ _ always); [done| |unfold release_clerk; apply calm_call]. apply ok_if.
  - apply calm_when. calm.
  - assert (stable (when has_certificate (off certified) false)) as Hs by (apply stable_when, stable_certificate).
    apply (ok_seq _ _ (when has_certificate (off certified) false)); [done|by apply ok_store|].
    apply (ok_seq _ _ (when has_certificate (off certified) false)); [done|constructor|].
    apply (ok_seq _ _ (when has_certificate (off certified) false)); [done|constructor|].
    apply (ok_seq _ _ always); [done|apply ok_hand_over|constructor].
Qed.
Lemma calm_Manager : calm (Manager CLERKCOUNT CUSTOMERCOUNT SENATORCOUNT).
Proof.
  unfold Manager, managerSenatorCheck, managerBroadcastCustomerLines, managerBroacastLine, managerCheckandWakupClerks,
    managerCheckandWakeupCLERK, checkEndOfDay, Acquire, Release, set. calm.
Qed.

Lemma calm_threads c : c ∈ all_threads CLERKCOUNT CUSTOMERCOUNT SENATORCOUNT → calm c.
Proof.
  unfold all_threads. rewrite elem_of_cons, !elem_of_app, !list_elem_of_fmap, list_elem_of_bind, list_elem_of_singleton.
  intros [->|[(j & -> & _)|[(j & -> & _)|[(j & Hj & _)| ->]]]].
  - unfold until_the_end. calm.
  - apply calm_Customer.
  - apply calm_Senator.
  - unfold ApplicationClerk, PictureClerk, PassportClerk, Cashier in Hj.
    repeat (apply elem_of_cons in Hj as [->|Hj]; [apply calm_clerk; first [apply calm_serve_application|apply calm_serve_picture|
      apply calm_serve_passport|apply calm_serve_cashier]|]). by apply elem_of_nil in Hj.
  - apply calm_Manager.
Qed.
End functions.

(** ** Reachable offices *)

Lemma first_unmarked clerks customers senators v n : (∀ k, v ≠ clerkState k) → ¬ marked v (first_office clerks customers senators) n.
Proof.
  intros Hv (z & Hz & Hne). apply Hne.
  destruct v as [k|k|k|k| | | | | | | ]; [by destruct (Hv k)| | |destruct k| | | | | | | ]; by apply lookup_replicate in Hz as [-> _].
Qed.

Lemma first_office_inv clerks customers senators : 0 < clerks → office_inv clerks (first_office clerks customers senators).
Proof.
  intros Hc. constructor.
  - intros n Hm. by apply first_unmarked in Hm.
  - intros n Hm. by apply first_unmarked in Hm.
  - intros k. cbn. rewrite length_replicate. split; [lia|]. exists 0%nat, BUSY. split; [|done]. apply lookup_replicate. split; [done|lia].
  - intros k []; cbn; rewrite length_replicate; lia.
Qed.

Lemma start_ok clerks customers senators : 0 < clerks → world_ok clerks (start clerks customers senators).
Proof.
  intros Hc. split; [by apply first_office_inv|]. intros t. exists always. split_and!; [done|done|]. cbn.
  destruct (all_threads clerks customers senators !! t) as [c|] eqn:Ht; [|constructor].
  apply (chain_cons _ _ _ _ always); [done| |constructor]. eapply calm_threads, list_elem_of_lookup_2, Ht.
Qed.

Lemma reachable_inv clerks customers senators W : 0 < clerks → steps (start clerks customers senators) W → office_inv clerks (office W).
Proof. intros Hc Hs. exact (proj1 (steps_ok _ _ _ (start_ok _ _ _ Hc) Hs)). Qed.

(** ** Choosing a line *)

(** A clerk that is at work, and how long its line is. *)
Definition open_line (counts states : list Z) (j c : Z) : Prop :=
  ∃ st, vget counts j = Done c ∧ vget states j = Done st ∧ st ≠ ONBREAK.

(** The first of the shortest lines from clerk [j] on that are below [size]. *)
Definition shortest_from (counts states : list Z) (j size m : Z) : Prop :=
  ∃ c, j <= m ∧ c < size ∧ open_line counts states m c ∧
  ∀ j' c', j <= j' → open_line counts states j' c' → c <= c' ∧ (j' < m → c < c').
Definition none_below (counts states : list Z) (j size : Z) : Prop :=
  ∀ j' c, j <= j' → open_line counts states j' c → size <= c.

Lemma open_line_fun counts states j c c' : open_line counts states j c → open_line counts states j c' → c = c'.
Proof. intros (? & H1 & _) (? & H2 & _). congruence. Qed.

(** Clerk [j] is no better than what is known. *)
Lemma skip_line counts states j size m best : (∀ c, open_line counts states j c → size <= c) →
  (m = best ∧ none_below counts states (j + 1) size) ∨ shortest_from counts states (j + 1) size m →
  (m = best ∧ none_below counts states j size) ∨ shortest_from counts states j size m.
Proof.
  intros Hj [[-> Hn]|(c & Hm & Hc & Ho & Hall)]; [left|right].
  - split; [done|]. intros j' c Hj' Ho. destruct (decide (j' = j)) as [->|Hne]; [by apply Hj|apply (Hn j'); [lia|done]].
  - exists c. split_and!; [lia|done|done|]. intros j' c' Hj' Ho'. destruct (decide (j' = j)) as [->|Hne].
    + pose proof (Hj _ Ho'). lia.
    + apply Hall; [lia|done].
Qed.

(** Clerk [j] has the shortest line so far. *)
Lemma take_line counts states j c size m : open_line counts states j c → c < size →
  (m = j ∧ none_below counts states (j + 1) c) ∨ shortest_from counts states (j + 1) c m → shortest_from counts states j size m.
Proof.
  intros Hj Hlt [[-> Hn]|(c2 & Hm & Hc & Ho & Hall)].
  - exists c. split_and!; [lia|done|done|]. intros j' c' Hj' Ho'. destruct (decide (j' = j)) as [->|Hne].
    + pose proof (open_line_fun _ _ _ _ _ Hj Ho'). lia.
    + assert (c <= c') by (apply (Hn j'); [lia|done]). lia.
  - exists c2. split_and!; [lia|lia|done|]. intros j' c' Hj' Ho'. destruct (decide (j' = j)) as [->|Hne].
    + pose proof (open_line_fun _ _ _ _ _ Hj Ho'). lia.
    + apply Hall; [lia|done].
Qed.

Lemma pick_loop_spec counts states : length counts = length states → ∀ n j best size, 0 <= j → j + Z.of_nat n = Z.of_nat (length counts) →
  ∃ m, pick_loop counts states j n best size = Done m ∧
  ((m = best ∧ none_below counts states j size) ∨ shortest_from counts states j size m).
Proof.
  intros Hlen. induction n as [|n IH]; intros j best size Hj Hn; cbn [pick_loop].
  - exists best. split; [done|]. left. split; [done|]. intros j' c Hj' (st & Hc & _). apply vget_Some in Hc as [_ Hc].
    apply lookup_lt_Some in Hc. lia.
  - destruct (vget_in counts j) as (c & Hc & _); [lia|]. rewrite Hc. cbn [obind].
    destruct (vget_in states j) as (st & Hst & _); [lia|]. rewrite Hst.
    destruct (Z.ltb_spec c size) as [Hlt|Hge]; cbn [obind]; [destruct (Z.eqb_spec st ONBREAK) as [->|Hne]|].
    + destruct (IH (j + 1) best size) as (m & -> & Hm); [lia|lia|]. exists m. split; [done|]. apply skip_line; [|done].
      intros c' (st & _ & Hs & Hb). congruence.
    + destruct (IH (j + 1) j c) as (m & -> & Hm); [lia|lia|]. exists m. split; [done|]. right.
      apply (take_line _ _ j c); [by exists st|lia|exact Hm].
    + destruct (IH (j + 1) best size) as (m & -> & Hm); [lia|lia|]. exists m. split; [done|]. apply skip_line; [|done].
      intros c' (st' & Hc' & _). assert (c' = c) as -> by congruence. lia.
Qed.

(** ** Runs *)

(** The running thread goes on, with [r] as the next value of [rand()], or the
    idle processor takes a ready thread. *)
Definition go_on (r : Z) (W : World) : outcome World :=
  match current (kern W) with
  | Some t => match exec t r W with Done (_, W') => Done W' | Fault f => Fault f end
  | None => match dispatch (kern W) with Done (_, K) => Done (mkWorld K (office W) (stacks W) (locals W)) | Fault f => Fault f end
  end.
Fixpoint run (n : nat) (r : Z) (W : World) : outcome World :=
  match n with O => Done W | S n' => let? W' := go_on r W in run n' r W' end.

Lemma go_on_step r W W' : 0 <= r → go_on r W = Done W' → step W W'.
Proof.
  intros Hr. unfold go_on. destruct (current (kern W)) as [t|] eqn:Hc.
  - destruct (exec t r W) as [[[] W1]|] eqn:He; [|done]. intros [= <-]. by apply (step_exec _ t r).
  - destruct (dispatch (kern W)) as [[st K]|] eqn:Hd; [|done]. intros [= <-]. by apply (step_dispatch _ st).
Qed.
Lemma run_steps n r W0 : 0 <= r → ∀ W W', run n r W = Done W' → steps W0 W → steps W0 W'.
Proof.
  intros Hr. induction n as [|n IH]; cbn; intros W W' Hrun Hs; [by injection Hrun as <-|].
  destruct (go_on r W) as [W1|] eqn:Hg; [|done]. apply (IH W1); [exact Hrun|]. apply (steps_cons _ W); [done|by eapply go_on_step].
Qed.

(** ** Properties *)

(** C20: with at least one clerk of each kind, whatever the
    numbers of customers and senators, the random numbers and the points where
    threads are preempted, a person whose number is marked as done has a
    certified passport, and a certified passport means that both the application
    and the picture of that person were filed: no order of the visits gives a
    passport without the two documents. *)
Theorem documents_in_order clerks customers senators W n : 0 < clerks → steps (start clerks customers senators) W →
  (marked doneCompletely (office W) n → marked passportCompletion (office W) n) ∧
  (marked passportCompletion (office W) n → marked applicationCompletion (office W) n ∧ marked pictureCompletion (office W) n).
Proof. intros Hc Hs. pose proof (reachable_inv _ _ _ _ Hc Hs) as Hi. split; [apply (oi_done _ _ Hi)|apply (oi_passport _ _ Hi)]. Qed.

(** One customer, one senator, one clerk of each kind: both leave with a passport,
    the manager ends the day and all threads stop. *)
Definition day_of_two (W : World) : Prop :=
  vec (office W) doneCompletely = [1; 1] ∧ glob (office W) checkedOutCount = 2 ∧ current (kern W) = None ∧ readyList (kern W) = [].
Lemma day_of_two_run : match run 20400 1 (start 1 1 1) with Done W => day_of_two W | Fault _ => False end.
Proof. vm_compute. repeat split. Qed.

Lemma documents_in_order_witness : ∃ W, steps (start 1 1 1) W ∧ day_of_two W ∧
  marked applicationCompletion (office W) 0 ∧ marked pictureCompletion (office W) 0.
Proof.
  destruct (run 20400 1 (start 1 1 1)) as [W|] eqn:Hr; pose proof day_of_two_run as Hd; rewrite Hr in Hd; [|destruct Hd].
  assert (steps (start 1 1 1) W) as Hs by (apply (run_steps 20400 1 _ ltac:(lia) _ _ Hr); constructor).
  destruct (documents_in_order 1 1 1 W 0 ltac:(lia) Hs) as [H1 H2]. exists W. split; [exact Hs|]. split; [exact Hd|].
  apply H2, H1. exists 1. destruct Hd as [-> _]. by split.
Defined.

(** C21: the line that a customer chooses.  In every office that
    the threads reach, if no line is 1000 long, [pickShortestLine] returns the
    number of a clerk that is not on break, never -1, with the shortest line of
    these clerks and the first of them with that length: not all clerks of a kind
    are ever on break together. *)
Theorem pick_finds_clerk clerks customers senators W k b : 0 < clerks → steps (start clerks customers senators) W →
  Forall (λ c, c < 1000) (vec (office W) (line_of k b)) →
  ∃ m, pickShortestLine clerks (vec (office W) (line_of k b)) (vec (office W) (clerkState k)) = Done m ∧
    shortest_from (vec (office W) (line_of k b)) (vec (office W) (clerkState k)) 0 1000 m.
Proof.
  intros Hc Hs Hshort. pose proof (reachable_inv _ _ _ _ Hc Hs) as Hi. pose proof (oi_lines _ _ Hi k b) as Hl.
  destruct (oi_clerks _ _ Hi k) as [Hst (j & st & Hj & Hne)].
  destruct (pick_loop_spec (vec (office W) (line_of k b)) (vec (office W) (clerkState k))) with
    (n := Z.to_nat clerks) (j := 0) (best := -1) (size := 1000) as (m & Hm & Hspec); [lia..|].
  exists m. split; [exact Hm|]. destruct Hspec as [[_ Hnone]|?]; [exfalso|done].
  apply lookup_lt_Some in Hj as Hlt. destruct (lookup_lt_is_Some_2 (vec (office W) (line_of k b)) j) as [c Hcj]; [lia|].
  rewrite Forall_lookup in Hshort. pose proof (Hshort _ _ Hcj). assert (1000 <= c); [|lia]. apply (Hnone (Z.of_nat j)); [lia|].
  exists st. split_and!; [by apply vget_Done|by apply vget_Done|done].
Qed.

Lemma pick_finds_clerk_witness : ∃ m, pickShortestLine 2 [0; 0] [BUSY; BUSY] = Done m ∧ shortest_from [0; 0] [BUSY; BUSY] 0 1000 m.
Proof. apply (pick_finds_clerk 2 3 1 (start 2 3 1) Picture true); [lia|constructor|repeat constructor]. Defined.

Definition at_third_cashier (W : World) : Prop :=
  current (kern W) = Some 2%nat ∧ exec 2%nat 1 W = Fault OutOfRange ∧
  locals W 2%nat passportClerkDone = 1 ∧ locals W 2%nat myLine = 2 ∧ length (vec (office W) (sharedDataSSN Cash)) = 2%nat ∧
  length (vec (office W) (clerkState Cash)) = 3%nat.
Lemma third_cashier_run : match run 10406 1 (start 3 1 1) with Done W => at_third_cashier W | Fault _ => False end.
Proof. vm_compute. repeat split. Qed.

(** C40: [cashierSharedDataSSN] has an entry for each person
    and is indexed by the cashier.  With three clerks of each kind, one customer and
    one senator a run reaches a world where the senator, certified and standing
    at the third cashier, runs and its next command is an access past the end of
    a vector. *)
Theorem few_people_overrun : ∃ W, steps (start 3 1 1) W ∧ at_third_cashier W.
Proof.
  destruct (run 10406 1 (start 3 1 1)) as [W|] eqn:Hr; pose proof third_cashier_run as Hd; rewrite Hr in Hd; [|destruct Hd].
  exists W. split; [|exact Hd]. apply (run_steps 10406 1 _ ltac:(lia) _ _ Hr). constructor.
Qed.
