(* ===== verification/HostFile.v ===== *)
(** * HostFile: files of the host (the stub of filesys/openfile.h, machine/sysdep.cc)

    A file is its bytes.  [ReadAt] and [WriteAt] are an [Lseek] followed by one
    read or write, as the stub file system, the swap file and the simulated
    disk use them. *)
From S2P Require Import Prelude Translate.
From stdpp Require Import base list.
From Stdlib Require Import ZArith Lia ZifyBool.

Local Open Scope Z_scope.

(** [ReadAt]: what the file has of the [numBytes] bytes at [position]. *)
Definition ReadAt (file : list Z) (numBytes position : Z) : outcome (list Z) :=
  let? _ := assert (0 <=? position) in
  Done (take (Z.to_nat numBytes) (drop (Z.to_nat position) file)).

(** [WriteAt]: a gap beyond the end of the file is filled with zeros. *)
Definition WriteAt (file from : list Z) (position : Z) : outcome (list Z) :=
  let? _ := assert (0 <=? position) in
  let p := Z.to_nat position in
  Done (take p (file ++ replicate p 0) ++ from ++ drop (p + length from) file).

(** ** What they do to the bytes *)

Lemma host_write_spec file bs pos : 0 <= pos → ∃ f, WriteAt file bs pos = Done f ∧
  (length file <= length f)%nat ∧ (Z.to_nat pos + length bs <= length f)%nat ∧
  (∀ m, (m < length bs)%nat → f !! (Z.to_nat pos + m)%nat = bs !! m) ∧
  (∀ i, (i < length file)%nat → (i < Z.to_nat pos ∨ Z.to_nat pos + length bs <= i)%nat → f !! i = file !! i) ∧
  (Forall byte file → Forall byte bs → Forall byte f).
Proof.
  intros Hp. unfold WriteAt. rewrite (proj2 (Z.leb_le 0 pos)) by done. cbn. set (p := Z.to_nat pos).
  eexists. split; [reflexivity|].
  assert (length (take p (file ++ replicate p 0)) = p) as Hl.
  { rewrite length_take, length_app, length_replicate. lia. }
  split_and!.
  - rewrite !length_app, Hl, length_drop. lia.
  - rewrite !length_app, Hl. lia.
  - intros m Hm. rewrite lookup_app_r, Hl, lookup_app_l by lia. f_equal. lia.
  - intros i Hi [Hlt|Hge].
    + by rewrite lookup_app_l, lookup_take_lt, lookup_app_l by lia.
    + rewrite lookup_app_r, Hl, lookup_app_r, lookup_drop by lia. f_equal. lia.
  - intros Hf Hb. apply Forall_app. split; [|apply Forall_app; split; [done|by apply Forall_drop]].
    apply Forall_take, Forall_app. split; [done|]. by apply Forall_replicate.
Qed.

Lemma host_read_spec file n pos : 0 <= pos → ∃ bs, ReadAt file n pos = Done bs ∧
  (length bs <= Z.to_nat n)%nat ∧ (Forall byte file → Forall byte bs) ∧
  bs = take (Z.to_nat n) (drop (Z.to_nat pos) file).
Proof.
  intros Hp. unfold ReadAt. rewrite (proj2 (Z.leb_le 0 pos)) by done. eexists. split; [reflexivity|].
  split_and!; [rewrite length_take; lia| |done]. intros Hf. by apply Forall_take, Forall_drop.
Qed.

(** Within the file, a write replaces bytes in place. *)
Lemma WriteAt_within file bs pos : 0 <= pos → pos + Z.of_nat (length bs) <= Z.of_nat (length file) →
  ∃ f, WriteAt file bs pos = Done f ∧ written file pos bs f.
Proof.
  intros Hp Hl. unfold WriteAt. rewrite (proj2 (Z.leb_le 0 pos)) by done. cbn.
  rewrite take_app_le by lia. eexists. split; [done|]. apply mem_write_written. by apply mem_write_in.
Qed.

Lemma length_WriteAt file bs pos f : 0 <= pos → WriteAt file bs pos = Done f →
  length f = (length file `max` (Z.to_nat pos + length bs))%nat.
Proof.
  intros Hp. unfold WriteAt. rewrite (proj2 (Z.leb_le 0 pos)) by done. intros [= <-].
  rewrite !length_app, length_take, length_app, length_replicate, length_drop. lia.
Qed.

(** What was written is read back. *)
Lemma host_write_read file bs pos f : WriteAt file bs pos = Done f →
  ReadAt f (Z.of_nat (length bs)) pos = Done bs.
Proof.
  intros HW. destruct (Z.leb_spec 0 pos) as [Hp|]; [|unfold WriteAt, assert in HW; by destruct (Z.leb_spec 0 pos); [lia|]].
  destruct (host_write_spec file bs pos Hp) as (f' & HW' & _ & Hlen & Hin & _). assert (f' = f) as -> by congruence.
  unfold ReadAt. rewrite (proj2 (Z.leb_le 0 pos)) by done. cbn [assert obind]. f_equal. rewrite Nat2Z.id.
  apply list_eq. intros i. destruct (decide (i < length bs)%nat) as [Hi|Hi].
  - rewrite lookup_take_lt, lookup_drop by done. by apply Hin.
  - rewrite lookup_take_ge by lia. symmetry. apply lookup_ge_None_2. lia.
Qed.
