(* ===== verification/Paging.v ===== *)
(** * Paging: demand paged virtual memory of userprog/exception.cc

    A TLB miss is served from the inverted page table, one entry per frame of
    main memory; a page that is in no frame is brought in from the executable
    or from the swap file, after another page is evicted if memory is full.
    [pageTable] of an address space says where each of its pages is. *)
From S2P Require Import Prelude BitMap Translate HostFile.
From stdpp Require Import functions base list.
From Stdlib Require Import ZArith Lia ZifyBool.

Local Open Scope Z_scope.

(** ** Data *)

Definition NumSwapPages : Z := 512.

Inductive PAGELOCATION := VOID | EXEC | MAIN | SWAP.
#[export] Instance PAGELOCATION_eq_dec : EqDecision PAGELOCATION.
Proof. solve_decision. Defined.

(** The subclasses of [TranslationEntry]. *)
Record PageTableEntry := mkPTE { pte : TranslationEntry; location : PAGELOCATION; byteOffset : Z }.
Record IPTEntry := mkIPTE { ipte : TranslationEntry; PID : nat }.

(** An [AddrSpace *] is a number; [executable] is the text of its open file. *)
Record AddrSpace := mkSpace { spaceTable : list PageTableEntry; executable : list Z }.

Record VM := mkVM {
  machine : Machine;
  IPT : list IPTEntry;
  pageTableBitMap : BitMap;
  swapBitMap : BitMap;
  swapFile : list Z;
  FIFOList : list Z;
  currentTLB : Z;
  spaces : nat → AddrSpace;
  currentSpace : nat            (* [currentThread->space] *)
}.

Definition with_machine (x : Machine) (s : VM) : VM :=
  mkVM x (IPT s) (pageTableBitMap s) (swapBitMap s) (swapFile s) (FIFOList s) (currentTLB s) (spaces s) (currentSpace s).
Definition with_IPT (x : list IPTEntry) (s : VM) : VM :=
  mkVM (machine s) x (pageTableBitMap s) (swapBitMap s) (swapFile s) (FIFOList s) (currentTLB s) (spaces s) (currentSpace s).
Definition with_frames (x : BitMap) (s : VM) : VM :=
  mkVM (machine s) (IPT s) x (swapBitMap s) (swapFile s) (FIFOList s) (currentTLB s) (spaces s) (currentSpace s).
Definition with_swap (x : BitMap) (y : list Z) (s : VM) : VM :=
  mkVM (machine s) (IPT s) (pageTableBitMap s) x y (FIFOList s) (currentTLB s) (spaces s) (currentSpace s).
Definition with_FIFO (x : list Z) (s : VM) : VM :=
  mkVM (machine s) (IPT s) (pageTableBitMap s) (swapBitMap s) (swapFile s) x (currentTLB s) (spaces s) (currentSpace s).
Definition with_currentTLB (x : Z) (s : VM) : VM :=
  mkVM (machine s) (IPT s) (pageTableBitMap s) (swapBitMap s) (swapFile s) (FIFOList s) x (spaces s) (currentSpace s).
Definition with_space (a : nat) (x : AddrSpace) (s : VM) : VM :=
  mkVM (machine s) (IPT s) (pageTableBitMap s) (swapBitMap s) (swapFile s) (FIFOList s) (currentTLB s)
    (<[a := x]> (spaces s)) (currentSpace s).

(** Assignments to one field of an entry. *)
Definition set_valid (b : bool) (e : TranslationEntry) : TranslationEntry :=
  mkEntry (virtualPage e) (physicalPage e) b (readOnly e) (use e) (dirty e).
Definition set_dirty (b : bool) (e : TranslationEntry) : TranslationEntry :=
  mkEntry (virtualPage e) (physicalPage e) (valid e) (readOnly e) (use e) b.
Definition set_physicalPage (p : Z) (e : TranslationEntry) : TranslationEntry :=
  mkEntry (virtualPage e) p (valid e) (readOnly e) (use e) (dirty e).

(** [IPT[ppn]], [machine->tlb[i]] and [space->pageTable[vpn]]. *)
Definition get_IPT (ppn : Z) : M VM IPTEntry :=
  let! s := get in lift (vget (IPT s) ppn).
Definition set_IPT (ppn : Z) (x : IPTEntry) : M VM unit :=
  let! s := get in let! l := lift (vset (IPT s) ppn x) in put (with_IPT l s).
Definition get_tlb (i : Z) : M VM TranslationEntry :=
  let! s := get in
  match tlb (machine s) with Some t => lift (vget t i) | None => fail NullDeref end.
Definition set_tlb (i : Z) (e : TranslationEntry) : M VM unit :=
  let! s := get in
  match tlb (machine s) with
  | Some t => let! t' := lift (vset t i e) in put (with_machine (with_tlb t' (machine s)) s)
  | None => fail NullDeref
  end.
Definition get_page (a : nat) (vpn : Z) : M VM PageTableEntry :=
  let! s := get in lift (vget (spaceTable (spaces s a)) vpn).
Definition set_page (a : nat) (vpn : Z) (x : PageTableEntry) : M VM unit :=
  let! s := get in
  let! l := lift (vset (spaceTable (spaces s a)) vpn x) in
  put (with_space a (mkSpace l (executable (spaces s a))) s).

(** ** Frames *)

(** Into main memory at [&mainMemory[PageSize * ppn]], and from it. *)
Definition load_frame (ppn : Z) (bs : list Z) : M VM unit :=
  let! s := get in
  let! mem := lift (mem_write (mainMemory (machine s)) (PageSize * ppn) bs) in
  put (with_machine (with_memory mem (machine s)) s).
Definition frame_bytes (ppn : Z) : M VM (list Z) :=
  let! s := get in lift (mem_read (mainMemory (machine s)) (PageSize * ppn) (Z.to_nat PageSize)).

(** ** TLB and inverted page table *)

Definition propogateCurTLBDirty (tlbIndex : Z) : M VM unit :=
  let! curTLB := get_tlb tlbIndex in
  if valid curTLB && dirty curTLB then
    let! i := get_IPT (physicalPage curTLB) in
    set_IPT (physicalPage curTLB) (mkIPTE (set_dirty true (ipte i)) (PID i))
  else ret ().

Definition populateTLBFromIPTEntry (ppn : Z) : M VM unit :=
  let! s := get in
  propogateCurTLBDirty (currentTLB s) ;;;
  let! i := get_IPT ppn in
  set_tlb (currentTLB s) (ipte i) ;;;
  modify (with_currentTLB (Z.rem (currentTLB s + 1) TLBSize)).

(** [AddrSpace::SaveState]: the TLB is emptied on a context switch. *)
Fixpoint SaveState_loop (i : Z) (n : nat) : M VM unit :=
  match n with
  | O => ret ()
  | S n' =>
      propogateCurTLBDirty i ;;;
      let! e := get_tlb i in
      set_tlb i (set_valid false e) ;;;
      SaveState_loop (i + 1) n'
  end.
Definition SaveState : M VM unit := SaveState_loop 0 (Z.to_nat TLBSize).

(** ** Swap *)

Definition writePageToSwap (ppn : Z) : M VM Z :=
  let! i := get_IPT ppn in
  if valid (ipte i) && dirty (ipte i) then
    let! s := get in
    let! r := lift (Find (swapBitMap s)) in
    let swapIndex := r.1 in
    if swapIndex =? -1 then fail Halted
    else
      let byteOffset := swapIndex * PageSize in
      let! bs := frame_bytes ppn in
      let! f := lift (WriteAt (swapFile s) bs byteOffset) in
      put (with_swap r.2 f s) ;;;
      ret byteOffset
  else ret (-1).

Definition readPageFromSwapToPPN (byteOffset ppn : Z) : M VM unit :=
  let swapIndex := Z.quot byteOffset PageSize in
  let! s := get in
  let! b := lift (Clear (swapBitMap s) swapIndex) in
  put (with_swap b (swapFile s) s) ;;;
  let! bs := lift (ReadAt (swapFile s) PageSize byteOffset) in
  load_frame ppn bs.

(** ** Eviction *)

Definition removePageFromFIFOQ (ppn : Z) : M VM unit :=
  let! s := get in
  let i := find_index (λ x, x =? ppn) (FIFOList s) in
  if i =? -1 then ret () else let! l := lift (verase (FIFOList s) i) in put (with_FIFO l s).

(** The loop over the TLB in [handleMemoryFull], with its [break]. *)
Definition unmap_frame (ppn : Z) : M VM unit :=
  let! s := get in
  match tlb (machine s) with
  | None => fail NullDeref
  | Some t =>
      let i := find_index (λ e, valid e && (physicalPage e =? ppn)) (take (Z.to_nat TLBSize) t) in
      if i =? -1 then ret ()
      else
        let! e := get_tlb i in
        (if dirty e then
           let! f := get_IPT ppn in set_IPT ppn (mkIPTE (set_dirty true (ipte f)) (PID f))
         else ret ()) ;;;
        set_tlb i (set_valid false e)
  end.

(** Where the page goes: to the swap file when it is dirty. *)
Definition page_out (ppn : Z) : M VM unit :=
  let! i := get_IPT ppn in
  let space := PID i in
  let vpn := virtualPage (ipte i) in
  let! e := get_page space vpn in
  if dirty (ipte i) && valid (ipte i) then
    set_page space vpn (mkPTE (pte e) SWAP (byteOffset e)) ;;;
    let! off := writePageToSwap ppn in
    set_page space vpn (mkPTE (set_dirty (dirty (ipte i)) (pte e)) SWAP off)
  else set_page space vpn (mkPTE (pte e) EXEC (byteOffset e)).

Section policy.
(** The option -P, and the value of [rand()] when it is called. *)
Context (USEFIFO : bool) (rand : Z).

Definition handleMemoryFull : M VM Z :=
  let! s := get in
  let! ppn := (if USEFIFO then lift (vget (FIFOList s) 0) else ret (Z.rem rand NumPhysPages)) in
  ASSERT ((0 <=? ppn) && (ppn <? NumPhysPages)) ;;;
  let! i := get_IPT ppn in
  ASSERT (valid (ipte i)) ;;;
  unmap_frame ppn ;;;
  page_out ppn ;;;
  let! i := get_IPT ppn in
  set_IPT ppn (mkIPTE (set_valid false (ipte i)) (PID i)) ;;;
  removePageFromFIFOQ ppn ;;;
  ret ppn.

(** Bring page [vpn] of the current space into the free frame [ppn]. *)
Definition page_in (vpn ppn : Z) : M VM unit :=
  let! s := get in
  let space := currentSpace s in
  let! e := get_page space vpn in
  match location e with
  | EXEC =>
      let! bs := lift (ReadAt (executable (spaces s space)) PageSize (byteOffset e)) in
      load_frame ppn bs
  | SWAP => readPageFromSwapToPPN (byteOffset e) ppn
  | VOID | MAIN => ret ()
  end ;;;
  let e' := mkPTE (set_valid true (set_physicalPage ppn (pte e))) MAIN (byteOffset e) in
  set_page space vpn e' ;;;
  set_IPT ppn (mkIPTE (pte e') space) ;;;
  let! s := get in
  put (with_FIFO (FIFOList s ++ [ppn]) s).

Definition handleIPTmiss (vpn : Z) : M VM Z :=
  let! s := get in
  let! r := lift (Find (pageTableBitMap s)) in
  put (with_frames r.2 s) ;;;
  let! ppn := (if r.1 =? -1 then handleMemoryFull else ret r.1) in
  page_in vpn ppn ;;;
  ret ppn.

Definition ipt_match (space : nat) (vpn : Z) (i : IPTEntry) : bool :=
  valid (ipte i) && bool_decide (PID i = space) && (virtualPage (ipte i) =? vpn).

Definition handleTLBMiss : M VM unit :=
  let! s := get in
  let! VA := lift (vget (registers (machine s)) BadVAddrReg) in
  let VP := u32 VA / PageSize in
  let ppn := find_index (ipt_match (currentSpace s) VP) (take (Z.to_nat NumPhysPages) (IPT s)) in
  let! ppn := (if ppn =? -1 then
                 let! ppn := handleIPTmiss VP in ASSERT (negb (ppn =? -1)) ;;; ret ppn
               else ret ppn) in
  populateTLBFromIPTEntry ppn.
End policy.

(** ** What a fault leaves alone *)

(** A predicate that does not look at what a fault writes; a page table is
    written, but keeps its length. *)
Section faults.
Context (P : VM → Prop) (fifo : bool) (r : Z).
Context (HI : ∀ x s, P s → P (with_IPT x s)) (HT : ∀ t s, P s → P (with_machine (with_tlb t (machine s)) s)).
Context (HM : ∀ m s, P s → P (with_machine (with_memory m (machine s)) s)) (HF : ∀ x s, P s → P (with_frames x s)).
Context (HS : ∀ x y s, P s → P (with_swap x y s)) (HQ : ∀ x s, P s → P (with_FIFO x s)).
Context (HC : ∀ x s, P s → P (with_currentTLB x s)).
Context (HP : ∀ a l s, length l = length (spaceTable (spaces s a)) → P s →
  P (with_space a (mkSpace l (executable (spaces s a))) s)).

Lemma get_IPT_stays p : stays P (get_IPT p). Proof using. unfold get_IPT. stays. Qed.
Lemma set_IPT_stays p x : stays P (set_IPT p x). Proof using HI. unfold set_IPT. stays. Qed.
Lemma get_tlb_stays j : stays P (get_tlb j). Proof using. unfold get_tlb. stays. Qed.
Lemma set_tlb_stays j e : stays P (set_tlb j e). Proof using HT. unfold set_tlb. stays. Qed.
Lemma get_page_stays a v : stays P (get_page a v). Proof using. unfold get_page. stays. Qed.
Lemma set_page_stays a v x : stays P (set_page a v x).
Proof using HP.
  unfold set_page. apply stays_get. intros s Hs. apply stays_read. intros l Hl. apply stays_put, HP; [|done].
  unfold vset in Hl. case_match; [|done]. injection Hl as <-. apply length_insert.
Qed.
Lemma frame_bytes_stays p : stays P (frame_bytes p). Proof using. unfold frame_bytes. stays. Qed.
Lemma load_frame_stays p bs : stays P (load_frame p bs). Proof using HM. unfold load_frame. stays. Qed.

#[local] Hint Resolve get_IPT_stays set_IPT_stays get_tlb_stays set_tlb_stays get_page_stays set_page_stays
  frame_bytes_stays load_frame_stays : stays.

Lemma propogate_stays i : stays P (propogateCurTLBDirty i).
Proof using HI. unfold propogateCurTLBDirty. stays. Qed.
Lemma swap_in_stays off p : stays P (readPageFromSwapToPPN off p).
Proof using HM HS. unfold readPageFromSwapToPPN. stays. Qed.
#[local] Hint Resolve propogate_stays swap_in_stays : stays.

Lemma SaveState_stays : stays P SaveState.
Proof using HI HT.
  unfold SaveState. generalize 0 as i, (Z.to_nat TLBSize) as n. intros i n. revert i.
  induction n as [|n IH]; intros i; cbn [SaveState_loop]; stays.
Qed.

Lemma handleTLBMiss_stays : stays P (handleTLBMiss fifo r).
Proof using All.
  unfold handleTLBMiss, handleIPTmiss, handleMemoryFull, page_in, page_out, unmap_frame, writePageToSwap,
    removePageFromFIFOQ, populateTLBFromIPTEntry. stays.
Qed.
End faults.

(** ** A new address space *)

Definition UserStackSize : Z := 1024.

(** The loop of the constructor: code and data are in the executable, the
    stack is nowhere. *)
Definition init_page (numNonStackPages inFileAddr i : Z) : PageTableEntry :=
  let e := mkEntry i (-1) false false false false in
  if i <? numNonStackPages then mkPTE e EXEC (s32 (u32 (inFileAddr + i * PageSize)))
  else mkPTE e VOID (-1).

(** [AddrSpace::AddrSpace], from the sizes in the header of the executable. *)
Definition new_AddrSpace (file : list Z) (code initData uninitData inFileAddr : Z) : AddrSpace :=
  let size := u32 (code + initData + uninitData) in
  let numNonStackPages := divRoundUp size PageSize in
  let numPages := u32 (numNonStackPages + divRoundUp UserStackSize PageSize) in
  mkSpace ((λ i, init_page numNonStackPages inFileAddr (Z.of_nat i)) <$> seq 0 (Z.to_nat numPages)) file.

(** ** Views of the state *)

(** The element at a C++ index, if it is one. *)
Definition at_ {A} (l : list A) (i : Z) : option A := if 0 <=? i then l !! Z.to_nat i else None.

(** The page a frame holds, by the inverted page table. *)
Definition own (s : VM) (p : Z) : option (nat * Z) :=
  match at_ (IPT s) p with
  | Some i => if valid (ipte i) then Some (PID i, virtualPage (ipte i)) else None
  | None => None
  end.
Definition page_of (s : VM) (a : nat) (v : Z) : option PageTableEntry := at_ (spaceTable (spaces s a)) v.
Definition tlb_at (s : VM) (j : Z) : option TranslationEntry :=
  match tlb (machine s) with Some t => at_ t j | None => None end.

Definition slice (l : list Z) (i : Z) : list Z := take (Z.to_nat PageSize) (drop (Z.to_nat i) l).
Definition frame_of (s : VM) (p : Z) : list Z := slice (mainMemory (machine s)) (PageSize * p).

(** [hole] is a frame taken from the bitmap that no page is in yet, or -1. *)
Record vm_inv (hole : Z) (s : VM) : Prop := {
  vi_machine : machine_wf (machine s);
  vi_has_tlb : is_Some (tlb (machine s));
  vi_length : length (IPT s) = Z.to_nat NumPhysPages;
  vi_tlb : ∀ j e, tlb_at s j = Some e → valid e = true →
    own s (physicalPage e) = Some (currentSpace s, virtualPage e);
  vi_tlb_once : ∀ j j' e e', tlb_at s j = Some e → tlb_at s j' = Some e' → valid e = true →
    valid e' = true → physicalPage e = physicalPage e' → j = j';
  vi_phys : ∀ p i, at_ (IPT s) p = Some i → valid (ipte i) = true → physicalPage (ipte i) = p;
  vi_frames : wf (pageTableBitMap s) ∧ numBits (pageTableBitMap s) = NumPhysPages;
  vi_used : ∀ p, 0 <= p < NumPhysPages →
    used (pageTableBitMap s) p = match own s p with Some _ => true | None => p =? hole end;
  vi_hole : own s hole = None ∧ hole < NumPhysPages;
  vi_fifo : NoDup (FIFOList s) ∧ ∀ p, p ∈ FIFOList s ↔ is_Some (own s p);
  vi_pages : ∀ p a v, own s p = Some (a, v) ↔
    ∃ e, page_of s a v = Some e ∧ location e = MAIN ∧ physicalPage (pte e) = p;
  vi_virtual : ∀ a v e, page_of s a v = Some e → virtualPage (pte e) = v ∧ v < 2 ^ 32 / PageSize;
  vi_swapmap : wf (swapBitMap s) ∧ numBits (swapBitMap s) = NumSwapPages;
  vi_swap : ∀ a v e, page_of s a v = Some e → location e = SWAP → dirty (pte e) = true ∧
    ∃ k, 0 <= k < NumSwapPages ∧ byteOffset e = k * PageSize ∧ used (swapBitMap s) k = true ∧
      k * PageSize + PageSize <= Z.of_nat (length (swapFile s));
  vi_swap_once : ∀ a v e a' v' e', page_of s a v = Some e → page_of s a' v' = Some e' →
    location e = SWAP → location e' = SWAP → byteOffset e = byteOffset e' → a = a' ∧ v = v';
  vi_current : 0 <= currentTLB s < TLBSize;
  vi_bytes : Forall byte (swapFile s) ∧ ∀ a, Forall byte (executable (spaces s a))
}.

Definition frame_dirty (s : VM) (p : Z) : Prop :=
  (∃ i, at_ (IPT s) p = Some i ∧ dirty (ipte i) = true) ∨
  (∃ j e, tlb_at s j = Some e ∧ valid e = true ∧ physicalPage e = p ∧ dirty e = true).

(** What page [v] of space [a] holds, wherever it is; a page in memory must be
    marked dirty or equal its copy in the executable. *)
Definition content (s : VM) (a : nat) (v : Z) (bs : list Z) : Prop :=
  length bs = Z.to_nat PageSize ∧ ∃ e, page_of s a v = Some e ∧
  match location e with
  | MAIN => frame_of s (physicalPage (pte e)) = bs ∧
      (frame_dirty s (physicalPage (pte e)) ∨ ReadAt (executable (spaces s a)) PageSize (byteOffset e) = Done bs)
  | SWAP => slice (swapFile s) (byteOffset e) = bs
  | EXEC => ReadAt (executable (spaces s a)) PageSize (byteOffset e) = Done bs
  | VOID => False
  end.

Definition keeps_content (s s' : VM) : Prop := ∀ a v bs, content s a v bs → content s' a v bs.

Definition halts : fault → Prop := λ f, f = Halted.

(** ** Reads and writes of the tables *)

Section at_.
Context {A : Type}.
Implicit Types (l : list A) (x : A).

Lemma at_vget l i x : at_ l i = Some x → vget l i = Done x.
Proof. unfold at_, vget. destruct (0 <=? i); [|done]. by intros ->. Qed.

Lemma at_range l i x : at_ l i = Some x → 0 <= i < Z.of_nat (length l).
Proof.
  unfold at_. destruct (Z.leb_spec 0 i); [|done]. intros ?%lookup_lt_Some. lia.
Qed.

Lemma at_in l i : 0 <= i < Z.of_nat (length l) → ∃ x, at_ l i = Some x.
Proof.
  intros Hi. unfold at_. rewrite (proj2 (Z.leb_le _ _)) by lia. apply lookup_lt_is_Some_2. lia.
Qed.

(** An assignment within the bounds, seen through [at_]. *)
Lemma vset_at l i x y : at_ l i = Some y →
  vset l i x = Done (<[Z.to_nat i := x]> l) ∧ length (<[Z.to_nat i := x]> l) = length l ∧
  ∀ j, at_ (<[Z.to_nat i := x]> l) j = if decide (j = i) then Some x else at_ l j.
Proof.
  intros Hi. apply at_range in Hi. split; [by apply vset_in|]. split; [apply length_insert|].
  intros j. unfold at_. destruct (decide (j = i)) as [->|Hj].
  - rewrite (proj2 (Z.leb_le _ _)) by lia. apply list_lookup_insert_eq. lia.
  - destruct (Z.leb_spec 0 j); [|done]. apply list_lookup_insert_ne. lia.
Qed.
End at_.

Section tables.
Context (E : fault → Prop).

Lemma wp_get_IPT p i s (Q : IPTEntry → VM → Prop) : at_ (IPT s) p = Some i → Q i s →
  wp E (get_IPT p) Q s.
Proof. intros Hi HQ. apply wp_bind, wp_get. eapply wp_lift; [by apply at_vget|done]. Qed.

Lemma wp_set_IPT p i x s (Q : unit → VM → Prop) : at_ (IPT s) p = Some i →
  Q () (with_IPT (<[Z.to_nat p := x]> (IPT s)) s) → wp E (set_IPT p x) Q s.
Proof.
  intros Hi HQ. apply wp_bind, wp_get, wp_bind. eapply wp_lift; [|by apply wp_put].
  by eapply vset_at.
Qed.

Lemma wp_get_tlb j e s (Q : TranslationEntry → VM → Prop) : tlb_at s j = Some e → Q e s →
  wp E (get_tlb j) Q s.
Proof.
  unfold tlb_at. intros Hj HQ. apply wp_bind, wp_get. destruct (tlb (machine s)); [|done].
  eapply wp_lift; [by apply at_vget|done].
Qed.

Lemma wp_set_tlb j e x t s (Q : unit → VM → Prop) : tlb (machine s) = Some t → at_ t j = Some e →
  Q () (with_machine (with_tlb (<[Z.to_nat j := x]> t) (machine s)) s) → wp E (set_tlb j x) Q s.
Proof.
  intros Ht Hj HQ. apply wp_bind, wp_get. rewrite Ht. apply wp_bind.
  eapply wp_lift; [|by apply wp_put]. by eapply vset_at.
Qed.

Lemma wp_get_page a v e s (Q : PageTableEntry → VM → Prop) : page_of s a v = Some e → Q e s →
  wp E (get_page a v) Q s.
Proof. intros He HQ. apply wp_bind, wp_get. eapply wp_lift; [by apply at_vget|done]. Qed.

Lemma wp_set_page a v e x s (Q : unit → VM → Prop) : page_of s a v = Some e →
  Q () (with_space a (mkSpace (<[Z.to_nat v := x]> (spaceTable (spaces s a))) (executable (spaces s a))) s) →
  wp E (set_page a v x) Q s.
Proof.
  intros He HQ. apply wp_bind, wp_get, wp_bind. eapply wp_lift; [|by apply wp_put].
  by eapply vset_at.
Qed.
End tables.

(** ** The views after an assignment *)

Lemma own_set s p i x q : at_ (IPT s) p = Some i →
  own (with_IPT (<[Z.to_nat p := x]> (IPT s)) s) q =
  if decide (q = p) then (if valid (ipte x) then Some (PID x, virtualPage (ipte x)) else None) else own s q.
Proof.
  intros Hi. unfold own. cbn. destruct (vset_at _ _ x _ Hi) as (_ & _ & ->). by case_decide.
Qed.

Lemma page_of_set s a v e x a' v' : page_of s a v = Some e →
  page_of (with_space a (mkSpace (<[Z.to_nat v := x]> (spaceTable (spaces s a))) (executable (spaces s a))) s) a' v' =
  if decide (a' = a ∧ v' = v) then Some x else page_of s a' v'.
Proof.
  intros He. unfold page_of. cbn. destruct (decide (a' = a)) as [->|Ha].
  - rewrite fn_lookup_insert. cbn. destruct (vset_at _ _ x _ He) as (_ & _ & ->).
    repeat case_decide; naive_solver.
  - rewrite fn_lookup_insert_ne by done. by rewrite decide_False by naive_solver.
Qed.

Lemma executable_set s a l a' :
  executable (spaces (with_space a (mkSpace l (executable (spaces s a))) s) a') = executable (spaces s a').
Proof.
  cbn. destruct (decide (a' = a)) as [->|]; [by rewrite fn_lookup_insert|by rewrite fn_lookup_insert_ne].
Qed.

Lemma tlb_at_set s t j e x j' : tlb (machine s) = Some t → at_ t j = Some e →
  tlb_at (with_machine (with_tlb (<[Z.to_nat j := x]> t) (machine s)) s) j' =
  if decide (j' = j) then Some x else tlb_at s j'.
Proof.
  intros Ht Hj. unfold tlb_at. cbn. rewrite Ht. by destruct (vset_at _ _ x _ Hj) as (_ & _ & ->).
Qed.

Lemma tlb_wf m t t' : machine_wf m → tlb m = Some t → length t' = length t → machine_wf (with_tlb t' m).
Proof. intros [H1 H2 H3 H4] Ht Hl. split; cbn; try done. rewrite Ht in H3. destruct (pageTable m); congruence. Qed.

(** ** Assignments that keep the invariant and the contents *)

Definition steps_to (hole : Z) (s s' : VM) : Prop :=
  vm_inv hole s' ∧ (∀ p, own s' p = own s p) ∧ keeps_content s s' ∧ spaces s' = spaces s ∧
  currentSpace s' = currentSpace s ∧ currentTLB s' = currentTLB s ∧ FIFOList s' = FIFOList s ∧
  (∀ p i, at_ (IPT s) p = Some i → ∃ i', at_ (IPT s') p = Some i' ∧ (dirty (ipte i) = true → dirty (ipte i') = true)).

Lemma keeps_content_dirty s s' :
  (∀ p, frame_of s' p = frame_of s p) → (∀ p, frame_dirty s p → frame_dirty s' p) →
  (∀ a v, page_of s' a v = page_of s a v) → (∀ a, executable (spaces s' a) = executable (spaces s a)) →
  swapFile s' = swapFile s → keeps_content s s'.
Proof.
  intros Hf Hd Hp He Hs a v bs [Hl (e & He' & Hc)]. split; [done|]. exists e. rewrite Hp. split; [done|].
  destruct (location e); rewrite ?Hf, ?He, ?Hs; [done..| |done]. destruct Hc as [? [?|?]]; auto.
Qed.

Lemma mark_dirty hole s p f : vm_inv hole s → at_ (IPT s) p = Some f →
  let s' := with_IPT (<[Z.to_nat p := mkIPTE (set_dirty true (ipte f)) (PID f)]> (IPT s)) s in
  steps_to hole s s' ∧ at_ (IPT s') p = Some (mkIPTE (set_dirty true (ipte f)) (PID f)).
Proof.
  intros Hi Hf s'. set (f' := mkIPTE _ _) in *.
  destruct (vset_at _ _ f' _ Hf) as (_ & Hl & Hat).
  assert (∀ q, own s' q = own s q) as Hown.
  { intros q. unfold s'. rewrite (own_set _ _ _ _ _ Hf). case_decide; subst; [|done]. unfold own. by rewrite Hf. }
  assert (at_ (IPT s') p = Some f') as Hp by (cbn; by rewrite Hat, decide_True).
  split; [|done]. split_and!; [|done| |done..|].
  - destruct Hi. constructor; try done; cbn; try setoid_rewrite Hown; try done.
    + by rewrite Hl.
    + intros q i. rewrite Hat. case_decide; subst; [|by apply vi_phys0]. intros [= <-] Hv. by apply vi_phys0 in Hf.
  - apply keeps_content_dirty; try done. intros q [(i & Hi' & Hd)|Ht]; [|by right]. left. cbn.
    rewrite Hat. case_decide; subst; [|by exists i]. by exists f'.
  - intros q i Hq. cbn. rewrite Hat. case_decide; subst; [by exists f'|by exists i].
Qed.

(** A TLB entry is replaced by one that is invalid or maps a frame no other maps. *)
Section replace_tlb.
Context (hole : Z) (s : VM) (t : list TranslationEntry) (j : Z) (e x : TranslationEntry).
Context (Hi : vm_inv hole s) (Ht : tlb (machine s) = Some t) (Hj : at_ t j = Some e).
Context (Hx : valid x = true → own s (physicalPage x) = Some (currentSpace s, virtualPage x) ∧
     ∀ j' e', tlb_at s j' = Some e' → valid e' = true → physicalPage e' = physicalPage x → j' = j).
Let s' : VM := with_machine (with_tlb (<[Z.to_nat j := x]> t) (machine s)) s.

Lemma replace_tlb_inv : vm_inv hole s'.
Proof.
  destruct (vset_at _ _ x _ Hj) as (_ & Hl & _).
  assert (∀ j', tlb_at s' j' = if decide (j' = j) then Some x else tlb_at s j') as Htlb
    by (intros j'; by apply (tlb_at_set _ _ _ e)).
  destruct Hi. constructor; try done.
  - cbn. by eapply tlb_wf.
  - intros j' e'. rewrite Htlb. case_decide; subst; [|by apply vi_tlb0]. intros [= <-] Hv. by apply Hx.
  - intros j1 j2 e1 e2. rewrite !Htlb. intros H1 H2 Hv1 Hv2 Hp. repeat case_decide; simplify_eq; try done.
    + destruct (Hx Hv2) as [_ Hu]. by apply (Hu _ e1).
    + destruct (Hx Hv1) as [_ Hu]. symmetry. by apply (Hu _ e2).
    + by eapply vi_tlb_once0.
Qed.

(** The dirty bit of the old entry is in the inverted page table or stays. *)
Lemma replace_tlb_content : (valid e = true → dirty e = true →
    (∃ i, at_ (IPT s) (physicalPage e) = Some i ∧ dirty (ipte i) = true) ∨
    (valid x = true ∧ dirty x = true ∧ physicalPage x = physicalPage e)) → keeps_content s s'.
Proof.
  intros Hdirty. apply keeps_content_dirty; try done.
  assert (∀ j', tlb_at s' j' = if decide (j' = j) then Some x else tlb_at s j') as Htlb
    by (intros j'; by apply (tlb_at_set _ _ _ e)).
  intros p [Hp|(j' & e' & Hj' & Hv & Hp & Hd)]; [by left|]. destruct (decide (j' = j)) as [->|Hne].
  - assert (e' = e) as -> by (unfold tlb_at in Hj'; rewrite Ht in Hj'; congruence). subst p.
    destruct (Hdirty Hv Hd) as [?|(? & ? & ?)]; [by left|]. right. exists j, x. by rewrite Htlb, decide_True.
  - right. exists j', e'. by rewrite Htlb, decide_False.
Qed.
End replace_tlb.

Lemma replace_tlb hole s t j e x : vm_inv hole s → tlb (machine s) = Some t → at_ t j = Some e →
  (valid e = true → dirty e = true → ∃ i, at_ (IPT s) (physicalPage e) = Some i ∧ dirty (ipte i) = true) →
  (valid x = true → own s (physicalPage x) = Some (currentSpace s, virtualPage x) ∧
     ∀ j' e', tlb_at s j' = Some e' → valid e' = true → physicalPage e' = physicalPage x → j' = j) →
  steps_to hole s (with_machine (with_tlb (<[Z.to_nat j := x]> t) (machine s)) s).
Proof.
  intros Hi Ht Hj Hdirty Hx. split_and!; [by eapply replace_tlb_inv|done| |done..|].
  - eapply replace_tlb_content; [done..|]. auto.
  - intros p i Hp. by exists i.
Qed.

Lemma steps_to_trans hole s s' s'' : steps_to hole s s' → steps_to hole s' s'' → steps_to hole s s''.
Proof.
  intros (H1 & H2 & H3 & H4 & H5 & H6 & H7 & H8) (I1 & I2 & I3 & I4 & I5 & I6 & I7 & I8).
  split_and!; [done|congruence| |congruence..|].
  - intros a v bs ?. by apply I3, H3.
  - intros p i Hp. destruct (H8 p i Hp) as (i' & Hi' & Hd). destruct (I8 p i' Hi') as (i'' & ? & ?).
    exists i''. auto.
Qed.

Lemma steps_to_refl hole s : vm_inv hole s → steps_to hole s s.
Proof.
  intros Hi. split_and!; try done.
  - by intros a v bs.
  - intros p i Hp. by exists i.
Qed.

(** ** TLB operations *)

Section tlb_ops.
Context (E : fault → Prop).

Lemma own_at s p x : own s p = Some x → ∃ i, at_ (IPT s) p = Some i ∧ valid (ipte i) = true ∧
  x = (PID i, virtualPage (ipte i)).
Proof.
  unfold own. destruct (at_ (IPT s) p) as [i|]; [|done]. destruct (valid (ipte i)) eqn:Hv; [|done].
  intros [= <-]. by exists i.
Qed.

Lemma tlb_at_Some s j e : tlb_at s j = Some e → ∃ t, tlb (machine s) = Some t ∧ at_ t j = Some e.
Proof. unfold tlb_at. destruct (tlb (machine s)) as [t|]; [|done]. by exists t. Qed.

Lemma tlb_slot hole s j : vm_inv hole s → 0 <= j < TLBSize → ∃ e, tlb_at s j = Some e.
Proof.
  intros Hi Hj. destruct (vi_has_tlb _ _ Hi) as [t Ht]. unfold tlb_at. rewrite Ht. apply at_in.
  pose proof (mw_table _ (vi_machine _ _ Hi)) as Hl. rewrite Ht in Hl.
  destruct (pageTable (machine s)); [done|]. rewrite Hl. unfold TLBSize in *. lia.
Qed.

(** The dirty bit of TLB entry [j] reaches the inverted page table. *)
Lemma propogate_spec hole s j e : vm_inv hole s → tlb_at s j = Some e →
  wp E (propogateCurTLBDirty j) (λ _ s', steps_to hole s s' ∧ machine s' = machine s ∧
    (valid e = true → dirty e = true → ∃ i, at_ (IPT s') (physicalPage e) = Some i ∧ dirty (ipte i) = true)) s.
Proof.
  intros Hi Hj. unfold propogateCurTLBDirty. apply wp_bind. eapply wp_get_tlb; [done|].
  destruct (valid e && dirty e) eqn:Hvd.
  - apply andb_true_iff in Hvd as [Hv Hd]. destruct (own_at _ _ _ (vi_tlb _ _ Hi j e Hj Hv)) as (f & Hf & _).
    apply wp_bind. eapply wp_get_IPT; [done|]. eapply wp_set_IPT; [done|].
    destruct (mark_dirty _ _ _ _ Hi Hf) as [Hst Hat]. split_and!; [done|done|]. intros _ _. eexists. by split.
  - apply wp_ret. split_and!; [by apply steps_to_refl|done|]. intros Hv Hd. by rewrite Hv, Hd in Hvd.
Qed.

(** After it, the entry can be overwritten. *)
Lemma overwrite_spec hole s j e x : vm_inv hole s → tlb_at s j = Some e →
  (valid x = true → own s (physicalPage x) = Some (currentSpace s, virtualPage x) ∧
     ∀ j' e', tlb_at s j' = Some e' → valid e' = true → physicalPage e' = physicalPage x → j' = j) →
  (valid e = true → dirty e = true → ∃ i, at_ (IPT s) (physicalPage e) = Some i ∧ dirty (ipte i) = true) →
  wp E (set_tlb j x) (λ _ s', steps_to hole s s' ∧
    ∀ j', tlb_at s' j' = if decide (j' = j) then Some x else tlb_at s j') s.
Proof.
  intros Hi Hj Hx Hd. destruct (tlb_at_Some _ _ _ Hj) as (t & Ht & Hjt).
  eapply wp_set_tlb; [done..|]. split; [by eapply replace_tlb|]. intros j'. by apply (tlb_at_set _ _ _ e).
Qed.

Lemma unmap_frame_spec hole s p : vm_inv hole s → is_Some (own s p) →
  wp E (unmap_frame p) (λ _ s', steps_to hole s s' ∧
    ∀ j e, tlb_at s' j = Some e → valid e = true → physicalPage e ≠ p) s.
Proof.
  intros Hi [x Hx]. unfold unmap_frame. apply wp_bind, wp_get.
  destruct (vi_has_tlb _ _ Hi) as [t Ht]. rewrite Ht.
  pose proof (mw_table _ (vi_machine _ _ Hi)) as Hl. rewrite Ht in Hl.
  assert (length t = Z.to_nat TLBSize) as Hlt by (by destruct (pageTable (machine s))). rewrite take_ge by lia.
  destruct (find_index_spec (λ e, valid e && (physicalPage e =? p)) t)
    as [[-> Hnone]|(k & e & -> & Hk & He & Hfirst)].
  - apply wp_ret. split; [by apply steps_to_refl|]. intros j e Hj Hv Hp.
    destruct (tlb_at_Some _ _ _ Hj) as (t' & Ht' & Hj'). assert (t' = t) as -> by congruence.
    unfold at_ in Hj'. destruct (0 <=? j); [|done]. specialize (Hnone _ _ Hj').
    by rewrite Hv, Hp, Z.eqb_refl in Hnone.
  - rewrite (proj2 (Z.eqb_neq _ _)) by lia. apply andb_true_iff in He as [Hv Hp%Z.eqb_eq].
    assert (tlb_at s (Z.of_nat k) = Some e) as Hj.
    { unfold tlb_at, at_. rewrite Ht, Nat2Z.id, (proj2 (Z.leb_le 0 (Z.of_nat k))) by lia. done. }
    assert (∀ s', steps_to hole s s' → machine s' = machine s →
      (dirty e = true → ∃ i, at_ (IPT s') p = Some i ∧ dirty (ipte i) = true) →
      wp E (set_tlb (Z.of_nat k) (set_valid false e)) (λ _ s'', steps_to hole s s'' ∧
        ∀ j e, tlb_at s'' j = Some e → valid e = true → physicalPage e ≠ p) s') as Hset.
    { intros s' Hst Hm Hd. assert (∀ j, tlb_at s' j = tlb_at s j) as Htlb by (intros j; unfold tlb_at; by rewrite Hm).
      eapply wp_mono; [eapply (overwrite_spec hole s' _ e); [apply Hst|by rewrite Htlb|done|]|].
      - intros _. by rewrite Hp.
      - cbn. intros _ s'' [Hst' Hat]. split; [by eapply steps_to_trans|]. intros j e' Hj' Hv' Hp'.
        rewrite Hat in Hj'. case_decide; [by simplify_eq|]. rewrite Htlb in Hj'.
        pose proof (vi_tlb_once _ _ Hi j (Z.of_nat k) e' e Hj' Hj Hv' Hv ltac:(congruence)). congruence. }
    apply wp_bind. eapply wp_get_tlb; [done|]. apply wp_bind. destruct (dirty e) eqn:Hd.
    + destruct (own_at _ _ _ Hx) as (f & Hf & _). apply wp_bind. eapply wp_get_IPT; [done|].
      eapply wp_set_IPT; [done|]. destruct (mark_dirty _ _ _ _ Hi Hf) as [Hst Hat].
      apply Hset; [done|done|]. intros _. eexists. by split.
    + apply wp_ret. apply Hset; [by apply steps_to_refl|done|done].
Qed.
End tlb_ops.

(** ** Files and frames *)

Lemma slice_lookup l i m : slice l i !! m = if decide (m < Z.to_nat PageSize)%nat then l !! (Z.to_nat i + m)%nat else None.
Proof.
  unfold slice. case_decide; [by rewrite lookup_take_lt, lookup_drop|].
  apply lookup_ge_None_2. rewrite length_take. lia.
Qed.

Lemma slice_ext l l' i i' : (∀ m, (m < Z.to_nat PageSize)%nat → l !! (Z.to_nat i + m)%nat = l' !! (Z.to_nat i' + m)%nat) →
  slice l i = slice l' i'.
Proof. intros H. apply list_eq. intros m. rewrite !slice_lookup. case_decide; auto. Qed.

Lemma slice_full l i : 0 <= i → i + PageSize <= Z.of_nat (length l) → length (slice l i) = Z.to_nat PageSize.
Proof. intros. unfold slice. rewrite length_take, length_drop. lia. Qed.

(** Writing one page of the swap file leaves the others. *)
Lemma write_page file bs k : 0 <= k → length bs = Z.to_nat PageSize →
  ∃ f, WriteAt file bs (k * PageSize) = Done f ∧ (length file <= length f)%nat ∧
    k * PageSize + PageSize <= Z.of_nat (length f) ∧ slice f (k * PageSize) = bs ∧
    (∀ j, 0 <= j → j ≠ k → j * PageSize + PageSize <= Z.of_nat (length file) →
       slice f (j * PageSize) = slice file (j * PageSize)) ∧
    (Forall byte file → Forall byte bs → Forall byte f).
Proof.
  intros Hk Hl. destruct (host_write_spec file bs (k * PageSize)) as (f & Hf & H1 & H2 & H3 & H4 & H5).
  { unfold PageSize, SectorSize. lia. }
  exists f. unfold PageSize, SectorSize in *. split_and!; [done|done|lia| | |done].
  - apply list_eq. intros m. rewrite slice_lookup. unfold PageSize, SectorSize. case_decide; [apply H3; lia|].
    symmetry. apply lookup_ge_None_2. lia.
  - intros j Hj Hne Hlen. apply slice_ext. unfold PageSize, SectorSize. intros m Hm. apply H4; lia.
Qed.

Lemma frame_bytes_spec E s p (Q : list Z → VM → Prop) : machine_wf (machine s) → 0 <= p < NumPhysPages →
  (length (frame_of s p) = Z.to_nat PageSize → Forall byte (frame_of s p) → Q (frame_of s p) s) →
  wp E (frame_bytes p) Q s.
Proof.
  intros Hi Hp HQ. apply wp_bind, wp_get. pose proof (mw_memory _ Hi) as Hm.
  unfold PageSize, NumPhysPages, MemorySize, SectorSize in *.
  eapply wp_lift; [apply mem_read_in; unfold PageSize, NumPhysPages, SectorSize in *; lia|].
  apply HQ.
  - apply slice_full; unfold PageSize, NumPhysPages, SectorSize in *; lia.
  - apply Forall_take, Forall_drop, (mw_bytes _ Hi).
Qed.

(** ** Eviction *)

(** Frame [p], which held page [v] of [a], is given up: the page is now where [e'] says. *)
Record evicted (s s' : VM) (p : Z) (a : nat) (v : Z) (e' : PageTableEntry) : Prop := {
  ev_machine : machine s' = machine s;
  ev_length : length (IPT s') = length (IPT s);
  ev_own : ∀ q, own s' q = if decide (q = p) then None else own s q;
  ev_phys : ∀ q i, at_ (IPT s') q = Some i → valid (ipte i) = true → physicalPage (ipte i) = q;
  ev_dirty : ∀ q i, q ≠ p → at_ (IPT s) q = Some i → at_ (IPT s') q = Some i;
  ev_frames : pageTableBitMap s' = pageTableBitMap s;
  ev_fifo : NoDup (FIFOList s') ∧ ∀ q, q ∈ FIFOList s' ↔ q ∈ FIFOList s ∧ q ≠ p;
  ev_pages : ∀ a' v', page_of s' a' v' = if decide (a' = a ∧ v' = v) then Some e' else page_of s a' v';
  ev_exec : ∀ a', executable (spaces s' a') = executable (spaces s a');
  ev_current : currentSpace s' = currentSpace s ∧ currentTLB s' = currentTLB s;
  ev_bytes : Forall byte (swapFile s');
  ev_where :
    (location e' = EXEC ∧ swapBitMap s' = swapBitMap s ∧ swapFile s' = swapFile s ∧
       (∀ i, at_ (IPT s) p = Some i → dirty (ipte i) = false)) ∨
    (location e' = SWAP ∧ dirty (pte e') = true ∧ wf (swapBitMap s') ∧ numBits (swapBitMap s') = NumSwapPages ∧
     ∃ k, byteOffset e' = k * PageSize ∧ 0 <= k < NumSwapPages ∧ used (swapBitMap s) k = false ∧
       (∀ j, 0 <= j → used (swapBitMap s') j = (j =? k) || used (swapBitMap s) j) ∧
       (length (swapFile s) <= length (swapFile s'))%nat ∧
       k * PageSize + PageSize <= Z.of_nat (length (swapFile s')) ∧
       slice (swapFile s') (k * PageSize) = frame_of s p ∧
       ∀ j, 0 <= j → j ≠ k → j * PageSize + PageSize <= Z.of_nat (length (swapFile s)) →
         slice (swapFile s') (j * PageSize) = slice (swapFile s) (j * PageSize))
}.

Section evict.
Context (s s' : VM) (p : Z) (a : nat) (v : Z) (e e' : PageTableEntry).
Context (Hi : vm_inv (-1) s) (Hown : own s p = Some (a, v)) (Hp : 0 <= p < NumPhysPages).
Context (He : page_of s a v = Some e) (Hmain : location e = MAIN) (Hphys : physicalPage (pte e) = p).
Context (Hfree : ∀ j x, tlb_at s j = Some x → valid x = true → physicalPage x ≠ p).
Context (Hev : evicted s s' p a v e').
Context (Hvirt : virtualPage (pte e') = v) (Hoff : location e' = EXEC → byteOffset e' = byteOffset e).

Lemma evicted_tlb j : tlb_at s' j = tlb_at s j.
Proof. unfold tlb_at. by rewrite (ev_machine _ _ _ _ _ _ Hev). Qed.

Lemma evicted_pages q a' v' : own s' q = Some (a', v') ↔
  ∃ x, page_of s' a' v' = Some x ∧ location x = MAIN ∧ physicalPage (pte x) = q.
Proof.
  rewrite (ev_own _ _ _ _ _ _ Hev), (ev_pages _ _ _ _ _ _ Hev). split.
  - case_decide as Hq; [done|]. intros Ho. apply (vi_pages _ _ Hi) in Ho as (x & Hx & Hl & Hph).
    exists x. case_decide as Hav; [|done]. destruct Hav as [-> ->]. congruence.
  - case_decide as Hav.
    + intros (x & [= <-] & Hl & _). destruct (ev_where _ _ _ _ _ _ Hev) as [[? _]|[? _]]; congruence.
    + intros Hx. apply (vi_pages _ _ Hi) in Hx. case_decide as Hq; [|done]. subst q.
      rewrite Hown in Hx. injection Hx as -> ->. by destruct Hav.
Qed.

Lemma evicted_swap : (wf (swapBitMap s') ∧ numBits (swapBitMap s') = NumSwapPages) ∧
  (∀ a' v' x, page_of s' a' v' = Some x → location x = SWAP → dirty (pte x) = true ∧
    ∃ k, 0 <= k < NumSwapPages ∧ byteOffset x = k * PageSize ∧ used (swapBitMap s') k = true ∧
      k * PageSize + PageSize <= Z.of_nat (length (swapFile s'))) ∧
  (∀ a1 v1 x1 a2 v2 x2, page_of s' a1 v1 = Some x1 → page_of s' a2 v2 = Some x2 →
    location x1 = SWAP → location x2 = SWAP → byteOffset x1 = byteOffset x2 → a1 = a2 ∧ v1 = v2).
Proof.
  destruct (ev_where _ _ _ _ _ _ Hev) as [(Hl & Hb & Hf & _)|
    (Hl & Hd & Hw & Hn & k & Hk & Hkr & Hfree' & Hu & Hlen & Hend & _ & _)].
  - rewrite Hb, Hf. split; [apply (vi_swapmap _ _ Hi)|]. setoid_rewrite (ev_pages _ _ _ _ _ _ Hev). split.
    + intros a' v' x. case_decide; [intros [= <-]; congruence|apply (vi_swap _ _ Hi)].
    + intros a1 v1 x1 a2 v2 x2. do 2 (case_decide; [intros; congruence|]).
      apply (vi_swap_once _ _ Hi).
  - assert (∀ a' v' x, page_of s a' v' = Some x → location x = SWAP → byteOffset x ≠ byteOffset e') as Hne.
    { intros a' v' x Hx Hlx Heq. destruct (vi_swap _ _ Hi _ _ _ Hx Hlx) as (_ & j & Hj & Hoffj & Huj & _).
      assert (j = k) as -> by (unfold PageSize, SectorSize in *; lia). congruence. }
    split; [done|]. setoid_rewrite (ev_pages _ _ _ _ _ _ Hev). split.
    + intros a' v' x. case_decide.
      * intros [= <-] _. split; [done|]. exists k. split; [done|]. split; [done|].
        split; [|done]. rewrite Hu by lia. by rewrite Z.eqb_refl.
      * intros Hx Hlx. destruct (vi_swap _ _ Hi _ _ _ Hx Hlx) as (? & j & Hj & Hoffj & Huj & Hend').
        split; [done|]. exists j. split; [done|]. split; [done|].
        split; [|lia]. rewrite Hu by lia. rewrite Huj. apply orb_true_r.
    + intros a1 v1 x1 a2 v2 x2. case_decide as H1; case_decide as H2.
      * intros _ _ _ _ _. destruct H1 as [-> ->], H2 as [-> ->]. done.
      * intros [= <-] H _ Hl2 Hb. by destruct (Hne _ _ _ H Hl2).
      * intros H [= <-] Hl1 _ Hb. by destruct (Hne _ _ _ H Hl1).
      * apply (vi_swap_once _ _ Hi).
Qed.

Lemma evicted_inv : vm_inv p s'.
Proof.
  destruct evicted_swap as (Hsw1 & Hsw2 & Hsw3). pose proof (ev_own _ _ _ _ _ _ Hev) as Ho.
  pose proof (ev_current _ _ _ _ _ _ Hev) as [Hcs Hct].
  constructor; rewrite ?(ev_machine _ _ _ _ _ _ Hev), ?(ev_length _ _ _ _ _ _ Hev),
    ?(ev_frames _ _ _ _ _ _ Hev), ?Hct, ?Hcs; try apply Hi; try done.
  - intros j x. rewrite evicted_tlb. intros Hj Hv. rewrite Ho, decide_False by (by apply (Hfree j)).
    by apply (vi_tlb _ _ Hi j).
  - intros j j' x x'. rewrite !evicted_tlb. apply (vi_tlb_once _ _ Hi).
  - apply (ev_phys _ _ _ _ _ _ Hev).
  - intros q Hq. rewrite (vi_used _ _ Hi q Hq), Ho. case_decide; subst.
    + by rewrite Hown, Z.eqb_refl.
    + destruct (own s q); [done|]. lia.
  - rewrite Ho, decide_True by done. split; [done|lia].
  - destruct (ev_fifo _ _ _ _ _ _ Hev) as [Hnd Hin]. split; [done|]. intros q.
    rewrite Hin, Ho, (proj2 (vi_fifo _ _ Hi)). case_decide; subst; [|tauto]. split; [tauto|by intros []].
  - apply evicted_pages.
  - intros a' v' x. rewrite (ev_pages _ _ _ _ _ _ Hev). case_decide as Hav; [|apply (vi_virtual _ _ Hi)].
    destruct Hav as [-> ->]. intros [= <-]. split; [done|by apply (vi_virtual _ _ Hi _ _ _ He)].
  - split; [apply (ev_bytes _ _ _ _ _ _ Hev)|]. intros a'. rewrite (ev_exec _ _ _ _ _ _ Hev). apply (vi_bytes _ _ Hi).
Qed.

(** No page loses its contents. *)
Lemma evicted_content : keeps_content s s'.
Proof.
  intros a' v' bs [Hl (x & Hx & Hc)]. split; [done|]. rewrite (ev_pages _ _ _ _ _ _ Hev).
  assert (∀ q, frame_of s' q = frame_of s q) as Hf by (intros q; unfold frame_of; by rewrite (ev_machine _ _ _ _ _ _ Hev)).
  case_decide as Hav.
  - destruct Hav as [-> ->]. assert (x = e) as -> by congruence. exists e'. split; [done|].
    rewrite Hmain in Hc. destruct Hc as [Hbs Hd]. rewrite Hphys in *.
    destruct (ev_where _ _ _ _ _ _ Hev) as [(Hle & _ & _ & Hclean)|(Hle & _ & _ & _ & k & Hk & _ & _ & _ & _ & _ & Hsl & _)];
      rewrite Hle, ?(ev_exec _ _ _ _ _ _ Hev); [|by rewrite Hk, Hsl].
    rewrite Hoff by done. destruct Hd as [[(i & Hi' & Hd)|(j & y & Hj & Hv & Hy & _)]|Hd]; [|by destruct (Hfree _ _ Hj Hv)|done].
    rewrite (Hclean i Hi') in Hd. done.
  - exists x. split; [done|]. destruct (location x) eqn:Hlx; [done|by rewrite (ev_exec _ _ _ _ _ _ Hev)| |].
    + rewrite Hf, (ev_exec _ _ _ _ _ _ Hev). destruct Hc as [Hbs Hd]. split; [done|].
      destruct Hd as [Hd|Hd]; [left|by right]. assert (physicalPage (pte x) ≠ p) as Hne.
      { intros Heq. assert (own s p = Some (a', v')) as Ho' by (apply (vi_pages _ _ Hi); by exists x). destruct Hav.
        split; congruence. }
      destruct Hd as [(i & Hi' & Hd)|(j & y & Hj & Hv & Hy & Hd)].
      * left. exists i. split; [|done]. by apply (ev_dirty _ _ _ _ _ _ Hev).
      * right. exists j, y. rewrite evicted_tlb. done.
    + destruct (vi_swap _ _ Hi _ _ _ Hx Hlx) as (_ & j & Hj & Hoffj & Huj & Hend).
      destruct (ev_where _ _ _ _ _ _ Hev) as [(_ & _ & -> & _)|(_ & _ & _ & _ & k & Hk & _ & Hfk & _ & _ & _ & _ & Hkeep)]; [done|].
      rewrite Hoffj in *. rewrite Hkeep by (try lia; congruence). done.
Qed.
End evict.

Lemma in_delete (l : list Z) i p : NoDup l → l !! i = Some p →
  NoDup (delete i l) ∧ ∀ q, q ∈ delete i l ↔ q ∈ l ∧ q ≠ p.
Proof.
  intros Hnd Hi. rewrite delete_take_drop. pose proof (take_drop_middle l i p Hi) as Hl.
  rewrite <- Hl in Hnd. apply NoDup_app in Hnd as (H1 & H2 & H3). apply NoDup_cons in H3 as [H3 H4].
  split.
  - apply NoDup_app. split_and!; [done| |done]. intros x Hx Hx'. apply (H2 x Hx). by right.
  - intros q. rewrite <- Hl at 3. rewrite !elem_of_app, elem_of_cons. split.
    + intros [Hq|Hq]; [|split; [auto|by intros ->]]. split; [by left|]. intros ->. apply (H2 p Hq). by left.
    + intros [[?|[?|?]] ?]; [by left|done|by right].
Qed.

Lemma removePageFromFIFOQ_spec E p s (Q : unit → VM → Prop) : NoDup (FIFOList s) → p ∈ FIFOList s →
  (∀ l, NoDup l → (∀ q, q ∈ l ↔ q ∈ FIFOList s ∧ q ≠ p) → Q () (with_FIFO l s)) →
  wp E (removePageFromFIFOQ p) Q s.
Proof.
  intros Hnd Hp HQ. apply wp_bind, wp_get. cbn zeta.
  destruct (find_index_spec (λ x, x =? p) (FIFOList s)) as [[_ Hnone]|(i & x & -> & Hi & Hx%Z.eqb_eq & _)].
  - apply list_elem_of_lookup_1 in Hp as [j Hj]. specialize (Hnone _ _ Hj). by rewrite Z.eqb_refl in Hnone.
  - subst x. rewrite (proj2 (Z.eqb_neq _ _)) by lia. apply wp_bind.
    eapply wp_lift; [apply verase_in; apply lookup_lt_Some in Hi; lia|]. apply wp_put.
    rewrite Nat2Z.id. destruct (in_delete _ _ _ Hnd Hi). auto.
Qed.

(** [writePageToSwap] of a valid dirty frame. *)
Lemma writePageToSwap_spec p i s (Q : Z → VM → Prop) : machine_wf (machine s) → 0 <= p < NumPhysPages →
  wf (swapBitMap s) → numBits (swapBitMap s) = NumSwapPages →
  at_ (IPT s) p = Some i → valid (ipte i) && dirty (ipte i) = true →
  (∀ k b f, 0 <= k < NumSwapPages → used (swapBitMap s) k = false → wf b → numBits b = NumSwapPages →
     (∀ j, 0 <= j → used b j = (j =? k) || used (swapBitMap s) j) →
     WriteAt (swapFile s) (frame_of s p) (k * PageSize) = Done f →
     length (frame_of s p) = Z.to_nat PageSize → Forall byte (frame_of s p) →
     Q (k * PageSize) (with_swap b f s)) →
  wp halts (writePageToSwap p) Q s.
Proof.
  intros Hm Hp Hw Hn Hat Hvd HQ. unfold writePageToSwap. apply wp_bind. eapply wp_get_IPT; [done|].
  rewrite Hvd. apply wp_bind, wp_get, wp_bind.
  destruct (Find_cases _ Hw) as [[Hf _]|(k & b & Hf & Hk & Hu & _ & Hwb & Hnb & Hub)].
  - eapply wp_lift; [done|]. cbn zeta. rewrite Z.eqb_refl. by apply wp_fail.
  - eapply wp_lift; [done|]. cbn [fst snd]. rewrite (proj2 (Z.eqb_neq _ _)) by lia.
    apply wp_bind, frame_bytes_spec; [done..|]. intros Hl Hb. apply wp_bind.
    destruct (write_page (swapFile s) (frame_of s p) k) as (f & Hwr & _); [lia|done|].
    eapply wp_lift; [done|]. apply wp_bind, wp_put, wp_ret. apply HQ; try done; [lia|congruence].
Qed.

(** The end of [handleMemoryFull]. *)
Definition unlink (p : Z) : M VM Z :=
  let! i := get_IPT p in
  set_IPT p (mkIPTE (set_valid false (ipte i)) (PID i)) ;;;
  removePageFromFIFOQ p ;;;
  ret p.

Section unlink.
Context (s s2 : VM) (p : Z) (a : nat) (v : Z) (i : IPTEntry).
Context (Hi : vm_inv (-1) s) (Hat : at_ (IPT s) p = Some i) (Hown : own s p = Some (a, v)).
Context (Hm : machine s2 = machine s) (HI : IPT s2 = IPT s) (HF : FIFOList s2 = FIFOList s)
  (HB : pageTableBitMap s2 = pageTableBitMap s) (HC : currentSpace s2 = currentSpace s)
  (HT : currentTLB s2 = currentTLB s).

Let x : IPTEntry := mkIPTE (set_valid false (ipte i)) (PID i).
Let final (l : list Z) : VM := with_FIFO l (with_IPT (<[Z.to_nat p := x]> (IPT s2)) s2).

Lemma unlink_spec (Q : Z → VM → Prop) :
  (∀ l, NoDup l → (∀ q, q ∈ l ↔ q ∈ FIFOList s ∧ q ≠ p) → Q p (final l)) →
  wp halts (unlink p) Q s2.
Proof.
  intros HQ. unfold unlink. apply wp_bind. eapply wp_get_IPT; [by rewrite HI|].
  apply wp_bind. eapply wp_set_IPT; [by rewrite HI|]. apply wp_bind.
  destruct (vi_fifo _ _ Hi) as [Hnd Hin]. apply removePageFromFIFOQ_spec; cbn; rewrite HF; [done|by apply Hin; eexists|].
  intros l Hl Hql. apply wp_ret. by apply HQ.
Qed.

Lemma unlink_evicted l e' : NoDup l → (∀ q, q ∈ l ↔ q ∈ FIFOList s ∧ q ≠ p) →
  (∀ a' v', page_of s2 a' v' = if decide (a' = a ∧ v' = v) then Some e' else page_of s a' v') →
  (∀ a', executable (spaces s2 a') = executable (spaces s a')) → Forall byte (swapFile s2) →
  (location e' = EXEC ∧ swapBitMap s2 = swapBitMap s ∧ swapFile s2 = swapFile s ∧ dirty (ipte i) = false ∨
   location e' = SWAP ∧ dirty (pte e') = true ∧ wf (swapBitMap s2) ∧ numBits (swapBitMap s2) = NumSwapPages ∧
     ∃ k, byteOffset e' = k * PageSize ∧ 0 <= k < NumSwapPages ∧ used (swapBitMap s) k = false ∧
       (∀ j, 0 <= j → used (swapBitMap s2) j = (j =? k) || used (swapBitMap s) j) ∧
       (length (swapFile s) <= length (swapFile s2))%nat ∧
       k * PageSize + PageSize <= Z.of_nat (length (swapFile s2)) ∧
       slice (swapFile s2) (k * PageSize) = frame_of s p ∧
       ∀ j, 0 <= j → j ≠ k → j * PageSize + PageSize <= Z.of_nat (length (swapFile s)) →
         slice (swapFile s2) (j * PageSize) = slice (swapFile s) (j * PageSize)) →
  evicted s (final l) p a v e'.
Proof.
  intros Hnd Hin Hpg Hex Hby Hwh.
  assert (at_ (IPT s2) p = Some i) as Hat2 by (by rewrite HI).
  destruct (vset_at _ _ x _ Hat2) as (_ & Hlen & Hatx).
  constructor; try done.
  - cbn. by rewrite Hlen, HI.
  - intros q. change (own (final l) q) with (own (with_IPT (<[Z.to_nat p := x]> (IPT s2)) s2) q).
    rewrite (own_set _ _ _ _ _ Hat2). case_decide; [done|]. unfold own. by rewrite HI.
  - intros q i'. cbn. rewrite Hatx. case_decide; [by intros [= <-]|]. rewrite HI. apply (vi_phys _ _ Hi).
  - intros q i' Hq. cbn. rewrite Hatx, decide_False by done. by rewrite HI.
  - destruct Hwh as [(? & ? & ? & Hd)|?]; [left|by right]. split_and!; try done.
    intros i' Hi'. congruence.
Qed.
End unlink.

Lemma evict_spec s p a v e (Q : Z → VM → Prop) : vm_inv (-1) s → own s p = Some (a, v) →
  page_of s a v = Some e → 0 <= p < NumPhysPages →
  (∀ s' e', evicted s s' p a v e' → virtualPage (pte e') = v →
     (location e' = EXEC → byteOffset e' = byteOffset e) → Q p s') →
  wp halts (page_out p ;;; unlink p) Q s.
Proof.
  intros Hi Hown He Hp HQ. destruct (own_at _ _ _ Hown) as (i & Hat & Hv & [= -> ->]).
  pose proof (vi_virtual _ _ Hi _ _ _ He) as [Hvirt _]. set (v := virtualPage (ipte i)) in *.
  unfold page_out. apply wp_bind, wp_bind. eapply wp_get_IPT; [done|]. cbn zeta. fold v.
  apply wp_bind. eapply wp_get_page; [done|]. rewrite Hv, andb_true_r. destruct (dirty (ipte i)) eqn:Hd.
  - apply wp_bind. eapply wp_set_page; [done|]. set (s1 := with_space _ _ s).
    assert (page_of s1 (PID i) v = Some (mkPTE (pte e) SWAP (byteOffset e))) as He1
      by (unfold s1; rewrite (page_of_set _ _ _ e); [by rewrite decide_True|done]).
    destruct (vi_swapmap _ _ Hi) as [Hw Hn].
    apply wp_bind, (writePageToSwap_spec p i s1); [apply Hi|done|done|done|done|by rewrite Hv, Hd|].
    intros k b f Hk Hu Hwb Hnb Hub Hf Hl Hb.
    destruct (write_page (swapFile s) (frame_of s p) k) as (f' & Hf' & Hw1 & Hw2 & Hw3 & Hw4 & Hw5); [lia|done|].
    assert (f' = f) as -> by (cbn in Hf; unfold s1, frame_of in *; cbn in *; congruence).
    eapply wp_set_page; [exact He1|]. eapply (unlink_spec s _ p (PID i) v i); try done.
    intros l Hnd Hin. apply (HQ _ (mkPTE (set_dirty true (pte e)) SWAP (k * PageSize))); [|cbn; exact Hvirt|done].
    eapply (unlink_evicted s); try done.
    + intros a' v'. unshelve erewrite (page_of_set (with_swap b f s1)); [exact (mkPTE (pte e) SWAP (byteOffset e))| |exact He1].
      case_decide; [done|]. change (page_of (with_swap b f s1) a' v') with (page_of s1 a' v'). unfold s1.
      rewrite (page_of_set _ _ _ e) by done. by rewrite decide_False.
    + intros a'. rewrite executable_set. cbn. destruct (decide (a' = PID i)) as [->|];
        [by rewrite fn_lookup_insert|by rewrite fn_lookup_insert_ne].
    + apply Hw5; [apply (vi_bytes _ _ Hi)|done].
    + right. split_and!; try done. exists k. split_and!; try done; lia.
  - eapply wp_set_page; [done|]. eapply (unlink_spec s _ p (PID i) v i); try done.
    intros l Hnd Hin. apply (HQ _ (mkPTE (pte e) EXEC (byteOffset e))); [|exact Hvirt|done].
    eapply (unlink_evicted s); try done.
    + intros a' v'. by rewrite (page_of_set _ _ _ e).
    + intros a'. by rewrite executable_set.
    + apply (vi_bytes _ _ Hi).
    + by left.
Qed.

Lemma own_range hole s p x : vm_inv hole s → own s p = Some x → 0 <= p < NumPhysPages.
Proof.
  intros Hi (i & Hat & _)%own_at. apply at_range in Hat. rewrite (vi_length _ _ Hi) in Hat.
  unfold NumPhysPages in *. lia.
Qed.

(** What a fault keeps for the pages that are not in memory. *)
Definition keeps_absent (s s' : VM) : Prop :=
  currentSpace s' = currentSpace s ∧ (∀ a, executable (spaces s' a) = executable (spaces s a)) ∧
  ∀ a v e, page_of s a v = Some e → location e ≠ MAIN → page_of s' a v = Some e.

Lemma handleMemoryFull_spec fifo rand s : vm_inv (-1) s →
  (∀ p, 0 <= p < NumPhysPages → is_Some (own s p)) → 0 <= rand →
  wp halts (handleMemoryFull fifo rand) (λ p s', 0 <= p < NumPhysPages ∧ vm_inv p s' ∧
    keeps_content s s' ∧ keeps_absent s s') s.
Proof.
  intros Hi Hfull Hrand. unfold handleMemoryFull. apply wp_bind, wp_get, wp_bind.
  assert (∀ p, is_Some (own s p) → wp halts (ASSERT ((0 <=? p) && (p <? NumPhysPages)) ;;;
    let! i := get_IPT p in ASSERT (valid (ipte i)) ;;; unmap_frame p ;;; page_out p ;;; unlink p)
    (λ p s', 0 <= p < NumPhysPages ∧ vm_inv p s' ∧ keeps_content s s' ∧ keeps_absent s s') s) as Hgo.
  { intros p Hown. destruct Hown as [[a v] Hown]. pose proof (own_range _ _ _ _ Hi Hown) as Hp.
    destruct (own_at _ _ _ Hown) as (i & Hat & Hv & _).
    apply wp_bind, wp_ASSERT; [intros _|lia]. apply wp_bind. eapply wp_get_IPT; [done|].
    apply wp_bind, wp_ASSERT; [intros _|by rewrite Hv]. apply wp_bind.
    eapply wp_mono; [by apply (unmap_frame_spec halts (-1) s p Hi)|]. cbn.
    intros _ s1 [(Hi1 & Ho1 & Hk1 & Hsp1 & Hcs1 & _) Hfree].
    assert (own s1 p = Some (a, v)) as Hown1 by (by rewrite Ho1).
    destruct (proj1 (vi_pages _ _ Hi1 p a v) Hown1) as (e & He & Hmain & Hphys).
    eapply evict_spec; [exact Hi1|exact Hown1|exact He|done|]. intros s' e' Hev Hvirt Hoff.
    split; [done|]. split; [by eapply (evicted_inv s1 s' p a v e e')|]. split.
    - intros a' v' bs Hc. eapply (evicted_content s1 s' p a v e e'); [done..|]. by apply Hk1.
    - destruct (ev_current _ _ _ _ _ _ Hev) as [Hcs _]. split_and!; [congruence| |].
      + intros a'. by rewrite (ev_exec _ _ _ _ _ _ Hev), Hsp1.
      + intros a' v' x Hx Hlx. rewrite (ev_pages _ _ _ _ _ _ Hev). unfold page_of in *. rewrite Hsp1 in *.
        rewrite decide_False; [done|]. intros [-> ->]. congruence. }
  destruct fifo.
  - destruct (vi_fifo _ _ Hi) as [_ Hin]. destruct (Hfull 0) as [x0 Hx0]; [unfold NumPhysPages; lia|].
    destruct (FIFOList s) as [|p q] eqn:HF; [exfalso; by apply (not_elem_of_nil 0), Hin; eexists|].
    eapply wp_lift; [reflexivity|]. apply Hgo, Hin. by left.
  - apply wp_ret, Hgo, Hfull. pose proof (Z.rem_bound_pos rand NumPhysPages). unfold NumPhysPages in *. lia.
Qed.

(** ** Bringing a page in *)

Record loaded (s s' : VM) (p : Z) (a : nat) (v : Z) (e : PageTableEntry) : Prop := {
  ld_wf : machine_wf (machine s');
  ld_tlb : tlb (machine s') = tlb (machine s);
  ld_other : ∀ q, 0 <= q → q ≠ p → frame_of s' q = frame_of s q;
  ld_fill : ∀ bs, content s a v bs → frame_of s' p = bs;
  ld_length : length (IPT s') = length (IPT s);
  ld_ipt : ∀ q, at_ (IPT s') q = if decide (q = p)
    then Some (mkIPTE (set_valid true (set_physicalPage p (pte e))) a) else at_ (IPT s) q;
  ld_bits : pageTableBitMap s' = pageTableBitMap s;
  ld_fifo : FIFOList s' = FIFOList s ++ [p];
  ld_pages : ∀ a' v', page_of s' a' v' = if decide (a' = a ∧ v' = v)
    then Some (mkPTE (set_valid true (set_physicalPage p (pte e))) MAIN (byteOffset e)) else page_of s a' v';
  ld_exec : ∀ a', executable (spaces s' a') = executable (spaces s a');
  ld_current : currentSpace s' = currentSpace s ∧ currentTLB s' = currentTLB s;
  ld_swapfile : swapFile s' = swapFile s;
  ld_swapmap : wf (swapBitMap s') ∧ numBits (swapBitMap s') = NumSwapPages;
  ld_swapused : ∀ k, 0 <= k < NumSwapPages → used (swapBitMap s) k = true →
    (location e = SWAP → byteOffset e ≠ k * PageSize) → used (swapBitMap s') k = true
}.

Section loaded.
Context (s s' : VM) (p : Z) (a : nat) (v : Z) (e : PageTableEntry).
Context (Hi : vm_inv p s) (Hp : 0 <= p) (He : page_of s a v = Some e) (Hnot : location e ≠ MAIN).
Context (Hld : loaded s s' p a v e).

Lemma loaded_own q : own s' q = if decide (q = p) then Some (a, v) else own s q.
Proof.
  unfold own. rewrite (ld_ipt _ _ _ _ _ _ Hld). case_decide; [|done]. cbn.
  by rewrite (proj1 (vi_virtual _ _ Hi _ _ _ He)).
Qed.

Lemma loaded_tlb j : tlb_at s' j = tlb_at s j.
Proof. unfold tlb_at. by rewrite (ld_tlb _ _ _ _ _ _ Hld). Qed.

Lemma loaded_hole : own s p = None.
Proof. apply (vi_hole _ _ Hi). Qed.

Lemma loaded_pages q a' v' : own s' q = Some (a', v') ↔
  ∃ x, page_of s' a' v' = Some x ∧ location x = MAIN ∧ physicalPage (pte x) = q.
Proof.
  rewrite loaded_own, (ld_pages _ _ _ _ _ _ Hld). pose proof loaded_hole as Hh.
  pose proof (vi_pages _ _ Hi q a' v') as Hpg. split.
  - case_decide as Hq.
    + intros [= -> ->]. rewrite decide_True by done. by eexists.
    + intros Ho. destruct (proj1 Hpg Ho) as (x & Hx & Hl & Hph). exists x.
      rewrite decide_False; [done|]. intros [-> ->]. congruence.
  - intros (x & Hx & Hl & Hph). case_decide as Hav.
    + destruct Hav as [-> ->]. injection Hx as <-. cbn in Hph. by rewrite decide_True.
    + assert (own s q = Some (a', v')) as Ho by (apply Hpg; by exists x).
      rewrite decide_False; [done|]. congruence.
Qed.

Lemma loaded_inv : vm_inv (-1) s'.
Proof.
  pose proof loaded_own as Ho. pose proof loaded_hole as Hh.
  destruct (ld_current _ _ _ _ _ _ Hld) as [Hcs Hct].
  constructor; rewrite ?(ld_length _ _ _ _ _ _ Hld), ?(ld_bits _ _ _ _ _ _ Hld), ?Hct, ?Hcs,
    ?(ld_swapfile _ _ _ _ _ _ Hld), ?(ld_tlb _ _ _ _ _ _ Hld); try apply Hi; try apply Hld.
  - intros j x. rewrite loaded_tlb. intros Hj Hv. pose proof (vi_tlb _ _ Hi j x Hj Hv) as Hx.
    rewrite Ho, decide_False; [done|]. congruence.
  - intros j j' x x'. rewrite !loaded_tlb. apply (vi_tlb_once _ _ Hi).
  - intros q i. rewrite (ld_ipt _ _ _ _ _ _ Hld). case_decide; [by intros [= <-]|apply (vi_phys _ _ Hi)].
  - intros q Hq. rewrite (vi_used _ _ Hi q Hq), Ho. case_decide; subst.
    + by rewrite Hh, Z.eqb_refl.
    + destruct (own s q); [done|]. lia.
  - rewrite Ho, decide_False by lia. split; [|done]. unfold own, at_. done.
  - rewrite (ld_fifo _ _ _ _ _ _ Hld). destruct (vi_fifo _ _ Hi) as [Hnd Hin]. split.
    + apply NoDup_app. split_and!; [done| |apply NoDup_singleton].
      intros q Hq ->%list_elem_of_singleton. apply Hin in Hq as [? ?]. congruence.
    + intros q. rewrite elem_of_app, list_elem_of_singleton, Hin, Ho. case_decide; [by split; [eexists|auto]|tauto].
  - apply loaded_pages.
  - intros a' v' x. rewrite (ld_pages _ _ _ _ _ _ Hld). case_decide as Hav; [|apply (vi_virtual _ _ Hi)].
    destruct Hav as [-> ->]. intros [= <-]. cbn. by apply (vi_virtual _ _ Hi _ _ _ He).
  - intros a' v' x. rewrite (ld_pages _ _ _ _ _ _ Hld). case_decide as Hav; [intros [= <-]; done|].
    intros Hx Hl. destruct (vi_swap _ _ Hi _ _ _ Hx Hl) as (? & k & Hk & Hoff & Hu & Hend).
    split; [done|]. exists k. split_and!; try done; try lia. apply (ld_swapused _ _ _ _ _ _ Hld); [done..|].
    intros Hle Heq. apply Hav. apply (vi_swap_once _ _ Hi a' v' x a v e); congruence.
  - intros a1 v1 x1 a2 v2 x2. rewrite !(ld_pages _ _ _ _ _ _ Hld).
    do 2 (case_decide; [intros; simplify_eq|]). apply (vi_swap_once _ _ Hi).
  - split; [apply (vi_bytes _ _ Hi)|]. intros a'. rewrite (ld_exec _ _ _ _ _ _ Hld). apply (vi_bytes _ _ Hi).
Qed.

Lemma loaded_content : keeps_content s s'.
Proof.
  intros a' v' bs Hc. pose proof Hc as [Hl (x & Hx & Hx')]. split; [done|].
  rewrite (ld_pages _ _ _ _ _ _ Hld). case_decide as Hav.
  - destruct Hav as [-> ->]. eexists. split; [reflexivity|]. cbn. assert (x = e) as -> by congruence.
    split; [by apply (ld_fill _ _ _ _ _ _ Hld)|]. rewrite (ld_exec _ _ _ _ _ _ Hld).
    destruct (location e) eqn:Hle; [done|by right|done|]. left. left.
    destruct (vi_swap _ _ Hi _ _ _ He Hle) as [Hd _].
    eexists. rewrite (ld_ipt _ _ _ _ _ _ Hld), decide_True by done. by split.
  - exists x. split; [done|]. rewrite (ld_exec _ _ _ _ _ _ Hld), (ld_swapfile _ _ _ _ _ _ Hld).
    destruct (location x) eqn:Hlx; try done. destruct Hx' as [Hf Hd].
    assert (own s (physicalPage (pte x)) = Some (a', v')) as Ho by (apply (vi_pages _ _ Hi); by exists x).
    assert (physicalPage (pte x) ≠ p) as Hne by (intros Heq; pose proof loaded_hole; congruence).
    pose proof (own_range _ _ _ _ Hi Ho) as Hr. rewrite (ld_other _ _ _ _ _ _ Hld) by lia. split; [done|].
    destruct Hd as [Hd|Hd]; [left|by right]. destruct Hd as [(i & Hi' & Hd)|(j & y & Hj & Hv & Hy & Hd)].
    + left. exists i. by rewrite (ld_ipt _ _ _ _ _ _ Hld), decide_False.
    + right. exists j, y. by rewrite loaded_tlb.
Qed.
End loaded.

Lemma load_frame_spec E p bs s (Q : unit → VM → Prop) : machine_wf (machine s) → 0 <= p < NumPhysPages →
  (length bs <= Z.to_nat PageSize)%nat → Forall byte bs →
  (∀ mem, let s' := with_machine (with_memory mem (machine s)) s in machine_wf (machine s') →
     (∀ q, 0 <= q → q ≠ p → frame_of s' q = frame_of s q) →
     (length bs = Z.to_nat PageSize → frame_of s' p = bs) → Q () s') →
  wp E (load_frame p bs) Q s.
Proof.
  intros Hm Hp Hl Hb HQ. apply wp_bind, wp_get, wp_bind. pose proof (mw_memory _ Hm) as Hlen.
  assert (PageSize * p + Z.of_nat (length bs) <= Z.of_nat (length (mainMemory (machine s)))) as Hend.
  { rewrite Hlen. unfold MemorySize, NumPhysPages, PageSize, SectorSize in *. lia. }
  assert (0 <= PageSize * p) as H0 by (unfold PageSize, SectorSize; lia).
  pose proof (mem_write_in _ _ _ H0 Hend) as Hw. pose proof (mem_write_written _ _ _ _ Hw) as Hwr.
  eapply wp_lift; [exact Hw|]. apply wp_put, HQ; [by eapply memory_wf| |].
  - intros q Hq Hne. apply slice_ext. intros m Hmm. cbn. destruct Hwr as (_ & _ & Ho). apply Ho.
    unfold PageSize, SectorSize in *. lia.
  - intros Hfull. apply written_read in Hwr. unfold frame_of, slice. cbn -[Z.to_nat PageSize].
    by rewrite <- Hfull.
Qed.

Lemma page_in_spec s p v e (Q : unit → VM → Prop) : vm_inv p s → 0 <= p < NumPhysPages →
  page_of s (currentSpace s) v = Some e → location e ≠ MAIN →
  (location e = EXEC → 0 <= byteOffset e) →
  (∀ s', loaded s s' p (currentSpace s) v e → Q () s') →
  wp halts (page_in v p) Q s.
Proof.
  intros Hi Hp He Hnot Hoff HQ. unfold page_in. apply wp_bind, wp_get. cbn zeta. set (a := currentSpace s) in *.
  apply wp_bind. eapply wp_get_page; [done|]. apply wp_bind.
  destruct (at_in (IPT s) p) as [i Hat]; [rewrite (vi_length _ _ Hi); unfold NumPhysPages in *; lia|].
  set (e' := mkPTE (set_valid true (set_physicalPage p (pte e))) MAIN (byteOffset e)).
  assert (∀ mem b, let s1 := with_machine (with_memory mem (machine s)) (with_swap b (swapFile s) s) in
    machine_wf (machine s1) → (∀ q, 0 <= q → q ≠ p → frame_of s1 q = frame_of s q) →
    (∀ bs, content s a v bs → frame_of s1 p = bs) →
    wf b → numBits b = NumSwapPages →
    (∀ k, 0 <= k < NumSwapPages → used (swapBitMap s) k = true →
      (location e = SWAP → byteOffset e ≠ k * PageSize) → used b k = true) →
    wp halts (set_page a v e' ;;; set_IPT p (mkIPTE (pte e') a) ;;;
      let! s := get in put (with_FIFO (FIFOList s ++ [p]) s)) Q s1) as Hend.
  { intros mem b s1 Hwf Hother Hfill Hb Hn Hu. apply wp_bind. eapply (wp_set_page _ a v e); [done|].
    apply wp_bind. eapply wp_set_IPT; [done|]. apply wp_bind, wp_get, wp_put, HQ.
    constructor; try done.
    - cbn. apply length_insert.
    - intros q. cbn. destruct (vset_at _ _ (mkIPTE (pte e') a) _ Hat) as (_ & _ & ->). done.
    - intros a' v'. exact (page_of_set s1 a v e e' a' v' He).
    - intros a'. exact (executable_set s1 a _ a'). }
  pose proof (vi_machine _ _ Hi) as Hm. destruct (vi_swapmap _ _ Hi) as [Hw Hn].
  assert (with_machine (with_memory (mainMemory (machine s)) (machine s)) (with_swap (swapBitMap s) (swapFile s) s) = s)
    as Hsame by (by destruct s as [[]]).
  destruct (location e) eqn:Hl; [| |done|].
  - apply wp_ret. rewrite <- Hsame at 1. apply Hend; rewrite ?Hsame; try done.
    intros bs [_ (x & Hx & Hc)]. assert (x = e) as -> by congruence. by rewrite Hl in Hc.
  - destruct (host_read_spec (executable (spaces s a)) PageSize (byteOffset e)) as (bs & Hr & Hlb & Hbb & _); [auto|].
    apply wp_bind. eapply wp_lift; [done|].
    apply load_frame_spec; [done|done|done|apply Hbb, (vi_bytes _ _ Hi)|].
    intros mem s1 Hwf Hother Hfill. apply (Hend mem (swapBitMap s)); try done.
    intros bs' [Hl' (x & Hx & Hc)]. assert (x = e) as -> by congruence. rewrite Hl in Hc.
    assert (bs' = bs) as -> by congruence. by apply Hfill.
  - destruct (vi_swap _ _ Hi _ _ _ He Hl) as (_ & k & Hk & Hko & Hku & Hend').
    unfold readPageFromSwapToPPN. cbn zeta. apply wp_bind, wp_get, wp_bind. rewrite Hko, Z.quot_mul by done.
    destruct (Clear_spec _ k Hw) as (b & Hc & Hwb & Hnb & Hub); [lia|].
    eapply wp_lift; [done|]. apply wp_bind, wp_put, wp_bind.
    destruct (host_read_spec (swapFile s) PageSize (k * PageSize)) as (bs & Hr & Hlb & Hbb & Hbs).
    { unfold PageSize, SectorSize. lia. }
    eapply wp_lift; [done|].
    apply load_frame_spec; [done|done|done|apply Hbb, (vi_bytes _ _ Hi)|].
    intros mem s1 Hwf Hother Hfill. apply (Hend mem b); try done; [|lia|].
    + intros bs' [Hl' (x & Hx & Hcx)]. assert (x = e) as -> by congruence. rewrite Hl, Hko in Hcx.
      unfold slice in Hcx. rewrite <- Hbs in Hcx. subst bs'. by apply Hfill.
    + intros j Hj Huj Hne. rewrite Hub, Huj, andb_true_r by lia. specialize (Hne eq_refl).
      destruct (Z.eqb_spec j k); [congruence|done].
Qed.

(** ** A page fault *)

Lemma with_frames_inv s b k : vm_inv (-1) s → 0 <= k < NumPhysPages → used (pageTableBitMap s) k = false →
  wf b → numBits b = numBits (pageTableBitMap s) →
  (∀ j, 0 <= j → used b j = (j =? k) || used (pageTableBitMap s) j) → vm_inv k (with_frames b s).
Proof.
  intros Hi Hk Hu Hb Hn Hub. pose proof (vi_used _ _ Hi k Hk) as Hk'. rewrite Hu in Hk'.
  assert (own s k = None) as Hnone by (by destruct (own s k)).
  destruct (vi_frames _ _ Hi) as [_ Hnum]. destruct Hi. constructor; try done; cbn.
  - split; [done|congruence].
  - intros p Hp. rewrite Hub, vi_used0 by lia. change (own (with_frames b s) p) with (own s p).
    destruct (Z.eqb_spec p k) as [->|Hne]; [by rewrite Hnone|]. destruct (own s p); [done|]. cbn. lia.
  - split; [exact Hnone|]. lia.
Qed.

(** A frame is found or made free, then the page is brought in. *)
Lemma handleIPTmiss_frame (Er : fault → Prop) fifo rand s v Q : vm_inv (-1) s → 0 <= rand → (∀ f, halts f → Er f) →
  (∀ p s1, 0 <= p < NumPhysPages → vm_inv p s1 → keeps_content s s1 → keeps_absent s s1 → wp Er (page_in v p ;;; ret p) Q s1) →
  wp Er (handleIPTmiss fifo rand v) Q s.
Proof.
  intros Hi Hrand HEr Hin. unfold handleIPTmiss. apply wp_bind, wp_get, wp_bind. destruct (vi_frames _ _ Hi) as [Hw Hn].
  destruct (Find_cases _ Hw) as [[Hf Hall]|(k & b & Hf & Hk & Hu & _ & Hb & Hnb & Hub)].
  - eapply wp_lift; [exact Hf|]. apply wp_bind, wp_put. cbn [fst snd]. rewrite Z.eqb_refl.
    assert (with_frames (pageTableBitMap s) s = s) as -> by (by destruct s).
    apply wp_bind. eapply wp_mono; [eapply wp_faults; [exact HEr|apply handleMemoryFull_spec; [done| |done]]|].
    + intros p Hp. specialize (Hall p). rewrite Hn in Hall. specialize (Hall Hp).
      rewrite (vi_used _ _ Hi p Hp) in Hall. destruct (own s p); [by eexists|lia].
    + cbn. intros p s1 (Hp & Hi1 & Hc1 & Ha1). by apply Hin.
  - eapply wp_lift; [exact Hf|]. apply wp_bind, wp_put. cbn [fst snd].
    rewrite (proj2 (Z.eqb_neq _ _)) by lia. apply wp_bind, wp_ret. rewrite Hn in Hk. apply Hin; [done| | |].
    + by apply with_frames_inv.
    + by intros a' v' bs.
    + done.
Qed.

Lemma handleIPTmiss_spec fifo rand s v e : vm_inv (-1) s → page_of s (currentSpace s) v = Some e →
  location e ≠ MAIN → (location e = EXEC → 0 <= byteOffset e) → 0 <= rand →
  wp halts (handleIPTmiss fifo rand v) (λ p s', vm_inv (-1) s' ∧ keeps_content s s' ∧
    currentSpace s' = currentSpace s ∧ own s' p = Some (currentSpace s, v) ∧ 0 <= p ∧
    ∀ j x, tlb_at s' j = Some x → valid x = true → physicalPage x ≠ p) s.
Proof.
  intros Hi He Hnot Hoff Hrand. apply handleIPTmiss_frame; [done..|].
  intros p s1 Hp Hi1 Hc1 (Hcs & _ & Habs). apply wp_bind.
  pose proof (Habs _ _ _ He Hnot) as He1. rewrite <- Hcs in He1.
  eapply (page_in_spec s1 p v e); [exact Hi1|exact Hp|exact He1|done|done|]. intros s' Hld. apply wp_ret.
  split; [by eapply loaded_inv; [..|exact Hld]; try done; lia|]. split.
  { intros a' v' bs Hc. eapply loaded_content; [..|exact Hld|by apply Hc1]; try done; lia. }
  destruct (ld_current _ _ _ _ _ _ Hld) as [Hcs' _]. split_and!; [congruence| |lia|].
  2: { intros j x. rewrite (loaded_tlb s1 s' p _ v e Hld). intros Hj Hv Hx.
       pose proof (vi_tlb _ _ Hi1 j x Hj Hv) as Ho. rewrite Hx, (loaded_hole s1 p Hi1) in Ho. done. }
  rewrite (loaded_own s1 s' p _ v e Hi1 He1 Hld), decide_True by done. congruence.
Qed.

(** A page that is said to be in the executable before its first byte is not
    brought in. *)
Lemma handleIPTmiss_lost fifo rand s v e : vm_inv (-1) s → page_of s (currentSpace s) v = Some e →
  location e = EXEC → byteOffset e < 0 → 0 <= rand →
  wp (λ f, f = Halted ∨ f = AssertFailed) (handleIPTmiss fifo rand v) (λ _ _, False) s.
Proof.
  intros Hi He Hloc Hoff Hrand. apply handleIPTmiss_frame; [done|done|by left|].
  intros p s1 Hp _ _ (Hcs & _ & Habs). pose proof (Habs _ _ _ He ltac:(congruence)) as He1. rewrite <- Hcs in He1.
  unfold page_in. apply wp_bind, wp_bind, wp_get, wp_bind. eapply wp_get_page; [exact He1|]. rewrite Hloc.
  unfold ReadAt. rewrite (proj2 (Z.leb_gt 0 (byteOffset e))) by lia. apply wp_bind, wp_bind. by right.
Qed.

Lemma with_currentTLB_steps s k : vm_inv (-1) s → 0 <= k < TLBSize →
  vm_inv (-1) (with_currentTLB k s) ∧ keeps_content s (with_currentTLB k s).
Proof. intros Hi Hk. split; [by destruct Hi; constructor|by intros a v bs]. Qed.

Lemma populate_spec s p v : vm_inv (-1) s → own s p = Some (currentSpace s, v) →
  (∀ j x, tlb_at s j = Some x → valid x = true → physicalPage x ≠ p) →
  wp halts (populateTLBFromIPTEntry p) (λ _ s', vm_inv (-1) s' ∧ keeps_content s s' ∧
    currentSpace s' = currentSpace s ∧ own s' p = Some (currentSpace s, v) ∧
    ∃ j x, tlb_at s' j = Some x ∧ valid x = true ∧ virtualPage x = v ∧ physicalPage x = p) s.
Proof.
  intros Hi Hown Hno. unfold populateTLBFromIPTEntry. apply wp_bind, wp_get.
  pose proof (vi_current _ _ Hi) as Hcur.
  destruct (tlb_slot _ _ _ Hi Hcur) as [old Hold]. apply wp_bind.
  eapply wp_mono; [by apply (propogate_spec halts _ _ _ old Hi)|]. cbn. intros _ s1 (Hst & Hm & Hd).
  assert (∀ j, tlb_at s1 j = tlb_at s j) as Htlb by (intros j; unfold tlb_at; by rewrite Hm).
  pose proof Hst as (Hi1 & Ho1 & Hk1 & _ & Hcs1 & Hct1 & _).
  assert (own s1 p = Some (currentSpace s, v)) as Hown1 by (by rewrite Ho1).
  destruct (own_at _ _ _ Hown1) as (i & Hat & Hv & [= Ha Hvp]).
  pose proof (vi_phys _ _ Hi1 _ _ Hat Hv) as Hph.
  apply wp_bind. eapply wp_get_IPT; [done|]. apply wp_bind.
  eapply wp_mono; [eapply (overwrite_spec halts (-1) s1 _ old); [done|by rewrite Htlb| |done]|].
  - intros _. rewrite Hph, Hown1, Hcs1, Hvp. split; [done|]. intros j' e'. rewrite Htlb. intros Hj Hv' Hp'.
    by destruct (Hno _ _ Hj Hv').
  - cbn. intros _ s2 [(Hi2 & Ho2 & Hk2 & _ & Hcs2 & Hct2 & _) Hat2]. apply wp_modify.
    destruct (with_currentTLB_steps s2 (Z.rem (currentTLB s + 1) TLBSize) Hi2) as [Hi3 Hk3].
    { unfold TLBSize in *. pose proof (Z.rem_bound_pos (currentTLB s + 1) 4). lia. }
    split; [done|]. split; [intros a' v' bs Hc; by apply Hk3, Hk2, Hk1|]. split; [cbn; congruence|].
    split; [change (own s2 p = Some (currentSpace s, v)); congruence|].
    exists (currentTLB s), (ipte i). split; [|done].
    change (tlb_at s2 (currentTLB s) = Some (ipte i)). by rewrite Hat2, decide_True.
Qed.

(** The search of [handleTLBMiss] finds the frame of the page, if it has one. *)
Lemma ipt_search s v : vm_inv (-1) s →
  let p := find_index (ipt_match (currentSpace s) v) (take (Z.to_nat NumPhysPages) (IPT s)) in
  (p = -1 ∧ ∀ q, own s q ≠ Some (currentSpace s, v)) ∨
  (0 <= p ∧ own s p = Some (currentSpace s, v)).
Proof.
  intros Hi. cbn zeta. rewrite take_ge by (rewrite (vi_length _ _ Hi); lia).
  assert (∀ i, ipt_match (currentSpace s) v i = true ↔
    valid (ipte i) = true ∧ PID i = currentSpace s ∧ virtualPage (ipte i) = v) as Hm.
  { intros i. unfold ipt_match. rewrite !andb_true_iff, bool_decide_eq_true, Z.eqb_eq. tauto. }
  destruct (find_index_spec (ipt_match (currentSpace s) v) (IPT s)) as [[-> Hnone]|(k & i & -> & Hk & Hi' & _)].
  - left. split; [done|]. intros q Hq. destruct (own_at _ _ _ Hq) as (i & Hat & Hv & [= Ha Hvp]).
    unfold at_ in Hat. destruct (0 <=? q); [|done]. specialize (Hnone _ _ Hat).
    assert (ipt_match (currentSpace s) v i = true) as Ht by (by apply Hm). congruence.
  - right. split; [lia|]. apply Hm in Hi' as (Hv & Ha & Hp). unfold own, at_.
    rewrite (proj2 (Z.leb_le 0 (Z.of_nat k))), Nat2Z.id, Hk, Hv by lia. congruence.
Qed.

Lemma handleTLBMiss_wp fifo rand s VA e : vm_inv (-1) s → at_ (registers (machine s)) BadVAddrReg = Some VA →
  page_of s (currentSpace s) (u32 VA / PageSize) = Some e →
  (location e = EXEC → 0 <= byteOffset e) → 0 <= rand →
  (∀ j x, tlb_at s j = Some x → valid x = true → virtualPage x ≠ u32 VA / PageSize) →
  wp halts (handleTLBMiss fifo rand) (λ _ s', vm_inv (-1) s' ∧ keeps_content s s' ∧
    currentSpace s' = currentSpace s ∧
    ∃ j x, tlb_at s' j = Some x ∧ valid x = true ∧ virtualPage x = u32 VA / PageSize ∧
      own s' (physicalPage x) = Some (currentSpace s, u32 VA / PageSize)) s.
Proof.
  intros Hi HVA He Hoff Hrand Hmiss. unfold handleTLBMiss. set (v := u32 VA / PageSize) in *.
  apply wp_bind, wp_get, wp_bind. eapply wp_lift; [by apply at_vget|]. cbn zeta. fold v.
  assert (∀ p s1, vm_inv (-1) s1 → keeps_content s s1 → currentSpace s1 = currentSpace s →
    own s1 p = Some (currentSpace s, v) →
    (∀ j x, tlb_at s1 j = Some x → valid x = true → physicalPage x ≠ p) →
    wp halts (populateTLBFromIPTEntry p) (λ _ s', vm_inv (-1) s' ∧ keeps_content s s' ∧
      currentSpace s' = currentSpace s ∧ ∃ j x, tlb_at s' j = Some x ∧ valid x = true ∧ virtualPage x = v ∧
        own s' (physicalPage x) = Some (currentSpace s, v)) s1) as Hpop.
  { intros p s1 Hi1 Hk1 Hcs1 Hown Hno. rewrite <- Hcs1 in Hown.
    eapply wp_mono; [by apply (populate_spec s1 p v)|]. cbn.
    intros _ s' (Hi' & Hk' & Hcs' & Hown' & j & x & Hj & Hv & Hvp & Hp).
    split; [done|]. split; [intros a' v' bs Hc; by apply Hk', Hk1|]. split; [congruence|].
    exists j, x. split_and!; [done..|]. congruence. }
  apply wp_bind. destruct (ipt_search s v Hi) as [[Hp Hnone]|[Hp Hown]].
  - rewrite Hp, Z.eqb_refl. apply wp_bind. eapply wp_mono; [eapply (handleIPTmiss_spec fifo rand s v e); try done|].
    + intros Hmain. apply (Hnone (physicalPage (pte e))). apply (vi_pages _ _ Hi). by exists e.
    + cbn. intros p s1 (Hi1 & Hk1 & Hcs1 & Hown & Hp0 & Hno). apply wp_bind, wp_ASSERT; [intros _|lia].
      apply wp_ret. by apply Hpop.
  - rewrite (proj2 (Z.eqb_neq _ (-1))) by lia. apply wp_ret. apply Hpop; try done; [by intros a' v' bs|].
    intros j x Hj Hv Hx. pose proof (vi_tlb _ _ Hi j x Hj Hv) as Ho. rewrite Hx, Hown in Ho.
    injection Ho as Ho. by apply (Hmiss j x).
Qed.

Lemma handleTLBMiss_lost fifo rand s VA e : vm_inv (-1) s → at_ (registers (machine s)) BadVAddrReg = Some VA →
  page_of s (currentSpace s) (u32 VA / PageSize) = Some e → location e = EXEC → byteOffset e < 0 → 0 <= rand →
  wp (λ f, f = Halted ∨ f = AssertFailed) (handleTLBMiss fifo rand) (λ _ _, False) s.
Proof.
  intros Hi HVA He Hloc Hoff Hrand. unfold handleTLBMiss.
  apply wp_bind, wp_get, wp_bind. eapply wp_lift; [by apply at_vget|]. cbn zeta.
  destruct (ipt_search s (u32 VA / PageSize) Hi) as [[Hp Hnone]|[Hp Hown]].
  - rewrite Hp, Z.eqb_refl. apply wp_bind, wp_bind. eapply wp_mono; [by eapply handleIPTmiss_lost|done].
  - destruct (proj1 (vi_pages _ _ Hi _ _ _) Hown) as (e' & He' & Hm & _). congruence.
Qed.

(** ** The hardware over a consistent TLB *)

Section hardware.
Context (s : VM) (Hi : vm_inv (-1) s).

Lemma vm_tlb : ∃ t, tlb (machine s) = Some t ∧ pageTable (machine s) = None.
Proof.
  destruct (vi_has_tlb _ _ Hi) as [t Ht]. exists t. split; [done|].
  pose proof (mw_table _ (vi_machine _ _ Hi)) as Hm. rewrite Ht in Hm. by destruct (pageTable (machine s)).
Qed.

Lemma tlb_entry j x : tlb_at s j = Some x → valid x = true →
  own s (physicalPage x) = Some (currentSpace s, virtualPage x) ∧ frame x = physicalPage x ∧
  0 <= physicalPage x < NumPhysPages ∧ u32 (virtualPage x) = virtualPage x.
Proof.
  intros Hj Hv. pose proof (vi_tlb _ _ Hi j x Hj Hv) as Ho. pose proof (own_range _ _ _ _ Hi Ho) as Hr.
  destruct (proj1 (vi_pages _ _ Hi _ _ _) Ho) as (e & He & _ & _).
  destruct (vi_virtual _ _ Hi _ _ _ He) as [_ Hb]. assert (0 <= virtualPage x).
  { unfold page_of in He. apply at_range in He. lia. }
  unfold frame, u32, NumPhysPages, PageSize, SectorSize in *. split_and!; [done| |lia..|];
    apply Z.mod_small; [lia|]. change (2 ^ 32 / 128) with (2 ^ 25) in Hb. lia.
Qed.

Lemma tlb_hit j x : tlb_at s j = Some x → valid x = true → hit (machine s) (virtualPage x) (InTLB j) x.
Proof.
  intros Hj Hv. destruct vm_tlb as (t & Ht & Hpt). destruct (tlb_at_Some _ _ _ Hj) as (t' & Ht' & Hat).
  assert (t' = t) as -> by congruence. destruct (tlb_entry _ _ Hj Hv) as (Ho & _ & _ & Hu).
  pose proof (at_range _ _ _ Hat) as Hr. replace j with (Z.of_nat (Z.to_nat j)) by lia.
  unfold at_ in Hat. rewrite (proj2 (Z.leb_le 0 j)) in Hat by lia.
  eapply hit_tlb; [done..|]. intros k y Hk Hy Hvy Huy.
  assert (tlb_at s (Z.of_nat k) = Some y) as Hky.
  { unfold tlb_at, at_. rewrite Ht, Nat2Z.id, (proj2 (Z.leb_le 0 (Z.of_nat k))) by lia. done. }
  destruct (tlb_entry _ _ Hky Hvy) as (Hoy & _ & _ & Huy'). rewrite <- Huy', Huy in Hoy.
  destruct (proj1 (vi_pages _ _ Hi _ _ _) Hoy) as (e1 & He1 & _ & Hp1).
  destruct (proj1 (vi_pages _ _ Hi _ _ _) Ho) as (e2 & He2 & _ & Hp2).
  assert (physicalPage y = physicalPage x) as Hp by congruence.
  pose proof (vi_tlb_once _ _ Hi _ _ _ _ Hky Hj Hvy Hv Hp). lia.
Qed.

Lemma hit_entry v q x : hit (machine s) v q x → ∃ j, q = InTLB j ∧ tlb_at s j = Some x ∧ valid x = true ∧
  virtualPage x = v ∧ own s (physicalPage x) = Some (currentSpace s, v) ∧ frame x = physicalPage x ∧
  0 <= physicalPage x < NumPhysPages.
Proof.
  destruct vm_tlb as (t & Ht & Hpt). intros H. destruct H as [t0 e Htlb|t0 k x Htlb Hpt0 Hk Hv Hu Hfirst]; [congruence|].
  assert (t0 = t) as -> by congruence. assert (tlb_at s (Z.of_nat k) = Some x) as Hj.
  { unfold tlb_at, at_. rewrite Ht, Nat2Z.id, (proj2 (Z.leb_le 0 (Z.of_nat k))) by lia. done. }
  destruct (tlb_entry _ _ Hj Hv) as (Ho & Hf & Hr & Hu'). exists (Z.of_nat k).
  assert (virtualPage x = v) as <- by congruence. split_and!; try done; lia.
Qed.

(** The content of a page in memory is its frame. *)
Lemma content_frame p a v bs : own s p = Some (a, v) → content s a v bs → frame_of s p = bs.
Proof.
  intros Ho [_ (e & He & Hc)]. destruct (proj1 (vi_pages _ _ Hi _ _ _) Ho) as (e' & He' & Hm & Hp).
  assert (e' = e) as -> by congruence. rewrite Hm, Hp in Hc. by destruct Hc.
Qed.
End hardware.

(** ** References of the user program *)

Lemma with_machine_inv hole s m : vm_inv hole s → machine_wf m → tlb m = tlb (machine s) →
  vm_inv hole (with_machine m s).
Proof.
  intros Hi Hm Ht. assert (∀ j, tlb_at (with_machine m s) j = tlb_at s j) as Hj
    by (intros j; unfold tlb_at; cbn; by rewrite Ht).
  destruct Hi. constructor; try done; cbn.
  - by rewrite Ht.
  - intros j e. rewrite Hj. apply vi_tlb0.
  - intros j j' e e'. rewrite !Hj. apply vi_tlb_once0.
Qed.

Section access.
Context (s : VM) (Hi : vm_inv (-1) s) (addr size : Z) (Hsize : size = 1 ∨ size = 2 ∨ size = 4) (writing : bool).
Context (pa : Z) (m1 : Machine) (HT : Translate addr size writing (machine s) = Done (inr pa, m1)).

(** A reference that is translated reaches the frame of its page, and marks it. *)
Lemma access_spec : ∃ p j x, own s p = Some (currentSpace s, page addr) ∧ 0 <= p < NumPhysPages ∧
  pa = p * PageSize + u32 addr mod PageSize ∧ u32 addr mod PageSize + size <= PageSize ∧
  vm_inv (-1) (with_machine m1 s) ∧ keeps_content s (with_machine m1 s) ∧
  (∀ q, frame_of (with_machine m1 s) q = frame_of s q) ∧
  tlb_at (with_machine m1 s) j = Some x ∧ valid x = true ∧ physicalPage x = p ∧
  (writing = true → dirty x = true).
Proof.
  pose proof (Translate_Done addr size Hsize _ _ _ _ (vi_machine _ _ Hi) HT) as Htr.
  inversion Htr as [| | | | |q x Ha Hh Hro Hf H0 H1]; subst.
  destruct (hit_entry s Hi _ _ _ Hh) as (j & -> & Hj & Hv & Hvp & Hown & Hfr & Hr).
  destruct (place_bounds x addr size Hsize Ha Hf) as (_ & _ & Hpl & Hroom).
  destruct (tlb_at_Some _ _ _ Hj) as (t & Ht & Hat). cbn [put_entry]. rewrite Ht.
  set (y := marked x writing).
  assert (valid y = true → own s (physicalPage y) = Some (currentSpace s, virtualPage y) ∧
     ∀ j' e', tlb_at s j' = Some e' → valid e' = true → physicalPage e' = physicalPage y → j' = j) as Hy.
  { intros _. cbn. rewrite Hvp. split; [done|]. intros j' e' Hj' Hv' Hp'.
    by apply (vi_tlb_once _ _ Hi _ _ e' x). }
  exists (physicalPage x), j, y. unfold place in *. rewrite Hfr in *.
  split_and!; try done; try lia.
  - rewrite (Z.add_comm (physicalPage x * PageSize)), Z.mod_add, Z.mod_mod in Hroom by done. done.
  - by eapply (replace_tlb_inv (-1) s t j x y).
  - eapply (replace_tlb_content s t j x y Ht Hat). intros _ Hd. right. cbn. by rewrite Hd.
  - rewrite (tlb_at_set s t j x y j Ht Hat). by rewrite decide_True.
  - intros ->. cbn. by rewrite orb_true_r.
Qed.
End access.

(** ** Context switches *)

Lemma SaveState_loop_spec hole : ∀ n i s, vm_inv hole s → 0 <= i → i + Z.of_nat n = TLBSize →
  wp no_fault (SaveState_loop i n) (λ _ s', steps_to hole s s' ∧
    (∀ j, j < i → tlb_at s' j = tlb_at s j) ∧
    ∀ j x, i <= j → tlb_at s' j = Some x → valid x = false) s.
Proof.
  induction n as [|n IH]; intros i s Hi H0 Hn; cbn [SaveState_loop].
  - apply wp_ret. split_and!; [by apply steps_to_refl|done|]. intros j x Hj Hx.
    destruct (tlb_at_Some _ _ _ Hx) as (t & Ht & Hat). apply at_range in Hat.
    pose proof (mw_table _ (vi_machine _ _ Hi)) as Hl. rewrite Ht in Hl. destruct (pageTable (machine s)); [done|]. lia.
  - destruct (tlb_slot _ _ i Hi) as [e He]; [lia|]. apply wp_bind.
    eapply wp_mono; [by apply (propogate_spec no_fault _ _ _ e Hi)|]. cbn. intros _ s1 (Hst1 & Hm1 & Hd).
    assert (∀ j, tlb_at s1 j = tlb_at s j) as Htlb by (intros j; unfold tlb_at; by rewrite Hm1).
    apply wp_bind. eapply wp_get_tlb; [by rewrite Htlb|]. apply wp_bind.
    eapply wp_mono; [eapply (overwrite_spec no_fault hole s1 i e); [apply Hst1|by rewrite Htlb|done|done]|].
    cbn. intros _ s2 [Hst2 Hat]. eapply wp_mono; [apply (IH (i + 1) s2); [apply Hst2|lia|lia]|].
    cbn. intros _ s3 (Hst3 & Hlow & Hhigh). split_and!.
    + by eapply steps_to_trans, steps_to_trans.
    + intros j Hj. rewrite Hlow, Hat, decide_False, Htlb by lia. done.
    + intros j x Hj Hx. destruct (decide (j = i)) as [->|]; [|apply (Hhigh j x); [lia|done]].
      rewrite Hlow, Hat, decide_True in Hx by lia. by injection Hx as <-.
Qed.

(** [currentThread] is a thread of space [a]. *)
Definition with_currentSpace (a : nat) (s : VM) : VM :=
  mkVM (machine s) (IPT s) (pageTableBitMap s) (swapBitMap s) (swapFile s) (FIFOList s) (currentTLB s) (spaces s) a.

(** ** The first state *)

Lemma at_lookup {A} (l : list A) i x : at_ l i = Some x → l !! Z.to_nat i = Some x ∧ 0 <= i.
Proof. unfold at_. destruct (Z.leb_spec 0 i); [|done]. by intros ->. Qed.

Lemma new_AddrSpace_page file code initData uninitData addr v e :
  0 <= code + initData + uninitData < 2 ^ 31 →
  at_ (spaceTable (new_AddrSpace file code initData uninitData addr)) v = Some e →
  virtualPage (pte e) = v ∧ v < 2 ^ 32 / PageSize ∧ (location e = EXEC ∨ location e = VOID).
Proof.
  intros Hsz (Hv & H0)%at_lookup. cbn in Hv. apply list_lookup_fmap_Some in Hv as (i & -> & Hi).
  apply lookup_seq in Hi as [Hi Hlt]. rewrite Nat.add_0_l in Hi. subst i.
  unfold init_page. rewrite Z2Nat.id by done.
  assert (u32 (code + initData + uninitData) = code + initData + uninitData) as Hu
    by (unfold u32; apply Z.mod_small; lia). rewrite Hu in *.
  set (size := code + initData + uninitData) in *.
  pose proof (divRoundUp_spec size PageSize ltac:(lia) ltac:(done)) as Hd.
  pose proof (divRoundUp_nonneg size PageSize ltac:(lia) ltac:(done)) as Hd0.
  set (n := divRoundUp size PageSize) in *. change (divRoundUp UserStackSize PageSize) with 8 in Hlt.
  unfold PageSize, SectorSize in *. split_and!; [by case_match| |case_match; auto].
  unfold u32 in Hlt. rewrite Z.mod_small in Hlt by lia. change (2 ^ 32 / 128) with 33554432. lia.
Qed.

Definition fresh_vm (m : Machine) (ipt : list IPTEntry) (frames swap : BitMap) (sp : nat → AddrSpace) : VM :=
  mkVM m ipt frames swap [] [] 0 sp 0.

(** Nothing is in memory and every space is new: a consistent state. *)
Lemma fresh_vm_inv m ipt frames swap sp : machine_wf m → is_Some (tlb m) →
  (∀ t j e, tlb m = Some t → at_ t j = Some e → valid e = false) →
  length ipt = Z.to_nat NumPhysPages → (∀ p i, at_ ipt p = Some i → valid (ipte i) = false) →
  wf frames → numBits frames = NumPhysPages → (∀ p, 0 <= p < NumPhysPages → used frames p = false) →
  wf swap → numBits swap = NumSwapPages →
  (∀ a v e, at_ (spaceTable (sp a)) v = Some e →
     virtualPage (pte e) = v ∧ v < 2 ^ 32 / PageSize ∧ (location e = EXEC ∨ location e = VOID)) →
  (∀ a, Forall byte (executable (sp a))) → vm_inv (-1) (fresh_vm m ipt frames swap sp).
Proof.
  intros Hm Ht Htlb Hlen Hipt Hfr Hnf Hu Hsw Hns Hsp Hex.
  assert (∀ p, own (fresh_vm m ipt frames swap sp) p = None) as Hown.
  { intros p. unfold own. cbn. destruct (at_ ipt p) as [i|] eqn:Hi; [|done]. by rewrite (Hipt _ _ Hi). }
  assert (∀ j e, tlb_at (fresh_vm m ipt frames swap sp) j = Some e → valid e = false) as Hinv.
  { intros j e Hj. destruct (tlb_at_Some _ _ _ Hj) as (t & ? & ?). by eapply Htlb. }
  constructor; try done; cbn.
  - intros j e Hj Hv. rewrite (Hinv j e Hj) in Hv. done.
  - intros j j' e e' Hj _ Hv. rewrite (Hinv j e Hj) in Hv. done.
  - intros p i Hi Hv. rewrite (Hipt _ _ Hi) in Hv. done.
  - intros p Hp. rewrite Hown, Hu by done. lia.
  - split; [apply NoDup_nil_2|]. intros p. rewrite Hown. split; [by intros ?%not_elem_of_nil|by intros []].
  - intros p a v. rewrite Hown. split; [done|]. intros (e & He & Hl & _).
    destruct (Hsp a v e He) as (_ & _ & [?|?]); congruence.
  - intros a v e He. by destruct (Hsp a v e He) as (? & ? & _).
  - intros a v e He Hl. destruct (Hsp a v e He) as (_ & _ & [?|?]); congruence.
  - intros a v e a' v' e' He _ Hl. destruct (Hsp a v e He) as (_ & _ & [?|?]); congruence.
Qed.

(** ** Properties *)

(** C6: in a consistent state, a miss on a page of the running
    program is served whatever the replacement policy: the state stays
    consistent, no page of any address space loses its contents, wherever it
    is moved, and the TLB now holds the page, in a frame with its contents.
    There are two stops: a full swap file, and a page that is said to be in the
    executable at a negative offset, which is never served. *)
Theorem page_fault_served fifo rand s VA e : vm_inv (-1) s →
  at_ (registers (machine s)) BadVAddrReg = Some VA →
  page_of s (currentSpace s) (page VA) = Some e → 0 <= rand →
  (∀ j x, tlb_at s j = Some x → valid x = true → virtualPage x ≠ page VA) →
  let lost := location e = EXEC ∧ byteOffset e < 0 in
  wp (λ f, f = Halted ∨ (f = AssertFailed ∧ lost)) (handleTLBMiss fifo rand) (λ _ s', ¬ lost ∧
    vm_inv (-1) s' ∧ keeps_content s s' ∧ currentSpace s' = currentSpace s ∧
    ∃ j x, hit (machine s') (page VA) (InTLB j) x ∧ 0 <= frame x < NumPhysPages ∧
      ∀ bs, content s (currentSpace s) (page VA) bs → frame_of s' (frame x) = bs) s.
Proof.
  intros Hi HVA He Hrand Hmiss lost. destruct (decide (location e = EXEC ∧ byteOffset e < 0)) as [Hlost|Hnot].
  { destruct Hlost as [Hl Ho]. apply (wp_mono _ _ (λ _ _, False)); [|by intros ? ? []].
    apply (wp_faults (λ f, f = Halted ∨ f = AssertFailed)); [|by eapply handleTLBMiss_lost]. intros f [->| ->]; [by left|by right]. }
  apply (wp_faults halts); [intros f Hf; by left|].
  assert (location e = EXEC → 0 <= byteOffset e) as Hoff by (intros Hl; destruct (Z.lt_ge_cases (byteOffset e) 0); tauto).
  eapply wp_mono; [by eapply handleTLBMiss_wp|]. cbn. intros _ s' (Hi' & Hk & Hcs & j & x & Hj & Hv & Hvp & Ho).
  destruct (tlb_entry s' Hi' j x Hj Hv) as (_ & Hf & Hr & _). split_and!; [done..|]. exists j, x.
  rewrite Hf. split_and!; [|lia..|].
  - unfold page. rewrite <- Hvp. by apply tlb_hit.
  - intros bs Hc. by eapply (content_frame s' Hi'), Hk.
Qed.

(** A store of the running program that is not trapped changes
    the bytes it names in the page it names, and leaves every other byte of
    that page and every page of every address space as it was. *)
Theorem user_write big handler s addr size v m' : vm_inv (-1) s → size = 1 ∨ size = 2 ∨ size = 4 →
  WriteMem big handler addr size v (machine s) = Done (true, m') →
  let s' := with_machine m' s in let off := Z.to_nat (u32 addr mod PageSize) in
  let bytes := bytes_le (Z.to_nat size) v in
  vm_inv (-1) s' ∧
  (∀ a w bs, (a, w) ≠ (currentSpace s, page addr) → content s a w bs → content s' a w bs) ∧
  ∃ bs', content s' (currentSpace s) (page addr) bs' ∧
    (∀ k b, bytes !! k = Some b → bs' !! (off + k)%nat = Some b) ∧
    ∀ bs i, content s (currentSpace s) (page addr) bs → (i < off ∨ off + length bytes <= i)%nat →
      bs' !! i = bs !! i.
Proof.
  intros Hi Hs HW s' off bytes. pose proof (vi_machine _ _ Hi) as Hm.
  destruct (Translate_translates addr size true Hs _ Hm) as ([e|pa] & m1 & HT & _).
  { unfold WriteMem in HW. rewrite (bind_Done _ _ _ _ _ HT) in HW. unfold bind in HW.
    by destruct (RaiseException handler e addr m1) as [[]|]. }
  destruct (WriteMem_translated big handler addr size Hs v _ _ _ Hm HT) as (mem & HW' & Hwr).
  rewrite HW in HW'. injection HW' as ->.
  destruct (translated addr size Hs _ _ _ _ Hm HT) as (_ & _ & Hmem & Hlu & _ & _).
  destruct (access_spec s Hi addr size Hs true pa m1 HT)
    as (p & j & x & Hown & Hp & -> & Hroom & Hi1 & Hk1 & Hf1 & Hj & Hv & Hxp & Hd).
  specialize (Hd eq_refl). set (s1 := with_machine m1 s) in *.
  assert (vm_inv (-1) s') as Hi'.
  { apply (with_machine_inv _ s1); [done| |done]. eapply written_wf; [apply Hi1| |by rewrite length_insert, <- Hlu].
    cbn. rewrite Hmem. exact Hwr. }
  pose proof (u32_range addr) as Hua. set (o := u32 addr mod PageSize) in *.
  assert (0 <= o) as Ho by (apply Z.mod_pos_bound; done).
  destruct Hwr as (Hlen & Hin & Hout). rewrite length_bytes_le in Hout.
  assert (length bytes = Z.to_nat size) as Hlb by apply length_bytes_le.
  assert (∀ q, 0 <= q → q ≠ p → frame_of s' q = frame_of s q) as Hother.
  { intros q Hq Hne. apply slice_ext. intros m Hmm. cbn. apply Hout. unfold PageSize, SectorSize in *. lia. }
  assert (∀ i, (i < off ∨ off + length bytes <= i)%nat → frame_of s' p !! i = frame_of s p !! i) as Hrest.
  { intros i Hio. unfold frame_of. rewrite !slice_lookup. case_decide; [|done]. cbn. apply Hout.
    unfold off, PageSize, SectorSize in *. lia. }
  split; [done|]. split.
  - intros a w bs Hne Hc. apply Hk1 in Hc as [Hl (y & Hy & Hc)]. split; [done|]. exists y. split; [exact Hy|].
    destruct (location y) eqn:Hly; [done|exact Hc| |exact Hc]. destruct Hc as [Hfr Hdir].
    assert (own s (physicalPage (pte y)) = Some (a, w)) as Hoy by (apply (vi_pages _ _ Hi); by exists y).
    rewrite Hother; [|apply (own_range _ _ _ _ Hi Hoy)|congruence]. split; [by rewrite <- Hf1|done].
  - exists (frame_of s' p). split_and!.
    + split.
      * apply slice_full; [unfold PageSize, SectorSize; lia|]. rewrite (mw_memory _ (vi_machine _ _ Hi')).
        unfold MemorySize, NumPhysPages, PageSize, SectorSize in *. lia.
      * destruct (proj1 (vi_pages _ _ Hi _ _ _) Hown) as (y & Hy & Hly & Hpy). exists y. split; [exact Hy|].
        rewrite Hly, Hpy. split; [done|]. left. right. exists j, x. done.
    + intros k b Hb. pose proof (lookup_lt_Some _ _ _ Hb). unfold frame_of. rewrite slice_lookup, decide_True.
      * cbn. rewrite <- (Hin k b Hb). f_equal. unfold off, PageSize, SectorSize in *. lia.
      * unfold off, PageSize, SectorSize in *. lia.
    + intros bs i Hc Hio. rewrite Hrest by done. by rewrite (content_frame s Hi p _ _ bs Hown Hc).
Qed.

(** A load of the running program that is not trapped gives the
    bytes of the page it names, lowest first, and changes no page. *)
Theorem user_read big handler s addr size val m' : vm_inv (-1) s → size = 1 ∨ size = 2 ∨ size = 4 →
  ReadMem big handler addr size (machine s) = Done (true, Some val, m') →
  vm_inv (-1) (with_machine m' s) ∧ keeps_content s (with_machine m' s) ∧
  ∀ bs, content s (currentSpace s) (page addr) bs →
    val = narrow size (of_le (take (Z.to_nat size) (drop (Z.to_nat (u32 addr mod PageSize)) bs))).
Proof.
  intros Hi Hs HR. pose proof (vi_machine _ _ Hi) as Hm.
  destruct (Translate_translates addr size false Hs _ Hm) as ([e|pa] & m1 & HT & _).
  { unfold ReadMem in HR. rewrite (bind_Done _ _ _ _ _ HT) in HR. unfold bind in HR.
    by destruct (RaiseException handler e addr m1) as [[]|]. }
  rewrite (ReadMem_translated big handler addr size Hs _ _ _ Hm HT) in HR. injection HR as <- <-.
  destruct (access_spec s Hi addr size Hs false pa m1 HT)
    as (p & j & x & Hown & Hp & -> & Hroom & Hi1 & Hk1 & Hf1 & _).
  destruct (translated addr size Hs _ _ _ _ Hm HT) as (_ & _ & Hmem & Hlu & _ & _).
  pose proof (u32_range addr). assert (0 <= u32 addr mod PageSize) by (apply Z.mod_pos_bound; done).
  split_and!.
  - eapply (with_machine_inv _ (with_machine m1 s)); [done| |done].
    destruct (vi_machine _ _ Hi1) as [H1 H2 H3 H4]. split; cbn in *; try done. by rewrite length_insert, <- Hlu.
  - intros a w bs' Hc'. exact (Hk1 _ _ _ Hc').
  - intros bs Hc. pose proof (content_frame s Hi p _ _ bs Hown Hc) as Hbs.
    f_equal. f_equal. rewrite <- Hbs. apply list_eq. intros i.
    destruct (decide (i < Z.to_nat size)%nat) as [Hlt|Hge]; [|by rewrite !lookup_take_ge by lia].
    rewrite !lookup_take_lt, !lookup_drop by done. unfold frame_of. rewrite slice_lookup, decide_True.
    + f_equal. unfold PageSize, SectorSize in *. lia.
    + unfold PageSize, SectorSize in *. lia.
Qed.

(** When the running program is switched out, [SaveState]
    empties the TLB without losing a dirty bit, so that no page loses its
    contents, and the state is consistent for whatever program runs next. *)
Theorem context_switch s a : vm_inv (-1) s → ∃ s', SaveState s = Done ((), s') ∧ keeps_content s s' ∧
  (∀ j x, tlb_at s' j = Some x → valid x = false) ∧
  vm_inv (-1) (with_currentSpace a s') ∧ keeps_content s (with_currentSpace a s').
Proof.
  intros Hi. destruct (wp_no_fault _ _ _ (SaveState_loop_spec (-1) (Z.to_nat TLBSize) 0 s Hi ltac:(lia) eq_refl))
    as ([] & s' & Hs & (Hi' & _ & Hk & _) & _ & Hinv).
  assert (∀ j x, tlb_at s' j = Some x → valid x = false) as Hall.
  { intros j x Hx. apply (Hinv j x); [|done]. destruct (tlb_at_Some _ _ _ Hx) as (t & _ & Hat).
    apply at_range in Hat. lia. }
  exists s'. split_and!; [done..| |].
  - destruct Hi'. constructor; try done. intros j e Hj Hv.
    rewrite (Hall j e Hj) in Hv. done.
  - intros b v bs Hc. exact (Hk b v bs Hc).
Qed.

(** C35: a stack page, whose offset in the executable is -1,
    that is evicted before anything was written to it is said to be in the
    executable; the next fault on it reads the file at -1, which stops the
    program. *)
Theorem clean_stack_page_lost s p a v e i q : at_ (IPT s) p = Some i → PID i = a →
  virtualPage (ipte i) = v → page_of s a v = Some e → byteOffset e = -1 → dirty (ipte i) = false →
  ∃ s', page_out p s = Done ((), s') ∧
    page_of s' a v = Some (mkPTE (pte e) EXEC (-1)) ∧
    page_in v q (with_currentSpace a s') = Fault AssertFailed.
Proof.
  intros Hat Ha Hv He Hoff Hd. unfold page_out.
  rewrite (bind_Done _ _ s i s) by (unfold get_IPT, bind, get, lift; by rewrite (at_vget _ _ _ Hat)).
  rewrite Ha, Hv. rewrite (bind_Done _ _ s e s)
    by (unfold get_page, bind, get, lift; by rewrite (at_vget _ _ _ He)).
  rewrite Hd, Hoff. cbn [andb]. set (e' := mkPTE (pte e) EXEC (-1)).
  destruct (vset_at _ _ e' _ He) as (Hs & _).
  eexists. split; [unfold set_page, bind, get, lift; by rewrite Hs|].
  assert (page_of (with_space a (mkSpace (<[Z.to_nat v := e']> (spaceTable (spaces s a))) (executable (spaces s a))) s) a v
    = Some e') as Hpg by (rewrite (page_of_set _ _ _ e) by done; by rewrite decide_True).
  set (s1 := with_space _ _ s) in *. split; [exact Hpg|].
  assert (get_page a v (with_currentSpace a s1) = Done (e', with_currentSpace a s1)) as Hget.
  { unfold get_page, bind, get, lift. change (spaces (with_currentSpace a s1)) with (spaces s1).
    by rewrite (at_vget _ _ _ Hpg). }
  unfold page_in. unfold bind at 1. cbn [get]. cbn zeta.
  change (currentSpace (with_currentSpace a s1)) with a. by rewrite (bind_Done _ _ _ _ _ Hget).
Qed.

(** ** A program of two pages *)

Definition blank : TranslationEntry := mkEntry 0 0 false false false false.
Definition example_file : list Z := (λ k, Z.of_nat k mod 256) <$> seq 0 296.
Definition example_space : AddrSpace := new_AddrSpace example_file 256 0 0 40.

(** It has just missed at virtual address [VA]. *)
Definition example_vm (VA : Z) : VM :=
  fresh_vm
    (mkMachine (replicate (Z.to_nat MemorySize) 0) (<[39%nat := VA]> (replicate (Z.to_nat NumTotalRegs) 0))
      (Some (replicate (Z.to_nat TLBSize) blank)) None 0 (replicate (Z.to_nat NumPhysPages) 0) 0 UserMode)
    (replicate (Z.to_nat NumPhysPages) (mkIPTE blank 0%nat)) (mkBitMap 32 1 [0]) (mkBitMap 512 16 (replicate 16 0))
    (λ _, example_space).

Definition after_miss (s : VM) : VM :=
  match handleTLBMiss true 0 s with Done (_, s') => s' | Fault _ => s end.

Lemma at_replicate {A} n (x y : A) i : at_ (replicate n x) i = Some y → y = x.
Proof. intros [Hi _]%at_lookup. by apply lookup_replicate in Hi as [-> _]. Qed.

Lemma example_vm_inv VA : vm_inv (-1) (example_vm VA).
Proof.
  apply fresh_vm_inv; cbn [tlb].
  - split; [apply length_replicate|by apply Forall_replicate|apply length_replicate|apply length_replicate].
  - by eexists.
  - intros t j e [= <-] He. by rewrite (at_replicate 4 blank e j He).
  - apply length_replicate.
  - intros p i Hi%at_replicate. by subst.
  - split; [done|done|done|]. by apply Forall_singleton.
  - done.
  - intros p Hp. unfold used. cbn [map]. unfold NumPhysPages, BitsInWord in *.
    rewrite Z.quot_small by lia. cbn. apply Z.bits_0.
  - split; [done|done|done|]. by apply Forall_replicate.
  - done.
  - intros a v e He. apply (new_AddrSpace_page example_file 256 0 0 40 v e); [lia|exact He].
  - intros a. apply Forall_fmap, Forall_forall. intros k _. cbn. apply Z.mod_pos_bound. lia.
Qed.

Lemma example_page_1 VA : ∃ e, page_of (example_vm VA) 0 1 = Some e ∧ location e = EXEC ∧ byteOffset e = 168.
Proof. eexists. split_and!; reflexivity. Qed.

Lemma example_no_hit VA j x : tlb_at (example_vm VA) j = Some x → valid x = true → False.
Proof. intros Hx%at_replicate. by subst. Qed.

Lemma example_content VA : content (example_vm VA) 0 1 (take 128 (drop 168 example_file)).
Proof. split; [reflexivity|]. eexists. split; reflexivity. Qed.

Lemma example_miss : ∃ s', handleTLBMiss true 0 (example_vm 130) = Done ((), s').
Proof.
  assert (match handleTLBMiss true 0 (example_vm 130) with Done _ => true | Fault _ => false end = true) as Hd
    by (vm_compute; reflexivity).
  destruct (handleTLBMiss true 0 (example_vm 130)) as [[[] s']|f]; [by exists s'|done].
Qed.

Lemma example_registers VA : at_ (registers (machine (example_vm VA))) BadVAddrReg = Some VA.
Proof. reflexivity. Qed.

Lemma example_offset VA : ∃ e, page_of (example_vm VA) 0 1 = Some e ∧ (location e = EXEC → 0 <= byteOffset e).
Proof. destruct (example_page_1 VA) as (e & He & _ & Ho). exists e. split; [done|]. rewrite Ho. lia. Qed.

Lemma page_130 : page 130 = 1.
Proof. reflexivity. Qed.

Lemma page_fault_served_witness : ∃ s' j x, handleTLBMiss true 0 (example_vm 130) = Done ((), s') ∧
  hit (machine s') (page 130) (InTLB j) x ∧ frame_of s' (frame x) = take 128 (drop 168 example_file).
Proof.
  destruct example_miss as [s' Hs]. destruct (example_offset 130) as (e & He & Ho). rewrite <- page_130 in He.
  pose proof (page_fault_served true 0 (example_vm 130) 130 e (example_vm_inv 130) (example_registers 130) He
    (Z.le_refl 0) (λ j x Hj Hv, False_ind _ (example_no_hit _ j x Hj Hv))) as Hw.
  destruct (wp_done _ _ _ _ _ _ Hw Hs) as (_ & _ & _ & _ & j & x & Hh & _ & Hc).
  exists s', j, x. split; [exact Hs|]. split; [exact Hh|]. apply Hc. rewrite page_130. exact (example_content 130).
Defined.

(** The state once the page is in. *)
Lemma after_miss_facts : vm_inv (-1) (after_miss (example_vm 130)) ∧
  content (after_miss (example_vm 130)) 0 1 (take 128 (drop 168 example_file)).
Proof.
  destruct (example_offset 130) as (e & He & Ho). rewrite <- page_130 in He.
  pose proof (handleTLBMiss_wp true 0 (example_vm 130) 130 e (example_vm_inv 130) (example_registers 130) He
    Ho (Z.le_refl 0) (λ j x Hj Hv, False_ind _ (example_no_hit _ j x Hj Hv))) as Hw.
  destruct example_miss as [s' Hs]. destruct (wp_done _ _ _ _ _ _ Hw Hs) as (Hi & Hk & _).
  unfold after_miss. rewrite Hs. split; [exact Hi|]. apply Hk, example_content.
Qed.

Definition after_store : outcome (bool * Machine) :=
  WriteMem false (λ _, ret ()) 132 4 305419896 (machine (after_miss (example_vm 130))).

Lemma after_store_Done : ∃ m, after_store = Done (true, m).
Proof.
  assert (match after_store with Done (b, _) => b | Fault _ => false end = true) as Hd by (vm_compute; reflexivity).
  destruct after_store as [[b m]|f]; [|done]. subst b. by exists m.
Qed.

Lemma user_write_witness : ∃ m' bs', after_store = Done (true, m') ∧
  content (with_machine m' (after_miss (example_vm 130))) (currentSpace (after_miss (example_vm 130))) (page 132) bs'.
Proof.
  destruct after_store_Done as [m Hm]. destruct after_miss_facts as [Hi _].
  destruct (user_write false (λ _, ret ()) (after_miss (example_vm 130)) 132 4 305419896 m Hi
    (or_intror (or_intror eq_refl)) Hm) as (_ & _ & bs' & Hc & _).
  exists m, bs'. split; [exact Hm|exact Hc].
Defined.

Lemma after_load_Done : ∃ v m,
  ReadMem false (λ _, ret ()) 132 4 (machine (after_miss (example_vm 130))) = Done (true, Some v, m) ∧
  currentSpace (after_miss (example_vm 130)) = 0%nat.
Proof.
  assert (match ReadMem false (λ _, ret ()) 132 4 (machine (after_miss (example_vm 130))) with
    | Done (b, Some _, _) => b | _ => false end = true) as Hd by (vm_compute; reflexivity).
  destruct (ReadMem _ _ _ _ _) as [[[b [v|]] m]|f]; try done. subst b. exists v, m. split; [done|].
  vm_compute. reflexivity.
Qed.

Lemma user_read_witness : ∃ v m,
  ReadMem false (λ _, ret ()) 132 4 (machine (after_miss (example_vm 130))) = Done (true, Some v, m) ∧
  v = narrow 4 (of_le (take 4 (drop 4 (take 128 (drop 168 example_file))))).
Proof.
  destruct after_load_Done as (v & m & Hr & Hcs). destruct after_miss_facts as [Hi Hc]. exists v, m. split; [exact Hr|].
  assert (page 132 = 1) as Hp by reflexivity. rewrite <- Hcs, <- Hp in Hc.
  destruct (user_read false (λ _, ret ()) (after_miss (example_vm 130)) 132 4 v m Hi
    (or_intror (or_intror eq_refl)) Hr) as (_ & _ & Hv). exact (Hv _ Hc).
Defined.

Lemma context_switch_witness : ∃ s', SaveState (after_miss (example_vm 130)) = Done ((), s') ∧
  vm_inv (-1) (with_currentSpace 1 s').
Proof.
  destruct after_miss_facts as [Hi _].
  destruct (context_switch (after_miss (example_vm 130)) 1 Hi) as (s' & Hs & _ & _ & Hi' & _).
  exists s'. split; [exact Hs|exact Hi'].
Defined.

(** A stack page, page 2, was read once and nothing was written to it. *)
Lemma clean_stack_facts : let s := after_miss (example_vm 300) in
  (∃ i, at_ (IPT s) 0 = Some i ∧ PID i = 0%nat ∧ virtualPage (ipte i) = 2 ∧ dirty (ipte i) = false) ∧
  ∃ e, page_of s 0 2 = Some e ∧ byteOffset e = -1.
Proof. vm_compute. split; eexists; by split_and!. Qed.

Lemma clean_stack_page_lost_witness : ∃ s', page_out 0 (after_miss (example_vm 300)) = Done ((), s') ∧
  page_in 2 7 (with_currentSpace 0 s') = Fault AssertFailed.
Proof.
  destruct clean_stack_facts as [(i & Hi & Ha & Hv & Hd) (e & He & Ho)].
  destruct (clean_stack_page_lost (after_miss (example_vm 300)) 0 0 2 e i 7 Hi Ha Hv He Ho Hd) as (s' & Hs & _ & Hf).
  exists s'. split; [exact Hs|exact Hf].
Defined.
