(* ===== verification/Lifecycle.v ===== *)
(** * Lifecycle: address spaces, the stacks of their threads, and their end

    userprog/addrspace.cc.  [AddrSpace::Fork] gives a new thread eight pages of
    stack at the end of the page table, [AddrSpace::Exit] takes them back, the
    destructor gives up every page of the program.  The pages of a thread that
    is gone keep their place in the page table; only their valid bit says so. *)
From S2P Require Import Prelude BitMap Translate HostFile Paging.
From stdpp Require Import functions base list gmap.
From Stdlib Require Import ZArith Lia ZifyBool.

Local Open Scope Z_scope.

(** ** Data *)

(** [numPages] of a space is the length of its page table; [threadTable] maps
    the number of a thread to its [stackPages]. *)
Record Spaces := mkSpaces { vm : VM; threadTable : nat → gmap Z (list Z) }.

Definition on_vm {A} (op : M VM A) : M Spaces A := λ s,
  match op (vm s) with Done (a, v) => Done (a, mkSpaces v (threadTable s)) | Fault f => Fault f end.
Definition with_threads (a : nat) (x : gmap Z (list Z)) (s : Spaces) : Spaces :=
  mkSpaces (vm s) (<[a := x]> (threadTable s)).

Definition numPages (s : VM) (a : nat) : Z := Z.of_nat (length (spaceTable (spaces s a))).

(** ** Registers *)

(** [Machine::ReadRegister], [Machine::WriteRegister] *)
Definition ReadRegister (num : Z) : M VM Z :=
  ASSERT ((0 <=? num) && (num <? NumTotalRegs)) ;;;
  let! s := get in lift (vget (registers (machine s)) num).
Definition WriteRegister (num value : Z) : M VM unit :=
  ASSERT ((0 <=? num) && (num <? NumTotalRegs)) ;;;
  let! s := get in
  let! rs := lift (vset (registers (machine s)) num value) in
  put (with_machine (with_registers rs (machine s)) s).

Definition StackReg : Z := 29.
Definition PCReg : Z := 34.
Definition NextPCReg : Z := 35.

Fixpoint clear_registers (i : Z) (n : nat) : M VM unit :=
  match n with O => ret () | S n' => WriteRegister i 0 ;;; clear_registers (i + 1) n' end.

(** [AddrSpace::InitRegisters] *)
Definition InitRegisters : M VM unit :=
  clear_registers 0 (Z.to_nat NumTotalRegs) ;;;
  WriteRegister PCReg 0 ;;;
  WriteRegister NextPCReg 4 ;;;
  let! s := get in
  WriteRegister StackReg (s32 (u32 (numPages s (currentSpace s) * PageSize - 16))).

(** [AddrSpace::getPageTableEntry]: its result is a copy. *)
Definition getPageTableEntry (a : nat) (VP : Z) : M VM PageTableEntry :=
  let! s := get in
  ASSERT ((0 <=? VP) && (VP <? numPages s a)) ;;;
  get_page a VP.

(** ** Giving pages up *)

Definition clear_frame (ppn : Z) : M VM unit :=
  let! s := get in
  let! b := lift (Clear (pageTableBitMap s) ppn) in put (with_frames b s).
Definition clear_swap (byteOffset : Z) : M VM unit :=
  let! s := get in
  let! b := lift (Clear (swapBitMap s) (Z.quot byteOffset PageSize)) in put (with_swap b (swapFile s) s).
Definition invalidate_IPT (ppn : Z) : M VM unit :=
  let! i := get_IPT ppn in set_IPT ppn (mkIPTE (set_valid false (ipte i)) (PID i)).

(** The search of the destructor: it compares with the frame of page [ii]. *)
Fixpoint unqueue_by_index (a : nat) (ii : Z) (n : nat) : M VM unit :=
  match n with
  | O => ret ()
  | S n' =>
      let! s := get in
      let! x := lift (vget (FIFOList s) ii) in
      let! e := get_page a ii in
      if x =? physicalPage (pte e) then let! l := lift (verase (FIFOList s) ii) in put (with_FIFO l s)
      else unqueue_by_index a (ii + 1) n'
  end.

(** The body of the loop of the destructor. *)
Definition release_page (a : nat) (i : Z) : M VM unit :=
  let! e := get_page a i in
  if valid (pte e) then
    match location e with
    | MAIN =>
        clear_frame (physicalPage (pte e)) ;;;
        let! s := get in
        unqueue_by_index a 0 (length (FIFOList s)) ;;;
        invalidate_IPT (physicalPage (pte e))
    | SWAP => clear_swap (byteOffset e)
    | VOID | EXEC => ret ()
    end ;;;
    set_page a i (mkPTE (set_valid false (pte e)) (location e) (byteOffset e))
  else ret ().

Fixpoint release_pages (a : nat) (i : Z) (n : nat) : M VM unit :=
  match n with O => ret () | S n' => release_page a i ;;; release_pages a (i + 1) n' end.

(** [AddrSpace::~AddrSpace]: an object that is deleted has no page left. *)
Definition delete_AddrSpace (a : nat) : M VM unit :=
  let! s := get in
  release_pages a 0 (length (spaceTable (spaces s a))) ;;;
  SaveState ;;;
  modify (with_space a (mkSpace [] [])).

(** The body of the loop of [AddrSpace::Exit], for page [vpn]. *)
Definition exit_page (a : nat) (vpn : Z) : M VM unit :=
  let! e := get_page a vpn in
  (if valid (pte e) then
    match location e with
    | MAIN =>
        clear_frame (physicalPage (pte e)) ;;;
        removePageFromFIFOQ (physicalPage (pte e)) ;;;
        invalidate_IPT (physicalPage (pte e))
    | SWAP => clear_swap (byteOffset e)
    | VOID | EXEC => ret ()
    end
   else ret ()) ;;;
  set_page a vpn (mkPTE (set_physicalPage (-1) (set_valid false (pte e))) (location e) (byteOffset e)).

(** [threadTable[id]->stackPages[i]]: a thread without an entry has a NULL one. *)
Definition stack_page (a : nat) (id i : Z) : M Spaces Z :=
  let! s := get in
  match threadTable s a !! id with Some ps => lift (vget ps i) | None => fail NullDeref end.

Fixpoint exit_pages (a : nat) (id i : Z) (n : nat) : M Spaces unit :=
  match n with
  | O => ret ()
  | S n' =>
      let! vpn := stack_page a id i in
      on_vm (exit_page a vpn) ;;;
      exit_pages a id (i + 1) n'
  end.

(** [AddrSpace::Exit] of [currentThread->space], for the thread [id]. *)
Definition AddrSpace_Exit (id : Z) : M Spaces unit :=
  let! s := get in
  exit_pages (currentSpace (vm s)) id 0 8 ;;;
  on_vm SaveState ;;;
  ASSERT (8 =? Z.quot UserStackSize PageSize).

(** ** A stack for a new thread *)

(** [byteOffset] of the new entries is not set: it is what the memory held. *)
Definition stack_entry (unset : Z → Z) (i : Z) : PageTableEntry :=
  mkPTE (mkEntry i (-1) false false false false) VOID (unset i).

Definition stack_numbers (n : Z) : list Z :=
  (λ k, n + Z.of_nat k) <$> seq 0 (Z.to_nat (divRoundUp UserStackSize PageSize)).

(** [threadTable.insert] keeps an entry that is there already. *)
Definition AddrSpace_Fork (unset : Z → Z) (id nextInstruction : Z) : M Spaces unit :=
  let! s := get in
  let a := currentSpace (vm s) in
  let x := spaces (vm s) a in
  let new := stack_numbers (numPages (vm s) a) in
  on_vm (modify (with_space a (mkSpace (spaceTable x ++ (stack_entry unset <$> new)) (executable x)))) ;;;
  modify (with_threads a (<[id := default [] (threadTable s a !! id) ++ new]> (threadTable s a))) ;;;
  on_vm (InitRegisters ;;; WriteRegister PCReg nextInstruction ;;; WriteRegister NextPCReg (s32 (nextInstruction + 4))).

(** The constructor, run by the thread [id]: the stack is the last pages. *)
Definition construct (a : nat) (id : Z) (x : AddrSpace) (numNonStackPages : Z) (s : Spaces) : Spaces :=
  mkSpaces (with_space a x (vm s)) (<[a := {[id := stack_numbers numNonStackPages]}]> (threadTable s)).

(** ** The state without the pages that are dead *)

Definition dead (e : PageTableEntry) : bool :=
  negb (valid (pte e)) && match location e with MAIN | SWAP => true | VOID | EXEC => false end.
Definition bury_page (e : PageTableEntry) : PageTableEntry :=
  if dead e then mkPTE (pte e) VOID (byteOffset e) else e.

(** Dead pages are nowhere. *)
Definition bury (s : VM) : VM :=
  mkVM (machine s) (IPT s) (pageTableBitMap s) (swapBitMap s) (swapFile s) (FIFOList s) (currentTLB s)
    (λ a, mkSpace (bury_page <$> spaceTable (spaces s a)) (executable (spaces s a))) (currentSpace s).

(** ... and the TLB is empty. *)
Definition cold (s : VM) : VM :=
  match tlb (machine s) with
  | Some t => with_machine (with_tlb (set_valid false <$> t) (machine s)) s
  | None => s
  end.

(** The invariant of Paging, for what is alive; between the steps of an exit
    the TLB and the queue [l] do not count. *)
Definition live_inv (s : VM) : Prop := vm_inv (-1) (bury s).
Definition closing_inv (l : list Z) (s : VM) : Prop := vm_inv (-1) (with_FIFO l (cold (bury s))).
Definition live_content (s : VM) (a : nat) (v : Z) (bs : list Z) : Prop := content (bury s) a v bs.

(** ** The views *)

Definition closing (l : list Z) (s : VM) : VM := with_FIFO l (cold (bury s)).

Lemma at_fmap {A B} (f : A → B) l i : at_ (f <$> l) i = f <$> at_ l i.
Proof. unfold at_. case_match; [apply list_lookup_fmap|done]. Qed.

Lemma page_of_bury s a v : page_of (bury s) a v = bury_page <$> page_of s a v.
Proof. unfold page_of. cbn. apply at_fmap. Qed.

Section cold.
Context (l : list Z) (s : VM).

Lemma cold_case : (∃ t, tlb (machine s) = Some t ∧ cold s = with_machine (with_tlb (set_valid false <$> t) (machine s)) s) ∨
  tlb (machine s) = None ∧ cold s = s.
Proof. unfold cold. destruct (tlb (machine s)); [left; eauto|by right]. Qed.

Lemma cold_tlb j e : tlb_at (cold s) j = Some e → valid e = false.
Proof.
  destruct cold_case as [(t & Ht & ->)|[Ht ->]]; unfold tlb_at; cbn; [|by rewrite Ht].
  rewrite at_fmap. by intros (e' & _ & ->)%fmap_Some.
Qed.

Lemma cold_fields : IPT (cold s) = IPT s ∧ pageTableBitMap (cold s) = pageTableBitMap s ∧
  swapBitMap (cold s) = swapBitMap s ∧ swapFile (cold s) = swapFile s ∧ currentTLB (cold s) = currentTLB s ∧
  currentSpace (cold s) = currentSpace s ∧ spaces (cold s) = spaces s.
Proof. by destruct cold_case as [(t & _ & ->)|[_ ->]]. Qed.

Lemma cold_machine : machine_wf (machine s) → machine_wf (machine (cold s)).
Proof.
  intros Hm. destruct cold_case as [(t & Ht & ->)|[_ ->]]; [|done].
  apply (tlb_wf _ t); [done|done|]. apply length_fmap.
Qed.
End cold.

(** What [vm_inv] of a closing state says, field by field. *)
Record closing_facts (l : list Z) (s : VM) : Prop := {
  cf_machine : machine_wf (machine s) ∧ is_Some (tlb (machine s));
  cf_length : length (IPT s) = Z.to_nat NumPhysPages;
  cf_phys : ∀ p i, at_ (IPT s) p = Some i → valid (ipte i) = true → physicalPage (ipte i) = p;
  cf_frames : wf (pageTableBitMap s) ∧ numBits (pageTableBitMap s) = NumPhysPages;
  cf_used : ∀ p, 0 <= p < NumPhysPages → used (pageTableBitMap s) p = bool_decide (is_Some (own s p));
  cf_fifo : NoDup l ∧ ∀ p, p ∈ l ↔ is_Some (own s p);
  cf_pages : ∀ p a v, own s p = Some (a, v) ↔
    ∃ e, page_of s a v = Some e ∧ dead e = false ∧ location e = MAIN ∧ physicalPage (pte e) = p;
  cf_virtual : ∀ a v e, page_of s a v = Some e → virtualPage (pte e) = v ∧ v < 2 ^ 32 / PageSize;
  cf_swapmap : wf (swapBitMap s) ∧ numBits (swapBitMap s) = NumSwapPages;
  cf_swap : ∀ a v e, page_of s a v = Some e → dead e = false → location e = SWAP → dirty (pte e) = true ∧
    ∃ k, 0 <= k < NumSwapPages ∧ byteOffset e = k * PageSize ∧ used (swapBitMap s) k = true ∧
      k * PageSize + PageSize <= Z.of_nat (length (swapFile s));
  cf_swap_once : ∀ a v e a' v' e', page_of s a v = Some e → page_of s a' v' = Some e' →
    dead e = false → dead e' = false → location e = SWAP → location e' = SWAP →
    byteOffset e = byteOffset e' → a = a' ∧ v = v';
  cf_current : 0 <= currentTLB s < TLBSize;
  cf_bytes : Forall byte (swapFile s) ∧ ∀ a, Forall byte (executable (spaces s a))
}.

Lemma bury_live e : dead e = false → bury_page e = e.
Proof. unfold bury_page. by intros ->. Qed.
Lemma bury_location e : location (bury_page e) = if dead e then VOID else location e.
Proof. unfold bury_page. by destruct (dead e). Qed.
Lemma bury_entry e : pte (bury_page e) = pte e ∧ byteOffset (bury_page e) = byteOffset e.
Proof. unfold bury_page. by destruct (dead e). Qed.

Lemma own_bury s p : own (bury s) p = own s p.
Proof. done. Qed.

Lemma buried_main s a v p : (∃ e, page_of (bury s) a v = Some e ∧ location e = MAIN ∧ physicalPage (pte e) = p) ↔
  ∃ e, page_of s a v = Some e ∧ dead e = false ∧ location e = MAIN ∧ physicalPage (pte e) = p.
Proof.
  rewrite page_of_bury. split.
  - intros (e & (x & Hx & ->)%fmap_Some & Hl & Hp). rewrite bury_location in Hl.
    destruct (dead x) eqn:Hd; [done|]. rewrite bury_live in Hp by done. by exists x.
  - intros (e & -> & Hd & Hl & Hp). exists e. cbn. rewrite bury_live by done. done.
Qed.

Lemma is_Some_case {A} (o : option A) : bool_decide (is_Some o) = match o with Some _ => true | None => false end.
Proof. destruct o; [by apply bool_decide_eq_true|apply bool_decide_eq_false; by intros []]. Qed.

Lemma own_closing l s p : own (closing l s) p = own s p.
Proof. unfold own. cbn. by rewrite (proj1 (cold_fields (bury s))). Qed.
Lemma page_of_closing l s a v : page_of (closing l s) a v = page_of (bury s) a v.
Proof. unfold page_of. cbn. by destruct (cold_fields (bury s)) as (_ & _ & _ & _ & _ & _ & ->). Qed.
Lemma page_closing l s a v e : page_of s a v = Some e → dead e = false → page_of (closing l s) a v = Some e.
Proof. intros He Hd. rewrite page_of_closing, page_of_bury, He. cbn. by rewrite bury_live. Qed.
Lemma closing_page l s a v e : page_of (closing l s) a v = Some e → ∃ x, page_of s a v = Some x ∧ e = bury_page x.
Proof. rewrite page_of_closing, page_of_bury. by intros (x & Hx & ->)%fmap_Some; exists x. Qed.

Lemma closing_machine l s : machine_wf (machine (closing l s)) ∧ is_Some (tlb (machine (closing l s))) ↔
  machine_wf (machine s) ∧ is_Some (tlb (machine s)).
Proof.
  change (machine (closing l s)) with (machine (cold (bury s))). destruct (cold_case (bury s)) as [(t & Ht & ->)|[Ht ->]]; [|done].
  cbn in *. rewrite Ht. split; intros [[H1 H2 H3 H4] _]; (split; [|by eexists]); split; try done; cbn in *;
    rewrite ?Ht, ?length_fmap in *; done.
Qed.

Lemma closing_facts_of l s : closing_inv l s → closing_facts l s.
Proof.
  intros Hi. change (vm_inv (-1) (closing l s)) in Hi.
  destruct (cold_fields (bury s)) as (HI & Hf & Hb & Hw & Ht & Hc & Hs).
  constructor.
  - apply (closing_machine l), (conj (vi_machine _ _ Hi) (vi_has_tlb _ _ Hi)).
  - pose proof (vi_length _ _ Hi) as H. cbn in H. by rewrite HI in H.
  - pose proof (vi_phys _ _ Hi) as H. cbn in H. by rewrite HI in H.
  - pose proof (vi_frames _ _ Hi) as H. cbn in H. by rewrite Hf in H.
  - intros p Hp. pose proof (vi_used _ _ Hi p Hp) as H. rewrite own_closing in H. cbn in H. rewrite Hf in H. cbn in H.
    rewrite H, is_Some_case. destruct (own s p); [done|]. apply Z.eqb_neq. lia.
  - split; [apply (vi_fifo _ _ Hi)|]. intros p. rewrite <- (own_closing l). apply (vi_fifo _ _ Hi).
  - intros p a v. rewrite <- buried_main, <- (own_closing l), (vi_pages _ _ Hi). by rewrite page_of_closing.
  - intros a v e He. destruct (vi_virtual _ _ Hi a v (bury_page e)) as [Hv Hv'].
    { by rewrite page_of_closing, page_of_bury, He. }
    by rewrite (proj1 (bury_entry e)) in Hv.
  - pose proof (vi_swapmap _ _ Hi) as H. cbn in H. by rewrite Hb in H.
  - intros a v e He Hd Hl. pose proof (vi_swap _ _ Hi a v e (page_closing _ _ _ _ _ He Hd) Hl) as H.
    cbn in H. by rewrite Hb, Hw in H.
  - intros a v e a' v' e' He He' Hd Hd'. apply (vi_swap_once _ _ Hi); by apply page_closing.
  - pose proof (vi_current _ _ Hi) as H. cbn in H. by rewrite Ht in H.
  - destruct (vi_bytes _ _ Hi) as [H H']. cbn in H, H'. rewrite Hw in H. rewrite Hs in H'. done.
Qed.

Lemma closing_inv_of l s : closing_facts l s → closing_inv l s.
Proof.
  intros Hi. change (vm_inv (-1) (closing l s)).
  destruct (cold_fields (bury s)) as (HI & Hf & Hb & Hw & Ht & Hc & Hs).
  assert (∀ j e, tlb_at (closing l s) j = Some e → valid e = false) as Htlb by (intros j e; apply cold_tlb).
  destruct (proj2 (closing_machine l s) (cf_machine _ _ Hi)) as [Hm Hsome].
  assert (∀ a v e, page_of (closing l s) a v = Some e → location e = MAIN ∨ location e = SWAP →
    page_of s a v = Some e ∧ dead e = false) as Hpg.
  { intros a v e (x & Hx & ->)%closing_page. rewrite bury_location. destruct (dead x) eqn:Hd; [by intros [?|?]|].
    by rewrite bury_live by done. }
  constructor; try done.
  - cbn. rewrite HI. apply Hi.
  - intros j e Hj Hv. by rewrite (Htlb j e Hj) in Hv.
  - intros j j' e e' Hj _ Hv. by rewrite (Htlb j e Hj) in Hv.
  - cbn. rewrite HI. apply Hi.
  - cbn. rewrite Hf. apply Hi.
  - intros p Hp. rewrite own_closing. cbn. rewrite Hf. cbn. rewrite (cf_used _ _ Hi p Hp), is_Some_case.
    destruct (own s p); [done|]. symmetry. apply Z.eqb_neq. lia.
  - split; [apply (cf_fifo _ _ Hi)|]. intros p. rewrite own_closing. apply (cf_fifo _ _ Hi).
  - intros p a v. rewrite own_closing, (cf_pages _ _ Hi). rewrite page_of_closing. by rewrite buried_main.
  - intros a v e (x & Hx & ->)%closing_page. rewrite (proj1 (bury_entry x)). by apply (cf_virtual _ _ Hi a).
  - cbn. rewrite Hb. apply Hi.
  - intros a v e He Hl. destruct (Hpg a v e He ltac:(by right)) as [He' Hd]. cbn. rewrite Hb, Hw. by apply (cf_swap _ _ Hi a v e).
  - intros a v e a' v' e' He He' Hl Hl'. destruct (Hpg a v e He ltac:(by right)), (Hpg a' v' e' He' ltac:(by right)).
    by apply (cf_swap_once _ _ Hi a v e a' v' e').
  - cbn. rewrite Ht. apply Hi.
  - cbn. rewrite Hw, Hs. apply Hi.
Qed.

(** ** A page that is given up *)

(** Page [v] of [a], which was [e], is given up with what it held. *)
Record closed (s s' : VM) (a : nat) (v : Z) (e e' : PageTableEntry) : Prop := {
  cl_machine : machine s' = machine s;
  cl_fixed : swapFile s' = swapFile s ∧ currentTLB s' = currentTLB s ∧ currentSpace s' = currentSpace s ∧
    ∀ b, executable (spaces s' b) = executable (spaces s b);
  cl_pages : ∀ b w, page_of s' b w = if decide (b = a ∧ w = v) then Some e' else page_of s b w;
  cl_own : ∀ q, own s' q = if decide (own s q = Some (a, v)) then None else own s q;
  cl_IPT : length (IPT s') = length (IPT s) ∧ ∀ q i', at_ (IPT s') q = Some i' → ∃ i, at_ (IPT s) q = Some i ∧
    physicalPage (ipte i') = physicalPage (ipte i) ∧ dirty (ipte i') = dirty (ipte i) ∧
    (valid (ipte i') = true → valid (ipte i) = true);
  cl_frames : wf (pageTableBitMap s') ∧ numBits (pageTableBitMap s') = NumPhysPages ∧ ∀ q, 0 <= q < NumPhysPages →
    used (pageTableBitMap s') q = bool_decide (own s q ≠ Some (a, v)) && used (pageTableBitMap s) q;
  cl_swap : wf (swapBitMap s') ∧ numBits (swapBitMap s') = NumSwapPages ∧ ∀ k, 0 <= k < NumSwapPages →
    used (swapBitMap s') k = bool_decide (¬ (dead e = false ∧ location e = SWAP ∧ byteOffset e = k * PageSize)) && used (swapBitMap s) k
}.

Definition gone (e : PageTableEntry) : Prop := dead e = true ∨ location e = VOID ∨ location e = EXEC.

Section closed.
Context (l l' : list Z) (s s' : VM) (a : nat) (v : Z) (e e' : PageTableEntry).
Context (Hi : closing_facts l s) (He : page_of s a v = Some e) (Hcl : closed s s' a v e e').
Context (Hgone : gone e') (Hvirt : virtualPage (pte e') = virtualPage (pte e)).

Lemma gone_not_main b w x : page_of s' b w = Some x → dead x = false → location x = MAIN ∨ location x = SWAP →
  page_of s b w = Some x ∧ (b, w) ≠ (a, v).
Proof.
  rewrite (cl_pages _ _ _ _ _ _ Hcl). destruct (decide (b = a ∧ w = v)) as [Hav|Hav]; [|intros; split; [done|naive_solver]].
  intros [= <-] Hd Hl. destruct Hgone as [?|[?|?]]; destruct Hl; congruence.
Qed.

Lemma closed_facts : (NoDup l' ∧ ∀ q, q ∈ l' ↔ is_Some (own s' q)) → closing_facts l' s'.
Proof.
  intros Hl. destruct (cl_fixed _ _ _ _ _ _ Hcl) as (Hf & Ht & Hc & Hx).
  destruct (cl_IPT _ _ _ _ _ _ Hcl) as [Hlen Hipt]. destruct (cl_frames _ _ _ _ _ _ Hcl) as (Hw & Hn & Hu).
  destruct (cl_swap _ _ _ _ _ _ Hcl) as (Hsw & Hsn & Hsu). pose proof (cl_own _ _ _ _ _ _ Hcl) as Ho.
  constructor; try done.
  - rewrite (cl_machine _ _ _ _ _ _ Hcl). apply Hi.
  - rewrite Hlen. apply Hi.
  - intros q i' (i & Hat & Hp & _ & Hv)%Hipt Hv'. rewrite Hp. apply (cf_phys _ _ Hi q i); auto.
  - intros q Hq. rewrite Hu, Ho, (cf_used _ _ Hi) by done. destruct (decide (own s q = Some (a, v))) as [Hd|Hd].
    + rewrite bool_decide_eq_false_2 by tauto. symmetry. apply bool_decide_eq_false_2. by intros [].
    + by rewrite bool_decide_eq_true_2.
  - intros q b w. rewrite Ho. split.
    + destruct (decide (own s q = Some (a, v))) as [Hd|Hd]; [done|]. intros Hq. rewrite Hq in Hd.
      destruct (proj1 (cf_pages _ _ Hi q b w) Hq) as (x & Hx' & Hr). exists x.
      rewrite (cl_pages _ _ _ _ _ _ Hcl), decide_False; [done|]. intros [-> ->]. by destruct Hd.
    + intros (x & Hx' & Hd & Hm & Hp). destruct (gone_not_main b w x Hx' Hd ltac:(by left)) as [Hx'' Hne].
      assert (own s q = Some (b, w)) as Hq by (apply (cf_pages _ _ Hi); eauto).
      rewrite Hq. by rewrite decide_False by congruence.
  - intros b w x. rewrite (cl_pages _ _ _ _ _ _ Hcl). destruct (decide (b = a ∧ w = v)) as [Hav|]; [|apply (cf_virtual _ _ Hi)].
    destruct Hav as [-> ->]. intros [= <-]. rewrite Hvirt. by apply (cf_virtual _ _ Hi a).
  - intros b w x Hx' Hd Hs. destruct (gone_not_main b w x Hx' Hd ltac:(by right)) as [Hx'' Hne].
    destruct (cf_swap _ _ Hi b w x Hx'' Hd Hs) as (Hdi & k & Hk & Hoff & Huk & Hend). split; [done|].
    exists k. rewrite Hf. split; [done|]. split; [done|]. split; [|done]. rewrite Hsu, Huk, andb_true_r by done.
    apply bool_decide_eq_true_2. intros (Hd' & Hs' & Hoff'). apply Hne. destruct (cf_swap_once _ _ Hi b w x a v e) as [-> ->]; congruence.
  - intros b w x b' w' x' H H' Hd Hd' Hs Hs'.
    destruct (gone_not_main b w x H Hd ltac:(by right)), (gone_not_main b' w' x' H' Hd' ltac:(by right)).
    by apply (cf_swap_once _ _ Hi b w x b' w' x').
  - rewrite Ht. apply Hi.
  - rewrite Hf. split; [apply (cf_bytes _ _ Hi)|]. intros b. rewrite Hx. apply (cf_bytes _ _ Hi).
Qed.

(** The other pages keep their contents. *)
Lemma closed_content b w bs : (b, w) ≠ (a, v) → live_content s b w bs → live_content s' b w bs.
Proof.
  intros Hne [Hl (x & Hx & Hc)]. split; [done|].
  destruct (cl_fixed _ _ _ _ _ _ Hcl) as (Hf & Ht & Hcs & Hex).
  assert (page_of (bury s') b w = Some x) as Hx'.
  { rewrite page_of_bury, (cl_pages _ _ _ _ _ _ Hcl), decide_False by naive_solver. by rewrite <- page_of_bury. }
  exists x. split; [done|]. destruct (location x) eqn:Hlx; [done|cbn in *; by rewrite Hex| |cbn; by rewrite Hf].
  assert (frame_of (bury s') (physicalPage (pte x)) = frame_of (bury s) (physicalPage (pte x))) as ->
    by (unfold frame_of; cbn; by rewrite (cl_machine _ _ _ _ _ _ Hcl)).
  destruct Hc as [Hfr Hd]. split; [done|]. destruct Hd as [Hd|Hd]; [left|right; cbn in *; by rewrite Hex].
  destruct Hd as [(i & Hat & Hdi)|(j & t & Hj & Hr)].
  - left. cbn in Hat. destruct (at_in (IPT s') (physicalPage (pte x))) as [i' Hat'].
    { apply at_range in Hat. rewrite (proj1 (cl_IPT _ _ _ _ _ _ Hcl)). done. }
    exists i'. split; [done|]. destruct (proj2 (cl_IPT _ _ _ _ _ _ Hcl) _ _ Hat') as (i0 & Hi0 & _ & -> & _). congruence.
  - right. exists j, t. split; [|done]. unfold tlb_at in *. cbn in *. by rewrite (cl_machine _ _ _ _ _ _ Hcl).
Qed.
End closed.

(** The three ways a page is given up. *)
Definition set_entry (a : nat) (v : Z) (e' : PageTableEntry) (s : VM) : VM :=
  with_space a (mkSpace (<[Z.to_nat v := e']> (spaceTable (spaces s a))) (executable (spaces s a))) s.

Lemma live_owner l s a v e q : closing_facts l s → page_of s a v = Some e →
  own s q = Some (a, v) ↔ dead e = false ∧ location e = MAIN ∧ physicalPage (pte e) = q.
Proof.
  intros Hi He. rewrite (cf_pages _ _ Hi). split.
  - intros (x & Hx & Hr). by assert (x = e) as -> by congruence.
  - intros Hr. by exists e.
Qed.

Section page_closed.
Context (l : list Z) (s : VM) (a : nat) (v : Z) (e e' : PageTableEntry).
Context (Hi : closing_facts l s) (He : page_of s a v = Some e).

Lemma set_entry_page s1 b w : spaces s1 = spaces s →
  page_of (set_entry a v e' s1) b w = if decide (b = a ∧ w = v) then Some e' else page_of s b w.
Proof.
  intros Hs. unfold set_entry. rewrite (page_of_set s1 a v e); unfold page_of; by rewrite Hs.
Qed.

Lemma closed_nothing : ¬ (dead e = false ∧ (location e = MAIN ∨ location e = SWAP)) → closed s (set_entry a v e' s) a v e e'.
Proof.
  intros Hno.
  assert (∀ q, own s q ≠ Some (a, v)) as Hown by (intros q; rewrite (live_owner l s a v e q Hi He); naive_solver).
  constructor; try done.
  - split_and!; try done. intros b. apply executable_set.
  - intros b w. by apply set_entry_page.
  - intros q. change (own (set_entry a v e' s) q) with (own s q). by rewrite decide_False.
  - split; [done|]. intros q i' Hq. by exists i'.
  - split_and!; try apply Hi. intros q Hq. cbn. by rewrite bool_decide_eq_true_2.
  - split_and!; try apply Hi. intros k Hk. cbn. rewrite bool_decide_eq_true_2; [done|]. intros (Hd & Hs & _). tauto.
Qed.

Lemma closed_swap b : dead e = false → location e = SWAP → wf b → numBits b = NumSwapPages →
  (∀ j, 0 <= j → used b j = negb (j =? Z.quot (byteOffset e) PageSize) && used (swapBitMap s) j) →
  closed s (set_entry a v e' (with_swap b (swapFile s) s)) a v e e'.
Proof.
  intros Hd Hl Hb Hn Hu.
  assert (∀ q, own s q ≠ Some (a, v)) as Hown by (intros q; rewrite (live_owner l s a v e q Hi He), Hl; naive_solver).
  destruct (cf_swap _ _ Hi a v e He Hd Hl) as (_ & k0 & Hk0 & Hoff & _).
  constructor; try done.
  - split_and!; try done. intros c. unfold set_entry. by rewrite executable_set.
  - intros c w. by apply set_entry_page.
  - intros q. change (own (set_entry a v e' (with_swap b (swapFile s) s)) q) with (own s q). by rewrite decide_False.
  - split; [done|]. intros q i' Hq. by exists i'.
  - split_and!; try apply Hi. intros q Hq. cbn. by rewrite bool_decide_eq_true_2.
  - split_and!; try done. intros k Hk. cbn. rewrite Hu, Hoff, Z.quot_mul by (unfold PageSize, SectorSize; lia).
    f_equal. rewrite Hd, Hl. destruct (Z.eqb_spec k k0) as [->|Hne]; cbn; symmetry.
    + apply bool_decide_eq_false_2. tauto.
    + apply bool_decide_eq_true_2. unfold PageSize, SectorSize. intros (_ & _ & ?). lia.
Qed.

Lemma closed_main b l' i : dead e = false → location e = MAIN → wf b → numBits b = NumPhysPages →
  (∀ j, 0 <= j → used b j = negb (j =? physicalPage (pte e)) && used (pageTableBitMap s) j) →
  at_ (IPT s) (physicalPage (pte e)) = Some i →
  closed s (set_entry a v e' (with_IPT (<[Z.to_nat (physicalPage (pte e)) := mkIPTE (set_valid false (ipte i)) (PID i)]> (IPT s))
    (with_FIFO l' (with_frames b s)))) a v e e'.
Proof.
  intros Hd Hl Hb Hn Hu Hat. set (p := physicalPage (pte e)) in *. set (i' := mkIPTE _ _).
  assert (∀ q, own s q = Some (a, v) ↔ q = p) as Hown.
  { intros q. rewrite (live_owner l s a v e q Hi He), Hl, Hd. unfold p. naive_solver. }
  destruct (vset_at _ _ i' _ Hat) as (_ & Hlen & Hatx).
  constructor; try done.
  - split_and!; try done. intros c. unfold set_entry. by rewrite executable_set.
  - intros c w. by apply set_entry_page.
  - intros q. change (own (set_entry a v e' (with_IPT (<[Z.to_nat p:=i']> (IPT s)) (with_FIFO l' (with_frames b s)))) q)
      with (own (with_IPT (<[Z.to_nat p:=i']> (IPT s)) s) q). rewrite (own_set _ _ _ _ _ Hat).
    destruct (decide (q = p)) as [->|Hq]; [by rewrite decide_True by (by apply Hown)|].
    rewrite decide_False; [done|]. by rewrite Hown.
  - split; [done|]. intros q x. cbn. rewrite Hatx. destruct (decide (q = p)) as [->|Hq]; [|by exists x].
    intros [= <-]. by exists i.
  - split_and!; try done. intros q Hq. cbn. rewrite Hu by lia. f_equal.
    destruct (Z.eqb_spec q p) as [->|Hne]; cbn; symmetry; [apply bool_decide_eq_false_2|apply bool_decide_eq_true_2];
      rewrite Hown; tauto.
  - split_and!; try apply Hi. intros k Hk. cbn. rewrite bool_decide_eq_true_2; [done|]. intros (_ & Hs & _). congruence.
Qed.
End page_closed.

(** ** Exit of a thread *)

Definition exited (e : PageTableEntry) : PageTableEntry :=
  mkPTE (set_physicalPage (-1) (set_valid false (pte e))) (location e) (byteOffset e).
Definition own_queue (s : VM) (l : list Z) : Prop := NoDup l ∧ ∀ q, q ∈ l ↔ is_Some (own s q).

Lemma exited_gone e : gone (exited e).
Proof. unfold gone, dead. cbn. destruct (location e); auto. Qed.

Lemma live_valid e : dead e = false → location e = MAIN ∨ location e = SWAP → valid (pte e) = true.
Proof. unfold dead. destruct (valid (pte e)); [done|]. intros Hd [Hl|Hl]; by rewrite Hl in Hd. Qed.

Lemma wp_clear_frame E s p (Q : unit → VM → Prop) : wf (pageTableBitMap s) → 0 <= p < numBits (pageTableBitMap s) →
  (∀ b, wf b → numBits b = numBits (pageTableBitMap s) →
     (∀ j, 0 <= j → used b j = negb (j =? p) && used (pageTableBitMap s) j) → Q () (with_frames b s)) →
  wp E (clear_frame p) Q s.
Proof.
  intros Hw Hp HQ. apply wp_bind, wp_get, wp_bind. destruct (Clear_spec _ _ Hw Hp) as (b & Hb & Hwb & Hn & Hu).
  eapply wp_lift; [exact Hb|]. apply wp_put. by apply HQ.
Qed.

Lemma wp_clear_swap E s off (Q : unit → VM → Prop) : wf (swapBitMap s) → 0 <= Z.quot off PageSize < numBits (swapBitMap s) →
  (∀ b, wf b → numBits b = numBits (swapBitMap s) →
     (∀ j, 0 <= j → used b j = negb (j =? Z.quot off PageSize) && used (swapBitMap s) j) → Q () (with_swap b (swapFile s) s)) →
  wp E (clear_swap off) Q s.
Proof.
  intros Hw Hp HQ. apply wp_bind, wp_get, wp_bind. destruct (Clear_spec _ _ Hw Hp) as (b & Hb & Hwb & Hn & Hu).
  eapply wp_lift; [exact Hb|]. apply wp_put. by apply HQ.
Qed.

(** What the branches do before the entry is written. *)
Section given_up.
Context (l : list Z) (s : VM) (a : nat) (v : Z) (e : PageTableEntry).
Context (Hi : closing_facts l s) (He : page_of s a v = Some e).

Lemma swap_index : dead e = false → location e = SWAP → 0 <= Z.quot (byteOffset e) PageSize < NumSwapPages.
Proof.
  intros Hd Hl. destruct (cf_swap _ _ Hi a v e He Hd Hl) as (_ & k & Hk & -> & _).
  by rewrite Z.quot_mul by (unfold PageSize, SectorSize; lia).
Qed.

Lemma owned_frame : dead e = false → location e = MAIN → own s (physicalPage (pte e)) = Some (a, v) ∧
  0 <= physicalPage (pte e) < NumPhysPages ∧ ∃ i, at_ (IPT s) (physicalPage (pte e)) = Some i.
Proof.
  intros Hd Hl. assert (own s (physicalPage (pte e)) = Some (a, v)) as Ho by (by apply (live_owner l s a v e)).
  split; [done|]. destruct (own_at _ _ _ Ho) as (i & Hat & _). split; [|by exists i].
  apply at_range in Hat. rewrite (cf_length _ _ Hi) in Hat. unfold NumPhysPages in *. lia.
Qed.
End given_up.

Lemma exit_page_spec s a v e : closing_facts (FIFOList s) s → page_of s a v = Some e →
  wp no_fault (exit_page a v) (λ _ s', closed s s' a v e (exited e) ∧ own_queue s' (FIFOList s')) s.
Proof.
  intros Hi He. unfold exit_page. apply wp_bind. eapply wp_get_page; [done|]. fold (exited e).
  assert (∀ s1 l', spaces s1 = spaces s → FIFOList s1 = l' → NoDup l' → (∀ q, q ∈ l' ↔ is_Some (own s q) ∧ own s q ≠ Some (a, v)) →
    closed s (set_entry a v (exited e) s1) a v e (exited e) →
    wp no_fault (set_page a v (exited e)) (λ _ s', closed s s' a v e (exited e) ∧ own_queue s' (FIFOList s')) s1) as Hset.
  { intros s1 l' Hs Hl' Hnd Hin Hcl. eapply wp_set_page; [unfold page_of; rewrite Hs; exact He|].
    split; [exact Hcl|]. cbn. rewrite Hl'. split; [done|]. intros q. rewrite (Hin q).
    unfold set_entry in Hcl. rewrite (cl_own _ _ _ _ _ _ Hcl). destruct (decide (own s q = Some (a, v))); [|tauto].
    split; [tauto|by intros []]. }
  destruct (cf_fifo _ _ Hi) as [Hnd Hin].
  assert (¬ (dead e = false ∧ (location e = MAIN ∨ location e = SWAP)) →
    wp no_fault (set_page a v (exited e)) (λ _ s', closed s s' a v e (exited e) ∧ own_queue s' (FIFOList s')) s) as Hnone.
  { intros Hno. apply (Hset s (FIFOList s)); try done; [|by eapply closed_nothing].
    intros q. rewrite Hin, (live_owner _ s a v e q Hi He). tauto. }
  apply wp_bind. destruct (valid (pte e)) eqn:Hv.
  2:{ apply wp_ret, Hnone. intros [Hd Hl]. by rewrite live_valid in Hv. }
  assert (dead e = false) as Hd by (unfold dead; by rewrite Hv).
  destruct (location e) eqn:Hl; [apply wp_ret, Hnone; naive_solver..| |].
  - destruct (owned_frame _ s a v e Hi He Hd Hl) as (Ho & Hp & i & Hat). set (p := physicalPage (pte e)) in *.
    destruct (cf_frames _ _ Hi) as [Hw Hn].
    apply wp_bind, wp_clear_frame; [done|lia|]. intros b Hb Hnb Hub. rewrite Hn in Hnb.
    apply wp_bind, removePageFromFIFOQ_spec; [exact Hnd|apply Hin; by eexists|]. intros l' Hnd' Hin'. cbn in Hin'.
    unfold invalidate_IPT. apply wp_bind. eapply wp_get_IPT; [exact Hat|]. eapply wp_set_IPT; [exact Hat|].
    apply (Hset _ l'); try done; [|exact (closed_main (FIFOList s) s a v e (exited e) Hi He b l' i Hd Hl Hb Hnb Hub Hat)].
    intros q. rewrite Hin', Hin. rewrite (live_owner _ s a v e q Hi He), Hd, Hl. fold p. naive_solver.
  - destruct (cf_swapmap _ _ Hi) as [Hw Hn]. pose proof (swap_index _ s a v e Hi He Hd Hl).
    apply wp_clear_swap; [done|lia|]. intros b Hb Hnb Hub. rewrite Hn in Hnb.
    apply (Hset _ (FIFOList s)); try done; [|exact (closed_swap (FIFOList s) s a v e (exited e) Hi He b Hd Hl Hb Hnb Hub)].
    intros q. rewrite Hin, (live_owner _ s a v e q Hi He), Hl. naive_solver.
Qed.

(** ** [SaveState], whatever the TLB says *)

(** Only the TLB and dirty bits differ, and no frame became clean. *)
Record flushed (s s' : VM) : Prop := {
  fl_machine : machine_wf (machine s') ∧ is_Some (tlb (machine s')) ∧ mainMemory (machine s') = mainMemory (machine s) ∧
    registers (machine s') = registers (machine s);
  fl_IPT : length (IPT s') = length (IPT s) ∧ ∀ q i', at_ (IPT s') q = Some i' → ∃ i, at_ (IPT s) q = Some i ∧
    PID i' = PID i ∧ virtualPage (ipte i') = virtualPage (ipte i) ∧ physicalPage (ipte i') = physicalPage (ipte i) ∧
    valid (ipte i') = valid (ipte i) ∧ (dirty (ipte i) = true → dirty (ipte i') = true);
  fl_same : pageTableBitMap s' = pageTableBitMap s ∧ swapBitMap s' = swapBitMap s ∧ swapFile s' = swapFile s ∧
    FIFOList s' = FIFOList s ∧ currentTLB s' = currentTLB s ∧ spaces s' = spaces s ∧ currentSpace s' = currentSpace s;
  fl_dirty : ∀ p, frame_dirty s p → frame_dirty s' p
}.

Definition tlb_sound (s : VM) : Prop := machine_wf (machine s) ∧ is_Some (tlb (machine s)) ∧
  ∀ j e, tlb_at s j = Some e → valid e = true → is_Some (at_ (IPT s) (physicalPage e)).

Lemma flushed_refl s : machine_wf (machine s) → is_Some (tlb (machine s)) → flushed s s.
Proof. intros Hm Ht. constructor; try done. split; [done|]. intros q i Hq. by exists i. Qed.

Lemma flushed_trans s1 s2 s3 : flushed s1 s2 → flushed s2 s3 → flushed s1 s3.
Proof.
  intros [(A1 & A2 & A3 & A4) [B1 B2] (C1 & C2 & C3 & C4 & C5 & C6 & C7) D]
    [(A1' & A2' & A3' & A4') [B1' B2'] (C1' & C2' & C3' & C4' & C5' & C6' & C7') D'].
  constructor; [split_and!; congruence| |split_and!; congruence|auto].
  split; [congruence|]. intros q i3 (i2 & Hi2 & P1 & P2 & P3 & P4 & P5)%B2'.
  destruct (B2 _ _ Hi2) as (i1 & Hi1 & Q1 & Q2 & Q3 & Q4 & Q5). exists i1. split_and!; try congruence; auto.
Qed.

Lemma propogate_flushed s j e : tlb_sound s → tlb_at s j = Some e →
  wp no_fault (propogateCurTLBDirty j) (λ _ s', flushed s s' ∧ machine s' = machine s ∧
    (valid e = true → dirty e = true → ∃ i, at_ (IPT s') (physicalPage e) = Some i ∧ dirty (ipte i) = true)) s.
Proof.
  intros (Hm & Ht & Hs) He. unfold propogateCurTLBDirty. apply wp_bind. eapply wp_get_tlb; [done|].
  destruct (valid e && dirty e) eqn:Hvd.
  - apply andb_true_iff in Hvd as [Hv Hd]. destruct (Hs j e He Hv) as [i Hi].
    apply wp_bind. eapply wp_get_IPT; [exact Hi|]. eapply wp_set_IPT; [exact Hi|].
    set (i' := mkIPTE (set_dirty true (ipte i)) (PID i)).
    destruct (vset_at _ _ i' _ Hi) as (_ & Hlen & Hat).
    split; [|split; [done|]].
    + constructor; try done.
      * split; [done|]. intros q x. cbn. rewrite Hat. destruct (decide (q = physicalPage e)) as [->|]; [|by exists x].
        intros [= <-]. by exists i.
      * intros p [(x & Hx & Hdx)|(k & y & Hk)]; [left|right; by exists k, y]. cbn. rewrite Hat.
        destruct (decide (p = physicalPage e)); [by exists i'|by exists x].
    + intros _ _. cbn. rewrite Hat, decide_True by done. by exists i'.
  - apply wp_ret. split; [by apply flushed_refl|]. split; [done|]. intros Hv Hd. by rewrite Hv, Hd in Hvd.
Qed.

Lemma SaveState_loop_flushed : ∀ n i s, tlb_sound s → 0 <= i → i + Z.of_nat n = TLBSize →
  wp no_fault (SaveState_loop i n) (λ _ s', flushed s s' ∧ (∀ j, j < i → tlb_at s' j = tlb_at s j) ∧
    ∀ j x, i <= j → tlb_at s' j = Some x → valid x = false) s.
Proof.
  induction n as [|n IH]; intros i s Hs H0 Hn; cbn [SaveState_loop]; pose proof Hs as ([M1 M2 M3 M4] & [t Ht] & Hsound).
  - apply wp_ret. split_and!; [by apply flushed_refl; [apply Hs|]|done|]. intros j x Hj Hx. unfold tlb_at in Hx.
    rewrite Ht in *. apply at_range in Hx. destruct (pageTable (machine s)); [done|]. lia.
  - assert (∃ e, at_ t i = Some e) as [e He].
    { apply at_in. rewrite Ht in M3. destruct (pageTable (machine s)); [done|]. lia. }
    assert (tlb_at s i = Some e) as Hie by (unfold tlb_at; by rewrite Ht).
    apply wp_bind. eapply wp_mono; [by apply (propogate_flushed s i e)|]. cbn. intros _ s1 (Hf1 & Hm1 & Hd1).
    assert (∀ j, tlb_at s1 j = tlb_at s j) as Ht1 by (intros; unfold tlb_at; by rewrite Hm1).
    apply wp_bind. eapply wp_get_tlb; [by rewrite Ht1|]. apply wp_bind.
    assert (tlb (machine s1) = Some t) as Ht1' by (by rewrite Hm1).
    eapply wp_set_tlb; [exact Ht1'|exact He|]. set (s2 := with_machine _ s1).
    assert (∀ j, tlb_at s2 j = if decide (j = i) then Some (set_valid false e) else tlb_at s j) as Ht2.
    { intros j. unfold s2. rewrite (tlb_at_set _ _ _ _ _ _ Ht1' He), Ht1. done. }
    destruct (vset_at _ _ (set_valid false e) _ He) as (_ & Hlen & _).
    assert (flushed s1 s2) as Hf2.
    { constructor; try done.
      - split_and!; try done. apply (tlb_wf _ t); [apply (fl_machine _ _ Hf1)|done|done].
      - split; [done|]. intros q x Hq. by exists x.
      - intros p [(x & Hx & Hdx)|(k & y & Hk & Hv & Hp & Hdy)]; [left; by exists x|].
        destruct (decide (k = i)) as [->|Hki].
        + left. rewrite Ht1, Hie in Hk. injection Hk as <-. destruct (Hd1 Hv Hdy) as (x & Hx & Hdx).
          rewrite Hp in Hx. by exists x.
        + right. exists k, y. rewrite Ht2, decide_False by done. by rewrite <- Ht1. }
    assert (tlb_sound s2) as Hs2.
    { split; [apply (fl_machine _ _ Hf2)|]. split; [by eexists|]. intros j x. rewrite Ht2.
      destruct (decide (j = i)); [by intros [= <-]|]. intros Hx Hv. destruct (Hsound j x Hx Hv) as [y Hy].
      apply at_in. apply at_range in Hy. change (IPT s2) with (IPT s1). rewrite (proj1 (fl_IPT _ _ Hf1)). done. }
    clearbody s2. eapply wp_mono; [apply (IH (i + 1) s2 Hs2); lia|]. cbn. intros _ s3 (Hf3 & Hlow & Hhigh). split_and!.
    + by eapply flushed_trans, flushed_trans.
    + intros j Hj. rewrite Hlow, Ht2, decide_False by lia. done.
    + intros j x Hj Hx. destruct (decide (j = i)) as [->|]; [|apply (Hhigh j x); [lia|done]].
      rewrite Hlow, Ht2, decide_True in Hx by lia. by injection Hx as <-.
Qed.

Lemma SaveState_flushed s : tlb_sound s → wp no_fault SaveState (λ _ s', flushed s s' ∧
  ∀ j x, tlb_at s' j = Some x → valid x = false) s.
Proof.
  intros Hs. eapply wp_mono; [apply (SaveState_loop_flushed (Z.to_nat TLBSize) 0 s Hs); [lia|done]|].
  cbn. intros _ s' (Hf & _ & Hall). split; [done|]. intros j x Hx. apply (Hall j x); [|done].
  unfold tlb_at in Hx. destruct (tlb (machine s')); [|done]. apply at_range in Hx. lia.
Qed.

Lemma flushed_own s s' p : flushed s s' → own s' p = own s p.
Proof.
  intros Hf. unfold own. destruct (at_ (IPT s') p) as [i'|] eqn:Hi'.
  - destruct (proj2 (fl_IPT _ _ Hf) p i' Hi') as (i & -> & -> & -> & _ & -> & _). done.
  - destruct (at_ (IPT s) p) as [i|] eqn:Hi; [|done]. apply at_range in Hi.
    destruct (at_in (IPT s') p) as [x Hx]; [by rewrite (proj1 (fl_IPT _ _ Hf))|congruence].
Qed.

Lemma flushed_facts l s s' : flushed s s' → closing_facts l s → closing_facts l s'.
Proof.
  intros Hf Hi. destruct (fl_same _ _ Hf) as (H1 & H2 & H3 & H4 & H5 & H6 & H7).
  destruct (fl_IPT _ _ Hf) as [Hlen Hipt].
  assert (∀ a v, page_of s' a v = page_of s a v) as Hp by (intros; unfold page_of; by rewrite H6).
  constructor; try done; rewrite ?H1, ?H2, ?H3, ?H5, ?H6, ?Hlen; try apply Hi.
  - split; apply (fl_machine _ _ Hf).
  - intros p i' (i & Hat & _ & _ & -> & -> & _)%Hipt. by apply (cf_phys _ _ Hi).
  - intros p Hpr. rewrite (flushed_own _ _ _ Hf). by apply Hi.
  - split; [apply Hi|]. intros p. rewrite (flushed_own _ _ _ Hf). apply Hi.
  - intros p a v. rewrite (flushed_own _ _ _ Hf), Hp. apply Hi.
  - intros a v e. rewrite Hp. apply Hi.
  - intros a v e. rewrite Hp. apply Hi.
  - intros a v e a' v' e'. rewrite !Hp. apply Hi.
Qed.

Lemma flushed_content s s' a v bs : flushed s s' → live_content s a v bs → live_content s' a v bs.
Proof.
  intros Hf [Hl (e & He & Hc)]. destruct (fl_same _ _ Hf) as (H1 & H2 & H3 & H4 & H5 & H6 & H7).
  split; [done|]. exists e. split; [by rewrite page_of_bury in *; unfold page_of in *; rewrite H6|].
  destruct (location e); cbn in *; rewrite ?H3, ?H6; try done. destruct Hc as [Hfr Hd]. split.
  - rewrite <- Hfr. unfold frame_of. cbn. by rewrite (proj1 (proj2 (proj2 (fl_machine _ _ Hf)))).
  - destruct Hd as [Hd|Hd]; [left|by right]. exact (fl_dirty _ _ Hf _ Hd).
Qed.

(** With an empty TLB a closing state is a state of the machine. *)
Lemma closing_live s : (∀ j x, tlb_at s j = Some x → valid x = false) → closing_facts (FIFOList s) s → live_inv s.
Proof.
  intros Htlb Hi. apply closing_inv_of in Hi.
  destruct (cold_fields (bury s)) as (HI & Hf & Hb & Hw & Ht & Hc & Hs).
  assert (closing (FIFOList s) s = with_machine (machine (closing (FIFOList s) s)) (bury s)) as Heq.
  { unfold closing. destruct (cold_case (bury s)) as [(t & Hte & ->)|[Hte ->]]; done. }
  change (vm_inv (-1) (closing (FIFOList s) s)) in Hi. rewrite Heq in Hi.
  pose proof (proj1 (closing_machine (FIFOList s) s) (conj (vi_machine _ _ Hi) (vi_has_tlb _ _ Hi))) as [Hm Hsome].
  destruct Hi. constructor; try done.
  - intros j e Hj Hv. by rewrite (Htlb j e Hj) in Hv.
  - intros j j' e e' Hj _ Hv. by rewrite (Htlb j e Hj) in Hv.
Qed.

Lemma live_closing s : live_inv s → closing_facts (FIFOList s) s ∧ tlb_sound s.
Proof.
  intros Hi. split.
  - constructor; try apply Hi.
    + split; apply Hi.
    + intros p Hp. pose proof (vi_used _ _ Hi p Hp) as Hu. change (used (pageTableBitMap (bury s)) p) with
        (used (pageTableBitMap s) p) in Hu. rewrite Hu, is_Some_case, own_bury. destruct (own s p); [done|]. apply Z.eqb_neq. lia.
    + intros p a v. rewrite <- buried_main. apply (vi_pages _ _ Hi).
    + intros a v e He. destruct (vi_virtual _ _ Hi a v (bury_page e)) as [Hv ?]; [by rewrite page_of_bury, He|].
      by rewrite (proj1 (bury_entry e)) in Hv.
    + intros a v e He Hd. apply (vi_swap _ _ Hi a v e). rewrite page_of_bury, He. cbn. by rewrite bury_live.
    + intros a v e a' v' e' He He' Hd Hd'. apply (vi_swap_once _ _ Hi);
        rewrite page_of_bury, ?He, ?He'; cbn; by rewrite bury_live.
  - split; [apply Hi|]. split; [apply Hi|]. intros j e Hj Hv.
    destruct (own_at _ _ _ (vi_tlb _ _ Hi j e Hj Hv)) as (i & Hat & _). by exists i.
Qed.

(** ** The loops *)

Lemma wp_on_vm {A} E (op : M VM A) (Q : A → Spaces → Prop) s :
  wp E op (λ a v, Q a (mkSpaces v (threadTable s))) (vm s) → wp E (on_vm op) Q s.
Proof. unfold wp, on_vm. by destruct (op (vm s)) as [[a v]|f]. Qed.

Lemma closed_sound s s' a v e e' : tlb_sound s → closed s s' a v e e' → tlb_sound s'.
Proof.
  intros (Hm & Ht & Hs) Hcl. unfold tlb_sound, tlb_at. rewrite (cl_machine _ _ _ _ _ _ Hcl).
  split; [done|]. split; [done|]. intros j x Hj Hv. destruct (Hs j x Hj Hv) as [y Hy]. apply at_range in Hy.
  apply at_in. by rewrite (proj1 (cl_IPT _ _ _ _ _ _ Hcl)).
Qed.

Lemma exited_twice e : exited (exited e) = exited e.
Proof. done. Qed.

(** Pages [L] of space [a] are given up, nothing else. *)
Record swept (a : nat) (L : list Z) (s s' : VM) : Prop := {
  sw_facts : closing_facts (FIFOList s') s' ∧ tlb_sound s';
  sw_pages : ∀ b w, page_of s' b w = if decide (b = a ∧ w ∈ L) then exited <$> page_of s b w else page_of s b w;
  sw_content : ∀ b w bs, ¬ (b = a ∧ w ∈ L) → live_content s b w bs → live_content s' b w bs;
  sw_current : currentSpace s' = currentSpace s ∧ registers (machine s') = registers (machine s);
  sw_less : (∀ q, 0 <= q < NumPhysPages → used (pageTableBitMap s) q = false → used (pageTableBitMap s') q = false) ∧
    ∀ k, 0 <= k < NumSwapPages → used (swapBitMap s) k = false → used (swapBitMap s') k = false;
  sw_freed : ∀ w e, w ∈ L → page_of s a w = Some e → dead e = false →
    (location e = MAIN → used (pageTableBitMap s') (physicalPage (pte e)) = false) ∧
    (location e = SWAP → used (swapBitMap s') (Z.quot (byteOffset e) PageSize) = false)
}.

Lemma swept_step l a v L s s1 s' e : closing_facts l s → page_of s a v = Some e → closed s s1 a v e (exited e) →
  swept a L s1 s' → swept a (v :: L) s s'.
Proof.
  intros Hi He Hcl [Hf Hp Hc Hcs [Hl1 Hl2] Hfr]. destruct (cl_fixed _ _ _ _ _ _ Hcl) as (_ & _ & Hcur & _).
  destruct (cl_frames _ _ _ _ _ _ Hcl) as (_ & _ & Hu). destruct (cl_swap _ _ _ _ _ _ Hcl) as (_ & _ & Hsu).
  constructor; [done| | |split; [|rewrite (proj2 Hcs), (cl_machine _ _ _ _ _ _ Hcl)]; intuition congruence| |].
  - intros b w. rewrite Hp, (cl_pages _ _ _ _ _ _ Hcl).
    destruct (decide (b = a ∧ w = v)) as [[-> ->]|Hne].
    + rewrite He, (decide_True (P := a = a ∧ v ∈ v :: L)) by (split; [done|by left]). by destruct (decide (a = a ∧ v ∈ L)).
    + destruct (decide (b = a ∧ w ∈ L)) as [[? ?]|Hno]; [by rewrite decide_True by (split; [done|by right])|].
      rewrite decide_False; [done|]. intros [? [?|?]%elem_of_cons]; tauto.
  - intros b w bs Hne Hbs. apply Hc; [rewrite elem_of_cons in Hne; tauto|].
    eapply closed_content; [exact Hcl| |exact Hbs]. intros [= -> ->]. apply Hne. split; [done|by left].
  - split; [intros q Hq Hu'; apply Hl1; [done|]; by rewrite Hu, Hu', andb_false_r|].
    intros k Hk Hu'. apply Hl2; [done|]. by rewrite Hsu, Hu', andb_false_r.
  - intros w x Hw Hx Hd. destruct (decide (w = v)) as [->|Hne].
    + assert (x = e) as -> by congruence. split; intros Hl.
      * destruct (owned_frame _ s a v e Hi He Hd Hl) as (Ho & Hq & _). apply Hl1; [done|]. rewrite Hu, Ho by done.
        rewrite bool_decide_eq_false_2; [done|]. intros Hno. by apply Hno.
      * pose proof (swap_index _ s a v e Hi He Hd Hl) as Hk. apply Hl2; [done|]. rewrite Hsu by done.
        rewrite bool_decide_eq_false_2; [done|]. intros Hno. apply Hno. split_and!; [done..|].
        destruct (cf_swap _ _ Hi a v e He Hd Hl) as (_ & k & _ & -> & _). by rewrite Z.quot_mul by (unfold PageSize, SectorSize; lia).
    + apply (Hfr w x); [by apply elem_of_cons in Hw as [?|?]| |done].
      rewrite (cl_pages _ _ _ _ _ _ Hcl), decide_False; [done|naive_solver].
Qed.

Lemma exit_pages_spec a id ps : ∀ n i s, threadTable s a !! id = Some ps → 0 <= i → i + Z.of_nat n <= Z.of_nat (length ps) →
  (∀ v, v ∈ ps → 0 <= v < numPages (vm s) a) → closing_facts (FIFOList (vm s)) (vm s) → tlb_sound (vm s) →
  wp no_fault (exit_pages a id i n) (λ _ s', swept a (take n (drop (Z.to_nat i) ps)) (vm s) (vm s') ∧
    threadTable s' = threadTable s) s.
Proof.
  induction n as [|n IH]; intros i s Hps H0 Hn Hin Hi Ht; cbn [exit_pages].
  - apply wp_ret. split; [|done]. constructor; try done.
    + intros b w. rewrite decide_False; [done|]. by intros [_ ?%not_elem_of_nil].
    + by intros w e ?%not_elem_of_nil.
  - destruct (lookup_lt_is_Some_2 ps (Z.to_nat i)) as [v Hv]; [lia|].
    assert (drop (Z.to_nat i) ps = v :: drop (Z.to_nat (i + 1)) ps) as ->
      by (rewrite (drop_S _ v) by done; do 2 f_equal; lia). cbn [take].
    assert (0 <= v < numPages (vm s) a) as Hvr by (apply Hin; by eapply list_elem_of_lookup_2).
    destruct (at_in (spaceTable (spaces (vm s) a)) v Hvr) as [e He].
    apply wp_bind, wp_bind, wp_get. rewrite Hps. eapply wp_lift; [apply at_vget; unfold at_; rewrite (proj2 (Z.leb_le 0 i)) by lia; exact Hv|].
    apply wp_bind, wp_on_vm. eapply wp_mono; [by apply (exit_page_spec (vm s) a v e)|]. cbn. intros _ v1 [Hcl Hq].
    assert (closing_facts (FIFOList v1) v1) as Hi1 by (by eapply closed_facts; [exact Hi|exact He|exact Hcl|apply exited_gone|done|]).
    eapply wp_mono; [apply (IH (i + 1)); cbn; try done; [lia|lia| |by eapply closed_sound]|].
    + intros w Hw. specialize (Hin w Hw). unfold numPages in *. destruct (at_in (spaceTable (spaces (vm s) a)) w Hin) as [x Hx].
      destruct (at_ (spaceTable (spaces v1 a)) w) as [y|] eqn:Hy; [by apply at_range in Hy|].
      pose proof (cl_pages _ _ _ _ _ _ Hcl a w) as Hpg. unfold page_of in Hpg. rewrite Hy, Hx in Hpg. by case_decide.
    + cbn. intros _ s2 [Hsw Hth]. split; [|done]. by eapply (swept_step (FIFOList (vm s))).
Qed.

(** ** The destructor *)

Definition released (e : PageTableEntry) : PageTableEntry :=
  if valid (pte e) then mkPTE (set_valid false (pte e)) (location e) (byteOffset e) else e.

Lemma released_gone e : gone (released e).
Proof. unfold gone, released, dead. destruct (valid (pte e)) eqn:Hv; cbn; rewrite ?Hv; destruct (location e); auto. Qed.

(** No entry of the queue is the frame of the page of its own index. *)
Definition no_match (a : nat) (s : VM) : Prop := ∀ ii x e, at_ (FIFOList s) ii = Some x → page_of s a ii = Some e →
  x ≠ physicalPage (pte e).

Lemma unqueue_spec E a : ∀ n ii s, 0 <= ii → ii + Z.of_nat n = Z.of_nat (length (FIFOList s)) →
  Z.of_nat (length (FIFOList s)) <= numPages s a →
  wp E (unqueue_by_index a ii n) (λ _ s', ∃ l, s' = with_FIFO l s ∧ (length l <= length (FIFOList s))%nat ∧
    (no_match a s → l = FIFOList s)) s.
Proof.
  induction n as [|n IH]; intros ii s H0 Hn Hl; cbn [unqueue_by_index].
  - apply wp_ret. exists (FIFOList s). split; [by destruct s|done].
  - destruct (at_in (FIFOList s) ii) as [x Hx]; [lia|].
    destruct (at_in (spaceTable (spaces s a)) ii) as [e He]; [unfold numPages in Hl; lia|].
    apply wp_bind, wp_get, wp_bind. eapply wp_lift; [by apply at_vget|]. apply wp_bind. eapply wp_get_page; [exact He|].
    destruct (Z.eqb_spec x (physicalPage (pte e))) as [Heq|Hne]; [|apply IH; lia].
    apply wp_bind. eapply wp_lift; [apply verase_in; lia|]. apply wp_put. eexists. split; [done|].
    split; [rewrite length_delete; [lia|]; apply at_lookup in Hx as [Hx _]; by eexists|].
    intros Hno. by destruct (Hno ii x e Hx He).
Qed.

Lemma closed_dead s l a v e : closing_facts l s → page_of s a v = Some e → valid (pte e) = false → closed s s a v e e.
Proof.
  intros Hi He Hv.
  assert (¬ (dead e = false ∧ (location e = MAIN ∨ location e = SWAP))) as Hno
    by (intros [Hd Hl]; by rewrite live_valid in Hv).
  assert (∀ q, own s q ≠ Some (a, v)) as Hown by (intros q; rewrite (live_owner l s a v e q Hi He); naive_solver).
  constructor; try done.
  - intros b w. case_decide as Hb; [|done]. by destruct Hb as [-> ->].
  - intros q. by rewrite decide_False.
  - split; [done|]. intros q i' Hq. by exists i'.
  - split_and!; try apply Hi. intros q Hq. by rewrite bool_decide_eq_true_2.
  - split_and!; try apply Hi. intros k Hk. rewrite bool_decide_eq_true_2; [done|]. naive_solver.
Qed.

(** One page: everything but the queue is as it should be. *)
Record let_go (a : nat) (v : Z) (e : PageTableEntry) (s s' : VM) : Prop := {
  lg_closed : closed s s' a v e (released e);
  lg_queue : (length (FIFOList s') <= length (FIFOList s))%nat ∧ (no_match a s → FIFOList s' = FIFOList s)
}.

Lemma release_page_spec l s a v e : closing_facts l s → page_of s a v = Some e →
  Z.of_nat (length (FIFOList s)) <= numPages s a →
  wp no_fault (release_page a v) (λ _ s', let_go a v e s s') s.
Proof.
  intros Hi He Hlen. unfold release_page. apply wp_bind. eapply wp_get_page; [done|].
  destruct (valid (pte e)) eqn:Hv.
  2:{ apply wp_ret. constructor; [|done]. unfold released. rewrite Hv. by eapply closed_dead. }
  assert (released e = mkPTE (set_valid false (pte e)) (location e) (byteOffset e)) as <- by (unfold released; by rewrite Hv).
  assert (dead e = false) as Hd by (unfold dead; by rewrite Hv).
  assert (∀ s1, spaces s1 = spaces s → (length (FIFOList s1) <= length (FIFOList s))%nat ∧ (no_match a s → FIFOList s1 = FIFOList s) →
    closed s (set_entry a v (released e) s1) a v e (released e) →
    wp no_fault (set_page a v (released e)) (λ _ s', let_go a v e s s') s1) as Hset.
  { intros s1 Hs Hq Hcl. eapply wp_set_page; [unfold page_of; rewrite Hs; exact He|]. by constructor. }
  apply wp_bind. destruct (location e) eqn:Hl.
  - apply wp_ret, Hset; [done|done|]. eapply closed_nothing; [done..|]. rewrite Hl. naive_solver.
  - apply wp_ret, Hset; [done|done|]. eapply closed_nothing; [done..|]. rewrite Hl. naive_solver.
  - destruct (owned_frame _ s a v e Hi He Hd Hl) as (Ho & Hp & i & Hat). set (p := physicalPage (pte e)) in *.
    destruct (cf_frames _ _ Hi) as [Hw Hn].
    apply wp_bind, wp_clear_frame; [done|lia|]. intros b Hb Hnb Hub. rewrite Hn in Hnb. apply wp_bind, wp_get, wp_bind.
    eapply wp_mono; [apply (unqueue_spec no_fault a (length (FIFOList s)) 0); cbn; [lia|lia|exact Hlen]|].
    cbn. intros _ s2 (l' & -> & Hl' & Hno).
    unfold invalidate_IPT. apply wp_bind. eapply wp_get_IPT; [exact Hat|]. eapply wp_set_IPT; [exact Hat|].
    apply Hset; [done|split; [done|exact Hno]|]. exact (closed_main l s a v e (released e) Hi He b l' i Hd Hl Hb Hnb Hub Hat).
  - destruct (cf_swapmap _ _ Hi) as [Hw Hn]. pose proof (swap_index _ s a v e Hi He Hd Hl).
    apply wp_clear_swap; [done|lia|]. intros b Hb Hnb Hub. rewrite Hn in Hnb.
    apply Hset; [done|done|]. exact (closed_swap l s a v e (released e) Hi He b Hd Hl Hb Hnb Hub).
Qed.

(** The queue without what is owned by nobody. *)
Definition owned (s : VM) (l : list Z) : list Z := filter (λ q, is_Some (own s q)) l.

Lemma owned_queue l s s' a v e e' : own_queue s l → closed s s' a v e e' → own_queue s' (owned s' l).
Proof.
  intros [Hnd Hin] Hcl. split; [by apply NoDup_filter|]. intros q. unfold owned. rewrite list_elem_of_filter.
  split; [tauto|]. intros Hq. split; [done|]. apply Hin. rewrite (cl_own _ _ _ _ _ _ Hcl) in Hq.
  destruct (decide (own s q = Some (a, v))); [by destruct Hq|done].
Qed.

(** The pages before [i] are gone. *)
Record let_go_all (a : nat) (i : Z) (s s' : VM) : Prop := {
  la_facts : (∃ l, closing_facts l s') ∧ tlb_sound s';
  la_phys : ∀ v e', page_of s' a v = Some e' → ∃ e, page_of s a v = Some e ∧ physicalPage (pte e') = physicalPage (pte e) ∧
    (v < i → gone e');
  la_queue : (length (FIFOList s') <= length (FIFOList s))%nat ∧ (no_match a s → FIFOList s' = FIFOList s);
  la_content : ∀ b w bs, b ≠ a → live_content s b w bs → live_content s' b w bs;
  la_current : currentSpace s' = currentSpace s;
  la_less : ∀ k, 0 <= k < NumSwapPages → used (swapBitMap s) k = false → used (swapBitMap s') k = false;
  la_freed : ∀ v e, v < i → page_of s a v = Some e → dead e = false → location e = SWAP →
    0 <= Z.quot (byteOffset e) PageSize < NumSwapPages → used (swapBitMap s') (Z.quot (byteOffset e) PageSize) = false;
  la_rest : ∀ b v, b ≠ a ∨ i <= v → page_of s' b v = page_of s b v;
  la_size : ∀ b, numPages s' b = numPages s b;
  la_own : ∀ q x, own s' q = Some x → own s q = Some x
}.

Lemma let_go_refl l a s : closing_facts l s → tlb_sound s → let_go_all a 0 s s.
Proof.
  intros Hf Ht. constructor; try done; [by split; [exists l|]| |].
  - intros v e He. exists e. split_and!; [done..|]. apply at_range in He. lia.
  - intros v e Hv He. apply at_range in He. lia.
Qed.

Lemma released_phys e : physicalPage (pte (released e)) = physicalPage (pte e).
Proof. unfold released. by destruct (valid (pte e)). Qed.

Lemma swap_freed s s' l a v e e' : closing_facts l s → page_of s a v = Some e → closed s s' a v e e' → dead e = false →
  location e = SWAP → used (swapBitMap s') (Z.quot (byteOffset e) PageSize) = false.
Proof.
  intros Hi He Hcl Hd Hl. pose proof (swap_index _ s a v e Hi He Hd Hl) as Hk.
  destruct (cl_swap _ _ _ _ _ _ Hcl) as (_ & _ & ->); [|done]. rewrite bool_decide_eq_false_2; [done|].
  intros Hno. apply Hno. split_and!; [done..|].
  destruct (cf_swap _ _ Hi a v e He Hd Hl) as (_ & k & _ & -> & _). by rewrite Z.quot_mul by (unfold PageSize, SectorSize; lia).
Qed.

Lemma same_pages_size s s' a : (∀ v, is_Some (page_of s' a v) ↔ is_Some (page_of s a v)) → numPages s' a = numPages s a.
Proof.
  intros Hv. unfold numPages. f_equal.
  assert (∀ (l1 l2 : list PageTableEntry), (∀ v, is_Some (at_ l1 v) → is_Some (at_ l2 v)) → (length l1 <= length l2)%nat) as Hle.
  { intros l1 l2 H. destruct (decide (length l1 <= length l2)%nat) as [|Hgt]; [done|].
    destruct (at_in l1 (Z.of_nat (length l2))) as [x Hx]; [lia|]. destruct (H (Z.of_nat (length l2)) ltac:(by eexists)) as [y Hy].
    apply at_range in Hy. lia. }
  apply Nat.le_antisymm; apply Hle; intros v; apply Hv.
Qed.

Lemma closed_size s s' a v e e' b : page_of s a v = Some e → closed s s' a v e e' → numPages s' b = numPages s b.
Proof.
  intros He Hcl. apply same_pages_size. intros w. rewrite (cl_pages _ _ _ _ _ _ Hcl).
  destruct (decide (b = a ∧ w = v)) as [[-> ->]|]; [|done]. rewrite He. split; by eexists.
Qed.

Lemma let_go_step a i s0 s s' e : page_of s a i = Some e → let_go_all a i s0 s → let_go a i e s s' → let_go_all a (i + 1) s0 s'.
Proof.
  intros He [[[l Hf] Ht] Hph [Hq1 Hq2] Hc Hcur Hless Hfr Hrest Hsz Hown] [Hcl [Hq1' Hq2']].
  destruct (cl_fixed _ _ _ _ _ _ Hcl) as (_ & _ & Hcur' & _). destruct (cl_swap _ _ _ _ _ _ Hcl) as (_ & _ & Hu).
  constructor.
  - split; [|by eapply closed_sound]. exists (owned s' l). eapply closed_facts; [exact Hf|exact He|exact Hcl|apply released_gone| |].
    + unfold released. by destruct (valid (pte e)).
    + eapply owned_queue; [|exact Hcl]. apply (cf_fifo _ _ Hf).
  - intros v e'. rewrite (cl_pages _ _ _ _ _ _ Hcl). destruct (decide (a = a ∧ v = i)) as [[_ ->]|Hne].
    + intros [= <-]. rewrite released_phys. exists e. rewrite <- Hrest by (right; lia). split_and!; [done|done|]. intros _. apply released_gone.
    + intros He'. destruct (Hph v e' He') as (x & Hx & Hp & Hg). exists x. split_and!; [done..|]. intros Hv. apply Hg.
      destruct (decide (v = i)); [tauto|lia].
  - split; [lia|]. intros Hno. rewrite Hq2'; [by apply Hq2|]. intros ii x y. rewrite (Hq2 Hno). intros Hx Hy.
    destruct (Hph ii y Hy) as (z & Hz & -> & _). by apply (Hno ii x z).
  - intros b w bs Hb Hbs. eapply closed_content; [exact Hcl|congruence|]. by apply Hc.
  - congruence.
  - intros k Hk Hu'. rewrite Hu, (Hless k) by done. apply andb_false_r.
  - intros v x Hv Hx Hd Hl Hr. destruct (decide (v = i)) as [->|Hne].
    + rewrite <- Hrest in Hx by (right; lia). assert (x = e) as -> by congruence. by eapply swap_freed.
    + rewrite Hu, (Hfr v x) by (done || lia). apply andb_false_r.
  - intros b v Hv. rewrite (cl_pages _ _ _ _ _ _ Hcl), decide_False by (intros [-> ->]; destruct Hv; [done|lia]).
    apply Hrest. destruct Hv; [by left|right; lia].
  - intros b. rewrite (closed_size _ _ _ _ _ _ _ He Hcl). apply Hsz.
  - intros q x. rewrite (cl_own _ _ _ _ _ _ Hcl). destruct (decide (own s q = Some (a, i))); [done|]. apply Hown.
Qed.

Lemma release_pages_spec a s0 : ∀ n i s, 0 <= i → i + Z.of_nat n = numPages s0 a → let_go_all a i s0 s →
  Z.of_nat (length (FIFOList s0)) <= numPages s0 a →
  wp no_fault (release_pages a i n) (λ _ s', let_go_all a (numPages s0 a) s0 s') s.
Proof.
  induction n as [|n IH]; intros i s H0 Hn Hla Hlen; cbn [release_pages].
  - apply wp_ret. assert (numPages s0 a = i) as -> by lia. done.
  - pose proof Hla as [[[l Hf] Ht] _ [Hq1 _] _ _ _ _ _ Hsz _].
    destruct (at_in (spaceTable (spaces s a)) i) as [e He]; [specialize (Hsz a); unfold numPages in *; lia|].
    apply wp_bind. eapply wp_mono; [apply (release_page_spec l s a i e Hf He); rewrite Hsz; lia|].
    cbn. intros _ s1 Hlg. apply IH; [lia|lia| |done]. by eapply let_go_step.
Qed.

(** The state once the object is deleted. *)
Record destroyed (a : nat) (s s' : VM) : Prop := {
  de_facts : ∃ l, closing_facts l s';
  de_tlb : ∀ j x, tlb_at s' j = Some x → valid x = false;
  de_pages : (∀ v, page_of s' a v = None) ∧ ∀ b v, b ≠ a → page_of s' b v = page_of s b v;
  de_frames : ∀ p v, own s p = Some (a, v) → used (pageTableBitMap s') p = false;
  de_swap : ∀ v e, page_of s a v = Some e → dead e = false → location e = SWAP →
    used (swapBitMap s') (Z.quot (byteOffset e) PageSize) = false;
  de_content : ∀ b w bs, b ≠ a → live_content s b w bs → live_content s' b w bs;
  de_queue : (length (FIFOList s') <= length (FIFOList s))%nat ∧ (no_match a s → FIFOList s' = FIFOList s)
}.

Lemma closing_erase l a s : closing_facts l s → (∀ v e, page_of s a v = Some e → gone e) →
  closing_facts l (with_space a (mkSpace [] []) s).
Proof.
  intros Hi Hg. set (s' := with_space _ _ s).
  assert (∀ b v, page_of s' b v = if decide (b = a) then None else page_of s b v) as Hp.
  { intros b v. unfold s', page_of. cbn. case_decide as Hb.
    - subst b. rewrite fn_lookup_insert. cbn. unfold at_. by destruct (0 <=? v).
    - by rewrite fn_lookup_insert_ne. }
  assert (∀ b v e, page_of s b v = Some e → dead e = false → location e = MAIN ∨ location e = SWAP → page_of s' b v = Some e) as Hkeep.
  { intros b v e He Hd Hl. rewrite Hp. destruct (decide (b = a)) as [->|]; [|done]. exfalso.
    destruct (Hg v e He) as [?|[?|?]]; destruct Hl; congruence. }
  assert (∀ b v e, page_of s' b v = Some e → page_of s b v = Some e) as Hback.
  { intros b v e. rewrite Hp. by destruct (decide (b = a)). }
  constructor; try apply Hi.
  - intros p b v. change (own s' p) with (own s p). rewrite (cf_pages _ _ Hi). split; intros (e & He & Hd & Hl & Hph); exists e; eauto 6.
  - intros b v e He. apply Hback in He. by apply (cf_virtual _ _ Hi b).
  - intros b v e He. apply Hback in He. by apply (cf_swap _ _ Hi b v).
  - intros b v e b' v' e' He He'. apply Hback in He, He'. by apply (cf_swap_once _ _ Hi).
  - split; [apply (cf_bytes _ _ Hi)|]. intros b. cbn. destruct (decide (b = a)) as [->|Hb];
      [rewrite fn_lookup_insert; apply Forall_nil_2|rewrite fn_lookup_insert_ne by done; apply (cf_bytes _ _ Hi)].
Qed.

Lemma delete_AddrSpace_spec a s : live_inv s → Z.of_nat (length (FIFOList s)) <= numPages s a →
  wp no_fault (delete_AddrSpace a) (λ _ s', destroyed a s s') s.
Proof.
  intros Hi Hlen. destruct (live_closing s Hi) as [Hf Ht]. unfold delete_AddrSpace. apply wp_bind, wp_get, wp_bind.
  eapply wp_mono; [apply (release_pages_spec a s (length (spaceTable (spaces s a))) 0 s); [lia|done| |exact Hlen]|].
  { by eapply let_go_refl. }
  cbn. intros _ s1 [[[l Hf1] Ht1] Hph Hq Hc Hcur Hless Hfr Hrest Hsz Hown]. apply wp_bind.
  eapply wp_mono; [by apply SaveState_flushed|]. cbn. intros _ s2 [Hfl Hno]. apply wp_modify.
  destruct (fl_same _ _ Hfl) as (HB & HW & _ & HF & _ & Hsp & _).
  assert (∀ b v, page_of s2 b v = page_of s1 b v) as Hp2 by (intros; unfold page_of; by rewrite Hsp).
  assert (∀ v e, page_of s2 a v = Some e → gone e) as Hgone.
  { intros v e. rewrite Hp2. intros He. destruct (Hph v e He) as (_ & _ & _ & Hg). apply Hg.
    apply at_range in He. specialize (Hsz a). unfold numPages in *. lia. }
  pose proof (closing_erase l a s2 (flushed_facts _ _ _ Hfl Hf1) Hgone) as Hf3. set (s3 := with_space _ _ s2) in *.
  assert (∀ b v, page_of s3 b v = if decide (b = a) then None else page_of s1 b v) as Hp3.
  { intros b v. rewrite <- Hp2. unfold s3, page_of. cbn. case_decide as Hb.
    - subst b. rewrite fn_lookup_insert. cbn. unfold at_. by destruct (0 <=? v).
    - by rewrite fn_lookup_insert_ne. }
  constructor.
  - by exists l.
  - exact Hno.
  - split; [intros v; by rewrite Hp3, decide_True|]. intros b v Hb. rewrite Hp3, decide_False, Hrest by auto. done.
  - intros p v Ho. destruct (own_at _ _ _ Ho) as (i & Hat & _). apply at_range in Hat. rewrite (cf_length _ _ Hf) in Hat.
    rewrite (cf_used _ _ Hf3) by (unfold NumPhysPages in *; lia). apply bool_decide_eq_false_2. intros [[b w] Hbw].
    assert (own s p = Some (b, w)) as Hbw' by (apply Hown; by rewrite <- (flushed_own _ _ _ Hfl)).
    destruct (proj1 (cf_pages _ _ Hf3 p b w) Hbw) as (e & He & _). rewrite Hp3 in He. assert (b = a) by congruence. by case_decide.
  - intros v e He Hd Hl. change (swapBitMap s3) with (swapBitMap s2). rewrite HW. eapply Hfr; try done.
    + apply at_range in He. unfold numPages. lia.
    + by apply (swap_index _ s a v e Hf He Hd Hl).
  - intros b w bs Hb Hbs. pose proof (flushed_content _ _ _ _ _ Hfl (Hc b w bs Hb Hbs)) as [Hl (e & He & Hce)].
    split; [done|]. exists e. rewrite page_of_bury, Hp3, decide_False, <- Hp2, <- page_of_bury by done. split; [done|].
    assert (executable (spaces (bury s3) b) = executable (spaces (bury s2) b)) as -> by (cbn; by rewrite fn_lookup_insert_ne). done.
  - change (FIFOList s3) with (FIFOList s2). by rewrite HF.
Qed.
