(* ===== verification/Stacks.v ===== *)
(** * Stacks: programs whose threads come and go, over demand paging

    [AddrSpace::Fork] and [AddrSpace::Exit] among page faults, loads, stores
    and context switches: the page table of a program grows with each thread,
    dead pages stay in it, and every live page of every program holds what its
    program last stored there. *)
From S2P Require Import Prelude BitMap Translate HostFile Paging Lifecycle.
From stdpp Require Import functions base list gmap.
From Stdlib Require Import ZArith Lia ZifyBool FunctionalExtensionality.

Local Open Scope Z_scope.

(** ** Page faults do not see dead pages *)

(** [op] does on the buried state what it does on the state. *)
Definition sim_at {A} (op : M VM A) (s : VM) : Prop :=
  op (bury s) = match op s with Done (a, s') => Done (a, bury s') | Fault f => Fault f end.

Section sim.
Context (s : VM).

Lemma sim_bind {A B} (m : M VM A) (k : A → M VM B) :
  sim_at m s → (∀ a s', m s = Done (a, s') → sim_at (k a) s') → sim_at (bind m k) s.
Proof.
  unfold sim_at, bind. intros -> Hk. destruct (m s) as [[a s']|f]; [|done]. by apply Hk.
Qed.

Lemma sim_if {A} (b : bool) (m1 m2 : M VM A) : (b = true → sim_at m1 s) → (b = false → sim_at m2 s) →
  sim_at (if b then m1 else m2) s.
Proof. destruct b; auto. Qed.

Lemma sim_ret {A} (a : A) : sim_at (ret a) s.
Proof. done. Qed.
Lemma sim_fail {A} f : sim_at (A := A) (fail f) s.
Proof. done. Qed.
Lemma sim_lift {A} (o : outcome A) : sim_at (lift o) s.
Proof. unfold sim_at, lift. by destruct o. Qed.
Lemma sim_ASSERT b : sim_at (ASSERT b) s.
Proof. by destruct b. Qed.
Lemma sim_modify f : bury (f s) = f (bury s) → sim_at (modify f) s.
Proof. unfold sim_at, modify. by intros ->. Qed.

(** A continuation that does not look at the page tables. *)
Lemma sim_get {A} (k : VM → M VM A) : k (bury s) = k s → sim_at (k s) s → sim_at (bind get k) s.
Proof. unfold sim_at, bind, get. by intros ->. Qed.

(** Reading the state, computing, and storing one field. *)
Lemma sim_update {A B} (f : VM → outcome A) (g : A → VM → VM) (k : A → M VM B) :
  f (bury s) = f s → (∀ x, bury (g x s) = g x (bury s)) → (∀ x, f s = Done x → sim_at (k x) (g x s)) →
  sim_at (let! s := get in let! x := lift (f s) in put (g x s) ;;; k x) s.
Proof.
  unfold sim_at, bind, get, lift, put. intros -> Hg Hk. destruct (f s) as [x|]; [|done].
  rewrite <- Hg. by apply Hk.
Qed.
End sim.

Ltac sim_direct := unfold sim_at; unfold bind, get, lift, put, modify, ret, fail; cbn; repeat case_match; simplify_eq; try done.

Lemma sim_get_IPT s p : sim_at (get_IPT p) s.
Proof. unfold get_IPT. sim_direct. Qed.
Lemma sim_set_IPT s p x : sim_at (set_IPT p x) s.
Proof. unfold set_IPT. sim_direct. Qed.
Lemma sim_get_tlb s i : sim_at (get_tlb i) s.
Proof. unfold get_tlb. sim_direct. Qed.
Lemma sim_set_tlb s i e : sim_at (set_tlb i e) s.
Proof. unfold set_tlb. sim_direct. Qed.
Lemma sim_load_frame s p bs : sim_at (load_frame p bs) s.
Proof. unfold load_frame. sim_direct. Qed.
Lemma sim_frame_bytes s p : sim_at (frame_bytes p) s.
Proof. unfold frame_bytes. sim_direct. Qed.
Lemma sim_remove s p : sim_at (removePageFromFIFOQ p) s.
Proof.
  unfold sim_at, removePageFromFIFOQ, bind, get, lift, put, ret. cbn zeta. change (FIFOList (bury s)) with (FIFOList s).
  destruct (find_index _ _ =? -1); [done|]. by destruct (verase _ _).
Qed.

#[local] Hint Resolve sim_get_IPT sim_set_IPT sim_get_tlb sim_set_tlb sim_load_frame sim_frame_bytes sim_remove
  sim_ret sim_fail sim_lift sim_ASSERT : sim.

Lemma sim_propogate s j : sim_at (propogateCurTLBDirty j) s.
Proof.
  apply sim_bind; [auto with sim|]. intros e s1 _. apply sim_if; intros _; [|auto with sim].
  apply sim_bind; auto with sim.
Qed.

Lemma sim_populate s p : sim_at (populateTLBFromIPTEntry p) s.
Proof.
  apply sim_get; [done|]. apply sim_bind; [apply sim_propogate|]. intros [] s1 _.
  apply sim_bind; [auto with sim|]. intros i s2 _. apply sim_bind; [auto with sim|]. intros [] s3 _.
  by apply sim_modify.
Qed.

Lemma sim_unmap s p : sim_at (unmap_frame p) s.
Proof.
  apply sim_get; [done|]. destruct (tlb (machine s)); [|auto with sim]. apply sim_if; intros _; [auto with sim|].
  apply sim_bind; [auto with sim|]. intros e s1 _. apply sim_bind; [|auto with sim].
  apply sim_if; intros _; [|auto with sim]. apply sim_bind; auto with sim.
Qed.

Lemma sim_get_page s a v e : page_of s a v = Some e → dead e = false → sim_at (get_page a v) s.
Proof.
  intros He Hd. unfold sim_at, get_page, bind, get, lift.
  rewrite (at_vget _ _ _ He). assert (page_of (bury s) a v = Some e) as Hb
    by (rewrite page_of_bury, He; cbn; by rewrite bury_live).
  by rewrite (at_vget _ _ _ Hb).
Qed.

Lemma bury_with_space s a l x : bury (with_space a (mkSpace l x) s) = with_space a (mkSpace (bury_page <$> l) x) (bury s).
Proof.
  unfold bury, with_space. cbn. f_equal. apply functional_extensionality. intros b.
  destruct (decide (b = a)) as [->|]; [by rewrite !fn_lookup_insert|by rewrite !fn_lookup_insert_ne].
Qed.

Lemma sim_set_page s a v e x : page_of s a v = Some e → dead x = false → sim_at (set_page a v x) s.
Proof.
  intros He Hd. assert (page_of (bury s) a v = Some (bury_page e)) as Hb by (by rewrite page_of_bury, He).
  unfold sim_at, set_page, bind, get, lift, put.
  rewrite (proj1 (vset_at _ _ x _ He)), (proj1 (vset_at _ _ x _ Hb)). rewrite bury_with_space.
  do 5 f_equal. cbn. by rewrite list_fmap_insert, (bury_live x).
Qed.

Lemma sim_swap_out s p : sim_at (writePageToSwap p) s.
Proof.
  unfold sim_at, writePageToSwap, get_IPT, frame_bytes, bind, get, lift, put, ret, fail.
  change (IPT (bury s)) with (IPT s). destruct (vget (IPT s) p) as [i|]; [|done].
  destruct (valid (ipte i) && dirty (ipte i)); [|done].
  change (swapBitMap (bury s)) with (swapBitMap s). destruct (Find (swapBitMap s)) as [r|]; [|done]. cbn zeta.
  destruct (r.1 =? -1); [done|]. change (machine (bury s)) with (machine s). destruct (mem_read _ _ _) as [bs|]; [|done].
  change (swapFile (bury s)) with (swapFile s). by destruct (WriteAt _ _ _).
Qed.

Lemma sim_swap_in s off p : sim_at (readPageFromSwapToPPN off p) s.
Proof.
  unfold sim_at, readPageFromSwapToPPN. cbn zeta. unfold bind at 1 2 3 5 6 7, get, lift, put.
  change (swapBitMap (bury s)) with (swapBitMap s). destruct (Clear _ _) as [b|]; [|done].
  change (swapFile (bury s)) with (swapFile s). destruct (ReadAt _ _ _) as [bs|]; [|done].
  change (with_swap b (swapFile s) (bury s)) with (bury (with_swap b (swapFile s) s)). apply sim_load_frame.
Qed.

(** Taking a page out: the page is alive, since a frame holds it. *)
Lemma sim_page_out s p a v e : own s p = Some (a, v) → page_of s a v = Some e → valid (pte e) = true → sim_at (page_out p) s.
Proof.
  intros Ho He Hv. assert (dead e = false) as Hd by (unfold dead; by rewrite Hv).
  destruct (own_at _ _ _ Ho) as (i & Hat & _ & [= -> ->]).
  apply sim_bind; [auto with sim|]. intros i' s1 Hg. unfold get_IPT, bind, get, lift in Hg. rewrite (at_vget _ _ _ Hat) in Hg.
  injection Hg as <- <-. cbn zeta. apply sim_bind; [by eapply sim_get_page|]. intros e' s1 Hg.
  unfold get_page, bind, get, lift in Hg. rewrite (at_vget _ _ _ He) in Hg. injection Hg as <- <-.
  assert (∀ l off, dead (mkPTE (pte e) l off) = false) as Hlive by (intros; unfold dead; cbn; by rewrite Hv).
  apply sim_if; intros _; [|by eapply sim_set_page].
  apply sim_bind; [by eapply sim_set_page|]. intros [] s1 Hs.
  assert (page_of s1 (PID i) (virtualPage (ipte i)) = Some (mkPTE (pte e) SWAP (byteOffset e))) as He1.
  { assert (wp no_fault (set_page (PID i) (virtualPage (ipte i)) (mkPTE (pte e) SWAP (byteOffset e)))
      (λ _ s1, page_of s1 (PID i) (virtualPage (ipte i)) = Some (mkPTE (pte e) SWAP (byteOffset e))) s) as Hw.
    { eapply wp_set_page; [exact He|]. rewrite (page_of_set _ _ _ e) by done. by rewrite decide_True. }
    exact (wp_done _ _ _ _ _ _ Hw Hs). }
  apply sim_bind; [apply sim_swap_out|]. intros off s2 Hs2.
  assert (spaces s2 = spaces s1) as Hsp.
  { unfold writePageToSwap, get_IPT, frame_bytes, bind, get, lift, put, ret, fail in Hs2.
    repeat case_match; simplify_eq; done. }
  eapply (sim_set_page _ _ _ (mkPTE (pte e) SWAP (byteOffset e))); [unfold page_of in *; by rewrite Hsp|].
  unfold dead. cbn. by rewrite Hv.
Qed.

Lemma sim_page_in s v p e : page_of s (currentSpace s) v = Some e → dead e = false → sim_at (page_in v p) s.
Proof.
  intros He Hd. unfold page_in. apply sim_get; [done|]. cbn zeta.
  apply sim_bind; [by eapply sim_get_page|]. intros e' s1 Hg.
  unfold get_page, bind, get, lift in Hg. rewrite (at_vget _ _ _ He) in Hg. injection Hg as <- <-.
  apply sim_bind.
  - destruct (location e); auto with sim; [|apply sim_swap_in]. apply sim_bind; auto with sim.
  - intros [] s1 Hs1. assert (spaces s1 = spaces s) as Hsp.
    { unfold readPageFromSwapToPPN, load_frame, bind, get, lift, put, ret in Hs1. repeat case_match; simplify_eq; done. }
    apply sim_bind; [eapply (sim_set_page _ _ _ e); [unfold page_of in *; by rewrite Hsp|done]|]. intros [] s2 _.
    apply sim_bind; [auto with sim|]. intros [] s3 _. by sim_direct.
Qed.

(** Every frame in use holds a live page. *)
Definition frames_live (s : VM) : Prop := ∀ p a v, own s p = Some (a, v) →
  ∃ e, page_of s a v = Some e ∧ valid (pte e) = true.

Lemma live_frames s : live_inv s → frames_live s.
Proof.
  intros Hi p a v Ho. destruct (live_closing s Hi) as [Hf _].
  destruct (proj1 (cf_pages _ _ Hf p a v) Ho) as (e & He & Hd & Hl & _). exists e. split; [done|].
  apply live_valid; auto.
Qed.

Lemma unmap_same s p s1 : unmap_frame p s = Done ((), s1) → spaces s1 = spaces s ∧ currentSpace s1 = currentSpace s.
Proof.
  unfold unmap_frame, get_tlb, set_tlb, get_IPT, set_IPT, bind, get, lift, put, ret, fail.
  generalize (λ e, valid e && (physicalPage e =? p)). intros f H. repeat case_match; simplify_eq; done.
Qed.

Definition any_fault : fault → Prop := λ _, True.

Lemma wp_any {S A} (m : M S A) (Q : A → S → Prop) s : (∀ a s', m s = Done (a, s') → Q a s') → wp any_fault m Q s.
Proof. unfold wp. destruct (m s) as [[a s']|f]; [auto|done]. Qed.

Lemma page_out_other s p a v e : own s p = Some (a, v) → page_of s a v = Some e →
  wp any_fault (page_out p) (λ _ s1, (∀ b w, (b, w) ≠ (a, v) → page_of s1 b w = page_of s b w) ∧ currentSpace s1 = currentSpace s) s.
Proof.
  intros Ho He. destruct (own_at _ _ _ Ho) as (i & Hat & _ & [= -> ->]).
  assert (∀ x s0 e0, page_of s0 (PID i) (virtualPage (ipte i)) = Some e0 → currentSpace s0 = currentSpace s →
    (∀ b w, (b, w) ≠ (PID i, virtualPage (ipte i)) → page_of s0 b w = page_of s b w) →
    wp any_fault (set_page (PID i) (virtualPage (ipte i)) x) (λ _ s1,
      ((∀ b w, (b, w) ≠ (PID i, virtualPage (ipte i)) → page_of s1 b w = page_of s b w) ∧ currentSpace s1 = currentSpace s) ∧
      is_Some (page_of s1 (PID i) (virtualPage (ipte i)))) s0) as Hset.
  { intros x s0 e0 He0 Hc Hp. eapply wp_set_page; [exact He0|]. split; [split; [|done]|].
    - intros b w Hne. rewrite (page_of_set _ _ _ e0), decide_False by (done || naive_solver). by apply Hp.
    - rewrite (page_of_set _ _ _ e0), decide_True by done. by eexists. }
  unfold page_out. apply wp_bind. eapply wp_get_IPT; [exact Hat|]. cbn zeta.
  apply wp_bind. eapply wp_get_page; [exact He|]. apply wp_if; intros _.
  2:{ eapply wp_mono; [by eapply Hset|]. by intros [] s1 [? _]. }
  apply wp_bind. eapply wp_mono; [by eapply (Hset _ s)|]. cbn. intros [] s1 [[Hp Hc] [e1 He1]].
  apply wp_bind, wp_any. intros off s2 Hs2.
  assert (spaces s2 = spaces s1 ∧ currentSpace s2 = currentSpace s1) as [Hsp Hc2].
  { unfold writePageToSwap, get_IPT, frame_bytes, bind, get, lift, put, ret, fail in Hs2.
    repeat case_match; simplify_eq; done. }
  assert (∀ b w, page_of s2 b w = page_of s1 b w) as Hp2 by (intros; unfold page_of; by rewrite Hsp).
  eapply wp_mono; [eapply (Hset _ s2 e1); [by rewrite Hp2|congruence|intros; rewrite Hp2; auto]|]. by intros [] s3 [? _].
Qed.

(** A frame is freed without a look at a dead page, and the page that is to
    come in stays as it is. *)
Lemma sim_memory_full fifo rand s : live_inv s → 0 <= rand → (∀ p, 0 <= p < NumPhysPages → is_Some (own s p)) →
  sim_at (handleMemoryFull fifo rand) s ∧ ∀ p s1, handleMemoryFull fifo rand s = Done (p, s1) →
    currentSpace s1 = currentSpace s ∧ ∀ a v, (∀ q, own s q ≠ Some (a, v)) → page_of s1 a v = page_of s a v.
Proof.
  intros Hi Hr Hfull.
  assert (∀ p, 0 <= p < NumPhysPages → let m := unmap_frame p ;;; page_out p ;;; unlink p in
    sim_at m s ∧ ∀ q s1, m s = Done (q, s1) →
    currentSpace s1 = currentSpace s ∧ ∀ a v, (∀ q, own s q ≠ Some (a, v)) → page_of s1 a v = page_of s a v) as Hgo.
  { intros p Hp m.
    assert (∀ s1, unmap_frame p s = Done ((), s1) → live_inv s1 ∧ ∃ a v, own s p = Some (a, v) ∧ own s1 p = Some (a, v)) as Hun.
    { intros s1 H1. pose proof (unmap_frame_spec any_fault (-1) (bury s) p Hi (Hfull p Hp)) as Hw.
      pose proof (sim_unmap s p) as Hsim. unfold sim_at in Hsim. rewrite H1 in Hsim.
      destruct (wp_done _ _ _ _ _ _ Hw Hsim) as [(Hi1 & Ho & _) _]. split; [exact Hi1|].
      destruct (Hfull p Hp) as [[a v] Hav]. exists a, v. split; [done|]. specialize (Ho p).
      change (own (bury s1) p) with (own s1 p) in Ho. by rewrite Ho. }
    assert (∀ s2, sim_at (unlink p) s2) as Hul.
    { intros s2. unfold unlink. apply sim_bind; [auto with sim|]. intros i s3 _. apply sim_bind; [auto with sim|]. intros [] s4 _.
      apply sim_bind; auto with sim. }
    split.
    - apply sim_bind; [apply sim_unmap|]. intros [] s1 H1. destruct (Hun s1 H1) as (Hi1 & a & v & _ & Ho).
      destruct (live_frames s1 Hi1 p a v Ho) as (e & He & Hv).
      apply sim_bind; [by eapply sim_page_out|]. intros [] s2 _. apply Hul.
    - intros q s1 Hm.
      assert (wp any_fault m (λ _ s1, currentSpace s1 = currentSpace s ∧ ∀ a v, (∀ q, own s q ≠ Some (a, v)) →
        page_of s1 a v = page_of s a v) s) as Hw; [|exact (wp_done _ _ _ _ _ _ Hw Hm)].
      apply wp_bind, wp_any. intros [] s2 H2. destruct (Hun s2 H2) as (Hi2 & a & v & Hos & Ho). destruct (unmap_same _ _ _ H2) as [Hsp Hc].
      destruct (live_frames s2 Hi2 p a v Ho) as (e & He & Hv).
      apply wp_bind. eapply wp_mono; [by eapply page_out_other|]. cbn. intros [] s3 [Hpg Hc3].
      apply wp_any. intros q' s4 H4. assert (spaces s4 = spaces s3 ∧ currentSpace s4 = currentSpace s3) as [Hsp4 Hc4].
      { unfold unlink, get_IPT, set_IPT, removePageFromFIFOQ, bind, get, lift, put, ret in H4. cbn zeta in H4.
        repeat case_match; simplify_eq; done. }
      split; [congruence|]. intros b w Hno. unfold page_of at 1. rewrite Hsp4. fold (page_of s3 b w).
      rewrite Hpg; [unfold page_of; by rewrite Hsp|]. intros [= -> ->]. by apply (Hno p). }
  unfold handleMemoryFull.
  assert (∀ p : Z, let m := ASSERT ((0 <=? p) && (p <? NumPhysPages)) ;;; let! i := get_IPT p in ASSERT (valid (ipte i)) ;;;
     unmap_frame p ;;; page_out p ;;; unlink p in
    sim_at m s ∧ ∀ q s1, m s = Done (q, s1) →
    currentSpace s1 = currentSpace s ∧ ∀ a v, (∀ q, own s q ≠ Some (a, v)) → page_of s1 a v = page_of s a v) as Hgo2.
  { intros p m. destruct ((0 <=? p) && (p <? NumPhysPages)) eqn:Hp.
    - assert (0 <= p < NumPhysPages) as Hp' by lia. destruct (Hgo p Hp') as [H1 H2].
      destruct (Hfull p Hp') as [[a v] Hav]. destruct (own_at _ _ _ Hav) as (i & Hat & Hv & _).
      assert (∀ s0, IPT s0 = IPT s → get_IPT p s0 = Done (i, s0)) as Hg
        by (intros s0 Hs0; unfold get_IPT, bind, get, lift; by rewrite Hs0, (at_vget _ _ _ Hat)).
      split.
      + unfold m. apply sim_bind; [auto with sim|]. intros [] s0 [= <-]. apply sim_bind; [auto with sim|]. intros i0 s0.
        rewrite Hg by done. intros [= <- <-]. rewrite Hv. apply sim_bind; [auto with sim|]. intros [] s0 [= <-]. exact H1.
      + intros q s1. unfold m. rewrite (bind_Done _ _ _ () s), (bind_Done _ _ _ _ _ (Hg s eq_refl)), Hv, (bind_Done _ _ _ () s) by done.
        apply H2.
    - split; [done|]. by intros. }
  set (pick := if fifo then lift (vget (FIFOList s) 0) else ret (Z.rem rand NumPhysPages) : M VM Z).
  assert (∀ p s0, pick s = Done (p, s0) → s0 = s) as Hpick.
  { intros p s0. unfold pick, lift, ret. destruct fifo; [|by intros [= _ <-]]. destruct (vget _ _); [|done]. by intros [= _ <-]. }
  split.
  - apply sim_get; [done|]. fold pick. apply sim_bind; [unfold pick; destruct fifo; [apply sim_lift|apply sim_ret]|].
    intros p s0 ->%Hpick. exact (proj1 (Hgo2 p)).
  - intros p s1 Hm. unfold bind at 1 2, get in Hm. fold pick in Hm. destruct (pick s) as [[p0 s0]|] eqn:Hp; [|done].
    rewrite (Hpick p0 s0 eq_refl) in Hm. exact (proj2 (Hgo2 p0) _ _ Hm).
Qed.

(** A page that the program can touch: not dead, and backed if it is said to
    be in the executable. *)
Definition touchable (s : VM) (v : Z) : Prop := ∃ e, page_of s (currentSpace s) v = Some e ∧ dead e = false ∧
  (location e = EXEC → 0 <= byteOffset e).

Lemma full_owned s : live_inv s → all_used (pageTableBitMap s) → ∀ p, 0 <= p < NumPhysPages → is_Some (own s p).
Proof.
  intros Hi Hall p Hp. destruct (live_closing s Hi) as [Hf _]. specialize (Hall p).
  rewrite (proj2 (cf_frames _ _ Hf)), (cf_used _ _ Hf p Hp) in Hall. by apply (proj1 (bool_decide_eq_true _)), Hall.
Qed.

Lemma sim_IPT_miss fifo rand s v e : live_inv s → 0 <= rand → page_of s (currentSpace s) v = Some e → dead e = false →
  (∀ q, own s q ≠ Some (currentSpace s, v)) → sim_at (handleIPTmiss fifo rand v) s.
Proof.
  intros Hi Hr He Hd Hno. unfold handleIPTmiss.
  apply (sim_update s (λ s, Find (pageTableBitMap s)) (λ r s, with_frames r.2 s)
    (λ r, let! ppn := (if r.1 =? -1 then handleMemoryFull fifo rand else ret r.1) in page_in v ppn ;;; ret ppn)); [done|done|].
  intros r Hf. destruct (vi_frames _ _ Hi) as [Hw Hn]. change (pageTableBitMap (bury s)) with (pageTableBitMap s) in *.
  apply sim_bind.
  - destruct (Find_cases _ Hw) as [[Hf' Hall]|(k & b & Hf' & Hk & _)]; rewrite Hf in Hf'; injection Hf' as ->; cbn [fst snd].
    + assert (with_frames (pageTableBitMap s) s = s) as -> by (by destruct s). apply sim_if; intros _; [|auto with sim].
      apply sim_memory_full; [done|done|by apply full_owned].
    + rewrite (proj2 (Z.eqb_neq k (-1))) by lia. auto with sim.
  - intros p s1 Hs1. apply sim_bind; [|auto with sim]. apply (sim_page_in s1 v p e); [|done].
    destruct (Find_cases _ Hw) as [[Hf' Hall]|(k & b & Hf' & Hk & _)]; rewrite Hf in Hf'; injection Hf' as ->; cbn [fst snd] in Hs1.
    + assert (with_frames (pageTableBitMap s) s = s) as Hsame by (by destruct s). rewrite Hsame, Z.eqb_refl in Hs1.
      destruct (proj2 (sim_memory_full fifo rand s Hi Hr (full_owned s Hi Hall)) p s1 Hs1) as [Hc Hp]. rewrite Hc, Hp; done.
    + rewrite (proj2 (Z.eqb_neq k (-1))) in Hs1 by lia. injection Hs1 as <- <-. done.
Qed.

Lemma sim_TLB_miss fifo rand s VA : live_inv s → 0 <= rand → at_ (registers (machine s)) BadVAddrReg = Some VA →
  touchable s (page VA) → sim_at (handleTLBMiss fifo rand) s.
Proof.
  intros Hi Hr HVA (e & He & Hd & _). unfold handleTLBMiss. apply sim_get; [done|].
  apply sim_bind; [auto with sim|]. intros VA' s0 Hv. unfold lift in Hv. rewrite (at_vget _ _ _ HVA) in Hv.
  injection Hv as <- <-. cbn zeta. change (u32 VA / PageSize) with (page VA).
  apply sim_bind; [|intros p s1 _; apply sim_populate].
  pose proof (ipt_search (bury s) (page VA) Hi) as Hsearch. cbn zeta in Hsearch.
  change (IPT (bury s)) with (IPT s) in Hsearch. change (currentSpace (bury s)) with (currentSpace s) in Hsearch.
  destruct Hsearch as [[Hp Hno]|[Hp _]].
  - rewrite Hp, Z.eqb_refl. apply sim_bind; [|intros p s1 _; apply sim_bind; auto with sim].
    by eapply sim_IPT_miss.
  - rewrite (proj2 (Z.eqb_neq _ (-1))) by lia. auto with sim.
Qed.

(** ** What each event does to what is alive *)

Definition keeps_live (s s' : VM) : Prop := ∀ a v bs, live_content s a v bs → live_content s' a v bs.

Lemma live_miss fifo rand s VA : live_inv s → 0 <= rand → at_ (registers (machine s)) BadVAddrReg = Some VA →
  touchable s (page VA) → (∀ j x, tlb_at s j = Some x → valid x = true → virtualPage x ≠ page VA) →
  wp halts (handleTLBMiss fifo rand) (λ _ s', live_inv s' ∧ keeps_live s s' ∧ currentSpace s' = currentSpace s ∧
    ∀ a, numPages s' a = numPages s a) s.
Proof.
  intros Hi Hr HVA Ht Hno. pose proof (sim_TLB_miss fifo rand s VA Hi Hr HVA Ht) as Hsim. unfold sim_at in Hsim.
  destruct Ht as (e & He & Hd & Hoff).
  assert (page_of (bury s) (currentSpace (bury s)) (page VA) = Some e) as Hb
    by (cbn; rewrite page_of_bury, He; cbn; by rewrite bury_live).
  pose proof (handleTLBMiss_wp fifo rand (bury s) VA e Hi HVA Hb Hoff Hr Hno) as Hw.
  unfold wp in *. rewrite Hsim in Hw. destruct (handleTLBMiss fifo rand s) as [[[] s']|f] eqn:Hs; [|done].
  destruct Hw as (Hi' & Hk & Hc & _). split_and!; [done|done|done|].
  intros a. refine (handleTLBMiss_stays (λ x, numPages x a = numPages s a) fifo rand _ _ _ _ _ _ _ _ s () s' eq_refl Hs); try done.
  intros b l x Hl Hn. unfold numPages in *. cbn. destruct (decide (a = b)) as [->|Hne];
    [rewrite fn_lookup_insert; cbn; congruence|by rewrite fn_lookup_insert_ne].
Qed.

Lemma live_store big handler s addr size v m' : live_inv s → size = 1 ∨ size = 2 ∨ size = 4 →
  WriteMem big handler addr size v (machine s) = Done (true, m') →
  let s' := with_machine m' s in let off := Z.to_nat (u32 addr mod PageSize) in
  let bytes := bytes_le (Z.to_nat size) v in
  live_inv s' ∧
  (∀ a w bs, (a, w) ≠ (currentSpace s, page addr) → live_content s a w bs → live_content s' a w bs) ∧
  ∃ bs', live_content s' (currentSpace s) (page addr) bs' ∧ (∀ k b, bytes !! k = Some b → bs' !! (off + k)%nat = Some b) ∧
    ∀ bs i, live_content s (currentSpace s) (page addr) bs → (i < off ∨ off + length bytes <= i)%nat → bs' !! i = bs !! i.
Proof. intros Hi Hs HW s' off bytes. exact (user_write big handler (bury s) addr size v m' Hi Hs HW). Qed.

Lemma live_load big handler s addr size val m' : live_inv s → size = 1 ∨ size = 2 ∨ size = 4 →
  ReadMem big handler addr size (machine s) = Done (true, Some val, m') →
  live_inv (with_machine m' s) ∧ keeps_live s (with_machine m' s) ∧
  ∀ bs, live_content s (currentSpace s) (page addr) bs →
    val = narrow size (of_le (take (Z.to_nat size) (drop (Z.to_nat (u32 addr mod PageSize)) bs))).
Proof. intros Hi Hs HR. exact (user_read big handler (bury s) addr size val m' Hi Hs HR). Qed.

Lemma live_switch s a : live_inv s → wp no_fault SaveState (λ _ s', live_inv (with_currentSpace a s') ∧
  keeps_live s (with_currentSpace a s') ∧ spaces s' = spaces s) s.
Proof.
  intros Hi. destruct (live_closing s Hi) as [Hf Hs]. eapply wp_mono; [by apply SaveState_flushed|].
  cbn. intros [] s' [Hfl Hno]. destruct (fl_same _ _ Hfl) as (_ & _ & _ & HF & _ & Hsp & _).
  split_and!; [|intros b v bs Hc; exact (flushed_content _ _ _ _ _ Hfl Hc)|done].
  assert (live_inv s') as Hi' by (apply closing_live; [done|]; rewrite HF; by eapply flushed_facts).
  destruct Hi'. constructor; try done; cbn in *.
  intros j e Hj Hv. by rewrite (Hno j e Hj) in Hv.
Qed.

(** A machine whose registers alone differ. *)
Lemma live_registers s rs : live_inv s → live_inv (with_machine (with_registers rs (machine s)) s) ∧
  keeps_live s (with_machine (with_registers rs (machine s)) s).
Proof.
  intros Hi. split; [|by intros a v bs Hc]. apply (with_machine_inv (-1) (bury s)); [done| |done].
  destruct (vi_machine _ _ Hi) as [H1 H2 H3 H4]. by split.
Qed.

(** ** Fork *)

Lemma stack_numbers_in n v : v ∈ stack_numbers n ↔ n <= v < n + 8.
Proof.
  unfold stack_numbers. rewrite list_elem_of_fmap. split.
  - intros (k & -> & Hk%elem_of_seq). change (Z.to_nat _) with 8%nat in Hk. lia.
  - intros Hv. exists (Z.to_nat (v - n)). split; [lia|]. apply elem_of_seq. change (Z.to_nat (divRoundUp UserStackSize PageSize)) with 8%nat. lia.
Qed.

Lemma stack_numbers_length n : length (stack_numbers n) = 8%nat.
Proof. done. Qed.

(** The table of the current space with eight new pages. *)
Definition grown (unset : Z → Z) (s : VM) : VM :=
  with_space (currentSpace s) (mkSpace (spaceTable (spaces s (currentSpace s)) ++
    (stack_entry unset <$> stack_numbers (numPages s (currentSpace s)))) (executable (spaces s (currentSpace s)))) s.

Lemma at_app {A} (l1 l2 : list A) i : at_ (l1 ++ l2) i =
  if decide (i < Z.of_nat (length l1)) then at_ l1 i else at_ l2 (i - Z.of_nat (length l1)).
Proof.
  unfold at_. case_decide; destruct (Z.leb_spec 0 i); try done; try lia.
  - rewrite lookup_app_l by lia. done.
  - rewrite (proj2 (Z.leb_le _ _)) by lia. rewrite lookup_app_r by lia. f_equal. lia.
Qed.

Lemma grown_page unset s a v : page_of (grown unset s) a v =
  if decide (a = currentSpace s ∧ numPages s a <= v < numPages s a + 8) then Some (stack_entry unset v) else page_of s a v.
Proof.
  unfold page_of. cbn. destruct (decide (a = currentSpace s)) as [->|Hne].
  - rewrite fn_lookup_insert. cbn. set (n := numPages s (currentSpace s)). fold n.
    rewrite at_app, at_fmap. change (Z.of_nat (length (spaceTable (spaces s (currentSpace s))))) with n.
    assert (0 <= n) by (unfold n, numPages; lia).
    destruct (decide (v < n)); [by rewrite decide_False by lia|].
    destruct (decide (n <= v < n + 8)) as [Hv|Hv]; [rewrite decide_True by done|rewrite decide_False by tauto].
    + assert (at_ (stack_numbers n) (v - n) = Some v) as ->; [|done]. unfold stack_numbers. rewrite at_fmap.
      unfold at_. rewrite (proj2 (Z.leb_le 0 (v - n))) by lia. change (Z.to_nat (divRoundUp UserStackSize PageSize)) with 8%nat.
      rewrite lookup_seq_lt by lia. cbn. f_equal. lia.
    + destruct (at_ (stack_numbers n) (v - n)) as [x|] eqn:Hx.
      * apply at_range in Hx. rewrite stack_numbers_length in Hx. lia.
      * symmetry. destruct (at_ (spaceTable (spaces s (currentSpace s))) v) as [x'|] eqn:Hx'; [|done].
        apply at_range in Hx'. unfold n, numPages in *. lia.
  - rewrite fn_lookup_insert_ne by done. rewrite decide_False; [done|tauto].
Qed.

Lemma grown_live unset s : live_inv s → numPages s (currentSpace s) + 8 <= 2 ^ 32 / PageSize →
  live_inv (grown unset s) ∧ keeps_live s (grown unset s).
Proof.
  intros Hi Hn.
  assert (∀ a v, page_of (bury (grown unset s)) a v =
    if decide (a = currentSpace s ∧ numPages s a <= v < numPages s a + 8) then Some (stack_entry unset v) else page_of (bury s) a v) as Hp.
  { intros a v. rewrite !page_of_bury, grown_page. by destruct (decide _). }
  assert (∀ a, executable (spaces (bury (grown unset s)) a) = executable (spaces (bury s) a)) as He by (intros a; exact (executable_set s (currentSpace s) _ a)).
  assert (∀ a v e, page_of (bury (grown unset s)) a v = Some e → location e ≠ VOID → page_of (bury s) a v = Some e) as Hold.
  { intros a v e. rewrite Hp. destruct (decide _); [by intros [= <-]|done]. }
  assert (∀ a v e, page_of (bury s) a v = Some e → page_of (bury (grown unset s)) a v = Some e) as Hnew.
  { intros a v e Hv. rewrite Hp, decide_False; [done|]. intros [-> Hr]. apply at_range in Hv. cbn in Hv.
    rewrite length_fmap in Hv. unfold numPages in Hr. lia. }
  split.
  - change (vm_inv (-1) (bury s)) in Hi. constructor; try apply Hi.
    + intros p a v. change (own (bury (grown unset s)) p) with (own (bury s) p). rewrite (vi_pages _ _ Hi). split.
      * intros (e & Hv & Hl & Hph). exists e. auto.
      * intros (e & Hv & Hl & Hph). exists e. split; [apply Hold; [done|congruence]|done].
    + intros a v e. rewrite Hp. destruct (decide (a = currentSpace s ∧ numPages s a <= v < numPages s a + 8)) as [[-> Hr]|]; [|apply (vi_virtual _ _ Hi)].
      intros [= <-]. split; [done|lia].
    + intros a v e Hv Hl. apply (vi_swap _ _ Hi a v e); [|done]. apply Hold; [done|congruence].
    + intros a v e a' v' e' Hv Hv' Hl Hl'. apply (vi_swap_once _ _ Hi a v e a' v' e'); try done; apply Hold; congruence.
    + split; [apply (vi_bytes _ _ Hi)|]. intros a. rewrite He. apply (vi_bytes _ _ Hi).
  - intros a v bs [Hl (e & Hv & Hc)]. split; [done|]. exists e. split; [by apply Hnew|]. by rewrite He.
Qed.

(** *** The registers of a new thread *)

Definition regs_full (s : VM) : Prop := length (registers (machine s)) = Z.to_nat NumTotalRegs.
Definition with_regs (rs : list Z) (s : VM) : VM := with_machine (with_registers rs (machine s)) s.

Lemma WriteRegister_run n v s : regs_full s → 0 <= n < NumTotalRegs →
  WriteRegister n v s = Done ((), with_regs (<[Z.to_nat n := v]> (registers (machine s))) s) ∧
  regs_full (with_regs (<[Z.to_nat n := v]> (registers (machine s))) s).
Proof.
  unfold regs_full, NumTotalRegs. intros Hl Hn. split; [|cbn; by rewrite length_insert].
  unfold WriteRegister, ASSERT, bind, get, lift, put, NumTotalRegs.
  rewrite (proj2 (andb_true_iff _ _)) by lia. cbn. by rewrite vset_in by lia.
Qed.

Lemma clear_registers_run : ∀ n i s, regs_full s → 0 <= i → i + Z.of_nat n <= NumTotalRegs → ∃ rs,
  clear_registers i n s = Done ((), with_regs rs s) ∧ regs_full (with_regs rs s) ∧
  ∀ j, (Z.to_nat i <= j < Z.to_nat i + n)%nat → rs !! j = Some 0.
Proof.
  enough (∀ n i s, regs_full s → 0 <= i → i + Z.of_nat n <= NumTotalRegs → ∃ rs,
    clear_registers i n s = Done ((), with_regs rs s) ∧ regs_full (with_regs rs s) ∧
    (∀ j, (Z.to_nat i <= j < Z.to_nat i + n)%nat → rs !! j = Some 0) ∧
    ∀ j, (j < Z.to_nat i)%nat → rs !! j = registers (machine s) !! j) as H.
  { intros n i s H1 H2 H3. destruct (H n i s H1 H2 H3) as (rs & ? & ? & ? & _). eauto. }
  induction n as [|n IH]; intros i s Hl H0 Hn.
  - exists (registers (machine s)). split_and!; [by destruct s as [[]]|done|lia|done].
  - destruct (WriteRegister_run i 0 s Hl) as [Hw Hl1]; [lia|]. set (s1 := with_regs _ s) in *.
    destruct (IH (i + 1) s1 Hl1) as (rs & Hr & Hlr & Hin & Hlow); [lia|lia|].
    exists rs. cbn [clear_registers]. rewrite (bind_Done _ _ _ _ _ Hw), Hr. split_and!; [done|done| |].
    + intros j Hj. destruct (decide (j = Z.to_nat i)) as [->|Hne]; [|apply Hin; lia].
      rewrite Hlow by lia. cbn. apply list_lookup_insert_eq. unfold regs_full, NumTotalRegs in Hl. unfold NumTotalRegs in *. lia.
    + intros j Hj. rewrite Hlow by lia. cbn. by rewrite list_lookup_insert_ne by lia.
Qed.

(** Where a thread starts: at [pc], its stack pointer 16 below the end of [n] pages. *)
Record entry_regs (rs : list Z) (pc n : Z) : Prop := {
  en_length : length rs = Z.to_nat NumTotalRegs;
  en_pc : at_ rs PCReg = Some pc;
  en_next : at_ rs NextPCReg = Some (s32 (pc + 4));
  en_sp : at_ rs StackReg = Some (s32 (u32 (n * PageSize - 16)));
  en_zero : ∀ j, 0 <= j < NumTotalRegs → j ≠ PCReg → j ≠ NextPCReg → j ≠ StackReg → at_ rs j = Some 0
}.

Lemma wp_write E n v rs s (Q : unit → VM → Prop) : length rs = Z.to_nat NumTotalRegs → 0 <= n < NumTotalRegs →
  Q () (with_regs (<[Z.to_nat n := v]> rs) s) → wp E (WriteRegister n v) Q (with_regs rs s).
Proof. intros Hl Hn HQ. unfold wp. by rewrite (proj1 (WriteRegister_run n v (with_regs rs s) Hl Hn)). Qed.

Definition started (pc sp : Z) (rs : list Z) : list Z :=
  <[Z.to_nat NextPCReg := s32 (pc + 4)]> (<[Z.to_nat PCReg := pc]> (<[Z.to_nat StackReg := sp]>
    (<[Z.to_nat NextPCReg := 4]> (<[Z.to_nat PCReg := 0]> rs)))).

Lemma started_regs pc n rs : length rs = Z.to_nat NumTotalRegs → (∀ j, (j < Z.to_nat NumTotalRegs)%nat → rs !! j = Some 0) →
  entry_regs (started pc (s32 (u32 (n * PageSize - 16))) rs) pc n.
Proof.
  intros Hl Hz. unfold started, NumTotalRegs in *. change (Z.to_nat NextPCReg) with 35%nat. change (Z.to_nat PCReg) with 34%nat.
  change (Z.to_nat StackReg) with 29%nat. change (Z.to_nat 40) with 40%nat in *.
  constructor; rewrite ?length_insert; try done; unfold at_, PCReg, NextPCReg, StackReg, NumTotalRegs.
  - change (0 <=? 34) with true. rewrite list_lookup_insert_ne by done. rewrite list_lookup_insert_eq; [done|]. rewrite !length_insert. lia.
  - change (0 <=? 35) with true. rewrite list_lookup_insert_eq; [done|]. rewrite !length_insert. lia.
  - change (0 <=? 29) with true. rewrite !list_lookup_insert_ne by done. rewrite list_lookup_insert_eq; [done|]. rewrite !length_insert. lia.
  - intros j Hj H1 H2 H3. rewrite (proj2 (Z.leb_le 0 j)) by lia. rewrite !list_lookup_insert_ne by lia. apply Hz. lia.
Qed.

(** [InitRegisters], then the two counters. *)
Lemma start_registers pc s (Q : unit → VM → Prop) : regs_full s →
  (∀ rs, entry_regs rs pc (numPages s (currentSpace s)) → Q () (with_regs rs s)) →
  wp no_fault (InitRegisters ;;; WriteRegister PCReg pc ;;; WriteRegister NextPCReg (s32 (pc + 4))) Q s.
Proof.
  intros Hl HQ. destruct (clear_registers_run (Z.to_nat NumTotalRegs) 0 s Hl) as (rs & Hr & Hl1 & Hz); [lia|unfold NumTotalRegs; lia|].
  unfold regs_full in Hl1. cbn in Hl1.
  apply wp_bind, wp_bind. unfold wp at 1. rewrite Hr. apply wp_bind, wp_write; [done..|].
  apply wp_bind, wp_write; [by rewrite length_insert|done|]. apply wp_bind, wp_get.
  apply wp_write; [by rewrite !length_insert|done|]. apply wp_bind, wp_write; [by rewrite !length_insert|done|].
  apply wp_write; [by rewrite !length_insert|done|].
  apply HQ, started_regs; [exact Hl1|]. intros j Hj. apply Hz. lia.
Qed.

Lemma with_regs_pages rs s a v : page_of (with_regs rs s) a v = page_of s a v.
Proof. done. Qed.

(** *** The whole of [AddrSpace::Fork] *)

Record forked (unset : Z → Z) (id pc : Z) (s s' : Spaces) : Prop := {
  fk_live : live_inv (vm s') ∧ keeps_live (vm s) (vm s');
  fk_current : currentSpace (vm s') = currentSpace (vm s);
  fk_pages : ∀ a v, page_of (vm s') a v =
    if decide (a = currentSpace (vm s) ∧ numPages (vm s) a <= v < numPages (vm s) a + 8) then Some (stack_entry unset v)
    else page_of (vm s) a v;
  fk_size : ∀ a, numPages (vm s') a = numPages (vm s) a + if decide (a = currentSpace (vm s)) then 8 else 0;
  fk_threads : ∀ a, threadTable s' a = if decide (a = currentSpace (vm s))
    then <[id := stack_numbers (numPages (vm s) a)]> (threadTable s a) else threadTable s a;
  fk_regs : entry_regs (registers (machine (vm s'))) pc (numPages (vm s) (currentSpace (vm s)) + 8)
}.

Lemma grown_size unset s a : numPages (grown unset s) a = numPages s a + if decide (a = currentSpace s) then 8 else 0.
Proof.
  unfold numPages, grown, with_space. cbn [spaces]. case_decide as Ha.
  - subst a. rewrite fn_lookup_insert. cbn [spaceTable]. rewrite length_app, length_fmap, stack_numbers_length. lia.
  - rewrite fn_lookup_insert_ne by done. lia.
Qed.

Lemma AddrSpace_Fork_spec unset id pc s : live_inv (vm s) → regs_full (vm s) →
  numPages (vm s) (currentSpace (vm s)) + 8 <= 2 ^ 32 / PageSize → threadTable s (currentSpace (vm s)) !! id = None →
  wp no_fault (AddrSpace_Fork unset id pc) (λ _ s', forked unset id pc s s') s.
Proof.
  intros Hi Hr Hn Hid. unfold AddrSpace_Fork. apply wp_bind, wp_get. cbn zeta. rewrite Hid.
  set (a := currentSpace (vm s)) in *. apply wp_bind, wp_on_vm, wp_modify. apply wp_bind, wp_modify, wp_on_vm. cbn [vm with_threads].
  change (with_space a _ (vm s)) with (grown unset (vm s)). destruct (grown_live unset (vm s) Hi Hn) as [Hg Hk].
  apply start_registers; [exact Hr|]. intros rs Hrs. destruct (live_registers (grown unset (vm s)) rs Hg) as [Hl Hkl].
  constructor; cbn [vm threadTable with_threads].
  - split; [exact Hl|]. intros b v bs Hc. by apply Hkl, Hk.
  - done.
  - intros b v. rewrite with_regs_pages. apply grown_page.
  - intros b. apply grown_size.
  - intros b. case_decide as Hb; [subst b; by rewrite fn_lookup_insert|by rewrite fn_lookup_insert_ne].
  - pose proof (grown_size unset (vm s) a) as Hsz. rewrite decide_True in Hsz by done. cbn in Hrs. fold a in Hrs.
    rewrite Hsz in Hrs. exact Hrs.
Qed.

(** ** Exit *)

(** Each thread of a program has eight pages of its own. *)
Definition stacks_ok (s : Spaces) : Prop := ∀ a id ps, threadTable s a !! id = Some ps →
  length ps = 8%nat ∧ (∀ v, v ∈ ps → 0 <= v < numPages (vm s) a) ∧
  ∀ id' ps', id' ≠ id → threadTable s a !! id' = Some ps' → ∀ v, v ∈ ps → v ∉ ps'.

Record left (ps : list Z) (s s' : Spaces) : Prop := {
  lf_live : live_inv (vm s');
  lf_content : ∀ a v bs, ¬ (a = currentSpace (vm s) ∧ v ∈ ps) → live_content (vm s) a v bs → live_content (vm s') a v bs;
  lf_pages : ∀ a v, page_of (vm s') a v =
    if decide (a = currentSpace (vm s) ∧ v ∈ ps) then exited <$> page_of (vm s) a v else page_of (vm s) a v;
  lf_freed : ∀ v e, v ∈ ps → page_of (vm s) (currentSpace (vm s)) v = Some e → dead e = false →
    (location e = MAIN → used (pageTableBitMap (vm s')) (physicalPage (pte e)) = false) ∧
    (location e = SWAP → used (swapBitMap (vm s')) (Z.quot (byteOffset e) PageSize) = false);
  lf_threads : threadTable s' = threadTable s;
  lf_current : currentSpace (vm s') = currentSpace (vm s) ∧ registers (machine (vm s')) = registers (machine (vm s));
  lf_tlb : ∀ j x, tlb_at (vm s') j = Some x → valid x = false
}.

Lemma AddrSpace_Exit_spec id ps s : live_inv (vm s) → threadTable s (currentSpace (vm s)) !! id = Some ps →
  length ps = 8%nat → (∀ v, v ∈ ps → 0 <= v < numPages (vm s) (currentSpace (vm s))) →
  wp no_fault (AddrSpace_Exit id) (λ _ s', left ps s s') s.
Proof.
  intros Hi Hps Hl Hin. destruct (live_closing _ Hi) as [Hf Ht]. unfold AddrSpace_Exit. apply wp_bind, wp_get, wp_bind.
  eapply wp_mono; [apply (exit_pages_spec _ id ps 8 0 s); try done; lia|]. cbn. intros [] s1 [[[Hf1 Ht1] Hp Hc [Hcs Hrg] _ Hfr] Hth].
  rewrite drop_0, take_ge in * by lia. apply wp_bind, wp_on_vm. eapply wp_mono; [by apply SaveState_flushed|].
  cbn. intros [] v2 [Hfl Hno]. destruct (fl_same _ _ Hfl) as (HB & HW & _ & HF & _ & Hsp & Hcur).
  apply wp_ASSERT; [intros _|done]. constructor; cbn.
  - apply closing_live; [done|]. rewrite HF. by eapply flushed_facts.
  - intros a v bs Hne Hbs. by eapply flushed_content, Hc.
  - intros a v. unfold page_of at 1. rewrite Hsp. apply Hp.
  - rewrite HB, HW. exact Hfr.
  - done.
  - split; [congruence|]. by rewrite (proj2 (proj2 (proj2 (fl_machine _ _ Hfl)))).
  - done.
Qed.

Lemma left_size ps s s' a : left ps s s' → numPages (vm s') a = numPages (vm s) a.
Proof.
  intros Hl. apply same_pages_size. intros v. rewrite (lf_pages _ _ _ Hl). case_decide; [|done]. by rewrite fmap_is_Some.
Qed.

(** ** Histories *)

Inductive event :=
| Miss (rand : Z)
| Store (addr size v : Z)
| Load (addr size v : Z)
| NewThread (id pc : Z)
| EndThread (id : Z)
| SwitchTo (a : nat) (rs : list Z)
| Compute (rs : list Z).

Section history.
(** The policy, the byte order of the host, the handler of traps, and what is
    in the entries nothing was written to. *)
Context (fifo big : bool) (handler : ExceptionType → M Machine unit) (unset : Z → Z).

(** What happens to the memory: a miss that is served, a reference that is not trapped, the start and the end of a thread of the
    running program, a switch to a thread with registers [rs], and whatever
    else the program does to its registers. *)
Inductive memory_step : event → Spaces → Spaces → Prop :=
| step_miss rand VA s v' : 0 <= rand → at_ (registers (machine (vm s))) BadVAddrReg = Some VA →
    (∀ j x, tlb_at (vm s) j = Some x → valid x = true → virtualPage x ≠ page VA) →
    handleTLBMiss fifo rand (vm s) = Done ((), v') → memory_step (Miss rand) s (mkSpaces v' (threadTable s))
| step_store addr size v s m' : size = 1 ∨ size = 2 ∨ size = 4 →
    WriteMem big handler addr size v (machine (vm s)) = Done (true, m') →
    memory_step (Store addr size v) s (mkSpaces (with_machine m' (vm s)) (threadTable s))
| step_load addr size v s m' : size = 1 ∨ size = 2 ∨ size = 4 →
    ReadMem big handler addr size (machine (vm s)) = Done (true, Some v, m') →
    memory_step (Load addr size v) s (mkSpaces (with_machine m' (vm s)) (threadTable s))
| step_new_thread id pc s s' : regs_full (vm s) → numPages (vm s) (currentSpace (vm s)) + 8 <= 2 ^ 32 / PageSize →
    threadTable s (currentSpace (vm s)) !! id = None →
    AddrSpace_Fork unset id pc s = Done ((), s') → memory_step (NewThread id pc) s s'
| step_end_thread id s s' : is_Some (threadTable s (currentSpace (vm s)) !! id) →
    AddrSpace_Exit id s = Done ((), s') → memory_step (EndThread id) s s'
| step_switch a rs s v' : SaveState (vm s) = Done ((), v') →
    memory_step (SwitchTo a rs) s (mkSpaces (with_regs rs (with_currentSpace a v')) (threadTable s))
| step_compute rs s : memory_step (Compute rs) s (mkSpaces (with_regs rs (vm s)) (threadTable s)).

Inductive memory_run : list event → Spaces → Spaces → Prop :=
| run_nil s : memory_run [] s s
| run_cons ev evs s s1 s2 : memory_step ev s s1 → memory_run evs s1 s2 → memory_run (ev :: evs) s s2.
End history.

(** *** The specification: programs with private pages *)

(** What each page of each program holds, as far as its program decided it. *)
Record Programs := mkPrograms { running : nat; pages : nat → Z → option (list Z); stacks : nat → gmap Z (list Z) }.

Inductive program_step : event → Programs → Programs → Prop :=
| spec_none ev P : (match ev with Miss _ | Compute _ => True | _ => False end) → program_step ev P P
| spec_store addr size v P new bs' :
    (∀ a w, (a, w) ≠ (running P, page addr) → new a w = pages P a w) → new (running P) (page addr) = Some bs' →
    (∀ k b, bytes_le (Z.to_nat size) v !! k = Some b → bs' !! (Z.to_nat (u32 addr mod PageSize) + k)%nat = Some b) →
    (∀ bs i, pages P (running P) (page addr) = Some bs →
       (i < Z.to_nat (u32 addr mod PageSize) ∨ Z.to_nat (u32 addr mod PageSize) + Z.to_nat size <= i)%nat → bs' !! i = bs !! i) →
    program_step (Store addr size v) P (mkPrograms (running P) new (stacks P))
| spec_load addr size v P :
    (∀ bs, pages P (running P) (page addr) = Some bs →
       v = narrow size (of_le (take (Z.to_nat size) (drop (Z.to_nat (u32 addr mod PageSize)) bs)))) →
    program_step (Load addr size v) P P
| spec_new_thread id pc P ps : stacks P (running P) !! id = None → length ps = 8%nat → NoDup ps →
    (∀ w, w ∈ ps → pages P (running P) w = None) →
    (∀ id' ps', stacks P (running P) !! id' = Some ps' → ∀ w, w ∈ ps → w ∉ ps') →
    program_step (NewThread id pc) P (mkPrograms (running P) (pages P) (<[running P := <[id := ps]> (stacks P (running P))]> (stacks P)))
| spec_end_thread id P ps : stacks P (running P) !! id = Some ps →
    program_step (EndThread id) P (mkPrograms (running P)
      (λ a w, if decide (a = running P ∧ w ∈ ps) then None else pages P a w) (stacks P))
| spec_switch a rs P : program_step (SwitchTo a rs) P (mkPrograms a (pages P) (stacks P)).

Inductive program_run : list event → Programs → Programs → Prop :=
| prun_nil P : program_run [] P P
| prun_cons ev evs P P1 P2 : program_step ev P P1 → program_run evs P1 P2 → program_run (ev :: evs) P P2.

(** A miss on a page that the program has no more, or that is lost. *)
Definition stray (ev : event) (s : Spaces) : Prop :=
  ∃ rand VA, ev = Miss rand ∧ at_ (registers (machine (vm s))) BadVAddrReg = Some VA ∧ ¬ touchable (vm s) (page VA).

Lemma touchable_dec s v : touchable s v ∨ ¬ touchable s v.
Proof.
  unfold touchable. destruct (page_of s (currentSpace s) v) as [e|]; [|right; by intros (e & ? & _)].
  destruct (dead e) eqn:Hd; [right; intros (e' & [= <-] & ? & _); congruence|].
  destruct (decide (location e = EXEC ∧ byteOffset e < 0)) as [[Hl Ho]|Hn].
  - right. intros (e' & [= <-] & _ & H). specialize (H Hl). lia.
  - left. exists e. split_and!; [done..|]. intros Hl. destruct (Z.lt_ge_cases (byteOffset e) 0); tauto.
Qed.

(** The memory holds what the programs have. *)
Record represents (s : Spaces) (P : Programs) : Prop := {
  rp_live : live_inv (vm s);
  rp_stacks : stacks_ok s;
  rp_running : running P = currentSpace (vm s);
  rp_table : ∀ a, stacks P a = threadTable s a;
  rp_pages : ∀ a w bs, pages P a w = Some bs → live_content (vm s) a w bs
}.

Lemma stacks_same s s' : threadTable s' = threadTable s → (∀ a, numPages (vm s') a = numPages (vm s) a) →
  stacks_ok s → stacks_ok s'.
Proof.
  intros Ht Hn Hs a id ps. rewrite Ht. intros Hps. destruct (Hs a id ps Hps) as (Hl & Hr & Hd).
  split; [done|]. split; [|done]. intros v Hv. rewrite Hn. auto.
Qed.

Lemma stack_numbers_nodup n : NoDup (stack_numbers n).
Proof. unfold stack_numbers. apply NoDup_fmap_2; [intros i j; lia|apply NoDup_seq]. Qed.

Lemma stray_dec ev s : stray ev s ∨ ¬ stray ev s.
Proof.
  unfold stray. destruct ev as [rand| | | | | |]; try (right; by intros (r & VA & ? & _)).
  destruct (at_ (registers (machine (vm s))) BadVAddrReg) as [VA|]; [|right; by intros (r & VA & _ & ? & _)].
  destruct (touchable_dec (vm s) (page VA)) as [Ht|Ht]; [|left; by exists rand, VA].
  right. intros (r & VA' & _ & [= <-] & ?). done.
Qed.

Lemma step_represents fifo big handler unset ev s s' P : memory_step fifo big handler unset ev s s' → ¬ stray ev s → represents s P →
  ∃ P', program_step ev P P' ∧ represents s' P'.
Proof.
  intros Hstep Hok [Hi Hs Hr Ht Hp]. destruct Hstep as [rand VA s v' Hrand HVA Hno Hm|addr size v s m' Hsz Hm|
    addr size v s m' Hsz Hm|id pc s s' Hfull Hn Hid Hm|id s s' [ps Hps] Hm|a rs s v' Hm|rs s].
  - assert (touchable (vm s) (page VA)) as Htouch.
    { destruct (touchable_dec (vm s) (page VA)); [done|]. destruct Hok. by exists rand, VA. }
    pose proof (wp_done _ _ _ _ _ _ (live_miss fifo rand (vm s) VA Hi Hrand HVA Htouch Hno) Hm) as (Hi' & Hk & Hc & Hn).
    exists P. split; [by constructor|]. constructor; cbn; [done| |congruence|done|intros; by apply Hk, Hp].
    by apply (stacks_same s).
  - destruct (live_store big handler (vm s) addr size v m' Hi Hsz Hm) as (Hi' & Hk & bs' & Hc & Hin & Hout).
    rewrite length_bytes_le in Hout.
    exists (mkPrograms (running P) (λ a w, if decide ((a, w) = (running P, page addr)) then Some bs' else pages P a w) (stacks P)).
    split.
    + apply (spec_store addr size v P _ bs'); [intros a w Hne; by rewrite decide_False|by rewrite decide_True|done|].
      intros bs i Hbs. apply Hout. rewrite <- Hr. by apply Hp.
    + constructor; cbn; try done. intros a w bs. case_decide as Haw; [|intros Hbs; apply Hk; [congruence|by apply Hp]].
      intros [= <-]. injection Haw as -> ->. rewrite Hr. exact Hc.
  - destruct (live_load big handler (vm s) addr size v m' Hi Hsz Hm) as (Hi' & Hk & Hv).
    exists P. split; [|constructor; cbn; try done; intros; by apply Hk, Hp].
    apply spec_load. intros bs Hbs. apply Hv. rewrite <- Hr. by apply Hp.
  - pose proof (wp_done _ _ _ _ _ _ (AddrSpace_Fork_spec unset id pc s Hi Hfull Hn Hid) Hm) as [[Hi' Hk] Hc Hpg Hsz Hth _].
    set (a := currentSpace (vm s)) in *. set (new := stack_numbers (numPages (vm s) a)).
    exists (mkPrograms (running P) (pages P) (<[running P := <[id := new]> (stacks P (running P))]> (stacks P))). split.
    + apply spec_new_thread; [by rewrite Hr, Ht|done|apply stack_numbers_nodup| |].
      * intros w Hw%stack_numbers_in. rewrite Hr. destruct (pages P a w) as [bs|] eqn:Hbs; [|done].
        destruct (Hp _ _ _ Hbs) as [_ (e & He & _)]. apply at_range in He. cbn in He. rewrite length_fmap in He. fold a in Hw.
        unfold numPages in Hw. lia.
      * intros id' ps'. rewrite Hr, Ht. intros Hps' w Hw%stack_numbers_in Hw'.
        apply (proj1 (proj2 (Hs a id' ps' Hps'))) in Hw'. lia.
    + constructor; cbn; [done| |congruence| |intros; by apply Hk, Hp].
      * intros b id' ps'. rewrite Hth. case_decide as Hb.
        { subst b. rewrite lookup_insert_Some. intros [[<- <-]|[Hne Hps]].
          - split; [done|]. split; [intros v Hv%stack_numbers_in; rewrite Hsz, decide_True by done; unfold numPages in *; lia|].
            intros id2 ps2 Hne. rewrite lookup_insert_ne by done. intros Hps2 v Hv%stack_numbers_in Hv2.
            apply (proj1 (proj2 (Hs a id2 ps2 Hps2))) in Hv2. lia.
          - destruct (Hs a id' ps' Hps) as (Hl & Hin & Hd). split; [done|].
            split; [intros v Hv; specialize (Hin v Hv); rewrite Hsz, decide_True by done; lia|].
            intros id2 ps2 Hne2. rewrite lookup_insert_Some. intros [[<- <-]|[Hne3 Hps2]]; [|by apply (Hd id2)].
            intros v Hv Hv2%stack_numbers_in. specialize (Hin v Hv). lia. }
        intros Hps. destruct (Hs b id' ps' Hps) as (Hl & Hin & Hd). split; [done|].
        split; [intros v Hv; specialize (Hin v Hv); rewrite Hsz, decide_False by done; lia|done].
      * intros b. rewrite Hth. rewrite Hr. case_decide as Hb; [subst b; by rewrite fn_lookup_insert, Ht|].
        by rewrite fn_lookup_insert_ne.
  - destruct (Hs _ id ps Hps) as (Hl & Hin & _).
    pose proof (wp_done _ _ _ _ _ _ (AddrSpace_Exit_spec id ps s Hi Hps Hl Hin) Hm) as Hleft.
    eexists. split; [eapply (spec_end_thread id P ps); by rewrite Hr, Ht|].
    constructor; cbn; [apply Hleft| |by rewrite (proj1 (lf_current _ _ _ Hleft))|by rewrite (lf_threads _ _ _ Hleft)|].
    + apply (stacks_same s); [apply Hleft| |exact Hs]. intros a. by apply (left_size ps s s').
    + intros a w bs. rewrite Hr. case_decide as Haw; [done|]. intros Hbs. apply (lf_content _ _ _ Hleft); [done|]. by apply Hp.
  - pose proof (wp_done _ _ _ _ _ _ (live_switch (vm s) a Hi) Hm) as (Hi' & Hk & Hsp).
    destruct (live_registers _ rs Hi') as [Hi2 Hk2].
    eexists. split; [by apply spec_switch|]. constructor; cbn; [done| |done|done|intros; by apply Hk2, Hk, Hp].
    apply (stacks_same s); [done| |exact Hs]. intros b. unfold numPages. cbn. by rewrite Hsp.
  - destruct (live_registers _ rs Hi) as [Hi2 Hk2]. exists P. split; [by constructor|].
    constructor; cbn; [done| |done|done|intros; by apply Hk2, Hp]. by apply (stacks_same s).
Qed.

(** *** Replaying a history *)

(** Histories of events that can be computed: each is checked to be one of
    [memory_step], and no miss is stray. *)
Section replay.
Context (fifo big : bool) (handler : ExceptionType → M Machine unit).

Definition may_miss (v : Z) (s : VM) : bool :=
  match tlb (machine s) with Some t => forallb (λ x, negb (valid x && (virtualPage x =? v))) t | None => true end &&
  match page_of s (currentSpace s) v with
  | Some e => negb (dead e) && (bool_decide (location e ≠ EXEC) || (0 <=? byteOffset e))
  | None => false
  end.

Definition replay_event (ev : event) (s : Spaces) : outcome Spaces :=
  match ev with
  | Miss rand =>
      let? VA := vget (registers (machine (vm s))) BadVAddrReg in
      let? _ := assert ((0 <=? rand) && may_miss (page VA) (vm s)) in
      let? v := handleTLBMiss fifo rand (vm s) in Done (mkSpaces v.2 (threadTable s))
  | Store addr size v =>
      let? _ := assert ((size =? 1) || (size =? 2) || (size =? 4)) in
      let? r := WriteMem big handler addr size v (machine (vm s)) in
      let? _ := assert r.1 in Done (mkSpaces (with_machine r.2 (vm s)) (threadTable s))
  | EndThread id =>
      let? _ := assert (bool_decide (is_Some (threadTable s (currentSpace (vm s)) !! id))) in
      let? r := AddrSpace_Exit id s in Done r.2
  | SwitchTo a rs =>
      let? r := SaveState (vm s) in Done (mkSpaces (with_regs rs (with_currentSpace a r.2)) (threadTable s))
  | Compute rs => Done (mkSpaces (with_regs rs (vm s)) (threadTable s))
  | Load _ _ _ | NewThread _ _ => Fault AssertFailed
  end.
Fixpoint replay (evs : list event) (s : Spaces) : outcome Spaces :=
  match evs with [] => Done s | ev :: evs => let? s' := replay_event ev s in replay evs s' end.

Lemma assert_true b {A} (k : () → outcome A) x : (let? u := assert b in k u) = Done x → b = true ∧ k () = Done x.
Proof. by destruct b. Qed.

Lemma may_miss_spec v s : may_miss v s = true →
  (∀ j x, tlb_at s j = Some x → valid x = true → virtualPage x ≠ v) ∧ touchable s v.
Proof.
  unfold may_miss. intros [Ht Hp]%andb_true_iff. split.
  - intros j x Hj Hv Hx. destruct (tlb_at_Some _ _ _ Hj) as (t & Htlb & Hat). rewrite Htlb in Ht.
    apply at_lookup in Hat as [Hat _]. apply list_elem_of_lookup_2, list_elem_of_In in Hat.
    rewrite forallb_forall in Ht. specialize (Ht x Hat). rewrite Hv, Hx, Z.eqb_refl in Ht. done.
  - destruct (page_of s (currentSpace s) v) as [e|] eqn:He; [|done]. apply andb_true_iff in Hp as [Hd Ho].
    exists e. split; [done|]. split; [by destruct (dead e)|]. intros Hl.
    apply orb_true_iff in Ho as [Ho%bool_decide_eq_true|Ho]; [done|lia].
Qed.

Lemma replay_event_step unset ev s s' : replay_event ev s = Done s' →
  memory_step fifo big handler unset ev s s' ∧ ¬ stray ev s.
Proof.
  intros Hr. destruct ev as [rand|addr size v|addr size v|id pc|id|a rs|rs]; cbn [replay_event] in Hr; try done.
  - apply outcome_bind_Done in Hr as (VA & HVA & Hr). apply assert_true in Hr as [[Hrand Hmay]%andb_true_iff Hr].
    apply outcome_bind_Done in Hr as ([[] v] & Hm & [= <-]). apply may_miss_spec in Hmay as [Hno Ht]. apply vget_Some in HVA.
    assert (at_ (registers (machine (vm s))) BadVAddrReg = Some VA) as Hat by exact (proj2 HVA).
    split; [by apply (step_miss _ _ _ _ _ VA); [lia|..]|].
    intros (r & VA' & _ & HVA' & Hnt). by assert (VA' = VA) as -> by congruence.
  - apply assert_true in Hr as [Hsz Hr]. apply outcome_bind_Done in Hr as ([b m] & Hm & Hr).
    apply assert_true in Hr as [Hb [= <-]]. cbn in Hb. subst b. split; [|by intros (? & ? & ? & _)].
    apply step_store; [lia|exact Hm].
  - apply assert_true in Hr as [Hth%bool_decide_eq_true Hr]. apply outcome_bind_Done in Hr as ([[] s1] & Hm & [= <-]).
    split; [by apply step_end_thread|by intros (? & ? & ? & _)].
  - apply outcome_bind_Done in Hr as ([[] v] & Hm & [= <-]). split; [by apply step_switch|by intros (? & ? & ? & _)].
  - injection Hr as <-. split; [apply step_compute|by intros (? & ? & ? & _)].
Qed.

Lemma replay_run unset evs : ∀ s s' P, replay evs s = Done s' → represents s P →
  memory_run fifo big handler unset evs s s' ∧ ∃ P', represents s' P'.
Proof.
  induction evs as [|ev evs IH]; intros s s' P Hr HR; cbn in Hr.
  - injection Hr as <-. split; [constructor|by exists P].
  - apply outcome_bind_Done in Hr as (s1 & He & Hr). destruct (replay_event_step unset ev s s1 He) as [Hst Hok].
    destruct (step_represents _ _ _ _ _ _ _ _ Hst Hok HR) as (P1 & _ & HR1).
    destruct (IH s1 s' P1 Hr HR1) as [Hm HP]. split; [by econstructor|done].
Qed.
End replay.

(** ** A dead page that is touched *)

(** The miss of a page that was swapped out when its thread ended: what the
    handler does once it has a free frame [p]. *)
Section dead_page.
Context (s : VM) (v : Z) (e : PageTableEntry) (b : nat) (w : Z) (e' : PageTableEntry) (bs : list Z) (p : Z).
Context (Hi : live_inv s) (He : page_of s (currentSpace s) v = Some e) (Hd : dead e = true) (Hl : location e = SWAP).
Context (He' : page_of s b w = Some e') (Hd' : dead e' = false) (Hl' : location e' = SWAP).
Context (Hoff : byteOffset e = byteOffset e') (Hbs : live_content s b w bs) (Hp : 0 <= p < NumPhysPages).

Lemma dead_page_other : (b, w) ≠ (currentSpace s, v).
Proof using He He' Hd Hd'. clear Hbs. intros [= -> ->]. congruence. Qed.

Lemma dead_page_in fr : wp no_fault (page_in v p) (λ _ s1, frame_of s1 p = bs ∧
  used (swapBitMap s1) (Z.quot (byteOffset e) PageSize) = false ∧ page_of s1 b w = Some e' ∧ tlb_sound s1 ∧
  currentTLB s1 = currentTLB s ∧ ∃ i, at_ (IPT s1) p = Some i ∧ PID i = currentSpace s ∧ virtualPage (ipte i) = v ∧
    valid (ipte i) = true ∧ physicalPage (ipte i) = p) (with_frames fr s).
Proof using All.
  pose proof dead_page_other as Hother_page. destruct (live_closing s Hi) as [Hf (Hm & Htlb & Hsound)]. pose proof Hm as [M1 M2 M3 M4].
  destruct (cf_swap _ _ Hf b w e' He' Hd' Hl') as (_ & k & Hk & Hko & Hku & Hend). rewrite Hko in Hoff.
  destruct (cf_swapmap _ _ Hf) as [Hw Hn]. destruct Hbs as [Hlb (x & Hx & Hcx)].
  assert (x = e') as -> by (rewrite page_of_bury, He' in Hx; cbn in Hx; rewrite bury_live in Hx by done; congruence).
  rewrite Hl', Hko in Hcx. cbn in Hcx.
  unfold page_in. apply wp_bind, wp_get. cbn zeta. change (currentSpace (with_frames fr s)) with (currentSpace s).
  apply wp_bind. eapply wp_get_page; [exact He|]. rewrite Hl. apply wp_bind.
  unfold readPageFromSwapToPPN. cbn zeta. apply wp_bind, wp_get, wp_bind. rewrite Hoff, Z.quot_mul by done.
  destruct (Clear_spec _ k Hw) as (bm & Hc & Hwb & Hnb & Hub); [lia|]. eapply wp_lift; [exact Hc|].
  apply wp_bind, wp_put, wp_bind.
  destruct (host_read_spec (swapFile s) PageSize (k * PageSize)) as (bs' & Hr & Hlb' & Hbb & Hbs').
  { unfold PageSize, SectorSize. lia. }
  eapply wp_lift; [exact Hr|]. assert (bs' = bs) as -> by (rewrite Hbs', <- Hcx; done).
  apply load_frame_spec; [exact Hm|done|exact Hlb'|apply Hbb, (cf_bytes _ _ Hf)|].
  intros mem s1 Hwf Hother Hfill. apply wp_bind. eapply wp_set_page; [exact He|].
  destruct (at_in (IPT s) p) as [i Hat]; [rewrite (cf_length _ _ Hf); unfold NumPhysPages in *; lia|].
  apply wp_bind. eapply wp_set_IPT; [exact Hat|]. apply wp_bind, wp_get, wp_put.
  set (ni := mkIPTE _ (currentSpace s)). destruct (vset_at _ _ ni _ Hat) as (_ & Hlen & Hatx). cbn in Hlen, Hatx.
  split_and!; [exact (Hfill Hlb)| | |split_and!; [exact Hwf|exact Htlb|]|done|exists ni; split_and!; [|done|exact (proj1 (cf_virtual _ _ Hf _ _ _ He))|done|done]].
  - cbn. rewrite Hub by lia. by rewrite Z.eqb_refl.
  - cbn. change (page_of (set_entry (currentSpace s) v (mkPTE (set_valid true (set_physicalPage p (pte e))) MAIN (k * PageSize)) s) b w = Some e').
    unfold set_entry. rewrite (page_of_set s _ v e), decide_False; [done| |exact He]. intros [-> ->]. by apply Hother_page.
  - intros j y Hj Hv. destruct (Hsound j y Hj Hv) as [z Hz]. cbn. rewrite Hatx. destruct (decide _); [by eexists|by exists z].
  - cbn. rewrite Hatx. by rewrite decide_True.
Qed.
End dead_page.

(** *** ... and the rest of the handler *)

Lemma wp_populate s p i (Q : unit → VM → Prop) : tlb_sound s → 0 <= currentTLB s < TLBSize → at_ (IPT s) p = Some i → 
  (∀ s', spaces s' = spaces s → swapBitMap s' = swapBitMap s → mainMemory (machine s') = mainMemory (machine s) →
     (∃ x, tlb_at s' (currentTLB s) = Some x ∧ valid x = valid (ipte i) ∧ virtualPage x = virtualPage (ipte i) ∧
        physicalPage x = physicalPage (ipte i)) → Q () s') →
  wp no_fault (populateTLBFromIPTEntry p) Q s.
Proof.
  intros Hs Hc Hat HQ. pose proof Hs as (Hm & [t Ht] & _). pose proof (mw_table _ Hm) as Hlen. rewrite Ht in Hlen.
  destruct (at_in t (currentTLB s)) as [old Hold]; [destruct (pageTable (machine s)); [done|lia]|].
  unfold populateTLBFromIPTEntry. apply wp_bind, wp_get, wp_bind.
  eapply wp_mono; [apply (propogate_flushed s (currentTLB s) old Hs); unfold tlb_at; by rewrite Ht|].
  cbn. intros _ s1 (Hfl & Hm1 & _). destruct (fl_same _ _ Hfl) as (_ & HW & _ & _ & _ & Hsp & _).
  destruct (at_in (IPT s1) p) as [i1 Hi1]; [apply at_range in Hat; by rewrite (proj1 (fl_IPT _ _ Hfl))|].
  destruct (proj2 (fl_IPT _ _ Hfl) p i1 Hi1) as (i0 & Hi0 & _ & Hv & Hph & Hva & _).
  assert (i0 = i) as -> by congruence. apply wp_bind. eapply wp_get_IPT; [exact Hi1|].
  apply wp_bind. eapply (wp_set_tlb _ (currentTLB s) old _ t); [by rewrite Hm1|exact Hold|]. apply wp_modify.
  apply HQ; cbn; [done|done|by rewrite Hm1|]. exists (ipte i1). split; [|done].
  unfold tlb_at. cbn. destruct (vset_at _ _ (ipte i1) _ Hold) as (_ & _ & ->). by rewrite decide_True.
Qed.

Lemma miss_dead fifo rand s VA e b w e' bs : live_inv s → at_ (registers (machine s)) BadVAddrReg = Some VA →
  page_of s (currentSpace s) (page VA) = Some e → dead e = true → location e = SWAP →
  page_of s b w = Some e' → dead e' = false → location e' = SWAP → byteOffset e = byteOffset e' →
  live_content s b w bs → (∃ p, 0 <= p < NumPhysPages ∧ own s p = None) →
  wp no_fault (handleTLBMiss fifo rand) (λ _ s', 
    (∃ j x, tlb_at s' j = Some x ∧ valid x = true ∧ virtualPage x = page VA ∧ frame_of s' (physicalPage x) = bs) ∧
    page_of s' b w = Some e' ∧ used (swapBitMap s') (Z.quot (byteOffset e') PageSize) = false ∧ ¬ live_inv s') s.
Proof.
  intros Hi HVA He Hd Hl He' Hd' Hl' Hoff Hbs (q & Hq & Hfree). destruct (live_closing s Hi) as [Hf Hsound].
  unfold handleTLBMiss. apply wp_bind, wp_get, wp_bind. eapply wp_lift; [by apply at_vget|]. cbn zeta.
  change (u32 VA / PageSize) with (page VA). apply wp_bind.
  destruct (ipt_search (bury s) (page VA) Hi) as [[Hp _]|[_ Hown]].
  2:{ apply (live_owner _ s _ _ e _ Hf He) in Hown as [? _]. congruence. }
  cbn in Hp. rewrite Hp, Z.eqb_refl. unfold handleIPTmiss. apply wp_bind, wp_bind, wp_get, wp_bind.
  destruct (cf_frames _ _ Hf) as [Hw Hn].
  destruct (Find_cases _ Hw) as [[_ Hall]|(k & fr & Hfind & Hk & Hu & _ & Hwb & Hnb & Hub)].
  { specialize (Hall q). rewrite Hn, (cf_used _ _ Hf q Hq), Hfree in Hall. specialize (Hall Hq). by rewrite is_Some_case in Hall. }
  eapply wp_lift; [exact Hfind|]. apply wp_bind, wp_put. cbn [fst snd]. rewrite (proj2 (Z.eqb_neq k (-1))) by lia.
  apply wp_bind, wp_ret, wp_bind. rewrite Hn in Hk.
  eapply wp_mono; [by eapply (dead_page_in s (page VA) e b w e' bs k Hi He Hd Hl He' Hd' Hl' Hoff Hbs Hk fr)|].
  cbn. intros _ s1 (Hfr & Hsw & Hpg & Hs1 & Hct & i & Hat & HPID & Hvp & Hv & Hph).
  apply wp_ret. apply wp_bind, wp_ASSERT; [intros _|lia]. apply wp_ret.
  apply (wp_populate s1 k i); [exact Hs1|rewrite Hct; apply Hf|exact Hat|].
  intros s' Hsp HW Hmem (x & Hx & Hxv & Hxp & Hxf).
  assert (page_of s' b w = Some e') as Hpg' by (unfold page_of; by rewrite Hsp).
  assert (used (swapBitMap s') (Z.quot (byteOffset e') PageSize) = false) as Hu' by (rewrite HW, <- Hoff; exact Hsw).
  split; [|split; [exact Hpg'|split; [exact Hu'|]]].
  - exists (currentTLB s1), x. split_and!; [done|congruence|congruence|]. rewrite Hxf, Hph. unfold frame_of. by rewrite Hmem.
  - intros Hi'. destruct (live_closing s' Hi') as [Hf' _]. destruct (cf_swap _ _ Hf' b w e' Hpg' Hd' Hl') as (_ & j & _ & Hj & Huj & _).
    rewrite Hj, Z.quot_mul in Hu' by done. congruence.
Qed.

(** ** A program that starts and ends a thread *)

Definition ex_thread_vm : VM := example_vm 130.
Definition ex_spaces : Spaces := mkSpaces ex_thread_vm (λ _, {[0 := stack_numbers 2]}).
Definition ex_programs : Programs :=
  mkPrograms 0 (λ a w, if decide (a = 0%nat ∧ w = 1) then Some (take 128 (drop 168 example_file)) else None) (threadTable ex_spaces).

Lemma example_live VA : live_inv (example_vm VA).
Proof.
  change (vm_inv (-1) (fresh_vm (machine (example_vm VA)) (IPT (example_vm VA)) (pageTableBitMap (example_vm VA)) (swapBitMap (example_vm VA))
    (λ _, mkSpace (bury_page <$> spaceTable example_space) (executable example_space)))).
  pose proof (example_vm_inv VA) as Hi. apply fresh_vm_inv; try apply Hi.
  - intros t j e [= <-] He. by rewrite (at_replicate 4 blank e j He).
  - intros p i Hi'%at_replicate. by subst.
  - intros p Hp. pose proof (vi_used _ _ Hi p Hp) as Hu. rewrite Hu.
    assert (own (example_vm VA) p = None) as ->; [|lia]. unfold own. destruct (at_ _ p) as [i|] eqn:Hip; [|done].
    apply at_replicate in Hip. by subst.
  - intros a v e. cbn [spaceTable]. rewrite at_fmap. intros (x & Hx & ->)%fmap_Some.
    destruct (new_AddrSpace_page example_file 256 0 0 40 v x) as (Hv & Hv' & Hl); [lia|exact Hx|].
    rewrite (proj1 (bury_entry x)), bury_location. split_and!; [done|done|]. destruct (dead x); [by right|done].
Qed.

Lemma example_regs_full VA : regs_full (example_vm VA).
Proof. reflexivity. Qed.
Lemma example_size VA a : numPages (example_vm VA) a = 10.
Proof. reflexivity. Qed.

Lemma ex_represents : represents ex_spaces ex_programs.
Proof.
  constructor; [apply example_live| |done|done|].
  - intros a id ps Hps. cbn in Hps. apply lookup_singleton_Some in Hps as [<- <-]. split; [done|]. split.
    + intros v Hv%stack_numbers_in. change (numPages (vm ex_spaces) a) with (numPages (example_vm 130) a). rewrite example_size. lia.
    + intros id' ps' Hne Hps'. cbn in Hps'. apply lookup_singleton_Some in Hps' as [<- _]. done.
  - intros a w bs. unfold ex_programs. cbn [pages]. case_decide as Haw; [|done]. destruct Haw as [-> ->]. intros [= <-].
    split; [reflexivity|]. eexists. split; reflexivity.
Qed.

Lemma ex_touchable : touchable ex_thread_vm (page 130).
Proof. exists (init_page 2 40 1). split_and!; [reflexivity|reflexivity|done]. Qed.

#[local] Opaque ex_thread_vm.

(** It misses, forks thread 1 at 64, and the thread ends. *)
Lemma ex_run : ∃ s', memory_run true false (λ _, ret ()) (λ _, 0) [Miss 0; NewThread 1 64; EndThread 1] ex_spaces s'.
Proof.
  assert (live_inv ex_thread_vm) as Hi by apply example_live.
  assert (∀ j x, tlb_at ex_thread_vm j = Some x → valid x = true → virtualPage x ≠ page 130) as Hno
    by (intros j x Hj Hv; by destruct (example_no_hit 130 j x Hj Hv)).
  pose proof (live_miss true 0 ex_thread_vm 130 Hi (Z.le_refl 0) (example_registers 130) ex_touchable Hno) as Hw.
  assert (∃ v1, handleTLBMiss true 0 ex_thread_vm = Done ((), v1)) as [v1 Hm] by exact example_miss.
  destruct (wp_done _ _ _ _ _ _ Hw Hm) as (Hi1 & Hk1 & Hc1 & Hn1).
  set (s1 := mkSpaces v1 (threadTable ex_spaces)).
  assert (currentSpace (vm s1) = 0%nat) as Hc by exact Hc1.
  assert (regs_full v1) as Hr1 by exact (handleTLBMiss_stays regs_full true 0 (λ _ _ H, H) (λ _ _ H, H) (λ _ _ H, H)
    (λ _ _ H, H) (λ _ _ _ H, H) (λ _ _ H, H) (λ _ _ H, H) (λ _ _ _ _ H, H) _ _ _ (example_regs_full 130) Hm).
  assert (numPages (vm s1) (currentSpace (vm s1)) + 8 <= 2 ^ 32 / PageSize) as Hn.
  { rewrite Hc. cbn [vm s1]. rewrite Hn1. change (numPages ex_thread_vm 0) with (numPages (example_vm 130) 0). by rewrite example_size. }
  assert (threadTable s1 (currentSpace (vm s1)) !! 1 = None) as Hid by (cbn; by rewrite lookup_singleton_ne).
  destruct (wp_no_fault _ _ _ (AddrSpace_Fork_spec (λ _, 0) 1 64 s1 Hi1 Hr1 Hn Hid)) as ([] & s2 & Hs2 & Hfk).
  assert (threadTable s2 (currentSpace (vm s2)) !! 1 = Some (stack_numbers (numPages (vm s1) 0))) as Hid2.
  { rewrite (fk_threads _ _ _ _ _ Hfk), (fk_current _ _ _ _ _ Hfk), decide_True by done. rewrite lookup_insert_eq. by rewrite Hc. }
  assert (∃ s3, AddrSpace_Exit 1 s2 = Done ((), s3)) as [s3 Hs3].
  { destruct (wp_no_fault _ _ _ (AddrSpace_Exit_spec 1 _ s2 (proj1 (fk_live _ _ _ _ _ Hfk)) Hid2 eq_refl ltac:(
      intros v Hv%stack_numbers_in; rewrite (fk_size _ _ _ _ _ Hfk), (fk_current _ _ _ _ _ Hfk), decide_True, Hc by done;
      unfold numPages in *; lia))) as ([] & s3 & Hs3 & _). by exists s3. }
  exists s3. apply (run_cons _ _ _ _ _ _ _ s1).
  { apply (step_miss _ _ _ _ _ 130); [lia|apply example_registers|exact Hno|exact Hm]. }
  apply (run_cons _ _ _ _ _ _ _ s2); [by apply step_new_thread|].
  apply (run_cons _ _ _ _ _ _ _ s3); [|apply run_nil]. apply step_end_thread; [by eexists|exact Hs3].
Qed.

(** ** Properties *)

(** C7: demand paging and the life of threads implement
    programs with private pages.  Whatever the order of page faults, loads,
    stores, context switches, forks and exits, a page holds what its own
    program stored there last: a store changes the bytes it names and nothing
    else, a load gives what the page holds, a new thread gets eight pages that
    no other thread of its program has, and a thread that ends takes its own
    stack away and no other page of any program.  This holds up to the first
    miss on a page that the program has no more, the stack of a thread that
    ended, or that is lost, being recorded in the executable at a negative
    offset. *)
Theorem programs_isolated fifo big handler unset evs s s' P : memory_run fifo big handler unset evs s s' →
  represents s P → (∃ P', program_run evs P P' ∧ represents s' P') ∨
  ∃ evs1 ev evs2 s1 P1, evs = evs1 ++ ev :: evs2 ∧ memory_run fifo big handler unset evs1 s s1 ∧
    program_run evs1 P P1 ∧ represents s1 P1 ∧ stray ev s1.
Proof.
  intros Hrun. revert P. induction Hrun as [s|ev evs s s1 s2 Hstep Hrun IH]; intros P HR.
  - left. exists P. split; [constructor|done].
  - destruct (stray_dec ev s) as [Hst|Hok].
    { right. exists [], ev, evs, s, P. split_and!; [done|constructor|constructor|done|done]. }
    destruct (step_represents _ _ _ _ _ _ _ _ Hstep Hok HR) as (P1 & HP1 & HR1).
    destruct (IH P1 HR1) as [(P2 & HP2 & HR2)|(evs1 & ev' & evs2 & s3 & P3 & -> & Hm & HP & HR3 & Hst)].
    + left. exists P2. split; [|done]. by econstructor.
    + right. exists (ev :: evs1), ev', evs2, s3, P3. split_and!; [done|by econstructor|by econstructor|done|done].
Qed.

Lemma programs_isolated_witness : ∃ s' P', memory_run true false (λ _, ret ()) (λ _, 0) [Miss 0; NewThread 1 64; EndThread 1] ex_spaces s' ∧
  program_run [Miss 0; NewThread 1 64; EndThread 1] ex_programs P' ∧ represents s' P'.
Proof.
  destruct ex_run as [s' Hs'].
  destruct (programs_isolated _ _ _ _ _ _ _ _ Hs' ex_represents) as [(P' & HP & HR)|(evs1 & ev & evs2 & s1 & P1 & He & Hm & _ & _ & Hst)].
  - exists s', P'. split; [exact Hs'|]. split; [exact HP|exact HR].
  - destruct Hst as (rand & VA & -> & HVA & Hno). destruct evs1 as [|? [|? [|? rest]]]; try discriminate He; [|by destruct rest].
    inversion Hm; subst.
    assert (at_ (registers (machine (vm ex_spaces))) BadVAddrReg = Some 130) as H130 by exact (example_registers 130).
    rewrite H130 in HVA. injection HVA as <-. destruct (Hno ex_touchable).
Defined.

(** C10: [AddrSpace::Exit] never faults.  It takes the eight
    stack pages of the thread out of use: they are not valid, no frame holds
    one, and every frame and swap page that held one is free again.  All other
    pages keep their contents: those of other programs, the code and data of
    this one, and the stacks of its other threads. *)
Theorem Exit_frees_stack id ps s : live_inv (vm s) → stacks_ok s → threadTable s (currentSpace (vm s)) !! id = Some ps →
  ∃ s', AddrSpace_Exit id s = Done ((), s') ∧ live_inv (vm s') ∧ stacks_ok s' ∧
    (∀ v e, v ∈ ps → page_of (vm s) (currentSpace (vm s)) v = Some e →
       (∃ e', page_of (vm s') (currentSpace (vm s)) v = Some e' ∧ valid (pte e') = false) ∧
       (∀ p, own (vm s') p ≠ Some (currentSpace (vm s), v)) ∧
       (dead e = false → location e = MAIN → used (pageTableBitMap (vm s')) (physicalPage (pte e)) = false) ∧
       (dead e = false → location e = SWAP → used (swapBitMap (vm s')) (Z.quot (byteOffset e) PageSize) = false)) ∧
    (∀ a v bs, ¬ (a = currentSpace (vm s) ∧ v ∈ ps) → live_content (vm s) a v bs → live_content (vm s') a v bs) ∧
    ∀ id' ps' v, id' ≠ id → threadTable s (currentSpace (vm s)) !! id' = Some ps' → v ∈ ps' → v ∉ ps.
Proof.
  intros Hi Hs Hps. destruct (Hs _ id ps Hps) as (Hl & Hin & Hdis).
  destruct (wp_no_fault _ _ _ (AddrSpace_Exit_spec id ps s Hi Hps Hl Hin)) as ([] & s' & Hrun & Hlf).
  exists s'. split; [done|]. split; [apply Hlf|]. split.
  { apply (stacks_same s); [apply Hlf| |exact Hs]. intros a. by apply (left_size ps s s'). }
  split; [|split; [apply Hlf|]].
  - intros v e Hv He. split.
    { exists (exited e). rewrite (lf_pages _ _ _ Hlf), decide_True, He by done. done. }
    split; [|split; intros Hd Hloc; by apply (lf_freed _ _ _ Hlf v e Hv He Hd)].
    intros p Ho. destruct (live_closing _ (lf_live _ _ _ Hlf)) as [Hf _].
    destruct (proj1 (cf_pages _ _ Hf p _ _) Ho) as (e' & He' & Hd & Hloc & _).
    rewrite (lf_pages _ _ _ Hlf), decide_True, He in He' by done. injection He' as <-.
    destruct (exited_gone e) as [Hg|[Hg|Hg]]; congruence.
  - intros id' ps' v Hne Hps' Hv Hv'. by apply (Hdis id' ps' Hne Hps' v Hv').
Qed.

Lemma Exit_frees_stack_witness : ∃ s', AddrSpace_Exit 0 ex_spaces = Done ((), s') ∧ live_inv (vm s').
Proof.
  destruct (Exit_frees_stack 0 (stack_numbers 2) ex_spaces (example_live 130) (rp_stacks _ _ ex_represents) eq_refl)
    as (s' & Hs' & Hi' & _).
  exists s'. split; [exact Hs'|exact Hi'].
Defined.

(** C38: a stack page that is in the swap file when its thread ends
    keeps its place there in the page table, while the swap page is free.  Once
    another program has got that swap page, and nobody touched the dead page
    meanwhile, a miss on it is served with the other program's bytes, and the swap
    page of the other program is marked free while the program still needs it:
    the memory is no longer consistent, and the next page that is swapped out
    destroys it. *)
Theorem dead_page_takes_swap fifo rand id ps s s1 s2 VA e b w e' bs : live_inv (vm s) → stacks_ok s →
  threadTable s (currentSpace (vm s)) !! id = Some ps → page VA ∈ ps →
  page_of (vm s) (currentSpace (vm s)) (page VA) = Some e → dead e = false → location e = SWAP →
  AddrSpace_Exit id s = Done ((), s1) →
  live_inv (vm s2) → currentSpace (vm s2) = currentSpace (vm s) → at_ (registers (machine (vm s2))) BadVAddrReg = Some VA →
  page_of (vm s2) (currentSpace (vm s)) (page VA) = page_of (vm s1) (currentSpace (vm s)) (page VA) →
  page_of (vm s2) b w = Some e' → dead e' = false → location e' = SWAP → byteOffset e' = byteOffset e →
  live_content (vm s2) b w bs → (∃ p, 0 <= p < NumPhysPages ∧ own (vm s2) p = None) →
  used (swapBitMap (vm s1)) (Z.quot (byteOffset e) PageSize) = false ∧
  ∃ v3, handleTLBMiss fifo rand (vm s2) = Done ((), v3) ∧
    (∃ j x, tlb_at v3 j = Some x ∧ valid x = true ∧ virtualPage x = page VA ∧ frame_of v3 (physicalPage x) = bs) ∧
    page_of v3 b w = Some e' ∧ used (swapBitMap v3) (Z.quot (byteOffset e') PageSize) = false ∧ ¬ live_inv v3.
Proof.
  intros Hi Hs Hps Hv He Hd Hl Hexit Hi2 Hc2 HVA Hsame He' Hd' Hl' Hoff Hbs Hfree.
  destruct (Hs _ id ps Hps) as (Hlen & Hin & _).
  pose proof (wp_done _ _ _ _ _ _ (AddrSpace_Exit_spec id ps s Hi Hps Hlen Hin) Hexit) as Hlf.
  split; [by apply (lf_freed _ _ _ Hlf (page VA) e Hv He Hd)|].
  rewrite (lf_pages _ _ _ Hlf), decide_True, He in Hsame by done. cbn in Hsame. rewrite <- Hc2 in Hsame.
  assert (dead (exited e) = true) as Hdead by (unfold dead; cbn; by rewrite Hl).
  destruct (wp_no_fault _ _ _ (miss_dead fifo rand (vm s2) VA (exited e) b w e' bs Hi2 HVA Hsame Hdead Hl He' Hd' Hl'
    (eq_sym Hoff) Hbs Hfree)) as ([] & v3 & Hv3).
  by exists v3.
Qed.

(** Program 0 touches the first page of its stack; three programs and a fourth
    fill the memory, so that this page is the first in the swap file; the thread
    of program 0 ends, and the next page that is swapped out is the first that
    program 1 touched. *)
Definition ex_regs (v : Z) : list Z := <[39%nat := v * 128]> (replicate 40 0).
Definition ex_touch (v : Z) : list event := [Compute (ex_regs v); Miss 0; Store (v * 128) 4 7].
Definition ex_all (a : nat) : list event := SwitchTo a (ex_regs 2) :: mjoin (ex_touch <$> [2; 3; 4; 5; 6; 7; 8; 9; 0; 1]).
Definition ex_before : list event :=
  SwitchTo 0 (ex_regs 2) :: ex_touch 2 ++ ex_all 1 ++ ex_all 2 ++ ex_all 3 ++
  SwitchTo 4 (ex_regs 2) :: ex_touch 2 ++ ex_touch 3 ++ [SwitchTo 0 (ex_regs 2)].
Definition ex_later : list event :=
  SwitchTo 4 (ex_regs 2) :: ex_touch 4 ++ [SwitchTo 2 (ex_regs 2); EndThread 0; SwitchTo 0 (ex_regs 2)].

Definition ex_page (p : Z) (v : bool) : PageTableEntry := mkPTE (mkEntry 2 p v false false true) SWAP 0.

Definition ex_swapped_at (s : Spaces) : Prop :=
  currentSpace (vm s) = 0%nat ∧ threadTable s 0%nat !! 0 = Some (stack_numbers 2) ∧ page_of (vm s) 0 2 = Some (ex_page 0 true).
Definition ex_reused_at (s : Spaces) : Prop :=
  currentSpace (vm s) = 0%nat ∧ at_ (registers (machine (vm s))) BadVAddrReg = Some 256 ∧
  page_of (vm s) 0 2 = Some (ex_page (-1) false) ∧ page_of (vm s) 1 2 = Some (ex_page 1 true) ∧
  length (slice (swapFile (vm s)) 0) = 128%nat ∧ own (vm s) 11 = None.

Lemma ex_history : match replay true false (λ _, ret ()) ex_before ex_spaces with
  | Done s => ex_swapped_at s ∧ match AddrSpace_Exit 0 s with
      | Done (_, s1) => page_of (vm s1) 0 2 = Some (ex_page (-1) false) ∧
          match replay true false (λ _, ret ()) ex_later s1 with Done s2 => ex_reused_at s2 | Fault _ => False end
      | Fault _ => False
      end
  | Fault _ => False
  end.
Proof. vm_compute. by repeat split. Qed.

Lemma dead_page_takes_swap_witness : ∃ s s1 s2 v3, memory_run true false (λ _, ret ()) (λ _, 0) ex_before ex_spaces s ∧
  AddrSpace_Exit 0 s = Done ((), s1) ∧ memory_run true false (λ _, ret ()) (λ _, 0) ex_later s1 s2 ∧
  handleTLBMiss true 0 (vm s2) = Done ((), v3) ∧ used (swapBitMap v3) 0 = false ∧ ¬ live_inv v3.
Proof.
  pose proof ex_history as Hh.
  destruct (replay true false (λ _, ret ()) ex_before ex_spaces) as [s|] eqn:Hr; [|destruct Hh].
  destruct Hh as [(Hc & Hth & Hp) Hh]. destruct (AddrSpace_Exit 0 s) as [[[] s1]|] eqn:He; [|destruct Hh].
  destruct Hh as [Hp1 Hh]. destruct (replay true false (λ _, ret ()) ex_later s1) as [s2|] eqn:Hr2; [|destruct Hh].
  destruct Hh as (Hc2 & HVA & Hp2 & Hq & Hlen & Hown).
  destruct (replay_run true false (λ _, ret ()) (λ _, 0) ex_before ex_spaces s ex_programs Hr ex_represents) as (Hm & P & HR).
  assert (∃ P1, represents s1 P1) as [P1 HR1].
  { destruct (step_represents true false (λ _, ret ()) (λ _, 0) (EndThread 0) s s1 P) as (P1 & _ & HR1); [|by intros (? & ? & ? & _)|done|by exists P1].
    apply step_end_thread; [rewrite Hc, Hth; by eexists|exact He]. }
  destruct (replay_run true false (λ _, ret ()) (λ _, 0) ex_later s1 s2 P1 Hr2 HR1) as (Hm2 & P2 & HR2).
  destruct (dead_page_takes_swap true 0 0 (stack_numbers 2) s s1 s2 256 (ex_page 0 true) 1 2 (ex_page 1 true)
    (slice (swapFile (vm s2)) 0) (rp_live _ _ HR) (rp_stacks _ _ HR)) as (_ & v3 & Hv3 & _ & _ & Hu & Hn).
  - by rewrite Hc.
  - by left.
  - by rewrite Hc.
  - reflexivity.
  - reflexivity.
  - exact He.
  - apply HR2.
  - congruence.
  - exact HVA.
  - rewrite Hc. change (page 256) with 2. by rewrite Hp1, Hp2.
  - exact Hq.
  - reflexivity.
  - reflexivity.
  - reflexivity.
  - split; [exact Hlen|]. exists (ex_page 1 true). split; [rewrite page_of_bury, Hq; reflexivity|reflexivity].
  - exists 11. split; [unfold NumPhysPages; lia|exact Hown].
  - exists s, s1, s2, v3. split; [exact Hm|]. split; [exact He|]. split; [exact Hm2|]. split; [exact Hv3|]. split; [exact Hu|exact Hn].
Defined.

(** The destructor of an address space gives back every
    frame and every swap page of the program and keeps the pages of all other
    programs, but it looks for a frame in the queue of evictions under the
    wrong index.  Unless an entry of the queue happens to be the frame of the
    page of its own index, the queue keeps all frames of the program, although
    they are free: the memory is not consistent any more. *)
Theorem delete_leaves_queue a s p v : live_inv s → Z.of_nat (length (FIFOList s)) <= numPages s a → no_match a s →
  own s p = Some (a, v) → ∃ s', delete_AddrSpace a s = Done ((), s') ∧
    (∀ q w, own s q = Some (a, w) → used (pageTableBitMap s') q = false) ∧
    (∀ w e, page_of s a w = Some e → dead e = false → location e = SWAP →
       used (swapBitMap s') (Z.quot (byteOffset e) PageSize) = false) ∧
    (∀ b w bs, b ≠ a → live_content s b w bs → live_content s' b w bs) ∧
    FIFOList s' = FIFOList s ∧ p ∈ FIFOList s' ∧ ¬ live_inv s'.
Proof.
  intros Hi Hlen Hno Ho. destruct (wp_no_fault _ _ _ (delete_AddrSpace_spec a s Hi Hlen)) as ([] & s' & Hs & [[l Hf] _ Hpg Hfr Hsw Hc [_ Hq]]).
  exists s'. destruct (live_closing s Hi) as [Hf0 _].
  assert (p ∈ FIFOList s') as Hin by (rewrite Hq by done; apply (cf_fifo _ _ Hf0); by eexists).
  split_and!; try done; [by apply Hq|].
  intros Hi'. destruct (live_closing s' Hi') as [Hf' _]. apply (cf_fifo _ _ Hf') in Hin.
  destruct (own_at _ _ _ Ho) as (i & Hat & _). apply at_range in Hat. rewrite (cf_length _ _ Hf0) in Hat.
  assert (0 <= p < NumPhysPages) as Hp by (unfold NumPhysPages in *; lia).
  pose proof (cf_used _ _ Hf' p Hp) as Hu. rewrite (Hfr p v Ho) in Hu. symmetry in Hu. by apply bool_decide_eq_false in Hu.
Qed.

(** A program of ten pages with its page 1 in frame 0. *)
Lemma delete_leaves_queue_witness : ∃ s', delete_AddrSpace 0 (after_miss (example_vm 130)) = Done ((), s') ∧
  0 ∈ FIFOList s' ∧ ¬ live_inv s'.
Proof.
  assert (∃ v1, handleTLBMiss true 0 (example_vm 130) = Done ((), v1)) as [v1 Hm] by exact example_miss.
  pose proof (live_miss true 0 (example_vm 130) 130 (example_live 130) (Z.le_refl 0) (example_registers 130) ex_touchable
    (λ j x Hj Hv, False_ind _ (example_no_hit 130 j x Hj Hv))) as Hw.
  destruct (wp_done _ _ _ _ _ _ Hw Hm) as (Hi1 & _ & _ & Hn1).
  assert (after_miss (example_vm 130) = v1) as Hv1 by (unfold after_miss; by rewrite Hm).
  assert (own (after_miss (example_vm 130)) 0 = Some (0%nat, 1) ∧ FIFOList (after_miss (example_vm 130)) = [0] ∧
    (physicalPage ∘ pte) <$> at_ (spaceTable (spaces (after_miss (example_vm 130)) 0)) 0 = Some (-1)) as (Ho & HF & Hpp)
    by (vm_compute; by split_and!).
  rewrite Hv1 in *.
  destruct (delete_leaves_queue 0 v1 0 1 Hi1) as (s' & Hs' & _ & _ & _ & _ & Hin & Hnot).
  - rewrite HF, Hn1, example_size. cbn. lia.
  - intros ii x e Hx He. rewrite HF in Hx. pose proof Hx as Hr. apply at_range in Hr. cbn in Hr. assert (ii = 0) as -> by lia.
    injection Hx as <-. unfold page_of in He. rewrite He in Hpp. injection Hpp as ->. done.
  - exact Ho.
  - exists s'. split; [exact Hs'|]. split; [exact Hin|exact Hnot].
Defined.
