(* ===== verification/Threads.v ===== *)
(** * Threads: threads/thread.cc and threads/scheduler.cc, from creation to deletion

    Synch has the queues; here a thread is an object with a stack, the saved
    registers of its user program and its address space.  [Scheduler::Run]
    saves and restores them, and deletes the thread that finished, but only in
    a thread that returns from its own earlier [SWITCH]: a thread that runs for
    the first time starts at [ThreadRoot] and deletes nobody.  A thread may overrun
    its stack, which [CheckOverflow] looks for when it is switched away. *)
From S2P Require Import Prelude BitMap Translate HostFile Paging Lifecycle Stacks.
From stdpp Require Import functions base list gmap.
From Stdlib Require Import ZArith Lia ZifyBool.

Local Open Scope Z_scope.

(** ** Data *)

Inductive ThreadStatus := JUST_CREATED | RUNNING | READY | BLOCKED.
#[export] Instance ThreadStatus_eq_dec : EqDecision ThreadStatus.
Proof. solve_decision. Defined.

(** As the [int] at the bottom of a stack. *)
Definition STACK_FENCEPOST : Z := s32 0xdeadbeef.

Section threads.
(** The functions a thread can be forked to run. *)
Context {Func : Type}.

(** [stack] is the word at the bottom of the stack, or NULL; [machineState] is
    the function and argument for [ThreadRoot]; [begun] says that the thread
    has run, so that its saved program counter is in [SWITCH]. *)
Record Thread := mkThread {
  threadID : Z;
  status : ThreadStatus;
  stack : option Z;
  machineState : option (Func * Z);
  begun : bool;
  space : option nat;
  userRegisters : list Z
}.

(** A [Thread *] is a number, [heap] the next one.  [sleepers] are the threads
    in the queues of semaphores, locks and conditions; [idle]: the processor is
    in the loop of [Sleep]. *)
Record Sys := mkSys {
  threads : gmap nat Thread;
  heap : nat;
  threadIDCount : Z;
  currentThread : nat;
  readyList : list nat;
  threadToBeDestroyed : option nat;
  sleepers : gset nat;
  idle : bool;
  mem : Spaces
}.

Definition with_thread (t : nat) (x : Thread) (s : Sys) : Sys :=
  mkSys (<[t := x]> (threads s)) (heap s) (threadIDCount s) (currentThread s) (readyList s) (threadToBeDestroyed s)
    (sleepers s) (idle s) (mem s).
Definition without_thread (t : nat) (s : Sys) : Sys :=
  mkSys (delete t (threads s)) (heap s) (threadIDCount s) (currentThread s) (readyList s) (threadToBeDestroyed s)
    (sleepers s) (idle s) (mem s).
Definition with_new (x : Thread) (s : Sys) : Sys :=
  mkSys (<[heap s := x]> (threads s)) (S (heap s)) (s32 (threadIDCount s + 1)) (currentThread s) (readyList s)
    (threadToBeDestroyed s) (sleepers s) (idle s) (mem s).
Definition with_current (t : nat) (s : Sys) : Sys :=
  mkSys (threads s) (heap s) (threadIDCount s) t (readyList s) (threadToBeDestroyed s) (sleepers s) (idle s) (mem s).
Definition with_ready (l : list nat) (s : Sys) : Sys :=
  mkSys (threads s) (heap s) (threadIDCount s) (currentThread s) l (threadToBeDestroyed s) (sleepers s) (idle s) (mem s).
Definition with_destroy (t : option nat) (s : Sys) : Sys :=
  mkSys (threads s) (heap s) (threadIDCount s) (currentThread s) (readyList s) t (sleepers s) (idle s) (mem s).
Definition with_sleepers (x : gset nat) (s : Sys) : Sys :=
  mkSys (threads s) (heap s) (threadIDCount s) (currentThread s) (readyList s) (threadToBeDestroyed s) x (idle s) (mem s).
Definition with_idle (b : bool) (s : Sys) : Sys :=
  mkSys (threads s) (heap s) (threadIDCount s) (currentThread s) (readyList s) (threadToBeDestroyed s) (sleepers s) b (mem s).
Definition with_mem (x : Spaces) (s : Sys) : Sys :=
  mkSys (threads s) (heap s) (threadIDCount s) (currentThread s) (readyList s) (threadToBeDestroyed s) (sleepers s) (idle s) x.

Definition set_status (st : ThreadStatus) (x : Thread) : Thread :=
  mkThread (threadID x) st (stack x) (machineState x) (begun x) (space x) (userRegisters x).
Definition set_stack (w : option Z) (m : option (Func * Z)) (x : Thread) : Thread :=
  mkThread (threadID x) (status x) w m (begun x) (space x) (userRegisters x).
Definition set_begun (x : Thread) : Thread :=
  mkThread (threadID x) (status x) (stack x) (machineState x) true (space x) (userRegisters x).
Definition set_space (a : option nat) (x : Thread) : Thread :=
  mkThread (threadID x) (status x) (stack x) (machineState x) (begun x) a (userRegisters x).
Definition set_registers (rs : list Z) (x : Thread) : Thread :=
  mkThread (threadID x) (status x) (stack x) (machineState x) (begun x) (space x) rs.

(** A thread that was deleted is not there. *)
Definition get_thread (t : nat) : M Sys Thread :=
  let! s := get in match threads s !! t with Some x => ret x | None => fail NullDeref end.
Definition set_thread (t : nat) (f : Thread → Thread) : M Sys unit :=
  let! x := get_thread t in modify (with_thread t (f x)).

Definition on_mem {A} (op : M Spaces A) : M Sys A := λ s,
  match op (mem s) with Done (a, m) => Done (a, with_mem m s) | Fault f => Fault f end.

(** ** thread.cc *)

(** [Thread::Thread]; the registers are what the memory held. *)
Definition new_Thread (unset : list Z) : M Sys nat :=
  let! s := get in
  put (with_new (mkThread (threadIDCount s) JUST_CREATED None None false None unset) s) ;;;
  ret (heap s).

(** [Thread::~Thread] *)
Definition delete_Thread (t : nat) : M Sys unit :=
  let! s := get in
  ASSERT (negb (bool_decide (t = currentThread s))) ;;;
  let! _x := get_thread t in
  modify (without_thread t).

Definition StackAllocate (t : nat) (func : Func) (arg : Z) : M Sys unit :=
  set_thread t (set_stack (Some STACK_FENCEPOST) (Some (func, arg))).

Definition CheckOverflow (t : nat) : M Sys unit :=
  let! x := get_thread t in
  match stack x with Some w => ASSERT (w =? STACK_FENCEPOST) | None => ret () end.

Fixpoint save_registers (i : Z) (n : nat) : M VM (list Z) :=
  match n with
  | O => ret []
  | S n' => let! x := ReadRegister i in let! l := save_registers (i + 1) n' in ret (x :: l)
  end.
Fixpoint restore_registers (i : Z) (rs : list Z) : M VM unit :=
  match rs with [] => ret () | x :: rs' => WriteRegister i x ;;; restore_registers (i + 1) rs' end.

Definition SaveUserState (t : nat) : M Sys unit :=
  let! rs := on_mem (on_vm (save_registers 0 (Z.to_nat NumTotalRegs))) in
  set_thread t (set_registers rs).
Definition RestoreUserState (t : nat) : M Sys unit :=
  let! x := get_thread t in
  on_mem (on_vm (restore_registers 0 (take (Z.to_nat NumTotalRegs) (userRegisters x)))).

(** ** scheduler.cc *)

Definition ReadyToRun (t : nat) : M Sys unit :=
  set_thread t (set_status READY) ;;;
  modify (λ s, with_ready (readyList s ++ [t]) s).

Definition FindNextToRun : M Sys (option nat) :=
  let! s := get in
  match readyList s with
  | [] => ret None
  | t :: q => put (with_ready q s) ;;; ret (Some t)
  end.

(** [currentThread = nextThread]: the page tables in use are those of its space. *)
Definition make_current (t : nat) : M Sys unit :=
  modify (with_current t) ;;;
  let! x := get_thread t in
  match space x with Some a => on_mem (on_vm (modify (with_currentSpace a))) | None => ret () end.

(** After [SWITCH] in a thread that comes back from it. *)
Definition after_SWITCH (t : nat) : M Sys unit :=
  let! s := get in
  match threadToBeDestroyed s with
  | Some d => delete_Thread d ;;; modify (with_destroy None)
  | None => ret ()
  end ;;;
  let! x := get_thread t in
  match space x with Some _ => RestoreUserState t | None => ret () end.

Definition Run (nextThread : nat) : M Sys unit :=
  let! s := get in
  let oldThread := currentThread s in
  let! o := get_thread oldThread in
  match space o with
  | Some _ => SaveUserState oldThread ;;; on_mem (on_vm SaveState)
  | None => ret ()
  end ;;;
  CheckOverflow oldThread ;;;
  make_current nextThread ;;;
  set_thread nextThread (set_status RUNNING) ;;;
  let! n := get_thread nextThread in
  if begun n then after_SWITCH nextThread else set_thread nextThread set_begun.

(** ** The rest of thread.cc *)

Definition Thread_Fork (t : nat) (func : Func) (arg : Z) : M Sys unit :=
  StackAllocate t func arg ;;;
  ReadyToRun t.

(** The loop of [Thread::Sleep], up to the switch or to [Idle]. *)
Definition dispatch : M Sys unit :=
  let! next := FindNextToRun in
  match next with
  | None => modify (with_idle true)
  | Some t => modify (with_idle false) ;;; Run t
  end.

Definition Sleep : M Sys unit :=
  let! s := get in
  set_thread (currentThread s) (set_status BLOCKED) ;;;
  dispatch.

Definition Finish : M Sys unit :=
  modify (λ s, with_destroy (Some (currentThread s)) s) ;;;
  Sleep.

Definition Yield : M Sys unit :=
  let! s := get in
  let! next := FindNextToRun in
  match next with
  | None => ret ()
  | Some t => ReadyToRun (currentThread s) ;;; Run t
  end.

(** ** What threads do *)

(** A thread forks another, yields, finishes, sleeps in a queue, wakes one that
    sleeps, takes an address space, runs its program, or calls so deeply that
    [w] lands in the word at the bottom of its stack; the idle processor looks for
    a ready thread. *)
Inductive act :=
| ActFork (func : Func) (arg : Z) (a : option nat) (unset : list Z)
| ActYield
| ActFinish
| ActSleep
| ActWake (t : nat)
| ActAdopt (a : nat)
| ActUser (m : Spaces)
| ActStack (w : Z)
| ActDispatch.

(** What the stack check looks at, if the stack is one that was allocated. *)
Definition overwrite (w : Z) (x : Thread) : Thread :=
  set_stack (match stack x with Some _ => Some w | None => None end) (machineState x) x.

Definition run_act (x : act) : M Sys unit :=
  match x with
  | ActFork func arg a unset =>
      let! t := new_Thread unset in
      set_thread t (set_space a) ;;;
      Thread_Fork t func arg
  | ActYield => Yield
  | ActFinish => Finish
  | ActSleep => modify (λ s, with_sleepers ({[currentThread s]} ∪ sleepers s) s) ;;; Sleep
  | ActWake t => modify (λ s, with_sleepers (sleepers s ∖ {[t]}) s) ;;; ReadyToRun t
  | ActAdopt a =>
      let! s := get in
      set_thread (currentThread s) (set_space (Some a)) ;;;
      on_mem (on_vm (modify (with_currentSpace a)))
  | ActUser m => modify (with_mem m)
  | ActStack w => let! s := get in set_thread (currentThread s) (overwrite w)
  | ActDispatch => dispatch
  end.

(** When each can happen: the idle processor runs no thread, a thread takes a
    space once, and its program leaves the memory consistent. *)
Definition can (x : act) (s : Sys) : Prop :=
  match x with
  | ActWake t => t ∈ sleepers s
  | ActDispatch => idle s = true
  | ActFork _ _ _ unset => idle s = false ∧ length unset = Z.to_nat NumTotalRegs
  | ActYield | ActFinish | ActSleep | ActStack _ => idle s = false
  | ActAdopt _ => idle s = false ∧ ∀ x, threads s !! currentThread s = Some x → space x = None
  | ActUser m => idle s = false ∧ live_inv (vm m) ∧ regs_full (vm m) ∧ currentSpace (vm m) = currentSpace (vm (mem s)) ∧
      (∀ x, threads s !! currentThread s = Some x → space x = None → m = mem s)
  end.

(** ** Invariant *)

(** At any time, also inside [Sleep]. *)
Record switching_ok (s : Sys) : Prop := {
  so_ready : NoDup (readyList s) ∧ ∀ t, t ∈ readyList s → ∃ x, threads s !! t = Some x ∧ status x = READY;
  so_current : ∃ x, threads s !! currentThread s = Some x ∧ begun x = true ∧
    (∀ a, space x = Some a → currentSpace (vm (mem s)) = a) ∧
    (space x = None → ∀ j e, tlb_at (vm (mem s)) j = Some e → valid e = false);
  so_sleep : ∀ t, t ∈ sleepers s → (∃ x, threads s !! t = Some x ∧ status x = BLOCKED) ∧ threadToBeDestroyed s ≠ Some t;
  so_destroy : ∀ t, threadToBeDestroyed s = Some t → ∃ x, threads s !! t = Some x ∧ status x = BLOCKED;
  so_heap : ∀ t x, threads s !! t = Some x → (t < heap s)%nat ∧ length (userRegisters x) = Z.to_nat NumTotalRegs ∧
    ∀ w, t ≠ currentThread s → stack x = Some w → w = STACK_FENCEPOST;
  so_mem : live_inv (vm (mem s)) ∧ regs_full (vm (mem s))
}.

(** Between the calls: the current thread runs, unless the processor idles. *)
Definition threads_ok (s : Sys) : Prop := switching_ok s ∧
  (idle s = false → ∃ x, threads s !! currentThread s = Some x ∧ status x = RUNNING).

(** The stack check of the current thread goes through. *)
Definition intact (s : Sys) : Prop := ∀ w, (threads s !! currentThread s ≫= stack) = Some w → w = STACK_FENCEPOST.
#[export] Instance intact_dec s : Decision (intact s).
Proof.
  unfold intact. destruct (threads s !! currentThread s ≫= stack) as [w|]; [|by left].
  destruct (decide (w = STACK_FENCEPOST)); [left; by intros ? [= <-]|right; naive_solver].
Defined.

Lemma intact_same s s' : currentThread s' = currentThread s →
  (threads s' !! currentThread s ≫= stack) = (threads s !! currentThread s ≫= stack) → intact s → intact s'.
Proof. unfold intact. intros -> ->. done. Qed.

(** The acts that switch to another thread. *)
Definition switches (a : act) (s : Sys) : Prop :=
  match a with ActYield | ActFinish | ActSleep | ActDispatch => readyList s ≠ [] | _ => False end.
#[export] Instance switches_dec a s : Decision (switches a s).
Proof. destruct a; cbn; apply _. Defined.

(** Every ready thread is in the list. *)
Definition queued (s : Sys) : Prop := ∀ t x, threads s !! t = Some x → status x = READY → t ∈ readyList s.

(** ** The registers *)

Lemma save_registers_run v : regs_full v → save_registers 0 (Z.to_nat NumTotalRegs) v = Done (registers (machine v), v).
Proof.
  intros Hv. enough (∀ n i, 0 <= i → i + Z.of_nat n = NumTotalRegs →
    save_registers i n v = Done (drop (Z.to_nat i) (registers (machine v)), v)) as H by (by rewrite H).
  unfold regs_full, NumTotalRegs in *. induction n as [|n IH]; intros i H0 Hn; cbn [save_registers].
  - rewrite drop_ge by lia. done.
  - destruct (lookup_lt_is_Some_2 (registers (machine v)) (Z.to_nat i)) as [x Hx]; [lia|].
    assert (ReadRegister i v = Done (x, v)) as Hr.
    { unfold ReadRegister, ASSERT, bind, get, lift, NumTotalRegs. rewrite (proj2 (andb_true_iff _ _)) by lia. cbn.
      by rewrite (proj2 (vget_Some _ i x) (conj H0 Hx)). }
    rewrite (bind_Done _ _ _ _ _ Hr), (bind_Done _ _ _ _ _ (IH (i + 1) ltac:(lia) ltac:(lia))).
    rewrite (drop_S _ x (Z.to_nat i)) by done. unfold ret. do 3 f_equal. f_equal. lia.
Qed.

Lemma restore_registers_run v rs : regs_full v → length rs = Z.to_nat NumTotalRegs →
  restore_registers 0 rs v = Done ((), with_regs rs v) ∧ regs_full (with_regs rs v).
Proof.
  intros Hv Hl. split; [|exact Hl].
  enough (∀ rs i v, regs_full v → 0 <= i → i + Z.of_nat (length rs) = NumTotalRegs →
    restore_registers i rs v = Done ((), with_regs (take (Z.to_nat i) (registers (machine v)) ++ rs) v)) as H
    by (rewrite H; [done|done|lia|unfold NumTotalRegs in *; lia]).
  clear v rs Hv Hl. induction rs as [|x rs IH]; intros i v Hv H0 Hn; cbn [restore_registers length] in *.
  - rewrite app_nil_r, take_ge by (unfold regs_full, NumTotalRegs in *; lia). by destruct v as [[]].
  - destruct (WriteRegister_run i x v Hv) as [Hw Hf]; [unfold NumTotalRegs in *; lia|].
    rewrite (bind_Done _ _ _ _ _ Hw), (IH (i + 1)) by (done || lia).
    assert (take (Z.to_nat (i + 1)) (<[Z.to_nat i := x]> (registers (machine v))) ++ rs = take (Z.to_nat i) (registers (machine v)) ++ x :: rs) as <-.
    { replace (Z.to_nat (i + 1)) with (S (Z.to_nat i)) by lia. unfold regs_full, NumTotalRegs in *.
      rewrite (take_S_r _ _ x) by (apply list_lookup_insert_eq; lia). rewrite take_insert_ge by lia. by rewrite <- app_assoc. }
    done.
Qed.

(** ** The switch *)

Lemma wp_in_mem {A} E (op : M Spaces A) Q s : wp E op (λ a m, Q a (with_mem m s)) (mem s) → wp E (on_mem op) Q s.
Proof. unfold wp, on_mem. by destruct (op (mem s)) as [[a m]|f]. Qed.

Lemma wp_get_thread E t x Q s : threads s !! t = Some x → Q x s → wp E (get_thread t) Q s.
Proof. intros Hx HQ. apply wp_bind, wp_get. rewrite Hx. by apply wp_ret. Qed.

Lemma wp_set_thread E t f x Q s : threads s !! t = Some x → Q () (with_thread t (f x) s) → wp E (set_thread t f) Q s.
Proof. intros Hx HQ. apply wp_bind. eapply wp_get_thread; [done|]. by apply wp_modify. Qed.

Lemma live_any_space v a : live_inv v → (∀ j e, tlb_at v j = Some e → valid e = false) → live_inv (with_currentSpace a v).
Proof.
  intros Hi Hno. change (vm_inv (-1) (bury v)) in Hi. constructor; try apply Hi.
  intros j e Hj Hv. by rewrite (Hno j e Hj) in Hv.
Qed.

Definition tlb_empty (v : VM) : Prop := ∀ j e, tlb_at v j = Some e → valid e = false.

(** The old thread is saved. *)
Lemma save_spec s old o : switching_ok s → currentThread s = old → threads s !! old = Some o →
  wp no_fault (match space o with Some _ => SaveUserState old ;;; on_mem (on_vm SaveState) | None => ret () end)
    (λ _ s1, ∃ m, s1 = with_mem m (with_thread old (match space o with Some _ => set_registers (registers (machine (vm (mem s)))) o | None => o end) s) ∧
       live_inv (vm m) ∧ tlb_empty (vm m) ∧ registers (machine (vm m)) = registers (machine (vm (mem s))) ∧ threadTable m = threadTable (mem s) ∧
       keeps_live (vm (mem s)) (vm m)) s.
Proof.
  intros Hs <- Ho. destruct (so_mem _ Hs) as [Hi Hr]. destruct (space o) as [a|] eqn:Ha.
  - apply wp_bind. unfold SaveUserState. apply wp_bind, wp_in_mem, wp_on_vm. unfold wp at 1. rewrite save_registers_run by done.
    eapply wp_set_thread; [exact Ho|]. apply wp_in_mem, wp_on_vm. destruct (live_closing _ Hi) as [Hf Hsound].
    eapply wp_mono; [by apply SaveState_flushed|]. cbn. intros [] v [Hfl Hno]. eexists. split; [reflexivity|]. cbn.
    destruct (fl_same _ _ Hfl) as (_ & _ & _ & HF & _). split_and!; [|done|apply (fl_machine _ _ Hfl)|done|].
    + apply closing_live; [done|]. rewrite HF. by eapply flushed_facts.
    + intros b w bs Hc. by eapply flushed_content.
  - apply wp_ret. exists (mem s). assert (with_thread (currentThread s) o s = s) as ->.
    { unfold with_thread. rewrite insert_id by done. by destruct s. }
    destruct (so_current _ Hs) as (x & Hx & _ & _ & Hno). assert (x = o) as -> by congruence.
    split_and!; [by destruct s|done|exact (Hno Ha)|done|done|by intros b w bs].
Qed.

(** What a switch to [next] leaves. *)
Record switched (s s' : Sys) (next : nat) : Prop := {
  sd_fixed : currentThread s' = next ∧ idle s' = idle s ∧ readyList s' = readyList s ∧ sleepers s' = sleepers s ∧ heap s' = heap s;
  sd_threads : ∀ t x', threads s' !! t = Some x' → ∃ x, threads s !! t = Some x ∧ space x' = space x ∧ stack x' = stack x ∧
    machineState x' = machineState x ∧ threadID x' = threadID x ∧
    begun x' = begun x || bool_decide (t = next) ∧ status x' = (if decide (t = next) then RUNNING else status x) ∧
    userRegisters x' = if decide (t = currentThread s ∧ is_Some (space x)) then registers (machine (vm (mem s))) else userRegisters x;
  sd_gone : ∀ t x, threads s !! t = Some x → is_Some (threads s' !! t) ∨
    (threadToBeDestroyed s = Some t ∧ ∃ n, threads s !! next = Some n ∧ begun n = true);
  sd_destroy : ∀ n, threads s !! next = Some n → threadToBeDestroyed s' = if begun n then None else threadToBeDestroyed s;
  sd_destroyed : ∀ t n, threads s !! next = Some n → begun n = true → threadToBeDestroyed s = Some t → threads s' !! t = None;
  sd_mem : live_inv (vm (mem s')) ∧ regs_full (vm (mem s')) ∧ tlb_empty (vm (mem s')) ∧ threadTable (mem s') = threadTable (mem s) ∧
    keeps_live (vm (mem s)) (vm (mem s'));
  sd_space : ∀ x a, threads s' !! next = Some x → space x = Some a → currentSpace (vm (mem s')) = a;
  sd_registers : ∀ n x, threads s !! next = Some n → begun n = true → threads s' !! next = Some x → is_Some (space x) →
    registers (machine (vm (mem s'))) = userRegisters x;
  sd_kernel : ∀ n x, threads s !! next = Some n → threads s' !! next = Some x → begun n = false ∨ space x = None →
    registers (machine (vm (mem s'))) = registers (machine (vm (mem s)))
}.

(** The old thread as it is saved, and the new one as it is found. *)
Definition saved (s : Sys) (o : Thread) : Thread :=
  match space o with Some _ => set_registers (registers (machine (vm (mem s)))) o | None => o end.

Lemma saved_fields s o : stack (saved s o) = stack o ∧ space (saved s o) = space o ∧ begun (saved s o) = begun o ∧
  status (saved s o) = status o ∧ machineState (saved s o) = machineState o ∧ threadID (saved s o) = threadID o ∧
  userRegisters (saved s o) = if decide (is_Some (space o)) then registers (machine (vm (mem s))) else userRegisters o.
Proof.
  unfold saved. destruct (space o) eqn:Ha; split_and!; done.
Qed.

Definition found (s : Sys) (o n : Thread) (next : nat) : Thread := if decide (next = currentThread s) then saved s o else n.

Section switch.
Context (s : Sys) (next : nat) (o n : Thread) (Hs : switching_ok s).
Context (Ho : threads s !! currentThread s = Some o) (Hn : threads s !! next = Some n) (Hst : status n = READY).

Lemma found_fields : threads (with_thread (currentThread s) (saved s o) s) !! next = Some (found s o n next) ∧
  stack (found s o n next) = stack n ∧ space (found s o n next) = space n ∧ begun (found s o n next) = begun n ∧
  machineState (found s o n next) = machineState n ∧ threadID (found s o n next) = threadID n ∧
  userRegisters (found s o n next) = if decide (next = currentThread s ∧ is_Some (space n))
    then registers (machine (vm (mem s))) else userRegisters n.
Proof using Ho Hn.
  unfold found. cbn. destruct (decide (next = currentThread s)) as [He|Hne].
  - assert (o = n) as -> by congruence. rewrite He, lookup_insert_eq.
    destruct (saved_fields s n) as (-> & -> & -> & _ & -> & -> & ->). split_and!; try done.
    case_decide as H; case_decide as H'; tauto.
  - rewrite lookup_insert_ne by done. split_and!; try done. by rewrite decide_False by tauto.
Qed.

(** The threads after a switch: [next] runs as [x2], and [d], if any, is deleted. *)
Lemma switched_intro s' x2 d : currentThread s' = next → idle s' = idle s → readyList s' = readyList s → sleepers s' = sleepers s →
  heap s' = heap s →
  threads s' = (match d with Some t => delete t | None => id end) (<[next := x2]> (<[currentThread s := saved s o]> (threads s))) →
  x2 = (if begun n then id else set_begun) (set_status RUNNING (found s o n next)) →
  (d = if begun n then threadToBeDestroyed s else None) →
  threadToBeDestroyed s' = (if begun n then None else threadToBeDestroyed s) →
  live_inv (vm (mem s')) → regs_full (vm (mem s')) → tlb_empty (vm (mem s')) → threadTable (mem s') = threadTable (mem s) →
  keeps_live (vm (mem s)) (vm (mem s')) →
  (∀ a, space n = Some a → currentSpace (vm (mem s')) = a) →
  registers (machine (vm (mem s'))) = (if begun n && bool_decide (is_Some (space n)) then userRegisters (found s o n next)
    else registers (machine (vm (mem s)))) →
  switched s s' next ∧ is_Some (threads s' !! next).
Proof using All.
  intros H1 H2 H3 H4 H5 Hth Hx2 Hd H6 H7 H8 H9 H10 H11 H12 H13.
  destruct found_fields as (_ & F1 & F2 & F3 & F4 & F5 & F6).
  destruct (saved_fields s o) as (S1 & S2 & S3 & S4 & S5 & S6 & S7).
  assert (space x2 = space n ∧ stack x2 = stack n ∧ machineState x2 = machineState n ∧ threadID x2 = threadID n ∧ begun x2 = true ∧
    status x2 = RUNNING ∧ userRegisters x2 = userRegisters (found s o n next)) as (G1 & G2 & G3 & G4 & G5 & G6 & G7).
  { rewrite Hx2. destruct (begun n) eqn:Hb; cbn; rewrite ?F1, ?F2, ?F3, ?F4, ?F5; done. }
  set (T := <[next := x2]> (<[currentThread s := saved s o]> (threads s))) in *.
  assert (∀ t, d = Some t → t ≠ next) as Hdn.
  { intros t -> ->. destruct (begun n); [|done]. destruct (so_destroy _ Hs next (eq_sym Hd)) as (x & Hx & Hb). congruence. }
  assert (∀ t, threads s' !! t = if decide (d = Some t) then None else T !! t) as Hlk.
  { intros t. rewrite Hth. destruct d as [d'|]; cbn; [|done]. destruct (decide (d' = t)) as [->|Hne].
    - rewrite lookup_delete_eq. by rewrite decide_True.
    - rewrite lookup_delete_ne by done. rewrite decide_False by congruence. done. }
  assert (threads s' !! next = Some x2) as Hnx.
  { rewrite Hlk, decide_False by (intros Hd'; by apply (Hdn next)). apply lookup_insert_eq. }
  split; [|by eexists]. constructor.
  - done.
  - intros t x'. rewrite Hlk. destruct (decide (d = Some t)); [done|]. unfold T. destruct (decide (t = next)) as [->|Htn].
    + rewrite lookup_insert_eq. intros [= <-]. exists n. rewrite F6 in G7. split_and!; try done.
      by rewrite G5, bool_decide_eq_true_2, orb_true_r.
    + rewrite lookup_insert_ne by done. destruct (decide (t = currentThread s)) as [->|Htc].
      * rewrite lookup_insert_eq. intros [= <-]. exists o. rewrite S3, bool_decide_eq_false_2, orb_false_r by done.
        split_and!; try done. rewrite S7. destruct (decide (is_Some (space o))); [by rewrite decide_True|by rewrite decide_False by tauto].
      * rewrite lookup_insert_ne by done. intros Hx'. exists x'. rewrite bool_decide_eq_false_2, orb_false_r by done.
        split_and!; try done. by rewrite decide_False by tauto.
  - intros t x Hx. rewrite Hlk. destruct (decide (d = Some t)) as [Hdt|Hdt].
    + right. destruct (begun n) eqn:Hb; [|congruence]. split; [congruence|]. by exists n.
    + left. unfold T. destruct (decide (t = next)) as [->|]; [rewrite lookup_insert_eq; by eexists|rewrite lookup_insert_ne by done].
      destruct (decide (t = currentThread s)) as [->|]; [rewrite lookup_insert_eq; by eexists|rewrite lookup_insert_ne by done; by eexists].
  - intros n' Hn'. assert (n' = n) as -> by congruence. done.
  - intros t n' Hn' Hb' Ht. assert (n' = n) as -> by congruence. rewrite Hlk, decide_True; [done|]. by rewrite Hd, Hb'.
  - done.
  - intros x a Hx Ha. assert (x = x2) as -> by congruence. apply H12. congruence.
  - intros n' x Hn' Hb' Hx Ha. assert (n' = n) as -> by congruence. assert (x = x2) as -> by congruence.
    rewrite H13, Hb', bool_decide_eq_true_2, G7 by congruence. done.
  - intros n' x Hn' Hx Hor. assert (n' = n) as -> by congruence. assert (x = x2) as -> by congruence.
    rewrite H13. destruct Hor as [->|Ha]; [done|]. rewrite bool_decide_eq_false_2, andb_false_r; [done|].
    rewrite <- G1, Ha. by intros [].
Qed.
End switch.

(** The thread that finished is deleted. *)
Definition reaped (s : Sys) : Sys :=
  match threadToBeDestroyed s with Some d => with_destroy None (without_thread d s) | None => s end.

Lemma reaped_fields s : mem (reaped s) = mem s ∧ currentThread (reaped s) = currentThread s ∧ idle (reaped s) = idle s ∧
  readyList (reaped s) = readyList s ∧ sleepers (reaped s) = sleepers s ∧ heap (reaped s) = heap s ∧ threadToBeDestroyed (reaped s) = None ∧
  threads (reaped s) = (match threadToBeDestroyed s with Some t => delete t | None => id end) (threads s).
Proof. unfold reaped. destruct (threadToBeDestroyed s) eqn:Hd; by split_and!. Qed.

Lemma after_SWITCH_spec s t x : threads s !! t = Some x → currentThread s = t → regs_full (vm (mem s)) →
  length (userRegisters x) = Z.to_nat NumTotalRegs →
  (∀ d, threadToBeDestroyed s = Some d → d ≠ t ∧ is_Some (threads s !! d)) →
  wp no_fault (after_SWITCH t) (λ _ s', s' = match space x with
    | Some _ => with_mem (mkSpaces (with_regs (userRegisters x) (vm (mem s))) (threadTable (mem s))) (reaped s)
    | None => reaped s end) s.
Proof.
  intros Hx Hc Hr Hl Hd. unfold after_SWITCH. apply wp_bind, wp_get, wp_bind.
  assert (∀ Q : unit → Sys → Prop, Q () (reaped s) → wp no_fault (match threadToBeDestroyed s with
    Some d => delete_Thread d ;;; modify (with_destroy None) | None => ret () end) Q s) as Hdel.
  { intros Q. unfold reaped. destruct (threadToBeDestroyed s) as [d|]; [|intros HQ; by apply wp_ret]. intros HQ.
    destruct (Hd d eq_refl) as [Hne [y Hy]]. apply wp_bind, wp_bind, wp_get, wp_bind, wp_ASSERT; [intros _|].
    - apply wp_bind. eapply wp_get_thread; [exact Hy|]. apply wp_modify, wp_modify. exact HQ.
    - rewrite Hc, bool_decide_eq_false_2; [done|exact Hne]. }
  apply Hdel. assert (threads (reaped s) !! t = Some x) as Hx'.
  { unfold reaped. destruct (threadToBeDestroyed s) as [d|]; cbn; [|done]. rewrite lookup_delete_ne; [done|by apply Hd]. }
  apply wp_bind. eapply wp_get_thread; [exact Hx'|]. destruct (space x); [|by apply wp_ret].
  unfold RestoreUserState. apply wp_bind. eapply wp_get_thread; [exact Hx'|]. apply wp_in_mem, wp_on_vm.
  rewrite (proj1 (reaped_fields s)), take_ge by lia. unfold wp at 1. by rewrite (proj1 (restore_registers_run _ _ Hr Hl)).
Qed.

Lemma Run_spec s next n : switching_ok s → intact s → threads s !! next = Some n → status n = READY →
  wp no_fault (Run next) (λ _ s', switched s s' next ∧ is_Some (threads s' !! next)) s.
Proof.
  intros Hs Hint Hn Hst. destruct (so_current _ Hs) as (o & Ho & Hbo & _).
  destruct (found_fields s next o n Ho Hn) as (F0 & F1 & F2 & F3 & F4 & F5 & F6).
  unfold Run. apply wp_bind, wp_get. cbn zeta. apply wp_bind. eapply wp_get_thread; [exact Ho|].
  apply wp_bind. eapply wp_mono; [by apply save_spec|]. cbn. intros _ s1 (m & -> & Hi & Hno & Hreg & Hth & Hkl).
  fold (saved s o). destruct (saved_fields s o) as (S1 & S2 & S3 & _).
  assert (regs_full (vm m)) as Hrf by (unfold regs_full; rewrite Hreg; apply (so_mem _ Hs)).
  apply wp_bind. unfold CheckOverflow. apply wp_bind. eapply wp_get_thread; [cbn; apply lookup_insert_eq|].
  assert (wp no_fault (match stack (saved s o) with Some w => ASSERT (w =? STACK_FENCEPOST) | None => ret () end)
    (λ _ s1, s1 = with_mem m (with_thread (currentThread s) (saved s o) s)) (with_mem m (with_thread (currentThread s) (saved s o) s))) as Hchk.
  { rewrite S1. unfold intact in Hint. rewrite Ho in Hint. cbn in Hint.
    destruct (stack o) as [w|] eqn:Hw; [|by apply wp_ret]. apply wp_ASSERT; [done|]. rewrite (Hint w eq_refl). by rewrite Z.eqb_refl. }
  eapply wp_mono; [exact Hchk|]. cbn. intros _ ? ->.
  apply wp_bind. unfold make_current. apply wp_bind, wp_modify, wp_bind. eapply wp_get_thread; [exact F0|]. rewrite F2.
  set (m' := match space n with Some a => mkSpaces (with_currentSpace a (vm m)) (threadTable m) | None => m end).
  assert (∀ Q : unit → Sys → Prop, Q () (with_mem m' (with_current next (with_thread (currentThread s) (saved s o) s))) →
    wp no_fault (match space n with Some a => on_mem (on_vm (modify (with_currentSpace a))) | None => ret () end) Q
      (with_current next (with_mem m (with_thread (currentThread s) (saved s o) s)))) as Hcur.
  { intros Q HQ. unfold m' in HQ. destruct (space n); [apply wp_in_mem, wp_on_vm, wp_modify; exact HQ|apply wp_ret; exact HQ]. }
  apply Hcur. assert (live_inv (vm m') ∧ tlb_empty (vm m') ∧ regs_full (vm m') ∧ registers (machine (vm m')) = registers (machine (vm (mem s))) ∧
    threadTable m' = threadTable (mem s) ∧ keeps_live (vm (mem s)) (vm m') ∧ ∀ a, space n = Some a → currentSpace (vm m') = a)
    as (Hi' & Hno' & Hrf' & Hreg' & Hth' & Hkl' & Hcs').
  { unfold m'. destruct (space n); [|by split_and!]. split_and!; try done; [by apply live_any_space|by intros a' [= <-]]. }
  clearbody m'. clear Hcur Hchk. apply wp_bind. eapply wp_set_thread; [exact F0|]. apply wp_bind.
  eapply wp_get_thread; [cbn; apply lookup_insert_eq|]. change (begun (set_status RUNNING (found s o n next))) with (begun (found s o n next)).
  rewrite F3. destruct (begun n) eqn:Hb.
  - set (s3 := with_thread next (set_status RUNNING (found s o n next)) (with_mem m' (with_current next (with_thread (currentThread s) (saved s o) s)))).
    assert (∀ d, threadToBeDestroyed s3 = Some d → d ≠ next ∧ is_Some (threads s3 !! d)) as Hd.
    { cbn. intros d Hd. destruct (so_destroy _ Hs _ Hd) as (x & Hx & Hbx). assert (d ≠ next) by congruence. split; [done|].
      rewrite lookup_insert_ne by done. destruct (decide (d = currentThread s)) as [->|]; [rewrite lookup_insert_eq; by eexists|].
      rewrite lookup_insert_ne by done. by exists x. }
    assert (length (userRegisters (found s o n next)) = Z.to_nat NumTotalRegs) as Hlen.
    { rewrite F6. destruct (decide _); [apply (so_mem _ Hs)|by apply (so_heap _ Hs next n)]. }
    eapply wp_mono; [apply (after_SWITCH_spec s3 next (set_status RUNNING (found s o n next))); [apply lookup_insert_eq|done|done|done|exact Hd]|].
    cbn beta. intros _ s' ->. change (space (set_status RUNNING (found s o n next))) with (space (found s o n next)). rewrite F2.
    destruct (reaped_fields s3) as (A1 & A2 & A3 & A4 & A5 & A6 & A7 & A8).
    destruct (live_registers (vm m') (userRegisters (found s o n next)) Hi') as [Hli Hlk].
    destruct (space n) as [a|] eqn:Ha;
      eapply (switched_intro s next o n Hs Ho Hn Hst _ (set_status RUNNING (found s o n next)) (threadToBeDestroyed s));
      rewrite ?Hb, ?Ha, ?A1; try exact A8; cbn; try done; congruence.
  - eapply wp_set_thread; [cbn; apply lookup_insert_eq|].
    eapply (switched_intro s next o n Hs Ho Hn Hst _ (set_begun (set_status RUNNING (found s o n next))) None);
      rewrite ?Hb; cbn; try done; try congruence. by rewrite insert_insert_eq.
Qed.

(** The check of an overrun stack stops the switch. *)
Lemma Run_stopped s next : switching_ok s → ¬ intact s → wp (λ f, f = AssertFailed) (Run next) (λ _ _, False) s.
Proof.
  intros Hs Hint. destruct (so_current _ Hs) as (o & Ho & _). unfold intact in Hint. rewrite Ho in Hint. cbn in Hint.
  unfold Run. apply wp_bind, wp_get. cbn zeta. apply wp_bind. eapply wp_get_thread; [exact Ho|].
  apply wp_bind. apply (wp_faults no_fault); [by intros ? []|].
  eapply wp_mono; [by apply save_spec|]. cbn. intros _ s1 (m & -> & _).
  fold (saved s o). destruct (saved_fields s o) as (S1 & _).
  apply wp_bind. unfold CheckOverflow. apply wp_bind. eapply wp_get_thread; [cbn; apply lookup_insert_eq|].
  rewrite S1. destruct (stack o) as [w|]; [|by destruct Hint]. destruct (w =? STACK_FENCEPOST) eqn:Hw; [|reflexivity].
  apply Z.eqb_eq in Hw as ->. destruct Hint. congruence.
Qed.

(** ** The invariant is kept *)

Lemma intact_switched s s' next : switching_ok s → intact s → switched s s' next → intact s'.
Proof.
  intros Hs Hint [(C1 & _) Ht _ _ _ _ _ _ _] w. rewrite C1. destruct (threads s' !! next) as [x'|] eqn:Hx'; [|done].
  cbn. destruct (Ht next x' Hx') as (x & Hx & _ & -> & _). intros Hw.
  destruct (decide (next = currentThread s)) as [->|Hne]; [apply Hint; by rewrite Hx|by apply (so_heap _ Hs next x)].
Qed.

Lemma queued_switched s s' next : (∀ t x, threads s !! t = Some x → status x = READY → t = next ∨ t ∈ readyList s) →
  switched s s' next → queued s'.
Proof.
  intros Hq [(C1 & C2 & C3 & _) Ht _ _ _ _ _ _ _] t x' Hx' Hst.
  destruct (Ht t x' Hx') as (x & Hx & _ & _ & _ & _ & _ & Hst' & _). rewrite Hst in Hst'.
  case_decide; [done|]. rewrite C3. destruct (Hq t x Hx); [congruence|done|done].
Qed.

Lemma switched_ok s s' next n : switching_ok s → intact s → next ∉ readyList s → threads s !! next = Some n → status n = READY →
  switched s s' next → is_Some (threads s' !! next) → switching_ok s' ∧ ∃ x, threads s' !! next = Some x ∧ status x = RUNNING.
Proof.
  intros Hs Hint Hnr Hn Hst [(C1 & C2 & C3 & C4 & C5) Ht Hg Hd _ (M1 & M2 & M3 & _) Hsp _ _] [x2 Hx2].
  assert (∀ t x, threads s !! t = Some x → t ≠ next → threadToBeDestroyed s ≠ Some t → ∃ x', threads s' !! t = Some x' ∧ status x' = status x) as Hkeep.
  { intros t x Hx Hne Hnd. destruct (Hg t x Hx) as [[x' Hx']|[? _]]; [|done]. exists x'. split; [done|].
    destruct (Ht t x' Hx') as (y & Hy & _ & _ & _ & _ & _ & -> & _). rewrite decide_False by done. congruence. }
  destruct (Ht next x2 Hx2) as (n' & Hn' & Hspx & _ & _ & _ & Hbx & Hstx & _).
  assert (n' = n) as -> by congruence. rewrite decide_True in Hstx by done.
  rewrite bool_decide_eq_true_2, orb_true_r in Hbx by done.
  split; [|by exists x2]. constructor.
  - rewrite C3. split; [apply (so_ready _ Hs)|]. intros t Hin. destruct (proj2 (so_ready _ Hs) t Hin) as (x & Hx & Hsx).
    destruct (Hkeep t x Hx) as (x' & Hx' & Hsx'); [congruence| |exists x'; split; [done|congruence]].
    intros Hdt. destruct (so_destroy _ Hs t Hdt) as (y & Hy & Hby). congruence.
  - rewrite C1. exists x2. split_and!; [done|done| |by intros _].
    intros a Ha. by apply (Hsp x2).
  - intros t. rewrite C4. intros Hin. destruct (so_sleep _ Hs t Hin) as [(x & Hx & Hsx) Hnd].
    split; [destruct (Hkeep t x Hx) as (x' & Hx' & Hsx'); [congruence|done|exists x'; split; [done|congruence]]|].
    rewrite (Hd n Hn). by destruct (begun n).
  - intros t. rewrite (Hd n Hn). destruct (begun n) eqn:Hb; [done|]. intros Hdt.
    destruct (so_destroy _ Hs t Hdt) as (x & Hx & Hsx). destruct (Hg t x Hx) as [[x' Hx']|(_ & n' & Hn2 & Hb')]; [|congruence].
    exists x'. split; [done|]. destruct (Ht t x' Hx') as (y & Hy & _ & _ & _ & _ & _ & -> & _). rewrite decide_False by congruence. congruence.
  - intros t x' Hx'. destruct (Ht t x' Hx') as (x & Hx & _ & Hstk & _ & _ & _ & _ & Hur).
    destruct (so_heap _ Hs t x Hx) as (H1 & H2 & H3). rewrite C5. split; [done|]. split.
    + rewrite Hur. destruct (decide _); [apply (so_mem _ Hs)|done].
    + intros w _. rewrite Hstk. destruct (decide (t = currentThread s)) as [->|]; [|by apply H3].
      intros Hw. apply Hint. by rewrite Hx.
  - by split.
Qed.

Lemma dispatch_spec s : switching_ok s → (readyList s ≠ [] → intact s) →
  wp no_fault dispatch (λ _ s', threads_ok s' ∧
    match readyList s with
    | [] => s' = with_idle true s
    | t :: q => switched (with_idle false (with_ready q s)) s' t
    end) s.
Proof.
  intros Hs Hint. unfold dispatch. apply wp_bind. unfold FindNextToRun. apply wp_bind, wp_get.
  destruct (readyList s) as [|t q] eqn:Hr.
  - apply wp_ret, wp_modify. split; [|done]. split; [|done]. destruct Hs. by constructor.
  - apply wp_bind, wp_put, wp_ret, wp_bind, wp_modify.
    destruct (so_ready _ Hs) as [Hnd Hin]. rewrite Hr in Hnd, Hin. apply NoDup_cons in Hnd as [Hnt Hnd].
    destruct (Hin t ltac:(by left)) as (n & Hn & Hst). set (s1 := with_idle false (with_ready q s)).
    assert (switching_ok s1) as Hs1.
    { destruct Hs. constructor; try done. split; [done|]. intros t' Ht'. apply Hin. by right. }
    assert (intact s1) as Hint1 by exact (Hint ltac:(done)).
    eapply wp_mono; [by apply (Run_spec s1 t n)|]. cbn. intros _ s' [Hsw Hsome].
    split; [|done]. destruct (switched_ok s1 s' t n Hs1 Hint1 Hnt Hn Hst Hsw Hsome) as [Hok Hrun]. split; [done|].
    intros _. by rewrite (proj1 (sd_fixed _ _ _ Hsw)).
Qed.

(** A thread in no queue is made ready. *)
Lemma ready_ok s t x : switching_ok s → threads s !! t = Some x → t ∉ readyList s → t ∉ sleepers s → threadToBeDestroyed s ≠ Some t →
  switching_ok (with_ready (readyList s ++ [t]) (with_thread t (set_status READY x) s)).
Proof.
  intros [[Hnd Hin] (c & Hc & Hcb & Hca & Hcn) Hsl Hds Hhp Hm] Hx Hnt Hns Hnd'. constructor; cbn; try done.
  - split; [apply NoDup_app; split_and!; [done| |apply NoDup_singleton]|].
    + intros y Hy Hy'. apply list_elem_of_singleton in Hy' as ->. done.
    + intros y [Hy|Hy%list_elem_of_singleton]%elem_of_app; [|subst y; rewrite lookup_insert_eq; by eexists].
      rewrite lookup_insert_ne by (by intros ->). by apply Hin.
  - destruct (decide (currentThread s = t)) as [He|Hne].
    + rewrite He, lookup_insert_eq. eexists. split; [done|]. assert (x = c) as -> by congruence. done.
    + rewrite lookup_insert_ne by done. by exists c.
  - intros y Hy. destruct (Hsl y Hy) as [(z & Hz & Hzs) Hnz]. split; [|done].
    rewrite lookup_insert_ne by (by intros ->). by exists z.
  - intros y Hy. rewrite lookup_insert_ne by congruence. by apply Hds.
  - intros y z. destruct (decide (y = t)) as [->|]; [rewrite lookup_insert_eq; intros [= <-]; exact (Hhp _ _ Hx)|].
    rewrite lookup_insert_ne by done. apply Hhp.
Qed.

Lemma intact_status s t x st : threads s !! t = Some x → intact s → intact (with_thread t (set_status st x) s).
Proof.
  intros Hx. apply intact_same; [done|]. cbn. destruct (decide (currentThread s = t)) as [->|].
  - by rewrite lookup_insert_eq, Hx.
  - by rewrite lookup_insert_ne.
Qed.

(** The current thread goes to sleep: [s] is the state with that written down. *)
Lemma Sleep_spec s x : (readyList s ≠ [] → intact s) → threads s !! currentThread s = Some x → switching_ok (with_thread (currentThread s) (set_status BLOCKED x) s) →
  wp no_fault Sleep (λ _ s', threads_ok s' ∧
    match readyList s with
    | [] => s' = with_idle true (with_thread (currentThread s) (set_status BLOCKED x) s)
    | t :: q => switched (with_idle false (with_ready q (with_thread (currentThread s) (set_status BLOCKED x) s))) s' t
    end) s.
Proof.
  intros Hint Hx Hs. unfold Sleep. apply wp_bind, wp_get, wp_bind. eapply wp_set_thread; [exact Hx|].
  refine (dispatch_spec _ Hs _). intros Hr. apply intact_status; [exact Hx|]. by apply Hint.
Qed.

(** Writing BLOCKED on the current thread, which is in no list. *)
Lemma blocked_ok s x sl d : switching_ok s → threads s !! currentThread s = Some x → status x = RUNNING →
  (∀ t, t ∈ sl → t ∈ sleepers s ∨ t = currentThread s ∧ d ≠ Some t) →
  (d = threadToBeDestroyed s ∨ d = Some (currentThread s) ∧ sl = sleepers s) →
  switching_ok (with_thread (currentThread s) (set_status BLOCKED x) (with_destroy d (with_sleepers sl s))).
Proof.
  intros [[Hnd Hin] (c & Hc & Hcb & Hca & Hcn) Hsl Hds Hhp Hm] Hx Hst Hsl' Hd. assert (c = x) as -> by congruence.
  constructor; cbn; try done.
  - split; [done|]. intros y Hy. destruct (Hin y Hy) as (z & Hz & Hzs). rewrite lookup_insert_ne by congruence. by exists z.
  - rewrite lookup_insert_eq. by eexists.
  - intros y Hy. destruct (Hsl' y Hy) as [Hy'|[-> Hne]]; [|split; [rewrite lookup_insert_eq; by eexists|done]].
    destruct (Hsl y Hy') as [(z & Hz & Hzs) Hnz]. rewrite lookup_insert_ne by congruence. split; [by exists z|].
    destruct Hd as [->|[-> ->]]; [done|]. congruence.
  - intros y Hy. destruct (decide (y = currentThread s)) as [->|Hne]; [rewrite lookup_insert_eq; by eexists|].
    rewrite lookup_insert_ne by done. destruct Hd as [->|[-> _]]; [by apply Hds|congruence].
  - intros y z. destruct (decide (y = currentThread s)) as [->|]; [rewrite lookup_insert_eq; intros [= <-]; exact (Hhp _ _ Hx)|].
    rewrite lookup_insert_ne by done. apply Hhp.
Qed.

(** ** The registers of a thread that is away *)

Definition sys_registers (s : Sys) : list Z := registers (machine (vm (mem s))).

(** User thread [t] waits for the processor or in a queue; [rs] is what its
    registers are to be, saved already or still in the machine. *)
Definition parked (t : nat) (rs : list Z) (s : Sys) : Prop :=
  (∃ x, threads s !! t = Some x ∧ begun x = true ∧ is_Some (space x) ∧
     (if decide (currentThread s = t) then sys_registers s = rs else userRegisters x = rs)) ∧
  (t ∈ readyList s ∨ t ∈ sleepers s).
Definition running (t : nat) (s : Sys) : Prop := currentThread s = t ∧ idle s = false.
Definition away (t : nat) (rs : list Z) (s : Sys) : Prop := parked t rs s ∧ ¬ running t s.
Definition back (t : nat) (rs : list Z) (s : Sys) : Prop := running t s ∧ sys_registers s = rs.

Lemma parked_dispatch t rs s s' : switching_ok s → parked t rs s →
  match readyList s with
  | [] => s' = with_idle true s
  | u :: q => switched (with_idle false (with_ready q s)) s' u
  end → away t rs s' ∨ back t rs s'.
Proof.
  intros Hs [(x & Hx & Hb & Hsp & Hreg) Hin]. destruct (readyList s) as [|u q] eqn:Hr.
  - intros ->. left. split; [split; [by exists x|destruct Hin as [Hin|Hin]; [by apply elem_of_nil in Hin|by right]]|].
    unfold running. cbn. by intros [_ ?].
  - intros [(C1 & C2 & C3 & C4 & C5) Ht Hg _ _ _ _ Hrg _].
    assert (threadToBeDestroyed s ≠ Some t) as Hnd.
    { intros Hd. destruct Hin as [Hin|Hin]; [|by apply (so_sleep _ Hs t Hin)]. rewrite <- Hr in Hin.
      destruct (proj2 (so_ready _ Hs) t Hin) as (y & Hy & Hys). destruct (so_destroy _ Hs t Hd) as (z & Hz & Hzs). congruence. }
    destruct (Hg t x Hx) as [[x' Hx']|[? _]]; [|done].
    destruct (Ht t x' Hx') as (y & Hy & Hsp' & _ & _ & _ & Hb' & _ & Hur). cbn in Hy. assert (y = x) as -> by congruence.
    rewrite Hb in Hb'. cbn [orb] in Hb'. assert (userRegisters x' = rs) as Hrs.
    { rewrite Hur. cbn. destruct (decide (currentThread s = t)) as [He|Hne].
      - rewrite decide_True; [exact Hreg|]. split; [congruence|done].
      - rewrite decide_False; [exact Hreg|]. intros [? _]. congruence. }
    destruct (decide (u = t)) as [->|Hne].
    + right. split; [split; [done|]; by rewrite C2|]. unfold sys_registers.
      rewrite (Hrg x x'); [exact Hrs|exact Hx|done|done|by rewrite Hsp'].
    + left. split; [split|].
      * exists x'. rewrite decide_False by congruence. split_and!; try done. by rewrite Hsp'.
      * rewrite C3, C4. cbn. destruct Hin as [[Hin|Hin]%elem_of_cons|Hin]; [congruence|by left|by right].
      * unfold running. rewrite C1. by intros [? _].
Qed.

(** ** Every act *)

Definition holds_registers (s s' : Sys) : Prop := ∀ t rs, away t rs s → away t rs s' ∨ back t rs s'.

Lemma away_other s s' t rs : away t rs s → currentThread s' = currentThread s → idle s' = idle s →
  (currentThread s = t → mem s' = mem s) → (∀ x, threads s !! t = Some x → ∃ x', threads s' !! t = Some x' ∧ begun x' = begun x ∧
    space x' = space x ∧ userRegisters x' = userRegisters x) →
  (t ∈ readyList s → t ∈ readyList s') → (t ∈ sleepers s → t ∈ readyList s' ∨ t ∈ sleepers s') → away t rs s'.
Proof.
  intros [[(x & Hx & Hb & Hsp & Hr) Hin] Hnr] Hc Hi Hm Ht Hrd Hsl. destruct (Ht x Hx) as (x' & Hx' & Hb' & Hsp' & Hur').
  split; [|unfold running; by rewrite Hc, Hi]. split; [|destruct Hin; auto].
  exists x'. rewrite Hc, Hb', Hsp', Hur'. split_and!; try done. case_decide as He; [|done].
  unfold sys_registers. by rewrite (Hm He).
Qed.

Lemma not_current t rs s : away t rs s → idle s = false → t ≠ currentThread s.
Proof. intros [_ Hn] Hi ->. by apply Hn. Qed.

(** What [dispatch] leaves. *)
Definition dispatched (s s' : Sys) : Prop :=
  match readyList s with
  | [] => s' = with_idle true s
  | t :: q => switched (with_idle false (with_ready q s)) s' t
  end.

Lemma queued_dispatched s s' : queued s → dispatched s s' → queued s'.
Proof.
  intros Hq. unfold dispatched. destruct (readyList s) as [|t q] eqn:Hr; [by intros ->|].
  apply queued_switched. cbn. intros u x Hu Hst. apply elem_of_cons. rewrite <- Hr. by apply (Hq u x).
Qed.

Lemma intact_dispatched s s' : switching_ok s → intact s → dispatched s s' → intact s'.
Proof.
  intros Hs Hint. unfold dispatched. destruct (readyList s) as [|t q] eqn:Hr; [by intros ->|].
  apply intact_switched; [|exact Hint]. destruct Hs as [[Hnd Hin] ? ? ? ? ?]. constructor; try done. cbn.
  rewrite Hr in Hnd, Hin. apply NoDup_cons in Hnd as [_ Hnd]. split; [done|]. intros y Hy. apply Hin. by right.
Qed.

(** A thread that finished and that nobody is going to delete. *)
Definition lost (t : nat) (s : Sys) : Prop :=
  (∃ x, threads s !! t = Some x ∧ status x = BLOCKED) ∧ t ∉ readyList s ∧ t ∉ sleepers s ∧
  threadToBeDestroyed s ≠ Some t ∧ currentThread s ≠ t.

Lemma lost_switched t s s' u n : lost t s → threads s !! u = Some n → u ≠ t → switched s s' u → lost t s'.
Proof.
  intros ((x & Hx & Hst) & Hr & Hsl & Hd & Hc) Hn Hne [(C1 & C2 & C3 & C4 & C5) Ht Hg Hdd _ _ _ _ _].
  destruct (Hg t x Hx) as [[x' Hx']|[? _]]; [|done]. destruct (Ht t x' Hx') as (y & Hy & _ & _ & _ & _ & _ & Hst' & _).
  rewrite decide_False in Hst' by done. assert (y = x) as -> by congruence. unfold lost. rewrite C1, C3, C4, (Hdd n Hn).
  split_and!; try done; [exists x'; by rewrite Hst'|by destruct (begun n)].
Qed.

Lemma lost_dispatched t s s' : switching_ok s → lost t s → dispatched s s' → lost t s'.
Proof.
  intros Hs Hl. unfold dispatched. destruct (readyList s) as [|u q] eqn:Hr; [by intros ->|].
  destruct (proj2 (so_ready _ Hs) u ltac:(rewrite Hr; by left)) as (n & Hn & Hns).
  destruct Hl as ((x & Hx & Hst) & Hnr & Hsl & Hd & Hc). rewrite Hr in Hnr. apply not_elem_of_cons in Hnr as [Hne Hnq].
  apply (lost_switched t _ s' u n); [|exact Hn|done]. split_and!; try done. by exists x.
Qed.

Lemma yield_spec s : threads_ok s → (readyList s ≠ [] → intact s) → idle s = false → wp no_fault Yield (λ _ s', threads_ok s' ∧ holds_registers s s' ∧
  (∀ x, threads s !! currentThread s = Some x → is_Some (space x) →
    away (currentThread s) (sys_registers s) s' ∨ back (currentThread s) (sys_registers s) s') ∧
  (∀ t, lost t s → lost t s') ∧ (queued s → queued s') ∧ (intact s → intact s')) s.
Proof.
  intros [Hs Hrun] Hint Hi. destruct (Hrun Hi) as (c & Hc & Hst). unfold Yield. apply wp_bind, wp_get, wp_bind.
  unfold FindNextToRun. apply wp_bind, wp_get. destruct (readyList s) as [|u q] eqn:Hr.
  - apply wp_ret, wp_ret. split; [by split|]. split; [intros t rs Ha; by left|].
    split; [intros x Hx Hsp; right; by split|done].
  - apply wp_bind, wp_put, wp_ret. destruct (so_ready _ Hs) as [Hnd Hin]. rewrite Hr in Hnd, Hin.
    apply NoDup_cons in Hnd as [Hnu Hnd]. destruct (Hin u ltac:(by left)) as (n & Hn & Hns).
    assert (u ≠ currentThread s) as Hne by congruence.
    assert (switching_ok (with_ready q s)) as Hs1.
    { destruct Hs. constructor; try done. split; [done|]. intros y Hy. apply Hin. by right. }
    assert (currentThread s ∉ q) as Hcq by (intros Hq; destruct (Hin (currentThread s) ltac:(by right)) as (y & Hy & Hys); congruence).
    assert (switching_ok (with_ready (q ++ [currentThread s]) (with_thread (currentThread s) (set_status READY c) (with_ready q s)))) as Hs2.
    { apply (ready_ok (with_ready q s) _ c Hs1 Hc Hcq).
      - intros Hsl. destruct (so_sleep _ Hs _ Hsl) as [(y & Hy & Hys) _]. congruence.
      - intros Hd. destruct (so_destroy _ Hs _ Hd) as (y & Hy & Hys). congruence. }
    apply wp_bind. unfold ReadyToRun. apply wp_bind. eapply wp_set_thread; [exact Hc|]. apply wp_modify.
    cbn [readyList with_thread with_ready]. set (s2 := with_ready _ _) in Hs2 |- *.
    assert (threads s2 !! u = Some n) as Hn2 by (cbn; by rewrite lookup_insert_ne).
    assert (intact s2) as Hint2 by exact (intact_status s _ _ READY Hc (Hint ltac:(done))).
    eapply wp_mono; [exact (Run_spec s2 u n Hs2 Hint2 Hn2 Hns)|]. cbn. intros _ s' [Hsw Hsome].
    assert (u ∉ readyList s2) as Hnu2 by (cbn; intros [?|?%list_elem_of_singleton]%elem_of_app; congruence).
    destruct (switched_ok s2 s' u n Hs2 Hint2 Hnu2 Hn2 Hns Hsw Hsome) as [Hok Hrunning].
    assert (∀ t rs, parked t rs (with_ready (u :: q ++ [currentThread s]) s2) → away t rs s' ∨ back t rs s') as Hpark.
    { intros t rs Hp. apply (parked_dispatch t rs (with_ready (u :: q ++ [currentThread s]) s2)); [|exact Hp|].
      - destruct Hs2 as [[H1 H2] ? ? ? ? ?]. constructor; try done. cbn. split; [by apply NoDup_cons|].
        intros y [->|Hy]%elem_of_cons; [by exists n|by apply H2].
      - cbn [readyList with_ready]. assert (with_idle false (with_ready (q ++ [currentThread s]) (with_ready (u :: q ++ [currentThread s]) s2)) = s2) as ->.
        { unfold s2. destruct s; cbn in *. by rewrite Hi. }
        exact Hsw. }
    split; [|split; [|split; [|split; [|split]]]].
    + split; [done|]. intros _. by rewrite (proj1 (sd_fixed _ _ _ Hsw)).
    + intros t rs Ha. apply Hpark. pose proof (not_current _ _ _ Ha Hi) as Hnt. destruct Ha as [[(x & Hx & Hb & Hsp & Hrg) Hin'] _]. split.
      * exists x. cbn. rewrite lookup_insert_ne by done. split_and!; done.
      * cbn. rewrite Hr in Hin'. destruct Hin' as [[->|Hq]%elem_of_cons|?]; [left; by left|left; right; apply elem_of_app; by left|by right].
    + intros x Hx Hsp. apply Hpark. assert (x = c) as -> by congruence. split.
      * eexists. cbn. rewrite lookup_insert_eq. split; [reflexivity|]. rewrite decide_True by done.
        split_and!; try done. destruct (so_current _ Hs) as (c' & Hc' & Hb & _). cbn. congruence.
      * left. cbn. right. apply elem_of_app. right. by left.
    + intros t ((x & Hx & Hxs) & Hnr & Hsl & Hd & Hnc). rewrite Hr in Hnr. apply not_elem_of_cons in Hnr as [Htu Htq].
      apply (lost_switched t s2 s' u n); [|exact Hn2|done|exact Hsw]. split_and!; try done.
      * exists x. cbn. by rewrite lookup_insert_ne.
      * cbn. intros [?|?%list_elem_of_singleton]%elem_of_app; congruence.
    + intros Hq. apply (queued_switched s2 s' u); [|exact Hsw]. cbn. intros t x Hx Hxs.
      destruct (decide (t = currentThread s)) as [->|Hnt]; [right; apply elem_of_app; right; by left|].
      rewrite lookup_insert_ne in Hx by done. pose proof (Hq t x Hx Hxs) as Hin'. rewrite Hr in Hin'.
      apply elem_of_cons in Hin' as [->|?]; [by left|right; apply elem_of_app; by left].
    + intros _. by apply (intact_switched s2 s' u).
Qed.

Lemma lost_blocked s t x sl d : lost t s → (t ∈ sl → t ∈ sleepers s ∨ t = currentThread s) →
  (d = Some t → threadToBeDestroyed s = Some t ∨ t = currentThread s) →
  lost t (with_thread (currentThread s) (set_status BLOCKED x) (with_destroy d (with_sleepers sl s))).
Proof.
  intros ((y & Hy & Hst) & Hr & Hs & Hd & Hc) Hsl Hd'. unfold lost. cbn. rewrite lookup_insert_ne by done.
  split_and!; try done; [by exists y|intros Hin; by destruct (Hsl Hin)|intros Hin; by destruct (Hd' Hin)].
Qed.

(** The running thread goes to sleep in the queue [sl], or to be destroyed. *)
Lemma sleep_act_spec s x sl d : threads_ok s → (readyList s ≠ [] → intact s) → idle s = false → threads s !! currentThread s = Some x →
  sleepers s ⊆ sl → (∀ t, t ∈ sl → t ∈ sleepers s ∨ t = currentThread s ∧ d ≠ Some t) →
  (d = threadToBeDestroyed s ∨ d = Some (currentThread s) ∧ sl = sleepers s) →
  wp no_fault Sleep (λ _ s', threads_ok s' ∧ holds_registers s s' ∧
    (currentThread s ∈ sl → is_Some (space x) → away (currentThread s) (sys_registers s) s' ∨ back (currentThread s) (sys_registers s) s') ∧
    dispatched (with_thread (currentThread s) (set_status BLOCKED x) (with_destroy d (with_sleepers sl s))) s')
    (with_destroy d (with_sleepers sl s)).
Proof.
  intros [Hs Hrun] Hint Hi Hx Hsub Hsl Hd. destruct (Hrun Hi) as (c & Hc & Hst). assert (c = x) as -> by congruence.
  pose proof (blocked_ok s x sl d Hs Hx Hst Hsl Hd) as Hs1.
  eapply wp_mono; [exact (Sleep_spec (with_destroy d (with_sleepers sl s)) x Hint Hx Hs1)|]. cbn beta. intros _ s' [Hok Hdis].
  set (s1 := with_thread _ _ _) in *. split; [done|]. split; [|split; [|exact Hdis]].
  - intros t rs Ha. apply (parked_dispatch t rs s1 s' Hs1); [|exact Hdis].
    pose proof (not_current _ _ _ Ha Hi) as Hne. destruct Ha as [[(y & Hy & Hb & Hsp & Hr) Hin] _]. split.
    + exists y. cbn. by rewrite lookup_insert_ne.
    + cbn. destruct Hin as [Hin|Hin]; [by left|right; set_solver].
  - intros Hin Hsp. apply (parked_dispatch _ _ s1 s' Hs1); [|exact Hdis]. split; [|by right].
    eexists. cbn. rewrite lookup_insert_eq. split; [reflexivity|]. rewrite decide_True by done. cbn. split_and!; try done.
    destruct (so_current _ Hs) as (c & Hc' & Hb & _). congruence.
Qed.

(** A new thread, in no list. *)
Lemma new_thread_ok s s' x : switching_ok s → (∀ t, threads s' !! t = if decide (t = heap s) then Some x else threads s !! t) →
  heap s' = S (heap s) → currentThread s' = currentThread s → readyList s' = readyList s →
  threadToBeDestroyed s' = threadToBeDestroyed s → sleepers s' = sleepers s → mem s' = mem s →
  length (userRegisters x) = Z.to_nat NumTotalRegs → (∀ w, stack x = Some w → w = STACK_FENCEPOST) → switching_ok s'.
Proof.
  intros [[Hnd Hin] (c & Hc & Hcb & Hca & Hcn) Hsl Hds Hhp Hm] Ht Hh H1 H2 H3 H4 H5 Hl Hst.
  assert (∀ t y, threads s !! t = Some y → threads s' !! t = Some y) as Hold.
  { intros t y Hy. rewrite Ht, decide_False; [done|]. intros ->. destruct (Hhp _ _ Hy) as [? _]. lia. }
  constructor; rewrite ?H1, ?H2, ?H3, ?H4, ?H5; try done.
  - split; [done|]. intros t Hin'. destruct (Hin t Hin') as (y & Hy & Hys). exists y. auto.
  - exists c. auto.
  - intros t Hin'. destruct (Hsl t Hin') as [(y & Hy & Hys) Hn]. split; [exists y; auto|done].
  - intros t Hd. destruct (Hds t Hd) as (y & Hy & Hys). exists y. auto.
  - intros t y. rewrite Ht, Hh. case_decide as He; [intros [= <-]; split; [lia|]; split; [done|auto]|].
    intros Hy. destruct (Hhp t y Hy) as (? & ? & ?). split; [lia|done].
Qed.

Section acts.
Context (s : Sys) (Hok : threads_ok s).

Lemma fork_spec func arg a unset : idle s = false → length unset = Z.to_nat NumTotalRegs →
  wp no_fault (run_act (ActFork func arg a unset)) (λ _ s', threads_ok s' ∧
    (∀ t x, threads s !! t = Some x → threads s' !! t = Some x) ∧
    (∀ t x, threads s' !! t = Some x → t = heap s ∨ threads s !! t = Some x) ∧ readyList s' = readyList s ++ [heap s] ∧
    currentThread s' = currentThread s ∧ idle s' = idle s ∧ mem s' = mem s ∧ sleepers s' = sleepers s ∧
    threadToBeDestroyed s' = threadToBeDestroyed s) s.
Proof using Hok.
  intros Hi Hl. destruct Hok as [Hs Hrun]. cbn [run_act]. unfold Thread_Fork, StackAllocate, ReadyToRun.
  apply wp_bind, wp_bind, wp_get, wp_bind, wp_put, wp_ret, wp_bind.
  eapply wp_set_thread; [cbn; apply lookup_insert_eq|]. apply wp_bind. eapply wp_set_thread; [cbn; apply lookup_insert_eq|]. cbn beta.
  set (x3 := set_stack _ _ _). set (s3 := with_thread (heap s) x3 _).
  assert (∀ t, threads s3 !! t = if decide (t = heap s) then Some x3 else threads s !! t) as Ht.
  { intros t. cbn. case_decide as He; [subst; apply lookup_insert_eq|]. by rewrite !lookup_insert_ne. }
  assert (threads s3 !! heap s = Some x3) as Hh by (rewrite Ht; by rewrite decide_True).
  assert (switching_ok s3) as Hs3 by (eapply (new_thread_ok s s3 x3); try done; intros w [= <-]; done).
  assert (∀ t x, threads s !! t = Some x → t ≠ heap s) as Hnew by (intros t x Hx ->; destruct (so_heap _ Hs _ _ Hx) as [? _]; lia).
  apply wp_bind. eapply wp_set_thread; [exact Hh|]. apply wp_modify. cbn [readyList with_thread].
  set (s4 := with_ready _ _). assert (∀ t x, threads s !! t = Some x → threads s4 !! t = Some x) as Hold.
  { intros t x Hx. change (threads s4) with (<[heap s := set_status READY x3]> (threads s3)).
    rewrite lookup_insert_ne by (intros He; by apply (Hnew t x)). rewrite Ht, decide_False by (by apply (Hnew t x)). done. }
  assert (∀ t x, threads s4 !! t = Some x → t = heap s ∨ threads s !! t = Some x) as Hback.
  { intros t x Hx. destruct (decide (t = heap s)) as [->|Hne]; [by left|right].
    change (threads s4) with (<[heap s := set_status READY x3]> (threads s3)) in Hx.
    rewrite lookup_insert_ne, Ht, decide_False in Hx by done. done. }
  split_and!; try done. split; [|intros _; destruct (Hrun Hi) as (c & Hc & Hst); exists c; by split; [apply Hold|]].
  apply (ready_ok s3 (heap s) x3 Hs3 Hh).
  - intros Hin. destruct (proj2 (so_ready _ Hs) _ Hin) as (y & Hy & _). by apply (Hnew _ _ Hy).
  - intros Hin. destruct (so_sleep _ Hs _ Hin) as [(y & Hy & _) _]. by apply (Hnew _ _ Hy).
  - intros Hd. destruct (so_destroy _ Hs _ Hd) as (y & Hy & _). by apply (Hnew _ _ Hy).
Qed.

Lemma wake_spec t : t ∈ sleepers s → ∃ x, threads s !! t = Some x ∧ status x = BLOCKED ∧ wp no_fault (run_act (ActWake t)) (λ _ s', threads_ok s' ∧
  s' = with_ready (readyList s ++ [t]) (with_thread t (set_status READY x) (with_sleepers (sleepers s ∖ {[t]}) s))) s.
Proof using Hok.
  intros Hin. destruct Hok as [Hs Hrun]. destruct (so_sleep _ Hs t Hin) as [(x & Hx & Hst) Hd]. exists x. split_and!; [done|done|].
  cbn [run_act]. apply wp_bind, wp_modify. unfold ReadyToRun. apply wp_bind. eapply wp_set_thread; [exact Hx|]. apply wp_modify. split; [|done].
  split.
  - apply (ready_ok (with_sleepers (sleepers s ∖ {[t]}) s) t x); [|exact Hx| |cbn; set_solver|exact Hd].
    + destruct Hs. constructor; try done. cbn. intros y Hy. set_solver.
    + intros Hr. destruct (proj2 (so_ready _ Hs) t Hr) as (y & Hy & Hys). congruence.
  - intros Hi. destruct (Hrun Hi) as (c & Hc & Hcs). exists c. cbn. rewrite lookup_insert_ne by congruence. done.
Qed.

Lemma adopt_spec a : can (ActAdopt a) s → ∃ x, threads s !! currentThread s = Some x ∧ wp no_fault (run_act (ActAdopt a)) (λ _ s', threads_ok s' ∧
  s' = with_mem (mkSpaces (with_currentSpace a (vm (mem s))) (threadTable (mem s))) (with_thread (currentThread s) (set_space (Some a) x) s)) s.
Proof using Hok.
  intros [Hi Hsp]. destruct Hok as [Hs Hrun]. destruct (Hrun Hi) as (x & Hx & Hst). specialize (Hsp x Hx). exists x. split; [done|].
  cbn [run_act]. apply wp_bind, wp_get, wp_bind. eapply wp_set_thread; [exact Hx|]. apply wp_in_mem, wp_on_vm, wp_modify.
  destruct (so_current _ Hs) as (c & Hc & Hcb & _ & Hcn). assert (c = x) as -> by congruence. destruct (so_mem _ Hs) as [Hm Hr].
  split; [|done]. destruct Hs as [[Hnd Hin] _ Hsl Hds Hhp _]. split.
  - constructor; cbn.
    + split; [done|]. intros y Hy. destruct (Hin y Hy) as (z & Hz & Hzs). rewrite lookup_insert_ne by congruence. by exists z.
    + rewrite lookup_insert_eq. eexists. split_and!; [done|done|by intros b [= <-]|done].
    + intros y Hy. destruct (Hsl y Hy) as [(z & Hz & Hzs) Hnz]. rewrite lookup_insert_ne by congruence. split; [by exists z|done].
    + intros y Hy. destruct (Hds y Hy) as (z & Hz & Hzs). rewrite lookup_insert_ne by congruence. by exists z.
    + intros y z. destruct (decide (y = currentThread s)) as [->|]; [rewrite lookup_insert_eq; intros [= <-]; exact (Hhp _ _ Hx)|].
      rewrite lookup_insert_ne by done. apply Hhp.
    + split; [by apply live_any_space, Hcn|done].
  - intros _. exists (set_space (Some a) x). cbn. by rewrite lookup_insert_eq.
Qed.

Lemma user_spec m : can (ActUser m) s → threads_ok (with_mem m s).
Proof using Hok.
  intros (Hi & Hm & Hr & Hcs & Hk). destruct Hok as [[Hrd (c & Hc & Hcb & Hca & Hcn) Hsl Hds Hhp _] Hrun].
  split; [|done]. constructor; try done. exists c. split_and!; [done|done|intros a Ha; cbn; rewrite Hcs; auto|].
  intros Hn. cbn. rewrite (Hk c Hc Hn). exact (Hcn Hn).
Qed.
End acts.

(** An act of the running thread after which it has to be scheduled again. *)
Definition gives_up (a : act) : Prop := match a with ActYield | ActSleep => True | _ => False end.

Record act_done (a : act) (s s' : Sys) : Prop := {
  ad_ok : threads_ok s';
  ad_registers : holds_registers s s';
  ad_gives_up : gives_up a → ∀ x, threads s !! currentThread s = Some x → is_Some (space x) →
    away (currentThread s) (sys_registers s) s' ∨ back (currentThread s) (sys_registers s) s';
  ad_lost : ∀ t, lost t s → lost t s';
  ad_queued : queued s → queued s';
  ad_intact : (∀ w, a ≠ ActStack w) → intact s → intact s'
}.

Lemma calm_done a s s' : ¬ gives_up a → threads_ok s' → currentThread s' = currentThread s → idle s' = idle s →
  threadToBeDestroyed s' = threadToBeDestroyed s → (∀ t, currentThread s ≠ t ∨ mem s' = mem s) ∨ idle s = false →
  (∀ t x, t ≠ currentThread s ∨ idle s = true → threads s !! t = Some x → ∃ x', threads s' !! t = Some x' ∧ begun x' = begun x ∧ space x' = space x ∧
    userRegisters x' = userRegisters x ∧ (t ∈ sleepers s ∨ status x' = status x)) →
  (∀ t, t ∈ readyList s → t ∈ readyList s') → (∀ t x, threads s !! t = Some x → t ∉ sleepers s → t ∈ readyList s' → t ∈ readyList s) →
  (∀ t, t ∈ sleepers s → t ∈ readyList s' ∨ t ∈ sleepers s') → (∀ t, t ∈ sleepers s' → t ∈ sleepers s) →
  (queued s → queued s') →
  ((∀ w, a ≠ ActStack w) → (threads s' !! currentThread s ≫= stack) = (threads s !! currentThread s ≫= stack)) →
  act_done a s s'.
Proof.
  intros Hg Hok Hc Hi Hd Hm Ht Hr Hr' Hsl Hsl' Hq Hint.
  constructor; [done| |by intros ?| |done|intros Hw; apply intact_same; auto].
  - intros t rs Ha. left. assert (t ≠ currentThread s ∨ idle s = true) as Hor.
    { destruct (idle s) eqn:He; [by right|left; by apply (not_current _ _ _ Ha)]. }
    apply (away_other s); try done; [|intros x Hx; destruct (Ht t x Hor Hx) as (x' & H1 & H2 & H3 & H4 & _); by exists x'|apply Hr|apply Hsl].
    intros He. destruct Hm as [Hm|Hm]; [by destruct (Hm t)|]. destruct Hor as [?|?]; congruence.
  - intros t ((x & Hx & Hst) & Hnr & Hns & Hnd & Hnc). destruct (Ht t x ltac:(left; congruence) Hx) as (x' & Hx' & _ & _ & _ & Hst').
    unfold lost. rewrite Hc, Hd. split_and!; try done; [|by intros ?%(Hr' t x)|by intros ?%Hsl'].
    exists x'. split; [done|]. destruct Hst' as [?| ->]; done.
Qed.

Lemma queued_blocked s x sl d : queued s →
  queued (with_thread (currentThread s) (set_status BLOCKED x) (with_destroy d (with_sleepers sl s))).
Proof.
  intros Hq t y. cbn. destruct (decide (t = currentThread s)) as [->|]; [by rewrite lookup_insert_eq; intros [= <-]|].
  rewrite lookup_insert_ne by done. apply Hq.
Qed.

Lemma stack_spec s w : threads_ok s → idle s = false → ∃ x, threads s !! currentThread s = Some x ∧
  wp no_fault (run_act (ActStack w)) (λ _ s', threads_ok s' ∧ s' = with_thread (currentThread s) (overwrite w x) s) s.
Proof.
  intros [Hs Hrun] Hi. destruct (Hrun Hi) as (x & Hx & Hst). exists x. split; [done|].
  cbn [run_act]. apply wp_bind, wp_get. eapply wp_set_thread; [exact Hx|]. split; [|done].
  destruct Hs as [[Hnd Hin] (c & Hc & Hcb & Hca & Hcn) Hsl Hds Hhp Hm]. assert (c = x) as -> by congruence. split.
  - constructor; cbn; [| | | | |done].
    + split; [done|]. intros y Hy. destruct (Hin y Hy) as (z & Hz & Hzs). rewrite lookup_insert_ne by congruence. by exists z.
    + rewrite lookup_insert_eq. by eexists.
    + intros y Hy. destruct (Hsl y Hy) as [(z & Hz & Hzs) Hnz]. rewrite lookup_insert_ne by congruence. split; [by exists z|done].
    + intros y Hy. destruct (Hds y Hy) as (z & Hz & Hzs). rewrite lookup_insert_ne by congruence. by exists z.
    + intros y z. destruct (decide (y = currentThread s)) as [->|]; [rewrite lookup_insert_eq|rewrite lookup_insert_ne by done; apply Hhp].
      intros [= <-]. destruct (Hhp _ _ Hx) as (? & ? & _). by split_and!.
  - intros _. exists (overwrite w x). cbn. by rewrite lookup_insert_eq.
Qed.

Lemma act_spec a s : threads_ok s → can a s → (switches a s → intact s) → wp no_fault (run_act a) (λ _ s', act_done a s s') s.
Proof.
  intros Hok Hcan Hint. pose proof Hok as [Hs Hrun]. destruct a as [func arg sp unset| | | |t|sp|m|w|].
  - destruct Hcan as [Hi Hl]. eapply wp_mono; [by apply fork_spec|]. cbn. intros _ s' (Hok' & Ht & Hback & Hr & Hc & Hi' & Hm & Hsl & Hd).
    apply calm_done; try done; [by intros []|left; by right|intros t x _ Hx; exists x; split; [by apply Ht|]; tauto| | |rewrite Hsl; tauto|by rewrite Hsl| |].
    + intros t. rewrite Hr. intros ?. apply elem_of_app. by left.
    + intros t x Hx _. rewrite Hr. intros [?|Hz%list_elem_of_singleton]%elem_of_app; [done|subst t]. destruct (so_heap _ Hs _ _ Hx) as [? _]. lia.
    + intros Hq t x Hx Hst. rewrite Hr. apply elem_of_app. destruct (Hback t x Hx) as [->|Hx']; [right; by left|left; by apply (Hq t x)].
    + intros _. destruct (Hrun Hi) as (x & Hx & _). by rewrite (Ht _ _ Hx), Hx.
  - cbn in Hcan. eapply wp_mono; [by apply yield_spec|]. cbn. intros _ s' (Hok' & Hh & Hself & Hl & Hq & Hin). by constructor; [|done|intros _| | |].
  - cbn in Hcan. destruct (Hrun Hcan) as (x & Hx & Hst). cbn [run_act]. unfold Finish. apply wp_bind, wp_modify.
    assert (with_destroy (Some (currentThread s)) s = with_destroy (Some (currentThread s)) (with_sleepers (sleepers s) s)) as -> by done.
    eapply wp_mono; [apply (sleep_act_spec s x (sleepers s) (Some (currentThread s))); auto|].
    cbn beta. intros _ s' (Hok' & Hh & _ & Hdis).
    pose proof (blocked_ok s x (sleepers s) (Some (currentThread s)) Hs Hx Hst ltac:(auto) ltac:(auto)) as Hb.
    constructor; [done|done|by intros []|intros t Hl|intros Hq|intros _ Hin].
    + exact (lost_dispatched _ _ _ Hb (lost_blocked s t x (sleepers s) (Some (currentThread s)) Hl ltac:(tauto) ltac:(intros [= <-]; by right)) Hdis).
    + exact (queued_dispatched _ _ (queued_blocked s x (sleepers s) (Some (currentThread s)) Hq) Hdis).
    + refine (intact_dispatched _ _ Hb _ Hdis). by apply (intact_status (with_destroy (Some (currentThread s)) (with_sleepers (sleepers s) s))).
  - cbn in Hcan. destruct (Hrun Hcan) as (x & Hx & Hst). cbn [run_act]. apply wp_bind, wp_modify.
    set (sl := {[currentThread s]} ∪ sleepers s).
    assert (with_sleepers sl s = with_destroy (threadToBeDestroyed s) (with_sleepers sl s)) as -> by done.
    assert (threadToBeDestroyed s ≠ Some (currentThread s)) as Hnd.
    { intros Hd. destruct (so_destroy _ Hs _ Hd) as (y & Hy & Hys). congruence. }
    assert (∀ t, t ∈ sl → t ∈ sleepers s ∨ t = currentThread s ∧ threadToBeDestroyed s ≠ Some t) as Hsl.
    { intros t [Hz%elem_of_singleton|?]%elem_of_union; [subst t; by right|by left]. }
    eapply wp_mono; [apply (sleep_act_spec s x sl (threadToBeDestroyed s)); auto; set_solver|].
    cbn beta. intros _ s' (Hok' & Hh & Hself & Hdis).
    pose proof (blocked_ok s x sl (threadToBeDestroyed s) Hs Hx Hst Hsl ltac:(auto)) as Hb.
    constructor; [done|done| |intros t Hl|intros Hq|intros _ Hin].
    + intros _ y Hy Hsp. apply Hself; [set_solver|congruence].
    + exact (lost_dispatched _ _ _ Hb (lost_blocked s t x sl (threadToBeDestroyed s) Hl ltac:(intros Hin; destruct (Hsl t Hin); tauto) ltac:(tauto)) Hdis).
    + exact (queued_dispatched _ _ (queued_blocked s x sl (threadToBeDestroyed s) Hq) Hdis).
    + refine (intact_dispatched _ _ Hb _ Hdis). by apply (intact_status (with_destroy (threadToBeDestroyed s) (with_sleepers sl s))).
  - destruct (wake_spec s Hok t Hcan) as (x & Hx & Hst & Hw). eapply wp_mono; [exact Hw|]. cbn beta. intros _ s' [Hok' ->].
    apply calm_done; try done; [by intros []|left; by right| | | | | | |]; cbn.
    + intros u y _ Hy. destruct (decide (u = t)) as [->|Hne]; [rewrite lookup_insert_eq|rewrite lookup_insert_ne by done].
      * assert (y = x) as -> by congruence. eexists. split; [done|]. by split_and!; auto.
      * exists y. tauto.
    + intros u Hu. apply elem_of_app. by left.
    + intros u y _ Hu [?|Hz%list_elem_of_singleton]%elem_of_app; [done|by subst u].
    + intros u Hu. destruct (decide (u = t)) as [->|]; [left; apply elem_of_app; right; by left|right; set_solver].
    + set_solver.
    + intros Hq u y Hu Hys. apply elem_of_app. destruct (decide (u = t)) as [->|Hne]; [right; by left|left].
      cbn in Hu. rewrite lookup_insert_ne in Hu by done. by apply (Hq u y).
    + intros _. destruct (decide (currentThread s = t)) as [->|]; [by rewrite lookup_insert_eq, Hx|by rewrite lookup_insert_ne].
  - destruct (adopt_spec s Hok sp Hcan) as (x & Hx & Hw). eapply wp_mono; [exact Hw|]. cbn beta. intros _ s' [Hok' ->].
    destruct Hcan as [Hi _]. destruct (Hrun Hi) as (c & Hc & Hst). assert (c = x) as -> by congruence.
    apply calm_done; try done; [by intros []|by right| |tauto| |]; cbn.
    + intros u y [Hne|?] Hy; [|congruence]. rewrite lookup_insert_ne by done. exists y. tauto.
    + intros Hq u y. cbn. destruct (decide (u = currentThread s)) as [->|]; [rewrite lookup_insert_eq; intros [= <-]; cbn; congruence|].
      rewrite lookup_insert_ne by done. apply Hq.
    + intros _. by rewrite lookup_insert_eq, Hx.
  - apply wp_modify. pose proof (user_spec s Hok m Hcan). apply calm_done; try done; [by intros []|right; by apply Hcan| |tauto]; cbn.
    intros u y _ Hy. exists y. tauto.
  - cbn in Hcan. destruct (stack_spec s w Hok Hcan) as (x & Hx & Hw). eapply wp_mono; [exact Hw|]. cbn beta. intros _ s' [Hok' ->].
    destruct (Hrun Hcan) as (c & Hc & Hst). assert (c = x) as -> by congruence.
    apply calm_done; try done; [by intros []|by right| |tauto| |]; cbn.
    + intros u y [Hne|?] Hy; [|congruence]. rewrite lookup_insert_ne by done. exists y. tauto.
    + intros Hq u y. cbn. destruct (decide (u = currentThread s)) as [->|]; [rewrite lookup_insert_eq; intros [= <-]; cbn; congruence|].
      rewrite lookup_insert_ne by done. apply Hq.
    + intros Hno. by destruct (Hno w).
  - eapply wp_mono; [by apply dispatch_spec|]. cbn beta. intros _ s' [Hok' Hdis]. constructor; [done| |by intros []| | |].
    + intros t rs [Hp _]. by apply (parked_dispatch t rs s s').
    + intros t Hl. by apply (lost_dispatched t s s').
    + intros Hq. by apply (queued_dispatched s s').
    + intros _ Hin. by apply (intact_dispatched s s').
Qed.

(** An act that would switch away from an overrun stack stops instead. *)
Lemma act_stopped a s : threads_ok s → can a s → switches a s → ¬ intact s → run_act a s = Fault AssertFailed.
Proof.
  intros [Hs Hrun] Hcan Hsw Hint.
  enough (wp (λ f, f = AssertFailed) (run_act a) (λ _ _, False) s) as Hw.
  { unfold wp in Hw. destruct (run_act a s) as [[]|f]; [done|by subst]. }
  assert (∀ s1, switching_ok s1 → ¬ intact s1 → readyList s1 ≠ [] → wp (λ f, f = AssertFailed) dispatch (λ _ _, False) s1) as Hdis.
  { intros s1 Hs1 Hi1 Hr1. unfold dispatch. apply wp_bind. unfold FindNextToRun. apply wp_bind, wp_get.
    destruct (readyList s1) as [|t q] eqn:Hr; [done|]. apply wp_bind, wp_put, wp_ret, wp_bind, wp_modify.
    apply Run_stopped; [|exact Hi1]. destruct (so_ready _ Hs1) as [Hnd Hin]. rewrite Hr in Hnd, Hin.
    apply NoDup_cons in Hnd as [_ Hnd]. destruct Hs1. constructor; try done. cbn. split; [done|]. intros y Hy. apply Hin. by right. }
  assert (∀ x sl d, threads s !! currentThread s = Some x → status x = RUNNING → readyList s ≠ [] →
    (∀ t, t ∈ sl → t ∈ sleepers s ∨ t = currentThread s ∧ d ≠ Some t) →
    (d = threadToBeDestroyed s ∨ d = Some (currentThread s) ∧ sl = sleepers s) →
    wp (λ f, f = AssertFailed) Sleep (λ _ _, False) (with_destroy d (with_sleepers sl s))) as Hsleep.
  { intros x sl d Hx Hst Hr Hsl Hd. unfold Sleep. apply wp_bind, wp_get, wp_bind. eapply wp_set_thread; [exact Hx|].
    apply Hdis; [exact (blocked_ok s x sl d Hs Hx Hst Hsl Hd)| |exact Hr]. intros Hi1. apply Hint. revert Hi1. apply intact_same; [done|].
    cbn. by rewrite lookup_insert_eq, Hx. }
  destruct a as [| | | | | | | |]; cbn in Hsw, Hcan; try done; cbn [run_act]; [| | |by apply Hdis].
  - destruct (Hrun Hcan) as (x & Hx & Hst). unfold Yield. apply wp_bind, wp_get, wp_bind.
    unfold FindNextToRun. apply wp_bind, wp_get. destruct (readyList s) as [|u q] eqn:Hr; [done|].
    apply wp_bind, wp_put, wp_ret, wp_bind. unfold ReadyToRun. apply wp_bind. eapply wp_set_thread; [exact Hx|]. apply wp_modify.
    destruct (so_ready _ Hs) as [Hnd Hin]. rewrite Hr in Hnd, Hin. apply NoDup_cons in Hnd as [_ Hnd].
    apply Run_stopped.
    + apply (ready_ok (with_ready q s) _ x); [|exact Hx| | |].
      * destruct Hs. constructor; try done. split; [done|]. intros y Hy. apply Hin. by right.
      * intros Hq. destruct (Hin (currentThread s) ltac:(by right)) as (y & Hy & Hys). congruence.
      * intros Hsl. destruct (so_sleep _ Hs _ Hsl) as [(y & Hy & Hys) _]. congruence.
      * intros Hd. destruct (so_destroy _ Hs _ Hd) as (y & Hy & Hys). congruence.
    + intros Hi1. apply Hint. revert Hi1. apply intact_same; [done|]. cbn. by rewrite lookup_insert_eq, Hx.
  - destruct (Hrun Hcan) as (x & Hx & Hst). unfold Finish. apply wp_bind, wp_modify.
    change (wp (λ f, f = AssertFailed) Sleep (λ _ _, False) (with_destroy (Some (currentThread s)) (with_sleepers (sleepers s) s))).
    apply (Hsleep x); auto.
  - destruct (Hrun Hcan) as (x & Hx & Hst). apply wp_bind, wp_modify.
    change (wp (λ f, f = AssertFailed) Sleep (λ _ _, False)
      (with_destroy (threadToBeDestroyed s) (with_sleepers ({[currentThread s]} ∪ sleepers s) s))).
    apply (Hsleep x ({[currentThread s]} ∪ sleepers s) (threadToBeDestroyed s)); auto.
    intros t [->%elem_of_singleton|?]%elem_of_union; [right|by left]. split; [done|]. intros Hd.
    destruct (so_destroy _ Hs _ Hd) as (y & Hy & Hys). congruence.
Qed.

(** A thread that finished, before it is deleted. *)
Definition finished (t : nat) (s : Sys) : Prop :=
  (∃ x, threads s !! t = Some x ∧ status x = BLOCKED) ∧ t ∉ readyList s ∧ t ∉ sleepers s ∧ currentThread s ≠ t.

Lemma finish_switches s u q n : threads_ok s → intact s → idle s = false → readyList s = u :: q → threads s !! u = Some n → begun n = false →
  wp no_fault (run_act ActFinish) (λ _ s', threads_ok s' ∧ intact s' ∧ running u s' ∧ finished (currentThread s) s') s.
Proof.
  intros Hok Hint Hi Hr Hu Hb. pose proof Hok as [Hs Hrun]. destruct (Hrun Hi) as (x & Hx & Hst).
  cbn [run_act]. unfold Finish. apply wp_bind, wp_modify.
  assert (with_destroy (Some (currentThread s)) s = with_destroy (Some (currentThread s)) (with_sleepers (sleepers s) s)) as -> by done.
  eapply wp_mono; [apply (sleep_act_spec s x (sleepers s) (Some (currentThread s))); auto|].
  cbn beta. intros _ s' (Hok' & _ & _ & Hdis). split; [done|]. split.
  { refine (intact_dispatched _ _ (blocked_ok s x (sleepers s) (Some (currentThread s)) Hs Hx Hst ltac:(auto) ltac:(auto)) _ Hdis).
    by apply (intact_status (with_destroy (Some (currentThread s)) (with_sleepers (sleepers s) s))). }
  unfold dispatched in Hdis. cbn [readyList with_thread with_destroy with_sleepers] in Hdis.
  rewrite Hr in Hdis. set (s1 := with_thread _ _ _) in Hdis.
  assert (u ≠ currentThread s) as Hne.
  { intros ->. destruct (proj2 (so_ready _ Hs) (currentThread s) ltac:(rewrite Hr; by left)) as (y & Hy & Hys). congruence. }
  destruct Hdis as [(C1 & C2 & C3 & C4 & C5) Ht Hg _ _ _ _ _ _].
  assert (threads (with_idle false (with_ready q s1)) !! currentThread s = Some (set_status BLOCKED x)) as Hcx by (cbn; apply lookup_insert_eq).
  destruct (Hg _ _ Hcx) as [[x' Hx']|[_ (n' & Hn' & Hb')]].
  - destruct (Ht _ _ Hx') as (y & Hy & _ & _ & _ & _ & _ & Hst' & _). rewrite Hcx in Hy. injection Hy as <-.
    rewrite decide_False in Hst' by done. split; [unfold running; by rewrite C1, C2|]. unfold finished. rewrite C1, C3, C4. cbn. split_and!; [by exists x'| | |done].
    + intros Hq. destruct (proj2 (so_ready _ Hs) (currentThread s) ltac:(rewrite Hr; by right)) as (y & Hy & Hys). congruence.
    + intros Hsl. destruct (so_sleep _ Hs _ Hsl) as [(y & Hy & Hys) _]. congruence.
  - cbn in Hn'. rewrite lookup_insert_ne in Hn' by done. congruence.
Qed.

Lemma second_finish t s s' : threads_ok s → intact s → idle s = false → finished t s → run_act ActFinish s = Done ((), s') →
  threads_ok s' ∧ lost t s'.
Proof.
  intros Hok Hint Hi ((y & Hy & Hys) & Hr & Hsl & Hc) Hrun'. pose proof Hok as [Hs Hrun]. destruct (Hrun Hi) as (x & Hx & Hst).
  enough (wp no_fault (run_act ActFinish) (λ _ s', threads_ok s' ∧ lost t s') s) as H by exact (wp_done _ _ _ _ _ _ H Hrun').
  cbn [run_act]. unfold Finish. apply wp_bind, wp_modify.
  assert (with_destroy (Some (currentThread s)) s = with_destroy (Some (currentThread s)) (with_sleepers (sleepers s) s)) as -> by done.
  eapply wp_mono; [apply (sleep_act_spec s x (sleepers s) (Some (currentThread s))); auto|].
  cbn beta. intros _ s2 (Hok2 & _ & _ & Hdis). split; [done|]. eapply lost_dispatched; [|  |exact Hdis]; [by apply blocked_ok; auto|].
  unfold lost. cbn. rewrite lookup_insert_ne by done. split_and!; try done; [by exists y|congruence].
Qed.

(** ** Histories *)

(** [Initialize]: the thread main runs, on the stack of the host. *)
Definition boot (unset : list Z) (m : Spaces) : Sys :=
  mkSys {[0%nat := mkThread 0 RUNNING None None true None unset]} 1 1 0 [] None ∅ false m.

Inductive thread_run : Sys → Sys → Prop :=
| trun_nil s : thread_run s s
| trun_step a s s1 s2 : can a s → run_act a s = Done ((), s1) → thread_run s1 s2 → thread_run s s2.

(** A history in which [t] does not run before the end. *)
Inductive run_without (t : nat) : Sys → Sys → Prop :=
| rw_nil s : run_without t s s
| rw_step a s s1 s2 : ¬ running t s → can a s → run_act a s = Done ((), s1) → run_without t s1 s2 → run_without t s s2.

Lemma act_facts a s s' : threads_ok s → can a s → run_act a s = Done ((), s') → act_done a s s'.
Proof.
  intros Hok Hcan Hrun. refine (wp_done _ _ _ _ _ _ (act_spec a s Hok Hcan _) Hrun). intros Hsw.
  destruct (decide (intact s)) as [|Hn]; [done|]. by rewrite (act_stopped a s Hok Hcan Hsw Hn) in Hrun.
Qed.

Lemma thread_run_ok s s' : thread_run s s' → threads_ok s → threads_ok s'.
Proof. induction 1 as [|a s s1 s2 Hcan Hrun _ IH]; [done|]. intros Hok. by apply IH, (act_facts a s s1). Qed.

Lemma thread_run_queued s s' : thread_run s s' → threads_ok s → queued s → queued s'.
Proof.
  induction 1 as [|a s s1 s2 Hcan Hrun _ IH]; [done|]. intros Hok Hq.
  destruct (act_facts a s s1 Hok Hcan Hrun) as [Hok1 _ _ _ Hq1 _]. auto.
Qed.

Lemma thread_run_lost t s s' : thread_run s s' → threads_ok s → lost t s → lost t s'.
Proof.
  induction 1 as [|a s s1 s2 Hcan Hrun _ IH]; [done|]. intros Hok Hl.
  destruct (act_facts a s s1 Hok Hcan Hrun) as [Hok1 _ _ Hl1 _ _]. auto.
Qed.

Lemma run_without_away t rs s s' : run_without t s s' → threads_ok s → away t rs s → away t rs s' ∨ back t rs s'.
Proof.
  induction 1 as [|a s s1 s2 Hn Hcan Hrun Hrest IH]; [by left|]. intros Hok Ha.
  destruct (act_facts a s s1 Hok Hcan Hrun) as [Hok1 Hreg _ _ _ _]. destruct (Hreg t rs Ha) as [Ha'|Hb]; [by apply IH|].
  destruct Hrest as [|b s1 s3 s4 Hn' _ _ _]; [by right|]. by destruct Hn'; destruct Hb.
Qed.

Lemma boot_ok unset m : length unset = Z.to_nat NumTotalRegs → live_inv (vm m) → regs_full (vm m) → tlb_empty (vm m) →
  threads_ok (boot unset m).
Proof.
  intros Hl Hm Hr Hno. split; [|intros _; by eexists]. constructor; cbn; try done.
  - split; [apply NoDup_nil_2|]. intros t Ht. by apply elem_of_nil in Ht.
  - by eexists.
  - intros t x Hx. apply lookup_singleton_Some in Hx as [<- <-]. split; [lia|done].
Qed.

End threads.
Arguments Thread : clear implicits.
Arguments Sys : clear implicits.
Arguments act : clear implicits.

(** ** Theorems *)

(** C16: whatever threads do from the start of the system - fork, yield,
    finish, sleep, wake others, take address spaces, run their programs, overrun
    their stacks - the next act completes, unless it would switch away from a
    thread whose stack word was overwritten: then, and only then, the check of
    the stack stops it.  Otherwise no thread is used after it was deleted, the
    deleted thread is never the running one, a thread is ready exactly when it is
    in the ready list, where it is once, and only an overrun makes the next check
    of the stack fail. *)
Theorem threads_safe {Func} unset m (s : Sys Func) a : length unset = Z.to_nat NumTotalRegs →
  live_inv (vm m) → regs_full (vm m) → tlb_empty (vm m) → thread_run (boot unset m) s → can a s →
  if decide (switches a s ∧ ¬ intact s) then run_act a s = Fault AssertFailed
  else ∃ s', run_act a s = Done ((), s') ∧ threads_ok s' ∧
    (∀ t x, threads s' !! t = Some x → status x = READY ↔ t ∈ readyList s') ∧ NoDup (readyList s') ∧
    ((∀ w, a ≠ ActStack w) → intact s → intact s').
Proof.
  intros Hl Hm Hr Hno Hrun Hcan. pose proof (boot_ok (Func := Func) unset m Hl Hm Hr Hno) as H0.
  pose proof (thread_run_ok _ _ Hrun H0) as Hok.
  assert (queued s) as Hq.
  { apply (thread_run_queued _ _ Hrun H0). intros t x Hx. cbn in Hx. apply lookup_singleton_Some in Hx as [<- <-]. done. }
  case_decide as Hd; [by apply act_stopped; tauto|].
  destruct (wp_no_fault _ _ _ (act_spec a s Hok Hcan ltac:(intros Hsw; destruct (decide (intact s)); tauto)))
    as ([] & s' & Hrun' & [Hok' _ _ _ Hq' Hint']).
  destruct (so_ready _ (proj1 Hok')) as [Hnd Hin]. exists s'. split_and!; [done|done| |done|done].
  intros t x Hx. split; [by apply Hq'|]. intros Ht. destruct (Hin t Ht) as (y & Hy & Hys). congruence.
Qed.

(** C17: a thread with an address space that yields or sleeps
    runs again, however long after and whatever other threads do meanwhile,
    with the registers it had. *)
Theorem registers_survive {Func} (s : Sys Func) a x s1 s' : threads_ok s → gives_up a → can a s →
  threads s !! currentThread s = Some x → is_Some (space x) → run_act a s = Done ((), s1) →
  run_without (currentThread s) s1 s' → running (currentThread s) s' → sys_registers s' = sys_registers s.
Proof.
  intros Hok Hg Hcan Hx Hsp Hrun Hrw Hback. destruct (act_facts a s s1 Hok Hcan Hrun) as [Hok1 _ Hown _ _ _].
  destruct (Hown Hg x Hx Hsp) as [Ha|Hb].
  - destruct (run_without_away _ _ _ _ Hrw Hok1 Ha) as [[_ Hn]|[_ Hb]]; [done|exact Hb].
  - destruct Hrw as [s1|b s1 s2 s3 Hn _ _ _]; [apply Hb|]. by destruct Hn; destruct Hb.
Qed.

(** C39: when a thread whose stack is intact finishes and the next one runs for the
    first time and finishes too, the first is never deleted: whatever happens
    later, its object and its stack stay. *)
Theorem finished_thread_leaks {Func} (s : Sys Func) u q n : threads_ok s → intact s → idle s = false → readyList s = u :: q →
  threads s !! u = Some n → begun n = false →
  ∃ s1 s2, run_act ActFinish s = Done ((), s1) ∧ running u s1 ∧ run_act ActFinish s1 = Done ((), s2) ∧
    ∀ s', thread_run s2 s' → is_Some (threads s' !! currentThread s) ∧ currentThread s' ≠ currentThread s ∧
      threadToBeDestroyed s' ≠ Some (currentThread s).
Proof.
  intros Hok Hint Hi Hr Hu Hb.
  destruct (wp_no_fault _ _ _ (finish_switches s u q n Hok Hint Hi Hr Hu Hb)) as ([] & s1 & H1 & Hok1 & Hint1 & Hrun1 & Hpend).
  destruct (wp_no_fault _ _ _ (act_spec ActFinish s1 Hok1 (proj2 Hrun1) (λ _, Hint1))) as ([] & s2 & H2 & _).
  exists s1, s2. split_and!; [done|done|done|]. intros s' Hrun.
  pose proof (second_finish _ _ _ Hok1 Hint1 (proj2 Hrun1) Hpend H2) as [Hok2 Hl].
  destruct (thread_run_lost _ _ _ Hrun Hok2 Hl) as ((x & Hx & _) & _ & _ & Hd & Hc). by split_and!; [exists x| |].
Qed.

(** ** Examples *)

Definition step_to (a : act unit) (s : Sys unit) : Sys unit :=
  match run_act a s with Done (_, s') => s' | Fault _ => s end.
Definition zeros : list Z := replicate (Z.to_nat NumTotalRegs) 0.
Definition ex_boot : Sys unit := boot zeros ex_spaces.
Definition ex_fork : act unit := ActFork tt 5 (Some 0%nat) zeros.
Definition ex_two : Sys unit := step_to ex_fork (step_to (ActAdopt 0) ex_boot).

Lemma step_done a s : threads_ok s → can a s → (switches a s → intact s) →
  run_act a s = Done ((), step_to a s) ∧ threads_ok (step_to a s).
Proof.
  intros Hok Hcan Hint. destruct (wp_no_fault _ _ _ (act_spec a s Hok Hcan Hint)) as ([] & s' & Hd & Hdone).
  unfold step_to. rewrite Hd. split; [done|apply Hdone].
Qed.

Lemma ex_boot_ok : live_inv (vm ex_spaces) ∧ regs_full (vm ex_spaces) ∧ tlb_empty (vm ex_spaces) ∧ threads_ok ex_boot.
Proof.
  assert (tlb_empty (vm ex_spaces)) as Hno.
  { intros j e. unfold tlb_at. cbn -[at_]. intros He. by apply (at_replicate 4 blank e j) in He as ->. }
  assert (live_inv (vm ex_spaces)) by apply example_live. assert (regs_full (vm ex_spaces)) by apply example_regs_full.
  split_and!; [done|done|done|]. by apply boot_ok.
Qed.

Lemma ex_two_ok : thread_run ex_boot ex_two ∧ threads_ok ex_two.
Proof.
  destruct ex_boot_ok as (_ & _ & _ & H0).
  assert (can (ActAdopt 0) ex_boot) as C1 by (split; [done|]; intros x [= <-]; done).
  destruct (step_done _ _ H0 C1 ltac:(intros [])) as [R1 H1].
  assert (can ex_fork (step_to (ActAdopt 0) ex_boot)) as C2 by (split; reflexivity).
  destruct (step_done _ _ H1 C2 ltac:(intros [])) as [R2 H2]. split; [|exact H2].
  eapply trun_step; [exact C1|exact R1|]. eapply trun_step; [exact C2|exact R2|]. constructor.
Qed.

Lemma ex_two_intact : intact ex_two.
Proof. intros w Hw. vm_compute in Hw. discriminate. Qed.

(** The other thread runs, and overruns its stack. *)
Definition ex_away : Sys unit := step_to ActYield ex_two.
Definition ex_overrun : Sys unit := step_to (ActStack 0) ex_away.

Lemma ex_overrun_run : thread_run ex_boot ex_overrun.
Proof.
  destruct ex_boot_ok as (_ & _ & _ & H0).
  assert (can (ActAdopt 0) ex_boot) as C1 by (split; [done|]; intros x [= <-]; done).
  destruct (step_done _ _ H0 C1 ltac:(intros [])) as [R1 H1].
  assert (can ex_fork (step_to (ActAdopt 0) ex_boot)) as C2 by (split; reflexivity).
  destruct (step_done _ _ H1 C2 ltac:(intros [])) as [R2 H2].
  assert (can ActYield ex_two) as C3 by reflexivity. destruct (step_done _ _ H2 C3 (λ _, ex_two_intact)) as [R3 H3].
  assert (can (ActStack 0) ex_away) as C4 by (vm_compute; reflexivity).
  destruct (step_done _ _ H3 C4 ltac:(intros [])) as [R4 _].
  eapply trun_step; [exact C1|exact R1|]. eapply trun_step; [exact C2|exact R2|].
  eapply trun_step; [exact C3|exact R3|]. eapply trun_step; [exact C4|exact R4|]. constructor.
Qed.

Lemma threads_safe_witness : run_act ActSleep ex_overrun = Fault AssertFailed ∧
  ∃ s', run_act ActYield ex_two = Done ((), s') ∧ threads_ok s' ∧ NoDup (readyList s').
Proof.
  destruct ex_boot_ok as (Hm & Hr & Hno & _).
  pose proof (threads_safe zeros ex_spaces ex_two ActYield eq_refl Hm Hr Hno (proj1 ex_two_ok) eq_refl) as H1.
  assert (can ActSleep ex_overrun) as C by (vm_compute; reflexivity).
  pose proof (threads_safe zeros ex_spaces ex_overrun ActSleep eq_refl Hm Hr Hno ex_overrun_run C) as H2.
  rewrite decide_False in H1 by (intros [_ Hn]; exact (Hn ex_two_intact)). rewrite decide_True in H2.
  - split; [exact H2|]. destruct H1 as (s' & Hd & Hok & _ & Hnd & _). exists s'. exact (conj Hd (conj Hok Hnd)).
  - split; [vm_compute; discriminate|]. intros Hi. assert (0 = STACK_FENCEPOST) as Hz; [|vm_compute in Hz; discriminate].
    apply Hi. vm_compute. reflexivity.
Defined.

(** The other thread has its own registers. *)
Definition sevens (s : Sys unit) : Spaces := mkSpaces (with_regs (replicate 40 7) (vm (mem s))) (threadTable (mem s)).
Definition ex_sevens : Sys unit := step_to (ActUser (sevens ex_away)) ex_away.

Lemma registers_survive_witness : sys_registers ex_sevens = replicate 40 7 ∧
  sys_registers (step_to ActYield ex_sevens) = sys_registers ex_two.
Proof.
  split; [reflexivity|]. destruct ex_two_ok as [_ H0].
  assert (can ActYield ex_two) as C0 by reflexivity. destruct (step_done _ _ H0 C0 (λ _, ex_two_intact)) as [R0 H1]. fold ex_away in R0, H1.
  assert (can (ActUser (sevens ex_away)) ex_away) as C1.
  { destruct H1 as [Hs _]. destruct (so_mem _ Hs) as [Hm Hr]. split_and!; [vm_compute; reflexivity|by apply live_registers|reflexivity|reflexivity|].
    intros x Hx Hn. assert (space <$> threads ex_away !! currentThread ex_away = Some (Some 0%nat)) as Hsp by (vm_compute; reflexivity).
    rewrite Hx in Hsp. cbn in Hsp. congruence. }
  destruct (step_done _ _ H1 C1 ltac:(intros [])) as [R1 H2]. fold ex_sevens in R1, H2.
  assert (can ActYield ex_sevens) as C2 by (vm_compute; reflexivity). destruct (step_done _ _ H2 C2) as [R2 H3].
  { intros _ w Hw. vm_compute in Hw. injection Hw as <-. reflexivity. }
  eapply (registers_survive ex_two ActYield _ ex_away (step_to ActYield ex_sevens) H0 I C0); [reflexivity|vm_compute; by eexists|exact R0| |].
  - eapply rw_step; [|exact C1|exact R1|eapply rw_step; [|exact C2|exact R2|constructor]]; intros [Hc _]; vm_compute in Hc; discriminate.
  - split; vm_compute; reflexivity.
Defined.

Lemma finished_thread_leaks_witness : ∃ s1 s2, run_act ActFinish ex_two = Done ((), s1) ∧ running 1 s1 ∧
  run_act ActFinish s1 = Done ((), s2) ∧ is_Some (threads s2 !! 0%nat).
Proof.
  destruct ex_two_ok as [_ H0].
  destruct (finished_thread_leaks ex_two 1 [] (set_status READY (set_stack (Some STACK_FENCEPOST) (Some (tt, 5)) (mkThread 1 JUST_CREATED None None false (Some 0%nat) zeros))))
    as (s1 & s2 & H1 & Hr & H2 & Hl); [exact H0|exact ex_two_intact|reflexivity|reflexivity|reflexivity|reflexivity|].
  exists s1, s2. split_and!; [done|exact Hr|done|]. apply (Hl s2). constructor.
Defined.
