(* ===== verification/Processes.v ===== *)
(** * Processes: Fork, Exec and Exit of userprog/exception.cc, the process table
    of threads/system.cc, StartProcess of userprog/progtest.cc

    A system call is cut where other threads can run: between the sections
    under [kernel_threadLock], under [execLock] or with interrupts off, and
    before a new thread runs.  A thread's [place] says what it does next. *)
From S2P Require Import Prelude BitMap Translate HostFile Paging Lifecycle Stacks.
From stdpp Require Import functions base list gmap.
From Stdlib Require Import ZArith Lia ZifyBool.

Local Open Scope Z_scope.

(** ** Data *)

Record ProcessTableEntry := mkProcess { space : nat; numThreads : Z }.

(** What the constructor of an address space reads from the executable. *)
Record Executable := mkExecutable { file : list Z; code : Z; initData : Z; uninitData : Z; inFileAddr : Z }.

(** ** Numbers of the machine *)

Lemma s32_exact z : - 2 ^ 31 <= z < 2 ^ 31 → s32 z = z.
Proof. unfold s32, u32. intros Hz. destruct (Z.ltb_spec (z mod 2 ^ 32) (2 ^ 31)); Z.to_euclidean_division_equations; lia. Qed.

Lemma s32_add x y : s32 (s32 x + y) = s32 (x + y).
Proof.
  assert (u32 (s32 x + y) = u32 (x + y)) as H; [|unfold s32 at 1 3; by rewrite H].
  unfold s32. destruct (Z.ltb_spec (u32 x) (2 ^ 31)); unfold u32 in *; Z.to_euclidean_division_equations; lia.
Qed.

(** ** Counting threads *)

Definition sum_of {X} (f : X → Z) (m : gmap Z X) : Z := map_fold (λ _ x acc, f x + acc) 0 m.

Lemma sum_insert {X} (f : X → Z) m i x : m !! i = None → sum_of f (<[i := x]> m) = f x + sum_of f m.
Proof. intros Hi. unfold sum_of. rewrite map_fold_insert_L; [done|intros; lia|done]. Qed.

Lemma sum_update {X} (f : X → Z) m i x y : m !! i = Some x → sum_of f (<[i := y]> m) = sum_of f m - f x + f y.
Proof.
  intros Hi. assert (m = <[i := x]> (delete i m)) as Hm by (by rewrite insert_delete_eq, insert_id).
  rewrite Hm at 2. rewrite <- (insert_delete_eq m i y). rewrite !sum_insert by apply lookup_delete_eq. lia.
Qed.

Lemma sum_nonneg {X} (f : X → Z) m : (∀ j y, m !! j = Some y → 0 <= f y) → 0 <= sum_of f m.
Proof.
  induction m as [|j y m Hj IH] using map_ind; [done|]. intros Hf. rewrite sum_insert by done.
  specialize (Hf j y) as Hy. rewrite lookup_insert_eq in Hy. specialize (Hy eq_refl).
  enough (0 <= sum_of f m) by lia. apply IH. intros k z Hz. apply (Hf k). rewrite lookup_insert_ne by congruence. done.
Qed.

Lemma sum_split {X} (f : X → Z) m i x : m !! i = Some x → sum_of f m = f x + sum_of f (delete i m).
Proof. intros Hi. rewrite <- (insert_id m i x Hi) at 1. by rewrite <- insert_delete_eq, sum_insert by apply lookup_delete_eq. Qed.

Lemma sum_ge {X} (f : X → Z) m i x : (∀ j y, m !! j = Some y → 0 <= f y) → m !! i = Some x → f x <= sum_of f m.
Proof.
  intros Hf Hi. rewrite (sum_split _ _ _ _ Hi). enough (0 <= sum_of f (delete i m)) by lia.
  apply sum_nonneg. intros j y [_ Hy]%lookup_delete_Some. eauto.
Qed.

Lemma sum_le {X} (f : X → Z) c m : (∀ j y, m !! j = Some y → f y <= c) → sum_of f m <= c * Z.of_nat (size m).
Proof.
  induction m as [|j y m Hj IH] using map_ind; [intros _; unfold sum_of; rewrite map_fold_empty, map_size_empty; lia|].
  intros Hf. rewrite sum_insert, map_size_insert_None by done. specialize (Hf j y) as Hy. rewrite lookup_insert_eq in Hy.
  specialize (Hy eq_refl). assert (sum_of f m <= c * Z.of_nat (size m)); [|lia].
  apply IH. intros k z Hz. apply (Hf k). rewrite lookup_insert_ne by congruence. done.
Qed.

(** A second thread that counts. *)
Lemma sum_ge2 {X} (f : X → Z) m i x j y : (∀ j y, m !! j = Some y → 0 <= f y) → m !! i = Some x → m !! j = Some y → i ≠ j →
  f x + f y <= sum_of f m.
Proof.
  intros Hf Hi Hj Hne. rewrite (sum_split _ _ _ _ Hi). enough (f y <= sum_of f (delete i m)) by lia.
  apply (sum_ge f _ j); [|by rewrite lookup_delete_ne]. intros k z [_ Hz]%lookup_delete_Some. eauto.
Qed.

Lemma sum_zero {X} (f : X → Z) m : (∀ j y, m !! j = Some y → f y = 0) → sum_of f m = 0.
Proof.
  intros Hf. enough (sum_of f m <= 0 * Z.of_nat (size m) ∧ 0 <= sum_of f m) by lia.
  split; [apply sum_le|apply sum_nonneg]; intros j y Hy; by rewrite (Hf j y).
Qed.

Lemma sum_positive {X} (f : X → Z) m : (∀ j y, m !! j = Some y → 0 <= f y) → 0 < sum_of f m → ∃ i x, m !! i = Some x ∧ 0 < f x.
Proof.
  intros Hf Hpos. destruct (decide (map_Forall (λ _ x, f x = 0) m)) as [Hall|Hall].
  - rewrite sum_zero in Hpos; [lia|exact Hall].
  - apply map_not_Forall in Hall; [|intros u x; exact _]. destruct Hall as (i & x & Hx & Hn). exists i, x.
    specialize (Hf i x Hx). split; [done|lia].
Qed.

(** No thread but [i] counts. *)
Lemma sum_only {X} (f : X → Z) m i x : (∀ j y, m !! j = Some y → j ≠ i → f y = 0) → m !! i = Some x → sum_of f m = f x.
Proof.
  intros Hf Hi. rewrite (sum_split _ _ _ _ Hi), sum_zero; [lia|]. intros j y [? Hy]%lookup_delete_Some. eauto.
Qed.

Section processes.
(** The names of files.  [executables] is what opening one finds, [unset] what
    is in memory that nothing was written to. *)
Context {Name : Type}.

(** Where a thread is: about to start in [kernel_thread] or [kernel_exec],
    running its program, in [Fork_Syscall] after the count, in [Exec_Syscall]
    after the count (with the name [copyin] read, if it could), in
    [kernel_exec] before the count, in [Exit_Syscall] with the entry of its
    process, or finished. *)
Inductive place :=
| AtThread (vaddr : Z)
| AtExec (name : Name)
| InUser
| InFork (funct : Z)
| InExec (name : option Name)
| InLoad
| InExit (p : option nat)
| Finished.

(** The threads with their address spaces, by number; the entries are pointers
    into [cells]. *)
Record Kernel := mkKernel {
  threads : gmap Z (place * option nat);
  threadIDCount : Z;
  spaceCount : nat;
  cells : gmap nat ProcessTableEntry;
  cellCount : nat;
  entries : list nat;
  execCalled : Z;
  halted : bool;
  mem : Spaces
}.

Definition with_thread (t : Z) (x : place * option nat) (s : Kernel) : Kernel :=
  mkKernel (<[t := x]> (threads s)) (threadIDCount s) (spaceCount s) (cells s) (cellCount s) (entries s) (execCalled s) (halted s) (mem s).
Definition with_new_thread (x : place * option nat) (s : Kernel) : Kernel :=
  mkKernel (<[threadIDCount s := x]> (threads s)) (threadIDCount s + 1) (spaceCount s) (cells s) (cellCount s) (entries s)
    (execCalled s) (halted s) (mem s).
Definition with_new_space (s : Kernel) : Kernel :=
  mkKernel (threads s) (threadIDCount s) (S (spaceCount s)) (cells s) (cellCount s) (entries s) (execCalled s) (halted s) (mem s).
Definition with_cell (p : nat) (e : ProcessTableEntry) (s : Kernel) : Kernel :=
  mkKernel (threads s) (threadIDCount s) (spaceCount s) (<[p := e]> (cells s)) (cellCount s) (entries s) (execCalled s) (halted s) (mem s).
Definition with_new_cell (e : ProcessTableEntry) (s : Kernel) : Kernel :=
  mkKernel (threads s) (threadIDCount s) (spaceCount s) (<[cellCount s := e]> (cells s)) (S (cellCount s)) (entries s)
    (execCalled s) (halted s) (mem s).
Definition with_entries (l : list nat) (s : Kernel) : Kernel :=
  mkKernel (threads s) (threadIDCount s) (spaceCount s) (cells s) (cellCount s) l (execCalled s) (halted s) (mem s).
Definition with_execCalled (n : Z) (s : Kernel) : Kernel :=
  mkKernel (threads s) (threadIDCount s) (spaceCount s) (cells s) (cellCount s) (entries s) n (halted s) (mem s).
Definition with_halted (s : Kernel) : Kernel :=
  mkKernel (threads s) (threadIDCount s) (spaceCount s) (cells s) (cellCount s) (entries s) (execCalled s) true (mem s).
Definition with_mem (m : Spaces) (s : Kernel) : Kernel :=
  mkKernel (threads s) (threadIDCount s) (spaceCount s) (cells s) (cellCount s) (entries s) (execCalled s) (halted s) m.

(** The memory, as the running thread with space [a] sees it. *)
Definition in_space {A} (a : nat) (op : M Spaces A) : M Kernel A := λ s,
  match op (mkSpaces (with_currentSpace a (vm (mem s))) (threadTable (mem s))) with
  | Done (x, m) => Done (x, with_mem m s)
  | Fault f => Fault f
  end.

(** ** The process table *)

Definition get_cell (p : nat) : M Kernel ProcessTableEntry :=
  let! s := get in match cells s !! p with Some e => ret e | None => fail NullDeref end.

(** [addThread] and [removeThread], through a pointer that may be NULL *)
Definition deref (p : option nat) : M Kernel nat := match p with Some p => ret p | None => fail NullDeref end.
Definition addThread (p : option nat) : M Kernel unit :=
  let! p := deref p in
  let! e := get_cell p in
  modify (with_cell p (mkProcess (space e) (s32 (numThreads e + 1)))).
Definition removeThread (p : option nat) : M Kernel unit :=
  let! p := deref p in
  let! e := get_cell p in
  let n := s32 (numThreads e - 1) in
  modify (with_cell p (mkProcess (space e) (if n <? 0 then 0 else n))).

Fixpoint find_process (a : nat) (l : list nat) : M Kernel (option nat) :=
  match l with
  | [] => ret None
  | p :: l' => let! e := get_cell p in if decide (space e = a) then ret (Some p) else find_process a l'
  end.
Definition getProcessEntry (a : nat) : M Kernel (option nat) :=
  let! s := get in find_process a (entries s).

(** [getNumProcesses] is the length. *)
Definition getNumProcesses (s : Kernel) : Z := Z.of_nat (length (entries s)).

(** The new entry is made first, and not freed when the space is there already. *)
Definition addProcess (a : nat) : M Kernel unit :=
  let! s := get in
  put (with_new_cell (mkProcess a 1) s) ;;;
  let! o := find_process a (entries s) in
  match o with
  | Some _ => ret ()
  | None => modify (with_entries (entries s ++ [cellCount s]))
  end.

Fixpoint erase_process (a : nat) (l : list nat) : M Kernel (option (list nat)) :=
  match l with
  | [] => ret None
  | p :: l' =>
      let! e := get_cell p in
      if decide (space e = a) then ret (Some l')
      else let! o := erase_process a l' in ret (cons p <$> o)
  end.
Definition deleteProcess (a : nat) : M Kernel bool :=
  let! s := get in
  let! o := erase_process a (entries s) in
  match o with Some l => modify (with_entries l) ;;; ret true | None => ret false end.

(** ** Threads and processes that start *)

Definition goto (t : Z) (x : place) (a : option nat) : M Kernel unit := modify (with_thread t (x, a)).

(** [new AddrSpace(name)] in thread [t]: without the file Nachos stops. *)
Definition construct_space (executables : Name → option Executable) (t : Z) (name : Name) : M Kernel nat :=
  match executables name with
  | None => fail AssertFailed
  | Some x =>
      let! s := get in
      let a := spaceCount s in
      put (with_new_space s) ;;;
      modify (λ s, with_mem (construct a t (new_AddrSpace (file x) (code x) (initData x) (uninitData x) (inFileAddr x))
        (divRoundUp (u32 (code x + initData x + uninitData x)) PageSize) (mem s)) s) ;;;
      ret a
  end.

Definition StartProcess (executables : Name → option Executable) (t : Z) (name : Name) : M Kernel unit :=
  let! a := construct_space executables t name in
  goto t InUser (Some a) ;;;
  in_space a (on_vm InitRegisters) ;;;
  addProcess a.

(** [Fork_Syscall] in a thread of space [a]: the section under the lock, and
    the rest. *)
Definition Fork_count (t : Z) (a : nat) (funct : Z) : M Kernel unit :=
  let! p := getProcessEntry a in
  addThread p ;;;
  goto t (InFork funct) (Some a).
Definition Fork_make (t : Z) (a : nat) (funct : Z) : M Kernel unit :=
  modify (with_new_thread (AtThread funct, Some a)) ;;;
  goto t InUser (Some a).

Definition kernel_thread (unset : Z → Z) (t : Z) (a : nat) (vaddr : Z) : M Kernel unit :=
  in_space a (AddrSpace_Fork unset t vaddr) ;;;
  goto t InUser (Some a).

(** [Exec_Syscall]: the count, [copyin] and the new thread. *)
Definition Exec_count (t : Z) (a : nat) (name : option Name) : M Kernel unit :=
  modify (λ s, with_execCalled (s32 (execCalled s + 1)) s) ;;;
  goto t (InExec name) (Some a).
Definition Exec_make (t : Z) (a : nat) (name : option Name) : M Kernel unit :=
  match name with
  | Some n => modify (with_new_thread (AtExec n, None))
  | None => ret ()
  end ;;;
  goto t InUser (Some a).

(** [kernel_exec], up to [execLock] and after. *)
Definition kernel_exec (executables : Name → option Executable) (t : Z) (name : Name) : M Kernel unit :=
  let! a := construct_space executables t name in
  goto t InLoad (Some a) ;;;
  addProcess a ;;;
  in_space a (on_vm InitRegisters).
Definition kernel_exec_count (t : Z) (a : nat) : M Kernel unit :=
  modify (λ s, with_execCalled (s32 (execCalled s - 1)) s) ;;;
  goto t InUser (Some a).

(** ** Exit *)

Definition Exit_find (t : Z) (a : nat) : M Kernel unit :=
  let! p := getProcessEntry a in
  goto t (InExit p) (Some a).

(** [Exit_Syscall] under both locks, and [Finish]. *)
Definition Exit_body (t : Z) (a : nat) (p : option nat) : M Kernel unit :=
  let! q := deref p in
  let! e := get_cell q in
  let! s := get in
  if 1 <? numThreads e then
    removeThread p ;;;
    in_space a (AddrSpace_Exit t) ;;;
    goto t Finished (Some a)
  else if (numThreads e =? 1) && (getNumProcesses s =? 1) && (execCalled s =? 0) then
    modify with_halted
  else
    let! _b := deleteProcess a in
    in_space a (on_vm (delete_AddrSpace a)) ;;;
    goto t Finished (Some a).

(** ** What threads do *)

(** The system calls of the program, and what its instructions do to memory. *)
Inductive request := Fork (funct : Z) | Exec (name : option Name) | Exit | Memory (m : Spaces).

Definition advance (executables : Name → option Executable) (unset : Z → Z) (t : Z) (r : request) : M Kernel unit :=
  let! s := get in
  match threads s !! t with
  | Some (InUser, Some a) =>
      match r with
      | Fork funct => Fork_count t a funct
      | Exec name => Exec_count t a name
      | Exit => Exit_find t a
      | Memory m => modify (with_mem m)
      end
  | Some (InFork funct, Some a) => Fork_make t a funct
  | Some (InExec name, Some a) => Exec_make t a name
  | Some (AtThread vaddr, Some a) => kernel_thread unset t a vaddr
  | Some (AtExec name, None) => kernel_exec executables t name
  | Some (InLoad, Some a) => kernel_exec_count t a
  | Some (InExit p, Some a) => Exit_body t a p
  | Some (InUser, None) | Some (InFork _, None) | Some (InExec _, None) | Some (AtThread _, None)
  | Some (AtExec _, Some _) | Some (InLoad, None) | Some (InExit _, None) | Some (Finished, _) | None => ret ()
  end.

(** An [Exec] for which [copyin] answers -1. *)
Definition fails (t : Z) (r : request) (s : Kernel) : Z :=
  match threads s !! t, r with Some (InUser, Some _), Exec None => 1 | _, _ => 0 end.

(** From [StartProcess] in the thread main, any threads in any order, with [n]
    calls of [Exec] that failed, until the machine halts; the numbers of
    threads do not get near the end of an [int]. *)
Definition initial (m : Spaces) : Kernel := mkKernel {[0 := (InUser, None)]} 1 0 ∅ 0 [] 0 false m.

Inductive history (executables : Name → option Executable) (unset : Z → Z) (s0 : Kernel) : Z → Kernel → Prop :=
| hist_nil : history executables unset s0 0 s0
| hist_step n s t r s' : history executables unset s0 n s → halted s = false → threadIDCount s < 2 ^ 30 →
    advance executables unset t r s = Done ((), s') → history executables unset s0 (n + fails t r s) s'.

(** ** The invariant *)

(** What a thread counts for in the entry of space [a]: one, and two while
    [Fork_Syscall] has counted a thread that does not exist yet. *)
Definition weight (a : nat) (x : place * option nat) : Z :=
  if decide (x.2 = Some a) then match x.1 with Finished => 0 | InFork _ => 2 | _ => 1 end else 0.
(** What it counts for in [execCalled]. *)
Definition pending (x : place * option nat) : Z :=
  match x.1 with AtExec _ | InExec (Some _) | InLoad => 1 | _ => 0 end.

Definition process_of (s : Kernel) (a p : nat) : Prop := p ∈ entries s ∧ ∃ e, cells s !! p = Some e ∧ space e = a.

Definition good_place (s : Kernel) (x : place * option nat) : Prop :=
  match x with
  | (pl, Some a) => (a < spaceCount s)%nat ∧ (pl ≠ Finished → ∃ p, process_of s a p) ∧
      (∀ p, pl = InExit p → ∃ q, p = Some q ∧ process_of s a q)
  | (pl, None) => ∃ name, pl = AtExec name
  end.

(** [n] calls of Exec have failed. *)
Record counted (n : Z) (s : Kernel) : Prop := {
  ct_nodup : NoDup (entries s);
  ct_entries : ∀ p, p ∈ entries s → ∃ e, cells s !! p = Some e ∧ numThreads e = sum_of (weight (space e)) (threads s) ∧ 0 < numThreads e;
  ct_distinct : ∀ a p q, process_of s a p → process_of s a q → p = q;
  ct_places : ∀ t x, threads s !! t = Some x → 0 <= t < threadIDCount s ∧ good_place s x;
  ct_exec : execCalled s = s32 (sum_of pending (threads s) + n);
  ct_cells : ∀ p e, cells s !! p = Some e → (p < cellCount s)%nat ∧ (space e < spaceCount s)%nat;
  ct_size : Z.of_nat (size (threads s)) <= threadIDCount s
}.

Lemma weight_range a x : 0 <= weight a x <= 2.
Proof. unfold weight. case_decide; [destruct x.1|]; lia. Qed.
Lemma weight_self a pl : weight a (pl, Some a) = match pl with Finished => 0 | InFork _ => 2 | _ => 1 end.
Proof. unfold weight. by rewrite decide_True. Qed.
Lemma weight_other a b pl : a ≠ b → weight b (pl, Some a) = 0.
Proof. intros Hne. unfold weight. rewrite decide_False; [done|cbn; congruence]. Qed.
Lemma pending_range x : 0 <= pending x <= 1.
Proof. unfold pending. destruct x.1 as [| | | |[]| | |]; lia. Qed.

Lemma sum_weight_bound a n s : counted n s → 0 <= sum_of (weight a) (threads s) <= 2 * threadIDCount s.
Proof.
  intros Hc. pose proof (ct_size _ _ Hc). pose proof (sum_le (weight a) 2 (threads s) (λ _ y _, proj2 (weight_range a y))).
  split; [|lia]. apply sum_nonneg. intros j y _. apply weight_range.
Qed.

Lemma counted_cells n s p : counted n s → p ∈ entries s → is_Some (cells s !! p).
Proof. intros Hc Hp. destruct (ct_entries _ _ Hc p Hp) as (e & He & _). by eexists. Qed.

(** Threads move and entries are counted again. *)
Lemma counted_moved n n' s s' : counted n s → entries s' = entries s → cellCount s' = cellCount s → spaceCount s' = spaceCount s →
  (∀ p e, cells s !! p = Some e → ∃ e', cells s' !! p = Some e' ∧ space e' = space e ∧
     (p ∈ entries s → numThreads e = sum_of (weight (space e)) (threads s) → 0 < numThreads e →
      numThreads e' = sum_of (weight (space e)) (threads s') ∧ 0 < numThreads e')) →
  (∀ p e', cells s' !! p = Some e' → is_Some (cells s !! p)) →
  (∀ t x, threads s' !! t = Some x → 0 <= t < threadIDCount s' ∧ (threads s !! t = Some x ∨ good_place s x)) →
  execCalled s' = s32 (sum_of pending (threads s') + n') → Z.of_nat (size (threads s')) <= threadIDCount s' → counted n' s'.
Proof.
  intros Hc He Hcc Hsc Hcell Hback Hpl Hex Hsz.
  assert (∀ a p, process_of s a p ↔ process_of s' a p) as Hproc.
  { intros a p. unfold process_of. rewrite He. split; intros (Hp & e & Hpe & Ha); (split; [done|]).
    - destruct (Hcell p e Hpe) as (e' & H1 & H2 & _). exists e'. split; [done|congruence].
    - destruct (Hback p e Hpe) as [e0 He0]. destruct (Hcell p e0 He0) as (e' & H1 & H2 & _). exists e0. split; [done|congruence]. }
  assert (∀ x, good_place s x → good_place s' x) as Hgood.
  { intros [pl [a|]]; cbn; [|done]. rewrite Hsc. intros (H1 & H2 & H3). split; [done|]. split.
    - intros Hf. destruct (H2 Hf) as [p Hp]. exists p. by apply Hproc.
    - intros p Hp. destruct (H3 p Hp) as (q & ? & Hq). exists q. split; [done|]. by apply Hproc. }
  constructor; try done.
  - rewrite He. apply Hc.
  - intros p. rewrite He. intros Hp. destruct (ct_entries _ _ Hc p Hp) as (e & Hpe & Hn & H0).
    destruct (Hcell p e Hpe) as (e' & H1 & H2 & H3). exists e'. rewrite H2. split; [done|]. by apply H3.
  - intros a p q Hp%Hproc Hq%Hproc. by apply (ct_distinct _ _ Hc a).
  - intros t x Hx. destruct (Hpl t x Hx) as [Ht [Hold|Hnew]]; (split; [done|]); apply Hgood; [|done].
    by apply (ct_places _ _ Hc t).
  - intros p e' Hp. destruct (Hback p e' Hp) as [e0 He0]. destruct (Hcell p e0 He0) as (e1 & H1 & H2 & _).
    assert (e1 = e') as -> by congruence. rewrite Hcc, Hsc, H2. by apply (ct_cells _ _ Hc).
Qed.

(** The same, with the entries as they are. *)
Lemma counted_steps n n' s s' : counted n s → entries s' = entries s → cellCount s' = cellCount s → spaceCount s' = spaceCount s →
  cells s' = cells s → (∀ a, sum_of (weight a) (threads s') = sum_of (weight a) (threads s)) →
  (∀ t x, threads s' !! t = Some x → 0 <= t < threadIDCount s' ∧ (threads s !! t = Some x ∨ good_place s x)) →
  execCalled s' = s32 (sum_of pending (threads s') + n') → Z.of_nat (size (threads s')) <= threadIDCount s' → counted n' s'.
Proof.
  intros Hc He Hcc Hsc Hcell Hsum. apply (counted_moved n n' s s'); try done; rewrite Hcell; [|by eexists].
  intros p e Hp. exists e. split_and!; try done. intros _ Hn H0. by rewrite Hsum.
Qed.

(** One thread moves on, in its process. *)
Lemma counted_goto n n' s s' t pl pl' a : counted n s → threads s !! t = Some (pl, Some a) → pl ≠ Finished →
  (∀ p, pl' = InExit p → ∃ q, p = Some q ∧ process_of s a q) → weight a (pl', Some a) = weight a (pl, Some a) →
  threads s' = <[t := (pl', Some a)]> (threads s) → entries s' = entries s → cellCount s' = cellCount s →
  spaceCount s' = spaceCount s → cells s' = cells s → threadIDCount s' = threadIDCount s →
  execCalled s' = s32 (sum_of pending (threads s) - pending (pl, Some a) + pending (pl', Some a) + n') → counted n' s'.
Proof.
  intros Hc Ht Hpl Hexit Hw Hth He Hcc Hsc Hcell Hid Hex. destruct (ct_places _ _ Hc t _ Ht) as (Hr & Hlt & Hp & _).
  apply (counted_steps n n' s s'); try done.
  - intros b. rewrite Hth, (sum_update _ _ _ _ _ Ht). destruct (decide (b = a)) as [->|Hne]; [lia|].
    rewrite !weight_other by congruence. lia.
  - intros u x. rewrite Hth, Hid. intros [[<- <-]|[Hne Hx]]%lookup_insert_Some.
    + split; [done|]. right. cbn. split_and!; [done|intros _; by apply Hp|done].
    + split; [by apply (ct_places _ _ Hc u x)|by left].
  - rewrite Hth, (sum_update _ _ _ _ _ Ht), Hex. done.
  - rewrite Hth, map_size_insert_Some by (by eexists). rewrite Hid. apply Hc.
Qed.

(** ** The operations on the table *)

Lemma wp_get_cell E p e Q s : cells s !! p = Some e → Q e s → wp E (get_cell p) Q s.
Proof. intros He HQ. apply wp_bind, wp_get. rewrite He. by apply wp_ret. Qed.

Lemma find_spec E a l s (Q : option nat → Kernel → Prop) : (∀ p, p ∈ l → is_Some (cells s !! p)) →
  (∀ p, p ∈ l → (∃ e, cells s !! p = Some e ∧ space e = a) → Q (Some p) s) →
  ((∀ p e, p ∈ l → cells s !! p = Some e → space e ≠ a) → Q None s) → wp E (find_process a l) Q s.
Proof.
  induction l as [|p l IH]; intros Hc Hs Hn; cbn [find_process].
  - apply wp_ret, Hn. by intros p e ?%elem_of_nil.
  - destruct (Hc p ltac:(by left)) as [e He]. apply wp_bind. eapply wp_get_cell; [exact He|]. destruct (decide (space e = a)) as [Ha|Ha].
    + apply wp_ret, Hs; [by left|by exists e].
    + apply IH; [intros q Hq; apply Hc; by right|intros q Hq; apply Hs; by right|].
      intros Hno. apply Hn. intros q e' [->|Hq]%elem_of_cons Hq'; [congruence|eauto].
Qed.

(** The entry of a space that has one. *)
Lemma getProcessEntry_spec E n s a p (Q : option nat → Kernel → Prop) : counted n s → process_of s a p → Q (Some p) s →
  wp E (getProcessEntry a) Q s.
Proof.
  intros Hc Hp HQ. apply wp_bind, wp_get, find_spec; [intros q; by apply (counted_cells n)| |].
  - intros q Hq He. by rewrite (ct_distinct _ _ Hc a q p (conj Hq He) Hp).
  - intros Hno. destruct Hp as (Hp & e & He & Ha). by destruct (Hno p e Hp He).
Qed.

Lemma erase_spec E n a p s (Q : option (list nat) → Kernel → Prop) : counted n s → process_of s a p →
  (∀ l, NoDup l → (∀ q, q ∈ l ↔ q ∈ entries s ∧ q ≠ p) → length (entries s) = S (length l) → Q (Some l) s) →
  wp E (erase_process a (entries s)) Q s.
Proof.
  intros Hc Hp HQ.
  enough (∀ l R, NoDup l → (∀ q, q ∈ l → q ∈ entries s) → p ∈ l →
    (∀ l', NoDup l' → (∀ q, q ∈ l' ↔ q ∈ l ∧ q ≠ p) → length l = S (length l') → R (Some l') s) → wp E (erase_process a l) R s) as H.
  { apply H; [apply Hc|done|apply Hp|exact HQ]. }
  induction l as [|q l IH]; intros R Hnd Hin Hpl HR; [by apply elem_of_nil in Hpl|]. cbn [erase_process].
  apply NoDup_cons in Hnd as [Hq Hnd]. destruct (counted_cells n s q Hc) as [e He]; [apply Hin; by left|].
  apply wp_bind. eapply wp_get_cell; [exact He|]. destruct (decide (space e = a)) as [Ha|Ha].
  - assert (q = p) as -> by (apply (ct_distinct _ _ Hc a); [split; [apply Hin; by left|by exists e]|done]).
    apply wp_ret, HR; [done| |done]. intros r. rewrite elem_of_cons. split; [intros Hr; split; [by right|by intros ->]|].
    intros [[->|?] ?]; done.
  - assert (q ≠ p) as Hqp. { intros ->. destruct Hp as (_ & e' & He' & Ha'). congruence. }
    apply elem_of_cons in Hpl as [->|Hpl]; [done|]. apply wp_bind. apply IH; [done|intros r Hr; apply Hin; by right|done|].
    intros l' Hnd' Hl' Hlen. apply wp_ret. cbn. apply HR.
    + apply NoDup_cons. split; [by intros [? _]%Hl'|done].
    + intros r. rewrite !elem_of_cons, Hl'. split; [intros [->|[? ?]]; auto|intros [[->|?] ?]; auto].
    + cbn. by rewrite Hlen.
Qed.

Lemma wp_in_space {A} E a (op : M Spaces A) (Q : A → Kernel → Prop) s : E = any_fault →
  (∀ x m, Q x (with_mem m s)) → wp E (in_space a op) Q s.
Proof. intros -> HQ. unfold wp, in_space. by destruct (op _) as [[x m]|f]. Qed.

(** Counting one more or one less in the entry of a thread that is in it. *)
Lemma addThread_spec E s p e (Q : unit → Kernel → Prop) : cells s !! p = Some e → 0 <= numThreads e < 2 ^ 31 - 1 →
  Q () (with_cell p (mkProcess (space e) (numThreads e + 1)) s) → wp E (addThread (Some p)) Q s.
Proof.
  intros He Hr HQ. apply wp_bind, wp_ret, wp_bind. eapply wp_get_cell; [exact He|]. apply wp_modify.
  rewrite s32_exact by lia. exact HQ.
Qed.
Lemma removeThread_spec E s p e (Q : unit → Kernel → Prop) : cells s !! p = Some e → 1 < numThreads e < 2 ^ 31 →
  Q () (with_cell p (mkProcess (space e) (numThreads e - 1)) s) → wp E (removeThread (Some p)) Q s.
Proof.
  intros He Hr HQ. apply wp_bind, wp_ret, wp_bind. eapply wp_get_cell; [exact He|]. cbn zeta. apply wp_modify.
  rewrite s32_exact by lia. destruct (Z.ltb_spec (numThreads e - 1) 0); [lia|exact HQ].
Qed.

(** ** Each operation *)

(** A thread of a process that runs. *)
Lemma place_process n s t pl a : counted n s → threads s !! t = Some (pl, Some a) → pl ≠ Finished → ∃ p e, process_of s a p ∧
  cells s !! p = Some e ∧ space e = a ∧ numThreads e = sum_of (weight a) (threads s).
Proof.
  intros Hc Ht Hpl. destruct (ct_places _ _ Hc t _ Ht) as (_ & _ & Hp & _). destruct (Hp Hpl) as [p Hproc].
  destruct Hproc as (Hin & e & He & Ha). destruct (ct_entries _ _ Hc p Hin) as (e' & He' & Hn & _).
  assert (e' = e) as -> by congruence. exists p, e. rewrite Ha in Hn. split_and!; try done. split; [done|by exists e].
Qed.

Section operation.
Context (n : Z) (s : Kernel) (t : Z) (a : nat) (Hc : counted n s) (Hid : threadIDCount s < 2 ^ 30).

Lemma Fork_count_ok funct : threads s !! t = Some (InUser, Some a) →
  wp no_fault (Fork_count t a funct) (λ _ s', counted n s') s.
Proof using All.
  intros Ht. destruct (place_process n s t _ a Hc Ht) as (p & e & Hproc & He & Ha & Hn); [done|].
  pose proof (sum_weight_bound a n s Hc) as Hb.
  unfold Fork_count. apply wp_bind. eapply getProcessEntry_spec; [exact Hc|exact Hproc|].
  apply wp_bind. eapply addThread_spec; [exact He|lia|]. apply wp_modify.
  apply (counted_moved n n s); try done; cbn.
  - intros q e' He'. destruct (decide (q = p)) as [->|Hne].
    + rewrite lookup_insert_eq. assert (e' = e) as -> by congruence. eexists. split; [done|]. cbn. split; [done|].
      intros _ _ H0. rewrite (sum_update _ _ _ _ _ Ht), Ha, Hn, !weight_self. lia.
    + rewrite lookup_insert_ne by done. exists e'. split_and!; [done|done|]. intros Hq Hn' H0. split; [|done].
      rewrite (sum_update _ _ _ _ _ Ht), Hn'.
      assert (space e' ≠ a) by (intros Ha'; apply Hne, (ct_distinct _ _ Hc a); [split; [done|by exists e']|done]).
      rewrite !weight_other by congruence. lia.
  - intros q e'. destruct (decide (q = p)) as [->|Hne]; [by exists e|]. rewrite lookup_insert_ne by done. by exists e'.
  - destruct (ct_places _ _ Hc t _ Ht) as (Hr & Hlt & _). intros u x [[<- <-]|[Hne Hx]]%lookup_insert_Some.
    + split; [done|]. right. cbn. split_and!; [done|intros _; by exists p|done].
    + split; [by apply (ct_places _ _ Hc u x)|by left].
  - rewrite (sum_update _ _ _ _ _ Ht). rewrite (ct_exec _ _ Hc). f_equal. cbn. lia.
  - rewrite map_size_insert_Some by (by eexists). apply Hc.
Qed.

(** A new thread, while [t] moves on. *)
Lemma counted_new_thread pl pl' x : threads s !! t = Some (pl, Some a) → pl ≠ Finished → pl' ≠ Finished → (∀ p, pl' ≠ InExit p) →
  good_place s x → (∀ b, weight b (pl', Some a) + weight b x = weight b (pl, Some a)) →
  pending (pl', Some a) + pending x = pending (pl, Some a) → counted n (with_thread t (pl', Some a) (with_new_thread x s)).
Proof using Hc.
  intros Ht Hpl Hpl' Hex Hx Hw Hp. destruct (ct_places _ _ Hc t _ Ht) as (Hr & Hlt & Hproc & _).
  assert (threads s !! threadIDCount s = None) as Hfresh.
  { destruct (threads s !! threadIDCount s) as [y|] eqn:Hy; [|done]. destruct (ct_places _ _ Hc _ _ Hy) as [? _]. lia. }
  assert (<[threadIDCount s := x]> (threads s) !! t = Some (pl, Some a)) as Ht' by (rewrite lookup_insert_ne by lia; done).
  apply (counted_steps n n s); try done; cbn.
  - intros b. rewrite (sum_update _ _ _ _ _ Ht'), sum_insert by done. specialize (Hw b). lia.
  - intros u y [[<- <-]|[Hne [[<- <-]|[Hne' Hy]]%lookup_insert_Some]]%lookup_insert_Some.
    + split; [lia|]. right. cbn. split_and!; [done|intros _; by apply Hproc|intros p Hp'; by destruct (Hex p)].
    + split; [lia|by right].
    + destruct (ct_places _ _ Hc u y Hy) as [? _]. split; [lia|by left].
  - rewrite (sum_update _ _ _ _ _ Ht'), sum_insert by done. rewrite (ct_exec _ _ Hc). f_equal. lia.
  - rewrite map_size_insert_Some by (by eexists). rewrite map_size_insert_None by done. pose proof (ct_size _ _ Hc). lia.
Qed.

Lemma Fork_make_ok funct : threads s !! t = Some (InFork funct, Some a) → wp no_fault (Fork_make t a funct) (λ _ s', counted n s') s.
Proof using Hc.
  intros Ht. apply wp_bind, wp_modify, wp_modify. apply (counted_new_thread (InFork funct)); try done.
  - destruct (ct_places _ _ Hc t _ Ht) as (_ & Hlt & Hp & _). cbn. split_and!; [done|by intros _; apply Hp|done].
  - intros b. unfold weight. cbn. case_decide; lia.
Qed.

Lemma kernel_thread_ok unset vaddr : threads s !! t = Some (AtThread vaddr, Some a) →
  wp any_fault (kernel_thread unset t a vaddr) (λ _ s', counted n s') s.
Proof using Hc.
  intros Ht. apply wp_bind, wp_in_space; [done|]. intros [] m. apply wp_modify.
  apply (counted_goto n n s _ t (AtThread vaddr) InUser a); try done. cbn. rewrite (ct_exec _ _ Hc). f_equal. lia.
Qed.

Lemma Exec_count_ok name : threads s !! t = Some (InUser, Some a) →
  wp no_fault (Exec_count t a name) (λ _ s', counted (n + match name with None => 1 | Some _ => 0 end) s') s.
Proof using Hc.
  intros Ht. apply wp_bind, wp_modify, wp_modify.
  apply (counted_goto n _ s _ t InUser (InExec name) a); try done. cbn. rewrite (ct_exec _ _ Hc), s32_add. f_equal.
  unfold pending. cbn. destruct name; lia.
Qed.

Lemma Exec_make_ok name : threads s !! t = Some (InExec name, Some a) → wp no_fault (Exec_make t a name) (λ _ s', counted n s') s.
Proof using Hc.
  intros Ht. apply wp_bind. destruct name as [nm|]; [apply wp_modify, wp_modify|apply wp_ret, wp_modify].
  - apply (counted_new_thread (InExec (Some nm))); try done; [by exists nm|]. intros b. unfold weight. cbn. repeat case_decide; congruence || lia.
  - apply (counted_goto n _ s _ t (InExec None) InUser a); try done. cbn. rewrite (ct_exec _ _ Hc). f_equal. lia.
Qed.

Lemma kernel_exec_count_ok : threads s !! t = Some (InLoad, Some a) → wp no_fault (kernel_exec_count t a) (λ _ s', counted n s') s.
Proof using Hc.
  intros Ht. apply wp_bind, wp_modify, wp_modify.
  apply (counted_goto n _ s _ t InLoad InUser a); try done. cbn. rewrite (ct_exec _ _ Hc).
  replace (s32 (sum_of pending (threads s) + n) - 1) with (s32 (sum_of pending (threads s) + n) + (-1)) by lia. rewrite s32_add.
  f_equal. cbn. lia.
Qed.

Lemma Exit_find_ok : threads s !! t = Some (InUser, Some a) → wp no_fault (Exit_find t a) (λ _ s', counted n s') s.
Proof using Hc.
  intros Ht. destruct (place_process n s t _ a Hc Ht) as (p & e & Hproc & _); [done|].
  apply wp_bind. eapply getProcessEntry_spec; [exact Hc|exact Hproc|]. apply wp_modify.
  apply (counted_goto n _ s _ t InUser (InExit (Some p)) a); try done; [intros q [= <-]; by exists p|].
  cbn. rewrite (ct_exec _ _ Hc). f_equal. lia.
Qed.
End operation.

(** *** A new process *)

(** Its space is entered in the table under a new cell. *)
Lemma addProcess_spec E s a (Q : unit → Kernel → Prop) :
  (∀ p, p ∈ entries s → ∃ e, cells s !! p = Some e ∧ (p < cellCount s)%nat ∧ space e ≠ a) →
  Q () (with_entries (entries s ++ [cellCount s]) (with_new_cell (mkProcess a 1) s)) → wp E (addProcess a) Q s.
Proof.
  intros Hall HQ. apply wp_bind, wp_get, wp_bind, wp_put, wp_bind.
  assert (∀ p, p ∈ entries s → ∃ e, cells (with_new_cell (mkProcess a 1) s) !! p = Some e ∧ space e ≠ a) as Hnew.
  { intros p Hp. destruct (Hall p Hp) as (e & He & Hlt & Ha). exists e. cbn. by rewrite lookup_insert_ne by lia. }
  apply find_spec; [|intros p Hp (e' & He' & Ha)|intros _; by apply wp_modify].
  - intros p Hp. destruct (Hnew p Hp) as (e & He & _). by exists e.
  - destruct (Hnew p Hp) as (e & He & Hne). congruence.
Qed.

Definition loaded (t : Z) (s : Kernel) : Kernel :=
  with_entries (entries s ++ [cellCount s]) (with_new_cell (mkProcess (spaceCount s) 1)
    (with_thread t (InLoad, Some (spaceCount s)) (with_new_space s))).

Lemma loaded_ok n s t name : counted n s → threads s !! t = Some (AtExec name, None) → counted n (loaded t s).
Proof.
  intros Hc Ht. set (a := spaceCount s).
  assert (∀ p e, cells s !! p = Some e → p ≠ cellCount s ∧ space e ≠ a) as Hnew.
  { intros p e He. destruct (ct_cells _ _ Hc p e He). unfold a. lia. }
  assert (∀ p, p ∈ entries s → p ≠ cellCount s) as Hne by (intros p [e He]%(counted_cells n s p Hc); by apply (Hnew p e)).
  assert (∀ b, sum_of (weight b) (threads (loaded t s)) = sum_of (weight b) (threads s) + if decide (b = a) then 1 else 0) as Hsum.
  { intros b. cbn. rewrite (sum_update _ _ _ _ _ Ht). assert (weight b (AtExec name, None) = 0) as -> by (unfold weight; by rewrite decide_False).
    case_decide as Hb; [subst b; rewrite weight_self; lia|rewrite weight_other by done; lia]. }
  assert (∀ b p, process_of s b p → process_of (loaded t s) b p) as Hproc.
  { intros b p (Hp & e & He & Hb). split; [cbn; apply elem_of_app; by left|]. exists e. cbn. rewrite lookup_insert_ne; [done|].
    by apply not_eq_sym, (Hnew p e). }
  assert (∀ b p, process_of (loaded t s) b p → b = a ∧ p = cellCount s ∨ process_of s b p) as Hback.
  { intros b p (Hp & e & He & Hb). cbn in Hp, He. apply elem_of_app in Hp as [Hp|Hp%list_elem_of_singleton].
    - right. rewrite lookup_insert_ne in He by (by apply not_eq_sym, Hne). split; [done|by exists e].
    - left. subst p. rewrite lookup_insert_eq in He. by injection He as <-. }
  constructor.
  - cbn. apply NoDup_app. split_and!; [apply Hc| |apply NoDup_singleton]. intros p Hp Hp'%list_elem_of_singleton. by apply (Hne p).
  - intros p Hp. cbn in Hp. apply elem_of_app in Hp as [Hp|Hp%list_elem_of_singleton].
    + destruct (ct_entries _ _ Hc p Hp) as (e & He & Hn & H0). exists e. rewrite Hsum, decide_False by (by apply (Hnew p e)).
      cbn. rewrite lookup_insert_ne by (by apply not_eq_sym, Hne). split_and!; [done|lia|done].
    + subst p. eexists. cbn [cells loaded with_entries with_new_cell with_thread with_new_space]. rewrite lookup_insert_eq.
      split; [done|]. cbn [space numThreads]. fold a. rewrite Hsum, decide_True by done. split; [|lia]. rewrite sum_zero; [done|].
      intros u [pl [b|]] Hu; [|unfold weight; by rewrite decide_False]. destruct (ct_places _ _ Hc u _ Hu) as (_ & Hlt & _).
      apply weight_other. unfold a. lia.
  - intros b p q [[-> ->]|Hp]%Hback [[Hb ->]|Hq]%Hback; [done| | |by apply (ct_distinct _ _ Hc b)].
    + destruct Hq as (_ & e & He & Ha). by destruct (Hnew q e He).
    + subst b. destruct Hp as (_ & e & He & Ha). by destruct (Hnew p e He).
  - intros u x Hu. cbn in Hu. apply lookup_insert_Some in Hu as [[<- <-]|[_ Hu]].
    + split; [by apply (ct_places _ _ Hc t _ Ht)|]. cbn. fold a. split_and!; [lia| |done]. intros _. exists (cellCount s).
      split; [cbn; apply elem_of_app; right; by left|]. exists (mkProcess a 1). cbn. by rewrite lookup_insert_eq.
    + destruct (ct_places _ _ Hc u x Hu) as [Hr Hg]. split; [done|]. destruct x as [pl [b|]]; [|exact Hg].
      destruct Hg as (H1 & H2 & H3). cbn. split_and!; [lia| |].
      * intros Hf. destruct (H2 Hf) as [p Hp]. exists p. by apply Hproc.
      * intros p Hp. destruct (H3 p Hp) as (q & ? & Hq). exists q. split; [done|]. by apply Hproc.
  - cbn. rewrite (sum_update _ _ _ _ _ Ht), (ct_exec _ _ Hc). f_equal. cbn. lia.
  - intros p e. cbn. intros [[<- <-]|[_ He]]%lookup_insert_Some; [cbn; lia|]. destruct (ct_cells _ _ Hc p e He). lia.
  - cbn. rewrite map_size_insert_Some by (by eexists). apply Hc.
Qed.

Lemma counted_mem n s m : counted n s → counted n (with_mem m s).
Proof. intros []. by constructor. Qed.

Lemma wp_construct_space executables t name s (Q : nat → Kernel → Prop) :
  (∀ m, Q (spaceCount s) (with_mem m (with_new_space s))) → wp any_fault (construct_space executables t name) Q s.
Proof.
  intros HQ. unfold construct_space. destruct (executables name) as [x|]; [|done].
  apply wp_bind, wp_get, wp_bind, wp_put, wp_bind, wp_modify, wp_ret. apply HQ.
Qed.

Lemma kernel_exec_ok executables n s t name : counted n s → threads s !! t = Some (AtExec name, None) →
  wp any_fault (kernel_exec executables t name) (λ _ s', counted n s') s.
Proof.
  intros Hc Ht. apply wp_bind, wp_construct_space. intros m. apply wp_bind, wp_modify, wp_bind, addProcess_spec.
  - cbn. intros p Hp. destruct (counted_cells n s p Hc Hp) as [e He]. exists e. destruct (ct_cells _ _ Hc p e He).
    split_and!; [done|lia|lia].
  - apply wp_in_space; [done|]. intros [] m'. exact (counted_mem n _ m' (loaded_ok n s t name Hc Ht)).
Qed.

Lemma StartProcess_ok executables m name : wp any_fault (StartProcess executables 0 name) (λ _ s', counted 0 s') (initial m).
Proof.
  apply wp_bind, wp_construct_space. intros m1. apply wp_bind, wp_modify, wp_bind, wp_in_space; [done|]. intros [] m2.
  apply addProcess_spec; [intros p Hp; by apply elem_of_nil in Hp|]. cbn.
  set (s := with_entries _ _). assert (threads s = {[0 := (InUser, Some 0%nat)]}) as Hth by (cbn; apply insert_insert_eq).
  assert (∀ f, sum_of f (threads s) = f (InUser, Some 0%nat)) as Hsum.
  { intros f. rewrite Hth. apply (sum_only f _ 0); [|apply lookup_singleton_eq]. intros j y [<- _]%lookup_singleton_Some. done. }
  assert (∀ a p, process_of s a p ↔ a = 0%nat ∧ p = 0%nat) as Hproc.
  { intros a p. unfold process_of. cbn. rewrite list_elem_of_singleton. split.
    - intros [-> (e & He & <-)]. rewrite lookup_insert_eq in He. by injection He as <-.
    - intros [-> ->]. split; [done|]. eexists. by rewrite lookup_insert_eq. }
  constructor.
  - apply NoDup_singleton.
  - cbn. intros p ->%list_elem_of_singleton. eexists. rewrite lookup_insert_eq. split; [done|]. cbn [space numThreads].
    by rewrite Hsum, weight_self.
  - by intros a p q [_ ->]%Hproc [_ ->]%Hproc.
  - intros t x. rewrite Hth. intros [<- <-]%lookup_singleton_Some. split; [done|]. cbn. split_and!; [lia| |done].
    intros _. exists 0%nat. by apply Hproc.
  - by rewrite Hsum.
  - cbn. intros p e [[<- <-]|[_ He]]%lookup_insert_Some; [cbn; lia|by rewrite lookup_empty in He].
  - rewrite Hth, map_size_singleton. cbn. lia.
Qed.

(** *** Exit *)

(** Another thread of the process, or any other thread at all. *)
Definition others (s : Kernel) (t : Z) (a : nat) : Prop := ∃ u pl, u ≠ t ∧ threads s !! u = Some (pl, Some a) ∧ pl ≠ Finished.
Definition last_thread (s : Kernel) (t : Z) : Prop := ∀ u x, u ≠ t → threads s !! u = Some x → x.1 = Finished.

Section exit.
Context (n : Z) (s : Kernel) (t : Z) (a q : nat) (e : ProcessTableEntry) (Hc : counted n s).
Context (Ht : threads s !! t = Some (InExit (Some q), Some a)) (Hq : process_of s a q) (He : cells s !! q = Some e).

Lemma exit_entry : space e = a ∧ numThreads e = sum_of (weight a) (threads s) ∧ 0 < numThreads e.
Proof using Hc Hq He Ht.
  destruct Hq as (Hin & e' & He' & Ha). destruct (ct_entries _ _ Hc q Hin) as (e2 & He2 & Hn & H0).
  assert (e' = e) as -> by congruence. assert (e2 = e) as -> by congruence. by rewrite Ha in Hn.
Qed.

Lemma exit_others : 1 < numThreads e ↔ others s t a.
Proof using Hc Hq He Ht.
  destruct exit_entry as (_ & -> & _). split.
  - intros Hgt. assert (¬ (∀ u x, threads s !! u = Some x → u ≠ t → weight a x = 0)) as Hno.
    { intros Hz. rewrite (sum_only _ _ t _ Hz Ht), weight_self in Hgt. lia. }
    destruct (decide (map_Forall (λ u x, u = t ∨ weight a x = 0) (threads s))) as [Hall|Hall].
    { destruct Hno. intros u x Hu Hne. destruct (Hall u x Hu); [done|done]. }
    apply map_not_Forall in Hall; [|intros u x; exact _]. destruct Hall as (u & [pl sp] & Hu & Hn).
    exists u, pl. assert (weight a (pl, sp) ≠ 0) as Hw by tauto. unfold weight in Hw. case_decide as Hsp; [|done].
    cbn in Hsp, Hw. subst sp. split_and!; [tauto|done|by intros ->].
  - intros (u & pl & Hne & Hu & Hf). pose proof (sum_ge2 (weight a) _ _ _ _ _ (λ _ y _, proj1 (weight_range a y)) Ht Hu (not_eq_sym Hne)) as H2.
    rewrite !weight_self in H2. destruct pl; try done; lia.
Qed.

Lemma exit_last : 0 <= n < 2 ^ 30 → threadIDCount s < 2 ^ 30 →
  (numThreads e =? 1) && (getNumProcesses s =? 1) && (execCalled s =? 0) = true ↔ last_thread s t ∧ n = 0.
Proof using Hc Hq He Ht.
  intros Hn Hid. destruct exit_entry as (_ & Hcount & H0). pose proof exit_others as Hoth.
  assert (0 <= sum_of pending (threads s) <= threadIDCount s) as Hp.
  { split; [apply sum_nonneg; intros; apply pending_range|]. pose proof (ct_size _ _ Hc).
    pose proof (sum_le pending 1 (threads s) (λ _ y _, proj2 (pending_range y))). lia. }
  rewrite !andb_true_iff, !Z.eqb_eq, (ct_exec _ _ Hc), s32_exact by lia. unfold getNumProcesses. split.
  - intros [[H1 H2] H3]. split; [|lia]. intros u [pl sp] Hne Hu. cbn.
    destruct (ct_places _ _ Hc u _ Hu) as [_ Hg]. destruct sp as [b|].
    + assert ({pl = Finished} + {pl ≠ Finished}) as [|Hf] by (destruct pl; (by left) || by right). { done. }
      destruct Hg as (_ & Hproc & _). destruct (Hproc Hf) as [p Hpb]. assert (p = q) as ->.
      { destruct (entries s) as [|r [|r' l]] eqn:Hl; [done| |cbn in H2; lia]. destruct Hpb as [Hp1 _]. destruct Hq as [Hq1 _].
        rewrite Hl in Hp1, Hq1. apply list_elem_of_singleton in Hp1, Hq1. congruence. }
      assert (b = a) as ->. { destruct Hpb as (_ & e1 & He1 & <-). destruct Hq as (_ & e2 & He2 & <-). congruence. }
      assert (1 < numThreads e); [|lia]. apply Hoth. by exists u, pl.
    + destruct Hg as [name ->]. pose proof (sum_ge pending _ _ _ (λ _ y _, proj1 (pending_range y)) Hu) as Hge. cbn in Hge. lia.
  - intros [Hlast ->]. assert (∀ b u x, threads s !! u = Some x → u ≠ t → weight b x = 0) as Hw.
    { intros b u [pl sp] Hu Hne. specialize (Hlast u _ Hne Hu) as Hf. cbn in Hf. subst pl. unfold weight. by case_decide. }
    split_and!.
    + rewrite Hcount, (sum_only _ _ t _ (Hw a) Ht). apply weight_self.
    + assert (∀ p, p ∈ entries s → p = q) as Hall.
      { intros p Hpe. destruct (ct_entries _ _ Hc p Hpe) as (e1 & He1 & Hn1 & H1). destruct (decide (space e1 = a)) as [Ha|Ha].
        - apply (ct_distinct _ _ Hc a); [split; [done|by exists e1]|done].
        - rewrite (sum_only _ _ t _ (Hw (space e1)) Ht), weight_other in Hn1 by done. lia. }
      pose proof (ct_nodup _ _ Hc) as Hnd. destruct Hq as [Hin _].
      destruct (entries s) as [|r [|r' l]]; [by apply elem_of_nil in Hin|done|].
      apply NoDup_cons in Hnd as [Hr _]. destruct Hr. rewrite (Hall r) by (by left). rewrite (Hall r') by (right; by left). by left.
    + rewrite sum_zero; [done|]. intros u x Hu. destruct (decide (u = t)) as [->|Hne]; [rewrite Ht in Hu; by injection Hu as <-|].
      specialize (Hlast u x Hne Hu). unfold pending. by rewrite Hlast.
Qed.
End exit.

(** A thread that is not the last of its process leaves. *)
Lemma leave_ok n s t a q e m : counted n s → threads s !! t = Some (InExit (Some q), Some a) → process_of s a q →
  cells s !! q = Some e → 1 < numThreads e →
  counted n (with_thread t (Finished, Some a) (with_mem m (with_cell q (mkProcess (space e) (numThreads e - 1)) s))).
Proof.
  intros Hc Ht Hq He H1. destruct (exit_entry n s t a q e Hc Ht Hq He) as (Ha & Hn & _).
  apply (counted_moved n n s); try done; cbn.
  - intros p e' He'. destruct (decide (p = q)) as [->|Hne].
    + rewrite lookup_insert_eq. assert (e' = e) as -> by congruence. eexists. split; [done|]. cbn. split; [done|].
      intros _ _ H0. rewrite (sum_update _ _ _ _ _ Ht), Ha, Hn, !weight_self. lia.
    + rewrite lookup_insert_ne by done. exists e'. split_and!; [done|done|]. intros Hp Hn' H0. split; [|done].
      rewrite (sum_update _ _ _ _ _ Ht), Hn'.
      assert (space e' ≠ a) by (intros Ha'; apply Hne, (ct_distinct _ _ Hc a); [split; [done|by exists e']|done]).
      rewrite !weight_other by congruence. lia.
  - intros p e'. destruct (decide (p = q)) as [->|Hne]; [by exists e|]. rewrite lookup_insert_ne by done. by exists e'.
  - destruct (ct_places _ _ Hc t _ Ht) as (Hr & Hlt & _). intros u x [[<- <-]|[Hne Hx]]%lookup_insert_Some.
    + split; [done|]. by right.
    + split; [by apply (ct_places _ _ Hc u x)|by left].
  - rewrite (sum_update _ _ _ _ _ Ht), (ct_exec _ _ Hc). f_equal. cbn. lia.
  - rewrite map_size_insert_Some by (by eexists). apply Hc.
Qed.

(** The last thread of a process leaves, with its entry. *)
Lemma close_ok n s t a q e m l : counted n s → threads s !! t = Some (InExit (Some q), Some a) → process_of s a q →
  cells s !! q = Some e → ¬ others s t a → NoDup l → (∀ p, p ∈ l ↔ p ∈ entries s ∧ p ≠ q) →
  counted n (with_thread t (Finished, Some a) (with_mem m (with_entries l s))).
Proof.
  intros Hc Ht Hq He Hno Hnd Hl. set (s' := with_thread _ _ _).
  assert (∀ b p, process_of s' b p ↔ process_of s b p ∧ p ≠ q) as Hproc.
  { intros b p. unfold process_of. cbn. rewrite Hl. tauto. }
  constructor; [exact Hnd| | | | |apply Hc|].
  - cbn. intros p [Hp Hpq]%Hl. destruct (ct_entries _ _ Hc p Hp) as (e' & He' & Hn & H0). exists e'. split_and!; [done| |done].
    rewrite (sum_update _ _ _ _ _ Ht), Hn.
    assert (space e' ≠ a) by (intros Ha'; apply Hpq, (ct_distinct _ _ Hc a); [split; [done|by exists e']|done]).
    rewrite !weight_other by congruence. lia.
  - intros b p r [Hp _]%Hproc [Hr _]%Hproc. by apply (ct_distinct _ _ Hc b).
  - destruct (ct_places _ _ Hc t _ Ht) as (Hr & Hlt & _). intros u x. cbn. intros [[<- <-]|[Hne Hx]]%lookup_insert_Some.
    + split; [done|]. cbn. split_and!; [done|done|done].
    + destruct (ct_places _ _ Hc u x Hx) as [Hru Hg]. split; [done|]. destruct x as [pl [b|]]; [|exact Hg].
      destruct Hg as (G1 & G2 & G3). cbn.
      assert (pl ≠ Finished → ∀ p, process_of s b p → process_of s' b p) as Hkeep.
      { intros Hf p Hp. apply Hproc. split; [done|]. intros ->. apply Hno. exists u, pl. split_and!; [done| |done].
        destruct Hp as (_ & e1 & He1 & Hb). destruct Hq as (_ & e2 & He2 & Ha). assert (b = a) as -> by congruence. done. }
      split_and!; [done| |].
      * intros Hf. destruct (G2 Hf) as [p Hp]. exists p. by apply Hkeep.
      * intros p Hp. destruct (G3 p Hp) as (r & Hr' & Hpr). exists r. split; [done|]. apply Hkeep; [by rewrite Hp|done].
  - cbn. rewrite (sum_update _ _ _ _ _ Ht), (ct_exec _ _ Hc). f_equal. cbn. lia.
  - cbn. rewrite map_size_insert_Some by (by eexists). apply Hc.
Qed.

(** What Exit leaves: the machine halts, or the thread is finished and its
    process is in the table exactly when another thread of it is left. *)
Record exited_state (n : Z) (t : Z) (a : nat) (s s' : Kernel) : Prop := {
  ex_halted : halted s' = true ↔ last_thread s t ∧ n = 0;
  ex_counted : counted n s';
  ex_finished : halted s' = false → threads s' !! t = Some (Finished, Some a) ∧ ((∃ p, process_of s' a p) ↔ others s t a)
}.

Lemma Exit_body_ok n s t a p : counted n s → halted s = false → 0 <= n < 2 ^ 30 → threadIDCount s < 2 ^ 30 →
  threads s !! t = Some (InExit p, Some a) → wp any_fault (Exit_body t a p) (λ _ s', exited_state n t a s s') s.
Proof.
  intros Hc Hh Hn Hid Ht. destruct (ct_places _ _ Hc t _ Ht) as (_ & _ & _ & Hex). destruct (Hex p eq_refl) as (q & -> & Hq).
  pose proof Hq as (Hqe & e & He & Ha). destruct (exit_entry n s t a q e Hc Ht Hq He) as (_ & Hcount & H0).
  pose proof (sum_weight_bound a n s Hc) as Hb. pose proof (exit_others n s t a q e Hc Ht Hq He) as Hoth.
  pose proof (exit_last n s t a q e Hc Ht Hq He Hn Hid) as Hlast.
  apply wp_bind, wp_ret, wp_bind. eapply wp_get_cell; [exact He|]. apply wp_bind, wp_get. destruct (Z.ltb_spec 1 (numThreads e)) as [H1|H1].
  - assert (¬ (last_thread s t ∧ n = 0)) as Hnl. { intros (H & _)%Hlast%andb_true_iff. lia. }
    apply wp_bind. eapply removeThread_spec; [exact He|lia|]. apply wp_bind, wp_in_space; [done|]. intros [] m. apply wp_modify.
    constructor; [|by apply leave_ok|].
    + cbn. rewrite Hh. by split.
    + intros _. split; [cbn; apply lookup_insert_eq|]. split; [by intros _; apply Hoth|]. intros _. exists q. split; [done|].
      eexists. cbn. rewrite lookup_insert_eq. done.
  - assert (¬ others s t a) as Hno by (intros ?%Hoth; lia). destruct ((_ && _) && _) eqn:Hcond.
    + apply wp_modify. constructor; [|destruct Hc; by constructor|done]. cbn. split; [intros _; by apply Hlast|done].
    + assert (¬ (last_thread s t ∧ n = 0)) as Hnl by (intros H%Hlast; discriminate).
      apply wp_bind. apply wp_bind, wp_get, wp_bind. eapply erase_spec; [exact Hc|exact Hq|]. intros l Hnd Hl Hlen.
      apply wp_bind, wp_modify, wp_ret, wp_bind, wp_in_space; [done|]. intros [] m. apply wp_modify.
      constructor; [|by eapply close_ok|].
      * cbn. rewrite Hh. by split.
      * intros _. split; [cbn; apply lookup_insert_eq|]. split; [|done]. intros (r & Hr & e' & He' & Ha').
        cbn in Hr. apply Hl in Hr as [Hr Hne]. destruct Hne. apply (ct_distinct _ _ Hc a); [split; [done|by exists e']|done].
Qed.

(** *** Histories *)

Lemma wp_any_weaken {A} E (m : M Kernel A) Q s : wp E m Q s → wp any_fault m Q s.
Proof. unfold wp. by destruct (m s) as [[]|]. Qed.

Lemma advance_ok executables unset n s t r : counted n s → halted s = false → 0 <= n < 2 ^ 30 → threadIDCount s < 2 ^ 30 →
  wp any_fault (advance executables unset t r) (λ _ s', counted (n + fails t r s) s') s.
Proof.
  intros Hc Hh Hn Hid. apply wp_bind, wp_get. unfold fails.
  destruct (threads s !! t) as [[pl sp]|] eqn:Ht; [|apply wp_ret; by rewrite Z.add_0_r].
  destruct pl as [v|nm| |f|nm| |p|], sp as [a|]; rewrite ?Z.add_0_r; try (apply wp_ret; by rewrite ?Z.add_0_r).
  - by apply kernel_thread_ok.
  - by apply kernel_exec_ok.
  - destruct r as [f|[nm|]| |m]; rewrite ?Z.add_0_r.
    + eapply wp_any_weaken. by apply Fork_count_ok.
    + pose proof (Exec_count_ok n s t a Hc (Some nm) Ht) as H. rewrite Z.add_0_r in H. exact (wp_any_weaken _ _ _ _ H).
    + exact (wp_any_weaken _ _ _ _ (Exec_count_ok n s t a Hc None Ht)).
    + eapply wp_any_weaken. by apply Exit_find_ok.
    + apply wp_modify. by apply counted_mem.
  - eapply wp_any_weaken. by apply (Fork_make_ok n s t a Hc f).
  - eapply wp_any_weaken. by apply (Exec_make_ok n s t a Hc nm).
  - eapply wp_any_weaken. by apply kernel_exec_count_ok.
  - eapply wp_mono; [by apply (Exit_body_ok n)|]. cbn. intros _ s' H. apply H.
Qed.

Lemma fails_range t r s : 0 <= fails t r s <= 1.
Proof. unfold fails. destruct (threads s !! t) as [[[] []]|], r as [|[]| |]; lia. Qed.

Lemma history_nonneg executables unset s0 n s : history executables unset s0 n s → 0 <= n.
Proof. induction 1 as [|n s t r s' _ IH _ _ _]; [done|]. pose proof (fails_range t r s). lia. Qed.

Lemma history_counted executables unset s0 n s : counted 0 s0 → history executables unset s0 n s → n < 2 ^ 30 → counted n s.
Proof.
  intros H0. induction 1 as [|n s t r s' Hh IH Hhalt Hid Hrun]; [done|]. intros Hn. pose proof (fails_range t r s).
  pose proof (history_nonneg _ _ _ _ _ Hh).
  exact (wp_done _ _ _ _ _ _ (advance_ok executables unset n s t r (IH ltac:(lia)) Hhalt ltac:(lia) Hid) Hrun).
Qed.

(** *** Halting *)

Definition up (s : Kernel) : Prop := halted s = false.

Lemma in_space_up {A} a (op : M Spaces A) : stays up (in_space a op).
Proof. intros s x s' Hs. unfold in_space. destruct (op _) as [[y m]|f]; [|done]. by intros [= <- <-]. Qed.
Lemma find_up a l : stays up (find_process a l).
Proof. induction l as [|p l IH]; cbn [find_process]; unfold get_cell; stays. Qed.
#[local] Hint Resolve in_space_up find_up : stays.

Lemma advance_up executables unset t r s s' : up s → advance executables unset t r s = Done ((), s') → (∀ p a, threads s !! t ≠ Some (InExit p, Some a)) → up s'.
Proof.
  intros Hs Hrun Hno. unfold advance, bind at 1, get in Hrun.
  assert (∀ op : M Kernel unit, op s = Done ((), s') → stays up op → up s') as Hop by (intros op H1 H2; exact (H2 s () s' Hs H1)).
  destruct (threads s !! t) as [[pl sp]|]; [|by apply (Hop _ Hrun), stays_ret].
  destruct pl as [v|nm| |f|nm| |p|], sp as [a|]; try (by apply (Hop _ Hrun), stays_ret); try (by destruct (Hno p a));
    try (destruct r); apply (Hop _ Hrun); unfold kernel_thread, kernel_exec, Fork_count, Fork_make, Exec_count, Exec_make, Exit_find,
    kernel_exec_count, construct_space, addProcess, getProcessEntry, addThread, deref, get_cell, goto; stays.
Qed.

Lemma history_up executables unset s0 n s : counted 0 s0 → up s0 → history executables unset s0 n s → 0 < n < 2 ^ 30 → up s.
Proof.
  intros Hc0 Hu. induction 1 as [|n s t r s' Hh IH Hhalt Hid Hrun]; [done|]. intros Hn.
  pose proof (fails_range t r s) as Hf. pose proof (history_nonneg _ _ _ _ _ Hh) as Hn0.
  assert ({x | threads s !! t = Some (InExit x.1, Some x.2)} + {∀ p a, threads s !! t ≠ Some (InExit p, Some a)}) as [[[p a] Ht]|Hno].
  { destruct (threads s !! t) as [[[] [a|]]|]; try (by right). left. by exists (p, a). }
  - assert (fails t r s = 0) as Hz by (unfold fails; by rewrite Ht). rewrite Hz in Hn.
    pose proof (history_counted _ _ _ _ _ Hc0 Hh ltac:(lia)) as Hc.
    assert (Exit_body t a p s = Done ((), s')) as Hbody by (unfold advance, bind at 1, get in Hrun; by rewrite Ht in Hrun).
    pose proof (wp_done _ _ _ _ _ _ (Exit_body_ok n s t a p Hc Hhalt ltac:(lia) Hid Ht) Hbody) as [Hx _ _].
    unfold up. destruct (halted s'); [|done]. destruct (proj1 Hx eq_refl). lia.
  - by apply (advance_up executables unset t r s).
Qed.

Lemma start_up executables m name s0 : StartProcess executables 0 name (initial m) = Done ((), s0) → up s0.
Proof.
  assert (stays up (StartProcess executables 0 name)) as H by (unfold StartProcess, construct_space, addProcess, goto; stays).
  by apply H.
Qed.

(** *** Exit returns *)

Lemma Exit_body_halts n s t a p : counted n s → 0 <= n < 2 ^ 30 → threadIDCount s < 2 ^ 30 → threads s !! t = Some (InExit p, Some a) →
  last_thread s t → n = 0 → Exit_body t a p s = Done ((), with_halted s).
Proof.
  intros Hc Hn Hid Ht Hl H0. destruct (ct_places _ _ Hc t _ Ht) as (_ & _ & _ & Hex). destruct (Hex p eq_refl) as (q & -> & Hq).
  pose proof Hq as (Hqe & e & He & Ha). pose proof (proj2 (exit_last n s t a q e Hc Ht Hq He Hn Hid) (conj Hl H0)) as Hcond.
  unfold Exit_body, get_cell, bind, deref, get, ret. rewrite He, Hcond.
  destruct (Z.ltb_spec 1 (numThreads e)); [apply andb_true_iff in Hcond as [[]%andb_true_iff _]; lia|done].
Qed.

(** With its stack on record, a thread that is not the last leaves, and its
    pages are given up. *)
Lemma Exit_body_leaves n s t a p ps : counted n s → threadIDCount s < 2 ^ 30 → threads s !! t = Some (InExit p, Some a) → others s t a →
  live_inv (vm (mem s)) → currentSpace (vm (mem s)) = a → threadTable (mem s) a !! t = Some ps → length ps = 8%nat →
  (∀ v, v ∈ ps → 0 <= v < numPages (vm (mem s)) a) →
  wp no_fault (Exit_body t a p) (λ _ s', left ps (mem s) (mem s') ∧ threads s' !! t = Some (Finished, Some a)) s.
Proof.
  intros Hc Hid Ht Hoth Hi Hcs Hps Hl Hr. destruct (ct_places _ _ Hc t _ Ht) as (_ & _ & _ & Hex). destruct (Hex p eq_refl) as (q & -> & Hq).
  pose proof Hq as (Hqe & e & He & Ha). pose proof (proj2 (exit_others n s t a q e Hc Ht Hq He) Hoth) as H1.
  destruct (exit_entry n s t a q e Hc Ht Hq He) as (_ & Hcount & _). pose proof (sum_weight_bound a n s Hc) as Hb.
  apply wp_bind, wp_ret, wp_bind. eapply wp_get_cell; [exact He|]. apply wp_bind, wp_get. destruct (Z.ltb_spec 1 (numThreads e)) as [_|]; [|lia].
  apply wp_bind. eapply removeThread_spec; [exact He|lia|]. apply wp_bind. unfold wp at 1, in_space. cbn [mem with_cell].
  assert (mkSpaces (with_currentSpace a (vm (mem s))) (threadTable (mem s)) = mem s) as -> by (rewrite <- Hcs; by destruct (mem s) as [[]]).
  destruct (wp_no_fault _ _ _ (AddrSpace_Exit_spec t ps (mem s) Hi ltac:(by rewrite Hcs) Hl ltac:(by rewrite Hcs))) as ([] & m & -> & Hleft).
  apply wp_modify. split; [exact Hleft|]. cbn. apply lookup_insert_eq.
Qed.
End processes.

Arguments Kernel : clear implicits.
Arguments place : clear implicits.
Arguments request : clear implicits.

(** ** Theorems *)

Section theorems.
Context {Name : Type} (executables : Name → option Executable) (unset : Z → Z).

(** From the start of the first program, with [n] calls of Exec that failed. *)
Definition reached (n : Z) (s : Kernel Name) : Prop :=
  ∃ name m s0, StartProcess executables 0 name (initial m) = Done ((), s0) ∧ history executables unset s0 n s ∧ n < 2 ^ 30.

Lemma reached_counted n s : reached n s → counted n s ∧ 0 <= n < 2 ^ 30.
Proof.
  intros (name & m & s0 & H0 & Hh & Hn). split; [|split; [by eapply history_nonneg|done]].
  apply (history_counted _ _ _ _ _ (wp_done _ _ _ _ _ _ (StartProcess_ok executables m name) H0) Hh Hn).
Qed.
End theorems.

(** C18: at any time the process table has one entry for each
    address space in which a thread is not finished, and no other; the entry
    counts these threads, and the ones Fork has counted and not made yet;
    [execCalled] is the number of programs about to start, plus one for every
    Exec that [copyin] failed; and Fork finds the entry of its process. *)
Theorem process_table_exact {Name} executables unset n (s : Kernel Name) : reached executables unset n s →
  (∀ a, (∃ p, process_of s a p) ↔ ∃ t pl, threads s !! t = Some (pl, Some a) ∧ pl ≠ Finished) ∧
  (∀ a p e, process_of s a p → cells s !! p = Some e → numThreads e = sum_of (weight a) (threads s)) ∧
  execCalled s = s32 (sum_of pending (threads s) + n) ∧
  (∀ t a funct, threads s !! t = Some (InUser, Some a) → threadIDCount s < 2 ^ 30 → ∃ s', Fork_count t a funct s = Done ((), s')).
Proof.
  intros [Hc Hn]%reached_counted. split_and!; [|intros a p e|apply Hc|].
  - intros a. split; [intros [p (Hp & e & He & <-)]|intros (t & pl & Ht & Hpl)].
    + destruct (ct_entries _ _ Hc p Hp) as (e' & He' & Hn' & H0). assert (e' = e) as -> by congruence.
      destruct (sum_positive (weight (space e)) (threads s) (λ _ y _, proj1 (weight_range _ y)) ltac:(lia)) as (t & [pl sp] & Ht & Hw).
      exists t, pl. unfold weight in Hw. case_decide as Hsp; [|lia]. cbn in Hsp, Hw. subst sp. split; [done|]. intros ->. lia.
    + destruct (place_process n s t pl a Hc Ht Hpl) as (p & e & Hproc & _). by exists p.
  - intros (Hp & e' & He' & Ha) He. destruct (ct_entries _ _ Hc p Hp) as (e2 & He2 & Hn2 & _).
    assert (e2 = e) as -> by congruence. assert (e' = e) as -> by congruence. by rewrite Ha in Hn2.
  - intros t a funct Ht Hid. destruct (wp_no_fault _ _ _ (Fork_count_ok n s t a Hc Hid funct Ht)) as ([] & s' & Hd & _).
    by exists s'.
Qed.

(** C19: Exit halts the machine exactly when every other thread
    has finished and no Exec ever failed; otherwise the thread is finished, and
    the entry of its process stays exactly when another thread of it is left.
    A thread that is not the last of its process and whose stack is on record
    does leave, and gives up the pages of its stack. *)
Theorem Exit_halts_last {Name} executables unset n (s : Kernel Name) t r p a : reached executables unset n s →
  halted s = false → threadIDCount s < 2 ^ 30 → threads s !! t = Some (InExit p, Some a) →
  (last_thread s t ∧ n = 0 → advance executables unset t r s = Done ((), with_halted s)) ∧
  (∀ s', advance executables unset t r s = Done ((), s') → (halted s' = true ↔ last_thread s t ∧ n = 0) ∧
     (halted s' = false → threads s' !! t = Some (Finished, Some a) ∧ ((∃ q, process_of s' a q) ↔ others s t a))) ∧
  (∀ ps, others s t a → live_inv (vm (mem s)) → currentSpace (vm (mem s)) = a → threadTable (mem s) a !! t = Some ps →
     length ps = 8%nat → (∀ v, v ∈ ps → 0 <= v < numPages (vm (mem s)) a) →
     ∃ s', advance executables unset t r s = Done ((), s') ∧ left ps (mem s) (mem s')).
Proof.
  intros [Hc Hn]%reached_counted Hh Hid Ht.
  assert (advance executables unset t r s = Exit_body t a p s) as -> by (unfold advance, bind at 1, get; by rewrite Ht).
  split_and!.
  - intros [Hl H0]. by apply (Exit_body_halts n).
  - intros s' Hrun. destruct (wp_done _ _ _ _ _ _ (Exit_body_ok n s t a p Hc Hh Hn Hid Ht) Hrun). done.
  - intros ps Ho Hi Hcs Hps Hl Hr.
    destruct (wp_no_fault _ _ _ (Exit_body_leaves n s t a p ps Hc Hid Ht Ho Hi Hcs Hps Hl Hr)) as ([] & s' & Hd & Hleft & _).
    by exists s'.
Qed.

(** Where [copyin] answers -1, as its comment says it does for a bad pointer (in
    this code it never does, UserMem), the count of Exec stays, and the machine
    does not halt any more, not even when every thread has exited. *)
Theorem failed_exec_hangs {Name} executables unset n (s : Kernel Name) : reached executables unset n s → 0 < n → halted s = false.
Proof.
  intros (name & m & s0 & H0 & Hh & Hn) Hpos.
  apply (history_up executables unset s0 n s); [|by eapply start_up, H0|done|lia].
  exact (wp_done _ _ _ _ _ _ (StartProcess_ok executables m name) H0).
Qed.

(** ** Examples *)

Definition ex_files : unit → option Executable := λ _, Some (mkExecutable example_file 256 0 0 40).
Definition state_of (o : outcome (unit * Kernel unit)) (s : Kernel unit) : Kernel unit :=
  match o with Done (_, s') => s' | Fault _ => s end.
Definition is_done (o : outcome (unit * Kernel unit)) : bool := match o with Done _ => true | Fault _ => false end.
Definition ex_start : Kernel unit := state_of (StartProcess ex_files 0 tt (initial ex_spaces)) (initial ex_spaces).
Definition next (r : request unit) (s : Kernel unit) : Kernel unit := state_of (advance ex_files (λ _, 0) 0 r s) s.

Lemma ex_start_reached : reached ex_files (λ _, 0) 0 ex_start.
Proof.
  exists tt, ex_spaces, ex_start. split; [|split; [constructor|done]].
  assert (is_done (StartProcess ex_files 0 tt (initial ex_spaces)) = true) as Hd by (vm_compute; reflexivity).
  unfold ex_start. by destruct (StartProcess ex_files 0 tt (initial ex_spaces)) as [[[] s]|].
Qed.

Lemma ex_next n s r : reached ex_files (λ _, 0) n s → is_done (advance ex_files (λ _, 0) 0 r s) = true →
  halted s = false → threadIDCount s < 2 ^ 30 → n + fails 0 r s < 2 ^ 30 → reached ex_files (λ _, 0) (n + fails 0 r s) (next r s).
Proof.
  intros (name & m & s0 & H0 & Hh & Hn) Hd Hhalt Hid Hlt. exists name, m, s0. split_and!; [done| |done].
  apply (hist_step _ _ _ n s 0 r); [done..|]. unfold next. by destruct (advance _ _ 0 r s) as [[[] s']|].
Qed.

Definition ex_forking : Kernel unit := next (Fork 64) ex_start.
Lemma process_table_exact_witness : reached ex_files (λ _, 0) 0 ex_forking ∧
  (∀ e, cells ex_forking !! 0%nat = Some e → numThreads e = sum_of (weight 0) (threads ex_forking)) ∧
  sum_of (weight 0) (threads ex_forking) = 2.
Proof.
  assert (reached ex_files (λ _, 0) 0 ex_forking) as Hr.
  { apply (ex_next 0 ex_start (Fork 64) ex_start_reached); vm_compute; reflexivity. }
  split; [exact Hr|]. split; [|vm_compute; reflexivity].
  intros e. apply (proj1 (proj2 (process_table_exact _ _ 0 ex_forking Hr))).
  assert (entries ex_forking = [0%nat] ∧ (space <$> cells ex_forking !! 0%nat) = Some 0%nat) as [He Hs] by (vm_compute; by split).
  split; [rewrite He; by left|]. destruct (cells ex_forking !! 0%nat) as [e'|]; [|done]. exists e'. split; [done|]. by injection Hs.
Defined.

Definition ex_leaving : Kernel unit := next Exit ex_start.
Lemma Exit_halts_last_witness : advance ex_files (λ _, 0) 0 Exit ex_leaving = Done ((), with_halted ex_leaving).
Proof.
  assert (reached ex_files (λ _, 0) 0 ex_leaving) as Hr.
  { apply (ex_next 0 ex_start Exit ex_start_reached); vm_compute; reflexivity. }
  apply (Exit_halts_last ex_files (λ _, 0) 0 ex_leaving 0 Exit (Some 0%nat) 0%nat Hr); [vm_compute; reflexivity..|].
  split; [|done]. intros u x Hne Hu. assert (threads ex_leaving = {[0 := (InExit (Some 0%nat), Some 0%nat)]}) as Hth by (vm_compute; reflexivity).
  rewrite Hth in Hu. apply lookup_singleton_Some in Hu as [? _]. congruence.
Defined.

Definition ex_failed : Kernel unit := next Exit (next Exit (next Exit (next (Exec None) ex_start))).
Lemma failed_exec_hangs_witness : halted ex_failed = false ∧ threads ex_failed = {[0 := (Finished, Some 0%nat)]}.
Proof.
  split; [|vm_compute; reflexivity]. apply (failed_exec_hangs ex_files (λ _, 0) 1 ex_failed); [|done].
  assert (reached ex_files (λ _, 0) 1 (next (Exec None) ex_start)) as H1.
  { apply (ex_next 0 ex_start (Exec None) ex_start_reached); vm_compute; reflexivity. }
  assert (reached ex_files (λ _, 0) 1 (next Exit (next (Exec None) ex_start))) as H2 by (apply (ex_next 1 _ Exit H1); vm_compute; reflexivity).
  assert (reached ex_files (λ _, 0) 1 (next Exit (next Exit (next (Exec None) ex_start)))) as H3
    by (apply (ex_next 1 _ Exit H2); vm_compute; reflexivity).
  apply (ex_next 1 _ Exit H3); vm_compute; reflexivity.
Defined.
