(* ===== verification/UserMem.v ===== *)
(** * UserMem: the kernel's references to user memory

    [copyin] and [copyout] of userprog/exception.cc over the paged memory of
    Paging: a reference to a page that is not in the TLB raises a page fault,
    which is served before [ReadMem] or [WriteMem] answers FALSE.  [copyin] then
    tries again, [copyout] gives up.  No other thread runs during a copy. *)
From S2P Require Import Prelude BitMap Translate HostFile Paging.
From stdpp Require Import functions base list.
From Stdlib Require Import ZArith Lia ZifyBool.

Local Open Scope Z_scope.

(** The memory, and how often [rand()] has been called. *)
Record Mem := mkMem { vm : VM; draws : nat }.

Definition on_vm {A} (op : M VM A) : M Mem A := λ s,
  match op (vm s) with Done (a, v) => Done (a, mkMem v (draws s)) | Fault f => Fault f end.
Definition on_machine {A} (op : M Machine A) : M VM A := λ s,
  match op (machine s) with Done (a, m) => Done (a, with_machine m s) | Fault f => Fault f end.

Section usermem.
Context (big_endian USEFIFO : bool) (rand : nat → Z).

(** [ExceptionHandler], for what a reference raises. *)
Definition handle (which : ExceptionType) : M Mem unit :=
  match which with
  | PageFaultException =>
      let! s := get in
      put (mkMem (vm s) (S (draws s))) ;;;
      on_vm (handleTLBMiss USEFIFO (rand (draws s)))
  | _ => fail Halted
  end.

(** [Machine::RaiseException], before the handler and around it. *)
Definition enter_kernel (badVAddr : Z) : M Machine unit :=
  let! m := get in
  let! rs := lift (vset (registers m) BadVAddrReg badVAddr) in
  put (with_registers rs m) ;;;
  DelayedLoad 0 0 ;;;
  modify (with_mode SystemMode).
Definition raise (which : ExceptionType) (badVAddr : Z) : M Mem unit :=
  on_vm (on_machine (enter_kernel badVAddr)) ;;;
  handle which ;;;
  on_vm (on_machine (modify (with_mode UserMode))).

(** A reference: the exception is served, or the hardware of Translate does it. *)
Definition refer {A} (addr size : Z) (writing : bool) (failed : A) (op : M Machine A) : M Mem A :=
  let! s := get in
  match Translate addr size writing (machine (vm s)) with
  | Done (inl exception, m) =>
      put (mkMem (with_machine m (vm s)) (draws s)) ;;; raise exception addr ;;; ret failed
  | _ => on_vm (on_machine op)
  end.
Definition user_ReadMem (addr size : Z) : M Mem (bool * option Z) :=
  refer addr size false (false, None) (ReadMem big_endian (λ _, ret ()) addr size).
Definition user_WriteMem (addr size value : Z) : M Mem bool :=
  refer addr size true false (WriteMem big_endian (λ _, ret ()) addr size value).

(** [while(!result) result = machine->ReadMem(vaddr, 1, paddr);] *)
Fixpoint read_byte (fuel : nat) (vaddr : Z) : M Mem Z :=
  let! r := user_ReadMem (s32 vaddr) 1 in
  match r with
  | (true, Some v) => ret v
  | _ => match fuel with O => fail OutOfFuel | S fuel' => read_byte fuel' vaddr end
  end.
Fixpoint copyin_loop (fuel n : nat) (vaddr : Z) : M Mem (list Z) :=
  match n with
  | O => ret []
  | S n' =>
      let! v := read_byte fuel vaddr in
      let! bs := copyin_loop fuel n' (u32 (vaddr + 1)) in
      ret (v mod 256 :: bs)
  end.
(** The answer, and what is in [buf]. *)
Definition copyin (fuel : nat) (vaddr len : Z) : M Mem (Z * list Z) :=
  let! bs := copyin_loop fuel (Z.to_nat len) (u32 vaddr) in ret (len, bs).

(** The first byte that is not written ends the loop. *)
Fixpoint copyout_loop (vaddr : Z) (buf : list Z) : M Mem bool :=
  match buf with
  | [] => ret true
  | b :: buf' =>
      let! result := user_WriteMem (s32 vaddr) 1 (s8 b) in
      if result : bool then copyout_loop (u32 (vaddr + 1)) buf' else ret false
  end.
Definition copyout (vaddr len : Z) (buf : list Z) : M Mem Z :=
  let bs := take (Z.to_nat len) buf in
  let! ok := copyout_loop (u32 vaddr) bs in
  ret (if ok : bool then Z.of_nat (length bs) else -1).

(** ** Registers *)

(** All registers are there, and the pending load is not into one of the
    machine's own. *)
Definition regs_ok (m : Machine) : Prop :=
  length (registers m) = Z.to_nat NumTotalRegs ∧ ∃ r, registers m !! 37%nat = Some r ∧ 0 <= r < 37.

Lemma enter_kernel_spec badVAddr m : regs_ok m → ∃ rs, enter_kernel badVAddr m =
  Done ((), with_mode SystemMode (with_registers rs m)) ∧ regs_ok (with_registers rs m) ∧
  at_ rs BadVAddrReg = Some badVAddr.
Proof.
  intros [Hl (r & Hr & Hrb)]. change (Z.to_nat NumTotalRegs) with 40%nat in Hl.
  unfold enter_kernel, bind, get, put, lift, modify. rewrite vset_in by (rewrite Hl; done).
  set (rs1 := <[Z.to_nat BadVAddrReg := badVAddr]> (registers m)).
  assert (length rs1 = 40%nat) as Hl1 by (unfold rs1; by rewrite length_insert).
  unfold DelayedLoad, bind, get, put, lift. cbn [registers with_registers].
  destruct (vget_in rs1 LoadValueReg) as (v & Hv & _); [by rewrite Hl1|].
  replace (vget rs1 LoadReg) with (Done r).
  2:{ symmetry. apply vget_Some. split; [done|]. unfold rs1. by rewrite list_lookup_insert_ne. }
  rewrite Hv. rewrite vset_in by (rewrite Hl1; lia). rewrite vset_in by (rewrite length_insert, Hl1; done).
  rewrite vset_in by (rewrite !length_insert, Hl1; done). rewrite vset_in by (rewrite !length_insert, Hl1; done).
  eexists. split; [reflexivity|]. split.
  - split; [cbn; by rewrite !length_insert|]. exists 0. split; [|lia]. cbn.
    rewrite list_lookup_insert_ne, list_lookup_insert_ne by done.
    rewrite list_lookup_insert_eq by (rewrite length_insert, Hl1; change (Z.to_nat LoadReg) with 37%nat; lia). done.
  - unfold at_. change (0 <=? BadVAddrReg) with true. cbv iota.
    rewrite list_lookup_insert_ne, list_lookup_insert_ne, list_lookup_insert_ne by done.
    rewrite list_lookup_insert_ne by (change (Z.to_nat BadVAddrReg) with 39%nat; lia).
    unfold rs1. apply list_lookup_insert_eq. rewrite Hl. change (Z.to_nat BadVAddrReg) with 39%nat. lia.
Qed.

Lemma handleTLBMiss_regs fifo r rs : stays (λ s, registers (machine s) = rs) (handleTLBMiss fifo r).
Proof. by apply handleTLBMiss_stays. Qed.

(** ** One reference *)

Record um_ok (s : Mem) : Prop := {
  um_inv : vm_inv (-1) (vm s);
  um_regs : regs_ok (machine (vm s))
}.

(** Page [v] of the running program is in the TLB, and can be written. *)
Definition mapped (s : Mem) (v : Z) : Prop := ∃ p x, hit (machine (vm s)) v p x.
Definition writable (s : Mem) (v : Z) : Prop := ∃ p x, hit (machine (vm s)) v p x ∧ readOnly x = false.
(** Page [v] of the running program is somewhere, or nowhere yet. *)
Definition backed (s : Mem) (v : Z) : Prop := ∃ e, page_of (vm s) (currentSpace (vm s)) v = Some e ∧
  (location e = EXEC → 0 <= byteOffset e).

(** What every copy guarantees. *)
Record after_copy (s s' : Mem) : Prop := {
  ac_ok : um_ok s';
  ac_keeps : keeps_content (vm s) (vm s');
  ac_space : currentSpace (vm s') = currentSpace (vm s)
}.

Lemma after_copy_refl s : um_ok s → after_copy s s.
Proof. intros H. constructor; [done| |done]. by intros a v bs. Qed.
Lemma after_copy_trans s1 s2 s3 : after_copy s1 s2 → after_copy s2 s3 → after_copy s1 s3.
Proof.
  intros [_ Hk1 Hc1] [H2 Hk2 Hc2]. constructor; [done| |congruence]. intros a v bs Hc. by apply Hk2, Hk1.
Qed.

Lemma content_backed s v bs : content (vm s) (currentSpace (vm s)) v bs → backed s v.
Proof.
  intros [_ (e & He & Hc)]. exists e. split; [done|]. intros Hl. rewrite Hl in Hc. unfold ReadAt, assert in Hc.
  destruct (Z.leb_spec 0 (byteOffset e)); done.
Qed.

Lemma translate1 s addr writing : um_ok s →
  (¬ mapped s (page addr) ∧ Translate addr 1 writing (machine (vm s)) = Done (inl PageFaultException, machine (vm s))) ∨
  (∃ p x, hit (machine (vm s)) (page addr) p x ∧
     (readOnly x && writing = false → ∃ pa m1, Translate addr 1 writing (machine (vm s)) = Done (inr pa, m1))).
Proof.
  intros [Hi _]. destruct (Translate_translates addr 1 writing ltac:(auto) _ (vi_machine _ _ Hi)) as (r & m1 & HT & Htr).
  destruct (vm_tlb _ Hi) as (t & Ht & Hpt).
  inversion Htr as [Ha|t' Ha Hp Hb|Ha Hno Hin|p x Ha Hh Hro Hw|p x Ha Hh Hro Hf|p x Ha Hh Hro Hf H0 H1]; subst.
  - by rewrite Z.mod_1_r in Ha.
  - congruence.
  - left. split; [|done]. intros (p & x & Hh). by apply (Hno p x).
  - right. exists p, x. split; [done|]. by rewrite Hro.
  - right. exists p, x. split; [done|]. intros _. destruct (hit_entry _ Hi _ _ _ Hh) as (_ & _ & _ & _ & _ & _ & Hfr & Hr). lia.
  - right. exists p, x. split; [done|]. intros _. by eexists _, _.
Qed.

Lemma refer_miss {A} addr writing (failed : A) op s : um_ok s → ¬ mapped s (page addr) → backed s (page addr) →
  (∀ n, 0 <= rand n) →
  wp halts (refer addr 1 writing failed op) (λ r s', r = failed ∧ after_copy s s' ∧ mapped s' (page addr)) s.
Proof.
  intros Hok Hm (e & He & Hoff) Hrand. pose proof Hok as [Hi Hr].
  destruct (translate1 s addr writing Hok) as [[_ HT]|(p & x & Hh & _)]; [|by destruct Hm; exists p, x].
  unfold refer. apply wp_bind, wp_get. rewrite HT. apply wp_bind, wp_put. unfold raise. apply wp_bind, wp_bind.
  destruct (enter_kernel_spec addr (machine (vm s)) Hr) as (rs & Hen & Hrs & Hat).
  set (s1 := with_machine (with_mode SystemMode (with_registers rs (machine (vm s)))) (vm s)).
  assert (with_machine (machine (vm s)) (vm s) = vm s) as Hsame by (by destruct (vm s)). rewrite Hsame.
  apply (wp_run _ _ (put (mkMem s1 (draws s))) _ _ s); [unfold on_vm, on_machine; cbn [vm]; by rewrite Hen|]. apply wp_put.
  apply wp_bind. unfold handle. apply wp_bind, wp_get, wp_bind, wp_put. cbn [vm draws].
  assert (vm_inv (-1) s1) as Hi1.
  { apply with_machine_inv; [done| |done]. by destruct (vi_machine _ _ Hi). }
  assert (∀ j x, tlb_at s1 j = Some x → valid x = true → virtualPage x ≠ u32 addr / PageSize) as Hmiss.
  { intros j x Hj Hv Heq. apply Hm. exists (InTLB j), x.
    pose proof (tlb_hit (vm s) Hi j x Hj Hv) as Hh. by rewrite Heq in Hh. }
  pose proof (handleTLBMiss_wp USEFIFO (rand (draws s)) s1 addr e Hi1 Hat He Hoff (Hrand _) Hmiss) as Hw.
  unfold on_vm at 1. unfold wp in *. cbn [vm].
  destruct (handleTLBMiss USEFIFO (rand (draws s)) s1) as [[[] s2]|f] eqn:HH; [|done].
  destruct Hw as (Hi2 & Hk & Hcs & j & x & Hj & Hv & Hvp & _). cbn.
  assert (registers (machine s2) = rs) as Hregs by (by apply (handleTLBMiss_regs USEFIFO (rand (draws s)) rs s1 () s2)).
  assert (vm_inv (-1) (with_machine (with_mode UserMode (machine s2)) s2)) as Hi3.
  { apply with_machine_inv; [done| |done]. by destruct (vi_machine _ _ Hi2). }
  split; [done|]. split.
  - constructor; cbn; [constructor; cbn; [done|]|exact Hk|exact Hcs].
    unfold regs_ok. cbn. rewrite Hregs. exact Hrs.
  - unfold mapped. cbn [vm]. exists (InTLB j), x. unfold page. rewrite <- Hvp.
    apply (tlb_hit _ Hi3); done.
Qed.

(** ** Bytes of the running program *)

Definition byte_at (s : Mem) (addr b : Z) : Prop := ∃ bs,
  content (vm s) (currentSpace (vm s)) (page addr) bs ∧ bs !! Z.to_nat (u32 addr mod PageSize) = Some b.
Definition bytes_at (s : Mem) (vaddr : Z) (bytes : list Z) : Prop :=
  ∀ i b, bytes !! i = Some b → byte_at s (vaddr + Z.of_nat i) b.

Lemma byte_at_kept s s' addr b : after_copy s s' → byte_at s addr b → byte_at s' addr b.
Proof. intros [_ Hk Hc] (bs & Hb & Hl). exists bs. rewrite Hc. split; [by apply Hk|done]. Qed.

Lemma byte_at_backed s addr b : byte_at s addr b → backed s (page addr).
Proof. intros (bs & Hc & _). by eapply content_backed. Qed.

Lemma byte_at_u32 s addr addr' b : u32 addr = u32 addr' → byte_at s addr b → byte_at s addr' b.
Proof. unfold byte_at, page. by intros ->. Qed.

Lemma bytes_at_tail s vaddr b bytes : bytes_at s vaddr (b :: bytes) → byte_at s vaddr b ∧ bytes_at s (u32 (vaddr + 1)) bytes.
Proof.
  intros H. split.
  - specialize (H O b eq_refl). by rewrite Z.add_0_r in H.
  - intros i c Hi. apply (byte_at_u32 s (vaddr + Z.of_nat (S i))); [|by apply H].
    unfold u32. rewrite Zplus_mod_idemp_l. f_equal. lia.
Qed.

Lemma byte_at_byte s addr b : um_ok s → byte_at s addr b → byte b.
Proof.
  intros [Hi _] (bs & [_ (e & _ & Hc)] & Hb).
  pose proof (mw_bytes _ (vi_machine _ _ Hi)) as Hm. destruct (vi_bytes _ _ Hi) as [Hs He].
  assert (∀ l i, Forall byte l → Forall byte (slice l i)) as Hslice by (intros; by apply Forall_take, Forall_drop).
  assert (Forall byte bs) as Hbs; [|rewrite Forall_lookup in Hbs; by eapply Hbs].
  destruct (location e); [done| | |].
  - unfold ReadAt, assert in Hc. destruct (0 <=? byteOffset e); [|done]. injection Hc as <-. by apply Forall_take, Forall_drop.
  - destruct Hc as [<- _]. by apply Hslice.
  - rewrite <- Hc. by apply Hslice.
Qed.

Lemma s8_mod b : byte b → s8 b mod 256 = b.
Proof.
  intros Hb. unfold byte, s8 in *. rewrite (Z.mod_small b 256) by lia. case_match; [by apply Z.mod_small|].
  replace (b - 256) with (b + (-1) * 256) by lia. rewrite Z.mod_add by done. by apply Z.mod_small.
Qed.

Lemma read_hit s addr b : um_ok s → mapped s (page addr) → byte_at s addr b → ∃ v s',
  user_ReadMem addr 1 s = Done (true, Some v, s') ∧ v mod 256 = b ∧ after_copy s s'.
Proof.
  intros Hok (p & x & Hh) Hb. pose proof (byte_at_byte _ _ _ Hok Hb) as Hr. destruct Hb as (bs & Hc & Hl).
  pose proof Hok as [Hi Hregs]. destruct (translate1 s addr false Hok) as [[Hm _]|(p' & x' & _ & HT)]; [by destruct Hm; exists p, x|].
  destruct (HT (andb_false_r _)) as (pa & m1 & HT'). unfold user_ReadMem, refer, bind, get. rewrite HT'.
  pose proof (ReadMem_translated big_endian (λ _, ret ()) addr 1 ltac:(auto) _ _ _ (vi_machine _ _ Hi) HT') as HR.
  set (v := narrow 1 _) in HR. unfold on_vm, on_machine. rewrite HR. eexists v, _. split; [reflexivity|].
  destruct (user_read big_endian (λ _, ret ()) (vm s) addr 1 v _ Hi ltac:(auto) HR) as (Hi' & Hk & Hv). specialize (Hv _ Hc).
  split.
  - rewrite Hv. change (Z.to_nat 1) with 1%nat. unfold narrow. cbn [Z.eqb Pos.eqb].
    rewrite (take_S_r _ 0 b) by (by rewrite lookup_drop, Nat.add_0_r). cbn [take of_le app].
    rewrite take_0. cbn [app of_le]. rewrite Z.mul_0_r, Z.add_0_r. by apply s8_mod.
  - constructor; cbn [vm]; [|done|done]. constructor; cbn [vm]; [done|]. unfold regs_ok. cbn.
    apply Translate_Done in HT'; [|auto|apply Hi]. inversion HT' as [| | | | |q y _ _ _ _ _ _]; subst.
    by destruct (put_entry_fields q (marked y false) (machine (vm s))) as (_ & -> & _).
Qed.

Lemma read_byte_wp fuel s addr b : (1 <= fuel)%nat → (∀ n, 0 <= rand n) → um_ok s → byte_at s addr b →
  wp halts (read_byte fuel addr) (λ v s', v mod 256 = b ∧ after_copy s s') s.
Proof.
  intros Hf Hrand Hok Hb.
  assert (∀ fuel s1, after_copy s s1 → mapped s1 (page addr) →
    wp halts (read_byte fuel addr) (λ v s', v mod 256 = b ∧ after_copy s s') s1) as Hhit.
  { intros fuel' s1 Ha Hm. assert (byte_at s1 (s32 addr) b) as Hb1.
    { apply (byte_at_u32 s1 addr); [by rewrite u32_of_s32|]. by apply (byte_at_kept s). }
    destruct (read_hit s1 (s32 addr) b (ac_ok _ _ Ha)) as (v & s2 & HR & Hv & Ha2); [|done|].
    { unfold page in *. by rewrite u32_of_s32. }
    destruct fuel'; cbn [read_byte]; unfold wp; rewrite (bind_Done _ _ _ _ _ HR); (split; [done|by eapply after_copy_trans]). }
  destruct (translate1 s addr false Hok) as [[Hm _]|(p & x & Hh & _)].
  2:{ apply Hhit; [by apply after_copy_refl|by exists p, x]. }
  destruct fuel as [|fuel]; [lia|]. cbn [read_byte]. apply wp_bind. unfold user_ReadMem.
  assert (page (s32 addr) = page addr) as Hp by (unfold page; by rewrite u32_of_s32).
  eapply wp_mono; [apply (refer_miss (s32 addr)); rewrite ?Hp; [done|done|by eapply byte_at_backed|done]|].
  cbn. intros r s1 (-> & Ha & Hm1). apply Hhit; [done|by rewrite Hp in Hm1].
Qed.

(** A copy into the kernel gives the bytes of the program, wherever their pages
    are, with one more try for each byte; it only stops when the swap file is full. *)
Lemma copyin_loop_wp fuel bytes : (1 <= fuel)%nat → (∀ n, 0 <= rand n) → ∀ s addr, um_ok s → bytes_at s addr bytes →
  wp halts (copyin_loop fuel (length bytes) addr) (λ bs s', bs = bytes ∧ after_copy s s') s.
Proof.
  intros Hf Hrand. induction bytes as [|b bytes IH]; intros s addr Hok Hb; cbn [copyin_loop length].
  { apply wp_ret. split; [done|by apply after_copy_refl]. }
  apply bytes_at_tail in Hb as [Hb Hbs]. apply wp_bind. eapply wp_mono; [by apply (read_byte_wp fuel s addr b)|].
  cbn. intros v s1 [Hv Ha]. apply wp_bind. eapply wp_mono; [apply (IH s1)|].
  - apply Ha.
  - intros i c Hi. apply (byte_at_kept s); [done|]. by apply Hbs.
  - cbn. intros bs s2 [-> Ha2]. apply wp_ret. split; [by rewrite Hv|by eapply after_copy_trans].
Qed.

Lemma copyin_wp fuel bytes s addr : (1 <= fuel)%nat → (∀ n, 0 <= rand n) → um_ok s → bytes_at s addr bytes →
  wp halts (copyin fuel addr (Z.of_nat (length bytes))) (λ r s', r = (Z.of_nat (length bytes), bytes) ∧ after_copy s s') s.
Proof.
  intros Hf Hrand Hok Hb. unfold copyin. rewrite Nat2Z.id. apply wp_bind.
  eapply wp_mono; [apply (copyin_loop_wp fuel bytes Hf Hrand s)|].
  - done.
  - intros i b Hi. apply (byte_at_u32 s (addr + Z.of_nat i)); [|by apply Hb]. unfold u32. by rewrite Zplus_mod_idemp_l.
  - cbn. intros bs s' [-> Ha]. by apply wp_ret.
Qed.

(** ** Copies to the program *)

Lemma marked_still_hits m i x y w v q z : machine_wf m → tlb m = Some i → hit m w (InTLB y) x →
  hit m v q z → ∃ z', hit (put_entry (InTLB y) (marked x true) m) v q z' ∧ readOnly z' = readOnly z.
Proof.
  intros Hm Ht Hx Hz. inversion Hx as [|t k e Ht1 Hpt1 Hk Hv Hp Hf]; subst. assert (t = i) as -> by congruence.
  inversion Hz as [|t k' e Ht2 Hpt2 Hk' Hv' Hp' Hf']; subst; [congruence|]. assert (t = i) as -> by congruence.
  cbn [put_entry]. rewrite Ht, Nat2Z.id. pose proof (lookup_lt_Some _ _ _ Hk) as Hlt.
  set (t' := <[k := marked x true]> i).
  assert (∀ n e', t' !! n = Some e' → ∃ e, i !! n = Some e ∧ valid e' = valid e ∧ virtualPage e' = virtualPage e ∧ readOnly e' = readOnly e) as Hback.
  { intros n e' [(<- & <- & _)|[Hne Hn]]%list_lookup_insert_Some; [by exists x|by exists e']. }
  assert (∃ z', t' !! k' = Some z' ∧ valid z' = valid z ∧ virtualPage z' = virtualPage z ∧ readOnly z' = readOnly z) as (z' & Hz' & Hv1 & Hp1 & Hr1).
  { destruct (lookup_lt_is_Some_2 t' k') as [z' Hz']; [unfold t'; rewrite length_insert; by apply lookup_lt_Some in Hk'|].
    exists z'. split; [done|]. destruct (Hback _ _ Hz') as (e & He & ?). by assert (e = z) as -> by congruence. }
  exists z'. split; [|done]. eapply (hit_tlb _ _ t' k'); [done|done|done|congruence|congruence|].
  intros j e' Hj He' Hve. destruct (Hback _ _ He') as (e & He & Hva & Hvp & _). rewrite Hvp. apply (Hf' j e); [done|done|congruence].
Qed.

(** What a byte written to a page in the TLB changes. *)
Record wrote (s : Mem) (addr b : Z) (s' : Mem) : Prop := {
  wr_ok : um_ok s';
  wr_space : currentSpace (vm s') = currentSpace (vm s);
  wr_byte : byte_at s' addr (b mod 256);
  wr_rest : ∀ addr' c, u32 addr' ≠ u32 addr → byte_at s addr' c → byte_at s' addr' c;
  wr_others : ∀ a w bs, (a, w) ≠ (currentSpace (vm s), page addr) → content (vm s) a w bs → content (vm s') a w bs;
  wr_writable : ∀ v, writable s v → writable s' v
}.

Lemma write_hit s addr b : um_ok s → writable s (page addr) → ∃ s',
  user_WriteMem addr 1 b s = Done (true, s') ∧ wrote s addr b s'.
Proof.
  intros Hok (p & x & Hh & Hro). pose proof Hok as [Hi Hregs]. pose proof (vi_machine _ _ Hi) as Hm.
  destruct (Translate_translates addr 1 true ltac:(auto) _ Hm) as (r & m1 & HT & Htr).
  destruct (hit_entry _ Hi _ _ _ Hh) as (j & -> & Hj & Hv & Hvp & Hown & Hfr & Hfrange).
  assert (∀ q y, hit (machine (vm s)) (page addr) q y → q = InTLB j ∧ y = x) as Huniq.
  { intros q y Hy. destruct (hit_entry _ Hi _ _ _ Hy) as (j' & -> & Hj' & Hv' & _ & Hown' & _).
    destruct (proj1 (vi_pages _ _ Hi _ _ _) Hown) as (e1 & He1 & _ & Hp1).
    destruct (proj1 (vi_pages _ _ Hi _ _ _) Hown') as (e2 & He2 & _ & Hp2).
    assert (physicalPage y = physicalPage x) as Hpp by congruence.
    assert (j' = j) as -> by (by apply (vi_tlb_once _ _ Hi _ _ _ _ Hj' Hj)). split; [done|congruence]. }
  assert (∃ pa, r = inr pa ∧ m1 = put_entry (InTLB j) (marked x true) (machine (vm s))) as (pa & -> & Hm1).
  { inversion Htr as [Ha|t' Ha Hp Hb|Ha Hno Hin|q y Ha Hy Hr Hw|q y Ha Hy Hr Hf|q y Ha Hy Hr Hf H0 H1]; subst.
    - by rewrite Z.mod_1_r in Ha.
    - destruct (vm_tlb _ Hi) as (t & Ht & Hpt). congruence.
    - by destruct (Hno _ _ Hh).
    - destruct (Huniq _ _ Hy) as [-> ->]. congruence.
    - destruct (Huniq _ _ Hy) as [-> ->]. lia.
    - destruct (Huniq _ _ Hy) as [-> ->]. by eexists. }
  unfold user_WriteMem, refer, bind, get. rewrite HT.
  destruct (WriteMem_translated big_endian (λ _, ret ()) addr 1 ltac:(auto) b _ _ _ Hm HT) as (mem & HW & _).
  unfold on_vm, on_machine. rewrite HW. eexists. split; [reflexivity|].
  destruct (user_write big_endian (λ _, ret ()) (vm s) addr 1 b _ Hi ltac:(auto) HW) as (Hi' & Hoth & bs' & Hc' & Hin & Hrest).
  cbn [bytes_le length] in *. change (bytes_le (Z.to_nat 1) b) with [b mod 256] in *.
  constructor; cbn [vm]; [|done| | |exact Hoth|].
  - constructor; cbn [vm]; [done|]. unfold regs_ok. cbn. subst m1.
    by destruct (put_entry_fields (InTLB j) (marked x true) (machine (vm s))) as (_ & -> & _).
  - exists bs'. split; [exact Hc'|]. specialize (Hin O _ eq_refl). by rewrite Nat.add_0_r in Hin.
  - intros addr' c Hne (bs & Hc & Hl). destruct (decide (page addr' = page addr)) as [Hp|Hp].
    + exists bs'. cbn [vm currentSpace with_machine] in *. rewrite Hp in *. split; [exact Hc'|].
      rewrite (Hrest bs); [done|exact Hc|]. unfold page, PageSize, SectorSize in *.
      pose proof (Z.div_mod (u32 addr) 128 ltac:(done)). pose proof (Z.div_mod (u32 addr') 128 ltac:(done)).
      pose proof (Z.mod_pos_bound (u32 addr) 128 ltac:(done)). pose proof (Z.mod_pos_bound (u32 addr') 128 ltac:(done)).
      cbn. lia.
    + exists bs. split; [|exact Hl]. apply Hoth; [|exact Hc]. intros [= Heq]. done.
  - intros v (q & z & Hz & Hrz). destruct (vm_tlb _ Hi) as (t & Ht & _).
    destruct (marked_still_hits _ t x j (page addr) v q z Hm Ht Hh Hz) as (z' & Hz' & Hrz').
    exists q, z'. split; [|congruence]. cbn [vm machine with_machine]. subst m1.
    inversion Hz' as [|t1 k e H1 H2 H3 H4 H5 H6]; subst; [cbn [put_entry] in *; rewrite Ht in *; done|].
    by eapply hit_tlb.
Qed.

(** What a copy to pages in the TLB guarantees. *)
Record copied (s : Mem) (vaddr : Z) (n : nat) (s' : Mem) : Prop := {
  cp_ok : um_ok s';
  cp_space : currentSpace (vm s') = currentSpace (vm s);
  cp_rest : ∀ addr c, (∀ i, (i < n)%nat → u32 addr ≠ u32 (vaddr + Z.of_nat i)) → byte_at s addr c → byte_at s' addr c;
  cp_others : ∀ a w bs, a ≠ currentSpace (vm s) → content (vm s) a w bs → content (vm s') a w bs
}.

Lemma copyout_loop_hit bs : Forall byte bs → ∀ s vaddr, um_ok s → 0 <= vaddr → vaddr + Z.of_nat (length bs) <= 2 ^ 32 →
  (∀ i, (i < length bs)%nat → writable s (page (vaddr + Z.of_nat i))) →
  ∃ s', copyout_loop vaddr bs s = Done (true, s') ∧ copied s vaddr (length bs) s' ∧ bytes_at s' vaddr bs.
Proof.
  intros Hbs. induction Hbs as [|b bs Hb Hbs IH]; intros s vaddr Hok H0 Hn Hw; cbn [length copyout_loop] in *.
  { exists s. split; [done|]. split; [by constructor|done]. }
  assert (page (s32 vaddr) = page vaddr) as Hp by (unfold page; by rewrite u32_of_s32).
  destruct (write_hit s (s32 vaddr) (s8 b) Hok) as (s1 & HW & [Hok1 Hc1 Hb1 Hr1 Ho1 Hw1]).
  { rewrite Hp. specialize (Hw O ltac:(lia)). by rewrite Z.add_0_r in Hw. }
  rewrite (bind_Done _ _ _ _ _ HW).
  assert (∀ k, 0 <= k <= Z.of_nat (length bs) → u32 (vaddr + k) = vaddr + k) as Hu.
  { intros k Hk. apply Z.mod_small. lia. }
  assert (∀ i, u32 (vaddr + 1) + Z.of_nat i = vaddr + 1 + Z.of_nat i ∨ bs = []) as Hnext.
  { intros i. destruct bs; [by right|left]. by rewrite Hu by (cbn; lia). }
  destruct (IH s1 (u32 (vaddr + 1)) Hok1) as (s2 & HL & [Hok2 Hc2 Hr2 Ho2] & Hb2).
  - apply u32_range.
  - destruct bs as [|b' bs]; [pose proof (u32_range (vaddr + 1)); cbn in *; lia|]. rewrite Hu by (cbn; lia). lia.
  - intros i Hi. destruct (Hnext i) as [->| ->]; [|cbn in Hi; lia]. apply Hw1.
    replace (vaddr + 1 + Z.of_nat i) with (vaddr + Z.of_nat (S i)) by lia. apply Hw. lia.
  - exists s2. split; [done|]. split; [constructor; [done|congruence| |]|].
    + intros addr c Hne Hc. apply Hr2.
      * intros i Hi. destruct (Hnext i) as [->| ->]; [|cbn in Hi; lia].
        replace (vaddr + 1 + Z.of_nat i) with (vaddr + Z.of_nat (S i)) by lia. apply Hne. lia.
      * apply Hr1; [|done]. rewrite u32_of_s32. specialize (Hne O ltac:(lia)). by rewrite Z.add_0_r in Hne.
    + intros a w pg Ha Hc. apply Ho2; [congruence|]. apply Ho1; [congruence|done].
    + intros [|i] c Hi; cbn in Hi.
      * injection Hi as <-. rewrite Z.add_0_r. rewrite s8_mod in Hb1 by done.
        apply Hr2; [|by apply (byte_at_u32 _ (s32 vaddr)); [apply u32_of_s32|]].
        intros i Hi. destruct (Hnext i) as [->| ->]; [|cbn in Hi; lia].
        rewrite <- (Z.add_0_r vaddr) at 1. rewrite Hu by lia.
        replace (vaddr + 1 + Z.of_nat i) with (vaddr + (1 + Z.of_nat i)) by lia. rewrite Hu by lia. lia.
      * specialize (Hb2 i c Hi). destruct (Hnext i) as [He| ->]; [|done]. rewrite He in Hb2.
        by replace (vaddr + Z.of_nat (S i)) with (vaddr + 1 + Z.of_nat i) by lia.
Qed.

(** Every page is in the TLB: all the bytes are copied. *)
Lemma copyout_hit bs s vaddr : Forall byte bs → um_ok s → 0 <= vaddr → vaddr + Z.of_nat (length bs) <= 2 ^ 32 →
  (∀ i, (i < length bs)%nat → writable s (page (vaddr + Z.of_nat i))) →
  ∃ s', copyout vaddr (Z.of_nat (length bs)) bs s = Done (Z.of_nat (length bs), s') ∧
    copied s vaddr (length bs) s' ∧ bytes_at s' vaddr bs.
Proof.
  intros Hbs Hok H0 Hn Hw. unfold copyout. rewrite Nat2Z.id, firstn_all.
  destruct bs as [|b bs]; [exists s; split; [done|]; split; [by constructor|done]|].
  assert (u32 vaddr = vaddr) as -> by (apply Z.mod_small; cbn in *; lia).
  destruct (copyout_loop_hit _ Hbs s vaddr Hok H0 Hn Hw) as (s' & HL & Hc & Hb).
  exists s'. rewrite (bind_Done _ _ _ _ _ HL). done.
Qed.

(** The first page is not in the TLB: it is brought in, but nothing is copied. *)
Lemma copyout_miss b bs s vaddr : um_ok s → (∀ n, 0 <= rand n) → ¬ mapped s (page vaddr) → backed s (page vaddr) →
  wp halts (copyout vaddr (Z.of_nat (length (b :: bs))) (b :: bs))
    (λ r s', r = -1 ∧ after_copy s s' ∧ mapped s' (page vaddr)) s.
Proof.
  intros Hok Hrand Hm Hbk. unfold copyout. rewrite Nat2Z.id, firstn_all. cbn [copyout_loop].
  assert (page (s32 (u32 vaddr)) = page vaddr) as Hp.
  { unfold page. rewrite u32_of_s32. unfold u32. by rewrite Z.mod_mod. }
  apply wp_bind, wp_bind. unfold user_WriteMem.
  eapply wp_mono; [apply (refer_miss (s32 (u32 vaddr))); by rewrite ?Hp|].
  cbn. intros r s1 (-> & Ha & Hm1). apply wp_ret, wp_ret. by rewrite Hp in Hm1.
Qed.
End usermem.
