(* ===== verification/Mips.v ===== *)
(** * Mips: the instruction interpreter of machine/mipssim.cc

    [Decode] takes an instruction word apart, [execute] is the switch of
    [Machine::OneInstruction], [OneInstruction] fetches, executes and advances
    the program counters, and [Run] repeats it.  Registers hold C++ [int]s;
    [int] arithmetic wraps around and [>>] on an [int] is arithmetic, as the
    compilers the program is built with do it. *)
From S2P Require Import Prelude Translate.
From stdpp Require Import base list.
From Stdlib Require Import ZArith Lia ZifyBool.

Local Open Scope Z_scope.
#[local] Ltac Zify.zify_post_hook ::= Z.to_euclidean_division_equations.

(** ** Registers, operation codes and their tables (machine.h, mipssim.h) *)

Definition HiReg : Z := 32.
Definition LoReg : Z := 33.
Definition PCReg : Z := 34.
Definition NextPCReg : Z := 35.
Definition PrevPCReg : Z := 36.
Definition R31 : Z := 31.
Definition SIGN_BIT : Z := 0x80000000.

(** [SPECIAL] and [BCOND] stand for a second look at the word. *)
Inductive OpCode :=
| OP_ADD | OP_ADDI | OP_ADDIU | OP_ADDU | OP_AND | OP_ANDI | OP_BEQ | OP_BGEZ | OP_BGEZAL
| OP_BGTZ | OP_BLEZ | OP_BLTZ | OP_BLTZAL | OP_BNE | OP_DIV | OP_DIVU | OP_J | OP_JAL | OP_JALR
| OP_JR | OP_LB | OP_LBU | OP_LH | OP_LHU | OP_LUI | OP_LW | OP_LWL | OP_LWR | OP_MFHI | OP_MFLO
| OP_MTHI | OP_MTLO | OP_MULT | OP_MULTU | OP_NOR | OP_OR | OP_ORI | OP_RFE | OP_SB | OP_SH
| OP_SLL | OP_SLLV | OP_SLT | OP_SLTI | OP_SLTIU | OP_SLTU | OP_SRA | OP_SRAV | OP_SRL | OP_SRLV
| OP_SUB | OP_SUBU | OP_SW | OP_SWL | OP_SWR | OP_XOR | OP_XORI | OP_SYSCALL | OP_UNIMP | OP_RES
| SPECIAL | BCOND.
#[export] Instance OpCode_eq_dec : EqDecision OpCode.
Proof. solve_decision. Defined.

Inductive Format := IFMT | JFMT | RFMT.

Definition opTable : list (OpCode * Format) := [
  (SPECIAL, RFMT); (BCOND, IFMT); (OP_J, JFMT); (OP_JAL, JFMT);
  (OP_BEQ, IFMT); (OP_BNE, IFMT); (OP_BLEZ, IFMT); (OP_BGTZ, IFMT);
  (OP_ADDI, IFMT); (OP_ADDIU, IFMT); (OP_SLTI, IFMT); (OP_SLTIU, IFMT);
  (OP_ANDI, IFMT); (OP_ORI, IFMT); (OP_XORI, IFMT); (OP_LUI, IFMT);
  (OP_UNIMP, IFMT); (OP_UNIMP, IFMT); (OP_UNIMP, IFMT); (OP_UNIMP, IFMT);
  (OP_RES, IFMT); (OP_RES, IFMT); (OP_RES, IFMT); (OP_RES, IFMT);
  (OP_RES, IFMT); (OP_RES, IFMT); (OP_RES, IFMT); (OP_RES, IFMT);
  (OP_RES, IFMT); (OP_RES, IFMT); (OP_RES, IFMT); (OP_RES, IFMT);
  (OP_LB, IFMT); (OP_LH, IFMT); (OP_LWL, IFMT); (OP_LW, IFMT);
  (OP_LBU, IFMT); (OP_LHU, IFMT); (OP_LWR, IFMT); (OP_RES, IFMT);
  (OP_SB, IFMT); (OP_SH, IFMT); (OP_SWL, IFMT); (OP_SW, IFMT);
  (OP_RES, IFMT); (OP_RES, IFMT); (OP_SWR, IFMT); (OP_RES, IFMT);
  (OP_UNIMP, IFMT); (OP_UNIMP, IFMT); (OP_UNIMP, IFMT); (OP_UNIMP, IFMT);
  (OP_RES, IFMT); (OP_RES, IFMT); (OP_RES, IFMT); (OP_RES, IFMT);
  (OP_UNIMP, IFMT); (OP_UNIMP, IFMT); (OP_UNIMP, IFMT); (OP_UNIMP, IFMT);
  (OP_RES, IFMT); (OP_RES, IFMT); (OP_RES, IFMT); (OP_RES, IFMT)].

Definition specialTable : list OpCode := [
  OP_SLL; OP_RES; OP_SRL; OP_SRA; OP_SLLV; OP_RES; OP_SRLV; OP_SRAV;
  OP_JR; OP_JALR; OP_RES; OP_RES; OP_SYSCALL; OP_UNIMP; OP_RES; OP_RES;
  OP_MFHI; OP_MTHI; OP_MFLO; OP_MTLO; OP_RES; OP_RES; OP_RES; OP_RES;
  OP_MULT; OP_MULTU; OP_DIV; OP_DIVU; OP_RES; OP_RES; OP_RES; OP_RES;
  OP_ADD; OP_ADDU; OP_SUB; OP_SUBU; OP_AND; OP_OR; OP_XOR; OP_NOR;
  OP_RES; OP_RES; OP_SLT; OP_SLTU; OP_RES; OP_RES; OP_RES; OP_RES;
  OP_RES; OP_RES; OP_RES; OP_RES; OP_RES; OP_RES; OP_RES; OP_RES;
  OP_RES; OP_RES; OP_RES; OP_RES; OP_RES; OP_RES; OP_RES; OP_RES].

Record Instruction := mkInstr { value : Z; opCode : OpCode; rs : Z; rt : Z; rd : Z; extra : Z }.

(** ** Decode *)

(** What the instruction word at [value] says; [value] is an [unsigned int]. *)
Definition Decode (value : Z) : outcome Instruction :=
  let rs := Z.land (Z.shiftr value 21) 0x1f in
  let rt := Z.land (Z.shiftr value 16) 0x1f in
  let rd := Z.land (Z.shiftr value 11) 0x1f in
  let? opPtr := vget opTable (Z.land (Z.shiftr value 26) 0x3f) in
  let extra :=
    match opPtr.2 with
    | IFMT =>
        let extra := Z.land value 0xffff in
        if negb (Z.land extra 0x8000 =? 0) then s32 (Z.lor extra 0xffff0000) else extra
    | RFMT => Z.land (Z.shiftr value 6) 0x1f
    | JFMT => Z.land value 0x3ffffff
    end in
  let? opCode :=
    (if bool_decide (opPtr.1 = SPECIAL) then vget specialTable (Z.land value 0x3f)
     else if bool_decide (opPtr.1 = BCOND) then
       let i := Z.land value 0x1f0000 in
       Done (if i =? 0 then OP_BLTZ else if i =? 0x10000 then OP_BGEZ
             else if i =? 0x100000 then OP_BLTZAL else if i =? 0x110000 then OP_BGEZAL
             else OP_UNIMP)
     else Done opPtr.1) in
  Done (mkInstr value opCode rs rt rd extra).

(** ** Mult *)

(** At most [n] rounds; [a] is an [int], the four words are unsigned. *)
Fixpoint mult_loop (n : nat) (a bHi bLo hi lo : Z) : Z * Z :=
  match n with
  | O => (hi, lo)
  | S n' =>
      let next := mult_loop n' (Z.shiftr a 1)
        (let bHi' := u32 (Z.shiftl bHi 1) in
         if negb (Z.land bLo 0x80000000 =? 0) then Z.lor bHi' 1 else bHi')
        (u32 (Z.shiftl bLo 1)) in
      if negb (Z.land a 1 =? 0) then
        let lo' := u32 (lo + bLo) in
        let hi' := u32 (u32 (hi + (if lo' <? bLo then 1 else 0)) + bHi) in
        if Z.land (u32 a) 0xfffffffe =? 0 then (hi', lo') else next hi' lo'
      else next hi lo
  end.

(** What is stored through [hiPtr] and [loPtr]. *)
Definition Mult (a b : Z) (signedArith : bool) : Z * Z :=
  if (a =? 0) || (b =? 0) then (0, 0)
  else
    let negative := signedArith && xorb (a <? 0) (b <? 0) in
    let a := if signedArith && (a <? 0) then s32 (- a) else a in
    let b := if signedArith && (b <? 0) then s32 (- b) else b in
    let '(hi, lo) := mult_loop 32 a 0 (u32 b) 0 0 in
    if negative then
      let hi := u32 (Z.lnot hi) in
      let lo := u32 (u32 (Z.lnot lo) + 1) in
      let hi := if lo =? 0 then u32 (hi + 1) else hi in
      (s32 hi, s32 lo)
    else (s32 hi, s32 lo).

(** ** OneInstruction *)

Definition reg (r : Z) : M Machine Z :=
  let! m := get in lift (vget (registers m) r).
Definition set_reg (r v : Z) : M Machine unit :=
  let! m := get in let! rs := lift (vset (registers m) r v) in put (with_registers rs m).

(** [x & SIGN_BIT] as a condition, of an [int]. *)
Definition sign_set (x : Z) : bool := negb (Z.land (u32 x) SIGN_BIT =? 0).
Definition IndexToAddr (x : Z) : Z := s32 (Z.shiftl x 2).

(** How the switch is left: by [return] after a trap, or by [break] with the
    values of [pcAfter], [nextLoadReg] and [nextLoadValue]. *)
Inductive after_switch := Trapped | Next (pcAfter nextLoadReg nextLoadValue : Z).

Section execute.
Context (big_endian : bool) (ExceptionHandler : ExceptionType → M Machine unit).
Local Notation ReadMem := (ReadMem big_endian ExceptionHandler).
Local Notation WriteMem := (WriteMem big_endian ExceptionHandler).
Local Notation RaiseException := (RaiseException ExceptionHandler).

Definition trap (which : ExceptionType) (badVAddr : Z) : M Machine after_switch :=
  RaiseException which badVAddr ;;; ret Trapped.

(** [if (!machine->ReadMem(addr, size, &value)) return;] *)
Definition load_or_return (addr size : Z) (k : Z → M Machine after_switch) : M Machine after_switch :=
  let! r := ReadMem addr size in
  match r with (true, Some value) => k value | _ => ret Trapped end.
Definition store_or_return (addr size v : Z) (k : M Machine after_switch) : M Machine after_switch :=
  let! ok := WriteMem addr size v in
  if (ok : bool) then k else ret Trapped.

(** The switch. *)
Definition execute (i : Instruction) (pcAfter : Z) : M Machine after_switch :=
  let next := ret (Next pcAfter 0 0) in
  let load v := ret (Next pcAfter (rt i) v) in
  let branch := let! n := reg NextPCReg in ret (Next (s32 (n + IndexToAddr (extra i))) 0 0) in
  let link r := let! n := reg NextPCReg in set_reg r (s32 (n + 4)) in
  let bgez := let! a := reg (rs i) in if negb (sign_set a) then branch else next in
  let bltz := let! a := reg (rs i) in if sign_set a then branch else next in
  let jump := ret (Next (s32 (Z.lor (Z.land (u32 pcAfter) 0xf0000000) (u32 (IndexToAddr (extra i))))) 0 0) in
  let jr := let! a := reg (rs i) in ret (Next a 0 0) in
  let arith2 (f : Z → Z → Z) :=
    let! a := reg (rs i) in let! b := reg (rt i) in set_reg (rd i) (f a b) ;;; next in
  let arith1 (f : Z → Z) := let! a := reg (rs i) in set_reg (rt i) (f a) ;;; next in
  let shift (f : Z → Z) := let! b := reg (rt i) in set_reg (rd i) (f b) ;;; next in
  let move from to := let! a := reg from in set_reg to a ;;; next in
  let multiply signedArith :=
    let! a := reg (rs i) in let! b := reg (rt i) in
    let r := Mult a b signedArith in
    set_reg HiReg r.1 ;;; set_reg LoReg r.2 ;;; next in
  let address k := let! a := reg (rs i) in k (s32 (a + extra i)) in
  let store size :=
    let! a := reg (rs i) in let! b := reg (rt i) in
    store_or_return (s32 (a + extra i)) size b next in
  (** [nextLoadValue] before the bytes of an LWL or LWR are merged in. *)
  let pending :=
    let! l := reg LoadReg in if l =? rt i then reg LoadValueReg else reg (rt i) in
  match opCode i with
  | OP_ADD =>
      let! a := reg (rs i) in let! b := reg (rt i) in
      let sum := s32 (a + b) in
      if negb (sign_set (Z.lxor a b)) && sign_set (Z.lxor a sum) then trap OverflowException 0
      else set_reg (rd i) sum ;;; next
  | OP_ADDI =>
      let! a := reg (rs i) in
      let sum := s32 (a + extra i) in
      if negb (sign_set (Z.lxor a (extra i))) && sign_set (Z.lxor (extra i) sum) then trap OverflowException 0
      else set_reg (rt i) sum ;;; next
  | OP_ADDIU => arith1 (λ a, s32 (a + extra i))
  | OP_ADDU => arith2 (λ a b, s32 (a + b))
  | OP_AND => arith2 Z.land
  | OP_ANDI => arith1 (λ a, Z.land a (Z.land (extra i) 0xffff))
  | OP_BEQ => let! a := reg (rs i) in let! b := reg (rt i) in if a =? b then branch else next
  | OP_BGEZAL => link R31 ;;; bgez
  | OP_BGEZ => bgez
  | OP_BGTZ => let! a := reg (rs i) in if 0 <? a then branch else next
  | OP_BLEZ => let! a := reg (rs i) in if a <=? 0 then branch else next
  | OP_BLTZAL => link R31 ;;; bltz
  | OP_BLTZ => bltz
  | OP_BNE => let! a := reg (rs i) in let! b := reg (rt i) in if negb (a =? b) then branch else next
  | OP_DIV =>
      let! b := reg (rt i) in
      if b =? 0 then set_reg LoReg 0 ;;; set_reg HiReg 0 ;;; next
      else
        let! a := reg (rs i) in
        if (a =? INT_MIN) && (b =? -1) then fail DivOverflow
        else set_reg LoReg (Z.quot a b) ;;; set_reg HiReg (Z.rem a b) ;;; next
  | OP_DIVU =>
      let! a := reg (rs i) in let! b := reg (rt i) in
      if u32 b =? 0 then set_reg LoReg 0 ;;; set_reg HiReg 0 ;;; next
      else set_reg LoReg (s32 (u32 a / u32 b)) ;;; set_reg HiReg (s32 (u32 a mod u32 b)) ;;; next
  | OP_JAL => link R31 ;;; jump
  | OP_J => jump
  | OP_JALR => link (rd i) ;;; jr
  | OP_JR => jr
  | OP_LB => address (λ tmp, load_or_return tmp 1 (λ value,
      load (if negb (Z.land value 0x80 =? 0) then s32 (Z.lor (u32 value) 0xffffff00) else Z.land value 0xff)))
  | OP_LBU => address (λ tmp, load_or_return tmp 1 (λ value, load (Z.land value 0xff)))
  | OP_LH => address (λ tmp,
      if negb (Z.land tmp 0x1 =? 0) then trap AddressErrorException tmp
      else load_or_return tmp 2 (λ value,
        load (if negb (Z.land value 0x8000 =? 0) then s32 (Z.lor (u32 value) 0xffff0000) else Z.land value 0xffff)))
  | OP_LHU => address (λ tmp,
      if negb (Z.land tmp 0x1 =? 0) then trap AddressErrorException tmp
      else load_or_return tmp 2 (λ value, load (Z.land value 0xffff)))
  | OP_LUI => set_reg (rt i) (s32 (Z.shiftl (extra i) 16)) ;;; next
  | OP_LW => address (λ tmp,
      if negb (Z.land tmp 0x3 =? 0) then trap AddressErrorException tmp
      else load_or_return tmp 4 load)
  | OP_LWL => address (λ tmp,
      ASSERT (Z.land tmp 0x3 =? 0) ;;;
      load_or_return tmp 4 (λ value,
        let! old := pending in
        let k := Z.land tmp 0x3 in
        load (if k =? 0 then value
              else if k =? 1 then Z.lor (Z.land old 0xff) (s32 (Z.shiftl value 8))
              else if k =? 2 then Z.lor (Z.land old 0xffff) (s32 (Z.shiftl value 16))
              else Z.lor (Z.land old 0xffffff) (s32 (Z.shiftl value 24)))))
  | OP_LWR => address (λ tmp,
      ASSERT (Z.land tmp 0x3 =? 0) ;;;
      load_or_return tmp 4 (λ value,
        let! old := pending in
        let k := Z.land tmp 0x3 in
        load (if k =? 0 then s32 (Z.lor (Z.land (u32 old) 0xffffff00) (Z.land (Z.shiftr value 24) 0xff))
              else if k =? 1 then s32 (Z.lor (Z.land (u32 old) 0xffff0000) (Z.land (Z.shiftr value 16) 0xffff))
              else if k =? 2 then s32 (Z.lor (Z.land (u32 old) 0xff000000) (Z.land (Z.shiftr value 8) 0xffffff))
              else value)))
  | OP_MFHI => move HiReg (rd i)
  | OP_MFLO => move LoReg (rd i)
  | OP_MTHI => move (rs i) HiReg
  | OP_MTLO => move (rs i) LoReg
  | OP_MULT => multiply true
  | OP_MULTU => multiply false
  | OP_NOR => arith2 (λ a b, Z.lnot (Z.lor a b))
  | OP_OR => let! a := reg (rs i) in let! b := reg (rs i) in set_reg (rd i) (Z.lor a b) ;;; next
  | OP_ORI => arith1 (λ a, Z.lor a (Z.land (extra i) 0xffff))
  | OP_SB => store 1
  | OP_SH => store 2
  | OP_SLL => shift (λ b, s32 (Z.shiftl b (extra i)))
  | OP_SLLV => arith2 (λ a b, s32 (Z.shiftl b (Z.land a 0x1f)))
  | OP_SLT => arith2 (λ a b, if a <? b then 1 else 0)
  | OP_SLTI => arith1 (λ a, if a <? extra i then 1 else 0)
  | OP_SLTIU => arith1 (λ a, if u32 a <? u32 (extra i) then 1 else 0)
  | OP_SLTU => arith2 (λ a b, if u32 a <? u32 b then 1 else 0)
  | OP_SRA => shift (λ b, Z.shiftr b (extra i))
  | OP_SRAV => arith2 (λ a b, Z.shiftr b (Z.land a 0x1f))
  | OP_SRL => shift (λ b, let tmp := b in Z.shiftr tmp (extra i))
  | OP_SRLV => arith2 (λ a b, let tmp := b in Z.shiftr tmp (Z.land a 0x1f))
  | OP_SUB =>
      let! a := reg (rs i) in let! b := reg (rt i) in
      let diff := s32 (a - b) in
      if sign_set (Z.lxor a b) && sign_set (Z.lxor a diff) then trap OverflowException 0
      else set_reg (rd i) diff ;;; next
  | OP_SUBU => arith2 (λ a b, s32 (a - b))
  | OP_SW => store 4
  | OP_SWL => address (λ tmp,
      ASSERT (Z.land tmp 0x3 =? 0) ;;;
      load_or_return (Z.land tmp (Z.lnot 0x3)) 4 (λ value,
        let! b := reg (rt i) in
        let k := Z.land tmp 0x3 in
        let value :=
          if k =? 0 then b
          else if k =? 1 then s32 (Z.lor (Z.land (u32 value) 0xff000000) (Z.land (Z.shiftr b 8) 0xffffff))
          else if k =? 2 then s32 (Z.lor (Z.land (u32 value) 0xffff0000) (Z.land (Z.shiftr b 16) 0xffff))
          else s32 (Z.lor (Z.land (u32 value) 0xffffff00) (Z.land (Z.shiftr b 24) 0xff)) in
        store_or_return (Z.land tmp (Z.lnot 0x3)) 4 value next))
  | OP_SWR => address (λ tmp,
      ASSERT (Z.land tmp 0x3 =? 0) ;;;
      load_or_return (Z.land tmp (Z.lnot 0x3)) 4 (λ value,
        let! b := reg (rt i) in
        let k := Z.land tmp 0x3 in
        let value :=
          if k =? 0 then Z.lor (Z.land value 0xffffff) (s32 (Z.shiftl b 24))
          else if k =? 1 then Z.lor (Z.land value 0xffff) (s32 (Z.shiftl b 16))
          else if k =? 2 then Z.lor (Z.land value 0xff) (s32 (Z.shiftl b 8))
          else b in
        store_or_return (Z.land tmp (Z.lnot 0x3)) 4 value next))
  | OP_SYSCALL => trap SyscallException 0
  | OP_XOR => arith2 Z.lxor
  | OP_XORI => arith1 (λ a, Z.lxor a (Z.land (extra i) 0xffff))
  | OP_RES | OP_UNIMP => trap IllegalInstrException 0
  | OP_RFE | SPECIAL | BCOND => fail AssertFailed
  end.

Definition OneInstruction : M Machine unit :=
  let! pc := reg PCReg in
  let! r := ReadMem pc 4 in
  match r with
  | (true, Some raw) =>
      let! instr := lift (Decode (u32 raw)) in
      let! n := reg NextPCReg in
      let pcAfter := s32 (n + 4) in
      let! x := execute instr pcAfter in
      match x with
      | Trapped => ret ()
      | Next pcAfter nextLoadReg nextLoadValue =>
          DelayedLoad nextLoadReg nextLoadValue ;;;
          let! pc := reg PCReg in set_reg PrevPCReg pc ;;;
          let! n := reg NextPCReg in set_reg PCReg n ;;;
          set_reg NextPCReg pcAfter
      end
  | _ => ret ()
  end.

(** [n] rounds of the loop of [Machine::Run]; [OneTick] is the clock of
    [interrupt]. *)
Fixpoint Run_loop (OneTick : M Machine unit) (n : nat) : M Machine unit :=
  match n with
  | O => ret ()
  | S n' => OneInstruction ;;; OneTick ;;; Run_loop OneTick n'
  end.
Definition Run (OneTick : M Machine unit) (n : nat) : M Machine unit :=
  modify (with_mode UserMode) ;;; Run_loop OneTick n.
End execute.

(** ** Multiplication *)

(** The 64-bit word in two halves. *)
Definition word64 (hi lo : Z) : Z := hi * 2 ^ 32 + lo.

Lemma sign_bit x : 0 <= x < 2 ^ 32 → negb (Z.land x 0x80000000 =? 0) = (2 ^ 31 <=? x).
Proof.
  intros Hx. change 0x80000000 with (Z.shiftl (Z.ones 1) 31). rewrite land_field by lia. lia.
Qed.

Lemma lowest_bit x : negb (Z.land x 1 =? 0) = (x mod 2 =? 1).
Proof. change 1 with (Z.ones 1) at 1. rewrite Z.land_ones by lia. lia. Qed.

Lemma upper_bits x : 0 <= x < 2 ^ 32 → (Z.land x 0xfffffffe =? 0) = (x <=? 1).
Proof.
  intros Hx. change 0xfffffffe with (Z.shiftl (Z.ones 31) 1). rewrite land_field by lia. lia.
Qed.

Lemma double64 hi lo : 0 <= hi < 2 ^ 32 → 0 <= lo < 2 ^ 32 →
  let hi' := if negb (Z.land lo 0x80000000 =? 0) then Z.lor (u32 (Z.shiftl hi 1)) 1 else u32 (Z.shiftl hi 1) in
  0 <= hi' < 2 ^ 32 ∧ word64 hi' (u32 (Z.shiftl lo 1)) = (2 * word64 hi lo) mod 2 ^ 64.
Proof.
  intros Hh Hl. rewrite sign_bit by done. rewrite !Z.shiftl_mul_pow2 by lia. unfold word64, u32. cbn zeta.
  assert (Z.lor ((hi * 2 ^ 1) mod 2 ^ 32) 1 = (hi * 2 ^ 1) mod 2 ^ 32 + 1) as ->.
  { rewrite Z.lor_comm. replace ((hi * 2 ^ 1) mod 2 ^ 32) with (2 ^ 1 * (hi mod 2 ^ 31)) by lia.
    rewrite lor_parts by lia. ring. }
  destruct (Z.leb_spec (2 ^ 31) lo); lia.
Qed.

Lemma add64 hi lo bHi bLo : 0 <= lo < 2 ^ 32 → 0 <= bLo < 2 ^ 32 →
  let lo' := u32 (lo + bLo) in
  let hi' := u32 (u32 (hi + (if lo' <? bLo then 1 else 0)) + bHi) in
  word64 hi' lo' = (word64 hi lo + word64 bHi bLo) mod 2 ^ 64.
Proof. intros Hl Hb. unfold word64, u32. cbn zeta. destruct (Z.ltb_spec ((lo + bLo) mod 2 ^ 32) bLo); lia. Qed.

Lemma word64_inj hi lo x : 0 <= hi < 2 ^ 32 → 0 <= lo < 2 ^ 32 → word64 hi lo = x →
  hi = x / 2 ^ 32 ∧ lo = x mod 2 ^ 32.
Proof. unfold word64. lia. Qed.

(** The low [n] bits of [a] are still to be multiplied. *)
Lemma mult_loop_spec n a bHi bLo hi lo : (n <= 32)%nat →
  0 <= bHi < 2 ^ 32 → 0 <= bLo < 2 ^ 32 → 0 <= hi < 2 ^ 32 → 0 <= lo < 2 ^ 32 →
  let r := mult_loop n a bHi bLo hi lo in
  (0 <= r.1 < 2 ^ 32 ∧ 0 <= r.2 < 2 ^ 32) ∧
  word64 r.1 r.2 = (word64 hi lo + word64 bHi bLo * (a mod 2 ^ Z.of_nat n)) mod 2 ^ 64.
Proof.
  revert a bHi bLo hi lo. induction n as [|n IH]; intros a bHi bLo hi lo Hn HbH HbL Hh Hl; cbn [mult_loop].
  { cbn. rewrite Z.mod_1_r, Z.mul_0_r, Z.add_0_r. split; [done|]. unfold word64. lia. }
  destruct (double64 bHi bLo HbH HbL) as [Hr2 H2].
  set (bHi' := if negb (Z.land bLo 0x80000000 =? 0) then _ else _) in *. cbn zeta.
  assert (a mod 2 ^ Z.of_nat (S n) = a mod 2 + 2 * (Z.shiftr a 1 mod 2 ^ Z.of_nat n)) as Ha.
  { rewrite Z.shiftr_div_pow2, Nat2Z.inj_succ, Z.pow_succ_r by lia. change (2 ^ 1) with 2.
    rewrite Z.rem_mul_r; [done|lia|]. by apply Z.pow_pos_nonneg; lia. }
  rewrite lowest_bit, Ha. set (rest := Z.shiftr a 1 mod 2 ^ Z.of_nat n) in *.
  assert (∀ hi lo, 0 <= hi < 2 ^ 32 → 0 <= lo < 2 ^ 32 →
    let r := mult_loop n (Z.shiftr a 1) bHi' (u32 (Z.shiftl bLo 1)) hi lo in
    (0 <= r.1 < 2 ^ 32 ∧ 0 <= r.2 < 2 ^ 32) ∧
    word64 r.1 r.2 = (word64 hi lo + 2 * word64 bHi bLo * rest) mod 2 ^ 64) as Hgo.
  { intros hi' lo' Hh' Hl'. destruct (IH (Z.shiftr a 1) bHi' (u32 (Z.shiftl bLo 1)) hi' lo') as [Hr Hw];
      [lia|done|apply u32_range|done|done|]. split; [exact Hr|]. cbn zeta. rewrite Hw, H2. fold rest.
    rewrite <- Z.add_mod_idemp_r, Z.mul_mod_idemp_l, Z.add_mod_idemp_r by done. done. }
  destruct (Z.eqb_spec (a mod 2) 1) as [Hodd|Heven].
  - pose proof (add64 hi lo bHi bLo Hl HbL) as Hadd. cbn zeta in Hadd.
    rewrite upper_bits by apply u32_range.
    match type of Hadd with word64 ?h ?l = _ => set (hi' := h) in *; set (lo' := l) in * end.
    assert (0 <= hi' < 2 ^ 32) by apply u32_range. assert (0 <= lo' < 2 ^ 32) by apply u32_range.
    destruct (Z.leb_spec (u32 a) 1) as [H1|_].
    + cbn. split; [done|]. rewrite Hadd, Hodd. assert (rest = 0) as ->; [|f_equal; ring].
      unfold rest. rewrite Z.shiftr_div_pow2 by lia. change (2 ^ 1) with 2.
      assert (∃ q, a = 1 + 2 ^ 32 * q) as [q ->] by (exists (a / 2 ^ 32); unfold u32 in H1; lia).
      replace ((1 + 2 ^ 32 * q) / 2) with (2 ^ Z.of_nat n * (2 ^ (31 - Z.of_nat n) * q)).
      * rewrite Z.mul_comm. apply Z.mod_mul. apply Z.pow_nonzero; lia.
      * rewrite Z.mul_assoc, <- Z.pow_add_r by lia. replace (Z.of_nat n + (31 - Z.of_nat n)) with 31 by lia. lia.
    + destruct (Hgo hi' lo') as [Hr Hw]; [done..|]. split; [exact Hr|]. cbn zeta. rewrite Hw, Hadd, Hodd.
      rewrite Z.add_mod_idemp_l by done. f_equal. ring.
  - destruct (Hgo hi lo) as [Hr Hw]; [done..|]. split; [exact Hr|]. cbn zeta. rewrite Hw.
    replace (a mod 2) with 0 by lia. f_equal. ring.
Qed.

Definition int (x : Z) : Prop := - 2 ^ 31 <= x < 2 ^ 31.

Lemma s32_int x : int (s32 x).
Proof. unfold int, s32, u32. destruct (Z.ltb_spec (x mod 2 ^ 32) (2 ^ 31)); lia. Qed.
Lemma s32_id x : int x → s32 x = x.
Proof. unfold int, s32, u32. destruct (Z.ltb_spec (x mod 2 ^ 32) (2 ^ 31)); lia. Qed.

Lemma u32_id x : 0 <= x < 2 ^ 32 → u32 x = x.
Proof. apply Z.mod_small. Qed.

Lemma negate64 hi lo : 0 <= hi < 2 ^ 32 → 0 <= lo < 2 ^ 32 → 0 < word64 hi lo <= 2 ^ 62 →
  let lo' := u32 (u32 (Z.lnot lo) + 1) in
  let hi' := if lo' =? 0 then u32 (u32 (Z.lnot hi) + 1) else u32 (Z.lnot hi) in
  word64 (s32 hi') (u32 (s32 lo')) = - word64 hi lo.
Proof.
  intros Hh Hl Hp. cbn zeta. rewrite u32_s32 by apply u32_range.
  assert (∀ x, 0 <= x < 2 ^ 32 → u32 (Z.lnot x) = 2 ^ 32 - 1 - x) as Hnot by (intros; unfold Z.lnot, u32; lia).
  rewrite !Hnot by done. assert (u32 (2 ^ 32 - 1 - hi + 1) = (2 ^ 32 - hi) mod 2 ^ 32) as ->.
  { unfold u32. f_equal. ring. }
  unfold word64 in *. destruct (Z.eqb_spec lo 0) as [->|].
  - change (u32 (2 ^ 32 - 1 - 0 + 1)) with 0. cbn [Z.eqb]. rewrite Z.mod_small by lia. unfold s32.
    rewrite u32_id by lia. destruct (Z.ltb_spec (2 ^ 32 - hi) (2 ^ 31)); lia.
  - rewrite (u32_id (2 ^ 32 - 1 - lo + 1)) by lia. destruct (Z.eqb_spec (2 ^ 32 - 1 - lo + 1) 0); [lia|].
    unfold s32. rewrite u32_id by lia. destruct (Z.ltb_spec (2 ^ 32 - 1 - hi) (2 ^ 31)); lia.
Qed.

(** The two words that MULT and MULTU leave in Hi and Lo are the
    whole 64-bit product of the signed, or of the unsigned, values of the
    registers: no carry is lost, also for the most negative number and when
    the loop ends early. *)
Theorem Mult_product a b signedArith : int a → int b →
  let r := Mult a b signedArith in
  int r.1 ∧ int r.2 ∧
  word64 (if signedArith then r.1 else u32 r.1) (u32 r.2) =
    (if signedArith then a * b else u32 a * u32 b).
Proof.
  intros Ha Hb. cbn zeta. unfold Mult.
  destruct (Z.eqb_spec a 0) as [->|Ha0]; [by destruct signedArith; cbn; rewrite ?Z.mul_0_l|].
  destruct (Z.eqb_spec b 0) as [->|Hb0]; [by destruct signedArith; cbn; rewrite ?Z.mul_0_r|]. cbn [orb].
  set (a' := if _ : bool then s32 (- a) else a). set (b' := if _ : bool then s32 (- b) else b).
  destruct (mult_loop_spec 32 a' 0 (u32 b') 0 0) as [Hr Hw]; [lia|lia|apply u32_range|lia..|].
  destruct (mult_loop 32 a' 0 (u32 b') 0 0) as [hi lo]. cbn [fst snd] in Hr, Hw. destruct Hr as [Hh Hl].
  change (word64 0 0) with 0 in Hw. change (word64 0 (u32 b')) with (u32 b') in Hw.
  change (a' mod 2 ^ Z.of_nat 32) with (u32 a') in Hw. rewrite Z.add_0_l in Hw.
  destruct signedArith; cbn [andb] in *.
  - assert (u32 a' = Z.abs a) as Ea by (unfold a', int in *; destruct (Z.ltb_spec a 0); unfold s32, u32; destruct (Z.ltb_spec (- a mod 2 ^ 32) (2 ^ 31)); lia).
    assert (u32 b' = Z.abs b) as Eb by (unfold b', int in *; destruct (Z.ltb_spec b 0); unfold s32, u32; destruct (Z.ltb_spec (- b mod 2 ^ 32) (2 ^ 31)); lia).
    rewrite Ea, Eb in Hw. assert (0 < Z.abs b * Z.abs a <= 2 ^ 62) as Hp by (unfold int in *; nia).
    rewrite Z.mod_small in Hw by lia. rewrite <- Hw in Hp.
    destruct (xorb (a <? 0) (b <? 0)) eqn:Hneg; cbn [fst snd].
    + split; [apply s32_int|]. split; [apply s32_int|]. pose proof (negate64 hi lo Hh Hl Hp) as Hn. cbn zeta in Hn.
      rewrite Hn, Hw. destruct (Z.ltb_spec a 0), (Z.ltb_spec b 0); try done; nia.
    + split; [apply s32_int|]. split; [apply s32_int|]. rewrite u32_s32 by done.
      rewrite s32_id by (unfold word64, int in *; lia). rewrite Hw.
      destruct (Z.ltb_spec a 0), (Z.ltb_spec b 0); try done; nia.
  - cbn [fst snd]. split; [apply s32_int|]. split; [apply s32_int|]. rewrite !u32_s32 by done.
    rewrite Hw. pose proof (u32_range a). pose proof (u32_range b). unfold a', b'. rewrite Z.mod_small by nia. ring.
Qed.

(** ** Fields of an instruction word *)

(** [n] bits of the word from bit [k] up, and a 16-bit number with its sign. *)
Definition field (w k n : Z) : Z := (w / 2 ^ k) mod 2 ^ n.
Definition s16 (x : Z) : Z := if x <? 2 ^ 15 then x else x - 2 ^ 16.

Lemma field_land w k n mask : 0 <= k → 0 <= n → mask = Z.ones n → Z.land (Z.shiftr w k) mask = field w k n.
Proof. intros Hk Hn ->. unfold field. by rewrite Z.land_ones, Z.shiftr_div_pow2. Qed.

Lemma field_bounds w k n : 0 <= n → 0 <= field w k n < 2 ^ n.
Proof. intros Hn. apply Z.mod_pos_bound. by apply Z.pow_pos_nonneg. Qed.

Lemma sign_extend w :
  (if negb (Z.land (Z.land w 0xffff) 0x8000 =? 0) then s32 (Z.lor (Z.land w 0xffff) 0xffff0000)
   else Z.land w 0xffff) = s16 (field w 0 16).
Proof.
  pose proof (field_bounds w 0 16 ltac:(lia)) as Hf.
  assert (Z.land w 0xffff = field w 0 16) as ->.
  { rewrite <- (field_land w 0 16 0xffff) by done. by rewrite Z.shiftr_0_r. }
  set (x := field w 0 16) in *. change 0x8000 with (Z.shiftl (Z.ones 1) 15). rewrite land_field by lia.
  change 0xffff0000 with (2 ^ 16 * 0xffff). rewrite lor_parts by lia. unfold s16.
  destruct (Z.ltb_spec x (2 ^ 15)).
  - assert (x / 2 ^ 15 mod 2 ^ 1 = 0) as -> by lia. done.
  - assert (x / 2 ^ 15 mod 2 ^ 1 = 1) as -> by lia. change (negb (2 ^ 15 * 1 =? 0)) with true. cbv iota.
    unfold s32. rewrite u32_id by lia.
    destruct (Z.ltb_spec (x + 2 ^ 16 * 65535) (2 ^ 31)); lia.
Qed.

Definition branch_code (rt : Z) : OpCode :=
  if rt =? 0 then OP_BLTZ else if rt =? 1 then OP_BGEZ
  else if rt =? 16 then OP_BLTZAL else if rt =? 17 then OP_BGEZAL else OP_UNIMP.

(** What the three formats say of a word. *)
Definition well_decoded (w : Z) (i : Instruction) : Prop :=
  value i = w ∧ rs i = field w 21 5 ∧ rt i = field w 16 5 ∧ rd i = field w 11 5 ∧
  let op := field w 26 6 in
  if op =? 0 then specialTable !! Z.to_nat (field w 0 6) = Some (opCode i) ∧ extra i = field w 6 5
  else if op =? 1 then opCode i = branch_code (rt i) ∧ extra i = s16 (field w 0 16)
  else if op =? 2 then opCode i = OP_J ∧ extra i = field w 0 26
  else if op =? 3 then opCode i = OP_JAL ∧ extra i = field w 0 26
  else opTable !! Z.to_nat op = Some (opCode i, IFMT) ∧ extra i = s16 (field w 0 16).

Definition plain (op : OpCode) : bool := bool_decide (op ≠ SPECIAL ∧ op ≠ BCOND ∧ op ≠ OP_RFE).

Lemma specialTable_plain k op : specialTable !! k = Some op → plain op = true.
Proof.
  assert (forallb plain specialTable = true) as H by reflexivity.
  rewrite forallb_forall in H. intros Hk. apply H. apply list_elem_of_In. by eapply list_elem_of_lookup_2.
Qed.

Lemma opTable_rows k op f : opTable !! k = Some (op, f) → (4 <= k)%nat →
  f = IFMT ∧ plain op = true.
Proof.
  assert (forallb (λ p, match p.2 with IFMT => plain p.1 | _ => false end) (drop 4 opTable) = true) as H by reflexivity.
  rewrite forallb_forall in H. intros Hk Hle.
  assert ((op, f) ∈ drop 4 opTable) as Hin.
  { apply list_elem_of_lookup_2 with (k - 4)%nat. rewrite lookup_drop. by replace (4 + (k - 4))%nat with k by lia. }
  apply list_elem_of_In, H in Hin. by destruct f.
Qed.

Lemma branch_code_bits w :
  (if Z.land w 0x1f0000 =? 0 then OP_BLTZ else if Z.land w 0x1f0000 =? 0x10000 then OP_BGEZ
   else if Z.land w 0x1f0000 =? 0x100000 then OP_BLTZAL else if Z.land w 0x1f0000 =? 0x110000 then OP_BGEZAL
   else OP_UNIMP) = branch_code (field w 16 5).
Proof.
  change 0x1f0000 with (Z.shiftl (Z.ones 5) 16). rewrite land_field by lia. fold (field w 16 5).
  unfold branch_code. repeat case_match; try done; lia.
Qed.

Lemma Decode_fields w : ∃ i, Decode w = Done i ∧ well_decoded w i ∧ plain (opCode i) = true.
Proof.
  unfold Decode. rewrite sign_extend.
  rewrite (field_land w 21 5), (field_land w 16 5), (field_land w 11 5), (field_land w 26 6), (field_land w 6 5) by done.
  assert (∀ n mask, 0 <= n → mask = Z.ones n → Z.land w mask = field w 0 n) as Hlow.
  { intros n mask Hn ->. rewrite <- (field_land w 0 n (Z.ones n)) by done. by rewrite Z.shiftr_0_r. }
  rewrite (Hlow 26 0x3ffffff), (Hlow 6 0x3f) by done.
  pose proof (field_bounds w 26 6 ltac:(lia)) as Hop. pose proof (field_bounds w 0 6 ltac:(lia)) as Hfn.
  destruct (vget_in opTable (field w 26 6)) as ([op f] & -> & Hrow); [change (length opTable) with 64%nat; lia|].
  unfold well_decoded. cbn [obind fst snd]. set (k := field w 26 6) in *.
  destruct (Z.eqb_spec k 0) as [E|N0]; [|destruct (Z.eqb_spec k 1) as [E|N1];
    [|destruct (Z.eqb_spec k 2) as [E|N2]; [|destruct (Z.eqb_spec k 3) as [E|N3]]]].
  - rewrite E in Hrow. injection Hrow as <- <-. rewrite bool_decide_true by done.
    destruct (vget_in specialTable (field w 0 6)) as (op & -> & Hs); [change (length specialTable) with 64%nat; lia|].
    eexists. split; [done|]. split; [by split_and!|]. by eapply specialTable_plain.
  - rewrite E in Hrow. injection Hrow as <- <-. rewrite bool_decide_false, bool_decide_true by done.
    eexists. split; [done|]. cbn [value opCode rs rt rd extra]. rewrite branch_code_bits.
    split; [by split_and!|]. unfold branch_code. by repeat case_match.
  - rewrite E in Hrow. injection Hrow as <- <-. rewrite !bool_decide_false by done.
    eexists. split; [done|]. by split_and!.
  - rewrite E in Hrow. injection Hrow as <- <-. rewrite !bool_decide_false by done.
    eexists. split; [done|]. by split_and!.
  - destruct (opTable_rows _ _ _ Hrow) as [-> Hp]; [lia|]. unfold plain in Hp. apply bool_decide_eq_true in Hp.
    rewrite !bool_decide_false by naive_solver. eexists. split; [done|].
    split; [by split_and!|]. by apply bool_decide_eq_true.
Qed.

(** ** [int] is closed under the operations of the switch *)

Create HintDb mips.

Lemma int_shift x : int x ↔ Z.shiftr x 31 = 0 ∨ Z.shiftr x 31 = -1.
Proof. rewrite Z.shiftr_div_pow2 by lia. unfold int. lia. Qed.

Lemma int_land x y : int x → int y → int (Z.land x y).
Proof. rewrite !int_shift, Z.shiftr_land. by intros [-> | ->] [-> | ->]; auto. Qed.
Lemma int_lor x y : int x → int y → int (Z.lor x y).
Proof. rewrite !int_shift, Z.shiftr_lor. by intros [-> | ->] [-> | ->]; auto. Qed.
Lemma int_lxor x y : int x → int y → int (Z.lxor x y).
Proof. rewrite !int_shift, Z.shiftr_lxor. by intros [-> | ->] [-> | ->]; auto. Qed.
Lemma int_lnot x : int x → int (Z.lnot x).
Proof. unfold int, Z.lnot. lia. Qed.
Lemma int_shiftr x k : 0 <= k → int x → int (Z.shiftr x k).
Proof.
  intros Hk. rewrite Z.shiftr_div_pow2 by done. unfold int. intros Hx.
  assert (0 < 2 ^ k) by (by apply Z.pow_pos_nonneg). split.
  - apply Z.div_le_lower_bound; nia.
  - apply Z.div_lt_upper_bound; nia.
Qed.
Lemma int_if (b : bool) x y : int x → int y → int (if b then x else y).
Proof. by destruct b. Qed.
Lemma int_const x : (- 2 ^ 31 <=? x) && (x <? 2 ^ 31) = true → int x.
Proof. unfold int. lia. Qed.
Lemma int_quot a b : int a → int b → (b =? 0) = false → (a =? INT_MIN) && (b =? -1) = false → int (Z.quot a b).
Proof. unfold int, INT_MIN. intros Ha Hb H0 H1. assert (b = -1 ∨ b = 1 ∨ b <= -2 ∨ 2 <= b) by lia. nia. Qed.
Lemma int_rem a b : int a → int b → (b =? 0) = false → int (Z.rem a b).
Proof. unfold int. intros Ha Hb H0. lia. Qed.
Lemma int_narrow size v : size = 1 ∨ size = 2 ∨ size = 4 → int (narrow size v).
Proof.
  intros [->|[->| ->]]; unfold narrow; cbn [Z.eqb Pos.eqb]; [| |apply s32_int].
  - unfold int, s8. destruct (Z.ltb_spec (v mod 256) 128); lia.
  - unfold int, u16. lia.
Qed.
Lemma int_Mult_hi a b sg : int (Mult a b sg).1.
Proof.
  unfold Mult. destruct (_ || _); [done|]. destruct (mult_loop _ _ _ _ _ _). case_match; apply s32_int.
Qed.
Lemma int_Mult_lo a b sg : int (Mult a b sg).2.
Proof.
  unfold Mult. destruct (_ || _); [done|]. destruct (mult_loop _ _ _ _ _ _). case_match; apply s32_int.
Qed.
Lemma shift_nonneg a : 0 <= Z.land a 0x1f.
Proof. change 0x1f with (Z.ones 5). rewrite Z.land_ones by lia. lia. Qed.
#[export] Hint Resolve s32_int int_land int_lor int_lxor int_lnot int_shiftr int_if int_narrow
  int_quot int_rem int_Mult_hi int_Mult_lo shift_nonneg : mips.
#[export] Hint Extern 1 (int _) => apply int_const; reflexivity : mips.

(** ** What a program can do to the machine *)

(** The registers hold [int]s and the pending load has a register to go to. *)
Record cpu_ok (m : Machine) : Prop := {
  co_machine : machine_wf m;
  co_length : length (registers m) = Z.to_nat NumTotalRegs;
  co_int : Forall int (registers m);
  co_load : ∀ l, registers m !! Z.to_nat LoadReg = Some l → 0 <= l < 32
}.

(** Nothing the program sees is different. *)
Definition same_program (m m' : Machine) : Prop :=
  registers m' = registers m ∧ mainMemory m' = mainMemory m ∧ mode m' = mode m ∧ totalTicks m' = totalTicks m.

Definition instr_ok (i : Instruction) : Prop :=
  (0 <= rs i < 32 ∧ 0 <= rt i < 32 ∧ 0 <= rd i < 32) ∧ int (extra i) ∧ plain (opCode i) = true ∧
  (opCode i ∈ [OP_SLL; OP_SRA; OP_SRL] → 0 <= extra i < 32).

(** The instructions the simulator does not survive: an unaligned LWL, LWR, SWL
    or SWR, and the one quotient that is not an [int]. *)
Definition hazard (i : Instruction) (m : Machine) (f : fault) : Prop :=
  match opCode i with
  | OP_LWL | OP_LWR | OP_SWL | OP_SWR => f = AssertFailed ∧
      ∃ a, registers m !! Z.to_nat (rs i) = Some a ∧ Z.land (s32 (a + extra i)) 0x3 ≠ 0
  | OP_DIV => f = DivOverflow ∧ registers m !! Z.to_nat (rs i) = Some INT_MIN ∧
      registers m !! Z.to_nat (rt i) = Some (-1)
  | _ => False
  end.

Definition Handler : Type := ExceptionType → M Machine unit.

(** [c], run from [m] whatever the handler, leaves the switch with the control
    registers of [m0], or traps before the program can see a difference to
    [m0], or stops the simulator in the way [stop] says. *)
Inductive exec_ok (stop : fault → Prop) (m0 m : Machine) (c : Handler → M Machine after_switch) : Prop :=
| exec_next pc r v m' : (∀ h, c h m = Done (Next pc r v, m')) → int pc → 0 <= r < 32 → int v → cpu_ok m' →
    (∀ j, (34 <= j)%nat → registers m' !! j = registers m0 !! j) → exec_ok stop m0 m c
| exec_trap which bad m1 : (∀ h, c h m = trap h which bad m1) → int bad → cpu_ok m1 → same_program m0 m1 →
    exec_ok stop m0 m c
| exec_stop f : (∀ h, c h m = Fault f) → stop f → exec_ok stop m0 m c.

Lemma reg_some m r : cpu_ok m → 0 <= r < NumTotalRegs →
  ∃ a, registers m !! Z.to_nat r = Some a ∧ int a ∧ reg r m = Done (a, m).
Proof.
  intros Hm Hr. destruct (vget_in (registers m) r) as (a & Hg & Ha); [rewrite (co_length _ Hm); done|].
  exists a. split; [done|]. split; [by eapply (Forall_lookup_1 _ _ _ _ (co_int _ Hm))|].
  unfold reg, bind, get, lift. by rewrite Hg.
Qed.

Lemma set_reg_some m r v : cpu_ok m → 0 <= r < NumTotalRegs →
  set_reg r v m = Done ((), with_registers (<[Z.to_nat r := v]> (registers m)) m).
Proof.
  intros Hm Hr. unfold set_reg, bind, get, lift. rewrite vset_in; [done|]. by rewrite (co_length _ Hm).
Qed.

Lemma cpu_ok_set m r v : cpu_ok m → 0 <= r < 34 → int v →
  cpu_ok (with_registers (<[Z.to_nat r := v]> (registers m)) m).
Proof.
  intros [[H1 H2 H3 H4] Hl Hi Hload] Hr Hv. split; cbn.
  - by split.
  - by rewrite length_insert.
  - by apply Forall_insert.
  - intros l. rewrite list_lookup_insert_ne; [apply Hload|unfold LoadReg; lia].
Qed.

Lemma same_program_trans m1 m2 m3 : same_program m1 m2 → same_program m2 m3 → same_program m1 m3.
Proof. unfold same_program. intuition congruence. Qed.

(** A reference that is translated marks an entry. *)
Lemma translated_cpu m addr size w pa m1 l mem : cpu_ok m → size = 1 ∨ size = 2 ∨ size = 4 →
  Translate addr size w m = Done (inr pa, m1) → length l = length (lastUsed m) →
  length mem = length (mainMemory m) → Forall byte mem →
  let m' := with_lastUsed l (with_memory mem m1) in
  cpu_ok m' ∧ registers m' = registers m ∧ mode m' = mode m ∧ totalTicks m' = totalTicks m ∧
  mainMemory m1 = mainMemory m.
Proof.
  intros [Hwf Hl Hi Hload] Hs HT Hlen Hml Hmb. pose proof (Translate_Done _ _ Hs _ _ _ _ Hwf HT) as Htr.
  pose proof (translates_wf _ _ _ _ _ _ Hwf Htr) as [W1 W2 W3 W4].
  inversion Htr as [| | | | |p e Ha Hh Hro Hf H0 H1]; subst.
  destruct (put_entry_fields p (marked e w) m) as (Emem & Ereg & Eused & Eticks & Emode).
  cbn zeta. cbn. rewrite Ereg. split_and!; try done. split; cbn; rewrite ?Ereg; try done.
  split; cbn; try done; [rewrite Hml; apply (mw_memory _ Hwf)|rewrite Hlen; apply (mw_used _ Hwf)].
Qed.

Lemma read_cpu big m addr size pa m1 : cpu_ok m → size = 1 ∨ size = 2 ∨ size = 4 →
  Translate addr size false m = Done (inr pa, m1) →
  ∃ v m', (∀ h, ReadMem big h addr size m = Done (true, Some v, m')) ∧ int v ∧ cpu_ok m' ∧ same_program m m'.
Proof.
  intros Hm Hs HT. pose proof (co_machine _ Hm) as Hwf.
  eexists _, _. split; [intros h; apply (ReadMem_translated big h addr size Hs m pa m1 Hwf HT)|].
  split; [by apply int_narrow|].
  destruct (translated_cpu m addr size false pa m1 (<[Z.to_nat (pa / PageSize) := totalTicks m]> (lastUsed m))
    (mainMemory m) Hm Hs HT) as (H1 & H2 & H3 & H4 & H5); [by rewrite length_insert|done|apply (mw_bytes _ Hwf)|].
  assert (with_memory (mainMemory m) m1 = m1) as E by (rewrite <- H5; by destruct m1). rewrite E in *.
  split; [exact H1|]. by split_and!.
Qed.

Lemma write_cpu big m addr size v pa m1 : cpu_ok m → size = 1 ∨ size = 2 ∨ size = 4 →
  Translate addr size true m = Done (inr pa, m1) →
  ∃ m', (∀ h, WriteMem big h addr size v m = Done (true, m')) ∧ cpu_ok m' ∧ registers m' = registers m.
Proof.
  intros Hm Hs HT. pose proof (co_machine _ Hm) as Hwf.
  destruct (WriteMem_translated big (λ _, ret ()) addr size Hs v m pa m1 Hwf HT) as (mem & HW & Hwr).
  eexists. split.
  - intros h. destruct (WriteMem_translated big h addr size Hs v m pa m1 Hwf HT) as (mem' & HW' & Hwr').
    rewrite HW'. do 2 f_equal. f_equal. f_equal. symmetry. apply (written_unique _ _ _ _ _ Hwr Hwr').
  - destruct (translated_cpu m addr size true pa m1 (<[Z.to_nat (pa / PageSize) := totalTicks m]> (lastUsed m))
      mem Hm Hs HT) as (H1 & H2 & _); [by rewrite length_insert|apply Hwr| |done].
    apply (mw_bytes _ (memory_wf m pa _ mem Hwf Hwr (bytes_le_byte _ _))).
Qed.

Section rules.
Context (stop : fault → Prop) (m0 : Machine).

Lemma exec_eq m m' c c' : (∀ h, c h m = c' h m') → exec_ok stop m0 m' c' → exec_ok stop m0 m c.
Proof.
  intros He [pc r v m1 H|which bad m1 H|f H].
  - apply (exec_next _ _ _ _ pc r v m1); try done. intros h. by rewrite He.
  - apply (exec_trap _ _ _ _ which bad m1); try done. intros h. by rewrite He.
  - apply (exec_stop _ _ _ _ f); [|done]. intros h. by rewrite He.
Qed.

Lemma exec_reg m r k : cpu_ok m → 0 <= r < NumTotalRegs →
  (∀ a, registers m !! Z.to_nat r = Some a → int a → exec_ok stop m0 m (λ h, k h a)) →
  exec_ok stop m0 m (λ h, let! a := reg r in k h a).
Proof.
  intros Hm Hr Hk. destruct (reg_some m r Hm Hr) as (a & Ha & Hi & Hrun).
  refine (exec_eq _ m _ _ _ (Hk a Ha Hi)). intros h. by rewrite (bind_Done _ _ _ _ _ Hrun).
Qed.

Lemma exec_set m r v k : cpu_ok m → 0 <= r < 34 → int v →
  (∀ m', cpu_ok m' → (∀ j, (34 <= j)%nat → registers m' !! j = registers m !! j) → exec_ok stop m0 m' k) →
  exec_ok stop m0 m (λ h, set_reg r v ;;; k h).
Proof.
  intros Hm Hr Hv Hk. pose proof (set_reg_some m r v Hm ltac:(unfold NumTotalRegs; lia)) as Hrun.
  refine (exec_eq _ _ _ _ _ (Hk _ (cpu_ok_set m r v Hm Hr Hv) _)).
  - intros h. by rewrite (bind_Done _ _ _ _ _ Hrun).
  - intros j Hj. cbn. rewrite list_lookup_insert_ne; [done|lia].
Qed.

Lemma exec_Next m pc r v : cpu_ok m → int pc → 0 <= r < 32 → int v →
  (∀ j, (34 <= j)%nat → registers m !! j = registers m0 !! j) →
  exec_ok stop m0 m (λ _, ret (Next pc r v)).
Proof. intros. by apply (exec_next _ _ _ _ pc r v m). Qed.

Lemma exec_raise m which bad : cpu_ok m → same_program m0 m → int bad →
  exec_ok stop m0 m (λ h, trap h which bad).
Proof. intros. by apply (exec_trap _ _ _ _ which bad m). Qed.

Lemma exec_fail m f : stop f → exec_ok stop m0 m (λ _, fail f).
Proof. intros. by apply (exec_stop _ _ _ _ f). Qed.

Lemma exec_ASSERT m b k : (b = false → stop AssertFailed) → (b = true → exec_ok stop m0 m k) →
  exec_ok stop m0 m (λ h, ASSERT b ;;; k h).
Proof.
  intros Hf Ht. destruct b; [|by apply (exec_stop _ _ _ _ AssertFailed); auto].
  by refine (exec_eq _ m _ _ _ (Ht eq_refl)).
Qed.

Lemma exec_if m (b : bool) k1 k2 : (b = true → exec_ok stop m0 m k1) → (b = false → exec_ok stop m0 m k2) →
  exec_ok stop m0 m (λ h, if b then k1 h else k2 h).
Proof. destruct b; auto. Qed.

Lemma exec_assoc {A B} m (c : Handler → M Machine A) (f : Handler → A → M Machine B) k :
  exec_ok stop m0 m (λ h, let! a := c h in let! b := f h a in k h b) →
  exec_ok stop m0 m (λ h, let! b := (let! a := c h in f h a) in k h b).
Proof. apply exec_eq. intros h. unfold bind. by destruct (c h m) as [[a s]|]. Qed.

Lemma exec_if_bind {B} m (b : bool) (c1 c2 : Handler → M Machine B) k :
  (b = true → exec_ok stop m0 m (λ h, let! x := c1 h in k h x)) →
  (b = false → exec_ok stop m0 m (λ h, let! x := c2 h in k h x)) →
  exec_ok stop m0 m (λ h, let! x := (if b then c1 h else c2 h) in k h x).
Proof. destruct b; auto. Qed.

(** A memory reference either traps, or goes on in a state the program cannot
    tell from the one before, but for what it stores. *)
Lemma exec_ReadMem big m addr size k : cpu_ok m → same_program m0 m → int addr →
  size = 1 ∨ size = 2 ∨ size = 4 →
  (∀ v m', int v → cpu_ok m' → same_program m0 m' → registers m' = registers m →
    exec_ok stop m0 m' (λ h, k h v)) →
  exec_ok stop m0 m (λ h, load_or_return big h addr size (λ v, k h v)).
Proof.
  intros Hm Hsame Ha Hs Hk. pose proof (co_machine _ Hm) as Hwf.
  destruct (Translate_translates addr size false Hs m Hwf) as ([e|pa] & m1 & HT & Htr).
  - assert (m1 = m) as -> by (inversion Htr; subst; done).
    apply (exec_trap _ _ _ _ e addr m); try done. intros h. unfold load_or_return, ReadMem, trap, bind.
    rewrite HT. by destruct (RaiseException h e addr m) as [[[] ?]|].
  - destruct (read_cpu big m addr size pa m1 Hm Hs HT) as (v & m' & HR & Hv & Hm' & Hsm).
    refine (exec_eq _ m' _ (λ h, k h v) _ (Hk v m' Hv Hm' (same_program_trans _ _ _ Hsame Hsm) (proj1 Hsm))).
    intros h. unfold load_or_return. by rewrite (bind_Done _ _ _ _ _ (HR h)).
Qed.

Lemma exec_WriteMem big m addr size v k : cpu_ok m → same_program m0 m → int addr →
  size = 1 ∨ size = 2 ∨ size = 4 →
  (∀ m', cpu_ok m' → registers m' = registers m → exec_ok stop m0 m' k) →
  exec_ok stop m0 m (λ h, store_or_return big h addr size v (k h)).
Proof.
  intros Hm Hsame Ha Hs Hk. pose proof (co_machine _ Hm) as Hwf.
  destruct (Translate_translates addr size true Hs m Hwf) as ([e|pa] & m1 & HT & Htr).
  - assert (m1 = m) as -> by (inversion Htr; subst; done).
    apply (exec_trap _ _ _ _ e addr m); try done. intros h. unfold store_or_return, WriteMem, trap, bind.
    rewrite HT. by destruct (RaiseException h e addr m) as [[[] ?]|].
  - destruct (write_cpu big m addr size v pa m1 Hm Hs HT) as (m' & HW & Hm' & Hr).
    refine (exec_eq _ m' _ k _ (Hk m' Hm' Hr)).
    intros h. unfold store_or_return. by rewrite (bind_Done _ _ _ _ _ (HW h)).
Qed.
End rules.

(** The side conditions of the rules: registers exist, values are [int]s. *)
Ltac mips_side :=
  first [ assumption | done
        | match goal with
          | |- int _ => solve [eauto 12 with mips]
          | |- same_program _ _ => done
          | |- _ <= _ < _ => unfold R31, HiReg, LoReg, NextPCReg, NumTotalRegs, LoadReg, LoadValueReg in *; lia
          | |- 0 <= _ => lia
          end ].

Ltac mips_step :=
  lazymatch goal with
  | |- exec_ok _ _ _ (λ h, bind (bind _ _) _) => apply exec_assoc
  | |- exec_ok _ _ _ (λ h, bind (if _ then _ else _) _) => apply exec_if_bind; intros ?
  | |- exec_ok _ _ _ (λ h, bind (reg _) _) => eapply exec_reg; [mips_side|mips_side|intros ? ? ?]
  | |- exec_ok _ _ _ (λ h, bind (set_reg _ _) _) => eapply exec_set; [mips_side|mips_side|mips_side|intros ? ? ?]
  | |- exec_ok _ _ _ (λ h, ret (Next _ _ _)) => apply exec_Next; [mips_side|mips_side|mips_side|mips_side|]
  | |- exec_ok _ _ _ (λ h, trap h _ _) => apply exec_raise; [mips_side|mips_side|mips_side]
  | |- exec_ok _ _ _ (λ h, bind (ASSERT _) _) => eapply exec_ASSERT; intros ?
  | |- exec_ok _ _ _ (λ h, fail _) => apply exec_fail
  | |- exec_ok _ _ _ (λ h, load_or_return _ _ _ _ _) =>
      eapply exec_ReadMem; [mips_side|mips_side|mips_side|lia|intros ? ? ? ? ? ?]
  | |- exec_ok _ _ _ (λ h, store_or_return _ _ _ _ _ _) =>
      eapply exec_WriteMem; [mips_side|mips_side|mips_side|lia|intros ? ? ?]
  | |- exec_ok _ _ _ (λ h, if _ then _ else _) => eapply exec_if; intros ?
  end.

(** What the rules leave: the control registers, and the hazards. *)
Ltac mips_end :=
  lazymatch goal with
  | |- ∀ j, _ → registers _ !! j = _ =>
      let j := fresh "j" in let Hj := fresh "Hj" in intros j Hj;
      repeat match goal with H : ∀ j, _ → registers ?m !! j = _ |- context [registers ?m !! _] => rewrite (H j Hj) end;
      congruence
  | H : (_ =? _) && (_ =? _) = true |- DivOverflow = _ ∧ _ =>
      apply andb_true_iff in H as [->%Z.eqb_eq ->%Z.eqb_eq]; done
  | |- AssertFailed = _ ∧ _ => split; [done|]; eexists; split; [eassumption|lia]
  end.

Lemma execute_ok big i pcAfter m : cpu_ok m → instr_ok i → int pcAfter →
  exec_ok (hazard i m) m m (λ h, execute big h i pcAfter).
Proof.
  intros Hm ((Hrs & Hrt & Hrd) & Hx & Hp & Hsh) Hpc.
  assert (same_program m m) as Hsame by (by repeat split).
  unfold execute. unfold hazard, plain in *.
  assert (opCode i ∈ [OP_SLL; OP_SRA; OP_SRL] → 0 <= extra i) as Hsh' by (intros Ho; by apply Hsh).
  destruct (opCode i) eqn:Hop; try discriminate Hp; cbn zeta;
    try specialize (Hsh' ltac:(apply list_elem_of_In; cbn; tauto)); repeat mips_step; try mips_end; try done.
Qed.

(** ** A whole instruction *)

(** The registers after the pending load went to its register, with the next
    one recorded. *)
Definition loaded_registers (rs : list Z) (l lv nextReg nextValue : Z) : list Z :=
  <[0%nat := 0]> (<[38%nat := nextValue]> (<[37%nat := nextReg]> (<[Z.to_nat l := lv]> rs))).

Lemma loaded_lookup rs l lv r v j : length rs = Z.to_nat NumTotalRegs → 0 <= l < 32 → (j < 40)%nat →
  loaded_registers rs l lv r v !! j =
    if decide (j = 0%nat) then Some 0 else if decide (j = 38%nat) then Some v
    else if decide (j = 37%nat) then Some r else if decide (j = Z.to_nat l) then Some lv else rs !! j.
Proof.
  intros Hlen Hl Hj. change (Z.to_nat NumTotalRegs) with 40%nat in Hlen. unfold loaded_registers.
  repeat case_decide; subst;
    repeat (rewrite list_lookup_insert_ne by lia);
    try (rewrite list_lookup_insert_eq by (rewrite ?length_insert; lia)); done.
Qed.

Lemma DelayedLoad_spec m r v : cpu_ok m → 0 <= r < 32 → int v →
  ∃ l lv, registers m !! 37%nat = Some l ∧ registers m !! 38%nat = Some lv ∧ 0 <= l < 32 ∧
    let m' := with_registers (loaded_registers (registers m) l lv r v) m in
    DelayedLoad r v m = Done ((), m') ∧ cpu_ok m'.
Proof.
  intros Hm Hr Hv. pose proof (co_length _ Hm) as Hlen. change (Z.to_nat NumTotalRegs) with 40%nat in Hlen.
  destruct (vget_in (registers m) LoadReg) as (l & Hgl & Hl); [unfold LoadReg; lia|].
  destruct (vget_in (registers m) LoadValueReg) as (lv & Hgv & Hlv); [unfold LoadValueReg; lia|].
  pose proof (co_load _ Hm _ Hl) as Hl32. exists l, lv. split_and!; [done..|lia|lia|]. cbn zeta. split.
  - unfold DelayedLoad, bind, get, lift, put. rewrite Hgl, Hgv.
    rewrite vset_in by (rewrite Hlen; lia).
    rewrite vset_in by (rewrite length_insert, Hlen; unfold LoadReg; lia).
    rewrite vset_in by (rewrite !length_insert, Hlen; unfold LoadValueReg; lia).
    by rewrite vset_in by (rewrite !length_insert, Hlen; lia).
  - destruct Hm as [[H1 H2 H3 H4] _ Hi _]. split; cbn.
    + by split.
    + unfold loaded_registers. by rewrite !length_insert.
    + unfold loaded_registers. assert (int lv) by (by eapply (Forall_lookup_1 _ _ _ _ Hi)).
      repeat apply Forall_insert; try done. unfold int. lia.
    + intros x. change (Z.to_nat LoadReg) with 37%nat. rewrite loaded_lookup by (done || lia).
      rewrite !decide_False by lia. rewrite decide_True by done. intros [= <-]. done.
Qed.

(** What the kernel finds after a trap: the program stands where it stood, with
    the pending load done. *)
Record restartable (m : Machine) (bad : Z) (m' : Machine) : Prop := {
  rs_ok : cpu_ok m';
  rs_memory : mainMemory m' = mainMemory m;
  rs_mode : mode m' = SystemMode;
  rs_bad : registers m' !! Z.to_nat BadVAddrReg = Some bad;
  rs_zero : registers m' !! 0%nat = Some 0;
  rs_load : registers m' !! Z.to_nat LoadReg = Some 0;
  rs_registers : ∃ l lv, registers m !! Z.to_nat LoadReg = Some l ∧ registers m !! Z.to_nat LoadValueReg = Some lv ∧
    ∀ j, (0 < j < 37)%nat → registers m' !! j = if decide (j = Z.to_nat l) then Some lv else registers m !! j
}.

Lemma cpu_ok_bad m bad : cpu_ok m → int bad →
  cpu_ok (with_registers (<[Z.to_nat BadVAddrReg := bad]> (registers m)) m).
Proof.
  intros [[H1 H2 H3 H4] Hl Hi Hload] Hb. split; cbn; [by split|by rewrite length_insert|by apply Forall_insert|].
  intros l. rewrite list_lookup_insert_ne; [apply Hload|unfold LoadReg, BadVAddrReg; lia].
Qed.

Lemma RaiseException_spec m which bad : cpu_ok m → int bad →
  ∃ m', (∀ h, RaiseException h which bad m = (h which ;;; modify (with_mode UserMode)) m') ∧ restartable m bad m'.
Proof.
  intros Hm Hb. pose proof (co_length _ Hm) as Hlen. change (Z.to_nat NumTotalRegs) with 40%nat in Hlen.
  pose proof (cpu_ok_bad m bad Hm Hb) as Hm1. set (m1 := with_registers _ m) in *.
  destruct (DelayedLoad_spec m1 0 0 Hm1 ltac:(lia) ltac:(done)) as (l & lv & Hl & Hlv & Hr & HD & Hok).
  eexists. split.
  - intros h. unfold RaiseException. unfold bind at 1. cbn [get]. rewrite vset_in by (rewrite Hlen; unfold BadVAddrReg; lia).
    rewrite (bind_Done _ _ m _ m) by done. rewrite (bind_Done _ _ m () m1) by done.
    rewrite (bind_Done _ _ _ _ _ HD). reflexivity.
  - assert (∀ j, (j < 39)%nat → registers m1 !! j = registers m !! j) as Hm1r.
    { intros j Hj. unfold m1. cbn. rewrite list_lookup_insert_ne; [done|unfold BadVAddrReg; lia]. }
    assert (length (registers m1) = Z.to_nat NumTotalRegs) as Hl1 by apply Hm1.
    rewrite Hm1r in Hl, Hlv by lia. split; cbn; try done.
    + destruct Hok as [[H1 H2 H3 H4] A B C]. split; cbn; [split; cbn; done|done..].
    + change (Z.to_nat BadVAddrReg) with 39%nat. rewrite loaded_lookup by (done || lia).
      rewrite !decide_False by lia. unfold m1. cbn. apply list_lookup_insert_eq. lia.
    + rewrite loaded_lookup by (done || lia). by rewrite decide_True.
    + change (Z.to_nat LoadReg) with 37%nat. rewrite loaded_lookup by (done || lia).
      by rewrite !decide_False by lia.
    + exists l, lv. split_and!; [done..|]. intros j Hj. rewrite loaded_lookup by (done || lia).
      rewrite !decide_False by lia. by rewrite Hm1r by lia.
Qed.

(** The end of [OneInstruction]: pending load, program counters. *)
Definition finish (pcAfter nextLoadReg nextLoadValue : Z) : M Machine unit :=
  DelayedLoad nextLoadReg nextLoadValue ;;;
  let! pc := reg PCReg in set_reg PrevPCReg pc ;;;
  let! n := reg NextPCReg in set_reg PCReg n ;;;
  set_reg NextPCReg pcAfter.

(** The program went on by one instruction. *)
Definition advanced (m m' : Machine) : Prop :=
  cpu_ok m' ∧ registers m' !! 0%nat = Some 0 ∧
  registers m' !! Z.to_nat PrevPCReg = registers m !! Z.to_nat PCReg ∧
  registers m' !! Z.to_nat PCReg = registers m !! Z.to_nat NextPCReg.

Lemma cpu_ok_control m r v : cpu_ok m → 0 <= r < NumTotalRegs → r ≠ LoadReg → int v →
  cpu_ok (with_registers (<[Z.to_nat r := v]> (registers m)) m).
Proof.
  intros [[H1 H2 H3 H4] Hl Hi Hload] Hr Hn Hv. split; cbn; [by split|by rewrite length_insert|by apply Forall_insert|].
  intros l. rewrite list_lookup_insert_ne; [apply Hload|unfold LoadReg in *; lia].
Qed.

Lemma finish_spec m pc r v : cpu_ok m → int pc → 0 <= r < 32 → int v →
  ∃ m', finish pc r v m = Done ((), m') ∧ advanced m m'.
Proof.
  intros Hm Hpc Hr Hv.
  destruct (DelayedLoad_spec m r v Hm Hr Hv) as (l & lv & Hl & Hlv & Hl32 & HD & Hok). cbn zeta in HD, Hok.
  assert (∀ j, (32 <= j < 37)%nat → loaded_registers (registers m) l lv r v !! j = registers m !! j) as Hk.
  { intros j Hj. rewrite loaded_lookup by (lia || apply Hm). by rewrite !decide_False by lia. }
  assert (loaded_registers (registers m) l lv r v !! 0%nat = Some 0) as H0.
  { rewrite loaded_lookup by (lia || apply Hm). by rewrite decide_True. }
  set (m1 := with_registers (loaded_registers _ _ _ _ _) m) in *.
  destruct (reg_some m1 PCReg Hok ltac:(by vm_compute)) as (p & Hp & Hpi & Hrp).
  destruct (reg_some m1 NextPCReg Hok ltac:(by vm_compute)) as (n & Hn & Hni & Hrn).
  pose proof (cpu_ok_control m1 PrevPCReg p Hok ltac:(by vm_compute) ltac:(by vm_compute) Hpi) as Hok2.
  pose proof (set_reg_some m1 PrevPCReg p Hok ltac:(by vm_compute)) as Hs2. set (m2 := with_registers _ m1) in Hok2, Hs2.
  assert (reg NextPCReg m2 = Done (n, m2)) as Hrn2.
  { destruct (reg_some m2 NextPCReg Hok2 ltac:(by vm_compute)) as (n' & Hn' & _ & Hrn'). rewrite Hrn'.
    cbn in Hn', Hn. rewrite list_lookup_insert_ne in Hn' by done. congruence. }
  pose proof (cpu_ok_control m2 PCReg n Hok2 ltac:(by vm_compute) ltac:(by vm_compute) Hni) as Hok3.
  pose proof (set_reg_some m2 PCReg n Hok2 ltac:(by vm_compute)) as Hs3. set (m3 := with_registers _ m2) in Hok3, Hs3.
  pose proof (cpu_ok_control m3 NextPCReg pc Hok3 ltac:(by vm_compute) ltac:(by vm_compute) Hpc) as Hok4.
  pose proof (set_reg_some m3 NextPCReg pc Hok3 ltac:(by vm_compute)) as Hs4.
  eexists. split.
  - unfold finish. by rewrite (bind_Done _ _ _ _ _ HD), (bind_Done _ _ _ _ _ Hrp), (bind_Done _ _ _ _ _ Hs2),
      (bind_Done _ _ _ _ _ Hrn2), (bind_Done _ _ _ _ _ Hs3), Hs4.
  - pose proof (co_length _ Hok) as Hlen1. cbn in Hlen1.
    change (Z.to_nat NumTotalRegs) with 40%nat in Hlen1.
    split; [exact Hok4|]. cbn in Hp, Hn |- *. rewrite Hk in Hp, Hn by (unfold PCReg, NextPCReg; lia).
    unfold PCReg, NextPCReg, PrevPCReg in *.
    split_and!; repeat first [rewrite list_lookup_insert_eq by (rewrite ?length_insert; lia)
                             |rewrite list_lookup_insert_ne by done]; congruence.
Qed.

Lemma Decode_ok raw : ∃ i, Decode (u32 raw) = Done i ∧ instr_ok i.
Proof.
  destruct (Decode_fields (u32 raw)) as (i & HD & (Hv & Hs & Ht & Hd & Hf) & Hp). exists i. split; [done|].
  assert (∀ k, 0 <= field (u32 raw) k 5 < 32) as H5 by (intros; by apply field_bounds).
  pose proof (field_bounds (u32 raw) 0 16 ltac:(lia)) as H16. pose proof (field_bounds (u32 raw) 0 26 ltac:(lia)) as H26.
  assert (- 2 ^ 15 <= s16 (field (u32 raw) 0 16) < 2 ^ 15) as Hs16.
  { unfold s16. destruct (Z.ltb_spec (field (u32 raw) 0 16) (2 ^ 15)); lia. }
  split; [rewrite Hs, Ht, Hd; auto|]. cbn zeta in Hf. specialize (H5 6).
  destruct (field (u32 raw) 26 6 =? 0) eqn:E0.
  { destruct Hf as [_ ->]. split_and!; [unfold int; lia..|done|auto]. }
  assert (opCode i ∉ [OP_SLL; OP_SRA; OP_SRL]) as Hnot.
  { destruct (_ =? 1); [destruct Hf as [-> _]; unfold branch_code; repeat case_match; by apply (bool_decide_unpack _)|].
    destruct (_ =? 2); [destruct Hf as [-> _]; by apply (bool_decide_unpack _)|].
    destruct (_ =? 3); [destruct Hf as [-> _]; by apply (bool_decide_unpack _)|].
    destruct Hf as [Hrow _].
    assert (forallb (λ p, bool_decide (p.1 ∉ [OP_SLL; OP_SRA; OP_SRL])) opTable = true) as H by reflexivity.
    rewrite forallb_forall in H. apply list_elem_of_lookup_2, list_elem_of_In, H in Hrow.
    by apply bool_decide_eq_true in Hrow. }
  split; [|by split].
  repeat case_match; destruct Hf as [_ ->]; unfold int; lia.
Qed.

(** What one instruction does, whatever the kernel. *)
Inductive instruction_outcome (big : bool) (m : Machine) : Prop :=
| completes m' : (∀ h, OneInstruction big h m = Done ((), m')) → advanced m m' → instruction_outcome big m
| traps which bad m' : (∀ h, OneInstruction big h m = (h which ;;; modify (with_mode UserMode)) m') →
    restartable m bad m' → instruction_outcome big m
| stops raw m1 i f : (∀ h, OneInstruction big h m = Fault f) →
    (∀ h pc, registers m !! Z.to_nat PCReg = Some pc → ReadMem big h pc 4 m = Done (true, Some raw, m1)) →
    Decode (u32 raw) = Done i → hazard i m1 f → instruction_outcome big m.

Lemma same_program_restartable m m1 bad m' : same_program m m1 → restartable m1 bad m' → restartable m bad m'.
Proof. intros (Hr & Hmem & _ & _) []. split; try done; by rewrite <- ?Hr, <- ?Hmem. Qed.

Lemma same_program_advanced m m1 m' : registers m1 = registers m → advanced m1 m' → advanced m m'.
Proof. unfold advanced. by intros ->. Qed.

Lemma OneInstruction_cases big m : cpu_ok m → instruction_outcome big m.
Proof.
  intros Hm. destruct (reg_some m PCReg Hm ltac:(by vm_compute)) as (pc & Hpc & Hpi & Hrp).
  assert (∀ which bad m1, cpu_ok m1 → int bad → same_program m m1 →
    (∀ h, OneInstruction big h m = RaiseException h which bad m1) → instruction_outcome big m) as Htrap.
  { intros which bad m1 Hm1 Hb Hs He. destruct (RaiseException_spec m1 which bad Hm1 Hb) as (m' & HR & Hrs).
    apply (traps _ _ which bad m'); [intros h; by rewrite He, HR|]. by eapply same_program_restartable. }
  destruct (Translate_translates pc 4 false ltac:(lia) m (co_machine _ Hm)) as ([e|pa] & m1 & HT & Htr).
  - assert (m1 = m) as -> by (inversion Htr; subst; done).
    apply (Htrap e pc m Hm Hpi ltac:(by repeat split)). intros h. unfold OneInstruction.
    rewrite (bind_Done _ _ _ _ _ Hrp). unfold ReadMem, bind. rewrite HT.
    by destruct (RaiseException h e pc m) as [[[] ?]|].
  - destruct (read_cpu big m pc 4 pa m1 Hm ltac:(lia) HT) as (raw & m2 & HR & Hraw & Hm2 & Hs2).
    destruct (Decode_ok raw) as (i & HD & Hi).
    destruct (reg_some m2 NextPCReg Hm2 ltac:(by vm_compute)) as (n & Hn & Hni & Hrn).
    assert (∀ h, OneInstruction big h m = (let! x := execute big h i (s32 (n + 4)) in
      match x with Trapped => ret () | Next pc r v => finish pc r v end) m2) as He.
    { intros h. unfold OneInstruction. rewrite (bind_Done _ _ _ _ _ Hrp), (bind_Done _ _ _ _ _ (HR h)).
      by rewrite HD, (bind_Done _ _ m2 i m2), (bind_Done _ _ _ _ _ Hrn). }
    destruct (execute_ok big i (s32 (n + 4)) m2 Hm2 Hi (s32_int _)) as [pc' r v m3 HE Hpc' Hr Hv Hm3 Hctl|which bad m3 HE Hb Hm3 Hs3|f HE Hf].
    + destruct (finish_spec m3 pc' r v Hm3 Hpc' Hr Hv) as (m' & Hfin & Hok & H0 & Hprev & Hnext).
      apply (completes _ _ m'); [intros h; by rewrite He, (bind_Done _ _ _ _ _ (HE h))|].
      rewrite !Hctl in * by (vm_compute; lia). apply (same_program_advanced m m2); [apply Hs2|]. by split_and!.
    + apply (Htrap which bad m3 Hm3 Hb (same_program_trans _ _ _ Hs2 Hs3)). intros h. rewrite He.
      unfold bind at 1. rewrite HE. unfold trap, bind. by destruct (RaiseException h which bad m3) as [[[] ?]|].
    + apply (stops _ _ raw m2 i f); [|intros h pc0 Hpc0|done|done].
      * intros h. rewrite He. unfold bind. by rewrite HE.
      * assert (pc0 = pc) as -> by congruence. apply HR.
Qed.

Lemma restartable_ok m bad m' : restartable m bad m' → cpu_ok m'.
Proof. by intros []. Qed.

Lemma OneInstruction_wp big h E m : (∀ e m, cpu_ok m → wp E (h e) (λ _ m', cpu_ok m') m) → cpu_ok m →
  wp (λ f, E f ∨ f = AssertFailed ∨ f = DivOverflow) (OneInstruction big h) (λ _ m', cpu_ok m') m.
Proof.
  intros Hh Hm. unfold wp. destruct (OneInstruction_cases big m Hm) as [m' He Ha|which bad m' He Hr|raw m1 i f He _ _ Hf].
  - rewrite He. apply Ha.
  - rewrite He. specialize (Hh which m' (restartable_ok _ _ _ Hr)). unfold wp in Hh. unfold bind.
    destruct (h which m') as [[[] m2]|f]; [|by left]. cbn. destruct Hh as [[H1 H2 H3 H4] ? ? ?].
    split; cbn; [by split|done..].
  - rewrite He. right. unfold hazard in Hf. destruct (opCode i); try done; destruct Hf as [-> _]; auto.
Qed.

(** ** What the instructions compute *)

(** The operations of the MIPS manual on 32-bit words without sign: the
    registers and the words they get from the words [s] and [t] of [rs] and [rt].
    What a division leaves is open when the divisor is zero or the quotient too
    large. *)
Definition alu (i : Instruction) (s t : Z) : option (list (Z * Z)) :=
  let imm := u32 (extra i) in
  let zimm := imm mod 2 ^ 16 in
  let signed x := (x + 2 ^ 31) mod 2 ^ 32 in
  let number x := if x <? 2 ^ 31 then x else x - 2 ^ 32 in
  let double p := Some [(HiReg, (p / 2 ^ 32) mod 2 ^ 32); (LoReg, p mod 2 ^ 32)] in
  let sra x k := x / 2 ^ k + (if 2 ^ 31 <=? x then 2 ^ 32 - 2 ^ (32 - k) else 0) in
  match opCode i with
  | OP_ADDU => Some [(rd i, (s + t) mod 2 ^ 32)]
  | OP_ADDIU => Some [(rt i, (s + imm) mod 2 ^ 32)]
  | OP_SUBU => Some [(rd i, (s - t) mod 2 ^ 32)]
  | OP_AND => Some [(rd i, Z.land s t)]
  | OP_XOR => Some [(rd i, Z.lxor s t)]
  | OP_NOR => Some [(rd i, 2 ^ 32 - 1 - Z.lor s t)]
  | OP_ANDI => Some [(rt i, Z.land s zimm)]
  | OP_ORI => Some [(rt i, Z.lor s zimm)]
  | OP_XORI => Some [(rt i, Z.lxor s zimm)]
  | OP_LUI => Some [(rt i, (imm * 2 ^ 16) mod 2 ^ 32)]
  | OP_SLL => Some [(rd i, (t * 2 ^ extra i) mod 2 ^ 32)]
  | OP_SLLV => Some [(rd i, (t * 2 ^ (s mod 32)) mod 2 ^ 32)]
  | OP_SRA => Some [(rd i, sra t (extra i))]
  | OP_SRAV => Some [(rd i, sra t (s mod 32))]
  | OP_SLT => Some [(rd i, if signed s <? signed t then 1 else 0)]
  | OP_SLTI => Some [(rt i, if signed s <? signed imm then 1 else 0)]
  | OP_SLTIU => Some [(rt i, if s <? imm then 1 else 0)]
  | OP_SLTU => Some [(rd i, if s <? t then 1 else 0)]
  | OP_OR => Some [(rd i, Z.lor s t)]
  | OP_SRL => Some [(rd i, t / 2 ^ extra i)]
  | OP_SRLV => Some [(rd i, t / 2 ^ (s mod 32))]
  | OP_MULT => double (number s * number t)
  | OP_MULTU => double (s * t)
  | OP_DIV => if (t =? 0) || (number s =? - 2 ^ 31) && (number t =? -1) then None
      else Some [(LoReg, Z.quot (number s) (number t) mod 2 ^ 32); (HiReg, Z.rem (number s) (number t) mod 2 ^ 32)]
  | OP_DIVU => if t =? 0 then None else Some [(LoReg, s / t); (HiReg, s mod t)]
  | _ => None
  end.

(** Where the simulator does otherwise: OR looks at its first operand twice, and
    the logical shifts of a negative number are arithmetic ones. *)
Definition deviates (i : Instruction) (a b : Z) : bool :=
  match opCode i with
  | OP_OR => negb (Z.lor a b =? a)
  | OP_SRL => (b <? 0) && (0 <? extra i)
  | OP_SRLV => (b <? 0) && (0 <? u32 a mod 32)
  | _ => false
  end.

(** Assignments to registers, in order. *)
Fixpoint assign (l : list (Z * Z)) : M Machine unit :=
  match l with [] => ret () | (d, x) :: l' => set_reg d x ;;; assign l' end.

Definition words (xs : list (Z * Z)) : list (Z * Z) := prod_map id u32 <$> xs.

Lemma u32_land x y : u32 (Z.land x y) = Z.land (u32 x) (u32 y).
Proof. unfold u32. rewrite <- !Z.land_ones by lia. apply Z.bits_inj'. intros n Hn. rewrite !Z.land_spec. by destruct (Z.testbit x n), (Z.testbit y n), (Z.testbit (Z.ones 32) n). Qed.
Lemma u32_lor x y : u32 (Z.lor x y) = Z.lor (u32 x) (u32 y).
Proof. unfold u32. rewrite <- !Z.land_ones by lia. apply Z.land_lor_distr_l. Qed.
Lemma u32_lxor x y : u32 (Z.lxor x y) = Z.lxor (u32 x) (u32 y).
Proof. unfold u32. rewrite <- !Z.land_ones by lia. apply Z.bits_inj'. intros n Hn. rewrite !Z.land_spec, !Z.lxor_spec, !Z.land_spec. by destruct (Z.testbit x n), (Z.testbit y n), (Z.testbit (Z.ones 32) n). Qed.
Lemma u32_lnot x : u32 (Z.lnot x) = 2 ^ 32 - 1 - u32 x.
Proof. unfold u32, Z.lnot. lia. Qed.
Lemma u32_signed x : int x → (u32 x + 2 ^ 31) mod 2 ^ 32 = x + 2 ^ 31.
Proof. unfold int, u32. lia. Qed.
Lemma u32_shiftl x k : 0 <= k → u32 (Z.shiftl x k) = (u32 x * 2 ^ k) mod 2 ^ 32.
Proof. intros Hk. unfold u32. by rewrite Z.shiftl_mul_pow2, Z.mul_mod_idemp_l by done. Qed.

(** An arithmetic shift fills with the sign. *)
Lemma u32_shiftr x k : 0 <= k < 32 → int x →
  u32 (Z.shiftr x k) = u32 x / 2 ^ k + (if 2 ^ 31 <=? u32 x then 2 ^ 32 - 2 ^ (32 - k) else 0).
Proof.
  intros Hk Hx. rewrite Z.shiftr_div_pow2 by lia.
  assert (2 ^ 32 = 2 ^ k * 2 ^ (32 - k)) as Hpow by (rewrite <- Z.pow_add_r by lia; f_equal; lia).
  assert (0 < 2 ^ k) by (apply Z.pow_pos_nonneg; lia). assert (0 < 2 ^ (32 - k)) by (apply Z.pow_pos_nonneg; lia).
  assert (int (x / 2 ^ k)) as Hq by (rewrite <- Z.shiftr_div_pow2 by lia; apply int_shiftr; [lia|done]).
  unfold int in Hx. destruct (Z.leb_spec (2 ^ 31) (u32 x)) as [Hs|Hs].
  - assert (x < 0) by (unfold u32 in Hs; lia). assert (u32 x = x + 2 ^ (32 - k) * 2 ^ k) as ->.
    { rewrite Z.mul_comm, <- Hpow. unfold u32. lia. }
    rewrite Z.div_add by lia. assert (x / 2 ^ k < 0) by (apply Z.div_lt_upper_bound; lia).
    unfold int, u32 in *. lia.
  - assert (0 <= x) by (unfold u32 in Hs; lia). rewrite (u32_id x) by lia.
    assert (0 <= x / 2 ^ k) by (by apply Z.div_pos). unfold int in Hq. rewrite u32_id; lia.
Qed.

Lemma land_31 a : Z.land a 0x1f = u32 a mod 32.
Proof. change 0x1f with (Z.ones 5). rewrite Z.land_ones by lia. unfold u32. lia. Qed.
Lemma zero_extend x : u32 (Z.land x 0xffff) = u32 x mod 2 ^ 16.
Proof. change 0xffff with (Z.ones 16). rewrite Z.land_ones by lia. unfold u32. lia. Qed.

Lemma reg_eq m r a : 0 <= r → registers m !! Z.to_nat r = Some a → reg r m = Done (a, m).
Proof. intros Hr Ha. unfold reg, bind, get, lift. assert (vget (registers m) r = Done a) as -> by (by apply vget_Some). done. Qed.

(** The registers that instruction [i] names hold [a] and [b]. *)
Definition operands (i : Instruction) (m : Machine) (a b : Z) : Prop :=
  registers m !! Z.to_nat (rs i) = Some a ∧ registers m !! Z.to_nat (rt i) = Some b.

Lemma s32_cases x : - 2 ^ 32 <= x < 2 ^ 32 →
  s32 x = if x <? - 2 ^ 31 then x + 2 ^ 32 else if x <? 2 ^ 31 then x else x - 2 ^ 32.
Proof.
  intros Hx. unfold s32, u32. destruct (Z.ltb_spec (x mod 2 ^ 32) (2 ^ 31)), (Z.ltb_spec x (- 2 ^ 31)),
    (Z.ltb_spec x (2 ^ 31)); lia.
Qed.

Lemma sign_set_neg x : int x → sign_set x = (x <? 0).
Proof.
  intros Hx. unfold sign_set, SIGN_BIT. rewrite sign_bit by apply u32_range. unfold int, u32 in *. lia.
Qed.
Lemma sign_set_lxor x y : int x → int y → sign_set (Z.lxor x y) = xorb (x <? 0) (y <? 0).
Proof.
  intros Hx Hy. rewrite sign_set_neg by (by apply int_lxor).
  pose proof (Z.lxor_nonneg x y).
  destruct (Z.ltb_spec (Z.lxor x y) 0), (Z.ltb_spec x 0), (Z.ltb_spec y 0); cbn; try done; lia.
Qed.

Section operations.
Context (big : bool) (h : Handler) (i : Instruction) (pc : Z) (m : Machine) (a b : Z).
Context (Hi : instr_ok i) (Hm : cpu_ok m) (Hab : operands i m a b).

Lemma run_rs : reg (rs i) m = Done (a, m).
Proof. apply reg_eq; [apply Hi|apply Hab]. Qed.
Lemma run_rt : reg (rt i) m = Done (b, m).
Proof. apply reg_eq; [apply Hi|apply Hab]. Qed.
Lemma int_rs : int a.
Proof. exact (Forall_lookup_1 _ _ _ _ (co_int _ Hm) (proj1 Hab)). Qed.
Lemma int_rt : int b.
Proof. exact (Forall_lookup_1 _ _ _ _ (co_int _ Hm) (proj2 Hab)). Qed.

(** One register is assigned. *)
Definition single (op : OpCode) : bool :=
  match op with
  | OP_OR | OP_SRL | OP_SRLV | OP_MULT | OP_MULTU | OP_DIV | OP_DIVU => false
  | _ => true
  end.

Lemma alu_single ws : single (opCode i) = true → alu i (u32 a) (u32 b) = Some ws →
  ∃ d x, int x ∧ ws = [(d, u32 x)] ∧ execute big h i pc m = (set_reg d x ;;; ret (Next pc 0 0)) m.
Proof.
  pose proof int_rs as Ha. pose proof int_rt as Hb. pose proof Hi as (_ & Hx & _ & Hsh).
  intros Hone. unfold alu, execute. destruct (opCode i) eqn:Hop; try done; intros [= <-]; cbv zeta;
    try specialize (Hsh ltac:(apply list_elem_of_In; cbn; tauto));
    eexists _, _; (split; [|split; [|
      repeat first [rewrite (bind_Done _ _ _ _ _ run_rs)|rewrite (bind_Done _ _ _ _ _ run_rt)]; cbv beta; reflexivity]]).
  all: try (match goal with |- int _ => solve [eauto 12 with mips|apply int_shiftr; [lia|done]] end).
  all: try (do 2 f_equal).
  all: rewrite ?u32_of_s32, ?u32_land, ?u32_lor, ?u32_lxor, ?u32_lnot, ?u32_lor, ?zero_extend, ?land_31,
    ?u32_shiftl, ?u32_shiftr, ?u32_signed by first [done|lia].
  all: try (change (u32 65535) with (Z.ones 16); rewrite Z.land_ones by lia).
  all: try done.
  all: try (repeat case_match; try done; lia).
  all: unfold u32; lia.
Qed.

Lemma number_word x : int x → (if u32 x <? 2 ^ 31 then u32 x else u32 x - 2 ^ 32) = x.
Proof. unfold int, u32. intros Hx. case_match; lia. Qed.

(** The two words of a 64-bit product. *)
Lemma double_words x y p : word64 x (u32 y) = p → u32 x = (p / 2 ^ 32) mod 2 ^ 32 ∧ u32 y = p mod 2 ^ 32.
Proof. unfold word64, u32. lia. Qed.
Lemma double_words_u x y p : word64 (u32 x) (u32 y) = p → u32 x = (p / 2 ^ 32) mod 2 ^ 32 ∧ u32 y = p mod 2 ^ 32.
Proof. unfold word64, u32. lia. Qed.

Lemma assign_pair {A} d x e y (k : M Machine A) s :
  (assign [(d, x); (e, y)] ;;; k) s = (set_reg d x ;;; set_reg e y ;;; k) s.
Proof. cbn [assign]. unfold bind. destruct (set_reg d x s) as [[[] s1]|]; [|done]. by destruct (set_reg e y s1) as [[[] s2]|]. Qed.

Lemma alu_double ws : opCode i ∈ [OP_MULT; OP_MULTU; OP_DIV; OP_DIVU] → alu i (u32 a) (u32 b) = Some ws →
  ∃ xs, execute big h i pc m = (assign xs ;;; ret (Next pc 0 0)) m ∧ Forall (λ dx, int dx.2) xs ∧ words xs = ws.
Proof.
  pose proof int_rs as Ha. pose proof int_rt as Hb. intros Hop%list_elem_of_In. cbn [In] in Hop.
  unfold alu, execute. rewrite !number_word by done. destruct Hop as [<-|[<-|[<-|[<-|[]]]]]; cbv zeta.
  - intros [= <-]. destruct (Mult_product a b true Ha Hb) as (H1 & H2 & Hw).
    exists [(HiReg, (Mult a b true).1); (LoReg, (Mult a b true).2)]. split; [|split; [constructor; [exact H1|constructor; [exact H2|constructor]]|]].
    + rewrite (bind_Done _ _ _ _ _ run_rs), (bind_Done _ _ _ _ _ run_rt). by rewrite assign_pair.
    + destruct (double_words _ _ _ Hw) as [E1 E2]. cbn. by rewrite E1, E2.
  - intros [= <-]. destruct (Mult_product a b false Ha Hb) as (H1 & H2 & Hw).
    exists [(HiReg, (Mult a b false).1); (LoReg, (Mult a b false).2)]. split; [|split; [constructor; [exact H1|constructor; [exact H2|constructor]]|]].
    + rewrite (bind_Done _ _ _ _ _ run_rs), (bind_Done _ _ _ _ _ run_rt). by rewrite assign_pair.
    + destruct (double_words_u _ _ _ Hw) as [E1 E2]. cbn. by rewrite E1, E2.
  - destruct ((u32 b =? 0) || (a =? - 2 ^ 31) && (b =? -1)) eqn:Hopen; [done|]. intros [= <-].
    assert ((b =? 0) = false ∧ (a =? INT_MIN) && (b =? -1) = false) as [H0 H1].
    { apply orb_false_iff in Hopen as [H0 H1]. split; [|exact H1]. unfold int, u32 in *. lia. }
    exists [(LoReg, Z.quot a b); (HiReg, Z.rem a b)]. split; [|split; [|done]].
    + rewrite (bind_Done _ _ _ _ _ run_rt), H0, (bind_Done _ _ _ _ _ run_rs), H1. by rewrite assign_pair.
    + constructor; [by apply int_quot|constructor; [by apply int_rem|constructor]].
  - destruct (u32 b =? 0) eqn:H0; [done|]. intros [= <-].
    exists [(LoReg, s32 (u32 a / u32 b)); (HiReg, s32 (u32 a mod u32 b))]. split; [|split].
    + rewrite (bind_Done _ _ _ _ _ run_rs), (bind_Done _ _ _ _ _ run_rt), H0. by rewrite assign_pair.
    + constructor; [apply s32_int|constructor; [apply s32_int|constructor]].
    + cbn. rewrite !u32_of_s32. pose proof (u32_range a). pose proof (u32_range b).
      assert (0 <= u32 a / u32 b < 2 ^ 32).
      { split; [apply Z.div_pos; lia|]. apply Z.div_lt_upper_bound; [lia|]. nia. }
      pose proof (Z.mod_pos_bound (u32 a) (u32 b)). by rewrite (u32_id (u32 a / u32 b)), (u32_id (u32 a mod u32 b)) by lia.
Qed.

(** The words that OR, SRL and SRLV leave, and when they are the manual's. *)
Lemma alu_odd ws : opCode i ∈ [OP_OR; OP_SRL; OP_SRLV] → alu i (u32 a) (u32 b) = Some ws →
  ∃ x v, execute big h i pc m = (set_reg (rd i) x ;;; ret (Next pc 0 0)) m ∧ int x ∧ ws = [(rd i, v)] ∧
    (if deviates i a b then u32 x ≠ v else u32 x = v).
Proof.
  pose proof int_rs as Ha. pose proof int_rt as Hb. pose proof Hi as (_ & _ & _ & Hsh). intros Hop%list_elem_of_In. cbn [In] in Hop.
  assert (∀ k, 0 <= k < 32 → if (b <? 0) && (0 <? k) then u32 (Z.shiftr b k) ≠ u32 b / 2 ^ k else u32 (Z.shiftr b k) = u32 b / 2 ^ k) as Hshift.
  { intros k Hk. rewrite u32_shiftr by done. assert ((2 ^ 31 <=? u32 b) = (b <? 0)) as -> by (unfold int, u32 in *; lia).
    destruct (Z.ltb_spec b 0); cbn [andb]; [|lia]. destruct (Z.ltb_spec 0 k) as [Hk0|Hk0].
    - assert (2 ^ (32 - k) < 2 ^ 32) by (apply Z.pow_lt_mono_r; lia). lia.
    - replace k with 0 by lia. rewrite Z.sub_0_r. lia. }
  unfold alu, execute, deviates. destruct Hop as [Hop|[Hop|[Hop|[]]]]; rewrite <- Hop in *; cbv zeta; intros [= <-]; eexists _, _;
    (split; [repeat first [rewrite (bind_Done _ _ _ _ _ run_rs)|rewrite (bind_Done _ _ _ _ _ run_rt)]; cbv beta; reflexivity|]).
  - split; [by apply int_lor|]. split; [done|]. rewrite Z.lor_diag, <- u32_lor.
    assert (int (Z.lor a b)) as Hab' by by apply int_lor. destruct (Z.eqb_spec (Z.lor a b) a) as [->|Hne]; cbn [negb]; [done|].
    intros He. apply Hne. unfold int, u32 in *. lia.
  - specialize (Hsh ltac:(apply list_elem_of_In; cbn; tauto)). split; [apply int_shiftr; [lia|done]|]. split; [done|]. by apply Hshift.
  - rewrite land_31. assert (0 <= u32 a mod 32 < 32) as Hk by lia.
    split; [apply int_shiftr; [lia|done]|]. split; [done|]. by apply Hshift.
Qed.

Lemma alu_spec ws : alu i (u32 a) (u32 b) = Some ws →
  ∃ xs, execute big h i pc m = (assign xs ;;; ret (Next pc 0 0)) m ∧ Forall (λ dx, int dx.2) xs ∧ xs.*1 = ws.*1 ∧
    (if deviates i a b then words xs ≠ ws else words xs = ws).
Proof.
  intros Hws. destruct (single (opCode i)) eqn:Hone.
  - destruct (alu_single ws Hone Hws) as (d & x & Hx & -> & He). exists [(d, x)]. rewrite He.
    assert (deviates i a b = false) as -> by (unfold deviates; by destruct (opCode i)).
    split; [cbn [assign]; by rewrite bind_assoc|]. split; [constructor; [exact Hx|constructor]|done].
  - assert (opCode i ∈ [OP_MULT; OP_MULTU; OP_DIV; OP_DIVU] ∨ opCode i ∈ [OP_OR; OP_SRL; OP_SRLV]) as [Hop|Hop]
      by (rewrite !list_elem_of_In; destruct (opCode i); try done; cbn; tauto).
    + destruct (alu_double ws Hop Hws) as (xs & He & Hint & Hw). exists xs. split; [done|]. split; [done|].
      assert (deviates i a b = false) as ->
        by (apply list_elem_of_In in Hop; cbn in Hop; unfold deviates; by destruct Hop as [<-|[<-|[<-|[<-|[]]]]]).
      split; [|done]. rewrite <- Hw. unfold words. rewrite <- list_fmap_compose. by apply list_fmap_ext.
    + destruct (alu_odd ws Hop Hws) as (x & v & He & Hx & -> & Hd). exists [(rd i, x)]. rewrite He.
      split; [cbn [assign]; by rewrite bind_assoc|]. split; [constructor; [exact Hx|constructor]|]. split; [done|].
      destruct (deviates i a b); cbn; congruence.
Qed.

(** The exact sum or difference an ADD, ADDI or SUB stands for. *)
Definition exact (i : Instruction) (a b : Z) : option (Z * Z) :=
  match opCode i with
  | OP_ADD => Some (rd i, a + b)
  | OP_ADDI => Some (rt i, a + extra i)
  | OP_SUB => Some (rd i, a - b)
  | _ => None
  end.

Lemma overflow_spec d r : exact i a b = Some (d, r) →
  execute big h i pc m =
    if (- 2 ^ 31 <=? r) && (r <? 2 ^ 31) then (set_reg d r ;;; ret (Next pc 0 0)) m
    else trap h OverflowException 0 m.
Proof.
  pose proof int_rs as Ha. pose proof int_rt as Hb. pose proof Hi as (_ & Hx & _).
  unfold exact, execute. destruct (opCode i) eqn:Hop; try done; intros [= <- <-]; cbv zeta;
    repeat first [rewrite (bind_Done _ _ _ _ _ run_rs)|rewrite (bind_Done _ _ _ _ _ run_rt)]; cbv beta.
  all: rewrite !sign_set_lxor by (done || apply s32_int).
  all: match goal with |- context [s32 ?x] => 
    let E := fresh in pose proof (s32_cases x) as E; unfold int in *; specialize (E ltac:(lia)) end.
  all: match goal with |- (if ?c then _ else _) _ = (if ?f then _ else _) =>
    assert (c = negb f) as -> by (repeat case_match; lia); destruct f eqn:Hf; [|done] end.
  all: cbn [negb]; rewrite s32_id by (unfold int; lia); done.
Qed.
End operations.

(** The value a load of the bytes of [v] gives. *)
Definition extended (op : OpCode) (v : Z) : option (Z * Z) :=
  match op with
  | OP_LB => Some (1, s8 v)
  | OP_LBU => Some (1, v mod 2 ^ 8)
  | OP_LH => Some (2, s16 (v mod 2 ^ 16))
  | OP_LHU => Some (2, v mod 2 ^ 16)
  | OP_LW => Some (4, s32 v)
  | _ => None
  end.

Lemma extend_byte v : (if negb (Z.land (s8 v) 0x80 =? 0) then s32 (Z.lor (u32 (s8 v)) 0xffffff00)
  else Z.land (s8 v) 0xff) = s8 v.
Proof.
  change 0x80 with (Z.shiftl (Z.ones 1) 7). rewrite land_field by lia. change 0xff with (Z.ones 8).
  rewrite Z.land_ones by lia. unfold s8. set (b := v mod 256). assert (0 <= b < 256) by (unfold b; lia).
  destruct (Z.ltb_spec b 128).
  - assert (b / 2 ^ 7 mod 2 ^ 1 = 0) as -> by lia. cbn [Z.mul Z.eqb negb]. rewrite Z.mul_0_r. cbn. lia.
  - assert ((b - 256) / 2 ^ 7 mod 2 ^ 1 = 1) as -> by lia. change (negb (2 ^ 7 * 1 =? 0)) with true. cbv iota.
    assert (u32 (b - 256) = b + 2 ^ 8 * 0xffffff) as -> by (unfold u32; lia). change 0xffffff00 with (2 ^ 8 * 0xffffff).
    rewrite <- (lor_parts b 0xffffff 8), <- Z.lor_assoc, Z.lor_diag, lor_parts by lia.
    rewrite s32_cases by lia. repeat case_match; lia.
Qed.

Lemma extend_short v : (if negb (Z.land (u16 v) 0x8000 =? 0) then s32 (Z.lor (u32 (u16 v)) 0xffff0000)
  else Z.land (u16 v) 0xffff) = s16 (v mod 2 ^ 16).
Proof.
  assert (Z.land (u16 v) 0xffff = u16 v) as E.
  { change 0xffff with (Z.ones 16). rewrite Z.land_ones by lia. unfold u16. lia. }
  pose proof (sign_extend (u16 v)) as Hx. rewrite E in Hx |- *. rewrite u32_id by (unfold u16; lia).
  rewrite Hx. f_equal. unfold field, u16. rewrite Z.pow_0_r, Z.div_1_r. lia.
Qed.

Lemma load_spec big h i pc m a b size v pa m1 : instr_ok i → cpu_ok m → operands i m a b →
  let addr := s32 (a + extra i) in
  Translate addr size false m = Done (inr pa, m1) →
  extended (opCode i) (of_le (take (Z.to_nat size) (drop (Z.to_nat pa) (mainMemory m)))) = Some (size, v) →
  ∃ m', execute big h i pc m = Done (Next pc (rt i) v, m') ∧ same_program m m'.
Proof.
  intros Hi Hm Hab addr HT Hv. pose proof (run_rs i m a b Hi Hab) as Hrs. pose proof (co_machine _ Hm) as Hwf.
  assert (size = 1 ∨ size = 2 ∨ size = 4) as Hs by (unfold extended in Hv; destruct (opCode i); try done; injection Hv; lia).
  set (bs := take _ _) in Hv.
  assert (∀ h, ReadMem big h addr size m = _) as HR by (intros h'; apply (ReadMem_translated big h' addr size Hs m pa m1 Hwf HT)).
  fold bs in HR. set (m' := with_lastUsed _ m1) in HR.
  assert (Z.land addr 0x1 = addr mod 2 ∧ Z.land addr 0x3 = addr mod 4) as [E1 E3].
  { change 0x1 with (Z.ones 1). change 0x3 with (Z.ones 2). by rewrite !Z.land_ones. }
  pose proof (Translate_Done _ _ Hs _ _ _ _ Hwf HT) as Htr.
  assert (addr mod size = 0) as Hal by (by inversion Htr).
  exists m'. split.
  - unfold execute, extended in *. destruct (opCode i); try done; injection Hv as <- <-; cbv zeta;
      rewrite (bind_Done _ _ _ _ _ Hrs); cbv beta; fold addr; unfold load_or_return;
      rewrite ?E1, ?E3, ?Hal; cbn [Z.eqb negb]; rewrite (bind_Done _ _ _ _ _ (HR h)); cbn [narrow Z.eqb Pos.eqb]; unfold narrow; cbn [Z.eqb Pos.eqb].
    all: rewrite ?extend_byte, ?extend_short; try done.
    + change 255 with (Z.ones 8). rewrite Z.land_ones by lia. unfold ret, s8. do 3 f_equal. case_match; lia.
    + change 65535 with (Z.ones 16). rewrite Z.land_ones by lia. unfold ret, u16. do 3 f_equal. lia.
  - destruct (translated_cpu m addr size false pa m1 (<[Z.to_nat (pa / PageSize) := totalTicks m]> (lastUsed m))
      (mainMemory m) Hm Hs HT) as (_ & H2 & H3 & H4 & H5); [by rewrite length_insert|done|apply (mw_bytes _ Hwf)|].
    by repeat split.
Qed.

(** ** Properties *)

(** C9: whatever the kernel's handler is, an instruction
    does one of three things. It completes and the program counters advance by
    one, with register 0 zero; or it traps, and the handler is called in a
    state in which the program stands at the same instruction with its memory
    and registers untouched, but for the pending load, so that it can be run
    again; or it is one of the instructions [hazard] names, which stop the
    simulator. *)
Theorem instruction_restarts big m : cpu_ok m → instruction_outcome big m.
Proof. apply OneInstruction_cases. Qed.

(** C33: under a kernel that keeps the registers [int]s and the target
    of the pending load a general register, running any number of
    instructions does so too: every table and register index the
    interpreter uses is in range. *)
Theorem Run_typed big h tick E n m : (∀ e m, cpu_ok m → wp E (h e) (λ _ m', cpu_ok m') m) →
  (∀ m, cpu_ok m → wp E tick (λ _ m', cpu_ok m') m) → cpu_ok m →
  wp (λ f, E f ∨ f = AssertFailed ∨ f = DivOverflow) (Run big h tick n) (λ _ m', cpu_ok m') m.
Proof.
  intros Hh Ht Hm. unfold Run. apply wp_bind, wp_modify.
  assert (cpu_ok (with_mode UserMode m)) as Hm' by (destruct Hm as [[] ? ? ?]; by split; [split|..]).
  clear Hm. revert Hm'. generalize (with_mode UserMode m). clear m. induction n as [|n IH]; intros m Hm; [done|].
  cbn [Run_loop]. apply wp_bind. eapply wp_mono; [by apply OneInstruction_wp|]. cbn. intros _ m1 Hm1.
  apply wp_bind. specialize (Ht m1 Hm1). unfold wp in Ht |- *. destruct (tick m1) as [[[] m2]|f]; [|by left].
  by apply IH.
Qed.

(** ADD, ADDI and SUB leave the exact sum or difference in the
    destination when it is a 32-bit [int], and otherwise raise
    OverflowException and change nothing. *)
Theorem overflow_traps big h i pc m a b d r : instr_ok i → cpu_ok m → operands i m a b →
  exact i a b = Some (d, r) →
  execute big h i pc m =
    if (- 2 ^ 31 <=? r) && (r <? 2 ^ 31) then (set_reg d r ;;; ret (Next pc 0 0)) m
    else trap h OverflowException 0 m.
Proof. intros. by apply (overflow_spec big h i pc m a b). Qed.

(** C34: the C++ arithmetic of the instructions that compute from registers and
    cannot trap - sums, differences, bit operations, shifts, comparisons, products
    and quotients - assigns [int]s to the registers the manual names, and they are
    the words of the manual, [alu], except where [deviates] says: OR when its
    second operand has a bit the first has not, SRL and SRLV of a negative number by
    at least one.  There a different word is left. *)
Theorem alu_correct big h i pc m a b ws : instr_ok i → cpu_ok m → operands i m a b →
  alu i (u32 a) (u32 b) = Some ws →
  ∃ xs, execute big h i pc m = (assign xs ;;; ret (Next pc 0 0)) m ∧ Forall (λ dx, int dx.2) xs ∧ xs.*1 = ws.*1 ∧
    (if deviates i a b then words xs ≠ ws else words xs = ws).
Proof. intros. by apply (alu_spec big h i pc m a b). Qed.

(** A load that is translated puts the bytes of memory, lowest
    first and extended with the sign or with zeros as the instruction says, on
    their way to the register, and the program sees no other change yet. *)
Theorem load_extends big h i pc m a b size v pa m1 : instr_ok i → cpu_ok m → operands i m a b →
  Translate (s32 (a + extra i)) size false m = Done (inr pa, m1) →
  extended (opCode i) (of_le (take (Z.to_nat size) (drop (Z.to_nat pa) (mainMemory m)))) = Some (size, v) →
  ∃ m', execute big h i pc m = Done (Next pc (rt i) v, m') ∧ same_program m m'.
Proof. intros Hi Hm Hab. exact (load_spec big h i pc m a b size v pa m1 Hi Hm Hab). Qed.

(** OR does not look at its second operand, and SRL of a
    negative number is not the logical shift of the manual. *)
Theorem or_and_srl_differ big h i pc m a b : instr_ok i → cpu_ok m → operands i m a b →
  (opCode i = OP_OR → execute big h i pc m = (set_reg (rd i) a ;;; ret (Next pc 0 0)) m) ∧
  (opCode i = OP_SRL → b < 0 → 0 < extra i → ∃ x, u32 x ≠ u32 b / 2 ^ extra i ∧
    execute big h i pc m = (set_reg (rd i) x ;;; ret (Next pc 0 0)) m).
Proof.
  intros Hi Hm Hab. pose proof (run_rs i m a b Hi Hab) as Hrs. pose proof (run_rt i m a b Hi Hab) as Hrt.
  pose proof (int_rt i m a b Hm Hab) as Hb. pose proof Hi as (_ & _ & _ & Hsh).
  split; intros Hop.
  - unfold execute. rewrite Hop. cbv zeta. rewrite (bind_Done _ _ _ _ _ Hrs); cbv beta.
    rewrite (bind_Done _ _ _ _ _ Hrs); cbv beta. by rewrite Z.lor_diag.
  - intros Hneg Hpos. rewrite Hop in Hsh. specialize (Hsh ltac:(apply list_elem_of_In; cbn; tauto)).
    exists (Z.shiftr b (extra i)). split.
    + rewrite u32_shiftr by (done || lia). destruct (Z.leb_spec (2 ^ 31) (u32 b)) as [_|Hu]; [|unfold int, u32 in *; lia].
      assert (2 ^ (32 - extra i) < 2 ^ 32) by (apply Z.pow_lt_mono_r; lia). lia.
    + unfold execute. rewrite Hop. cbv zeta. by rewrite (bind_Done _ _ _ _ _ Hrt).
Qed.

(** ** A machine with a few numbers in its registers *)

Definition example_cpu : Machine :=
  with_memory (<[644%nat := 255]> (mainMemory example_machine))
    (with_registers ([0; 2147483647; 1; 0; -8; 388] ++ replicate 34 0) example_machine).

Lemma example_cpu_ok : cpu_ok example_cpu.
Proof.
  split.
  - destruct example_machine_wf as [H1 H2 H3 H4]. split; cbn; [by rewrite length_insert| |done|done].
    apply Forall_insert; [done|]. unfold byte. lia.
  - reflexivity.
  - repeat (constructor; [by apply int_const|]). constructor.
  - intros l [= <-]. lia.
Qed.

Definition rtype (op : OpCode) (s t d x : Z) : Instruction := mkInstr 0 op s t d x.

Lemma rtype_ok op s t d x : (0 <= s < 32) → (0 <= t < 32) → (0 <= d < 32) → (0 <= x < 32) → plain op = true →
  instr_ok (rtype op s t d x).
Proof. intros. split_and!; cbn; try done; lia || (intros; lia) || (unfold int; lia). Qed.

Lemma Mult_product_witness :
  int (Mult (-2147483648) (-2147483648) true).1 ∧ Mult (-2147483648) (-2147483648) true = (1073741824, 0).
Proof.
  destruct (Mult_product (-2147483648) (-2147483648) true) as [H _]; [by apply int_const..|].
  split; [exact H|reflexivity].
Defined.

Lemma instruction_restarts_witness : instruction_outcome false example_cpu.
Proof. exact (instruction_restarts false example_cpu example_cpu_ok). Defined.

Lemma Run_typed_witness : wp (λ f, False ∨ f = AssertFailed ∨ f = DivOverflow)
  (Run false (λ _, ret ()) (ret ()) 10) (λ _ m', cpu_ok m') example_cpu.
Proof.
  exact (Run_typed false (λ _, ret ()) (ret ()) no_fault 10 example_cpu (λ _ _ H, H) (λ _ H, H) example_cpu_ok).
Defined.

Lemma example_operands s t a b :
  [0; 2147483647; 1; 0; -8; 388] !! Z.to_nat s = Some a → [0; 2147483647; 1; 0; -8; 388] !! Z.to_nat t = Some b →
  ∀ op d x, operands (rtype op s t d x) example_cpu a b.
Proof.
  intros Ha Hb op d x. split; cbn [rs rt rtype];
    change (registers example_cpu) with ([0; 2147483647; 1; 0; -8; 388] ++ replicate 34 0);
    by apply lookup_app_l_Some.
Qed.

Lemma overflow_traps_witness : let h := (λ _, ret ()) : Handler in
  execute false h (rtype OP_ADD 1 2 3 0) 0 example_cpu = trap h OverflowException 0 example_cpu.
Proof.
  exact (overflow_traps false (λ _, ret ()) (rtype OP_ADD 1 2 3 0) 0 example_cpu 2147483647 1 3 2147483648
    (rtype_ok OP_ADD 1 2 3 0 ltac:(lia) ltac:(lia) ltac:(lia) ltac:(lia) eq_refl) example_cpu_ok
    (example_operands 1 2 _ _ eq_refl eq_refl _ _ _) eq_refl).
Defined.

Lemma alu_correct_witness :
  (∃ x, u32 x = 4294967294 ∧ execute false (λ _, ret ()) (rtype OP_SRA 0 4 3 2) 0 example_cpu =
    (assign [(3, x)] ;;; ret (Next 0 0 0)) example_cpu) ∧
  (∃ x, u32 x ≠ 1073741822 ∧ execute false (λ _, ret ()) (rtype OP_SRL 0 4 3 2) 0 example_cpu =
    (assign [(3, x)] ;;; ret (Next 0 0 0)) example_cpu).
Proof.
  split.
  - destruct (alu_correct false (λ _, ret ()) (rtype OP_SRA 0 4 3 2) 0 example_cpu 0 (-8) [(3, 4294967294)]
      (rtype_ok OP_SRA 0 4 3 2 ltac:(lia) ltac:(lia) ltac:(lia) ltac:(lia) eq_refl) example_cpu_ok
      (example_operands 0 4 _ _ eq_refl eq_refl _ _ _) eq_refl) as (xs & He & _ & Hd & Hw).
    destruct xs as [|[d x] [|]]; [discriminate Hw| |discriminate Hw]. cbn in Hw. injection Hw as -> Hx.
    exists x. split; [exact Hx|exact He].
  - destruct (alu_correct false (λ _, ret ()) (rtype OP_SRL 0 4 3 2) 0 example_cpu 0 (-8) [(3, 1073741822)]
      (rtype_ok OP_SRL 0 4 3 2 ltac:(lia) ltac:(lia) ltac:(lia) ltac:(lia) eq_refl) example_cpu_ok
      (example_operands 0 4 _ _ eq_refl eq_refl _ _ _) eq_refl) as (xs & He & _ & Hd & Hw).
    destruct xs as [|[d x] [|]]; [discriminate Hd| |discriminate Hd]. cbn in Hd. injection Hd as ->.
    exists x. split; [|exact He]. intros Hx. apply Hw. cbn. by rewrite Hx.
Defined.

Lemma example_load : ∃ m1, Translate 388 1 false example_cpu = Done (inr 644, m1).
Proof. eexists. vm_compute. reflexivity. Qed.
Lemma example_byte : of_le (take 1 (drop 644 (mainMemory example_cpu))) = 255.
Proof. vm_compute. reflexivity. Qed.

Lemma load_extends_witness : ∃ m', execute false (λ _, ret ()) (rtype OP_LB 5 3 0 0) 0 example_cpu =
  Done (Next 0 3 (-1), m') ∧ same_program example_cpu m'.
Proof.
  destruct example_load as [m1 HT].
  assert (extended OP_LB (of_le (take 1 (drop 644 (mainMemory example_cpu)))) = Some (1, -1)) as Hx
    by (rewrite example_byte; reflexivity).
  exact (load_extends false (λ _, ret ()) (rtype OP_LB 5 3 0 0) 0 example_cpu 388 0 1 (-1) 644 m1
    (rtype_ok OP_LB 5 3 0 0 ltac:(lia) ltac:(lia) ltac:(lia) ltac:(lia) eq_refl) example_cpu_ok
    (example_operands 5 3 _ _ eq_refl eq_refl _ _ _) HT Hx).
Defined.

Lemma or_and_srl_differ_witness :
  execute false (λ _, ret ()) (rtype OP_OR 4 1 3 0) 0 example_cpu =
    (set_reg 3 (-8) ;;; ret (Next 0 0 0)) example_cpu ∧
  ∃ x, u32 x ≠ u32 (-8) / 2 ^ 2 ∧ execute false (λ _, ret ()) (rtype OP_SRL 0 4 3 2) 0 example_cpu =
    (set_reg 3 x ;;; ret (Next 0 0 0)) example_cpu.
Proof.
  split.
  - exact (proj1 (or_and_srl_differ false (λ _, ret ()) (rtype OP_OR 4 1 3 0) 0 example_cpu (-8) 2147483647
      (rtype_ok OP_OR 4 1 3 0 ltac:(lia) ltac:(lia) ltac:(lia) ltac:(lia) eq_refl) example_cpu_ok
      (example_operands 4 1 _ _ eq_refl eq_refl _ _ _)) eq_refl).
  - exact (proj2 (or_and_srl_differ false (λ _, ret ()) (rtype OP_SRL 0 4 3 2) 0 example_cpu 0 (-8)
      (rtype_ok OP_SRL 0 4 3 2 ltac:(lia) ltac:(lia) ltac:(lia) ltac:(lia) eq_refl) example_cpu_ok
      (example_operands 0 4 _ _ eq_refl eq_refl _ _ _)) eq_refl eq_refl eq_refl).
Defined.
