(* ===== verification/Client.v ===== *)
(** * Client: the system calls of a client machine, userprog/exception.cc

    The lock, condition and monitor variable calls of the NETWORK build: each
    checks its arguments, writes a request as text, sends it to a server drawn
    at random and, where the server answers, reads the answer.  [copyin] fetches
    a name from the memory of the calling program.  [printf] and [DEBUG] are
    left out. *)
From S2P Require Import Prelude Translate Wire ServerState Mips.
From stdpp Require Import base list strings.
From Stdlib Require Import ZArith Lia ZifyBool Ascii.

Local Open Scope Z_scope.
#[local] Ltac Zify.zify_post_hook ::= Z.to_euclidean_division_equations.

(** ** The world of a client *)

Class ClientEnv := {
  (** [currentThread->getThreadID()], also the number of its mail box *)
  clientThread : Z;
  (** the n-th value of [rand()] *)
  rand : nat → Z;
  (** whether the n-th [Send] to this machine succeeds *)
  reaches : nat → Z → bool;
  (** the n-th mail to arrive in the mail box of the thread *)
  incoming : nat → string;
  (** what an uninitialised [bool] or [int] holds *)
  unset : Z;
  (** what is read through a pointer into a destroyed temporary string *)
  dangling : string → string
}.

Record Client := mkClient {
  machine : Machine;
  tries : nat;             (* calls of [rand] and [Send] so far *)
  received : nat;          (* calls of [Receive] so far *)
  mails : list Mail        (* what was sent, in order *)
}.

Definition with_machine (m : Machine) (s : Client) : Client := mkClient m (tries s) (received s) (mails s).

(** ** copyin *)

Section copyin.
Context (big_endian : bool) (ExceptionHandler : ExceptionType → M Machine unit).

(** [while(!result) result = machine->ReadMem(vaddr, 1, paddr);], at most
    [fuel] more times. *)
Fixpoint read_byte (fuel : nat) (vaddr : Z) : M Machine Z :=
  let! r := ReadMem big_endian ExceptionHandler (s32 vaddr) 1 in
  match r with
  | (true, Some v) => ret v
  | _ => match fuel with O => fail OutOfFuel | S fuel' => read_byte fuel' vaddr end
  end.

(** [n] more characters; after the inner loop [result] is TRUE, so the
    [return -1] below it is never taken. *)
Fixpoint copyin_loop (fuel n : nat) (vaddr : Z) : M Machine (list Z) :=
  match n with
  | O => ret []
  | S n' =>
      let! v := read_byte fuel vaddr in
      let! bs := copyin_loop fuel n' (u32 (vaddr + 1)) in
      ret (v mod 256 :: bs)
  end.

(** The answer and what is in [buf]. *)
Definition copyin (fuel : nat) (vaddr len : Z) : M Machine (Z * list Z) :=
  let! bs := copyin_loop fuel (Z.to_nat len) (u32 vaddr) in
  ret (len, bs).
End copyin.

(** ** Sending and receiving *)

Section client.
Context {E : ClientEnv}.

Definition Client_Send (to_machine : Z) (msg : string) : M Client bool :=
  (if Z.of_nat (String.length msg) + 1 <=? MaxMailSize then ret () else fail MailTooLong) ;;;
  let! s := get in
  let success := reaches (tries s) to_machine in
  put (mkClient (machine s) (S (tries s)) (received s)
         (mails s ++ [mkMail to_machine 0 clientThread msg success])) ;;;
  ret success.

(** The [do ... while(!success && trys < 500)]. *)
Fixpoint send_tries (n : nat) (msg : string) : M Client bool :=
  match n with
  | O => ret false
  | S n' =>
      let! s := get in
      let! success := Client_Send (Z.rem (rand (tries s)) 5) msg in
      if (success : bool) then ret true else send_tries n' msg
  end.

Definition clientSendMail (msg : string) : M Client unit :=
  let! success := send_tries 500 msg in
  if (success : bool) then ret () else fail Halted.

(** [postOffice->Receive(currentThread->getThreadID(), ...)] *)
Definition Receive : M Client string :=
  ASSERT ((0 <=? clientThread) && (clientThread <? numBoxes)) ;;;
  let! s := get in
  put (mkClient (machine s) (tries s) (S (received s)) (mails s)) ;;;
  ret (incoming (received s)).

(** [rs >> success;] and [rs >> x;], into variables that hold nothing yet. *)
Definition get_bool (rs : istream) : bool * istream :=
  match read_bool rs with (Some b, rs') => (b, rs') | (None, rs') => (negb (unset =? 0), rs') end.
Definition get_int (old : Z) (rs : istream) : Z * istream :=
  match read_int rs with (Some z, rs') => (z, rs') | (None, rs') => (old, rs') end.

(** The characters of a C string end before the first NUL. *)
Fixpoint c_str (s : string) : string :=
  match s with
  | EmptyString => EmptyString
  | String c s' => if (N_of_ascii c =? 0)%N then EmptyString else String c (c_str s')
  end.

Definition chars (bs : list Z) : string :=
  foldr (λ b s, String (ascii_of_N (Z.to_N b)) s) EmptyString bs.

Definition MaxNameLen : Z := 20.

Definition on_machine {A} (c : M Machine A) : M Client A := λ s,
  match c (machine s) with Done (a, m) => Done (a, with_machine m s) | Fault f => Fault f end.

(** ** The calls *)

Section calls.
Context (big_endian : bool) (ExceptionHandler : ExceptionType → M Machine unit) (fuel : nat).

(** The name at [vaddr]: [None] is the early [return -1]. *)
Definition read_name (vaddr len : Z) : M Client (option string) :=
  if MaxNameLen <? len then ret None
  else if len <? 0 then fail LengthError
  else
    let! r := on_machine (copyin big_endian ExceptionHandler fuel vaddr len) in
    if r.1 =? -1 then ret None
    else ASSERT (forallb (λ b, negb (b =? 32)) r.2) ;;; ret (Some (chars r.2)).

(** The answer to a creation: a flag and, if it is set, the identifier. *)
Definition read_created : M Client Z :=
  let! buffer := Receive in
  let (success, rs) := get_bool (mkStream buffer false) in
  if (success : bool) then ret (get_int unset rs).1 else ret (-1).

(** The answer to a request that returns nothing: the flag is only printed. *)
Definition read_status : M Client unit :=
  let! buffer := Receive in
  let (status, rs) := get_bool (mkStream buffer false) in
  ret ().

Definition CreateLock_Syscall (vaddr len : Z) : M Client Z :=
  let! name := read_name vaddr len in
  match name with
  | None => ret (-1)
  | Some name =>
      clientSendMail (dangling (c_str (print_int SC_CreateLock +:+ " " +:+ name))) ;;;
      read_created
  end.

Definition Acquire_Syscall (lock : Z) : M Client unit :=
  if lock <? 0 then ret ()
  else
    clientSendMail (dangling (print_int SC_Acquire +:+ " " +:+ print_int lock)) ;;;
    read_status.

Definition Release_Syscall (lock : Z) : M Client unit :=
  if lock <? 0 then ret ()
  else clientSendMail (print_int SC_Release +:+ " " +:+ print_int lock).

Definition DestroyLock_Syscall (lock : Z) : M Client unit :=
  if lock <? 0 then ret ()
  else clientSendMail (print_int SC_DestroyLock +:+ " " +:+ print_int lock).

Definition CreateCondition_Syscall (vaddr len : Z) : M Client Z :=
  let! name := read_name vaddr len in
  match name with
  | None => ret (-1)
  | Some name =>
      clientSendMail (dangling (c_str (print_int SC_CreateCondition +:+ " " +:+ name))) ;;;
      read_created
  end.

Definition Wait_Syscall (condition lock : Z) : M Client unit :=
  if (condition <? 0) || (lock <? 0) then ret ()
  else
    clientSendMail (print_int SC_Wait +:+ " " +:+ print_int condition +:+ " " +:+ print_int lock) ;;;
    read_status.

Definition Signal_Syscall (condition lock : Z) : M Client unit :=
  if (condition <? 0) || (lock <? 0) then ret ()
  else
    clientSendMail (print_int SC_Signal +:+ " " +:+ print_int condition +:+ " " +:+ print_int lock) ;;;
    read_status.

Definition Broadcast_Syscall (condition lock : Z) : M Client unit :=
  if (condition <? 0) || (lock <? 0) then ret ()
  else
    clientSendMail (print_int SC_Broadcast +:+ " " +:+ print_int condition +:+ " " +:+ print_int lock) ;;;
    read_status.

Definition DestroyCondition_Syscall (condition : Z) : M Client unit :=
  if condition <? 0 then ret ()
  else clientSendMail (print_int SC_DestroyCondition +:+ " " +:+ print_int condition).

Definition CreateMV_Syscall (vaddr len size : Z) : M Client Z :=
  let! name := read_name vaddr len in
  match name with
  | None => ret (-1)
  | Some name =>
      if size <=? 0 then ret (-1)
      else
        clientSendMail (c_str (print_int SC_CreateMV +:+ " " +:+ print_int size +:+ " " +:+ name)) ;;;
        read_created
  end.

Definition DestroyMV_Syscall (MVID : Z) : M Client unit :=
  if MVID <? 0 then ret ()
  else clientSendMail (print_int SC_DestroyMV +:+ " " +:+ print_int MVID).

Definition Set_Syscall (MVID index value : Z) : M Client unit :=
  if MVID <? 0 then ret ()
  else if index <? 0 then ret ()
  else
    clientSendMail (print_int SC_Set +:+ " " +:+ print_int MVID +:+ " " +:+ print_int index +:+ " " +:+ print_int value) ;;;
    read_status.

Definition Get_Syscall (MVID index : Z) : M Client Z :=
  if MVID <? 0 then ret 0
  else if index <? 0 then ret 0
  else
    clientSendMail (print_int SC_Get +:+ " " +:+ print_int MVID +:+ " " +:+ print_int index) ;;;
    let value := 0 in
    let! buffer := Receive in
    let (success, rs) := get_bool (mkStream buffer false) in
    if negb success then ret value else ret (get_int value rs).1.

(** ** The dispatch of [ExceptionHandler] *)

Definition arg (n : Z) : M Client Z := on_machine (reg n).

(** The cases of the switch on register 2 for the calls above, with [rv]. *)
Definition network_syscall (type : Z) : option (M Client Z) :=
  let void (c : M Client unit) : M Client Z := c ;;; ret 0 in
  let arg1 {A} (c : Z → M Client A) : M Client A := let! a := arg 4 in c a in
  let arg2 {A} (c : Z → Z → M Client A) : M Client A := let! a := arg 4 in let! b := arg 5 in c a b in
  let arg3 {A} (c : Z → Z → Z → M Client A) : M Client A :=
    let! a := arg 4 in let! b := arg 5 in let! d := arg 6 in c a b d in
  if type =? SC_CreateLock then Some (arg2 CreateLock_Syscall)
  else if type =? SC_Acquire then Some (void (arg1 Acquire_Syscall))
  else if type =? SC_Release then Some (void (arg1 Release_Syscall))
  else if type =? SC_DestroyLock then Some (void (arg1 DestroyLock_Syscall))
  else if type =? SC_CreateCondition then Some (arg2 CreateCondition_Syscall)
  else if type =? SC_Wait then Some (void (arg2 Wait_Syscall))
  else if type =? SC_Signal then Some (void (arg2 Signal_Syscall))
  else if type =? SC_Broadcast then Some (void (arg2 Broadcast_Syscall))
  else if type =? SC_DestroyCondition then Some (void (arg1 DestroyCondition_Syscall))
  else if type =? SC_CreateMV then Some (arg3 CreateMV_Syscall)
  else if type =? SC_Get then Some (arg2 Get_Syscall)
  else if type =? SC_Set then Some (void (arg3 Set_Syscall))
  else if type =? SC_DestroyMV then Some (void (arg1 DestroyMV_Syscall))
  else None.

(** The end of a system call: the result in register 2, and past the SYSCALL. *)
Definition syscall_return (rv : Z) : M Client unit :=
  on_machine (
    set_reg 2 rv ;;;
    let! pc := reg PCReg in set_reg PrevPCReg pc ;;;
    let! next := reg NextPCReg in set_reg PCReg next ;;;
    let! pc := reg PCReg in set_reg NextPCReg (s32 (pc + 4))).
End calls.
End client.

(** ** A message gets through *)

Section sending.
Context {E : ClientEnv}.

Definition fits_mail (msg : string) : Prop := Z.of_nat (String.length msg) + 1 <= MaxMailSize.

(** The k-th try from state [s], and the state after [k] of them. *)
Definition attempt (s : Client) (msg : string) (k : nat) : Mail :=
  let server := Z.rem (rand (tries s + k)) 5 in
  mkMail server 0 clientThread msg (reaches (tries s + k) server).
Definition after_tries (s : Client) (msg : string) (k : nat) : Client :=
  mkClient (machine s) (tries s + k) (received s) (mails s ++ (attempt s msg <$> seq 0 k)).

(** [k] is the first try that succeeds. *)
Definition first_success (s : Client) (msg : string) (k : nat) : Prop :=
  sent (attempt s msg k) = true ∧ ∀ j, (j < k)%nat → sent (attempt s msg j) = false.

Lemma Client_Send_try s msg k : fits_mail msg →
  Client_Send (Z.rem (rand (tries s + k)) 5) msg (after_tries s msg k) =
  Done (sent (attempt s msg k), after_tries s msg (S k)).
Proof.
  intros Hf. unfold Client_Send. rewrite (proj2 (Z.leb_le _ _) Hf).
  unfold bind, ret, get, put. cbn [machine tries received mails after_tries].
  unfold after_tries, attempt at 3. rewrite seq_S, fmap_app, app_assoc. cbn. by rewrite Nat.add_succ_r.
Qed.

Lemma send_tries_spec s msg n k : fits_mail msg → (∀ j, (j < k)%nat → sent (attempt s msg j) = false) →
  (∃ k', (k' < k + n)%nat ∧ first_success s msg k' ∧
     send_tries n msg (after_tries s msg k) = Done (true, after_tries s msg (S k'))) ∨
  ((∀ j, (j < k + n)%nat → sent (attempt s msg j) = false) ∧
     send_tries n msg (after_tries s msg k) = Done (false, after_tries s msg (k + n))).
Proof.
  intros Hf. revert k. induction n as [|n IH]; intros k Hk.
  { right. rewrite Nat.add_0_r. by split. }
  assert (send_tries (S n) msg (after_tries s msg k) =
    (if sent (attempt s msg k) then ret true else send_tries n msg) (after_tries s msg (S k))) as ->.
  { cbn [send_tries]. unfold bind at 1. cbn [get]. change (tries (after_tries s msg k)) with (tries s + k)%nat.
    by rewrite (bind_Done _ _ _ _ _ (Client_Send_try s msg k Hf)). }
  destruct (sent (attempt s msg k)) eqn:Hs.
  - left. exists k. split; [lia|]. by split.
  - destruct (IH (S k)) as [(k' & Hlt & Hfirst & Hrun)|[Hall Hrun]].
    + intros j Hj. destruct (decide (j = k)) as [->|]; [done|]. apply Hk. lia.
    + left. exists k'. split; [lia|]. by split.
    + right. rewrite Nat.add_succ_r. by split.
Qed.

Lemma after_tries_0 s msg : after_tries s msg 0 = s.
Proof. unfold after_tries. rewrite Nat.add_0_r, app_nil_r. by destruct s. Qed.

Lemma clientSendMail_spec s msg : fits_mail msg →
  (∃ k, (k < 500)%nat ∧ first_success s msg k ∧ clientSendMail msg s = Done ((), after_tries s msg (S k))) ∨
  ((∀ k, (k < 500)%nat → sent (attempt s msg k) = false) ∧ clientSendMail msg s = Fault Halted).
Proof.
  intros Hf. destruct (send_tries_spec s msg 500 0 Hf) as [(k & Hk & Hfirst & Hrun)|[Hall Hrun]]; [lia|..];
    rewrite after_tries_0 in Hrun; unfold clientSendMail; rewrite (bind_Done _ _ _ _ _ Hrun).
  - left. exists k. by split_and!.
  - by right.
Qed.
End sending.

(** ** Names *)

Section names.
Context {E : ClientEnv} (big : bool) (h : ExceptionType → M Machine unit) (fuel : nat).

Lemma copyin_loop_length n va m bs m' : copyin_loop big h fuel n va m = Done (bs, m') → length bs = n.
Proof.
  revert va m bs. induction n as [|n IH]; intros va m bs; cbn; [by intros [= <- _]|].
  unfold bind. destruct (read_byte big h fuel va m) as [[v m1]|]; [|done].
  destruct (copyin_loop big h fuel n (u32 (va + 1)) m1) as [[bs1 m2]|] eqn:Hrun; [|done].
  intros [= <- <-]. cbn. f_equal. by eapply IH.
Qed.

Lemma length_chars bs : String.length (chars bs) = length bs.
Proof. unfold chars. induction bs as [|b bs IH]; cbn; [done|]. by rewrite IH. Qed.

Lemma read_name_length va len s name s' : read_name big h fuel va len s = Done (Some name, s') →
  (String.length name <= 20)%nat.
Proof.
  unfold read_name. destruct (Z.ltb_spec MaxNameLen len) as [|Hlen]; [done|].
  destruct (Z.ltb_spec len 0); [done|]. unfold bind at 1, on_machine, copyin. unfold bind at 1.
  destruct (copyin_loop _ _ _ _ _ _) as [[bs m]|] eqn:Hrun; [|done]. cbn.
  destruct (len =? -1); [done|]. unfold ASSERT. destruct (forallb _ bs); [|done]. cbn.
  intros [= <- _]. rewrite length_chars, (copyin_loop_length _ _ _ _ _ Hrun). unfold MaxNameLen in *. lia.
Qed.
End names.

(** ** A name in memory *)

Lemma hit_translates m va p e : machine_wf m → hit m (page va) p e → frame e < NumPhysPages →
  Translate va 1 false m = Done (inr (place e va), put_entry p (marked e false) m).
Proof.
  intros Hm Hh Hf. destruct (Translate_translates va 1 false ltac:(lia) m Hm) as (r & m1 & HT & Htr). rewrite HT.
  inversion Htr as [Ha|t Ha Hpt Hl|Ha Hno Hl|p' e' Ha Hh' Hr Hw|p' e' Ha Hh' Hr Hb|p' e' Ha Hh' Hr Hb H0 H1]; subst.
  - by rewrite Z.mod_1_r in Ha.
  - destruct Hh as [t' e' Htlb Hpt' Hv He Hval|]; [|congruence]. assert (t' = t) as -> by congruence.
    apply lookup_lt_Some in He. lia.
  - by destruct (Hno _ _ Hh).
  - done.
  - destruct (hit_unique _ _ _ _ _ _ Hh Hh') as [-> ->]. lia.
  - by destruct (hit_unique _ _ _ _ _ _ Hh Hh') as [-> ->].
Qed.

Lemma hit_lastUsed l m vpn p e : hit m vpn p e → hit (Translate.with_lastUsed l m) vpn p e.
Proof. intros [t e' ?|t i e' ?]; [by eapply hit_table|by eapply hit_tlb]. Qed.

Lemma s8_byte b : byte b → s8 b mod 256 = b.
Proof. unfold byte, s8. intros Hb. rewrite (Z.mod_small b) by done. case_match; [|replace (b - 256) with (b + (-1) * 256) by ring; rewrite Z.mod_add by done]; by apply Z.mod_small. Qed.

Section copyin_spec.
Context (big : bool) (h : ExceptionType → M Machine unit) (fuel : nat).

Lemma read_byte_spec m va p e : machine_wf m → hit m (page va) p e → frame e < NumPhysPages →
  ∃ v m', read_byte big h fuel va m = Done (v, m') ∧
    mainMemory m !! Z.to_nat (place e va) = Some (v mod 256) ∧
    machine_wf m' ∧ mainMemory m' = mainMemory m ∧ hit m' (page va) p (marked e false).
Proof.
  intros Hm Hh Hf.
  assert (page (s32 va) = page va) as Hpg by (unfold page; by rewrite u32_of_s32).
  assert (place e (s32 va) = place e va) as Hpl by (unfold place; by rewrite u32_of_s32).
  assert (Translate (s32 va) 1 false m = Done (inr (place e va), put_entry p (marked e false) m)) as HT.
  { rewrite <- Hpl. apply hit_translates; [done| |done]. by rewrite Hpg. }
  pose proof (ReadMem_translated big h (s32 va) 1 ltac:(lia) m _ _ Hm HT) as HR.
  destruct (place_bounds e va 1) as (H0 & H1 & _); [lia|apply Z.mod_1_r|done|].
  destruct (lookup_lt_is_Some_2 (mainMemory m) (Z.to_nat (place e va))) as [b Hb].
  { rewrite (mw_memory _ Hm). lia. }
  assert (take 1 (drop (Z.to_nat (place e va)) (mainMemory m)) = [b]) as Ht by (by erewrite drop_S).
  change (Z.to_nat 1) with 1%nat in HR. rewrite Ht in HR.
  pose proof (Forall_lookup_1 _ _ _ _ (mw_bytes _ Hm) Hb) as Hbyte.
  assert (of_le [b] = b) as Ho by (cbn; lia). rewrite Ho in HR.
  eexists _, _. split; [|split; [|split; [|split]]].
  - destruct fuel; cbn [read_byte]; rewrite (bind_Done _ _ _ _ _ HR); reflexivity.
  - unfold narrow. cbn [Z.eqb Pos.eqb]. by rewrite s8_byte.
  - destruct (put_entry_wf p (marked e false) m Hm) as [W1 W2 W3 W4]. split; cbn; try done.
    rewrite length_insert. apply (mw_used _ Hm).
  - cbn. by destruct (put_entry_fields p (marked e false) m).
  - apply hit_lastUsed, hit_marked. done.
Qed.

Lemma next_in_page va n : 0 <= n → u32 va mod PageSize + (1 + n) <= PageSize → 0 < n →
  page (u32 (va + 1)) = page va ∧ u32 (u32 (va + 1)) mod PageSize = u32 va mod PageSize + 1.
Proof. unfold page, u32, PageSize, SectorSize. lia. Qed.

Lemma copyin_loop_spec n va m p e : machine_wf m → hit m (page va) p e → frame e < NumPhysPages →
  u32 va mod PageSize + Z.of_nat n <= PageSize →
  ∃ m', copyin_loop big h fuel n va m =
    Done (take n (drop (Z.to_nat (place e va)) (mainMemory m)), m') ∧ mainMemory m' = mainMemory m.
Proof.
  revert va m e. induction n as [|n IH]; intros va m e Hm Hh Hf Hfit; [by exists m|].
  destruct (read_byte_spec m va p e Hm Hh Hf) as (v & m1 & Hrun & Hv & Hm1 & Hmem & Hh1).
  cbn [copyin_loop]. rewrite (bind_Done _ _ _ _ _ Hrun).
  pose proof (place_bounds e va 1 ltac:(lia) (Z.mod_1_r _) Hf) as (H0 & _ & _).
  assert (∃ m', copyin_loop big h fuel n (u32 (va + 1)) m1 =
    Done (take n (drop (S (Z.to_nat (place e va))) (mainMemory m)), m') ∧ mainMemory m' = mainMemory m) as (m' & Hrest & Hm').
  { destruct n as [|n]; [by exists m1|].
    destruct (next_in_page va (Z.of_nat (S n))) as [Hp Ho]; [lia|lia|lia|].
    destruct (IH (u32 (va + 1)) m1 (marked e false)) as (m' & Hr & Hm'); [done|by rewrite Hp|done|rewrite Ho; lia|].
    exists m'. rewrite Hr, Hmem in *. split; [|done]. do 4 f_equal. unfold place. rewrite Ho.
    change (frame (marked e false)) with (frame e). unfold place in H0. lia. }
  exists m'. split; [|done]. rewrite (bind_Done _ _ _ _ _ Hrest). unfold ret. do 2 f_equal.
  by rewrite (drop_S _ _ _ Hv).
Qed.
End copyin_spec.

(** ** Properties *)

(** A request goes to servers drawn at random until one is
    reached: when one of the next 500 draws reaches its server, the request is
    delivered once, to the first such server, and the call goes on; when none
    does the machine halts, after exactly 500 tries. *)
Theorem mail_gets_through {E : ClientEnv} s msg : fits_mail msg →
  ((∃ k, (k < 500)%nat ∧ sent (attempt s msg k) = true) →
   ∃ k, first_success s msg k ∧ clientSendMail msg s = Done ((), after_tries s msg (S k))) ∧
  ((∀ k, (k < 500)%nat → sent (attempt s msg k) = false) → clientSendMail msg s = Fault Halted).
Proof.
  intros Hf. destruct (clientSendMail_spec s msg Hf) as [(k & Hk & Hfirst & Hrun)|[Hall Hrun]]; split.
  - intros _. by exists k.
  - intros Hnone. destruct Hfirst as [Hs _]. by rewrite Hnone in Hs.
  - intros (k & Hk & Hs). by rewrite Hall in Hs.
  - done.
Qed.

(** [copyin] from a page that is in memory and mapped returns
    the bytes the program has there and changes no byte of memory; it needs no
    retry. *)
Theorem copyin_reads big h fuel va len m p e : machine_wf m → hit m (page va) p e → frame e < NumPhysPages →
  0 <= len → u32 va mod PageSize + len <= PageSize →
  ∃ m', copyin big h fuel va len m =
    Done ((len, take (Z.to_nat len) (drop (Z.to_nat (place e va)) (mainMemory m))), m') ∧
    mainMemory m' = mainMemory m.
Proof.
  intros Hm Hh Hf Hl Hfit. pose proof (u32_range va) as Hr.
  assert (u32 (u32 va) = u32 va) as Hu by (by apply u32_id).
  destruct (copyin_loop_spec big h fuel (Z.to_nat len) (u32 va) m p e) as (m' & Hrun & Hmem); [done| |done| |].
  - unfold page in *. by rewrite Hu.
  - rewrite Hu. lia.
  - exists m'. split; [|done]. unfold copyin. rewrite (bind_Done _ _ _ _ _ Hrun). unfold ret, place. by rewrite Hu.
Qed.

(** After a system call the result is in register 2 and the program goes on
    past the SYSCALL. *)
Theorem syscall_returns {E : ClientEnv} rv s : cpu_ok (machine s) → int rv →
  ∃ m n, syscall_return rv s = Done ((), with_machine m s) ∧ cpu_ok m ∧
    registers (machine s) !! Z.to_nat NextPCReg = Some n ∧
    registers m !! 2%nat = Some rv ∧ registers m !! Z.to_nat PCReg = Some n ∧
    registers m !! Z.to_nat NextPCReg = Some (s32 (n + 4)).
Proof.
  intros Hm Hrv. set (m := machine s) in *.
  pose proof (cpu_ok_control m 2 rv Hm ltac:(by vm_compute) ltac:(done) Hrv) as H1.
  pose proof (set_reg_some m 2 rv Hm ltac:(by vm_compute)) as R1. set (m1 := with_registers _ m) in *.
  destruct (reg_some m1 PCReg H1 ltac:(by vm_compute)) as (pc & _ & Hpc & G1).
  pose proof (cpu_ok_control m1 PrevPCReg pc H1 ltac:(by vm_compute) ltac:(done) Hpc) as H2.
  pose proof (set_reg_some m1 PrevPCReg pc H1 ltac:(by vm_compute)) as R2. set (m2 := with_registers _ m1) in *.
  destruct (reg_some m2 NextPCReg H2 ltac:(by vm_compute)) as (n & Hn & Hni & G2).
  pose proof (cpu_ok_control m2 PCReg n H2 ltac:(by vm_compute) ltac:(done) Hni) as H3.
  pose proof (set_reg_some m2 PCReg n H2 ltac:(by vm_compute)) as R3. set (m3 := with_registers _ m2) in *.
  assert (registers m3 !! Z.to_nat PCReg = Some n) as Hp3.
  { apply list_lookup_insert_eq. rewrite (co_length _ H2). unfold NumTotalRegs, PCReg, NextPCReg. lia. }
  pose proof (cpu_ok_control m3 NextPCReg (s32 (n + 4)) H3 ltac:(by vm_compute) ltac:(done) (s32_int _)) as H4.
  pose proof (set_reg_some m3 NextPCReg (s32 (n + 4)) H3 ltac:(by vm_compute)) as R4.
  eexists _, n. split; [|split; [exact H4|split]].
  - unfold syscall_return, on_machine. fold m.
    by rewrite (bind_Done _ _ _ _ _ R1), (bind_Done _ _ _ _ _ G1), (bind_Done _ _ _ _ _ R2), (bind_Done _ _ _ _ _ G2),
      (bind_Done _ _ _ _ _ R3), (bind_Done _ _ _ _ _ (reg_eq _ PCReg n ltac:(by vm_compute) Hp3)), R4.
  - cbn in Hn. by rewrite !list_lookup_insert_ne in Hn by done.
  - cbn [registers with_registers]. rewrite !(list_lookup_insert_ne _ (Z.to_nat NextPCReg)) by done. split_and!.
    + unfold m3, m2, m1. cbn [registers with_registers]. rewrite !list_lookup_insert_ne by done. apply list_lookup_insert_eq. rewrite (co_length _ Hm). unfold NumTotalRegs, PCReg, NextPCReg. lia.
    + exact Hp3.
    + apply list_lookup_insert_eq. rewrite (co_length _ H3). unfold NumTotalRegs, PCReg, NextPCReg. lia.
Qed.

(** ** A client that reaches its first server but not the network before *)

#[local] Instance example_env : ClientEnv := {
  clientThread := 1; rand := Z.of_nat; reaches := λ n _, (2 <=? n)%nat;
  incoming := λ _, "1 7"; unset := 0; dangling := λ t, t
}.

Definition example_client : Client := mkClient example_machine 0 0 [].

Lemma mail_gets_through_witness : ∃ k, clientSendMail "12 7" example_client =
  Done ((), after_tries example_client "12 7" (S k)).
Proof.
  destruct (mail_gets_through example_client "12 7") as [Hsome _]; [done|].
  destruct Hsome as (k & _ & Hrun); [exists 2%nat; split; [lia|reflexivity]|]. exists k. exact Hrun.
Defined.

Lemma example_hit : hit example_machine (page 390) (InTLB 0) (mkEntry 3 5 true false false false).
Proof. apply (hit_tlb _ _ example_tlb 0); try done. intros j e'. lia. Qed.

Lemma copyin_reads_witness : ∃ m', copyin false (λ _, ret ()) 0 390 5 example_machine = Done ((5, [0; 0; 0; 0; 0]), m').
Proof.
  destruct (copyin_reads false (λ _, ret ()) 0 390 5 example_machine (InTLB 0) (mkEntry 3 5 true false false false)
    example_machine_wf example_hit ltac:(by vm_compute) ltac:(lia) ltac:(by vm_compute)) as (m' & Hm & _).
  exists m'. exact Hm.
Defined.
