(* ===== verification/ClientServer.v ===== *)
(** * ClientServer: the system calls of a client meet the server

    What a call sends is dispatched by any server as the operation the call
    names, and what the tables of the server that answers hold is what the call
    returns. *)
From S2P Require Import Prelude Translate Slots Wire ServerState Tables LockServer CVServer MVServer.
From S2P Require Import ServerLoop Protocol Mips Client.
From stdpp Require Import base list strings.
From Stdlib Require Import ZArith Lia ZifyBool Ascii.

Local Open Scope Z_scope.

(** ** The calls as data *)

Inductive call :=
| CreateLock (name : string) | Acquire (lock : Z) | Release (lock : Z) | DestroyLock (lock : Z)
| CreateCondition (name : string) | Wait (cv lock : Z) | Signal (cv lock : Z) | Broadcast (cv lock : Z)
| DestroyCondition (cv : Z)
| CreateMV (name : string) (size : Z) | DestroyMV (mv : Z) | SetMV (mv index value : Z) | GetMV (mv index : Z).

(** The name a call passes to the server. *)
Definition call_name (c : call) : option string :=
  match c with CreateLock n | CreateCondition n | CreateMV n _ => Some n | _ => None end.
Definition call_numbers (c : call) : list Z :=
  match c with
  | Acquire l | Release l | DestroyLock l => [l]
  | Wait cv l | Signal cv l | Broadcast cv l => [cv; l]
  | DestroyCondition cv => [cv]
  | DestroyMV m => [m]
  | SetMV m i _ | GetMV m i => [m; i]
  | _ => []
  end.

(** Arguments the calls do not refuse, and a name that survives the wire. *)
Definition call_ok (c : call) : bool :=
  forallb (λ z, (0 <=? z) && fits_int z) (call_numbers c) &&
  match c with
  | CreateMV _ size => (0 <? size) && fits_int size
  | SetMV _ _ v => fits_int v
  | _ => true
  end &&
  match call_name c with Some n => is_word n && (c_str n =? n)%string | None => true end.

Definition call_text (c : call) : string :=
  match c with
  | CreateLock n => print_int SC_CreateLock +:+ " " +:+ n
  | Acquire l => print_int SC_Acquire +:+ " " +:+ print_int l
  | Release l => print_int SC_Release +:+ " " +:+ print_int l
  | DestroyLock l => print_int SC_DestroyLock +:+ " " +:+ print_int l
  | CreateCondition n => print_int SC_CreateCondition +:+ " " +:+ n
  | Wait cv l => print_int SC_Wait +:+ " " +:+ print_int cv +:+ " " +:+ print_int l
  | Signal cv l => print_int SC_Signal +:+ " " +:+ print_int cv +:+ " " +:+ print_int l
  | Broadcast cv l => print_int SC_Broadcast +:+ " " +:+ print_int cv +:+ " " +:+ print_int l
  | DestroyCondition cv => print_int SC_DestroyCondition +:+ " " +:+ print_int cv
  | CreateMV n size => print_int SC_CreateMV +:+ " " +:+ print_int size +:+ " " +:+ n
  | DestroyMV m => print_int SC_DestroyMV +:+ " " +:+ print_int m
  | SetMV m i v => print_int SC_Set +:+ " " +:+ print_int m +:+ " " +:+ print_int i +:+ " " +:+ print_int v
  | GetMV m i => print_int SC_Get +:+ " " +:+ print_int m +:+ " " +:+ print_int i
  end.

(** The operation of a server that a call asks for. *)
Definition serve_call {S : ServerEnv} (from box : Z) (c : call) : M Server unit :=
  match c with
  | CreateLock n => serverCreateLock n from box
  | Acquire l => serverAcquireLock l from box
  | Release l => serverReleaseLock l from box
  | DestroyLock l => serverDestroyLock l from box
  | CreateCondition n => serverCreateCV n from box
  | Wait cv l => serverWait cv l from box
  | Signal cv l => serverSignal cv l from box
  | Broadcast cv l => serverBroadcast cv l from box
  | DestroyCondition cv => serverDestroyCV cv from box
  | CreateMV n size => serverCreateMV n size from box
  | DestroyMV m => serverDestroyMV m from box
  | SetMV m i v => serverSet m i v from box
  | GetMV m i => serverGet m i from box
  end.

Section run.
Context {E : ClientEnv} (big : bool) (h : ExceptionType → M Machine unit) (fuel : nat).

(** The system call itself; a name is at [vaddr] in memory. *)
Definition run_call (c : call) (vaddr len : Z) : M Client Z :=
  match c with
  | CreateLock _ => CreateLock_Syscall big h fuel vaddr len
  | Acquire l => Acquire_Syscall l ;;; ret 0
  | Release l => Release_Syscall l ;;; ret 0
  | DestroyLock l => DestroyLock_Syscall l ;;; ret 0
  | CreateCondition _ => CreateCondition_Syscall big h fuel vaddr len
  | Wait cv l => Wait_Syscall cv l ;;; ret 0
  | Signal cv l => Signal_Syscall cv l ;;; ret 0
  | Broadcast cv l => Broadcast_Syscall cv l ;;; ret 0
  | DestroyCondition cv => DestroyCondition_Syscall cv ;;; ret 0
  | CreateMV _ size => CreateMV_Syscall big h fuel vaddr len size
  | DestroyMV m => DestroyMV_Syscall m ;;; ret 0
  | SetMV m i v => Set_Syscall m i v ;;; ret 0
  | GetMV m i => Get_Syscall m i
  end.

(** What is left of a call once its request is sent, by [run_call_sends]. *)
Definition finish_call (c : call) : M Client Z :=
  match c with
  | CreateLock _ | CreateCondition _ | CreateMV _ _ => read_created
  | Acquire _ | Wait _ _ | Signal _ _ | Broadcast _ _ | SetMV _ _ _ => read_status ;;; ret 0
  | Release _ | DestroyLock _ | DestroyCondition _ | DestroyMV _ => ret 0
  | GetMV _ _ =>
      let! buffer := Receive in
      let (success, rs) := get_bool (mkStream buffer false) in
      if negb success then ret 0 else ret (get_int 0 rs).1
  end.

(** The state in which the request is sent: after the name, if any, is read. *)
Definition name_read (c : call) (vaddr len : Z) (s s1 : Client) : Prop :=
  match call_name c with
  | Some n => read_name big h fuel vaddr len s = Done (Some n, s1)
  | None => s1 = s
  end.
End run.

(** ** The server reads the request *)

Section dispatch.
Context {S : ServerEnv}.

Lemma read_header_client from box t rest : 5 <= from → fits_int t = true →
  read_header from box (print_int t +:+ " " +:+ rest) =
  mkHeader t false false garbage from box (mkStream (" " +:+ rest) false).
Proof.
  intros Hf Ht. unfold read_header. rewrite extract_int_print by done.
  by rewrite (proj2 (Z.ltb_ge from 5)).
Qed.

Lemma call_ok_numbers c : call_ok c = true → Forall (λ z, 0 <= z ∧ fits_int z = true) (call_numbers c).
Proof.
  unfold call_ok. rewrite !andb_true_iff, forallb_forall. intros [[H _] _].
  apply Forall_forall. intros z Hz%list_elem_of_In%H. lia.
Qed.

Lemma turn_call from box c : 5 <= from → call_ok c = true →
  Server_turn from box (call_text c) = serve_call from box c.
Proof.
  intros Hf Hok. pose proof (call_ok_numbers c Hok) as Hn.
  unfold call_ok in Hok. rewrite !andb_true_iff in Hok. destruct Hok as [[_ Hx] Hname].
  unfold Server_turn.
  destruct c; cbn [call_text call_name call_numbers] in *; decompose_Forall_hyps; destruct_and?;
    try (apply andb_true_iff in Hname as [Hname _]);
    try match type of Hx with (_ && _)%bool = true => apply andb_true_iff in Hx as [_ Hx] end;
    rewrite read_header_client by done; cbn [which]; eval_codes; cbv zeta;
    unfold handle_CreateLock, handle_Acquire, handle_Release, handle_DestroyLock,
      handle_CreateCondition, handle_Wait, handle_Signal, handle_Broadcast, handle_DestroyCondition,
      handle_CreateMV, handle_DestroyMV, handle_Set, handle_Get;
    cbn [fromServer serverReply negb ss in_pkt in_mail h_requestID]; read_fields; reflexivity.
Qed.
End dispatch.

(** ** The client sends it *)

Section client.
Context {E : ClientEnv} (big : bool) (h : ExceptionType → M Machine unit) (fuel : nat).

Lemma length_app_string s t : String.length (s +:+ t) = (String.length s + String.length t)%nat.
Proof. induction s as [|c s IH]; [done|]. rewrite str_app_cons. cbn. by rewrite IH. Qed.

Lemma length_int z : fits_int z = true → Z.of_nat (String.length (print_int z)) <= 11.
Proof. intros Hz. unfold fits_int, INT_MIN, INT_MAX in Hz. apply (length_print_int z 10); lia. Qed.
Lemma length_nonneg z : 0 <= z → fits_int z = true → Z.of_nat (String.length (print_int z)) <= 10.
Proof. intros H0 Hz. unfold fits_int, INT_MIN, INT_MAX in Hz. apply (length_print_int z 9); lia. Qed.

(** Whatever the arguments, the text fits in a mail. *)
Lemma call_fits c : call_ok c = true →
  (∀ n, call_name c = Some n → (String.length n <= 20)%nat) → Client.fits_mail (call_text c).
Proof.
  intros Hok Hname. pose proof (call_ok_numbers c Hok) as Hn.
  unfold call_ok in Hok. rewrite !andb_true_iff in Hok. destruct Hok as [[_ Hx] _].
  unfold Client.fits_mail, MaxMailSize, MaxPacketSize, MaxWireSize, sizeof_PacketHeader, sizeof_MailHeader.
  destruct c; cbn [call_text call_name call_numbers] in *; decompose_Forall_hyps; destruct_and?;
    try specialize (Hname _ eq_refl); rewrite ?length_app_string;
    try match type of Hx with (_ && _)%bool = true => apply andb_true_iff in Hx as [_ Hx] end;
    repeat match goal with
    | H : 0 <= ?z, H' : fits_int ?z = true |- _ => pose proof (length_nonneg z H H'); clear H'
    | H : fits_int ?z = true |- _ => pose proof (length_int z H); clear H
    end; cbn [String.length]; cbn; lia.
Qed.

Lemma c_str_app s t : c_str s = s → c_str (s +:+ t) = s +:+ c_str t.
Proof.
  induction s as [|c s IH]; [done|]. rewrite !str_app_cons. cbn. destruct (_ =? 0)%N; [done|].
  intros [= Hs]. by rewrite IH.
Qed.

Lemma c_str_int z : c_str (print_int z) = print_int z.
Proof.
  assert (∀ d, c_str (DecimalString.NilEmpty.string_of_uint d) = DecimalString.NilEmpty.string_of_uint d) as Hu
    by (induction d as [|d IH|d IH|d IH|d IH|d IH|d IH|d IH|d IH|d IH|d IH]; cbn; by rewrite ?IH).
  unfold print_int. destruct (Z.to_int z) as [d|d]; cbn; by rewrite Hu.
Qed.

(** A call is its request, sent, and the wait for an answer. *)
Lemma run_call_sends c vaddr len s s1 : (∀ t, dangling t = t) → call_ok c = true →
  name_read big h fuel c vaddr len s s1 →
  run_call big h fuel c vaddr len s = (clientSendMail (call_text c) ;;; finish_call c) s1.
Proof.
  intros Hd Hok Hname. pose proof (call_ok_numbers c Hok) as Hn.
  unfold call_ok in Hok. rewrite !andb_true_iff in Hok. destruct Hok as [[_ Hx] Hword].
  unfold name_read in Hname.
  destruct c; cbn [run_call call_text call_name call_numbers finish_call] in *; decompose_Forall_hyps; destruct_and?;
    unfold CreateLock_Syscall, Acquire_Syscall, Release_Syscall, DestroyLock_Syscall, CreateCondition_Syscall,
      Wait_Syscall, Signal_Syscall, Broadcast_Syscall, DestroyCondition_Syscall, CreateMV_Syscall,
      DestroyMV_Syscall, Set_Syscall, Get_Syscall.
  all: try (apply andb_true_iff in Hword as [_ Hstr%String.eqb_eq]).
  all: try (rewrite (bind_Done _ _ _ _ _ Hname)); rewrite ?Hd; subst.
  all: repeat match goal with
    | H : 0 <= ?z |- context [?z <? 0] => rewrite (proj2 (Z.ltb_ge z 0) H); cbn [orb]
    end; rewrite ?bind_assoc; try done.
  - by rewrite c_str_app, c_str_app, Hstr by (done || apply c_str_int).
  - by rewrite c_str_app, c_str_app, Hstr by (done || apply c_str_int).
  - apply andb_true_iff in Hx as [Hx _]. rewrite (proj2 (Z.leb_gt size 0)) by lia.
    by rewrite !c_str_app, Hstr by (done || apply c_str_int).
Qed.
End client.

(** ** The answer *)










(** ** The server's side of the answer *)

Section answer.
Context {S : ServerEnv} (Hstale : ∀ x, stale x = x) (Hnet : 0 <= netAddr < 5).











End answer.

(** ** Properties *)

(** A lock, condition or monitor variable call with
    arguments it accepts, made while some server can be reached, delivers one
    request, and any server that receives it does the operation the call
    names, for this thread, with the same numbers and the same name; the text
    always fits in a mail. *)
Theorem request_dispatched (E : ClientEnv) big h fuel c vaddr len s s1 : (∀ t, dangling t = t) →
  call_ok c = true → name_read big h fuel c vaddr len s s1 →
  (∃ k, (k < 500)%nat ∧ sent (attempt s1 (call_text c) k) = true) →
  ∃ k, first_success s1 (call_text c) k ∧
    run_call big h fuel c vaddr len s = finish_call c (after_tries s1 (call_text c) (S k)) ∧
    ∀ (S : ServerEnv) from t, 5 <= from →
      Server_turn from clientThread (text (attempt s1 (call_text c) k)) t = serve_call from clientThread c t.
Proof.
  intros Hd Hok Hname (k0 & Hk0 & Hs0).
  assert (Client.fits_mail (call_text c)) as Hfits.
  { apply call_fits; [done|]. intros n Hn. unfold name_read in Hname. rewrite Hn in Hname. by eapply read_name_length. }
  destruct (clientSendMail_spec s1 (call_text c) Hfits) as [(k & _ & Hfirst & Hrun)|[Hall _]]; [|by rewrite Hall in Hs0].
  exists k. split; [exact Hfirst|]. split.
  - by rewrite (run_call_sends _ _ _ _ _ _ _ _ Hd Hok Hname), (bind_Done _ _ _ _ _ Hrun).
  - intros S from t Hf. cbn [text attempt]. by rewrite turn_call.
Qed.


(** ** From the registers of the program *)

Definition call_code (c : call) : Z :=
  match c with
  | CreateLock _ => SC_CreateLock | Acquire _ => SC_Acquire | Release _ => SC_Release
  | DestroyLock _ => SC_DestroyLock | CreateCondition _ => SC_CreateCondition | Wait _ _ => SC_Wait
  | Signal _ _ => SC_Signal | Broadcast _ _ => SC_Broadcast | DestroyCondition _ => SC_DestroyCondition
  | CreateMV _ _ => SC_CreateMV | DestroyMV _ => SC_DestroyMV | SetMV _ _ _ => SC_Set | GetMV _ _ => SC_Get
  end.

Definition call_arguments (c : call) (vaddr len : Z) : list Z :=
  match c with
  | CreateLock _ | CreateCondition _ => [vaddr; len]
  | CreateMV _ size => [vaddr; len; size]
  | SetMV m i v => [m; i; v]
  | _ => call_numbers c
  end.

(** The dispatch takes the arguments from registers 4, 5 and 6 as the calls
    are declared. *)
Theorem syscall_dispatch (E : ClientEnv) big h fuel c vaddr len s :
  (∀ n v, call_arguments c vaddr len !! n = Some v → registers (Client.machine s) !! (4 + n)%nat = Some v) →
  ∃ f, network_syscall big h fuel (call_code c) = Some f ∧ f s = run_call big h fuel c vaddr len s.
Proof.
  intros Ha.
  assert (∀ n v (r : Z), call_arguments c vaddr len !! n = Some v → r = Z.of_nat (4 + n) → arg r s = Done (v, s)) as Harg.
  { intros n v r Hv ->. unfold arg, on_machine. rewrite (reg_eq _ _ v); [by destruct s|lia|].
    rewrite Nat2Z.id. by apply Ha. }
  destruct c; cbn [call_arguments call_numbers call_code run_call] in *; (eexists; split; [reflexivity|]); cbv beta zeta;
    repeat first [rewrite bind_assoc
                 |rewrite (bind_Done _ _ _ _ _ (Harg 0%nat _ 4 eq_refl eq_refl))
                 |rewrite (bind_Done _ _ _ _ _ (Harg 1%nat _ 5 eq_refl eq_refl))
                 |rewrite (bind_Done _ _ _ _ _ (Harg 2%nat _ 6 eq_refl eq_refl))]; reflexivity.
Qed.

(** ** A client whose third try reaches a server *)

Lemma request_dispatched_witness : ∃ k, run_call (E := example_env) false (λ _, ret ()) 0 (SetMV 3 1 (-5)) 0 0 example_client =
    finish_call (E := example_env) (SetMV 3 1 (-5)) (after_tries (E := example_env) example_client "27 3 1 -5" (S k)) ∧
  ∀ t, Server_turn (E := lone_env) 7 1 (text (attempt (E := example_env) example_client "27 3 1 -5" k)) t =
    serverSet (E := lone_env) 3 1 (-5) 7 1 t.
Proof.
  destruct (request_dispatched example_env false (λ _, ret ()) 0 (SetMV 3 1 (-5)) 0 0 example_client example_client
    (λ t, eq_refl) eq_refl eq_refl) as (k & _ & Hrun & Hserve); [exists 2%nat; split; [lia|reflexivity]|].
  exists k. split; [exact Hrun|]. intros t. exact (Hserve lone_env 7 t ltac:(lia)).
Defined.






