(* ===== verification/Disk.v ===== *)
(** * Disk: machine/disk.cc and filesys/synchdisk.cc

    The simulated disk is a file of the host: a magic number, then the sectors.
    A request moves one sector at once and leaves the disk active until its
    interrupt.  [SynchDisk] admits one request at a time and waits for that
    interrupt, so its operations are a request followed by the interrupt.  The
    time a request takes is not modelled. *)
From S2P Require Import Prelude Translate HostFile.
From stdpp Require Import base list.
From Stdlib Require Import ZArith Lia ZifyBool.

Local Open Scope Z_scope.

Definition SectorsPerTrack : Z := 32.
Definition NumTracks : Z := 32.
Definition NumSectors : Z := SectorsPerTrack * NumTracks.
Definition MagicNumber : Z := 0x456789ab.
Definition MagicSize : Z := 4.
Definition DiskSize : Z := MagicSize + NumSectors * SectorSize.

Record Disk := mkDisk {
  diskFile : list Z;  (* the UNIX file that holds the disk *)
  active : bool       (* is a disk operation in progress? *)
}.

(** [Read] of machine/sysdep.cc: all the bytes or a failed assertion. *)
Definition Read (file : list Z) (nBytes position : Z) : outcome (list Z) :=
  let? bs := ReadAt file nBytes position in
  let? _ := assert (Z.of_nat (length bs) =? nBytes) in
  Done bs.

(** The constructor: [file] is the UNIX file of that name, if there is one. *)
Definition new_Disk (big_endian : bool) (file : option (list Z)) : outcome Disk :=
  match file with
  | Some f =>
      let? magicNum := Read f MagicSize 0 in
      let? _ := assert (host_value big_endian magicNum =? MagicNumber) in
      Done (mkDisk f false)
  | None =>
      let? f := WriteAt [] (host_bytes big_endian 4 MagicNumber) 0 in
      let? f := WriteAt f (host_bytes big_endian 4 0) (DiskSize - 4) in
      Done (mkDisk f false)
  end.

Definition ReadRequest (sectorNumber : Z) : M Disk (list Z) :=
  let! d := get in
  ASSERT (negb (active d)) ;;;
  ASSERT ((0 <=? sectorNumber) && (sectorNumber <? NumSectors)) ;;;
  let! data := lift (Read (diskFile d) SectorSize (SectorSize * sectorNumber + MagicSize)) in
  put (mkDisk (diskFile d) true) ;;;
  ret data.

Definition WriteRequest (sectorNumber : Z) (data : list Z) : M Disk unit :=
  let! d := get in
  ASSERT (negb (active d)) ;;;
  ASSERT ((0 <=? sectorNumber) && (sectorNumber <? NumSectors)) ;;;
  let! bs := lift (mem_read data 0 (Z.to_nat SectorSize)) in
  let! f := lift (WriteAt (diskFile d) bs (SectorSize * sectorNumber + MagicSize)) in
  put (mkDisk f true).

(** The interrupt, whose handler wakes up the thread that waits. *)
Definition HandleInterrupt : M Disk unit :=
  let! d := get in put (mkDisk (diskFile d) false).

Definition ReadSector (sectorNumber : Z) : M Disk (list Z) :=
  let! data := ReadRequest sectorNumber in
  HandleInterrupt ;;;
  ret data.

Definition WriteSector (sectorNumber : Z) (data : list Z) : M Disk unit :=
  WriteRequest sectorNumber data ;;;
  HandleInterrupt.

(** ** The disk as an array of sectors *)

Definition is_sector (n : Z) : Prop := 0 <= n < NumSectors.

Definition disk_sector (d : Disk) (n : Z) : list Z :=
  take (Z.to_nat SectorSize) (drop (Z.to_nat (SectorSize * n + MagicSize)) (diskFile d)).

Record disk_ok (d : Disk) : Prop := {
  disk_size : Z.of_nat (length (diskFile d)) = DiskSize;
  disk_idle : active d = false
}.

Lemma sector_size : Z.to_nat SectorSize = 128%nat.
Proof. done. Qed.

Lemma length_sector d n : disk_ok d → is_sector n → length (disk_sector d n) = 128%nat.
Proof.
  intros [Hs _] Hn. unfold is_sector, disk_sector, DiskSize, NumSectors, SectorsPerTrack, NumTracks, SectorSize, MagicSize in *.
  rewrite length_take, length_drop. lia.
Qed.

Lemma ReadSector_spec d n : disk_ok d → is_sector n → ReadSector n d = Done (disk_sector d n, d).
Proof.
  intros Hd Hn. pose proof (length_sector d n Hd Hn) as Hl. destruct Hd as [Hs Ha].
  destruct d as [f a]. cbn in Ha. subst a.
  assert ((0 <=? n) && (n <? NumSectors) = true) as Hr by (unfold is_sector in Hn; lia).
  unfold ReadSector, ReadRequest, bind, get, ASSERT. cbn [active negb]. rewrite Hr.
  unfold ret at 1 2, Read. cbn [diskFile].
  destruct (host_read_spec f SectorSize (SectorSize * n + MagicSize)) as (bs & -> & _ & _ & ->).
  { unfold is_sector, SectorSize, MagicSize in *. lia. }
  cbn [obind]. unfold disk_sector in Hl. cbn [diskFile] in Hl. rewrite Hl. done.
Qed.

Lemma WriteSector_spec d n bs : disk_ok d → is_sector n → length bs = 128%nat →
  ∃ d', WriteSector n bs d = Done ((), d') ∧ disk_ok d' ∧ disk_sector d' n = bs ∧
    ∀ m, is_sector m → m ≠ n → disk_sector d' m = disk_sector d m.
Proof.
  intros Hd Hn Hl. destruct Hd as [Hs Ha]. destruct d as [f a]. cbn in Ha, Hs. subst a.
  assert ((0 <=? n) && (n <? NumSectors) = true) as Hr by (unfold is_sector in Hn; lia).
  unfold WriteSector, WriteRequest, bind, get, ASSERT. cbn [active negb]. rewrite Hr.
  unfold ret at 1 2. cbn [diskFile]. rewrite mem_read_in by (unfold SectorSize; lia). cbn [lift].
  rewrite drop_0, take_ge by (unfold SectorSize; lia).
  unfold is_sector, DiskSize, NumSectors, SectorsPerTrack, NumTracks, SectorSize, MagicSize in *.
  destruct (WriteAt_within f bs (128 * n + 4)) as (f' & -> & Hw); [lia..|]. cbn.
  eexists. split; [reflexivity|]. pose proof (written_read _ _ _ _ Hw) as Hread. destruct Hw as (L & _ & Hout).
  split_and!; [constructor; cbn; [|done]| |].
  - unfold DiskSize, NumSectors, SectorsPerTrack, NumTracks, SectorSize, MagicSize. lia.
  - unfold disk_sector, SectorSize, MagicSize. cbn. by rewrite Hl in Hread.
  - intros m Hm Hne. unfold disk_sector, SectorSize, MagicSize. cbn. apply list_eq. intros k.
    destruct (decide (k < 128)%nat) as [Hk|]; [|by rewrite !lookup_ge_None_2 by (rewrite length_take; lia)].
    rewrite !lookup_take_lt, !lookup_drop by lia. apply Hout. lia.
Qed.

Lemma ReadSector_range d n : ¬ is_sector n → ReadSector n d = Fault AssertFailed.
Proof.
  intros Hn. unfold ReadSector, ReadRequest, bind, get, ASSERT. destruct (active d); [done|]. cbn.
  destruct (andb _ _) eqn:H; [|done]. unfold is_sector in Hn. lia.
Qed.

(** A disk that did not exist is made with its full size. *)
Lemma new_Disk_ok big : ∃ d, new_Disk big None = Done d ∧ disk_ok d.
Proof.
  unfold new_Disk. destruct (host_write_spec [] (host_bytes big 4 MagicNumber) 0) as (f & Hf & _); [done|].
  rewrite Hf. cbn [obind]. apply length_WriteAt in Hf; [|done].
  destruct (host_write_spec f (host_bytes big 4 0) (DiskSize - 4)) as (f' & Hf' & _); [done|].
  rewrite Hf'. cbn [obind]. apply length_WriteAt in Hf'; [|done]. eexists. split; [done|].
  constructor; [|done]. cbn [diskFile].
  assert (∀ v, length (host_bytes big 4 v) = 4%nat) as Hb.
  { intros v. unfold host_bytes. destruct big; [rewrite length_rev|]; apply length_bytes_le. }
  rewrite Hb in *. cbn [length] in Hf.
  unfold DiskSize, NumSectors, SectorsPerTrack, NumTracks, SectorSize, MagicSize in *. lia.
Qed.
