(* ===== verification/FileHeader.v ===== *)
(** * FileHeader: filesys/filehdr.cc and filehdr.h

    A file header (an i-node) is its length, the number of its data sectors and
    a table with room for 30 of them.  On disk it is the memory of the object,
    one sector, so the byte order is that of the host. *)
From S2P Require Import Prelude BitMap Translate Disk.
From stdpp Require Import base list.
From Stdlib Require Import ZArith Lia ZifyBool.

Local Open Scope Z_scope.

Definition NumDirect : Z := (SectorSize - 2 * 4) / 4.
Definition MaxFileSize : Z := NumDirect * SectorSize.

Record FileHeader := mkFileHeader {
  numBytes : Z;            (* number of bytes in the file *)
  numSectors : Z;          (* number of data sectors in the file *)
  dataSectors : list Z     (* disk sector numbers for each data block *)
}.

(** ** Words as bytes: what a cast of an [int *] to a [char *] shows *)

Definition words_bytes (big_endian : bool) (ws : list Z) : list Z :=
  ws ≫= λ w, host_bytes big_endian 4 (u32 w).
Fixpoint bytes_words (big_endian : bool) (bs : list Z) : list Z :=
  match bs with
  | b0 :: b1 :: b2 :: b3 :: bs' => host_value big_endian [b0; b1; b2; b3] :: bytes_words big_endian bs'
  | _ => []
  end.

Definition header_bytes (big_endian : bool) (h : FileHeader) : list Z :=
  words_bytes big_endian (numBytes h :: numSectors h :: dataSectors h).
Definition bytes_header (big_endian : bool) (bs : list Z) : FileHeader :=
  match s32 <$> bytes_words big_endian bs with
  | nb :: ns :: ds => mkFileHeader nb ns ds
  | _ => mkFileHeader 0 0 []
  end.

(** ** Operations *)

(** [new FileHeader]: there is no constructor, [mem] is what the memory holds. *)
Definition new_FileHeader (mem : nat → Z) : FileHeader :=
  mkFileHeader (s32 (mem 0%nat)) (s32 (mem 1%nat)) ((λ k, s32 (mem k)) <$> seq 2 (Z.to_nat NumDirect)).

(** [for (i = ...) dataSectors[i] = freeMap->Find();] *)
Fixpoint allocate_loop (ds : list Z) (freeMap : BitMap) (i : Z) (n : nat) : outcome (list Z * BitMap) :=
  match n with
  | O => Done (ds, freeMap)
  | S n' =>
      let? r := Find freeMap in
      let? ds' := vset ds i (fst r) in
      allocate_loop ds' (snd r) (i + 1) n'
  end.

Definition Allocate (h : FileHeader) (freeMap : BitMap) (fileSize : Z) : outcome (bool * FileHeader * BitMap) :=
  let numSectors := divRoundUp fileSize SectorSize in
  let? c := NumClear freeMap in
  if c <? numSectors then Done (false, mkFileHeader fileSize numSectors (dataSectors h), freeMap)
  else
    let? r := allocate_loop (dataSectors h) freeMap 0 (Z.to_nat numSectors) in
    Done (true, mkFileHeader fileSize numSectors (fst r), snd r).

Fixpoint deallocate_loop (ds : list Z) (freeMap : BitMap) (i : Z) (n : nat) : outcome BitMap :=
  match n with
  | O => Done freeMap
  | S n' =>
      let? s := vget ds i in
      let? t := Test freeMap s in
      let? _ := assert t in
      let? freeMap' := Clear freeMap s in
      deallocate_loop ds freeMap' (i + 1) n'
  end.

Definition Deallocate (h : FileHeader) (freeMap : BitMap) : outcome BitMap :=
  deallocate_loop (dataSectors h) freeMap 0 (Z.to_nat (numSectors h)).

Definition FetchFrom (big_endian : bool) (sector : Z) : M Disk FileHeader :=
  let! bs := ReadSector sector in ret (bytes_header big_endian bs).
Definition WriteBack (big_endian : bool) (h : FileHeader) (sector : Z) : M Disk unit :=
  WriteSector sector (header_bytes big_endian h).

Definition ByteToSector (h : FileHeader) (offset : Z) : outcome Z :=
  vget (dataSectors h) (Z.quot offset SectorSize).
Definition FileLength (h : FileHeader) : Z := numBytes h.

(** ** Round trip of a header *)

Definition is_int (z : Z) : Prop := INT_MIN <= z <= INT_MAX.

Lemma s32_u32 z : is_int z → s32 (u32 z) = z.
Proof.
  unfold is_int, INT_MIN, INT_MAX, s32, u32. intros Hz. rewrite Z.mod_mod by lia.
  destruct (Z.ltb_spec (z mod 2 ^ 32) (2 ^ 31)); Z.to_euclidean_division_equations; lia.
Qed.

Lemma s32_is_int z : is_int (s32 z).
Proof.
  unfold is_int, INT_MIN, INT_MAX, s32. pose proof (u32_range z).
  destruct (Z.ltb_spec (u32 z) (2 ^ 31)); lia.
Qed.

Lemma length_words_bytes big ws : length (words_bytes big ws) = (4 * length ws)%nat.
Proof. unfold words_bytes. induction ws; cbn; [done|]. rewrite length_app, length_host_bytes. lia. Qed.

Lemma bytes_words_cons big w bs :
  bytes_words big (host_bytes big 4 (u32 w) ++ bs) = u32 w :: bytes_words big bs.
Proof.
  pose proof (length_host_bytes big 4 (u32 w)) as Hl. pose proof (host_roundtrip big 4 (u32 w)) as Hr.
  destruct (host_bytes big 4 (u32 w)) as [|b0 [|b1 [|b2 [|b3 [|]]]]]; try done. cbn.
  rewrite Hr. f_equal. apply Z.mod_small, u32_range.
Qed.

Lemma words_roundtrip big ws : bytes_words big (words_bytes big ws) = u32 <$> ws.
Proof. 
  induction ws as [|w ws IH]; [done|].
  change (words_bytes big (w :: ws)) with (host_bytes big 4 (u32 w) ++ words_bytes big ws).
  by rewrite bytes_words_cons, IH.
Qed.

(** The table of an object and the fields of the class. *)
Record header_fits (h : FileHeader) : Prop := {
  fits_bytes : is_int (numBytes h);
  fits_sectors : is_int (numSectors h);
  fits_table : length (dataSectors h) = Z.to_nat NumDirect;
  fits_data : Forall is_int (dataSectors h)
}.

Lemma header_roundtrip big h : header_fits h → bytes_header big (header_bytes big h) = h.
Proof.
  intros [H1 H2 _ H4]. unfold bytes_header, header_bytes. rewrite words_roundtrip. cbn [fmap list_fmap].
  rewrite !s32_u32 by done. destruct h as [nb ns ds]. cbn. f_equal.
  rewrite <- list_fmap_compose. rewrite <- (list_fmap_id ds) at 2. apply list_fmap_ext.
  intros i x Hx. cbn. apply s32_u32. by eapply Forall_lookup_1 in H4.
Qed.

Lemma length_header_bytes big h : header_fits h → length (header_bytes big h) = 128%nat.
Proof. intros [_ _ Hl _]. unfold header_bytes. rewrite length_words_bytes. cbn [length]. by rewrite Hl. Qed.

Lemma new_FileHeader_fits mem : header_fits (new_FileHeader mem).
Proof.
  constructor; cbn; [apply s32_is_int..|by rewrite length_fmap, length_seq|].
  apply Forall_fmap, Forall_forall. intros k _. apply s32_is_int.
Qed.

(** ** A header and the sectors it owns *)

Definition data (h : FileHeader) : list Z := take (Z.to_nat (numSectors h)) (dataSectors h).

Record header_ok (h : FileHeader) : Prop := {
  header_len : 0 <= numBytes h <= MaxFileSize;
  header_count : numSectors h = divRoundUp (numBytes h) SectorSize;
  header_table : length (dataSectors h) = Z.to_nat NumDirect;
  header_words : Forall is_int (dataSectors h);
  header_nodup : NoDup (data h);
  header_sectors : Forall is_sector (data h)
}.

Lemma header_count_range h : header_ok h → 0 <= numSectors h <= 30 ∧
  128 * (numSectors h - 1) < numBytes h <= 128 * numSectors h.
Proof.
  intros [Hl Hc _ _ _ _]. pose proof (divRoundUp_spec (numBytes h) SectorSize ltac:(lia) ltac:(done)) as H.
  rewrite <- Hc in H. unfold MaxFileSize, NumDirect, SectorSize in *. change ((128 - 2 * 4) / 4) with 30 in *. lia.
Qed.

Lemma header_ok_fits h : header_ok h → header_fits h.
Proof.
  intros Hok. pose proof (header_count_range h Hok) as Hc. destruct Hok as [Hl _ Ht Hw _ _].
  constructor; [| |done|done]; unfold is_int, INT_MIN, INT_MAX.
  - unfold MaxFileSize, NumDirect, SectorSize in *. change ((128 - 2 * 4) / 4) with 30 in *. lia.
  - lia.
Qed.

Lemma length_data h : header_ok h → length (data h) = Z.to_nat (numSectors h).
Proof.
  intros Hok. pose proof (header_count_range h Hok). destruct Hok as [_ _ Ht _ _ _].
  unfold data. rewrite length_take, Ht. unfold NumDirect, SectorSize. change ((128 - 2 * 4) / 4) with 30. lia.
Qed.

(** The sector of the byte at [offset]. *)
Lemma ByteToSector_spec h k : header_ok h → 0 <= k < numSectors h →
  ∃ s, ByteToSector h (k * SectorSize) = Done s ∧ data h !! Z.to_nat k = Some s ∧ is_sector s.
Proof.
  intros Hok Hk. destruct (lookup_lt_is_Some_2 (data h) (Z.to_nat k)) as [s Hs].
  { rewrite length_data by done. lia. }
  exists s. unfold ByteToSector. rewrite Z.quot_mul by done. split_and!; [|done|].
  - apply vget_Some. split; [lia|]. unfold data in Hs. by apply lookup_take_Some in Hs as [? _].
  - by eapply (Forall_lookup_1 _ _ _ _ (header_sectors h Hok)).
Qed.

(** ** Allocation *)

(** [b'] is [b] with the clear bits [new] set. *)
Record took (b b' : BitMap) (new : list Z) : Prop := {
  took_wf : wf b';
  took_bits : numBits b' = numBits b;
  took_nodup : NoDup new;
  took_fresh : Forall (λ k, 0 <= k < numBits b ∧ used b k = false) new;
  took_used : ∀ j, 0 <= j → used b' j = bool_decide (j ∈ new) || used b j;
  took_free : free_slots b' = free_slots b - Z.of_nat (length new)
}.

Lemma took_nil b : wf b → took b b [].
Proof.
  intros Hwf. constructor; [done|done|constructor|done| |cbn; lia].
  intros j _. by rewrite bool_decide_eq_false_2 by apply not_elem_of_nil.
Qed.

Lemma took_cons b b1 b' k new : wf b1 → numBits b1 = numBits b → 0 <= k < numBits b → used b k = false →
  (∀ j, 0 <= j → used b1 j = (j =? k) || used b j) → free_slots b1 = free_slots b - 1 →
  took b1 b' new → took b b' (k :: new).
Proof.
  intros Hwf Hn Hk Hu Hs Hf [Hwf' Hn' Hd Hfr Hs' Hf'].
  assert (Forall (λ j, 0 <= j < numBits b ∧ j ≠ k ∧ used b j = false) new) as Hall.
  { eapply Forall_impl; [exact Hfr|]. cbn. intros j [Hj Hju]. rewrite Hs in Hju by lia.
    apply orb_false_iff in Hju as [Hne%Z.eqb_neq ?]. split_and!; [lia|lia|done|done]. }
  constructor; [done|congruence| | | |cbn [length]; lia].
  - constructor; [|done]. intros Hin. rewrite Forall_forall in Hall. by destruct (Hall k Hin) as (_ & ? & _).
  - constructor; [done|]. eapply Forall_impl; [exact Hall|]. cbn. naive_solver.
  - intros j Hj. rewrite Hs', Hs by done. destruct (Z.eqb_spec j k) as [->|Hne].
    + by rewrite (bool_decide_eq_true_2 (k ∈ k :: new)) by (by left); rewrite orb_true_r.
    + rewrite orb_false_l. f_equal. apply bool_decide_ext. rewrite elem_of_cons. naive_solver.
Qed.

Lemma allocate_loop_spec ds b i n : wf b → 0 <= i → i + Z.of_nat n <= Z.of_nat (length ds) →
  Z.of_nat n <= free_slots b →
  ∃ new b', allocate_loop ds b i n = Done (take (Z.to_nat i) ds ++ new ++ drop (Z.to_nat i + n) ds, b') ∧
    length new = n ∧ took b b' new.
Proof.
  revert ds b i. induction n as [|n IH]; intros ds b i Hwf Hi Hl Hf.
  { exists [], b. rewrite Nat.add_0_r. cbn. rewrite take_drop. split_and!; [done..|]. by apply took_nil. }
  cbn. destruct (Find_free b Hwf) as (k & b1 & HF & Hk & Hu & Hwf1 & Hn1 & Hs1 & Hf1); [lia|].
  rewrite HF. cbn. rewrite vset_in by lia. cbn.
  destruct (IH (<[Z.to_nat i:=k]> ds) b1 (i + 1)) as (new & b' & -> & Hln & Ht);
    [done|lia|rewrite length_insert; lia|lia|].
  exists (k :: new), b'. split_and!; [|cbn; lia|by eapply took_cons].
  do 2 f_equal. replace (Z.to_nat (i + 1)) with (S (Z.to_nat i)) by lia.
  rewrite (take_S_r _ _ k) by (apply list_lookup_insert_eq; lia).
  rewrite take_insert_ge by lia. rewrite drop_insert_lt by lia. rewrite <- app_assoc. cbn. do 3 f_equal. f_equal. lia.
Qed.

(** The free bits of a map are taken, one for each sector, or nothing is done. *)
Lemma Allocate_spec h b size : wf b → numBits b = NumSectors → header_fits h → 0 <= size <= MaxFileSize →
  ∃ h' b', Allocate h b size = Done (divRoundUp size SectorSize <=? free_slots b, h', b') ∧
    numBytes h' = size ∧
    if divRoundUp size SectorSize <=? free_slots b then header_ok h' ∧ took b b' (data h') else b' = b.
Proof.
  intros Hwf Hn [_ _ Ht Hw] Hsize. unfold Allocate. rewrite NumClear_free by done. cbn [obind].
  rewrite Z.leb_antisym. destruct (Z.ltb_spec (free_slots b) (divRoundUp size SectorSize)) as [Hlt|Hge]; cbn [negb].
  { by eexists _, _. }
  pose proof (divRoundUp_spec size SectorSize ltac:(lia) ltac:(done)) as Hr.
  assert (0 <= divRoundUp size SectorSize <= 30) as Hcount.
  { unfold MaxFileSize, NumDirect, SectorSize in *. change ((128 - 2 * 4) / 4) with 30 in *. lia. }
  assert (Z.to_nat NumDirect = 30%nat) as Hnd by done.
  destruct (allocate_loop_spec (dataSectors h) b 0 (Z.to_nat (divRoundUp size SectorSize))) as (new & b' & -> & Hln & Htook);
    [done|lia|lia|lia|].
  cbn [obind fst snd]. change (Z.to_nat 0) with 0%nat. rewrite take_0. cbn [app Nat.add].
  eexists _, b'. split; [done|]. split; [done|].
  assert (data (mkFileHeader size (divRoundUp size SectorSize)
    (new ++ drop (Z.to_nat (divRoundUp size SectorSize)) (dataSectors h))) = new) as Hdata.
  { unfold data. cbn. by rewrite take_app_length'. }
  destruct Htook as [? ? ? Hfresh ? ?]. rewrite Hdata. split; [|done]. constructor; cbn; [done|done| | |by rewrite Hdata|].
  - rewrite length_app, length_drop, Hln, Ht. lia.
  - apply Forall_app. split; [|by apply Forall_drop]. eapply Forall_impl; [done|]. cbn. intros k [Hk _].
    unfold is_int, INT_MIN, INT_MAX, NumSectors, SectorsPerTrack, NumTracks in *. lia.
  - rewrite Hdata. eapply Forall_impl; [done|]. cbn. intros k [Hk _]. unfold is_sector. lia.
Qed.

(** Nothing compares the size with the room in the header: a longer file runs
    over the end of [dataSectors]. *)
Lemma allocate_loop_overflow ds b i n : wf b → 0 <= i <= Z.of_nat (length ds) →
  Z.of_nat (length ds) < i + Z.of_nat n → Z.of_nat n <= free_slots b →
  allocate_loop ds b i n = Fault OutOfRange.
Proof.
  revert ds b i. induction n as [|n IH]; intros ds b i Hwf Hi Hl Hf; [lia|]. cbn.
  destruct (Find_free b Hwf) as (k & b1 & HF & _ & _ & Hwf1 & _ & _ & Hf1); [lia|]. rewrite HF. cbn.
  destruct (decide (i = Z.of_nat (length ds))) as [->|Hne].
  - unfold vset. by rewrite (Z.ltb_irrefl (Z.of_nat (length ds))), andb_false_r.
  - rewrite vset_in by lia. cbn. apply IH; [done|rewrite length_insert; lia..|lia].
Qed.

Lemma Allocate_overflow h b size : wf b → header_fits h → MaxFileSize < size →
  divRoundUp size SectorSize <= free_slots b → Allocate h b size = Fault OutOfRange.
Proof.
  intros Hwf [_ _ Ht _] Hsize Hfree. unfold Allocate. rewrite NumClear_free by done. cbn [obind].
  rewrite (proj2 (Z.ltb_ge _ _)) by done.
  assert (MaxFileSize = 3840) as HM by done.
  pose proof (divRoundUp_spec size SectorSize ltac:(lia) ltac:(done)) as Hr.
  assert (30 < divRoundUp size SectorSize) as Hc by (unfold SectorSize in *; lia).
  assert (Z.to_nat NumDirect = 30%nat) as Hnd by done.
  by rewrite allocate_loop_overflow by (done || lia).
Qed.

(** [b'] is [b] with the set bits [old] cleared. *)
Record gave (b b' : BitMap) (old : list Z) : Prop := {
  gave_wf : wf b';
  gave_bits : numBits b' = numBits b;
  gave_used : ∀ j, 0 <= j → used b' j = negb (bool_decide (j ∈ old)) && used b j;
  gave_free : free_slots b' = free_slots b + Z.of_nat (length old)
}.

Lemma deallocate_loop_spec ds b i n : wf b → 0 <= i → (Z.to_nat i + n <= length ds)%nat →
  NoDup (take n (drop (Z.to_nat i) ds)) →
  Forall (λ s, 0 <= s < numBits b ∧ used b s = true) (take n (drop (Z.to_nat i) ds)) →
  ∃ b', deallocate_loop ds b i n = Done b' ∧ gave b b' (take n (drop (Z.to_nat i) ds)).
Proof.
  revert b i. induction n as [|n IH]; intros b i Hwf Hi Hl Hd Hall.
  { exists b. split; [done|]. constructor; [done..| |rewrite take_0; cbn [length]; lia]. intros j _.
    by rewrite bool_decide_eq_false_2 by apply not_elem_of_nil. }
  destruct (vget_in ds i) as (s & Hg & Hs); [lia|]. rewrite (drop_S _ s) in Hd, Hall |- * by done.
  replace (S (Z.to_nat i)) with (Z.to_nat (i + 1)) in * by lia. cbn [take] in *.
  apply NoDup_cons in Hd as [Hnew Hd]. apply Forall_cons in Hall as [[Hs1 Hs2] Hall].
  destruct (Clear_used b s Hwf Hs1 Hs2) as (b1 & HC & Hwf1 & Hn1 & Hu1 & Hf1).
  cbn [deallocate_loop]. rewrite Hg. cbn [obind]. rewrite Test_spec, Hs2 by done. cbn [obind assert]. rewrite HC. cbn [obind].
  destruct (IH b1 (i + 1) Hwf1) as (b' & He & [Hwf' Hn' Hu' Hf']); [lia|lia|done| |].
  { rewrite Forall_forall in Hall |- *. intros j Hj. destruct (Hall j Hj) as [Hr Hu]. rewrite Hn1, Hu1 by lia.
    split; [done|]. rewrite (proj2 (Z.eqb_neq j s)); [done|]. by intros ->. }
  exists b'. split; [done|]. constructor; [done|congruence| |cbn [length]; lia].
  intros j Hj. rewrite Hu', Hu1 by done. destruct (Z.eqb_spec j s) as [->|Hne]; cbn [negb andb].
  - rewrite (bool_decide_eq_true_2 (s ∈ s :: _)) by (by left). by rewrite andb_false_r.
  - do 2 f_equal. apply bool_decide_ext. rewrite elem_of_cons. naive_solver.
Qed.

Lemma Deallocate_spec h b : wf b → header_ok h →
  Forall (λ s, 0 <= s < numBits b ∧ used b s = true) (data h) →
  ∃ b', Deallocate h b = Done b' ∧ gave b b' (data h).
Proof.
  intros Hwf Hok Hall. pose proof (length_data h Hok) as Hl. unfold data in Hl. rewrite length_take in Hl.
  apply (deallocate_loop_spec (dataSectors h) b 0); [done|done|cbn; lia|apply (header_nodup h Hok)|done].
Qed.
