(* ===== verification/OpenFile.v ===== *)
(** * OpenFile: filesys/openfile.cc and openfile.h

    An open file is a copy of its header and a position.  The disk moves whole
    sectors, so [ReadAt] and [WriteAt] go through a buffer of the sectors that
    the request touches; [WriteAt] reads the first and the last one before it
    changes part of them.  [mem] is what the memory of a new buffer holds. *)
From S2P Require Import Prelude Translate Disk FileHeader.
From stdpp Require Import base list.
From Stdlib Require Import ZArith Lia ZifyBool.

Local Open Scope Z_scope.

Record OpenFile := mkOpenFile {
  hdr : FileHeader;     (* header for this file *)
  seekPosition : Z      (* current position within the file *)
}.

Definition new_OpenFile (big_endian : bool) (sector : Z) : M Disk OpenFile :=
  let! h := FetchFrom big_endian sector in ret (mkOpenFile h 0).

Definition Seek (f : OpenFile) (position : Z) : OpenFile := mkOpenFile (hdr f) position.
Definition Length (f : OpenFile) : Z := FileLength (hdr f).

(** [new char[n]] *)
Definition new_chars (mem : nat → Z) (n : Z) : outcome (list Z) :=
  if n <? 0 then Fault LengthError else Done ((λ k, mem k mod 256) <$> seq 0 (Z.to_nat n)).

(** The [n] sectors of the file from number [i] on, into the buffer. *)
Fixpoint read_sectors (h : FileHeader) (buf : list Z) (firstSector i : Z) (n : nat) : M Disk (list Z) :=
  match n with
  | O => ret buf
  | S n' =>
      let! s := lift (ByteToSector h (i * SectorSize)) in
      let! bs := ReadSector s in
      let! buf' := lift (mem_write buf ((i - firstSector) * SectorSize) bs) in
      read_sectors h buf' firstSector (i + 1) n'
  end.

Fixpoint write_sectors (h : FileHeader) (buf : list Z) (firstSector i : Z) (n : nat) : M Disk unit :=
  match n with
  | O => ret ()
  | S n' =>
      let! s := lift (ByteToSector h (i * SectorSize)) in
      let! bs := lift (mem_read buf ((i - firstSector) * SectorSize) (Z.to_nat SectorSize)) in
      WriteSector s bs ;;;
      write_sectors h buf firstSector (i + 1) n'
  end.

(** The length of a request, cut at the end of the file. *)
Definition clip (fileLength numBytes position : Z) : Z :=
  if fileLength <? s32 (position + numBytes) then s32 (fileLength - position) else numBytes.

(** The bytes that [ReadAt] stores at [into]; it returns how many they are. *)
Definition ReadAt (mem : nat → Z) (f : OpenFile) (numBytes position : Z) : M Disk (list Z) :=
  let fileLength := FileLength (hdr f) in
  if (numBytes <=? 0) || (fileLength <=? position) then ret [] else
  let numBytes := clip fileLength numBytes position in
  let firstSector := divRoundDown position SectorSize in
  let lastSector := divRoundDown (s32 (position + numBytes - 1)) SectorSize in
  let numSectors := 1 + lastSector - firstSector in
  let! buf := lift (new_chars mem (s32 (numSectors * SectorSize))) in
  let! buf := read_sectors (hdr f) buf firstSector firstSector (Z.to_nat numSectors) in
  lift (mem_read buf (position - firstSector * SectorSize) (Z.to_nat numBytes)).

Definition WriteAt (mem : nat → nat → Z) (f : OpenFile) (from : list Z) (numBytes position : Z) : M Disk Z :=
  let fileLength := FileLength (hdr f) in
  if (numBytes <=? 0) || (fileLength <=? position) then ret 0 else
  let numBytes := clip fileLength numBytes position in
  let firstSector := divRoundDown position SectorSize in
  let lastSector := divRoundDown (s32 (position + numBytes - 1)) SectorSize in
  let numSectors := 1 + lastSector - firstSector in
  let! buf := lift (new_chars (mem 0%nat) (s32 (numSectors * SectorSize))) in
  let firstAligned := position =? firstSector * SectorSize in
  let lastAligned := s32 (position + numBytes) =? (lastSector + 1) * SectorSize in
  let! buf :=
    if negb firstAligned then
      let! bs := ReadAt (mem 1%nat) f SectorSize (firstSector * SectorSize) in
      lift (mem_write buf 0 bs)
    else ret buf in
  let! buf :=
    if negb lastAligned && (negb (firstSector =? lastSector) || firstAligned) then
      let! bs := ReadAt (mem 2%nat) f SectorSize (lastSector * SectorSize) in
      lift (mem_write buf ((lastSector - firstSector) * SectorSize) bs)
    else ret buf in
  let! part := lift (mem_read from 0 (Z.to_nat numBytes)) in
  let! buf := lift (mem_write buf (position - firstSector * SectorSize) part) in
  write_sectors (hdr f) buf firstSector firstSector (Z.to_nat numSectors) ;;;
  ret numBytes.

Definition Read (mem : nat → Z) (f : OpenFile) (numBytes : Z) : M Disk (list Z * OpenFile) :=
  let! bs := ReadAt mem f numBytes (seekPosition f) in
  ret (bs, mkOpenFile (hdr f) (seekPosition f + Z.of_nat (length bs))).

Definition Write (mem : nat → nat → Z) (f : OpenFile) (from : list Z) (numBytes : Z) : M Disk (Z * OpenFile) :=
  let! result := WriteAt mem f from numBytes (seekPosition f) in
  ret (result, mkOpenFile (hdr f) (seekPosition f + result)).

(** ** The contents of a file: the bytes its sectors hold, up to its length *)

Definition contents (d : Disk) (h : FileHeader) : list Z :=
  take (Z.to_nat (numBytes h)) (data h ≫= disk_sector d).

Lemma bind_blocks {A} (f : Z → list A) (k : nat) l q r : Forall (λ x, length (f x) = k) l → (r < k)%nat →
  (l ≫= f) !! (k * q + r)%nat = l !! q ≫= λ x, f x !! r.
Proof.
  intros Hl Hr. revert q. induction Hl as [|x l Hx Hl IH]; intros q; [by rewrite !lookup_nil|].
  change ((x :: l) ≫= f) with (f x ++ (l ≫= f)). destruct q as [|q].
  - rewrite Nat.mul_0_r, lookup_app_l by lia. done.
  - rewrite lookup_app_r by nia. replace (k * S q + r - length (f x))%nat with (k * q + r)%nat by nia. apply IH.
Qed.

Lemma length_bind_blocks {A} (f : Z → list A) (k : nat) l : Forall (λ x, length (f x) = k) l →
  length (l ≫= f) = (k * length l)%nat.
Proof. induction 1 as [|x l Hx _ IH]; cbn; [lia|]. rewrite length_app, IH, Hx. lia. Qed.

Section file.
Context (d : Disk) (h : FileHeader).
Hypothesis Hd : disk_ok d.
Hypothesis Hh : header_ok h.

Lemma data_sectors : Forall (λ s, length (disk_sector d s) = 128%nat) (data h).
Proof. eapply Forall_impl; [apply (header_sectors h Hh)|]. cbn. intros s. by apply length_sector. Qed.

Lemma length_contents : length (contents d h) = Z.to_nat (numBytes h).
Proof.
  unfold contents. rewrite length_take, (length_bind_blocks _ 128) by apply data_sectors.
  rewrite length_data by done. pose proof (header_count_range h Hh). lia.
Qed.

Lemma contents_lookup q r : (r < 128)%nat → (128 * q + r < Z.to_nat (numBytes h))%nat →
  contents d h !! (128 * q + r)%nat = data h !! q ≫= λ s, disk_sector d s !! r.
Proof.
  intros Hr Hj. unfold contents. rewrite lookup_take_lt by done. apply bind_blocks; [apply data_sectors|done].
Qed.

Lemma read_sectors_spec buf (first i n : nat) : (first <= i)%nat → Z.of_nat (i + n) <= numSectors h →
  (128 * (i - first + n) <= length buf)%nat →
  ∃ buf', read_sectors h buf (Z.of_nat first) (Z.of_nat i) n d = Done (buf', d) ∧ length buf' = length buf ∧
    (∀ m, (m < 128 * (i - first))%nat → buf' !! m = buf !! m) ∧
    ∀ q s r, data h !! q = Some s → (i <= q < i + n)%nat → (r < 128)%nat →
      buf' !! (128 * (q - first) + r)%nat = disk_sector d s !! r.
Proof.
  revert buf i. induction n as [|n IH]; intros buf i Hi Hn Hl.
  { exists buf. split_and!; [done..|]. intros. lia. }
  destruct (ByteToSector_spec h (Z.of_nat i) Hh) as (s & Hs & Hds & Hr); [lia|]. rewrite Nat2Z.id in Hds.
  cbn [read_sectors]. rewrite (bind_Done _ _ _ s d) by (cbn; by rewrite Hs).
  rewrite (bind_Done _ _ _ _ _ (ReadSector_spec d s Hd Hr)).
  pose proof (length_sector d s Hd Hr) as Hls.
  assert (Z.to_nat ((Z.of_nat i - Z.of_nat first) * SectorSize) = (128 * (i - first))%nat) as Hpos by (unfold SectorSize; lia).
  destruct (mem_write buf ((Z.of_nat i - Z.of_nat first) * SectorSize) (disk_sector d s)) as [buf1|] eqn:Hw.
  2: { rewrite mem_write_in in Hw; [done|unfold SectorSize; lia..]. }
  cbv beta. rewrite (bind_Done _ _ _ buf1 d) by done.
  apply mem_write_written in Hw as (Hl1 & Hin & Hout). rewrite Hpos in Hin, Hout.
  replace (Z.of_nat i + 1) with (Z.of_nat (S i)) by lia.
  destruct (IH buf1 (S i)) as (buf' & He & Hl' & Hlow & Hnew); [lia|lia|lia|].
  exists buf'. split_and!; [done|congruence| |].
  - intros m Hm. rewrite Hlow by lia. apply Hout. lia.
  - intros q s' r Hq Hqi Hr'. destruct (decide (q = i)) as [->|Hne]; [|apply Hnew; [done|lia|done]].
    rewrite Hlow by lia. simplify_eq. destruct (lookup_lt_is_Some_2 (disk_sector d s) r) as [b Hb]; [lia|].
    rewrite Hb. by apply Hin.
Qed.
End file.

Lemma s32_small z : is_int z → s32 z = z.
Proof.
  intros Hz. rewrite <- (s32_u32 z Hz) at 2. unfold s32, u32. by rewrite Z.mod_mod.
Qed.

Lemma new_chars_spec mem n : 0 <= n → ∃ buf, new_chars mem n = Done buf ∧ length buf = Z.to_nat n.
Proof.
  intros Hn. unfold new_chars. rewrite (proj2 (Z.ltb_ge n 0)) by done. eexists. split; [done|].
  by rewrite length_fmap, length_seq.
Qed.

(** An offset is a sector and a byte of it. *)
Lemma offset_split (k : nat) : ∃ q r : nat, k = (128 * q + r)%nat ∧ (r < 128)%nat.
Proof. exists (k / 128)%nat, (k mod 128)%nat. split; [apply Nat.div_mod_eq|apply Nat.mod_upper_bound; lia]. Qed.

(** ** Reading *)

Lemma clip_spec len n pos : 0 <= pos < len → len <= MaxFileSize → 0 < n → pos + n <= INT_MAX →
  clip len n pos = Z.min n (len - pos).
Proof.
  intros Hp Hl Hn Hi. assert (MaxFileSize = 3840) as HM by done. unfold clip, INT_MAX in *.
  rewrite !s32_small by (unfold is_int, INT_MIN, INT_MAX; lia). destruct (Z.ltb_spec len (pos + n)); lia.
Qed.

(** The sectors that [n] bytes at [pos] touch. *)
Lemma touched h pos n : header_ok h → 0 <= pos → 0 < n → pos + n <= numBytes h →
  ∃ first last : nat, divRoundDown pos SectorSize = Z.of_nat first ∧
    divRoundDown (s32 (pos + n - 1)) SectorSize = Z.of_nat last ∧ s32 (pos + n) = pos + n ∧
    s32 ((1 + Z.of_nat last - Z.of_nat first) * SectorSize) = 128 * (1 + Z.of_nat last - Z.of_nat first) ∧
    (first <= last)%nat ∧ Z.of_nat last < numSectors h ∧
    128 * Z.of_nat first <= pos < 128 * Z.of_nat first + 128 ∧
    128 * Z.of_nat last < pos + n <= 128 * Z.of_nat last + 128.
Proof.
  intros Hh Hp Hn Hl. pose proof (header_count_range h Hh) as [Hc Hc'].
  exists (Z.to_nat (pos / 128)), (Z.to_nat ((pos + n - 1) / 128)). unfold divRoundDown, SectorSize.
  pose proof (Z.div_mod pos 128 ltac:(lia)). pose proof (Z.mod_pos_bound pos 128 ltac:(lia)).
  pose proof (Z.div_mod (pos + n - 1) 128 ltac:(lia)). pose proof (Z.mod_pos_bound (pos + n - 1) 128 ltac:(lia)).
  rewrite !s32_small by (unfold is_int, INT_MIN, INT_MAX; lia).
  rewrite !Z.quot_div_nonneg by lia. rewrite !Z2Nat.id by lia.
  split_and!; lia.
Qed.

Lemma ReadAt_spec mem d f n pos : disk_ok d → header_ok (hdr f) → 0 <= pos → pos + n <= INT_MAX →
  ReadAt mem f n pos d = Done (take (Z.to_nat n) (drop (Z.to_nat pos) (contents d (hdr f))), d).
Proof.
  intros Hd Hh Hp Hi. unfold ReadAt. destruct f as [h sp]. cbn [hdr]. unfold FileLength.
  pose proof (length_contents d h Hd Hh) as Hlc. pose proof (header_len h Hh) as HM.
  destruct (orb _ _) eqn:Htriv.
  { apply orb_true_iff in Htriv as [Hn%Z.leb_le|Hn%Z.leb_le].
    - replace (Z.to_nat n) with 0%nat by lia. by rewrite take_0.
    - rewrite drop_ge by lia. by rewrite take_nil. }
  apply orb_false_iff in Htriv as [Hn%Z.leb_gt Hlen%Z.leb_gt].
  rewrite clip_spec by lia. set (n' := Z.min n (numBytes h - pos)).
  destruct (touched h pos n' Hh) as (first & last & -> & -> & _ & -> & Hfl & Hlast & Hf & Hl); [lia..|].
  destruct (new_chars_spec mem (128 * (1 + Z.of_nat last - Z.of_nat first))) as (buf & Hb & Hlb); [lia|].
  rewrite (bind_Done _ _ _ buf d) by (unfold lift; by rewrite Hb). cbv beta.
  destruct (read_sectors_spec d h Hd Hh buf first first (Z.to_nat (1 + Z.of_nat last - Z.of_nat first)))
    as (buf' & He & Hl' & _ & Hin); [lia..|].
  rewrite (bind_Done _ _ _ _ _ He). cbv beta. unfold lift. rewrite mem_read_in by (unfold SectorSize; lia).
  do 2 f_equal. apply list_eq. intros j. unfold SectorSize.
  destruct (decide (j < Z.to_nat n')%nat) as [Hj|Hj].
  2: { rewrite !lookup_ge_None_2; [done|rewrite length_take, length_drop; lia..]. }
  rewrite !lookup_take_lt, !lookup_drop by lia.
  destruct (offset_split (Z.to_nat pos + j)) as (q & r & Hk & Hr).
  rewrite Hk, (contents_lookup d h Hd Hh q r Hr) by lia.
  destruct (lookup_lt_is_Some_2 (data h) q) as [s Hs]; [rewrite length_data by done; lia|].
  rewrite Hs. cbn. rewrite <- (Hin q s) by (done || lia). f_equal. lia.
Qed.

(** ** Writing *)

Lemma write_sectors_spec d h buf (first i n : nat) : disk_ok d → header_ok h → (first <= i)%nat →
  Z.of_nat (i + n) <= numSectors h → (128 * (i - first + n) <= length buf)%nat →
  ∃ d', write_sectors h buf (Z.of_nat first) (Z.of_nat i) n d = Done ((), d') ∧ disk_ok d' ∧
    (∀ q s, data h !! q = Some s → (i <= q < i + n)%nat → disk_sector d' s = take 128 (drop (128 * (q - first)) buf)) ∧
    ∀ s, is_sector s → (∀ q, (i <= q < i + n)%nat → data h !! q ≠ Some s) → disk_sector d' s = disk_sector d s.
Proof.
  intros Hd Hh. revert d i Hd. induction n as [|n IH]; intros d i Hd Hi Hn Hl.
  { exists d. split_and!; [done..| |done]. intros. lia. }
  destruct (ByteToSector_spec h (Z.of_nat i) Hh) as (s & Hs & Hds & Hr); [lia|]. rewrite Nat2Z.id in Hds.
  cbn [write_sectors]. rewrite (bind_Done _ _ _ s d) by (cbn; by rewrite Hs). cbv beta.
  rewrite mem_read_in by (rewrite ?sector_size; unfold SectorSize; lia). cbn [lift]. 
  assert (Z.to_nat ((Z.of_nat i - Z.of_nat first) * SectorSize) = (128 * (i - first))%nat) as -> by (unfold SectorSize; lia).
  rewrite sector_size. rewrite (bind_Done _ _ _ _ _ eq_refl). cbv beta.
  destruct (WriteSector_spec d s (take 128 (drop (128 * (i - first)) buf)) Hd Hr) as (d1 & HW & Hd1 & Hs1 & Ho1).
  { rewrite length_take, length_drop. lia. }
  rewrite (bind_Done _ _ _ _ _ HW). replace (Z.of_nat i + 1) with (Z.of_nat (S i)) by lia.
  destruct (IH d1 (S i) Hd1) as (d' & He & Hd' & Hin & Hout); [lia..|].
  assert (∀ q, (S i <= q < S i + n)%nat → data h !! q ≠ Some s) as Honce.
  { intros q Hq Hqs. assert (q = i) as ->; [|lia]. by apply (NoDup_lookup _ _ _ _ (header_nodup h Hh) Hqs). }
  exists d'. split_and!; [done|done| |].
  - intros q s' Hq Hqi. destruct (decide (q = i)) as [->|]; [|apply Hin; [done|lia]].
    simplify_eq. by rewrite Hout.
  - intros s' Hs' Hno. rewrite Hout; [apply Ho1; [done|]|done|].
    + intros ->. by apply (Hno i ltac:(lia)).
    + intros q Hq. apply Hno. lia.
Qed.

(** [c] with [bs] in place of what it has at [pos]. *)
Definition patch (c : list Z) (pos : nat) (bs : list Z) : list Z :=
  take pos c ++ bs ++ drop (pos + length bs) c.

Lemma patch_lookup c pos bs j : (pos + length bs <= length c)%nat →
  patch c pos bs !! j = if decide (pos <= j < pos + length bs)%nat then bs !! (j - pos)%nat else c !! j.
Proof.
  intros Hl. unfold patch. assert (length (take pos c) = pos) as Ht by (rewrite length_take; lia).
  case_decide as Hj.
  - by rewrite lookup_app_r, Ht, lookup_app_l by lia.
  - destruct (decide (j < pos)%nat); [by rewrite lookup_app_l, lookup_take_lt by lia|].
    rewrite lookup_app_r, Ht, lookup_app_r, lookup_drop by lia. f_equal. lia.
Qed.

Lemma patch_nil c pos : patch c pos [] = c.
Proof. unfold patch. cbn. by rewrite Nat.add_0_r, take_drop. Qed.

Lemma length_patch c pos bs : (pos + length bs <= length c)%nat → length (patch c pos bs) = length c.
Proof. intros Hl. unfold patch. rewrite !length_app, length_take, length_drop. lia. Qed.

(** A sector of the file read into the buffer of a write, at its place. *)
Lemma fill_sector mem d h sp buf (first q : nat) : disk_ok d → header_ok h → (first <= q)%nat →
  (128 * (q - first) + 128 <= length buf)%nat →
  128 * Z.of_nat q < numBytes h →
  ∃ bs buf', ReadAt mem (mkOpenFile h sp) SectorSize (128 * Z.of_nat q) d = Done (bs, d) ∧
    mem_write buf (128 * (Z.of_nat q - Z.of_nat first)) bs = Done buf' ∧ length buf' = length buf ∧
    (∀ j, (128 * q <= j < 128 * q + 128)%nat → (j < Z.to_nat (numBytes h))%nat →
       buf' !! (j - 128 * first)%nat = contents d h !! j) ∧
    (∀ m, (m < 128 * (q - first) ∨ 128 * (q - first) + 128 <= m)%nat → buf' !! m = buf !! m).
Proof.
  intros Hd Hh Hq Hl Hlen. pose proof (length_contents d h Hd Hh) as Hlc.
  pose proof (header_len h Hh) as HM. assert (MaxFileSize = 3840) as HM' by done.
  eexists _, _. split; [apply ReadAt_spec; [done|done|lia|unfold SectorSize, INT_MAX; lia]|]. cbn [hdr].
  rewrite sector_size. set (bs := take 128 _).
  assert (length bs <= 128)%nat as Hbs by (unfold bs; rewrite length_take; lia).
  split; [apply mem_write_in; lia|].
  pose proof (mem_write_written _ _ _ _ (mem_write_in buf (128 * (Z.of_nat q - Z.of_nat first)) bs ltac:(lia) ltac:(lia)))
    as (Hl' & Hin & Hout).
  replace (Z.to_nat (128 * (Z.of_nat q - Z.of_nat first))) with (128 * (q - first))%nat in * by lia.
  split_and!; [done| |intros m Hm; apply Hout; lia].
  intros j Hj Hjl. destruct (lookup_lt_is_Some_2 (contents d h) j) as [b Hb]; [lia|]. rewrite Hb.
  replace (j - 128 * first)%nat with (128 * (q - first) + (j - 128 * q))%nat by lia. apply Hin.
  unfold bs. rewrite lookup_take_lt, lookup_drop by lia. rewrite <- Hb. f_equal. lia.
Qed.

(** The buffer of a write before the new bytes: outside them it has the file. *)
Lemma prepare_spec mem1 mem2 d h sp buf (first last : nat) pos n : disk_ok d → header_ok h →
  (first <= last)%nat → Z.of_nat last < numSectors h →
  128 * Z.of_nat first <= pos < 128 * Z.of_nat first + 128 →
  128 * Z.of_nat last < pos + n <= 128 * Z.of_nat last + 128 →
  0 < n → pos + n <= numBytes h → length buf = (128 * (1 + last - first))%nat →
  ∃ buf', length buf' = length buf ∧
    (∀ j, (128 * first <= j < 128 * last + 128)%nat → (j < Z.to_nat (numBytes h))%nat →
       ¬ (Z.to_nat pos <= j < Z.to_nat (pos + n))%nat → buf' !! (j - 128 * first)%nat = contents d h !! j) ∧
    ∀ k : list Z → M Disk Z,
      (let! buf :=
         if negb (pos =? Z.of_nat first * SectorSize) then
           let! bs := ReadAt mem1 (mkOpenFile h sp) SectorSize (Z.of_nat first * SectorSize) in
           lift (mem_write buf 0 bs)
         else ret buf in
       let! buf :=
         if negb (pos + n =? (Z.of_nat last + 1) * SectorSize) &&
            (negb (Z.of_nat first =? Z.of_nat last) || (pos =? Z.of_nat first * SectorSize)) then
           let! bs := ReadAt mem2 (mkOpenFile h sp) SectorSize (Z.of_nat last * SectorSize) in
           lift (mem_write buf ((Z.of_nat last - Z.of_nat first) * SectorSize) bs)
         else ret buf in
       k buf) d = k buf' d.
Proof.
  intros Hd Hh Hfl Hlast Hf Hl Hn Hlen Hb. unfold SectorSize. rewrite !(Z.mul_comm _ 128).
  destruct (fill_sector mem1 d h sp buf first first Hd Hh) as (bs1 & buf1 & HR1 & HW1 & Hl1 & Hin1 & Hout1); [lia..|].
  rewrite Z.sub_diag, Z.mul_0_r in HW1.
  set (b1 := if negb (pos =? 128 * Z.of_nat first) then buf1 else buf).
  assert (length b1 = length buf) as Hlb1 by (unfold b1; destruct (negb _); done).
  destruct (fill_sector mem2 d h sp b1 first last Hd Hh) as (bs2 & buf2 & HR2 & HW2 & Hl2 & Hin2 & Hout2); [lia..|].
  set (second := negb (pos + n =? 128 * (Z.of_nat last + 1)) && (negb (Z.of_nat first =? Z.of_nat last) || (pos =? 128 * Z.of_nat first))).
  exists (if second then buf2 else b1). split_and!.
  - destruct second; congruence.
  - intros j Hj Hjl Hno. destruct second eqn:Hsec.
    + destruct (decide (128 * last <= j)%nat); [by apply Hin2; lia|]. rewrite Hout2 by lia. unfold b1.
      destruct (Z.eqb_spec pos (128 * Z.of_nat first)); cbn [negb]; [lia|]. apply Hin1; lia.
    + unfold b1. destruct (Z.eqb_spec pos (128 * Z.of_nat first)); cbn [negb]; [|apply Hin1; lia].
      unfold second in Hsec. lia.
  - intros k.
    assert ((if negb (pos =? 128 * Z.of_nat first)
      then bind (ReadAt mem1 (mkOpenFile h sp) 128 (128 * Z.of_nat first)) (λ bs, lift (mem_write buf 0 bs))
      else ret buf) d = Done (b1, d)) as H1.
    { unfold b1. destruct (negb _); [|done]. rewrite (bind_Done _ _ _ _ _ HR1). unfold lift. by rewrite HW1. }
    rewrite (bind_Done _ _ _ _ _ H1). cbv beta. fold second.
    assert ((if second
      then bind (ReadAt mem2 (mkOpenFile h sp) 128 (128 * Z.of_nat last))
             (λ bs, lift (mem_write b1 (128 * (Z.of_nat last - Z.of_nat first)) bs))
      else ret b1) d = Done (if second then buf2 else b1, d)) as H2.
    { destruct second; [|done]. rewrite (bind_Done _ _ _ _ _ HR2). unfold lift. by rewrite HW2. }
    by rewrite (bind_Done _ _ _ _ _ H2).
Qed.

(** The contents after sectors [first .. last] got the blocks of [buf]. *)
Lemma contents_written d d' h buf (first last : nat) pos bs : disk_ok d → disk_ok d' → header_ok h →
  (first <= last)%nat → Z.of_nat last < numSectors h →
  (128 * first <= pos)%nat → (pos + length bs <= 128 * last + 128)%nat → (pos + length bs <= Z.to_nat (numBytes h))%nat →
  (∀ q s, data h !! q = Some s → (first <= q <= last)%nat → disk_sector d' s = take 128 (drop (128 * (q - first)) buf)) →
  (∀ q s, data h !! q = Some s → ¬ (first <= q <= last)%nat → disk_sector d' s = disk_sector d s) →
  (∀ j, (128 * first <= j < 128 * last + 128)%nat → (j < Z.to_nat (numBytes h))%nat →
     buf !! (j - 128 * first)%nat = patch (contents d h) pos bs !! j) →
  contents d' h = patch (contents d h) pos bs.
Proof.
  intros Hd Hd' Hh Hfl Hlast Hp1 Hp2 Hp3 Hin Hout Hbuf.
  pose proof (length_contents d h Hd Hh) as Hlc. pose proof (length_contents d' h Hd' Hh) as Hlc'.
  apply list_eq. intros j. destruct (decide (j < Z.to_nat (numBytes h))%nat) as [Hj|Hj].
  2: { rewrite !lookup_ge_None_2; [done|rewrite length_patch by lia; lia|lia]. }
  destruct (offset_split j) as (q & r & -> & Hr). pose proof (header_count_range h Hh).
  destruct (lookup_lt_is_Some_2 (data h) q) as [s Hs]; [rewrite length_data by done; lia|].
  rewrite (contents_lookup d' h Hd' Hh q r Hr Hj), Hs. cbn [mbind option_bind].
  destruct (decide (first <= q <= last)%nat) as [Hq|Hq].
  - rewrite (Hin q s Hs Hq), <- Hbuf by lia. rewrite lookup_take_lt, lookup_drop by lia. f_equal. lia.
  - rewrite (Hout q s Hs Hq), patch_lookup by lia. rewrite decide_False by lia.
    by rewrite (contents_lookup d h Hd Hh q r Hr Hj), Hs.
Qed.

(** What a write of [n] of the bytes [from] at [pos] changes. *)
Definition writes (h : FileHeader) (from : list Z) (n pos : Z) : list Z :=
  take (Z.to_nat (Z.min n (numBytes h - pos))) from.

Lemma writes_prefix h from n pos : take (Z.to_nat (Z.of_nat (length (writes h from n pos)))) from = writes h from n pos.
Proof.
  unfold writes. rewrite Nat2Z.id, length_take. set (k := Z.to_nat _).
  destruct (decide (k <= length from)%nat); [by rewrite Nat.min_l by lia|].
  by rewrite Nat.min_r, !take_ge by lia.
Qed.

Lemma WriteAt_spec mem d f from n pos : disk_ok d → header_ok (hdr f) → 0 <= pos → pos + n <= INT_MAX →
  n <= Z.of_nat (length from) →
  ∃ d', WriteAt mem f from n pos d = Done (Z.of_nat (length (writes (hdr f) from n pos)), d') ∧ disk_ok d' ∧
    contents d' (hdr f) = patch (contents d (hdr f)) (Z.to_nat pos) (writes (hdr f) from n pos) ∧
    ∀ s, is_sector s → s ∉ data (hdr f) → disk_sector d' s = disk_sector d s.
Proof.
  intros Hd Hh Hp Hi Hfrom. unfold WriteAt. destruct f as [h sp]. cbn [hdr] in *. unfold FileLength, writes.
  pose proof (length_contents d h Hd Hh) as Hlc. pose proof (header_len h Hh) as HM.
  destruct (orb _ _) eqn:Htriv.
  { assert (Z.to_nat (Z.min n (numBytes h - pos)) = 0%nat) as -> by lia. rewrite take_0, patch_nil. by exists d. }
  apply orb_false_iff in Htriv as [Hn%Z.leb_gt Hlen%Z.leb_gt].
  rewrite clip_spec by lia. set (n' := Z.min n (numBytes h - pos)). set (part := take (Z.to_nat n') from).
  assert (length part = Z.to_nat n') as Hpart by (unfold part; rewrite length_take; lia).
  destruct (touched h pos n' Hh) as (first & last & -> & -> & -> & -> & Hfl & Hlast & Hf & Hl); [lia..|].
  destruct (new_chars_spec (mem 0%nat) (128 * (1 + Z.of_nat last - Z.of_nat first))) as (buf & Hb & Hlb); [lia|].
  rewrite (bind_Done _ _ _ buf d) by (unfold lift; by rewrite Hb). cbv beta.
  destruct (prepare_spec (mem 1%nat) (mem 2%nat) d h sp buf first last pos n' Hd Hh) as (buf1 & Hl1 & Hbuf1 & Hk); [lia..|].
  rewrite Hk. clear Hk. rewrite mem_read_in by lia. rewrite drop_0. fold part.
  rewrite (bind_Done _ _ _ _ _ eq_refl). cbv beta.
  destruct (mem_write buf1 (pos - Z.of_nat first * SectorSize) part) as [buf2|] eqn:Hw.
  2: { rewrite mem_write_in in Hw; [done|unfold SectorSize; lia..]. }
  rewrite (bind_Done _ _ _ buf2 d) by done. cbv beta. apply mem_write_written in Hw as (Hl2 & Hin & Hout).
  assert (Z.to_nat (pos - Z.of_nat first * SectorSize) = (Z.to_nat pos - 128 * first)%nat) as Hoff by (unfold SectorSize; lia).
  rewrite Hoff in Hin, Hout.
  destruct (write_sectors_spec d h buf2 first first (Z.to_nat (1 + Z.of_nat last - Z.of_nat first)) Hd Hh)
    as (d' & He & Hd' & Hws & Hwo); [lia..|].
  rewrite (bind_Done _ _ _ _ _ He). exists d'. split_and!; [|done| |].
  - unfold ret. do 2 f_equal. lia.
  - apply (contents_written d d' h buf2 first last); [done..|lia|done|lia|lia|lia| | |].
    + intros q s Hs Hq. apply Hws; [done|lia].
    + intros q s Hs Hq. apply Hwo; [by eapply (Forall_lookup_1 _ _ _ _ (header_sectors h Hh))|].
      intros q' Hq' Hs'. assert (q = q') as ->; [|lia]. by apply (NoDup_lookup _ _ _ _ (header_nodup h Hh) Hs).
    + intros j Hj Hjl. rewrite patch_lookup by lia. case_decide as Hin'.
      * destruct (lookup_lt_is_Some_2 part (j - Z.to_nat pos)) as [b Hbj]; [lia|]. rewrite Hbj.
        replace (j - 128 * first)%nat with (Z.to_nat pos - 128 * first + (j - Z.to_nat pos))%nat by lia. by apply Hin.
      * rewrite Hout by lia. apply Hbuf1; lia.
  - intros s Hs Hno. apply Hwo; [done|]. intros q _ Hq. apply Hno. by eapply list_elem_of_lookup_2.
Qed.

(** [d'] is [d] but for the sectors in [X]. *)
Definition same_outside (d d' : Disk) (X : list Z) : Prop :=
  ∀ s, is_sector s → s ∉ X → disk_sector d' s = disk_sector d s.

Lemma same_outside_trans d d1 d' X X' : same_outside d d1 X → same_outside d1 d' X' → same_outside d d' (X ++ X').
Proof. intros H1 H2 s Hs Hx. rewrite not_elem_of_app in Hx. rewrite H2, H1; naive_solver. Qed.

Lemma contents_frame d d' h X : header_ok h → same_outside d d' X → (∀ s, s ∈ data h → s ∉ X) →
  contents d' h = contents d h.
Proof.
  intros Hh Hsame Hx. unfold contents. f_equal. pose proof (header_sectors h Hh) as Hs. revert Hs Hx.
  induction (data h) as [|s l IH]; intros Hs Hx; [done|]. apply Forall_cons in Hs as [Hs Hl].
  change ((s :: l) ≫= disk_sector d') with (disk_sector d' s ++ (l ≫= disk_sector d')).
  change ((s :: l) ≫= disk_sector d) with (disk_sector d s ++ (l ≫= disk_sector d)).
  rewrite Hsame by (done || (apply Hx; by left)). f_equal. apply IH; [done|].
  intros s' Hs'. apply Hx. by right.
Qed.

(** ** Properties *)

(** A file is an array of bytes.  After a write of [n] bytes
    at [pos], cut at the end of the file, any read of the file gives the array
    with those bytes in place, however the requests lie across sectors; and any
    read of a file with other sectors gives what it gave before. *)
Theorem write_then_read mem d f from n pos : disk_ok d → header_ok (hdr f) → 0 <= pos → pos + n <= INT_MAX →
  n <= Z.of_nat (length from) →
  ∃ k d', WriteAt mem f from n pos d = Done (k, d') ∧ k = Z.max 0 (Z.min n (numBytes (hdr f) - pos)) ∧
    (∀ mem' m p, 0 <= p → p + m <= INT_MAX →
       ReadAt mem' f m p d' = Done (take (Z.to_nat m) (drop (Z.to_nat p)
         (patch (contents d (hdr f)) (Z.to_nat pos) (take (Z.to_nat k) from))), d')) ∧
    ∀ g mem' m p, header_ok (hdr g) → (∀ s, s ∈ data (hdr g) → s ∉ data (hdr f)) → 0 <= p → p + m <= INT_MAX →
      ∃ bs, ReadAt mem' g m p d = Done (bs, d) ∧ ReadAt mem' g m p d' = Done (bs, d').
Proof.
  intros Hd Hh Hp Hi Hn. destruct (WriteAt_spec mem d f from n pos Hd Hh Hp Hi Hn) as (d' & HW & Hd' & Hc & Ho).
  exists (Z.of_nat (length (writes (hdr f) from n pos))), d'. split; [exact HW|].
  split; [unfold writes; rewrite length_take; lia|]. split.
  - intros mem' m p Hp' Hi'. by rewrite ReadAt_spec, Hc, writes_prefix by assumption.
  - intros g mem' m p Hg Hdis Hp' Hi'. eexists. rewrite !ReadAt_spec by assumption. split; [reflexivity|].
    by rewrite (contents_frame d d' (hdr g) (data (hdr f)) Hg Ho Hdis).
Qed.

(** A file of 200 bytes in sectors 5 and 3: ten bytes across their boundary. *)
Lemma write_then_read_witness :
  let f := mkOpenFile (mkFileHeader 200 2 (5 :: 3 :: replicate 28 0)) 0 in
  ∃ d d', disk_ok d ∧ WriteAt (λ _ _, 0) f (replicate 10 1) 10 123 d = Done (10, d') ∧
    ReadAt (λ _, 0) f 10 123 d' = Done (replicate 10 1, d').
Proof.
  intros f. destruct (new_Disk_ok false) as (d & _ & Hd).
  assert (header_ok (hdr f)) as Hh.
  { constructor; [split; discriminate|reflexivity|reflexivity| | |].
    - cbn. repeat constructor; discriminate.
    - change (NoDup [5; 3]). apply NoDup_cons. split; [by rewrite list_elem_of_singleton|apply NoDup_singleton].
    - change (Forall is_sector [5; 3]). repeat constructor; done. }
  destruct (write_then_read (λ _ _, 0) d f (replicate 10 1) 10 123 Hd Hh ltac:(lia) ltac:(vm_compute; discriminate) ltac:(vm_compute; discriminate))
    as (k & d' & HW & Hk & HR & _).
  pose proof (length_contents d (hdr f) Hd Hh) as Hl.
  change (Z.max 0 (Z.min 10 (numBytes (hdr f) - 123))) with 10 in Hk. rewrite Hk in HW, HR.
  exists d, d'. split; [exact Hd|]. split; [exact HW|].
  rewrite (HR (λ _, 0) 10 123 ltac:(lia) ltac:(vm_compute; discriminate)). do 2 f_equal. unfold patch.
  change (Z.to_nat 10) with 10%nat. change (Z.to_nat 123) with 123%nat. change (Z.to_nat (numBytes (hdr f))) with 200%nat in Hl.
  rewrite drop_app_length' by (rewrite length_take; lia). reflexivity.
Defined.
