(* ===== verification/Directory.v ===== *)
(** * Directory: filesys/directory.cc and directory.h

    A directory is a table of entries, kept in a Nachos file as the memory of
    the table: 20 bytes an entry, of which the compiler leaves 5 unused.  File
    names are compared and copied up to 9 characters. *)
From S2P Require Import Prelude Translate Disk FileHeader OpenFile.
From stdpp Require Import base list.
From Stdlib Require Import ZArith Lia ZifyBool.

Local Open Scope Z_scope.

Definition FileNameMaxLen : nat := 9%nat.

Record DirectoryEntry := mkEntry {
  inUse : bool;         (* is this directory entry in use? *)
  sector : Z;           (* location on disk of the FileHeader for this file *)
  name : list Z;        (* FileNameMaxLen + 1 characters *)
  padding : list Z      (* the bytes between and behind the members *)
}.

(** The table; [tableSize] is its length. *)
Notation Directory := (list DirectoryEntry).

(** ** C strings *)

Fixpoint c_string (l : list Z) : list Z :=
  match l with
  | c :: l' => if c =? 0 then [] else c :: c_string l'
  | [] => []
  end.

(** [!strncmp(a, b, n)] *)
Fixpoint strncmp_eq (a b : list Z) (n : nat) : bool :=
  match n with
  | O => true
  | S n' =>
      let x := default 0 (head a) in
      let y := default 0 (head b) in
      (x =? y) && ((x =? 0) || strncmp_eq (tail a) (tail b) n')
  end.

(** [strncpy(dst, src, n)]: zeros after a short string, no zero after a long one. *)
Definition strncpy (dst src : list Z) (n : nat) : list Z :=
  take n (c_string src ++ replicate n 0) ++ drop n dst.

(** ** The table in memory *)

Definition sizeof_DirectoryEntry : Z := 20.

Definition entry_bytes (big_endian : bool) (e : DirectoryEntry) : list Z :=
  [Z.b2z (inUse e)] ++ take 3 (padding e) ++ host_bytes big_endian 4 (u32 (sector e)) ++
  name e ++ drop 3 (padding e).
Definition bytes_entry (big_endian : bool) (bs : list Z) : DirectoryEntry :=
  mkEntry (negb (default 0 (head bs) =? 0)) (s32 (host_value big_endian (take 4 (drop 4 bs))))
    (take 10 (drop 8 bs)) (take 3 (drop 1 bs) ++ take 2 (drop 18 bs)).

Definition table_bytes (big_endian : bool) (t : Directory) : list Z := t ≫= entry_bytes big_endian.
Fixpoint bytes_table (big_endian : bool) (tableSize : nat) (bs : list Z) : Directory :=
  match tableSize with
  | O => []
  | S n => bytes_entry big_endian (take 20 bs) :: bytes_table big_endian n (drop 20 bs)
  end.

Definition set_inUse (b : bool) (e : DirectoryEntry) : DirectoryEntry :=
  mkEntry b (sector e) (name e) (padding e).

(** ** Operations *)

Definition new_Directory (big_endian : bool) (mem : nat → Z) (size : nat) : Directory :=
  set_inUse false <$> bytes_table big_endian size ((λ k, mem k mod 256) <$> seq 0 (20 * size)).

Definition FetchFrom (big_endian : bool) (mem : nat → Z) (t : Directory) (file : OpenFile) : M Disk Directory :=
  let! bs := ReadAt mem file (Z.of_nat (length t) * sizeof_DirectoryEntry) 0 in
  ret (bytes_table big_endian (length t) (bs ++ drop (length bs) (table_bytes big_endian t))).
Definition WriteBack (big_endian : bool) (mem : nat → nat → Z) (t : Directory) (file : OpenFile) : M Disk unit :=
  let! _ := WriteAt mem file (table_bytes big_endian t) (Z.of_nat (length t) * sizeof_DirectoryEntry) 0 in
  ret ().

Definition FindIndex (t : Directory) (nm : list Z) : Z :=
  find_index (λ e, inUse e && strncmp_eq (name e) nm FileNameMaxLen) t.

Definition Find (t : Directory) (nm : list Z) : outcome Z :=
  let i := FindIndex t nm in
  if negb (i =? -1) then let? e := vget t i in Done (sector e) else Done (-1).

Definition Add (t : Directory) (nm : list Z) (newSector : Z) : outcome (bool * Directory) :=
  if negb (FindIndex t nm =? -1) then Done (false, t) else
  let i := find_index (λ e, negb (inUse e)) t in
  if i =? -1 then Done (false, t) else
  let? e := vget t i in
  let? t' := vset t i (mkEntry true newSector (strncpy (name e) nm FileNameMaxLen) (padding e)) in
  Done (true, t').

Definition Remove (t : Directory) (nm : list Z) : outcome (bool * Directory) :=
  let i := FindIndex t nm in
  if i =? -1 then Done (false, t) else
  let? e := vget t i in
  let? t' := vset t i (set_inUse false e) in
  Done (true, t').

(** What [printf("%s\n", table[i].name)] prints: it reads on until a zero byte. *)
Definition printed_at (bs : list Z) (p : nat) : outcome (list Z) :=
  let s := c_string (drop p bs) in
  if (p + length s <? length bs)%nat then Done s else Fault OutOfRange.

Fixpoint List_loop (bs : list Z) (t : Directory) (i : nat) : outcome (list (list Z)) :=
  match t with
  | [] => Done []
  | e :: t' =>
      if inUse e then
        let? s := printed_at bs (20 * i + 8) in
        let? l := List_loop bs t' (S i) in
        Done (s :: l)
      else List_loop bs t' (S i)
  end.

Definition List (big_endian : bool) (t : Directory) : outcome (list (list Z)) :=
  List_loop (table_bytes big_endian t) t 0.

(** ** What names are compared by *)

(** Two names are the same to the directory when their keys are. *)
Definition key (nm : list Z) : list Z := take FileNameMaxLen (c_string nm).

Lemma strncmp_key a b n : strncmp_eq a b n = bool_decide (take n (c_string a) = take n (c_string b)).
Proof.
  revert a b. induction n as [|n IH]; intros a b; [done|]. cbn [strncmp_eq].
  destruct a as [|x a], b as [|y b]; cbn -[Z.eqb]; [done|..].
  - rewrite (Z.eqb_sym y 0). destruct (Z.eqb_spec 0 y); done.
  - destruct (Z.eqb_spec x 0); done.
  - destruct (Z.eqb_spec x y) as [->|Hne]; cbn -[Z.eqb].
    + destruct (Z.eqb_spec y 0); cbn; [done|]. rewrite IH. apply bool_decide_ext. split; [by intros ->|by intros [= ]].
    + symmetry. apply bool_decide_eq_false_2.
      destruct (Z.eqb_spec x 0), (Z.eqb_spec y 0); subst; cbn; congruence.
Qed.

Lemma c_string_nonzero l : Forall (λ c, c ≠ 0) (c_string l).
Proof. induction l as [|c l IH]; cbn; [done|]. destruct (Z.eqb_spec c 0); by constructor. Qed.

Lemma c_string_id l : Forall (λ c, c ≠ 0) l → c_string l = l.
Proof. induction 1 as [|c l Hc _ IH]; cbn; [done|]. by rewrite (proj2 (Z.eqb_neq c 0)), IH by done. Qed.

Lemma c_string_app l l' : Forall (λ c, c ≠ 0) l → c_string (l ++ l') = l ++ c_string l'.
Proof. induction 1 as [|c l Hc _ IH]; cbn; [done|]. by rewrite (proj2 (Z.eqb_neq c 0)), IH by done. Qed.

Lemma key_strncpy dst src : length dst = 10%nat → key (strncpy dst src FileNameMaxLen) = key src.
Proof.
  intros Hl. unfold key, strncpy. pose proof (c_string_nonzero src) as Hs. set (s := c_string src) in *.
  assert (FileNameMaxLen = 9%nat) as H9 by done.
  destruct (decide (length s < FileNameMaxLen)%nat) as [Hlt|Hge].
  - rewrite take_app_ge, <- app_assoc, c_string_app by (done || lia). rewrite take_replicate.
    destruct (FileNameMaxLen `min` (FileNameMaxLen - length s))%nat eqn:He; [lia|].
    replace ((FileNameMaxLen - length s) `min` FileNameMaxLen)%nat with (S n) by lia. cbn.
    by rewrite app_nil_r.
  - rewrite take_app_le by lia. rewrite c_string_app by (by apply Forall_take).
    rewrite take_app_le by (rewrite length_take; lia). by rewrite take_take, Nat.min_id.
Qed.

Lemma length_strncpy dst src : length dst = 10%nat → length (strncpy dst src FileNameMaxLen) = 10%nat.
Proof.
  intros Hl. unfold strncpy. rewrite length_app, length_take, length_app, length_replicate, length_drop, Hl.
  unfold FileNameMaxLen. lia.
Qed.

(** ** The table on disk *)

Record entry_wf (e : DirectoryEntry) : Prop := {
  entry_name : length (name e) = 10%nat;
  entry_padding : length (padding e) = 5%nat;
  entry_sector : is_int (sector e)
}.

Lemma length_entry_bytes big e : entry_wf e → length (entry_bytes big e) = 20%nat.
Proof.
  intros [Hn Hp _]. unfold entry_bytes.
  rewrite !length_app, length_take, length_drop, length_host_bytes, Hn, Hp. done.
Qed.

Lemma entry_roundtrip big e : entry_wf e → bytes_entry big (entry_bytes big e) = e.
Proof.
  intros [Hn Hp Hs]. destruct e as [u s nm p]. cbn [name padding sector] in *.
  unfold bytes_entry, entry_bytes. cbn [inUse name padding sector].
  pose proof (length_host_bytes big 4 (u32 s)) as Hl. pose proof (host_roundtrip big 4 (u32 s)) as Hr.
  destruct p as [|p0 [|p1 [|p2 [|p3 [|p4 [|]]]]]]; try done.
  destruct (host_bytes big 4 (u32 s)) as [|b0 [|b1 [|b2 [|b3 [|]]]]]; try done.
  do 10 (destruct nm as [|? nm]; [done|]). destruct nm; [|done]. cbn -[host_value s32 u32].
  rewrite Hr. f_equal; [by destruct u|].
  change (8 * Z.of_nat 4) with 32. rewrite <- (s32_u32 s Hs) at 2. unfold s32, u32. by rewrite !Z.mod_mod.
Qed.

Lemma length_table_bytes big t : Forall entry_wf t → length (table_bytes big t) = (20 * length t)%nat.
Proof.
  induction 1 as [|e t He _ IH]; [done|].
  change (table_bytes big (e :: t)) with (entry_bytes big e ++ table_bytes big t).
  rewrite length_app, IH, length_entry_bytes by done. cbn [length]. lia.
Qed.

Lemma table_roundtrip big t : Forall entry_wf t → bytes_table big (length t) (table_bytes big t) = t.
Proof.
  induction 1 as [|e t He _ IH]; [done|].
  change (table_bytes big (e :: t)) with (entry_bytes big e ++ table_bytes big t).
  cbn [length bytes_table]. pose proof (length_entry_bytes big e He) as Hl.
  by rewrite take_app_length', drop_app_length', entry_roundtrip, IH by done.
Qed.

Lemma bytes_entry_wf big bs : length bs = 20%nat → entry_wf (bytes_entry big bs).
Proof.
  intros Hl. constructor; cbn; [| |apply s32_is_int].
  - rewrite length_take, length_drop. lia.
  - rewrite length_app, !length_take, !length_drop. lia.
Qed.

Lemma bytes_table_wf big n bs : length bs = (20 * n)%nat →
  length (bytes_table big n bs) = n ∧ Forall entry_wf (bytes_table big n bs).
Proof.
  revert bs. induction n as [|n IH]; intros bs Hl; cbn; [by split; [|constructor]|].
  destruct (IH (drop 20 bs)) as [Hl' Hwf]; [rewrite length_drop; lia|].
  split; [by rewrite Hl'|]. constructor; [|done]. apply bytes_entry_wf. rewrite length_take. lia.
Qed.

Lemma new_Directory_wf big mem size : length (new_Directory big mem size) = size ∧
  Forall entry_wf (new_Directory big mem size) ∧ Forall (λ e, inUse e = false) (new_Directory big mem size).
Proof.
  unfold new_Directory. destruct (bytes_table_wf big size ((λ k, mem k mod 256) <$> seq 0 (20 * size))) as [Hl Hwf].
  { by rewrite length_fmap, length_seq. }
  split_and!; [by rewrite length_fmap| |].
  - apply Forall_fmap. eapply Forall_impl; [done|]. intros e []. by constructor.
  - apply Forall_fmap, Forall_forall. done.
Qed.

(** ** The operations *)

Definition absent (t : Directory) (nm : list Z) : Prop :=
  ∀ j e, t !! j = Some e → inUse e = true → key (name e) ≠ key nm.
Definition named (t : Directory) (nm : list Z) (j : nat) (e : DirectoryEntry) : Prop :=
  t !! j = Some e ∧ inUse e = true ∧ key (name e) = key nm.

(** No two entries in use have the same key. *)
Definition keys_distinct (t : Directory) : Prop :=
  ∀ i j e e', t !! i = Some e → t !! j = Some e' → inUse e = true → inUse e' = true →
    key (name e) = key (name e') → i = j.

Lemma FindIndex_cases t nm :
  (FindIndex t nm = -1 ∧ absent t nm) ∨ (∃ j e, FindIndex t nm = Z.of_nat j ∧ named t nm j e).
Proof.
  unfold FindIndex.
  destruct (find_index_spec (λ e, inUse e && strncmp_eq (name e) nm FileNameMaxLen) t)
    as [[-> Ha]|(j & e & -> & Hj & He & _)].
  - left. split; [done|]. intros j e Hj Hu Hk. specialize (Ha j e Hj). cbv beta in Ha.
    rewrite Hu, strncmp_key in Ha. by apply bool_decide_eq_false in Ha.
  - right. exists j, e. cbv beta in He. apply andb_true_iff in He as [Hu Hk]. rewrite strncmp_key in Hk.
    by apply bool_decide_eq_true in Hk.
Qed.

Lemma FindName_cases t nm : (Find t nm = Done (-1) ∧ absent t nm) ∨
  (∃ j e, Find t nm = Done (sector e) ∧ named t nm j e).
Proof.
  unfold Find. destruct (FindIndex_cases t nm) as [[-> Ha]|(j & e & -> & Hn)]; [by left|].
  right. exists j, e. split; [|done]. destruct Hn as [Hj _].
  rewrite (proj2 (Z.eqb_neq (Z.of_nat j) (-1))) by lia. cbn [negb]. by rewrite (vget_Done _ _ _ Hj).
Qed.

(** A new name goes to the first entry that is not in use. *)
Lemma Add_cases t nm s :
  (Add t nm s = Done (false, t) ∧ ((∃ j e, named t nm j e) ∨ ∀ j e, t !! j = Some e → inUse e = true)) ∨
  (∃ j e, absent t nm ∧ t !! j = Some e ∧ inUse e = false ∧
     Add t nm s = Done (true, <[j := mkEntry true s (strncpy (name e) nm FileNameMaxLen) (padding e)]> t)).
Proof.
  unfold Add. destruct (FindIndex_cases t nm) as [[-> Ha]|(j & e & -> & Hn)].
  2: { left. rewrite (proj2 (Z.eqb_neq (Z.of_nat j) (-1))) by lia. split; [done|]. left. by exists j, e. }
  cbn [negb Z.eqb Pos.eqb].
  destruct (find_index_spec (λ e, negb (inUse e)) t) as [[-> Hf]|(j & e & -> & Hj & He & _)].
  - left. split; [done|]. right. intros j e Hj. specialize (Hf j e Hj). cbn in Hf. by destruct (inUse e).
  - right. exists j, e. rewrite (proj2 (Z.eqb_neq (Z.of_nat j) (-1))) by lia.
    rewrite (vget_Done _ _ _ Hj). cbn [obind]. pose proof (lookup_lt_Some _ _ _ Hj).
    rewrite vset_in, Nat2Z.id by lia. split_and!; [done|done| |done]. by apply negb_true_iff in He.
Qed.

Lemma RemoveName_cases t nm : (Remove t nm = Done (false, t) ∧ absent t nm) ∨
  (∃ j e, named t nm j e ∧ Remove t nm = Done (true, <[j := set_inUse false e]> t)).
Proof.
  unfold Remove. destruct (FindIndex_cases t nm) as [[-> Ha]|(j & e & -> & Hn)]; [by left|].
  right. exists j, e. rewrite (proj2 (Z.eqb_neq (Z.of_nat j) (-1))) by lia. destruct Hn as [Hj Hn].
  rewrite (vget_Done _ _ _ Hj). cbn [obind]. pose proof (lookup_lt_Some _ _ _ Hj).
  by rewrite vset_in, Nat2Z.id by lia.
Qed.

Lemma absent_named t nm j e : absent t nm → named t nm j e → False.
Proof. intros Ha (Hj & Hu & Hk). by apply (Ha j e). Qed.

Lemma named_unique t nm j j' e e' : keys_distinct t → named t nm j e → named t nm j' e' → j = j' ∧ e = e'.
Proof.
  intros Hd (Hj & Hu & Hk) (Hj' & Hu' & Hk').
  assert (j = j') as -> by (apply (Hd j j' e e'); congruence). split; [done|congruence].
Qed.

(** ** The table through its file *)

Lemma fetch_table_spec big mem t t' d f : disk_ok d → header_ok (hdr f) → length t = length t' →
  Forall entry_wf t → Forall entry_wf t' →
  contents d (hdr f) = table_bytes big t' → FetchFrom big mem t f d = Done (t', d).
Proof.
  intros Hd Hh Hl Hwf Hwf' Hc. pose proof (length_contents d (hdr f) Hd Hh) as Hlc. rewrite Hc in Hlc.
  pose proof (length_table_bytes big t Hwf) as Hlt. pose proof (length_table_bytes big t' Hwf') as Hlt'.
  pose proof (header_len _ Hh) as HM. assert (MaxFileSize = 3840) as HM' by done.
  unfold FetchFrom, sizeof_DirectoryEntry.
  rewrite (bind_Done _ _ _ _ _ (ReadAt_spec mem d f (Z.of_nat (length t) * 20) 0 Hd Hh ltac:(lia) ltac:(unfold INT_MAX; lia))).
  cbv beta. change (Z.to_nat 0) with 0%nat. rewrite Hc, drop_0, take_ge, drop_ge, app_nil_r by lia.
  unfold ret. by rewrite Hl, table_roundtrip.
Qed.

Lemma write_table_spec big mem t d f : disk_ok d → header_ok (hdr f) → Forall entry_wf t →
  numBytes (hdr f) = Z.of_nat (length t) * 20 →
  ∃ d', WriteBack big mem t f d = Done ((), d') ∧ disk_ok d' ∧ contents d' (hdr f) = table_bytes big t ∧
    ∀ s, is_sector s → s ∉ data (hdr f) → disk_sector d' s = disk_sector d s.
Proof.
  intros Hd Hh Hwf Hl. pose proof (length_table_bytes big t Hwf) as Hlt. pose proof (header_len _ Hh) as HM.
  pose proof (length_contents d (hdr f) Hd Hh) as Hlc.
  assert (MaxFileSize = 3840) as HM' by done. unfold WriteBack, sizeof_DirectoryEntry.
  destruct (WriteAt_spec mem d f (table_bytes big t) (Z.of_nat (length t) * 20) 0 Hd Hh) as (d' & He & Hd' & Hc & Ho);
    [lia|unfold INT_MAX; lia|lia|].
  rewrite (bind_Done _ _ _ _ _ He). exists d'. split_and!; [done|done| |done].
  rewrite Hc. unfold writes, patch. change (Z.to_nat 0) with 0%nat. rewrite take_0, (take_ge (table_bytes big t)), drop_ge by lia.
  by rewrite app_nil_r.
Qed.

(** ** Properties *)

Lemma table_bytes_drop big t j : Forall entry_wf t → drop (20 * j) (table_bytes big t) = table_bytes big (drop j t).
Proof.
  intros Hwf. revert j. induction Hwf as [|e t He _ IH]; intros j; [rewrite drop_nil; apply drop_nil|].
  destruct j as [|j]; [done|]. change (table_bytes big (e :: t)) with (entry_bytes big e ++ table_bytes big t).
  rewrite drop_app_ge by (rewrite length_entry_bytes by done; lia). rewrite length_entry_bytes by done.
  replace (20 * S j - 20)%nat with (20 * j)%nat by lia. apply IH.
Qed.

(** Where the name of an entry is in the memory of the table. *)
Lemma name_in_table big t j e : Forall entry_wf t → t !! j = Some e →
  ∃ rest, drop (20 * j + 8) (table_bytes big t) = name e ++ rest.
Proof.
  intros Hwf Hj. pose proof (Forall_lookup_1 _ _ _ _ Hwf Hj) as [Hn Hp _].
  rewrite <- drop_drop, table_bytes_drop, (drop_S _ e) by done.
  change (table_bytes big (e :: drop (S j) t)) with (entry_bytes big e ++ table_bytes big (drop (S j) t)).
  exists (drop 3 (padding e) ++ table_bytes big (drop (S j) t)).
  assert (entry_bytes big e = ([Z.b2z (inUse e)] ++ take 3 (padding e) ++ host_bytes big 4 (u32 (sector e))) ++
    name e ++ drop 3 (padding e)) as -> by (unfold entry_bytes; by rewrite <- !app_assoc).
  rewrite <- !(app_assoc _ (name e ++ _)), <- (app_assoc (name e)), drop_app_length'; [reflexivity|].
  rewrite !length_app, length_host_bytes, length_take, Hp. reflexivity.
Qed.

(** [name] has room for 9 characters and the zero
    behind them, but [Add] copies at most 9 characters and never stores that
    zero.  After a name of 9 characters or more was added to an entry whose last
    byte is not zero, printing the name goes on over that byte and whatever
    follows: it does not print the name, or it leaves the table. *)
Theorem long_name_unterminated big t nm s t' : Forall entry_wf t → is_int s →
  Add t nm s = Done (true, t') → (FileNameMaxLen <= length (c_string nm))%nat →
  ∃ j e, t !! j = Some e ∧ inUse e = false ∧ named t' nm j (mkEntry true s (strncpy (name e) nm FileNameMaxLen) (padding e)) ∧
    (name e !! 9%nat ≠ Some 0 → ∀ p, printed_at (table_bytes big t') (20 * j + 8) = Done p →
       (FileNameMaxLen < length p)%nat ∧ p ≠ key nm).
Proof.
  intros Hwf Hs HA Hlong. destruct (Add_cases t nm s) as [[HA' _]|(j & e & _ & Hj & Hu & HA')]; [congruence|].
  rewrite HA' in HA. injection HA as <-. pose proof (Forall_lookup_1 _ _ _ _ Hwf Hj) as Hewf.
  pose proof (lookup_lt_Some _ _ _ Hj) as Hlt. destruct Hewf as [Hn Hp Hsec].
  set (e' := mkEntry true s (strncpy (name e) nm FileNameMaxLen) (padding e)).
  assert (<[j := e']> t !! j = Some e') as Hj' by (by rewrite list_lookup_insert_eq).
  exists j, e. split; [done|]. split; [done|]. split; [split; [exact Hj'|split; [reflexivity|exact (key_strncpy _ _ Hn)]]|].
  intros Hlast p Hprint. unfold printed_at in Hprint.
  destruct (name_in_table big (<[j := e']> t) j e') as [rest Hrest]; [|done|].
  { apply Forall_insert; [done|]. constructor; cbn; [by apply length_strncpy|done|done]. }
  rewrite Hrest in Hprint. destruct (_ <? _)%nat; [|done]. injection Hprint as <-.
  assert (Forall (λ c, c ≠ 0) (name e')) as Hnz.
  { cbn [e' name]. unfold strncpy. apply Forall_app. split.
    - rewrite take_app_le by lia. apply Forall_take, c_string_nonzero.
    - apply Forall_lookup_2. intros i x Hi. rewrite lookup_drop in Hi. pose proof (lookup_lt_Some _ _ _ Hi).
      unfold FileNameMaxLen in *. replace (9 + i)%nat with 9%nat in Hi by lia. congruence. }
  rewrite c_string_app by done. pose proof (length_strncpy (name e) nm Hn) as Hl.
  assert (FileNameMaxLen < length (name e' ++ c_string rest))%nat as Hlen.
  { rewrite length_app. cbn [e' name]. rewrite Hl. unfold FileNameMaxLen. lia. }
  split; [exact Hlen|]. intros Heq. apply (f_equal length) in Heq. unfold key in Heq. rewrite length_take in Heq.
  cbn [e' name] in *. lia.
Qed.

(** "ninechars" in a table whose memory holds 33 everywhere, read back as
    fourteen characters: the name, its last byte, two of padding, and the first
    byte of the next entry is the zero of [inUse]. *)
Lemma long_name_unterminated_witness :
  let t := [mkEntry false 7 (replicate 10 33) (replicate 5 33); mkEntry false 7 (replicate 10 33) (replicate 5 33)] in
  let nm := [110; 105; 110; 101; 99; 104; 97; 114; 115] in
  ∃ t', Add t nm 5 = Done (true, t') ∧ List false t' = Done [nm ++ [33; 33; 33]] ∧
    ∃ j e, t !! j = Some e ∧ named t' nm j (mkEntry true 5 (strncpy (name e) nm FileNameMaxLen) (padding e)).
Proof.
  intros t nm. assert (Forall entry_wf t) as Hwf.
  { repeat constructor; discriminate. }
  assert (∃ t', Add t nm 5 = Done (true, t') ∧ List false t' = Done [nm ++ [33; 33; 33]]) as (t' & HA & HL).
  { exists (match Add t nm 5 with Done (_, t') => t' | Fault _ => [] end). split; vm_compute; reflexivity. }
  exists t'. split; [exact HA|]. split; [exact HL|].
  destruct (long_name_unterminated false t nm 5 t' Hwf ltac:(split; discriminate) HA ltac:(vm_compute; lia))
    as (j & e & Hj & _ & Hn & _).
  exists j, e. split; [exact Hj|exact Hn].
Defined.
