(* ===== verification/MapFile.v ===== *)
(** * MapFile: the bitmap of free sectors in its file (userprog/bitmap.cc)

    [BitMap::FetchFrom] and [BitMap::WriteBack] move the words of the map, as
    they are in memory, from and to a Nachos file. *)
From S2P Require Import Prelude BitMap Translate Disk FileHeader OpenFile.
From stdpp Require Import base list.
From Stdlib Require Import ZArith Lia ZifyBool.

Local Open Scope Z_scope.

Definition FetchFrom (big_endian : bool) (mem : nat → Z) (b : BitMap) (file : OpenFile) : M Disk BitMap :=
  let! bs := ReadAt mem file (numWords b * 4) 0 in
  ret (mkBitMap (numBits b) (numWords b)
         (bytes_words big_endian (bs ++ drop (length bs) (words_bytes big_endian (BitMap.map b))))).
Definition WriteBack (big_endian : bool) (mem : nat → nat → Z) (b : BitMap) (file : OpenFile) : M Disk unit :=
  let! _ := WriteAt mem file (words_bytes big_endian (BitMap.map b)) (numWords b * 4) 0 in
  ret ().

Lemma words_id ws : Forall (λ w, 0 <= w < 2 ^ 32) ws → u32 <$> ws = ws.
Proof. induction 1 as [|w ws Hw _ IH]; [done|]. cbn. f_equal; [by apply Z.mod_small|apply IH]. Qed.

(** The object a fetch is into has the right size; what it holds is replaced. *)
Lemma fetch_words_spec big mem b b' d f : disk_ok d → header_ok (hdr f) → wf b → wf b' → numBits b = numBits b' →
  contents d (hdr f) = words_bytes big (BitMap.map b') → FetchFrom big mem b f d = Done (b', d).
Proof.
  intros Hd Hh Hwf Hwf' Hn Hc. pose proof (length_contents d (hdr f) Hd Hh) as Hlc. rewrite Hc in Hlc.
  destruct Hwf as [_ Hw Hl _]. destruct Hwf' as [_ Hw' Hl' Hr'].
  pose proof (length_words_bytes big (BitMap.map b)) as Hlt. pose proof (length_words_bytes big (BitMap.map b')) as Hlt'.
  assert (numWords b = numWords b') as Hnw by congruence.
  pose proof (header_len _ Hh) as HM. assert (MaxFileSize = 3840) as HM' by done. unfold FetchFrom.
  rewrite (bind_Done _ _ _ _ _ (ReadAt_spec mem d f (numWords b * 4) 0 Hd Hh ltac:(lia) ltac:(unfold INT_MAX; lia))).
  cbv beta. change (Z.to_nat 0) with 0%nat. rewrite Hc, drop_0, take_ge, drop_ge, app_nil_r by lia.
  unfold ret. rewrite words_roundtrip, words_id by done. rewrite Hn, Hnw. by destruct b'.
Qed.

Lemma write_words_spec big mem b d f : disk_ok d → header_ok (hdr f) → wf b → numBytes (hdr f) = numWords b * 4 →
  ∃ d', WriteBack big mem b f d = Done ((), d') ∧ disk_ok d' ∧ contents d' (hdr f) = words_bytes big (BitMap.map b) ∧
    ∀ s, is_sector s → s ∉ data (hdr f) → disk_sector d' s = disk_sector d s.
Proof.
  intros Hd Hh [_ _ Hlw _] Hl. pose proof (length_words_bytes big (BitMap.map b)) as Hlt. pose proof (header_len _ Hh) as HM.
  pose proof (length_contents d (hdr f) Hd Hh) as Hlc.
  assert (MaxFileSize = 3840) as HM' by done. unfold WriteBack.
  destruct (WriteAt_spec mem d f (words_bytes big (BitMap.map b)) (numWords b * 4) 0 Hd Hh) as (d' & He & Hd' & Hc & Ho);
    [lia|unfold INT_MAX; lia|lia|].
  rewrite (bind_Done _ _ _ _ _ He). exists d'. split_and!; [done|done| |done].
  rewrite Hc. unfold writes, patch. change (Z.to_nat 0) with 0%nat.
  rewrite take_0, (take_ge (words_bytes big (BitMap.map b))), drop_ge by lia. by rewrite app_nil_r.
Qed.
