(* ===== verification/FileSystem.v ===== *)
(** * FileSystem: filesys/filesys.cc and the test routines of filesys/fstest.cc

    The bitmap of free sectors and the directory are files themselves, whose
    headers are in sectors 0 and 1 and which stay open.  Every operation reads
    them from disk, changes the copies and writes the copies back when nothing
    failed.  [mem] is what the memory of the k-th object of a call holds. *)
From S2P Require Import Prelude BitMap Translate Disk FileHeader OpenFile Directory MapFile.
From stdpp Require Import base list gmap.
From Stdlib Require Import ZArith Lia ZifyBool.

Local Open Scope Z_scope.

Definition FreeMapSector : Z := 0.
Definition DirectorySector : Z := 1.
Definition FreeMapFileSize : Z := NumSectors / BitsInByte.
Definition NumDirEntries : nat := 10.
Definition DirectoryFileSize : Z := sizeof_DirectoryEntry * Z.of_nat NumDirEntries.

Record FileSystem := mkFileSystem {
  freeMapFile : OpenFile;      (* bit map of free disk blocks, as a file *)
  directoryFile : OpenFile     (* "root" directory, as a file *)
}.

Definition from_mem (k : nat) (mem : nat → nat → Z) : nat → nat → Z := λ i, mem (k + i)%nat.

Definition new_FileSystem (big : bool) (mem : nat → nat → Z) (format : bool) : M Disk FileSystem :=
  if format then
    let! freeMap := lift (new_BitMap (mem 0%nat) NumSectors) in
    let directory := new_Directory big (mem 1%nat) NumDirEntries in
    let mapHdr := new_FileHeader (mem 2%nat) in
    let dirHdr := new_FileHeader (mem 3%nat) in
    let! freeMap := lift (Mark freeMap FreeMapSector) in
    let! freeMap := lift (Mark freeMap DirectorySector) in
    let! '(ok, mapHdr, freeMap) := lift (Allocate mapHdr freeMap FreeMapFileSize) in
    ASSERT ok ;;;
    let! '(ok, dirHdr, freeMap) := lift (Allocate dirHdr freeMap DirectoryFileSize) in
    ASSERT ok ;;;
    FileHeader.WriteBack big mapHdr FreeMapSector ;;;
    FileHeader.WriteBack big dirHdr DirectorySector ;;;
    let! freeMapFile := new_OpenFile big FreeMapSector in
    let! directoryFile := new_OpenFile big DirectorySector in
    MapFile.WriteBack big (from_mem 4 mem) freeMap freeMapFile ;;;
    Directory.WriteBack big (from_mem 7 mem) directory directoryFile ;;;
    ret (mkFileSystem freeMapFile directoryFile)
  else
    let! freeMapFile := new_OpenFile big FreeMapSector in
    let! directoryFile := new_OpenFile big DirectorySector in
    ret (mkFileSystem freeMapFile directoryFile).

Definition Create (big : bool) (mem : nat → nat → Z) (fs : FileSystem) (nm : list Z) (initialSize : Z) : M Disk bool :=
  let! directory := Directory.FetchFrom big (mem 1%nat) (new_Directory big (mem 0%nat) NumDirEntries) (directoryFile fs) in
  let! found := lift (Directory.Find directory nm) in
  if negb (found =? -1) then ret false else
  let! freeMap := lift (new_BitMap (mem 2%nat) NumSectors) in
  let! freeMap := MapFile.FetchFrom big (mem 3%nat) freeMap (freeMapFile fs) in
  let! '(sector, freeMap) := lift (BitMap.Find freeMap) in
  if sector =? -1 then ret false else
  let! '(added, directory) := lift (Directory.Add directory nm sector) in
  if negb added then ret false else
  let! '(ok, hdr, freeMap) := lift (Allocate (new_FileHeader (mem 4%nat)) freeMap initialSize) in
  if negb ok then ret false else
  FileHeader.WriteBack big hdr sector ;;;
  Directory.WriteBack big (from_mem 5 mem) directory (directoryFile fs) ;;;
  MapFile.WriteBack big (from_mem 8 mem) freeMap (freeMapFile fs) ;;;
  ret true.

Definition Open (big : bool) (mem : nat → nat → Z) (fs : FileSystem) (nm : list Z) : M Disk (option OpenFile) :=
  let! directory := Directory.FetchFrom big (mem 1%nat) (new_Directory big (mem 0%nat) NumDirEntries) (directoryFile fs) in
  let! sector := lift (Directory.Find directory nm) in
  if 0 <=? sector then let! openFile := new_OpenFile big sector in ret (Some openFile)
  else ret None.

Definition Remove (big : bool) (mem : nat → nat → Z) (fs : FileSystem) (nm : list Z) : M Disk bool :=
  let! directory := Directory.FetchFrom big (mem 1%nat) (new_Directory big (mem 0%nat) NumDirEntries) (directoryFile fs) in
  let! sector := lift (Directory.Find directory nm) in
  if sector =? -1 then ret false else
  let! fileHdr := FileHeader.FetchFrom big sector in
  let! freeMap := lift (new_BitMap (mem 2%nat) NumSectors) in
  let! freeMap := MapFile.FetchFrom big (mem 3%nat) freeMap (freeMapFile fs) in
  let! freeMap := lift (Deallocate fileHdr freeMap) in
  let! freeMap := lift (Clear freeMap sector) in
  let! '(_, directory) := lift (Directory.Remove directory nm) in
  MapFile.WriteBack big (from_mem 4 mem) freeMap (freeMapFile fs) ;;;
  Directory.WriteBack big (from_mem 7 mem) directory (directoryFile fs) ;;;
  ret true.

Definition List (big : bool) (mem : nat → nat → Z) (fs : FileSystem) : M Disk (list (list Z)) :=
  let! directory := Directory.FetchFrom big (mem 1%nat) (new_Directory big (mem 0%nat) NumDirEntries) (directoryFile fs) in
  lift (Directory.List big directory).

(** ** What is on the disk *)

Definition header_at (big : bool) (d : Disk) (s : Z) : FileHeader := bytes_header big (disk_sector d s).

(** The sectors an entry stands for: the header of its file and the data. *)
Definition own (big : bool) (d : Disk) (e : DirectoryEntry) : list Z :=
  if inUse e then sector e :: data (header_at big d (sector e)) else [].

Definition map_hdr (fs : FileSystem) : FileHeader := hdr (freeMapFile fs).
Definition dir_hdr (fs : FileSystem) : FileHeader := hdr (directoryFile fs).
Definition sys (fs : FileSystem) : list Z :=
  FreeMapSector :: DirectorySector :: data (map_hdr fs) ++ data (dir_hdr fs).

(** The disk holds the table [t] and the map [b]; every sector has at most one
    owner, and the map has exactly the sectors with an owner. *)
Record FS_ok (big : bool) (fs : FileSystem) (d : Disk) (t : Directory) (b : BitMap) : Prop := {
  ok_disk : disk_ok d;
  ok_map_hdr : header_ok (map_hdr fs) ∧ numBytes (map_hdr fs) = FreeMapFileSize;
  ok_dir_hdr : header_ok (dir_hdr fs) ∧ numBytes (dir_hdr fs) = DirectoryFileSize;
  ok_boot : header_at big d FreeMapSector = map_hdr fs ∧ header_at big d DirectorySector = dir_hdr fs;
  ok_map : contents d (map_hdr fs) = words_bytes big (BitMap.map b);
  ok_dir : contents d (dir_hdr fs) = table_bytes big t;
  ok_wf : wf b ∧ numBits b = NumSectors;
  ok_table : length t = NumDirEntries ∧ Forall entry_wf t;
  ok_keys : keys_distinct t;
  ok_sys : NoDup (sys fs);
  ok_entry : ∀ j e, t !! j = Some e → inUse e = true →
    is_sector (sector e) ∧ header_ok (header_at big d (sector e));
  ok_nodup : ∀ j e, t !! j = Some e → NoDup (own big d e);
  ok_apart : ∀ j e s, t !! j = Some e → s ∈ own big d e → s ∉ sys fs;
  ok_disj : ∀ i j e e' s, t !! i = Some e → t !! j = Some e' → s ∈ own big d e → s ∈ own big d e' → i = j;
  ok_used : ∀ s, is_sector s → used b s = true ↔ s ∈ sys fs ∨ ∃ j e, t !! j = Some e ∧ s ∈ own big d e
}.

Lemma header_frame big d d' s X : same_outside d d' X → is_sector s → s ∉ X →
  header_at big d' s = header_at big d s.
Proof. intros Hsame Hs Hx. unfold header_at. by rewrite Hsame. Qed.

Section facts.
Context (big : bool) (fs : FileSystem) (d : Disk) (t : Directory) (b : BitMap).
Hypothesis Hok : FS_ok big fs d t b.

Lemma sys_sector s : s ∈ sys fs → is_sector s.
Proof.
  pose proof (header_sectors _ (proj1 (ok_map_hdr _ _ _ _ _ Hok))) as Hm.
  pose proof (header_sectors _ (proj1 (ok_dir_hdr _ _ _ _ _ Hok))) as Hd.
  rewrite Forall_forall in Hm, Hd. unfold sys. rewrite !elem_of_cons, elem_of_app.
  intros [->|[->|[?|?]]]; [done|done|by apply Hm|by apply Hd].
Qed.

Lemma own_sector j e s : t !! j = Some e → s ∈ own big d e → is_sector s.
Proof.
  unfold own. intros Hj. destruct (inUse e) eqn:Hu; [|by rewrite elem_of_nil].
  destruct (ok_entry _ _ _ _ _ Hok j e Hj Hu) as [Hs Hh]. rewrite elem_of_cons. intros [->|Hin]; [done|].
  pose proof (header_sectors _ Hh) as Ha. rewrite Forall_forall in Ha. by apply Ha.
Qed.

Lemma own_header j e : t !! j = Some e → inUse e = true → sector e ∈ own big d e.
Proof. intros _ Hu. unfold own. rewrite Hu. by left. Qed.

Lemma own_data j e s : t !! j = Some e → inUse e = true → s ∈ data (header_at big d (sector e)) → s ∈ own big d e.
Proof. intros _ Hu Hs. unfold own. rewrite Hu. by right. Qed.

(** Files keep their sectors when nothing of theirs is written but data. *)
Lemma own_frame d' X j e : same_outside d d' X → t !! j = Some e → (inUse e = true → sector e ∉ X) →
  own big d' e = own big d e.
Proof.
  intros Hsame Hj Hx. unfold own. destruct (inUse e) eqn:Hu; [|done].
  destruct (ok_entry _ _ _ _ _ Hok j e Hj Hu) as [Hs _]. by rewrite (header_frame big d d' _ X) by auto.
Qed.
End facts.

(** ** Formatted disks and writes to files keep [FS_ok] *)

Lemma FS_write big fs d d' t b j e : FS_ok big fs d t b → t !! j = Some e → inUse e = true → disk_ok d' →
  same_outside d d' (data (header_at big d (sector e))) → FS_ok big fs d' t b.
Proof.
  intros Hok Hj Hu Hd' Hsame. set (X := data (header_at big d (sector e))) in *.
  assert (∀ s, s ∈ X → s ∈ own big d e) as HX by (intros s; by eapply own_data).
  assert (∀ s, s ∈ sys fs → s ∉ X) as Hsys.
  { intros s Hs Hx. by eapply (ok_apart _ _ _ _ _ Hok); [exact Hj|apply HX|]. }
  assert (∀ i e', t !! i = Some e' → inUse e' = true → sector e' ∉ X) as Hhdr.
  { intros i e' Hi Hu' Hx. assert (i = j) as ->.
    { eapply (ok_disj _ _ _ _ _ Hok); [exact Hi|exact Hj|by eapply own_header|by apply HX]. }
    simplify_eq. pose proof (ok_nodup _ _ _ _ _ Hok _ _ Hj) as Hnd. unfold own in Hnd. rewrite Hu in Hnd.
    by apply NoDup_cons in Hnd as [? _]. }
  assert (∀ i e', t !! i = Some e' → own big d' e' = own big d e') as Hown.
  { intros i e' Hi. eapply own_frame; [done..|]. by eapply Hhdr. }
  assert (∀ h, header_ok h → (∀ s, s ∈ data h → s ∈ sys fs) → contents d' h = contents d h) as Hc.
  { intros h Hh Hin. by apply (contents_frame _ _ _ X); [..|auto]. }
  assert (∀ s, s ∈ sys fs → header_at big d' s = header_at big d s) as Hat.
  { intros s Hs. eapply header_frame; [done|by eapply sys_sector|by apply Hsys]. }
  destruct Hok as [? Hm Hdir [Hb1 Hb2] Hmap Hdirc ? ? ? ? He Hn Ha Hdis Hus].
  constructor; try done.
  - split; [rewrite Hat|rewrite Hat]; [done|by left|done|by right; left].
  - rewrite Hc; [done|apply Hm|]. intros s Hs. unfold sys. rewrite !elem_of_cons, elem_of_app. auto.
  - rewrite Hc; [done|apply Hdir|]. intros s Hs. unfold sys. rewrite !elem_of_cons, elem_of_app. auto.
  - intros i e' Hi Hu'. destruct (He i e' Hi Hu') as [Hs Hh]. by rewrite (header_frame big d d' _ X) by eauto.
  - intros i e' Hi. rewrite (Hown i e' Hi). eauto.
  - intros i e' s Hi. rewrite (Hown i e' Hi). eauto.
  - intros i i' e1 e2 s Hi Hi'. rewrite (Hown i e1 Hi), (Hown i' e2 Hi'). eauto.
  - intros s Hs. rewrite (Hus s Hs). f_equiv. split; intros (i & e' & Hi & Hin); exists i, e'; [by rewrite (Hown i e' Hi)|].
    split; [done|]. by rewrite <- (Hown i e' Hi).
Qed.

(** ** Writing back a directory with one entry changed, and its map *)

Section commit.
Context (big : bool) (fs : FileSystem) (d d' : Disk) (t : Directory) (b b' : BitMap).
Context (j : nat) (e e' : DirectoryEntry) (X : list Z).
Hypothesis Hok : FS_ok big fs d t b.
Hypothesis Hj : t !! j = Some e.
Hypothesis Hd' : disk_ok d'.
Hypothesis Hsame : same_outside d d' (X ++ data (dir_hdr fs) ++ data (map_hdr fs)).
Hypothesis HX : ∀ s, s ∈ X → s ∉ sys fs ∧ ∀ i e2, t !! i = Some e2 → i ≠ j → s ∉ own big d e2.

Lemma commit_own i e2 : t !! i = Some e2 → i ≠ j → own big d' e2 = own big d e2 ∧
  (inUse e2 = true → header_at big d' (sector e2) = header_at big d (sector e2) ∧
     contents d' (header_at big d (sector e2)) = contents d (header_at big d (sector e2))).
Proof.
  intros Hi Hne.
  assert (∀ s, s ∈ own big d e2 → s ∉ X ++ data (dir_hdr fs) ++ data (map_hdr fs)) as Hout.
  { intros s Hs. pose proof (ok_apart _ _ _ _ _ Hok i e2 s Hi Hs) as Hsys. unfold sys in Hsys.
    rewrite !elem_of_cons, elem_of_app in Hsys. rewrite !elem_of_app. intros [Hx|[?|?]]; [|naive_solver..].
    by apply (proj2 (HX s Hx) i e2). }
  split.
  - eapply own_frame; [done..|]. intros Hu. apply Hout. by eapply own_header.
  - intros Hu. destruct (ok_entry _ _ _ _ _ Hok i e2 Hi Hu) as [Hs Hh]. split.
    + eapply header_frame; [done..|]. apply Hout. by eapply own_header.
    + eapply contents_frame; [done..|]. intros s Hin. apply Hout. by eapply own_data.
Qed.

Lemma commit_boot : header_at big d' FreeMapSector = map_hdr fs ∧ header_at big d' DirectorySector = dir_hdr fs.
Proof.
  pose proof (ok_sys _ _ _ _ _ Hok) as Hnd. unfold sys in Hnd.
  apply NoDup_cons in Hnd as [H0 Hnd]. apply NoDup_cons in Hnd as [H1 _].
  rewrite elem_of_cons, elem_of_app in H0. rewrite elem_of_app in H1.
  destruct (ok_boot _ _ _ _ _ Hok) as [<- <-].
  split; (eapply header_frame; [exact Hsame|done|]); rewrite !elem_of_app; intros [Hx|Hx].
  - apply (proj1 (HX _ Hx)). by left.
  - tauto.
  - apply (proj1 (HX _ Hx)). right. by left.
  - tauto.
Qed.

Lemma FS_commit : let t' := <[j := e']> t in
  contents d' (dir_hdr fs) = table_bytes big t' → contents d' (map_hdr fs) = words_bytes big (BitMap.map b') →
  wf b' → numBits b' = NumSectors → entry_wf e' → keys_distinct t' →
  (inUse e' = true → is_sector (sector e') ∧ header_ok (header_at big d' (sector e'))) →
  NoDup (own big d' e') →
  (∀ s, s ∈ own big d' e' → s ∉ sys fs ∧ ∀ i e2, t !! i = Some e2 → i ≠ j → s ∉ own big d e2) →
  (∀ s, is_sector s → used b' s = true ↔ (used b s = true ∧ s ∉ own big d e) ∨ s ∈ own big d' e') →
  FS_ok big fs d' t' b'.
Proof.
  intros t' Hdir Hmap Hwf Hbits Hewf Hkeys Hent Hnd Hnew Hused.
  pose proof (lookup_lt_Some _ _ _ Hj) as Hlt.
  assert (∀ i e2, t' !! i = Some e2 → (i = j ∧ e2 = e') ∨ (i ≠ j ∧ t !! i = Some e2)) as Ht'.
  { intros i e2. unfold t'. destruct (decide (i = j)) as [->|Hne].
    - rewrite list_lookup_insert_eq by done. intros [= <-]. by left.
    - rewrite list_lookup_insert_ne by done. by right. }
  pose proof commit_own as Hown. pose proof commit_boot as Hboot.
  destruct Hok as [_ Hm Hdh _ _ _ _ [Hl He] _ Hsys Hentry Hn Ha Hdis Hus].
  constructor; try done.
  - unfold t'. rewrite length_insert. split; [done|]. by apply Forall_insert.
  - intros i e2 [[-> ->]|[Hne Hi]]%Ht' Hu; [by apply Hent|]. destruct (Hentry i e2 Hi Hu) as [Hs Hh].
    by rewrite (proj1 (proj2 (Hown i e2 Hi Hne) Hu)).
  - intros i e2 [[-> ->]|[Hne Hi]]%Ht'; [done|]. rewrite (proj1 (Hown i e2 Hi Hne)). eauto.
  - intros i e2 s [[-> ->]|[Hne Hi]]%Ht'; [by apply Hnew|]. rewrite (proj1 (Hown i e2 Hi Hne)). eauto.
  - intros i i' e1 e2 s [[-> ->]|[Hne Hi]]%Ht' [[-> ->]|[Hne' Hi']]%Ht'; [done|..].
    + rewrite (proj1 (Hown i' e2 Hi' Hne')). intros Hs Hs'. by destruct (proj2 (Hnew s Hs) i' e2 Hi' Hne').
    + rewrite (proj1 (Hown i e1 Hi Hne)). intros Hs Hs'. by destruct (proj2 (Hnew s Hs') i e1 Hi Hne).
    + rewrite (proj1 (Hown i e1 Hi Hne)), (proj1 (Hown i' e2 Hi' Hne')). eauto.
  - intros s Hs. rewrite (Hused s Hs), (Hus s Hs). split.
    + intros [[[Hin|(i & e2 & Hi & Hin)] Hold]|Hin]; [by left|right..].
      * assert (i ≠ j) as Hne by (intros ->; by simplify_eq). exists i, e2. unfold t'.
        by rewrite list_lookup_insert_ne, (proj1 (Hown i e2 Hi Hne)).
      * exists j, e'. unfold t'. by rewrite list_lookup_insert_eq.
    + intros [Hin|(i & e2 & [[-> ->]|[Hne Hi]]%Ht' & Hin)]; [left|by right|left].
      * split; [by left|]. intros Ho. by eapply Ha.
      * rewrite (proj1 (Hown i e2 Hi Hne)) in Hin. split; [right; by exists i, e2|]. intros Ho.
        by destruct (Hne (Hdis i j e2 e s Hi Hj Hin Ho)).
Qed.
End commit.

(** ** The abstract file system: a finite map from names to contents *)

Definition in_use (t : Directory) : list DirectoryEntry := filter (λ e, inUse e = true) t.
Definition files (big : bool) (d : Disk) (t : Directory) : gmap (list Z) (list Z) :=
  list_to_map ((λ e, (key (name e), contents d (header_at big d (sector e)))) <$> in_use t).

Definition FS_repr (big : bool) (fs : FileSystem) (d : Disk) (F : gmap (list Z) (list Z)) (free : Z) : Prop :=
  ∃ t b, FS_ok big fs d t b ∧ files big d t = F ∧ free_slots b = free.

Lemma in_use_elem t e : e ∈ in_use t ↔ ∃ j, t !! j = Some e ∧ inUse e = true.
Proof. unfold in_use. rewrite list_elem_of_filter, list_elem_of_lookup. naive_solver. Qed.

Lemma in_use_keys t : keys_distinct t → NoDup (key ∘ name <$> in_use t).
Proof.
  unfold in_use. induction t as [|e t IH]; intros Hk; [constructor|].
  assert (keys_distinct t) as Hkt.
  { intros i j e1 e2 Hi Hj H1 H2 H12. by injection (Hk (S i) (S j) e1 e2 Hi Hj H1 H2 H12). }
  rewrite filter_cons. case_decide as Hu; [|by apply IH]. cbn. apply NoDup_cons. split; [|by apply IH].
  intros (e2 & Hkey & (j & Hj & Hu2)%in_use_elem)%list_elem_of_fmap.
  by specialize (Hk 0%nat (S j) e e2 eq_refl Hj Hu Hu2 Hkey).
Qed.

Section files.
Context (big : bool) (d : Disk) (t : Directory).
Hypothesis Hk : keys_distinct t.

Lemma files_nodup : NoDup ((λ e, (key (name e), contents d (header_at big d (sector e)))) <$> in_use t).*1.
Proof. rewrite <- list_fmap_compose. by apply in_use_keys. Qed.

Lemma files_Some k c : files big d t !! k = Some c ↔
  ∃ j e, t !! j = Some e ∧ inUse e = true ∧ key (name e) = k ∧ contents d (header_at big d (sector e)) = c.
Proof.
  unfold files. rewrite <- elem_of_list_to_map by apply files_nodup. rewrite list_elem_of_fmap. split.
  - intros (e & [= -> ->] & (j & Hj & Hu)%in_use_elem). by exists j, e.
  - intros (j & e & Hj & Hu & <- & <-). exists e. split; [done|]. apply in_use_elem. by exists j.
Qed.

Lemma files_size : size (files big d t) = length (in_use t).
Proof. unfold files. rewrite map_size_list_to_map by apply files_nodup. by rewrite length_fmap. Qed.

Lemma files_named nm j e : named t nm j e → files big d t !! key nm = Some (contents d (header_at big d (sector e))).
Proof. intros (Hj & Hu & <-). apply files_Some. by exists j, e. Qed.

Lemma files_absent nm : absent t nm ↔ files big d t !! key nm = None.
Proof.
  rewrite eq_None_not_Some. split.
  - intros Ha [c (j & e & Hj & Hu & Hke & _)%files_Some]. by apply (Ha j e).
  - intros Hn j e Hj Hu Hke. apply Hn. eexists. rewrite <- Hke. apply files_Some. by exists j, e.
Qed.

Lemma files_full : (∀ j e, t !! j = Some e → inUse e = true) ↔ size (files big d t) = length t.
Proof.
  rewrite files_size. unfold in_use. clear Hk. induction t as [|e t' IH]; [done|].
  rewrite filter_cons. split.
  - intros Ha. rewrite decide_True by (by apply (Ha 0%nat)). cbn. f_equal. apply IH.
    intros j. apply (Ha (S j)).
  - case_decide as Hu; [|cbn; intros Hl; pose proof (length_filter (λ e, inUse e = true) t'); lia].
    cbn. intros [= Hl] [|j] e2; cbn; [by intros [= <-]|]. by apply IH.
Qed.

Lemma files_size_le : (size (files big d t) <= length t)%nat.
Proof. rewrite files_size. apply length_filter. Qed.
End files.

(** ** Reading the directory and the map, and writing them back *)

Lemma fetch_dir big mem mem' fs d t b : FS_ok big fs d t b →
  Directory.FetchFrom big mem (new_Directory big mem' NumDirEntries) (directoryFile fs) d = Done (t, d).
Proof.
  intros Hok. destruct (new_Directory_wf big mem' NumDirEntries) as (Hl & Hwf & _).
  destruct (ok_table _ _ _ _ _ Hok) as [Hlt Hwft].
  apply fetch_table_spec; [apply (ok_disk _ _ _ _ _ Hok)|apply (ok_dir_hdr _ _ _ _ _ Hok)|congruence|done..|].
  apply (ok_dir _ _ _ _ _ Hok).
Qed.

Lemma fetch_map big mem mem' fs d t b : FS_ok big fs d t b →
  ∃ b0, new_BitMap mem NumSectors = Done b0 ∧ MapFile.FetchFrom big mem' b0 (freeMapFile fs) d = Done (b, d).
Proof.
  intros Hok. destruct (new_BitMap_clear mem NumSectors) as (b0 & Hb0 & Hwf0 & Hn0 & _); [done|].
  exists b0. split; [done|]. destruct (ok_wf _ _ _ _ _ Hok) as [Hwf Hn].
  apply fetch_words_spec; [apply (ok_disk _ _ _ _ _ Hok)|apply (ok_map_hdr _ _ _ _ _ Hok)|done|done|congruence|].
  apply (ok_map _ _ _ _ _ Hok).
Qed.

Lemma sys_parts big fs d t b : FS_ok big fs d t b →
  (∀ s, s ∈ data (dir_hdr fs) → s ∉ data (map_hdr fs)) ∧
  (∀ s, s ∈ data (dir_hdr fs) → s ∈ sys fs) ∧ (∀ s, s ∈ data (map_hdr fs) → s ∈ sys fs).
Proof.
  intros Hok. pose proof (ok_sys _ _ _ _ _ Hok) as Hnd. unfold sys in *.
  apply NoDup_cons in Hnd as [_ Hnd]. apply NoDup_cons in Hnd as [_ Hnd]. apply NoDup_app in Hnd as (_ & Hdis & _).
  split_and!; intros s Hs; [intros Hs'; by apply (Hdis s)|rewrite !elem_of_cons, elem_of_app; auto..].
Qed.

(** Both orders the code uses end in the same state. *)
Section flush.
Context (big : bool) (fs : FileSystem) (t' : Directory) (b' : BitMap).
Hypothesis Hmh : header_ok (map_hdr fs) ∧ numBytes (map_hdr fs) = FreeMapFileSize.
Hypothesis Hdh : header_ok (dir_hdr fs) ∧ numBytes (dir_hdr fs) = DirectoryFileSize.
Hypothesis Hdis : ∀ s, s ∈ data (dir_hdr fs) → s ∉ data (map_hdr fs).
Hypothesis Hwf : wf b' ∧ numBits b' = NumSectors.
Hypothesis Ht : length t' = NumDirEntries ∧ Forall entry_wf t'.

(** [d'] is [d1] with the table and the map in their files. *)
Definition flushed (d1 d' : Disk) : Prop :=
  disk_ok d' ∧ contents d' (dir_hdr fs) = table_bytes big t' ∧
  contents d' (map_hdr fs) = words_bytes big (BitMap.map b') ∧
  same_outside d1 d' (data (dir_hdr fs) ++ data (map_hdr fs)).

Lemma flush_sizes : numBytes (dir_hdr fs) = Z.of_nat (length t') * 20 ∧ numBytes (map_hdr fs) = numWords b' * 4.
Proof.
  rewrite (proj2 Hmh), (proj2 Hdh), (proj1 Ht). split; [done|]. destruct Hwf as [[_ -> _ _] Hn]. by rewrite Hn.
Qed.

Lemma flush_dir_first mem mem' d1 : disk_ok d1 → ∃ d', flushed d1 d' ∧ ∀ A (k : M Disk A),
  (Directory.WriteBack big mem t' (directoryFile fs) ;;; MapFile.WriteBack big mem' b' (freeMapFile fs) ;;; k) d1 = k d'.
Proof.
  intros Hd1. destruct flush_sizes as [Hdl Hml].
  destruct (write_table_spec big mem t' d1 (directoryFile fs) Hd1 (proj1 Hdh) (proj2 Ht) Hdl) as (d2 & H2 & Hd2 & Hc2 & Ho2).
  destruct (write_words_spec big mem' b' d2 (freeMapFile fs) Hd2 (proj1 Hmh) (proj1 Hwf) Hml) as (d3 & H3 & Hd3 & Hc3 & Ho3).
  exists d3. split.
  - split_and!; [done| |done|by apply (same_outside_trans _ d2)].
    rewrite <- Hc2. by apply (contents_frame _ _ _ (data (map_hdr fs))); [apply Hdh|..].
  - intros A k. rewrite (bind_Done _ _ _ _ _ H2). cbv beta. by rewrite (bind_Done _ _ _ _ _ H3).
Qed.

Lemma flush_map_first mem mem' d1 : disk_ok d1 → ∃ d', flushed d1 d' ∧ ∀ A (k : M Disk A),
  (MapFile.WriteBack big mem b' (freeMapFile fs) ;;; Directory.WriteBack big mem' t' (directoryFile fs) ;;; k) d1 = k d'.
Proof.
  intros Hd1. destruct flush_sizes as [Hdl Hml].
  destruct (write_words_spec big mem b' d1 (freeMapFile fs) Hd1 (proj1 Hmh) (proj1 Hwf) Hml) as (d2 & H2 & Hd2 & Hc2 & Ho2).
  destruct (write_table_spec big mem' t' d2 (directoryFile fs) Hd2 (proj1 Hdh) (proj2 Ht) Hdl) as (d3 & H3 & Hd3 & Hc3 & Ho3).
  exists d3. split.
  - split_and!; [done|done| |].
    + rewrite <- Hc2. apply (contents_frame _ _ _ (data (dir_hdr fs))); [apply Hmh|done|].
      intros s Hs Hs'. by apply (Hdis s).
    + intros s Hs Hx. rewrite not_elem_of_app in Hx. rewrite Ho3, Ho2; naive_solver.
  - intros A k. rewrite (bind_Done _ _ _ _ _ H2). cbv beta. by rewrite (bind_Done _ _ _ _ _ H3).
Qed.
End flush.

(** ** Create *)

Lemma fresh_free big fs d t b k : FS_ok big fs d t b → is_sector k → used b k = false →
  k ∉ sys fs ∧ ∀ i e, t !! i = Some e → k ∉ own big d e.
Proof.
  intros Hok Hk Hu. pose proof (ok_used _ _ _ _ _ Hok k Hk) as Hus. rewrite Hu in Hus.
  split; [|intros i e Hi]; intros Hin; enough (false = true) by done; apply Hus; [by left|right; by exists i, e].
Qed.

Section created.
Context (big : bool) (fs : FileSystem) (d d' : Disk) (t : Directory) (b b' : BitMap).
Context (j : nat) (e : DirectoryEntry) (nm : list Z) (k : Z) (h : FileHeader).
Hypothesis Hok : FS_ok big fs d t b.
Hypothesis Hj : t !! j = Some e.
Hypothesis Hu : inUse e = false.
Hypothesis Habs : absent t nm.
Hypothesis Hh : header_ok h.
Hypothesis Htook : took b b' (k :: data h).
Hypothesis Hd' : disk_ok d'.
Hypothesis Hsame : same_outside d d' ([k] ++ data (dir_hdr fs) ++ data (map_hdr fs)).
Hypothesis Hat : header_at big d' k = h.

Notation e' := (mkEntry true k (strncpy (name e) nm FileNameMaxLen) (padding e)).
Notation t' := (<[j := e']> t).

Lemma created_fresh s : s ∈ k :: data h → is_sector s ∧ s ∉ sys fs ∧ ∀ i e2, t !! i = Some e2 → s ∉ own big d e2.
Proof.
  intros Hs. pose proof (took_fresh _ _ _ Htook) as Hf. rewrite Forall_forall in Hf.
  destruct (Hf s Hs) as [Hr Huf]. rewrite (proj2 (ok_wf _ _ _ _ _ Hok)) in Hr.
  split; [done|]. by eapply fresh_free.
Qed.

Lemma created_X s : s ∈ [k] → s ∉ sys fs ∧ ∀ i e2, t !! i = Some e2 → i ≠ j → s ∉ own big d e2.
Proof.
  intros ->%list_elem_of_singleton. destruct (created_fresh k) as (_ & ? & ?); [by left|]. eauto.
Qed.

Lemma created_key : entry_wf e → key (name e') = key nm.
Proof. intros [Hn _ _]. by apply key_strncpy. Qed.

Lemma created_lookup i e2 : t' !! i = Some e2 ↔ (i = j ∧ e2 = e') ∨ (i ≠ j ∧ t !! i = Some e2).
Proof.
  pose proof (lookup_lt_Some _ _ _ Hj). destruct (decide (i = j)) as [->|Hne].
  - rewrite list_lookup_insert_eq by done. naive_solver.
  - rewrite list_lookup_insert_ne by done. naive_solver.
Qed.

Lemma created_keys : keys_distinct t'.
Proof.
  destruct (ok_table _ _ _ _ _ Hok) as [_ Hwf]. pose proof (created_key (Forall_lookup_1 _ _ _ _ Hwf Hj)) as Hke.
  pose proof (ok_keys _ _ _ _ _ Hok) as Hk.
  intros i i' e1 e2 [[-> ->]|[Hne Hi]]%created_lookup [[-> ->]|[Hne' Hi']]%created_lookup; [done|..].
  - intros _ Hu2 Hke2. rewrite Hke in Hke2. by destruct (Habs i' e2 Hi' Hu2).
  - intros Hu1 _ Hke2. rewrite Hke in Hke2. by destruct (Habs i e1 Hi Hu1).
  - eauto.
Qed.

Lemma FS_created : contents d' (dir_hdr fs) = table_bytes big t' →
  contents d' (map_hdr fs) = words_bytes big (BitMap.map b') →
  FS_ok big fs d' t' b' ∧ files big d' t' = <[key nm := contents d' h]> (files big d t).
Proof.
  intros Hdir Hmap. destruct (ok_table _ _ _ _ _ Hok) as [_ Hwf].
  pose proof (Forall_lookup_1 _ _ _ _ Hwf Hj) as Hewf. pose proof (created_key Hewf) as Hke.
  pose proof created_keys as Hkeys. destruct (created_fresh k ltac:(by left)) as (Hks & _).
  assert (own big d' e' = k :: data h) as Hown by (unfold own; cbn; by rewrite Hat).
  split.
  - apply (FS_commit big fs d d' t b b' j e e' [k]); try done; [exact created_X|apply (took_wf _ _ _ Htook)|..].
    + rewrite (took_bits _ _ _ Htook). apply (ok_wf _ _ _ _ _ Hok).
    + destruct Hewf. constructor; cbn; [by apply length_strncpy|done|].
      unfold is_sector, is_int, INT_MIN, INT_MAX, NumSectors, SectorsPerTrack, NumTracks in *. lia.
    + cbn. rewrite Hat. done.
    + rewrite Hown. apply (took_nodup _ _ _ Htook).
    + rewrite Hown. intros s Hs. destruct (created_fresh s Hs) as (_ & ? & ?). eauto.
    + intros s Hs. rewrite Hown, (took_used _ _ _ Htook) by (unfold is_sector in Hs; lia).
      rewrite orb_true_iff, bool_decide_eq_true. unfold own at 1. rewrite Hu. rewrite elem_of_nil. tauto.
  - apply map_eq. intros kk. apply option_eq. intros c. rewrite files_Some by done.
    rewrite lookup_insert_Some, files_Some by apply (ok_keys _ _ _ _ _ Hok). split.
    + intros (i & e2 & [[-> ->]|[Hne Hi]]%created_lookup & Hu2 & <- & <-).
      * left. split; [done|]. cbn. by rewrite Hat.
      * right. split; [intros Heq; by apply (Habs i e2 Hi Hu2)|].
        destruct (commit_own big fs d d' t b j [k] Hok Hsame created_X i e2 Hi Hne) as [_ Hc].
        destruct (Hc Hu2) as [Hh2 Hc2]. exists i, e2. by rewrite Hh2.
    + intros [[<- <-]|[Hne (i & e2 & Hi & Hu2 & <- & <-)]].
      * exists j, e'. split; [apply created_lookup; by left|]. split; [done|]. split; [done|]. cbn. by rewrite Hat.
      * assert (i ≠ j) as Hij by (intros ->; congruence).
        destruct (commit_own big fs d d' t b j [k] Hok Hsame created_X i e2 Hi Hij) as [_ Hc].
        destruct (Hc Hu2) as [Hh2 Hc2]. exists i, e2. rewrite Hh2. split_and!; [|done..]. apply created_lookup. by right.
Qed.
End created.

(** The header of a new file, the directory and the map are on disk when
    [Create] returns. *)
Lemma create_flush big fs mem mem' d t b k h t' b' : FS_ok big fs d t b → is_sector k → used b k = false →
  header_ok h → wf b' → numBits b' = NumSectors → length t' = NumDirEntries → Forall entry_wf t' →
  ∃ d', (FileHeader.WriteBack big h k ;;;
         Directory.WriteBack big mem t' (directoryFile fs) ;;;
         MapFile.WriteBack big mem' b' (freeMapFile fs) ;;; ret true) d = Done (true, d') ∧ disk_ok d' ∧
    contents d' (dir_hdr fs) = table_bytes big t' ∧ contents d' (map_hdr fs) = words_bytes big (BitMap.map b') ∧
    same_outside d d' ([k] ++ data (dir_hdr fs) ++ data (map_hdr fs)) ∧ header_at big d' k = h.
Proof.
  intros Hok Hk Huk Hh Hwf Hn Hl Hwft. pose proof (header_ok_fits h Hh) as Hfits.
  destruct (WriteSector_spec d k (header_bytes big h) (ok_disk _ _ _ _ _ Hok) Hk (length_header_bytes big h Hfits))
    as (d1 & H1 & Hd1 & Hk1 & Ho1).
  destruct (flush_dir_first big fs t' b' (ok_map_hdr _ _ _ _ _ Hok) (ok_dir_hdr _ _ _ _ _ Hok)
    (proj1 (sys_parts _ _ _ _ _ Hok)) (conj Hwf Hn) (conj Hl Hwft) mem mem' d1 Hd1) as (d' & (Hd' & Hc1 & Hc2 & Ho2) & H2).
  exists d'. unfold FileHeader.WriteBack. rewrite (bind_Done _ _ _ _ _ H1). cbv beta. rewrite H2. split_and!; [done..| |].
  - eapply (same_outside_trans _ d1); [|done]. intros s Hs Hne. apply Ho1; [done|]. intros ->. apply Hne. by left.
  - unfold header_at. rewrite Ho2, Hk1; [by apply header_roundtrip|done|].
    destruct (fresh_free _ _ _ _ _ k Hok Hk Huk) as [Hsys _]. destruct (sys_parts _ _ _ _ _ Hok) as (_ & Hs1 & Hs2).
    rewrite elem_of_app. naive_solver.
Qed.

(** The end of a [Create] for which there is a free sector, a free entry and
    room for the data. *)
Lemma create_finish big fs mem mem' nm d t b k b1 j e h b2 : FS_ok big fs d t b →
  is_sector k → used b k = false → wf b1 → numBits b1 = numBits b →
  (∀ i, 0 <= i → used b1 i = (i =? k) || used b i) → free_slots b1 = free_slots b - 1 →
  t !! j = Some e → inUse e = false → absent t nm → header_ok h → took b1 b2 (data h) →
  let t' := <[j := mkEntry true k (strncpy (name e) nm FileNameMaxLen) (padding e)]> t in
  ∃ d', (FileHeader.WriteBack big h k ;;; Directory.WriteBack big mem t' (directoryFile fs) ;;;
         MapFile.WriteBack big mem' b2 (freeMapFile fs) ;;; ret true) d = Done (true, d') ∧
    FS_ok big fs d' t' b2 ∧ files big d' t' = <[key nm := contents d' h]> (files big d t).
Proof.
  intros Hok Hks Huk Hwf1 Hn1 Hu1 Hf1 Hj Hu Habs Hh Htook t'. destruct (ok_wf _ _ _ _ _ Hok) as [Hwf Hbits].
  destruct (ok_table _ _ _ _ _ Hok) as [Hlt Hwft]. pose proof (Forall_lookup_1 _ _ _ _ Hwft Hj) as Hewf.
  destruct (create_flush big fs mem mem' d t b k h t' b2 Hok Hks Huk Hh) as (d' & HW & Hd' & Hc1 & Hc2 & Hsame & Hat).
  { apply (took_wf _ _ _ Htook). }
  { rewrite (took_bits _ _ _ Htook). congruence. }
  { unfold t'. by rewrite length_insert. }
  { apply Forall_insert; [done|]. destruct Hewf. constructor; cbn; [by apply length_strncpy|done|].
    unfold is_sector, is_int, INT_MIN, INT_MAX, NumSectors, SectorsPerTrack, NumTracks in *. lia. }
  assert (took b b2 (k :: data h)) as Htook' by (apply (took_cons b b1 b2 k (data h) Hwf1 Hn1); [by rewrite Hbits|assumption..]).
  exists d'. split; [exact HW|].
  exact (FS_created big fs d d' t b b2 j e nm k h Hok Hj Hu Habs Hh Htook' Hd' Hsame Hat Hc1 Hc2).
Qed.

Lemma Create_cases big mem fs nm size d t b : FS_ok big fs d t b → 0 <= size <= MaxFileSize →
  let n := divRoundUp size SectorSize in
  (Create big mem fs nm size d = Done (false, d) ∧
     ((∃ j e, named t nm j e) ∨ (∀ j e, t !! j = Some e → inUse e = true) ∨ free_slots b < 1 + n)) ∨
  (∃ d' t' b' h, Create big mem fs nm size d = Done (true, d') ∧ absent t nm ∧
     (∃ j e, t !! j = Some e ∧ inUse e = false) ∧
     1 + n <= free_slots b ∧ FS_ok big fs d' t' b' ∧ numBytes h = size ∧ header_ok h ∧
     files big d' t' = <[key nm := contents d' h]> (files big d t) ∧ free_slots b' = free_slots b - 1 - n).
Proof.
  intros Hok Hsize n. destruct (ok_wf _ _ _ _ _ Hok) as [Hwf Hbits].
  assert (0 <= n) as Hn0 by (apply divRoundUp_nonneg; [lia|done]).
  unfold Create. rewrite (bind_Done _ _ _ _ _ (fetch_dir big _ _ fs d t b Hok)). cbv beta.
  destruct (FindName_cases t nm) as [[HF Habs]|(j & e & HF & Hnm)]; rewrite HF, (bind_Done _ _ _ _ _ eq_refl); cbv beta.
  2: { left. assert (is_sector (sector e)) as Hs by (by eapply (ok_entry _ _ _ _ _ Hok); [apply Hnm|apply Hnm]).
    unfold is_sector in Hs. rewrite (proj2 (Z.eqb_neq _ _)) by lia. split; [done|]. left. by exists j, e. }
  cbn [negb Z.eqb Pos.eqb].
  destruct (fetch_map big (mem 2%nat) (mem 3%nat) fs d t b Hok) as (b0 & Hb0 & Hfm).
  rewrite Hb0, (bind_Done _ _ _ _ _ eq_refl). cbv beta. rewrite (bind_Done _ _ _ _ _ Hfm). cbv beta.
  destruct (decide (0 < free_slots b)) as [Hfree|Hfull].
  2: { destruct (Find_cases b Hwf) as [[HF2 _]|(k & b1 & HF2 & Hk & Huk & _)].
    - rewrite HF2, (bind_Done _ _ _ _ _ eq_refl). cbv beta iota. left. split; [done|]. right. right. lia.
    - exfalso. pose proof (clear_count_bounds b (Z.to_nat (numBits b)) 0) as Hb. fold (free_slots b) in Hb.
      assert (free_slots b = 0) as H0 by lia. apply free_slots_0 in H0; [|done]. by rewrite H0 in Huk. }
  destruct (Find_free b Hwf Hfree) as (k & b1 & HF2 & Hk & Huk & Hwf1 & Hn1 & Hu1 & Hf1).
  rewrite HF2, (bind_Done _ _ _ _ _ eq_refl). cbv beta iota. rewrite (proj2 (Z.eqb_neq k (-1))) by lia.
  destruct (Add_cases t nm k) as [[HA [Hn|Hallused]]|(j & e & _ & Hj & Hu & HA)]; rewrite HA, (bind_Done _ _ _ _ _ eq_refl); cbv beta iota.
  { left. split; [done|]. by left. }
  { left. split; [done|]. right. by left. }
  cbn [negb].
  destruct (Allocate_spec (new_FileHeader (mem 4%nat)) b1 size Hwf1 ltac:(congruence) (new_FileHeader_fits _) Hsize)
    as (h & b2 & HAl & Hnb & Hcase). fold n in HAl, Hcase.
  rewrite HAl, (bind_Done _ _ _ _ _ eq_refl). cbv beta iota.
  destruct (Z.leb_spec n (free_slots b1)) as [Hle|Hgt]; cbn [negb].
  2: { left. split; [done|]. right. right. lia. }
  destruct Hcase as [Hh Htook]. right.
  rewrite Hbits in Hk.
  destruct (create_finish big fs (from_mem 5 mem) (from_mem 8 mem) nm d t b k b1 j e h b2
    Hok Hk Huk Hwf1 Hn1 Hu1 Hf1 Hj Hu Habs Hh Htook) as (d' & HW & Hok' & Hfiles).
  eexists d', _, b2, h.
  split; [exact HW|]. split; [exact Habs|]. split; [exists j, e; exact (conj Hj Hu)|]. split; [lia|].
  split; [exact Hok'|]. split; [exact Hnb|]. split; [exact Hh|]. split; [exact Hfiles|].
  rewrite (took_free _ _ _ Htook), length_data by done. rewrite (header_count h Hh), Hnb. fold n. lia.
Qed.

(** Sectors a file of [size] bytes takes, with its header. *)
Definition cost (size : Z) : Z := 1 + divRoundUp size SectorSize.

Lemma Create_repr big mem fs nm len d F free : FS_repr big fs d F free → 0 <= len <= MaxFileSize →
  let r := bool_decide (F !! key nm = None ∧ (size F < NumDirEntries)%nat ∧ cost len <= free) in
  ∃ d', Create big mem fs nm len d = Done (r, d') ∧
    if r then ∃ c, Z.of_nat (length c) = len ∧ FS_repr big fs d' (<[key nm := c]> F) (free - cost len)
    else d' = d.
Proof.
  intros (t & b & Hok & HF & Hfree) Hlen r. subst F free.
  pose proof (ok_keys _ _ _ _ _ Hok) as Hk. destruct (ok_table _ _ _ _ _ Hok) as [Hlt _].
  pose proof (files_full big d t Hk) as Hfull. pose proof (files_size_le big d t Hk) as Hle. rewrite Hlt in Hfull, Hle.
  destruct (Create_cases big mem fs nm len d t b Hok Hlen) as [[HC Hwhy]|(d' & t' & b' & h & HC & Habs & Hroom & Hc & Hok' & Hnb & Hh & Hf & Hfr)].
  - assert (r = false) as Hr.
    { apply bool_decide_eq_false_2. intros (Hn & Hsz & Hcost). unfold cost in Hcost. destruct Hwhy as [(j & e & Hnm)|[Ha|Hlt']].
      - by rewrite (files_named big d t Hk nm j e Hnm) in Hn.
      - pose proof (proj1 Hfull Ha). lia.
      - lia. }
    exists d. rewrite Hr. split; [exact HC|reflexivity].
  - assert (r = true) as Hr.
    { apply bool_decide_eq_true_2. split_and!; [by apply files_absent| |exact Hc].
      destruct Hroom as (j & e & Hj & Hu). destruct (decide (size (files big d t) = NumDirEntries)) as [He|]; [|lia].
      pose proof (proj2 Hfull He j e Hj). congruence. }
    exists d'. rewrite Hr. split; [exact HC|]. exists (contents d' h). split.
    + rewrite length_contents; [|exact (ok_disk _ _ _ _ _ Hok')|exact Hh]. rewrite Hnb. lia.
    + exists t', b'. split_and!; [exact Hok'|exact Hf|]. rewrite Hfr. unfold cost. lia.
Qed.

(** ** Open *)

(** [f] is the file that the directory has under [nm]. *)
Definition opened (big : bool) (d : Disk) (t : Directory) (nm : list Z) (f : OpenFile) : Prop :=
  ∃ j e, named t nm j e ∧ hdr f = header_at big d (sector e).

Lemma Open_cases big mem fs nm d t b : FS_ok big fs d t b →
  (Open big mem fs nm d = Done (None, d) ∧ absent t nm) ∨
  (∃ f, Open big mem fs nm d = Done (Some f, d) ∧ opened big d t nm f ∧ seekPosition f = 0).
Proof.
  intros Hok. unfold Open. rewrite (bind_Done _ _ _ _ _ (fetch_dir big _ _ fs d t b Hok)). cbv beta.
  destruct (FindName_cases t nm) as [[HF Habs]|(j & e & HF & Hnm)]; rewrite HF, (bind_Done _ _ _ _ _ eq_refl); cbv beta.
  { by left. }
  right. assert (is_sector (sector e)) as Hs by (by eapply (ok_entry _ _ _ _ _ Hok); apply Hnm).
  rewrite (proj2 (Z.leb_le 0 (sector e))) by (unfold is_sector in Hs; lia).
  unfold new_OpenFile, FileHeader.FetchFrom. rewrite !bind_assoc.
  rewrite (bind_Done _ _ _ _ _ (ReadSector_spec d (sector e) (ok_disk _ _ _ _ _ Hok) Hs)).
  eexists. split; [reflexivity|]. split; [|done]. by exists j, e.
Qed.

Lemma opened_contents big fs d t b nm f : FS_ok big fs d t b → opened big d t nm f →
  header_ok (hdr f) ∧ files big d t !! key nm = Some (contents d (hdr f)).
Proof.
  intros Hok (j & e & Hnm & ->). pose proof (ok_keys _ _ _ _ _ Hok) as Hk. split; [|by eapply files_named].
  by eapply (ok_entry _ _ _ _ _ Hok); apply Hnm.
Qed.

(** ** Writing an open file *)

Lemma write_frame big fs d d' t b j e : FS_ok big fs d t b → t !! j = Some e → inUse e = true → disk_ok d' →
  same_outside d d' (data (header_at big d (sector e))) →
  ∀ i e2, t !! i = Some e2 → inUse e2 = true → header_at big d' (sector e2) = header_at big d (sector e2) ∧
    (i ≠ j → contents d' (header_at big d (sector e2)) = contents d (header_at big d (sector e2))).
Proof.
  intros Hok Hj Hu Hd' Hsame i e2 Hi Hu2.
  destruct (ok_entry _ _ _ _ _ Hok i e2 Hi Hu2) as [Hs2 Hh2]. split.
  - eapply header_frame; [exact Hsame|exact Hs2|]. intros Hin.
    assert (i = j) as ->.
    { eapply (ok_disj _ _ _ _ _ Hok); [exact Hi|exact Hj|by eapply own_header|by eapply own_data]. }
    simplify_eq. pose proof (ok_nodup _ _ _ _ _ Hok _ _ Hj) as Hnd. unfold own in Hnd. rewrite Hu in Hnd.
    by apply NoDup_cons in Hnd as [? _].
  - intros Hne. eapply contents_frame; [exact Hh2|exact Hsame|]. intros s Hs Hin. apply Hne.
    eapply (ok_disj _ _ _ _ _ Hok); [exact Hi|exact Hj|by eapply own_data|by eapply own_data].
Qed.

Lemma WriteAt_FS big fs mem d t b nm f from n pos : FS_ok big fs d t b → opened big d t nm f →
  0 <= pos → pos + n <= INT_MAX → n <= Z.of_nat (length from) →
  let bs := writes (hdr f) from n pos in
  ∃ d', WriteAt mem f from n pos d = Done (Z.of_nat (length bs), d') ∧ FS_ok big fs d' t b ∧ opened big d' t nm f ∧
    contents d' (hdr f) = patch (contents d (hdr f)) (Z.to_nat pos) bs ∧
    files big d' t = <[key nm := contents d' (hdr f)]> (files big d t).
Proof.
  intros Hok Hop Hp Hi Hn bs. destruct (opened_contents _ _ _ _ _ _ _ Hok Hop) as [Hh _].
  destruct (WriteAt_spec mem d f from n pos (ok_disk _ _ _ _ _ Hok) Hh Hp Hi Hn) as (d' & HW & Hd' & Hc & Ho).
  destruct Hop as (j & e & Hnm & Hhdr). destruct Hnm as (Hj & Hu & Hke). rewrite Hhdr in Ho.
  pose proof (write_frame big fs d d' t b j e Hok Hj Hu Hd' Ho) as Hframe.
  pose proof (FS_write big fs d d' t b j e Hok Hj Hu Hd' Ho) as Hok'. pose proof (ok_keys _ _ _ _ _ Hok) as Hk.
  destruct (Hframe j e Hj Hu) as [Hje _].
  exists d'. split; [exact HW|]. split; [exact Hok'|]. split; [|split; [exact Hc|]].
  - exists j, e. by rewrite Hje.
  - apply map_eq. intros kk. apply option_eq. intros c. rewrite files_Some by done.
    rewrite lookup_insert_Some, files_Some by done. split.
    + intros (i & e2 & Hi2 & Hu2 & <- & <-). destruct (Hframe i e2 Hi2 Hu2) as [Hh2 Hc2]. rewrite Hh2.
      destruct (decide (i = j)) as [->|Hne].
      * left. simplify_eq. by rewrite Hhdr.
      * right. split; [|exists i, e2; by rewrite Hc2]. intros Heq. apply Hne. eapply (Hk i j); [done..|congruence].
    + intros [[<- <-]|[Hne (i & e2 & Hi2 & Hu2 & <- & <-)]].
      * exists j, e. by rewrite Hje, Hhdr.
      * destruct (Hframe i e2 Hi2 Hu2) as [Hh2 Hc2]. exists i, e2. rewrite Hh2, Hc2; [done|]. intros ->. congruence.
Qed.

(** ** Remove *)

Section removed.
Context (big : bool) (fs : FileSystem) (d d' : Disk) (t : Directory) (b b' : BitMap).
Context (j : nat) (e : DirectoryEntry).
Hypothesis Hok : FS_ok big fs d t b.
Hypothesis Hj : t !! j = Some e.
Hypothesis Hu : inUse e = true.
Hypothesis Hd' : disk_ok d'.
Hypothesis Hsame : same_outside d d' ([] ++ data (dir_hdr fs) ++ data (map_hdr fs)).
Hypothesis Hgave : gave b b' (own big d e).

Notation t' := (<[j := set_inUse false e]> t).

Lemma removed_lookup i e2 : t' !! i = Some e2 ↔ (i = j ∧ e2 = set_inUse false e) ∨ (i ≠ j ∧ t !! i = Some e2).
Proof.
  pose proof (lookup_lt_Some _ _ _ Hj). destruct (decide (i = j)) as [->|Hne].
  - rewrite list_lookup_insert_eq by done. naive_solver.
  - rewrite list_lookup_insert_ne by done. naive_solver.
Qed.

Lemma removed_keys : keys_distinct t'.
Proof.
  pose proof (ok_keys _ _ _ _ _ Hok) as Hk.
  intros i i' e1 e2 [[-> ->]|[Hne Hi]]%removed_lookup [[-> ->]|[Hne' Hi']]%removed_lookup; cbn; [done..|]. eauto.
Qed.

Lemma removed_X s : s ∈ @nil Z → s ∉ sys fs ∧ ∀ i e2, t !! i = Some e2 → i ≠ j → s ∉ own big d e2.
Proof. by rewrite elem_of_nil. Qed.

Lemma FS_removed : contents d' (dir_hdr fs) = table_bytes big t' →
  contents d' (map_hdr fs) = words_bytes big (BitMap.map b') →
  FS_ok big fs d' t' b' ∧ files big d' t' = base.delete (key (name e)) (files big d t).
Proof.
  intros Hdir Hmap. destruct (ok_table _ _ _ _ _ Hok) as [_ Hwf].
  pose proof (Forall_lookup_1 _ _ _ _ Hwf Hj) as Hewf. pose proof removed_keys as Hkeys.
  assert (own big d' (set_inUse false e) = []) as Hown by done. split.
  - apply (FS_commit big fs d d' t b b' j e (set_inUse false e) []); try done; [exact removed_X|apply (gave_wf _ _ _ Hgave)|..].
    + rewrite (gave_bits _ _ _ Hgave). apply (ok_wf _ _ _ _ _ Hok).
    + destruct Hewf. by constructor.
    + rewrite Hown. constructor.
    + rewrite Hown. intros s. by rewrite elem_of_nil.
    + intros s Hs. rewrite Hown, (gave_used _ _ _ Hgave) by (unfold is_sector in Hs; lia).
      rewrite andb_true_iff, negb_true_iff, bool_decide_eq_false, elem_of_nil. tauto.
  - pose proof (ok_keys _ _ _ _ _ Hok) as Hk. apply map_eq. intros kk. apply option_eq. intros c. rewrite files_Some by done.
    rewrite lookup_delete_Some, files_Some by done. split.
    + intros (i & e2 & [[-> ->]|[Hne Hi]]%removed_lookup & Hu2 & <- & <-); [done|].
      destruct (commit_own big fs d d' t b j [] Hok Hsame removed_X i e2 Hi Hne) as [_ Hc].
      destruct (Hc Hu2) as [Hh2 Hc2]. split; [|exists i, e2; by rewrite Hh2].
      intros Heq. apply Hne. eapply (Hk i j); [done..|congruence].
    + intros [Hne (i & e2 & Hi & Hu2 & <- & <-)].
      assert (i ≠ j) as Hij by (intros ->; congruence).
      destruct (commit_own big fs d d' t b j [] Hok Hsame removed_X i e2 Hi Hij) as [_ Hc].
      destruct (Hc Hu2) as [Hh2 Hc2]. exists i, e2. rewrite Hh2. split_and!; [|done..]. apply removed_lookup. by right.
Qed.
End removed.

(** The data sectors are given back, then the sector of the header. *)
Lemma give_back b b1 h s : gave b b1 (data h) → 0 <= s < numBits b → used b s = true → s ∉ data h →
  ∃ b2, Clear b1 s = Done b2 ∧ gave b b2 (s :: data h).
Proof.
  intros [Hwf Hn Hu Hf] Hs Hus Hnot.
  destruct (Clear_used b1 s Hwf) as (b2 & HC & Hwf2 & Hn2 & Hu2 & Hf2).
  { by rewrite Hn. }
  { rewrite Hu by lia. by rewrite bool_decide_eq_false_2. }
  exists b2. split; [done|]. constructor; [done|congruence| |cbn [length]; lia].
  intros k Hk. rewrite Hu2, Hu by done. destruct (Z.eqb_spec k s) as [->|Hne]; cbn [negb andb].
  - by rewrite (bool_decide_eq_true_2 (s ∈ s :: _)) by (by left).
  - do 2 f_equal. apply bool_decide_ext. rewrite elem_of_cons. naive_solver.
Qed.

(** What [Remove] does to the map of free sectors. *)
Lemma remove_map big fs d t b j e : FS_ok big fs d t b → t !! j = Some e → inUse e = true →
  ∃ b1 b2, Deallocate (header_at big d (sector e)) b = Done b1 ∧ Clear b1 (sector e) = Done b2 ∧
    gave b b2 (own big d e).
Proof.
  intros Hok Hj Hu. destruct (ok_wf _ _ _ _ _ Hok) as [Hwf Hbits].
  destruct (ok_entry _ _ _ _ _ Hok j e Hj Hu) as [Hs Hh].
  assert (∀ s, s ∈ own big d e → 0 <= s < numBits b ∧ used b s = true) as Hused.
  { intros s Hin. pose proof (own_sector _ _ _ _ _ Hok j e s Hj Hin) as Hss. rewrite Hbits. split; [done|].
    apply (ok_used _ _ _ _ _ Hok s Hss). right. by exists j, e. }
  pose proof (ok_nodup _ _ _ _ _ Hok j e Hj) as Hnd. unfold own in Hused, Hnd |- *. rewrite Hu in Hused, Hnd |- *.
  apply NoDup_cons in Hnd as [Hsnot Hnd].
  destruct (Deallocate_spec (header_at big d (sector e)) b Hwf Hh) as (b1 & HD & Hg1).
  { apply Forall_forall. intros s Hin. apply Hused. by right. }
  destruct (Hused (sector e)) as [Hr Hus]; [by left|].
  destruct (give_back b b1 (header_at big d (sector e)) (sector e) Hg1 Hr Hus Hsnot) as (b2 & HC & Hg2).
  by exists b1, b2.
Qed.

Lemma Remove_cases big mem fs nm d t b : FS_ok big fs d t b →
  (Remove big mem fs nm d = Done (false, d) ∧ absent t nm) ∨
  (∃ d' t' b' c, Remove big mem fs nm d = Done (true, d') ∧ FS_ok big fs d' t' b' ∧
     files big d t !! key nm = Some c ∧ files big d' t' = base.delete (key nm) (files big d t) ∧
     free_slots b' = free_slots b + cost (Z.of_nat (length c))).
Proof.
  intros Hok. pose proof (ok_keys _ _ _ _ _ Hok) as Hk. destruct (ok_wf _ _ _ _ _ Hok) as [Hwf Hbits].
  destruct (ok_table _ _ _ _ _ Hok) as [Hlt Hwft].
  unfold Remove. rewrite (bind_Done _ _ _ _ _ (fetch_dir big _ _ fs d t b Hok)). cbv beta.
  destruct (FindName_cases t nm) as [[HF Habs]|(j & e & HF & Hnm)]; rewrite HF, (bind_Done _ _ _ _ _ eq_refl); cbv beta.
  { left. split; [reflexivity|exact Habs]. }
  right. pose proof Hnm as (Hj & Hu & Hke). destruct (ok_entry _ _ _ _ _ Hok j e Hj Hu) as [Hs Hh].
  assert (0 <= sector e) as Hs0 by (unfold is_sector in Hs; lia). rewrite (proj2 (Z.eqb_neq _ _)) by lia.
  unfold FileHeader.FetchFrom. rewrite bind_assoc.
  rewrite (bind_Done _ _ _ _ _ (ReadSector_spec d (sector e) (ok_disk _ _ _ _ _ Hok) Hs)). cbv beta.
  rewrite (bind_Done _ _ _ _ _ eq_refl). cbv beta. fold (header_at big d (sector e)).
  set (h := header_at big d (sector e)) in *.
  destruct (fetch_map big (mem 2%nat) (mem 3%nat) fs d t b Hok) as (b0 & Hb0 & Hfm).
  rewrite Hb0, (bind_Done _ _ _ _ _ eq_refl). cbv beta. rewrite (bind_Done _ _ _ _ _ Hfm). cbv beta.
  destruct (remove_map big fs d t b j e Hok Hj Hu) as (b1 & b2 & HD & HC & Hg2). fold h in HD.
  rewrite HD, (bind_Done _ _ _ _ _ eq_refl). cbv beta. rewrite HC, (bind_Done _ _ _ _ _ eq_refl). cbv beta.
  destruct (RemoveName_cases t nm) as [[_ Habs]|(j' & e' & Hnm' & HR)]; [by destruct (absent_named t nm j e)|].
  destruct (named_unique t nm j j' e e' Hk Hnm Hnm') as [<- <-]. rewrite HR, (bind_Done _ _ _ _ _ eq_refl). cbv beta iota.
  destruct (flush_map_first big fs (<[j := set_inUse false e]> t) b2 (ok_map_hdr _ _ _ _ _ Hok) (ok_dir_hdr _ _ _ _ _ Hok)
    (proj1 (sys_parts _ _ _ _ _ Hok))) with (mem := from_mem 4 mem) (mem' := from_mem 7 mem) (d1 := d)
    as (d' & (Hd' & Hc1 & Hc2 & Hsame) & HW).
  { split; [apply (gave_wf _ _ _ Hg2)|]. rewrite (gave_bits _ _ _ Hg2). exact Hbits. }
  { split; [by rewrite length_insert|]. apply Forall_insert; [done|].
    destruct (Forall_lookup_1 _ _ _ _ Hwft Hj). by constructor. }
  { exact (ok_disk _ _ _ _ _ Hok). }
  destruct (FS_removed big fs d d' t b b2 j e Hok Hj Hu Hd' Hsame Hg2 Hc1 Hc2) as [Hok' Hf].
  exists d', (<[j := set_inUse false e]> t), b2, (contents d h).
  split; [exact (HW bool (ret true))|]. split; [exact Hok'|]. split; [exact (files_named big d t Hk nm j e Hnm)|].
  split; [rewrite <- Hke; exact Hf|]. rewrite (gave_free _ _ _ Hg2). unfold own. rewrite Hu. cbn [length]. fold h.
  rewrite (length_contents d h (ok_disk _ _ _ _ _ Hok) Hh), (length_data h Hh).
  pose proof (header_len h Hh). rewrite Z2Nat.id by lia. unfold cost. rewrite <- (header_count h Hh).
  pose proof (header_count_range h Hh). lia.
Qed.

(** ** Formatting, and mounting a disk again *)

Lemma took_app b b1 b2 l1 l2 : took b b1 l1 → took b1 b2 l2 → took b b2 (l1 ++ l2).
Proof.
  intros [_ Hn1 Hd1 Hf1 Hu1 Hfr1] [Hwf2 Hn2 Hd2 Hf2 Hu2 Hfr2]. rewrite Forall_forall in Hf1, Hf2.
  assert (∀ s, s ∈ l2 → (0 <= s < numBits b ∧ used b s = false) ∧ s ∉ l1) as Hfresh.
  { intros s Hs. destruct (Hf2 s Hs) as [Hr Hu]. rewrite Hn1 in Hr. rewrite Hu1 in Hu by lia.
    apply orb_false_iff in Hu as [Hnot%bool_decide_eq_false Hu]. done. }
  constructor; [done|congruence| | | |rewrite length_app; lia].
  - apply NoDup_app. split_and!; [done| |done]. intros s H1 H2. by apply (Hfresh s H2).
  - apply Forall_app. split; apply Forall_forall; [done|]. intros s Hs. apply (Hfresh s Hs).
  - intros j Hj. rewrite Hu2, Hu1, orb_assoc by done. f_equal. rewrite <- bool_decide_or.
    apply bool_decide_ext. rewrite elem_of_app. tauto.
Qed.

Lemma took_mark b i : wf b → 0 <= i < numBits b → used b i = false → ∃ b', Mark b i = Done b' ∧ took b b' [i].
Proof.
  intros Hwf Hi Hu. destruct (Mark_clear b i Hwf Hi Hu) as (b' & HM & Hwf' & Hn & Hs & Hf).
  exists b'. split; [done|]. eapply took_cons; [exact Hwf'|exact Hn|exact Hi|exact Hu|exact Hs|exact Hf|by apply took_nil].
Qed.

Lemma map_is_sector : is_sector FreeMapSector.
Proof. done. Qed.
Lemma dir_is_sector : is_sector DirectorySector.
Proof. done. Qed.
Lemma map_size_ok : 0 <= FreeMapFileSize <= MaxFileSize.
Proof. done. Qed.
Lemma dir_size_ok : 0 <= DirectoryFileSize <= MaxFileSize.
Proof. done. Qed.

(** The map that formatting makes, and the headers of the two files. *)
Lemma format_map mem mem2 mem3 : ∃ b0 b1 b2 h1 b3 h2 b4,
  new_BitMap mem NumSectors = Done b0 ∧ Mark b0 FreeMapSector = Done b1 ∧ Mark b1 DirectorySector = Done b2 ∧
  Allocate (new_FileHeader mem2) b2 FreeMapFileSize = Done (true, h1, b3) ∧
  Allocate (new_FileHeader mem3) b3 DirectoryFileSize = Done (true, h2, b4) ∧
  header_ok h1 ∧ header_ok h2 ∧ numBytes h1 = FreeMapFileSize ∧ numBytes h2 = DirectoryFileSize ∧
  wf b4 ∧ numBits b4 = NumSectors ∧
  NoDup (FreeMapSector :: DirectorySector :: data h1 ++ data h2) ∧
  (∀ s, is_sector s → used b4 s = true ↔ s ∈ FreeMapSector :: DirectorySector :: data h1 ++ data h2) ∧
  free_slots b4 = NumSectors - 5.
Proof.
  destruct (new_BitMap_clear mem NumSectors) as (b0 & Hb0 & Hwf0 & Hn0 & Hu0); [done|].
  pose proof (free_slots_clear b0 Hwf0 ltac:(rewrite Hn0; exact Hu0)) as Hf0. rewrite Hn0 in Hf0.
  destruct (took_mark b0 FreeMapSector Hwf0) as (b1 & HM1 & Ht1); [rewrite Hn0; exact map_is_sector|exact (Hu0 _ map_is_sector)|].
  destruct (took_mark b1 DirectorySector (took_wf _ _ _ Ht1)) as (b2 & HM2 & Ht2).
  { rewrite (took_bits _ _ _ Ht1), Hn0. exact dir_is_sector. }
  { rewrite (took_used _ _ _ Ht1), (Hu0 _ dir_is_sector) by exact (proj1 dir_is_sector). reflexivity. }
  pose proof (took_free _ _ _ Ht1) as Hf1. pose proof (took_free _ _ _ Ht2) as Hf2. cbn [length] in Hf1, Hf2.
  pose proof (took_bits _ _ _ Ht1) as Hn1. pose proof (took_bits _ _ _ Ht2) as Hn2.
  assert (NumSectors = 1024) as HN by reflexivity.
  destruct (Allocate_spec (new_FileHeader mem2) b2 FreeMapFileSize (took_wf _ _ _ Ht2) ltac:(congruence) (new_FileHeader_fits _) map_size_ok)
    as (h1 & b3 & HA1 & Hl1 & Hc1). change (divRoundUp FreeMapFileSize SectorSize) with 1 in *.
  rewrite (proj2 (Z.leb_le 1 (free_slots b2))) in HA1, Hc1 by lia. destruct Hc1 as [Hh1 Ht3].
  pose proof (took_free _ _ _ Ht3) as Hf3. pose proof (took_bits _ _ _ Ht3) as Hn3.
  rewrite (length_data h1 Hh1), (header_count h1 Hh1), Hl1 in Hf3.
  change (divRoundUp FreeMapFileSize SectorSize) with 1 in Hf3.
  destruct (Allocate_spec (new_FileHeader mem3) b3 DirectoryFileSize (took_wf _ _ _ Ht3) ltac:(congruence) (new_FileHeader_fits _) dir_size_ok)
    as (h2 & b4 & HA2 & Hl2 & Hc2). change (divRoundUp DirectoryFileSize SectorSize) with 2 in *.
  rewrite (proj2 (Z.leb_le 2 (free_slots b3))) in HA2, Hc2 by lia. destruct Hc2 as [Hh2 Ht4].
  pose proof (took_free _ _ _ Ht4) as Hf4. pose proof (took_bits _ _ _ Ht4) as Hn4.
  rewrite (length_data h2 Hh2), (header_count h2 Hh2), Hl2 in Hf4.
  change (divRoundUp DirectoryFileSize SectorSize) with 2 in Hf4.
  pose proof (took_app _ _ _ _ _ Ht1 (took_app _ _ _ _ _ Ht2 (took_app _ _ _ _ _ Ht3 Ht4))) as Ht. cbn [app] in Ht.
  exists b0, b1, b2, h1, b3, h2, b4.
  split; [exact Hb0|]. split; [exact HM1|]. split; [exact HM2|]. split; [exact HA1|]. split; [exact HA2|].
  split; [exact Hh1|]. split; [exact Hh2|]. split; [exact Hl1|]. split; [exact Hl2|].
  split; [exact (took_wf _ _ _ Ht)|]. split; [congruence|]. split; [exact (took_nodup _ _ _ Ht)|]. split; [|lia].
  intros s Hs. rewrite (took_used _ _ _ Ht) by (unfold is_sector in Hs; lia). rewrite Hu0 by exact Hs.
  rewrite orb_false_r. apply bool_decide_eq_true.
Qed.

Lemma new_OpenFile_spec big d s : disk_ok d → is_sector s → new_OpenFile big s d = Done (mkOpenFile (header_at big d s) 0, d).
Proof.
  intros Hd Hs. unfold new_OpenFile, FileHeader.FetchFrom. rewrite !bind_assoc.
  by rewrite (bind_Done _ _ _ _ _ (ReadSector_spec d s Hd Hs)).
Qed.

(** The two headers are written and read back. *)
Lemma boot_headers big d h1 h2 : disk_ok d → header_ok h1 → header_ok h2 →
  ∃ d', disk_ok d' ∧ header_at big d' FreeMapSector = h1 ∧ header_at big d' DirectorySector = h2 ∧
    ∀ A (k : M Disk A), (FileHeader.WriteBack big h1 FreeMapSector ;;; FileHeader.WriteBack big h2 DirectorySector ;;; k) d = k d'.
Proof.
  intros Hd Hh1 Hh2. apply header_ok_fits in Hh1, Hh2.
  destruct (WriteSector_spec d FreeMapSector (header_bytes big h1) Hd map_is_sector (length_header_bytes big h1 Hh1))
    as (d1 & H1 & Hd1 & Hk1 & Ho1).
  destruct (WriteSector_spec d1 DirectorySector (header_bytes big h2) Hd1 dir_is_sector (length_header_bytes big h2 Hh2))
    as (d2 & H2 & Hd2 & Hk2 & Ho2).
  exists d2. split; [exact Hd2|]. split; [|split].
  - unfold header_at. rewrite Ho2, Hk1; [by apply header_roundtrip|exact map_is_sector|discriminate].
  - unfold header_at. rewrite Hk2. by apply header_roundtrip.
  - intros A k. unfold FileHeader.WriteBack. rewrite (bind_Done _ _ _ _ _ H1). cbv beta. by rewrite (bind_Done _ _ _ _ _ H2).
Qed.

Lemma empty_own big d t : Forall (λ e, inUse e = false) t → ∀ j e, t !! j = Some e → inUse e = false ∧ own big d e = [].
Proof. intros Ha j e Hj. pose proof (Forall_lookup_1 _ _ _ _ Ha Hj) as Hu. split; [done|]. unfold own. by rewrite Hu. Qed.

Lemma empty_files big d t : Forall (λ e, inUse e = false) t → files big d t = ∅.
Proof.
  intros Ha. unfold files, in_use. induction Ha as [|e t Hu _ IH]; [done|].
  rewrite filter_cons, decide_False by (by rewrite Hu). exact IH.
Qed.

(** A disk with the two system files and an empty directory. *)
Lemma FS_empty big fs d t b : disk_ok d →
  header_ok (map_hdr fs) ∧ numBytes (map_hdr fs) = FreeMapFileSize →
  header_ok (dir_hdr fs) ∧ numBytes (dir_hdr fs) = DirectoryFileSize →
  header_at big d FreeMapSector = map_hdr fs ∧ header_at big d DirectorySector = dir_hdr fs →
  contents d (map_hdr fs) = words_bytes big (BitMap.map b) → contents d (dir_hdr fs) = table_bytes big t →
  wf b ∧ numBits b = NumSectors → length t = NumDirEntries ∧ Forall entry_wf t →
  Forall (λ e, inUse e = false) t → NoDup (sys fs) → (∀ s, is_sector s → used b s = true ↔ s ∈ sys fs) →
  FS_ok big fs d t b.
Proof.
  intros Hd Hm Hdir Hboot Hcm Hcd Hb Ht Hempty Hnd Hus. pose proof (empty_own big d t Hempty) as Hown.
  constructor; try assumption.
  - intros i j e e' Hi Hj Hu. destruct (Hown i e Hi) as [Hu' _]. congruence.
  - intros j e Hj Hu. destruct (Hown j e Hj) as [Hu' _]. congruence.
  - intros j e Hj. rewrite (proj2 (Hown j e Hj)). constructor.
  - intros j e s Hj. by rewrite (proj2 (Hown j e Hj)), elem_of_nil.
  - intros i j e e' s Hi _. by rewrite (proj2 (Hown i e Hi)), elem_of_nil.
  - intros s Hs. rewrite (Hus s Hs). split; [by left|]. intros [?|(j & e & Hj & Hin)]; [done|].
    by rewrite (proj2 (Hown j e Hj)), elem_of_nil in Hin.
Qed.

Lemma format_repr big mem d : disk_ok d → ∃ fs d', new_FileSystem big mem true d = Done (fs, d') ∧
  FS_repr big fs d' ∅ (NumSectors - 5).
Proof.
  intros Hd.
  destruct (format_map (mem 0%nat) (mem 2%nat) (mem 3%nat))
    as (b0 & b1 & b2 & h1 & b3 & h2 & b4 & Hb0 & HM1 & HM2 & HA1 & HA2 & Hh1 & Hh2 & Hl1 & Hl2 & Hwf & Hn & Hnd & Hus & Hfree).
  destruct (new_Directory_wf big (mem 1%nat) NumDirEntries) as (Hlt & Hwft & Hempty).
  set (t := new_Directory big (mem 1%nat) NumDirEntries) in *.
  destruct (boot_headers big d h1 h2 Hd Hh1 Hh2) as (d1 & Hd1 & Hat1 & Hat2 & HW1).
  set (fs := mkFileSystem (mkOpenFile h1 0) (mkOpenFile h2 0)).
  pose proof Hnd as Hnd'. apply NoDup_cons in Hnd' as [H0 Hnd']. apply NoDup_cons in Hnd' as [H1 Hnd'].
  apply NoDup_app in Hnd' as (_ & Hdis & _). rewrite elem_of_cons, elem_of_app in H0. rewrite elem_of_app in H1.
  destruct (flush_map_first big fs t b4 (conj Hh1 Hl1) (conj Hh2 Hl2)) with
    (mem := from_mem 4 mem) (mem' := from_mem 7 mem) (d1 := d1) as (d' & (Hd' & Hc1 & Hc2 & Hsame) & HW).
  { intros s Hs Hs'. exact (Hdis s Hs' Hs). }
  { exact (conj Hwf Hn). }
  { exact (conj Hlt Hwft). }
  { exact Hd1. }
  exists fs, d'. split.
  - unfold new_FileSystem. rewrite Hb0, (bind_Done _ _ _ _ _ eq_refl). cbv beta zeta.
    rewrite HM1, (bind_Done _ _ _ _ _ eq_refl). cbv beta. rewrite HM2, (bind_Done _ _ _ _ _ eq_refl). cbv beta.
    rewrite HA1, (bind_Done _ _ _ _ _ eq_refl). cbv beta iota. rewrite (bind_Done (ASSERT true) _ d () d eq_refl). cbv beta.
    rewrite HA2, (bind_Done _ _ _ _ _ eq_refl). cbv beta iota. rewrite (bind_Done (ASSERT true) _ d () d eq_refl). cbv beta.
    rewrite HW1, (bind_Done _ _ _ _ _ (new_OpenFile_spec big d1 _ Hd1 map_is_sector)). cbv beta.
    rewrite (bind_Done _ _ _ _ _ (new_OpenFile_spec big d1 _ Hd1 dir_is_sector)). cbv beta.
    rewrite Hat1, Hat2. exact (HW _ (ret fs)).
  - exists t, b4. split; [|split; [exact (empty_files big d' t Hempty)|exact Hfree]].
    apply FS_empty; [exact Hd'|exact (conj Hh1 Hl1)|exact (conj Hh2 Hl2)| |exact Hc2|exact Hc1|exact (conj Hwf Hn)|
      exact (conj Hlt Hwft)|exact Hempty|exact Hnd|exact Hus].
    split.
    + transitivity (header_at big d1 FreeMapSector); [|exact Hat1]. eapply header_frame; [exact Hsame|exact map_is_sector|].
      rewrite elem_of_app. tauto.
    + transitivity (header_at big d1 DirectorySector); [|exact Hat2]. eapply header_frame; [exact Hsame|exact dir_is_sector|].
      rewrite elem_of_app. tauto.
Qed.

(** Opening the two system files of a formatted disk again. *)
Lemma mount_repr big mem fs d F free : FS_repr big fs d F free →
  ∃ fs', new_FileSystem big mem false d = Done (fs', d) ∧ FS_repr big fs' d F free.
Proof.
  intros (t & b & Hok & HF & Hfree). pose proof (ok_disk _ _ _ _ _ Hok) as Hd.
  destruct (ok_boot _ _ _ _ _ Hok) as [H0 H1].
  exists (mkFileSystem (mkOpenFile (map_hdr fs) 0) (mkOpenFile (dir_hdr fs) 0)). split.
  - unfold new_FileSystem. rewrite (bind_Done _ _ _ _ _ (new_OpenFile_spec big d _ Hd map_is_sector)). cbv beta.
    rewrite (bind_Done _ _ _ _ _ (new_OpenFile_spec big d _ Hd dir_is_sector)). rewrite H0, H1. reflexivity.
  - exists t, b. split; [|split; [exact HF|exact Hfree]]. destruct Hok. constructor; assumption.
Qed.

(** ** Histories *)

(** What a program does with the file system; a file is opened, used, closed. *)
Inductive call :=
| CallCreate (nm : list Z) (initialSize : Z)
| CallRemove (nm : list Z)
| CallRead (nm : list Z) (n pos : Z)
| CallWrite (nm from : list Z) (pos : Z)
| CallReboot.

Inductive result :=
| Ok (b : bool)
| Bytes (bs : option (list Z))
| Count (n : option Z).

Definition run_call (big : bool) (mem : nat → nat → Z) (fs : FileSystem) (c : call) : M Disk (result * FileSystem) :=
  match c with
  | CallCreate nm len => let! b := Create big mem fs nm len in ret (Ok b, fs)
  | CallRemove nm => let! b := Remove big mem fs nm in ret (Ok b, fs)
  | CallRead nm n pos =>
      let! f := Open big mem fs nm in
      match f with
      | Some f => let! bs := ReadAt (mem 2%nat) f n pos in ret (Bytes (Some bs), fs)
      | None => ret (Bytes None, fs)
      end
  | CallWrite nm from pos =>
      let! f := Open big mem fs nm in
      match f with
      | Some f => let! n := WriteAt (from_mem 2 mem) f from (Z.of_nat (length from)) pos in ret (Count (Some n), fs)
      | None => ret (Count None, fs)
      end
  | CallReboot => let! fs' := new_FileSystem big mem false in ret (Ok true, fs')
  end.

Fixpoint run_calls (big : bool) (mem : nat → nat → nat → Z) (fs : FileSystem) (cs : list call) : M Disk (list result * FileSystem) :=
  match cs with
  | [] => ret ([], fs)
  | c :: cs' =>
      let! '(r, fs) := run_call big (mem (length cs')) fs c in
      let! '(rs, fs) := run_calls big mem fs cs' in
      ret (r :: rs, fs)
  end.

(** The same calls on a finite map of files and a number of free sectors.  The
    contents of a new file are whatever its sectors held. *)
Definition abs_state : Type := gmap (list Z) (list Z) * Z.

Inductive abs_call : abs_state → call → result → abs_state → Prop :=
| abs_create F free nm len c : F !! key nm = None → (size F < NumDirEntries)%nat → cost len <= free → Z.of_nat (length c) = len →
    abs_call (F, free) (CallCreate nm len) (Ok true) (<[key nm := c]> F, free - cost len)
| abs_create_no F free nm len : ¬ (F !! key nm = None ∧ (size F < NumDirEntries)%nat ∧ cost len <= free) →
    abs_call (F, free) (CallCreate nm len) (Ok false) (F, free)
| abs_remove F free nm c : F !! key nm = Some c →
    abs_call (F, free) (CallRemove nm) (Ok true) (base.delete (key nm) F, free + cost (Z.of_nat (length c)))
| abs_remove_no F free nm : F !! key nm = None → abs_call (F, free) (CallRemove nm) (Ok false) (F, free)
| abs_read F free nm n pos :
    abs_call (F, free) (CallRead nm n pos)
      (Bytes ((λ c, take (Z.to_nat n) (drop (Z.to_nat pos) c)) <$> F !! key nm)) (F, free)
| abs_write F free nm from pos c bs : F !! key nm = Some c → bs = take (length c - Z.to_nat pos) from →
    abs_call (F, free) (CallWrite nm from pos) (Count (Some (Z.of_nat (length bs))))
      (<[key nm := patch c (Z.to_nat pos) bs]> F, free)
| abs_write_no F free nm from pos : F !! key nm = None →
    abs_call (F, free) (CallWrite nm from pos) (Count None) (F, free)
| abs_reboot s : abs_call s CallReboot (Ok true) s.

Inductive abs_calls : abs_state → list call → list result → abs_state → Prop :=
| abs_done s : abs_calls s [] [] s
| abs_cons s c r s1 cs rs s2 : abs_call s c r s1 → abs_calls s1 cs rs s2 → abs_calls s (c :: cs) (r :: rs) s2.

(** The arguments the code is made for: a size a header can describe, a
    position that is not negative, no overflow of [int]. *)
Definition sane (c : call) : Prop :=
  match c with
  | CallCreate _ len => 0 <= len <= MaxFileSize
  | CallRead _ n pos => 0 <= pos ∧ pos + n <= INT_MAX
  | CallWrite _ from pos => 0 <= pos ∧ pos + Z.of_nat (length from) <= INT_MAX
  | CallRemove _ | CallReboot => True
  end.

Lemma run_call_refines big mem fs d F free c : FS_repr big fs d F free → sane c →
  ∃ r fs' d' F' free', run_call big mem fs c d = Done ((r, fs'), d') ∧ FS_repr big fs' d' F' free' ∧
    abs_call (F, free) c r (F', free').
Proof.
  intros Hrepr Hsane. destruct c as [nm len|nm|nm n pos|nm from pos|]; cbn [run_call sane] in *.
  - destruct (Create_repr big mem fs nm len d F free Hrepr Hsane) as (d' & HC & Hcase).
    rewrite (bind_Done _ _ _ _ _ HC). case_bool_decide as Hr.
    + destruct Hcase as (c & Hl & Hrepr'). destruct Hr as (H1 & H2 & H3).
      eexists _, fs, d', _, _. split; [reflexivity|]. split; [exact Hrepr'|]. by apply abs_create.
    + subst d'. eexists _, fs, d, F, free. split; [reflexivity|]. split; [exact Hrepr|]. by apply abs_create_no.
  - destruct Hrepr as (t & b & Hok & HF & Hfree). pose proof (ok_keys _ _ _ _ _ Hok) as Hk. subst F free.
    destruct (Remove_cases big mem fs nm d t b Hok) as [[HR Habs]|(d' & t' & b' & c & HR & Hok' & Hc & Hf & Hfr)];
      rewrite (bind_Done _ _ _ _ _ HR).
    + eexists _, fs, d, _, _. split; [reflexivity|]. split; [exists t, b; split; [assumption|split; reflexivity]|]. by apply abs_remove_no, files_absent.
    + eexists _, fs, d', (files big d' t'), (free_slots b'). split; [reflexivity|].
      split; [exists t', b'; split; [exact Hok'|done]|]. rewrite Hf, Hfr. by apply abs_remove.
  - destruct Hrepr as (t & b & Hok & HF & Hfree). pose proof (ok_keys _ _ _ _ _ Hok) as Hk. subst F free.
    destruct (Open_cases big mem fs nm d t b Hok) as [[HO Habs]|(f & HO & Hop & _)]; rewrite (bind_Done _ _ _ _ _ HO).
    + eexists _, fs, d, _, _. split; [reflexivity|]. split; [exists t, b; split; [assumption|split; reflexivity]|].
      replace (@None (list Z)) with ((λ c, take (Z.to_nat n) (drop (Z.to_nat pos) c)) <$> files big d t !! key nm);
        [apply abs_read|]. by rewrite (proj1 (files_absent big d t Hk nm) Habs).
    + destruct (opened_contents _ _ _ _ _ _ _ Hok Hop) as [Hh Hc].
      rewrite (bind_Done _ _ _ _ _ (ReadAt_spec (mem 2%nat) d f n pos (ok_disk _ _ _ _ _ Hok) Hh (proj1 Hsane) (proj2 Hsane))).
      eexists _, fs, d, _, _. split; [reflexivity|]. split; [exists t, b; split; [assumption|split; reflexivity]|].
      replace (Some (take (Z.to_nat n) (drop (Z.to_nat pos) (contents d (hdr f)))))
        with ((λ c, take (Z.to_nat n) (drop (Z.to_nat pos) c)) <$> files big d t !! key nm) by (by rewrite Hc).
      apply abs_read.
  - destruct Hrepr as (t & b & Hok & HF & Hfree). pose proof (ok_keys _ _ _ _ _ Hok) as Hk. subst F free.
    destruct (Open_cases big mem fs nm d t b Hok) as [[HO Habs]|(f & HO & Hop & _)]; rewrite (bind_Done _ _ _ _ _ HO).
    + eexists _, fs, d, _, _. split; [reflexivity|]. split; [exists t, b; split; [assumption|split; reflexivity]|]. by apply abs_write_no, files_absent.
    + destruct (opened_contents _ _ _ _ _ _ _ Hok Hop) as [Hh Hc].
      destruct (WriteAt_FS big fs (from_mem 2 mem) d t b nm f from (Z.of_nat (length from)) pos Hok Hop (proj1 Hsane) (proj2 Hsane) ltac:(lia))
        as (d' & HW & Hok' & _ & Hc' & Hf).
      rewrite (bind_Done _ _ _ _ _ HW). eexists _, fs, d', _, _. split; [reflexivity|]. split; [exists t, b; split; [assumption|split; reflexivity]|].
      rewrite Hf, Hc'. eapply abs_write; [exact Hc|]. unfold writes.
      rewrite (length_contents _ _ (ok_disk _ _ _ _ _ Hok) Hh). pose proof (header_len _ Hh).
      destruct (decide (length from <= Z.to_nat (numBytes (hdr f)) - Z.to_nat pos)%nat); [rewrite !take_ge by lia; done|].
      f_equal. lia.
  - destruct (mount_repr big mem fs d F free Hrepr) as (fs' & HM & Hrepr'). rewrite (bind_Done _ _ _ _ _ HM).
    eexists _, fs', d, F, free. split; [reflexivity|]. split; [exact Hrepr'|]. apply abs_reboot.
Qed.

Lemma run_calls_refines big mem cs : Forall sane cs → ∀ fs d F free, FS_repr big fs d F free →
  ∃ rs fs' d' F' free', run_calls big mem fs cs d = Done ((rs, fs'), d') ∧ FS_repr big fs' d' F' free' ∧
    abs_calls (F, free) cs rs (F', free').
Proof.
  induction 1 as [|c cs Hc _ IH]; intros fs d F free Hrepr.
  { eexists _, fs, d, F, free. split; [reflexivity|]. split; [exact Hrepr|constructor]. }
  cbn [run_calls].
  destruct (run_call_refines big (mem (length cs)) fs d F free c Hrepr Hc) as (r & fs1 & d1 & F1 & free1 & H1 & Hr1 & Ha1).
  destruct (IH fs1 d1 F1 free1 Hr1) as (rs & fs' & d' & F' & free' & H2 & Hr2 & Ha2).
  rewrite (bind_Done _ _ _ _ _ H1). cbv beta iota. rewrite (bind_Done _ _ _ _ _ H2).
  eexists _, fs', d', F', free'. split; [reflexivity|]. split; [exact Hr2|]. econstructor; [exact Ha1|exact Ha2].
Qed.

(** ** Properties *)

(** [Create] does not compare the size it is given with
    [MaxFileSize].  On a disk with room for it, creating a file of more than
    3840 bytes writes sector numbers over the end of the table in the header
    (and over the memory behind the object) instead of failing. *)
Lemma Create_overruns_header big mem fs nm len d F free : FS_repr big fs d F free → MaxFileSize < len →
  F !! key nm = None → (size F < NumDirEntries)%nat → cost len <= free →
  Create big mem fs nm len d = Fault OutOfRange.
Proof.
  intros (t & b & Hok & HF & Hfree) Hlen Hnone Hsz Hcost. subst F free. unfold cost in Hcost.
  pose proof (ok_keys _ _ _ _ _ Hok) as Hk. destruct (ok_table _ _ _ _ _ Hok) as [Hlt _].
  destruct (ok_wf _ _ _ _ _ Hok) as [Hwf Hbits]. apply files_absent in Hnone; [|done].
  assert (0 <= divRoundUp len SectorSize) as Hn0.
  { assert (MaxFileSize = 3840) as HM by done. apply divRoundUp_nonneg; [lia|done]. }
  unfold Create. rewrite (bind_Done _ _ _ _ _ (fetch_dir big _ _ fs d t b Hok)). cbv beta.
  destruct (FindName_cases t nm) as [[HF Habs]|(j & e & _ & Hnm)]; [|by destruct (absent_named t nm j e)].
  rewrite HF, (bind_Done _ _ _ _ _ eq_refl). cbv beta. cbn [negb Z.eqb Pos.eqb].
  destruct (fetch_map big (mem 2%nat) (mem 3%nat) fs d t b Hok) as (b0 & Hb0 & Hfm).
  rewrite Hb0, (bind_Done _ _ _ _ _ eq_refl). cbv beta. rewrite (bind_Done _ _ _ _ _ Hfm). cbv beta.
  destruct (Find_free b Hwf ltac:(lia)) as (k & b1 & HF2 & Hkr & Huk & Hwf1 & Hn1 & Hu1 & Hf1).
  rewrite HF2, (bind_Done _ _ _ _ _ eq_refl). cbv beta iota. rewrite (proj2 (Z.eqb_neq k (-1))) by lia.
  destruct (Add_cases t nm k) as [[HA [(j & e & Hn)|Hallused]]|(j & e & _ & Hj & Hu & HA)].
  { by destruct (absent_named t nm j e). }
  { pose proof (proj1 (files_full big d t Hk) Hallused). lia. }
  rewrite HA, (bind_Done _ _ _ _ _ eq_refl). cbv beta iota. cbn [negb].
  unfold bind, lift. rewrite (Allocate_overflow (new_FileHeader (mem 4%nat)) b1 len Hwf1 (new_FileHeader_fits _) Hlen); [done|lia].
Qed.

(** C11: on a disk that was just formatted, any sequence of removals,
    restarts, creations of at most MaxFileSize bytes, and reads and writes at a
    position that is not negative and does not overflow an [int], runs without a
    fault, gives the answers a finite map from names (cut at 9 characters) to byte
    arrays would give, with at most 10 files and an exact account of the free
    sectors, and leaves a disk on which no sector belongs to two files and the map
    of free sectors has exactly those that belong to none.  The bound on the size
    is that of the code: a larger creation that the map of files and the free
    sectors would allow writes past the end of the header. *)
Theorem file_system_refines big mem mem' d cs : disk_ok d → Forall sane cs →
  ∃ fs d1 rs fs' d' F free, new_FileSystem big mem true d = Done (fs, d1) ∧
    run_calls big mem' fs cs d1 = Done ((rs, fs'), d') ∧
    abs_calls (∅, NumSectors - 5) cs rs (F, free) ∧ FS_repr big fs' d' F free ∧
    ∀ nm len, MaxFileSize < len → F !! key nm = None → (size F < NumDirEntries)%nat → cost len <= free →
      Create big mem fs' nm len d' = Fault OutOfRange.
Proof.
  intros Hd Hcs. destruct (format_repr big mem d Hd) as (fs & d1 & Hf & Hr).
  destruct (run_calls_refines big mem' cs Hcs fs d1 ∅ (NumSectors - 5) Hr) as (rs & fs' & d' & F & free & Hrun & Hr' & Ha).
  exists fs, d1, rs, fs', d', F, free. split; [exact Hf|]. split; [exact Hrun|]. split; [exact Ha|]. split; [exact Hr'|].
  intros nm len. by apply Create_overruns_header.
Qed.

(** A new disk; a file is written, the machine restarted, the file read and removed. *)
Lemma file_system_refines_witness :
  let cs := [CallCreate [97] 300; CallWrite [97] [1; 2; 3] 127; CallReboot; CallRead [97] 3 127; CallRemove [97]] in
  ∃ d fs d1 rs fs' d' F free, new_Disk false None = Done d ∧ new_FileSystem false (λ _ _, 0) true d = Done (fs, d1) ∧
    run_calls false (λ _ _ _, 0) fs cs d1 = Done ((rs, fs'), d') ∧
    abs_calls (∅, NumSectors - 5) cs rs (F, free) ∧ FS_repr false fs' d' F free.
Proof.
  intros cs. destruct (new_Disk_ok false) as (d & H0 & Hd).
  assert (Forall sane cs) as Hs.
  { repeat (apply Forall_cons; split); try exact I; try (split; vm_compute; discriminate). apply Forall_nil. exact I. }
  destruct (file_system_refines false (λ _ _, 0) (λ _ _ _, 0) d cs Hd Hs)
    as (fs & d1 & rs & fs' & d' & F & free & Hf & Hrun & Ha & Hr & _).
  exists d, fs, d1, rs, fs', d', F, free.
  split; [exact H0|]. split; [exact Hf|]. split; [exact Hrun|]. split; [exact Ha|exact Hr].
Defined.

Lemma Create_overruns_header_witness : ∃ d fs d1, new_Disk false None = Done d ∧
  new_FileSystem false (λ _ _, 0) true d = Done (fs, d1) ∧
  Create false (λ _ _, 0) fs [97] 3841 d1 = Fault OutOfRange.
Proof.
  destruct (new_Disk_ok false) as (d & H0 & Hd). destruct (format_repr false (λ _ _, 0) d Hd) as (fs & d1 & Hf & Hr).
  exists d, fs, d1. split; [exact H0|]. split; [exact Hf|].
  apply (Create_overruns_header false (λ _ _, 0) fs [97] 3841 d1 ∅ (NumSectors - 5) Hr).
  - reflexivity.
  - reflexivity.
  - vm_compute. lia.
  - vm_compute. discriminate.
Defined.
