(* ===== verification/FsTest.v ===== *)
(** * FsTest: filesys/fstest.cc

    [Copy] brings a UNIX file into the Nachos file system and [Print] shows a
    Nachos file, both ten bytes at a time through the position of the open
    file.  [PerformanceTest] writes a file, reads it back and removes it. *)
From S2P Require Import Prelude BitMap Disk FileHeader OpenFile Directory FileSystem.
From stdpp Require Import base list gmap.
From Stdlib Require Import ZArith Lia ZifyBool.

Local Open Scope Z_scope.

Definition TransferSize : nat := 10%nat.

(** [while ((amountRead = fread(...)) > 0) openFile->Write(...)]; [rest] is what
    [fread] has not returned yet. *)
Fixpoint copy_loop (mem : nat → nat → nat → Z) (fuel : nat) (openFile : OpenFile) (rest : list Z) : M Disk OpenFile :=
  match fuel with
  | O => fail OutOfFuel
  | S fuel' =>
      let buffer := take TransferSize rest in
      let amountRead := Z.of_nat (length buffer) in
      if 0 <? amountRead then
        let! '(_, openFile) := Write (mem fuel') openFile buffer amountRead in
        copy_loop mem fuel' openFile (drop TransferSize rest)
      else ret openFile
  end.

(** [fp] is the UNIX file, if it can be opened; the result says whether it was copied. *)
Definition Copy (big : bool) (mem : nat → nat → nat → Z) (fs : FileSystem) (fp : option (list Z)) (to : list Z) : M Disk bool :=
  match fp with
  | None => ret false
  | Some bytes =>
      let fileLength := Z.of_nat (length bytes) in
      let! created := Create big (mem 0%nat) fs to fileLength in
      if negb created then ret false else
      let! openFile := Open big (mem 1%nat) fs to in
      match openFile with
      | None => fail AssertFailed
      | Some openFile => copy_loop (λ k, mem (2 + k)%nat) (S (length bytes)) openFile bytes ;;; ret true
      end
  end.

Fixpoint print_loop (mem : nat → nat → Z) (fuel : nat) (openFile : OpenFile) (printed : list Z) : M Disk (list Z) :=
  match fuel with
  | O => fail OutOfFuel
  | S fuel' =>
      let! '(buffer, openFile) := Read (mem fuel') openFile (Z.of_nat TransferSize) in
      if 0 <? Z.of_nat (length buffer) then print_loop mem fuel' openFile (printed ++ buffer)
      else ret printed
  end.

(** What is printed of the file, if it can be opened. *)
Definition Print (big : bool) (mem : nat → nat → nat → Z) (fs : FileSystem) (name : list Z) : M Disk (option (list Z)) :=
  let! openFile := Open big (mem 0%nat) fs name in
  match openFile with
  | None => ret None
  | Some f => let! printed := print_loop (mem 1%nat) (S (Z.to_nat (Length f))) f [] in ret (Some printed)
  end.

(** ** PerformanceTest *)

(** "TestFile" and "1234567890" *)
Definition FileName : list Z := [84; 101; 115; 116; 70; 105; 108; 101].
Definition Contents : list Z := [49; 50; 51; 52; 53; 54; 55; 56; 57; 48].
Definition ContentSize : Z := 10.

Inductive report := Fine | CantCreate | UnableToOpen | UnableToWrite | UnableToRead | UnableToRemove.

Fixpoint write_loop (mem : nat → nat → nat → Z) (n : nat) (openFile : OpenFile) : M Disk report :=
  match n with
  | O => ret Fine
  | S n' =>
      let! '(numBytes, openFile) := Write (mem n') openFile Contents ContentSize in
      if numBytes <? 10 then ret UnableToWrite else write_loop mem n' openFile
  end.

Definition FileWrite (big : bool) (mem : nat → nat → nat → Z) (fs : FileSystem) : M Disk report :=
  let! created := Create big (mem 0%nat) fs FileName 0 in
  if negb created then ret CantCreate else
  let! openFile := Open big (mem 1%nat) fs FileName in
  match openFile with
  | None => ret UnableToOpen
  | Some f => write_loop (λ k, mem (2 + k)%nat) 5000 f
  end.

Fixpoint read_loop (mem : nat → nat → Z) (n : nat) (openFile : OpenFile) : M Disk report :=
  match n with
  | O => ret Fine
  | S n' =>
      let! '(buffer, openFile) := Read (mem n') openFile ContentSize in
      if (Z.of_nat (length buffer) <? 10) || negb (strncmp_eq buffer Contents 10) then ret UnableToRead
      else read_loop mem n' openFile
  end.

Definition FileRead (big : bool) (mem : nat → nat → nat → Z) (fs : FileSystem) : M Disk report :=
  let! openFile := Open big (mem 0%nat) fs FileName in
  match openFile with
  | None => ret UnableToOpen
  | Some f => read_loop (mem 1%nat) 5000 f
  end.

(** What the test reports, in order. *)
Definition PerformanceTest (big : bool) (mem : nat → nat → nat → nat → Z) (fs : FileSystem) : M Disk (list report) :=
  let! w := FileWrite big (mem 0%nat) fs in
  let! r := FileRead big (mem 1%nat) fs in
  let! removed := Remove big (mem 2%nat 0%nat) fs FileName in
  ret [w; r; if removed then Fine else UnableToRemove].

(** ** Copy and Print *)

Lemma Write_FS big fs mem d t b nm f from : FS_ok big fs d t b → opened big d t nm f → 0 <= seekPosition f →
  seekPosition f + Z.of_nat (length from) <= Z.of_nat (length (contents d (hdr f))) →
  ∃ d', Write mem f from (Z.of_nat (length from)) d
      = Done ((Z.of_nat (length from), mkOpenFile (hdr f) (seekPosition f + Z.of_nat (length from))), d') ∧
    FS_ok big fs d' t b ∧ opened big d' t nm f ∧
    contents d' (hdr f) = patch (contents d (hdr f)) (Z.to_nat (seekPosition f)) from ∧
    files big d' t = <[key nm := contents d' (hdr f)]> (files big d t).
Proof.
  intros Hok Hop Hp Hfit. destruct (opened_contents _ _ _ _ _ _ _ Hok Hop) as [Hh _].
  rewrite (length_contents _ _ (ok_disk _ _ _ _ _ Hok) Hh) in Hfit. pose proof (header_len _ Hh) as HM.
  assert (MaxFileSize = 3840) as HM' by reflexivity.
  destruct (WriteAt_FS big fs mem d t b nm f from (Z.of_nat (length from)) (seekPosition f) Hok Hop Hp) as (d' & HW & Hrest);
    [unfold INT_MAX; lia|lia|].
  unfold writes in HW, Hrest. rewrite take_ge in HW, Hrest by lia.
  exists d'. split; [|exact Hrest]. unfold Write. by rewrite (bind_Done _ _ _ _ _ HW).
Qed.

Lemma copy_loop_spec big fs mem t b nm fuel : ∀ d f pre rest, FS_ok big fs d t b → opened big d t nm f →
  seekPosition f = Z.of_nat (length pre) → length (contents d (hdr f)) = length (pre ++ rest) →
  take (length pre) (contents d (hdr f)) = pre → (length rest < fuel)%nat →
  ∃ f' d', copy_loop mem fuel f rest d = Done (f', d') ∧ FS_ok big fs d' t b ∧
    files big d' t = <[key nm := pre ++ rest]> (files big d t).
Proof.
  induction fuel as [|fuel IH]; intros d f pre rest Hok Hop Hseek Hlen Hpre Hfuel; [lia|]. cbn [copy_loop].
  destruct (opened_contents _ _ _ _ _ _ _ Hok Hop) as [Hh Hc].
  destruct (Z.ltb_spec 0 (Z.of_nat (length (take TransferSize rest)))) as [Hmore|Hend].
  - set (chunk := take TransferSize rest) in *. rewrite length_app in Hlen.
    assert (length chunk <= length rest)%nat as Hcl by (unfold chunk; rewrite length_take; lia).
    destruct (Write_FS big fs (mem fuel) d t b nm f chunk Hok Hop) as (d1 & HW & Hok1 & Hop1 & Hc1 & Hf1); [lia..|].
    rewrite (bind_Done _ _ _ _ _ HW). cbv beta iota.
    assert ((pre ++ chunk) ++ drop TransferSize rest = pre ++ rest) as Hsplit.
    { rewrite <- app_assoc. unfold chunk. by rewrite take_drop. }
    destruct (IH d1 (mkOpenFile (hdr f) (seekPosition f + Z.of_nat (length chunk))) (pre ++ chunk) (drop TransferSize rest) Hok1)
      as (f' & d' & HL & Hok' & Hf').
    { destruct Hop1 as (j & e & Hnm & Hhdr). by exists j, e. }
    { cbn. rewrite length_app. lia. }
    { cbn [hdr]. rewrite Hc1, Hsplit, length_patch, length_app; lia. }
    { cbn [hdr]. rewrite Hc1, Hseek, Nat2Z.id. unfold patch. rewrite Hpre, app_assoc. by rewrite take_app_length. }
    { rewrite length_drop. unfold chunk in Hmore. rewrite length_take in Hmore. unfold TransferSize in *. lia. }
    exists f', d'. split; [exact HL|]. split; [exact Hok'|]. rewrite Hf', Hf1, Hsplit. by rewrite insert_insert_eq.
  - assert (rest = []) as ->.
    { destruct rest; [done|]. cbn in Hend. lia. }
    exists f, d. split; [reflexivity|]. split; [exact Hok|]. rewrite app_nil_r in Hlen |- *.
    rewrite take_ge in Hpre by lia. rewrite <- Hpre. by rewrite insert_id.
Qed.

Lemma print_loop_spec big fs mem d t b nm fuel : FS_ok big fs d t b → ∀ f pre rest, opened big d t nm f →
  contents d (hdr f) = pre ++ rest → seekPosition f = Z.of_nat (length pre) → (length rest < fuel)%nat →
  print_loop mem fuel f pre d = Done (pre ++ rest, d).
Proof.
  intros Hok. induction fuel as [|fuel IH]; intros f pre rest Hop Hc Hseek Hfuel; [lia|]. cbn [print_loop].
  destruct (opened_contents _ _ _ _ _ _ _ Hok Hop) as [Hh _]. pose proof (header_len _ Hh) as HM.
  pose proof (length_contents _ _ (ok_disk _ _ _ _ _ Hok) Hh) as Hl. rewrite Hc, length_app in Hl.
  assert (MaxFileSize = 3840) as HM' by reflexivity.
  unfold Read. rewrite bind_assoc.
  rewrite (bind_Done _ _ _ _ _ (ReadAt_spec (mem fuel) d f (Z.of_nat TransferSize) (seekPosition f)
    (ok_disk _ _ _ _ _ Hok) Hh ltac:(lia) ltac:(unfold INT_MAX, TransferSize; lia))). cbv beta.
  rewrite (bind_Done _ _ _ _ _ eq_refl). cbv beta iota. rewrite Hc, Hseek, !Nat2Z.id, drop_app_length.
  destruct (Z.ltb_spec 0 (Z.of_nat (length (take TransferSize rest)))) as [Hmore|Hend].
  - set (chunk := take TransferSize rest) in *.
    assert ((pre ++ chunk) ++ drop TransferSize rest = pre ++ rest) as Hsplit.
    { rewrite <- app_assoc. unfold chunk. by rewrite take_drop. }
    rewrite <- Hsplit. apply IH.
    + destruct Hop as (j & e & Hnm & Hhdr). by exists j, e.
    + cbn [hdr]. by rewrite Hsplit.
    + cbn. rewrite length_app. lia.
    + rewrite length_drop. unfold chunk in Hmore. rewrite length_take in Hmore. unfold TransferSize in *. lia.
  - assert (rest = []) as -> by (destruct rest; [done|]; cbn in Hend; lia). by rewrite app_nil_r.
Qed.

Lemma Copy_spec big mem fs d F free bytes to : FS_repr big fs d F free → Z.of_nat (length bytes) <= MaxFileSize →
  F !! key to = None → (size F < NumDirEntries)%nat → cost (Z.of_nat (length bytes)) <= free →
  ∃ d', Copy big mem fs (Some bytes) to d = Done (true, d') ∧
    FS_repr big fs d' (<[key to := bytes]> F) (free - cost (Z.of_nat (length bytes))).
Proof.
  intros Hrepr Hlen Hnone Hsz Hcost. unfold Copy.
  destruct (Create_repr big (mem 0%nat) fs to (Z.of_nat (length bytes)) d F free Hrepr ltac:(lia)) as (d1 & HC & Hcase).
  rewrite bool_decide_eq_true_2 in HC, Hcase by done. destruct Hcase as (c & Hcl & t & b & Hok & Hf & Hfree).
  rewrite (bind_Done _ _ _ _ _ HC). cbv beta. cbn [negb].
  assert (files big d1 t !! key to = Some c) as Hto by (by rewrite Hf, lookup_insert_eq).
  destruct (Open_cases big (mem 1%nat) fs to d1 t b Hok) as [[HO Habs]|(f & HO & Hop & Hseek)]; rewrite (bind_Done _ _ _ _ _ HO).
  { apply (files_absent big d1 t (ok_keys _ _ _ _ _ Hok)) in Habs. congruence. }
  destruct (opened_contents _ _ _ _ _ _ _ Hok Hop) as [_ Hcf]. rewrite Hto in Hcf. injection Hcf as Hcf.
  destruct (copy_loop_spec big fs (λ k, mem (2 + k)%nat) t b to (S (length bytes)) d1 f [] bytes Hok Hop)
    as (f' & d' & HL & Hok' & Hf'); [done|cbn; rewrite <- Hcf; lia|done|lia|].
  exists d'. rewrite (bind_Done _ _ _ _ _ HL). split; [reflexivity|]. exists t, b.
  split; [exact Hok'|]. split; [|exact Hfree]. by rewrite Hf', Hf, insert_insert_eq.
Qed.

Lemma Print_spec big mem fs d F free name : FS_repr big fs d F free → Print big mem fs name d = Done (F !! key name, d).
Proof.
  intros (t & b & Hok & HF & _). subst F. unfold Print.
  destruct (Open_cases big (mem 0%nat) fs name d t b Hok) as [[HO Habs]|(f & HO & Hop & Hseek)]; rewrite (bind_Done _ _ _ _ _ HO).
  - by rewrite (proj1 (files_absent big d t (ok_keys _ _ _ _ _ Hok) name) Habs).
  - destruct (opened_contents _ _ _ _ _ _ _ Hok Hop) as [Hh ->].
    rewrite (bind_Done _ _ _ _ _ (print_loop_spec big fs (mem 1%nat) d t b name (S (Z.to_nat (Length f))) Hok f []
      (contents d (hdr f)) Hop eq_refl Hseek ltac:(rewrite (length_contents _ _ (ok_disk _ _ _ _ _ Hok) Hh); unfold Length, FileLength; lia))).
    done.
Qed.

(** An empty file takes no byte and gives none. *)
Lemma write_loop_empty mem n f d : numBytes (hdr f) = 0 → seekPosition f = 0 →
  write_loop mem (S n) f d = Done (UnableToWrite, d).
Proof.
  intros Hn Hs. cbn [write_loop]. unfold Write, WriteAt, FileLength. rewrite Hn, Hs.
  rewrite (Z.leb_refl 0), orb_true_r. reflexivity.
Qed.

Lemma read_loop_empty mem n f d : numBytes (hdr f) = 0 → seekPosition f = 0 →
  read_loop mem (S n) f d = Done (UnableToRead, d).
Proof.
  intros Hn Hs. cbn [read_loop]. unfold Read, ReadAt, FileLength. rewrite Hn, Hs.
  rewrite (Z.leb_refl 0), orb_true_r. reflexivity.
Qed.

(** ** Properties *)

(** A UNIX file copied into the file system, under a new name and
    with room for it, is what is printed of that name afterwards, byte for byte;
    every other file is printed as before, and the copy took one sector for the
    header and one for every 128 bytes begun. *)
Theorem Copy_Print big mem mem' fs d F free bytes to : FS_repr big fs d F free →
  Z.of_nat (length bytes) <= MaxFileSize → F !! key to = None → (size F < NumDirEntries)%nat →
  cost (Z.of_nat (length bytes)) <= free →
  ∃ d', Copy big mem fs (Some bytes) to d = Done (true, d') ∧
    FS_repr big fs d' (<[key to := bytes]> F) (free - cost (Z.of_nat (length bytes))) ∧
    ∀ name, Print big mem' fs name d' = Done (if decide (key name = key to) then Some bytes else F !! key name, d').
Proof.
  intros Hrepr Hlen Hnone Hsz Hcost.
  destruct (Copy_spec big mem fs d F free bytes to Hrepr Hlen Hnone Hsz Hcost) as (d' & HC & Hrepr').
  exists d'. split; [exact HC|]. split; [exact Hrepr'|]. intros name. rewrite (Print_spec _ _ _ _ _ _ name Hrepr').
  case_decide as Hk; [by rewrite Hk, lookup_insert_eq|by rewrite lookup_insert_ne].
Qed.

(** A new disk, formatted, and one file on it. *)
Lemma Copy_Print_witness : ∃ d0 fs d d', new_Disk true None = Done d0 ∧
  new_FileSystem true (λ _ _, 0) true d0 = Done (fs, d) ∧
  Copy true (λ _ _ _, 0) fs (Some Contents) FileName d = Done (true, d') ∧
  Print true (λ _ _ _, 0) fs FileName d' = Done (Some Contents, d').
Proof.
  destruct (new_Disk_ok true) as (d0 & H0 & Hd0).
  destruct (format_repr true (λ _ _, 0) d0 Hd0) as (fs & d & Hf & Hrepr).
  destruct (Copy_Print true (λ _ _ _, 0) (λ _ _ _, 0) fs d ∅ (NumSectors - 5) Contents FileName Hrepr) as (d' & HC & _ & HP).
  - vm_compute. discriminate.
  - reflexivity.
  - vm_compute. lia.
  - vm_compute. discriminate.
  - exists d0, fs, d, d'. split; [exact H0|]. split; [exact Hf|]. split; [exact HC|].
    specialize (HP FileName). destruct (decide _) as [_|Hne]; [exact HP|by destruct Hne].
Defined.

(** The performance test creates its file with
    size 0, and a file never grows: it cannot write the first ten bytes, so it
    cannot read them either, and it ends with the file removed and the file
    system as before. *)
Theorem PerformanceTest_cannot_write big mem fs d F free : FS_repr big fs d F free →
  F !! key FileName = None → (size F < NumDirEntries)%nat → cost 0 <= free →
  ∃ d', PerformanceTest big mem fs d = Done ([UnableToWrite; UnableToRead; Fine], d') ∧ FS_repr big fs d' F free.
Proof.
  intros Hrepr Hnone Hsz Hcost.
  destruct (Create_repr big (mem 0%nat 0%nat) fs FileName 0 d F free Hrepr ltac:(done)) as (d1 & HC & Hcase).
  rewrite bool_decide_eq_true_2 in HC, Hcase by done. destruct Hcase as (c & Hcl & t & b & Hok & Hf & Hfree).
  destruct c; [|cbn in Hcl; lia].
  assert (files big d1 t !! key FileName = Some []) as Hto by (by rewrite Hf, lookup_insert_eq).
  assert (∀ mem', ∃ f, Open big mem' fs FileName d1 = Done (Some f, d1) ∧ numBytes (hdr f) = 0 ∧ seekPosition f = 0) as Hopen.
  { intros mem'. destruct (Open_cases big mem' fs FileName d1 t b Hok) as [[_ Habs]|(f & HO & Hop & Hseek)].
    { apply (files_absent big d1 t (ok_keys _ _ _ _ _ Hok)) in Habs. congruence. }
    destruct (opened_contents _ _ _ _ _ _ _ Hok Hop) as [Hh Hcf]. rewrite Hto in Hcf. injection Hcf as Hcf.
    pose proof (length_contents _ _ (ok_disk _ _ _ _ _ Hok) Hh) as Hl. rewrite <- Hcf in Hl. pose proof (header_len _ Hh).
    exists f. split; [exact HO|]. cbn in Hl. split; [lia|exact Hseek]. }
  assert (FileWrite big (mem 0%nat) fs d = Done (UnableToWrite, d1)) as HW.
  { unfold FileWrite. rewrite (bind_Done _ _ _ _ _ HC). cbv beta. cbn [negb].
    destruct (Hopen (mem 0%nat 1%nat)) as (f & HO & Hn & Hs). rewrite (bind_Done _ _ _ _ _ HO).
    exact (write_loop_empty _ 4999 f d1 Hn Hs). }
  assert (FileRead big (mem 1%nat) fs d1 = Done (UnableToRead, d1)) as HR.
  { unfold FileRead. destruct (Hopen (mem 1%nat 0%nat)) as (f & HO & Hn & Hs). rewrite (bind_Done _ _ _ _ _ HO).
    exact (read_loop_empty _ 4999 f d1 Hn Hs). }
  unfold PerformanceTest. rewrite (bind_Done _ _ _ _ _ HW). cbv beta. rewrite (bind_Done _ _ _ _ _ HR). cbv beta.
  destruct (Remove_cases big (mem 2%nat 0%nat) fs FileName d1 t b Hok) as [[_ Habs]|(d' & t' & b' & c & HRm & Hok' & Hc & Hf' & Hfr)].
  { apply (files_absent big d1 t (ok_keys _ _ _ _ _ Hok)) in Habs. congruence. }
  rewrite (bind_Done _ _ _ _ _ HRm). exists d'. split; [reflexivity|]. exists t', b'. split; [exact Hok'|].
  rewrite Hto in Hc. injection Hc as <-. split.
  - rewrite Hf', Hf, delete_insert_id; done.
  - rewrite Hfr, Hfree. cbn [length]. change (Z.of_nat 0) with 0. lia.
Qed.

Lemma PerformanceTest_cannot_write_witness : ∃ d0 fs d d', new_Disk false None = Done d0 ∧
  new_FileSystem false (λ _ _, 7) true d0 = Done (fs, d) ∧
  PerformanceTest false (λ _ _ _ _, 7) fs d = Done ([UnableToWrite; UnableToRead; Fine], d').
Proof.
  destruct (new_Disk_ok false) as (d0 & H0 & Hd0).
  destruct (format_repr false (λ _ _, 7) d0 Hd0) as (fs & d & Hf & Hrepr).
  destruct (PerformanceTest_cannot_write false (λ _ _ _ _, 7) fs d ∅ (NumSectors - 5) Hrepr) as (d' & HP & _).
  - reflexivity.
  - vm_compute. lia.
  - vm_compute. discriminate.
  - exists d0, fs, d, d'. split; [exact H0|]. split; [exact Hf|exact HP].
Defined.
