(* ===== verification/UserFiles.v ===== *)
(** * UserFiles: the file system calls of user programs

    Create, Open, Write, Read and Close of userprog/exception.cc over the stub
    file system of filesys/filesys.h and filesys/openfile.h, whose files are
    files of the host (machine/sysdep.cc).  A program names an open file by its
    number in the [fileTable] of its address space; 0 and 1 are the console. *)
From S2P Require Import Prelude BitMap HandleTable Translate HostFile Paging UserMem.
From stdpp Require Import functions base list gmap.
From Stdlib Require Import ZArith Lia ZifyBool.

Local Open Scope Z_scope.

Definition ConsoleInput : Z := 0.
Definition ConsoleOutput : Z := 1.
Definition MaxOpenFiles : Z := 256.

(** The stub [OpenFile]: [file] is a descriptor of its own, seen as the name it
    was opened with (no call of this file removes a file). *)
Record OpenFile := mkOpenFile { file : list Z; currentOffset : Z }.

Record Files := mkFiles {
  mem : Mem;
  host : gmap (list Z) (list Z);      (* the files of the host, by name *)
  open_files : gmap nat OpenFile;     (* the [OpenFile] objects, by address *)
  next_address : nat;
  fileTable : nat → Table nat;        (* of each address space *)
  console : list Z;                   (* what was printed *)
  stdin : list Z
}.

Definition with_mem (x : Mem) (s : Files) : Files :=
  mkFiles x (host s) (open_files s) (next_address s) (fileTable s) (console s) (stdin s).
Definition with_host (x : gmap (list Z) (list Z)) (s : Files) : Files :=
  mkFiles (mem s) x (open_files s) (next_address s) (fileTable s) (console s) (stdin s).
Definition with_open (x : gmap nat OpenFile) (n : nat) (s : Files) : Files :=
  mkFiles (mem s) (host s) x n (fileTable s) (console s) (stdin s).
Definition with_table (a : nat) (x : Table nat) (s : Files) : Files :=
  mkFiles (mem s) (host s) (open_files s) (next_address s) (<[a := x]> (fileTable s)) (console s) (stdin s).
Definition with_console (x : list Z) (s : Files) : Files :=
  mkFiles (mem s) (host s) (open_files s) (next_address s) (fileTable s) x (stdin s).
Definition with_stdin (x : list Z) (s : Files) : Files :=
  mkFiles (mem s) (host s) (open_files s) (next_address s) (fileTable s) (console s) x.

Definition on_mem {A} (op : M Mem A) : M Files A := λ s,
  match op (mem s) with Done (a, m) => Done (a, with_mem m s) | Fault f => Fault f end.

(** [currentThread->space] *)
Definition space (s : Files) : nat := currentSpace (vm (mem s)).

(** A kernel buffer up to its first NUL. *)
Fixpoint c_string (buf : list Z) : list Z :=
  match buf with [] => [] | b :: buf' => if b =? 0 then [] else b :: c_string buf' end.

(** [scanf] with [%s]: what it skips, and the word. *)
Definition isspace (c : Z) : bool := (c =? 32) || (9 <=? c) && (c <=? 13).
Fixpoint skip_space (l : list Z) : list Z :=
  match l with c :: l' => if isspace c then skip_space l' else l | [] => [] end.
Fixpoint next_word (l : list Z) : list Z :=
  match l with c :: l' => if isspace c then [] else c :: next_word l' | [] => [] end.

(** [fileTable(MaxOpenFiles)] and the two numbers the constructor of [AddrSpace]
    takes for the console. *)
Definition new_fileTable (memory : nat → Z) (stale : list (option nat)) : outcome (Table nat) :=
  let? t := new_Table memory stale MaxOpenFiles in
  let? r := Put t None in
  let? r := Put r.2 None in
  Done r.2.

Section files.
Context (big_endian USEFIFO : bool) (rand : nat → Z) (fuel : nat).
(** Names the host does not let the kernel open or create. *)
Context (refused : list Z → bool).
(** What [new char[]] finds in memory. *)
Context (garbage : list Z).

(** ** The stub file system *)

(** [O_CREAT | O_TRUNC] *)
Definition OpenForWrite (name : list Z) : M Files unit :=
  ASSERT (negb (refused name)) ;;; modify (λ s, with_host (<[name := []]> (host s)) s).

Definition OpenForReadWrite (name : list Z) : M Files bool :=
  let! s := get in ret (negb (refused name) && bool_decide (is_Some (host s !! name))).

Definition FileSystem_Create (name : list Z) : M Files bool := OpenForWrite name ;;; ret true.

Definition FileSystem_Open (name : list Z) : M Files (option nat) :=
  let! ok := OpenForReadWrite name in
  if negb ok then ret None
  else
    let! s := get in
    put (with_open (<[next_address s := mkOpenFile name 0]> (open_files s)) (S (next_address s)) s) ;;;
    ret (Some (next_address s)).

Definition get_open (p : nat) : M Files OpenFile :=
  let! s := get in
  match open_files s !! p with Some f => ret f | None => fail NullDeref end.

(** [OpenFile::Read]: the bytes read; the implicit offset moves past them. *)
Definition OpenFile_Read (p : nat) (numBytes : Z) : M Files (list Z) :=
  let! f := get_open p in
  let! s := get in
  let! bs := lift (ReadAt (default [] (host s !! file f)) numBytes (currentOffset f)) in
  put (with_open (<[p := mkOpenFile (file f) (s32 (currentOffset f + Z.of_nat (length bs)))]> (open_files s))
    (next_address s) s) ;;;
  ret bs.

Definition OpenFile_Write (p : nat) (from : list Z) : M Files Z :=
  let! f := get_open p in
  let! s := get in
  let! text := lift (WriteAt (default [] (host s !! file f)) from (currentOffset f)) in
  put (with_open (<[p := mkOpenFile (file f) (s32 (currentOffset f + Z.of_nat (length from)))]> (open_files s))
    (next_address s) (with_host (<[file f := text]> (host s)) s)) ;;;
  ret (Z.of_nat (length from)).

(** [delete f] *)
Definition delete_open (p : nat) : M Files unit :=
  let! f := get_open p in
  modify (λ s, with_open (base.delete p (open_files s)) (next_address s) s).

(** ** The calls *)

(** [new char[n]] *)
Definition new_char (n : Z) : M Files unit := if n <? 0 then fail LengthError else ret ().

Definition Files_copyin (vaddr len : Z) : M Files (Z * list Z) :=
  on_mem (copyin big_endian USEFIFO rand fuel vaddr len).
Definition Files_copyout (vaddr len : Z) (buf : list Z) : M Files Z :=
  on_mem (copyout big_endian USEFIFO rand vaddr len buf).

Definition Create_Syscall (vaddr len : Z) : M Files unit :=
  new_char (s32 (len + 1)) ;;;
  let! r := Files_copyin vaddr len in
  if r.1 =? -1 then ret ()
  else let! _b := FileSystem_Create (c_string r.2) in ret ().

Definition Open_Syscall (vaddr len : Z) : M Files Z :=
  new_char (s32 (len + 1)) ;;;
  let! r := Files_copyin vaddr len in
  if r.1 =? -1 then ret (-1)
  else
    let! f := FileSystem_Open (c_string r.2) in
    match f with
    | None => ret (-1)
    | Some p =>
        let! s := get in
        let! id := lift (Put (fileTable s (space s)) (Some p)) in
        put (with_table (space s) id.2 s) ;;;
        (if id.1 =? -1 then delete_open p else ret ()) ;;;
        ret id.1
    end.

Definition Write_Syscall (vaddr len id : Z) : M Files unit :=
  if id =? ConsoleInput then ret ()
  else
    new_char len ;;;
    let! r := Files_copyin vaddr len in
    if r.1 =? -1 then ret ()
    else if id =? ConsoleOutput then modify (λ s, with_console (console s ++ r.2) s)
    else
      let! s := get in
      let! f := lift (Get (fileTable s (space s)) id) in
      match f with
      | Some p => let! _n := OpenFile_Write p r.2 in ret ()
      | None => ret ()
      end.

(** A word from the keyboard goes into the buffer with a NUL, whatever its
    length; then the whole buffer is copied. *)
Definition Read_console (vaddr len : Z) : M Files Z :=
  let! s := get in
  let input := skip_space (stdin s) in
  let word := next_word input in
  let buf := take (Z.to_nat len) (garbage ++ replicate (Z.to_nat len) 0) in
  put (with_stdin (drop (length word) input) s) ;;;
  (if bool_decide (word = []) then let! _r := Files_copyout vaddr len buf in ret ()
   else if len <? Z.of_nat (length word) + 1 then fail OutOfRange
   else let! _r := Files_copyout vaddr len (word ++ 0 :: drop (S (length word)) buf) in ret ()) ;;;
  ret len.

Definition Read_Syscall (vaddr len id : Z) : M Files Z :=
  if id =? ConsoleOutput then ret (-1)
  else
    new_char len ;;;
    if id =? ConsoleInput then Read_console vaddr len
    else
      let! s := get in
      let! f := lift (Get (fileTable s (space s)) id) in
      match f with
      | Some p =>
          let! buf := OpenFile_Read p len in
          let n := Z.of_nat (length buf) in
          (if 0 <? n then let! _r := Files_copyout vaddr n buf in ret () else ret ()) ;;;
          ret n
      | None => ret (-1)
      end.

Definition Close_Syscall (fd : Z) : M Files unit :=
  let! s := get in
  let! r := lift (Remove (fileTable s (space s)) fd) in
  put (with_table (space s) r.2 s) ;;;
  match r.1 with Some p => delete_open p | None => ret () end.

(** ** What the calls do *)

Lemma s32_nonneg z : 0 <= z < 2 ^ 31 → s32 z = z.
Proof. intros Hz. unfold s32, u32. rewrite Z.mod_small by lia. by rewrite (proj2 (Z.ltb_lt _ _)) by lia. Qed.

Lemma wp_on_mem {A} E (op : M Mem A) Q s : wp E op (λ a m, Q a (with_mem m s)) (mem s) → wp E (on_mem op) Q s.
Proof. unfold wp, on_mem. by destruct (op (mem s)) as [[a m]|f]. Qed.

Lemma wp_new_char E n Q s : 0 <= n → Q () s → wp E (new_char n) Q s.
Proof. intros Hn HQ. unfold new_char. rewrite (proj2 (Z.ltb_ge n 0)) by done. exact HQ. Qed.

Lemma wp_get_open E p f Q s : open_files s !! p = Some f → Q f s → wp E (get_open p) Q s.
Proof. intros Hp HQ. unfold get_open. apply wp_bind, wp_get. rewrite Hp. exact HQ. Qed.

(** Open file [p] is behind number [id] of the running program. *)
Record opened (s : Files) (id : Z) (p : nat) (f : OpenFile) : Prop := {
  op_table : table_ok (fileTable s (space s));
  op_slot : slot (fileTable s (space s)) id = Some (Some p);
  op_file : open_files s !! p = Some f;
  op_id : id ≠ ConsoleInput ∧ id ≠ ConsoleOutput
}.

Lemma wp_opened E s id p f (Q : option nat → Files → Prop) : opened s id p f → Q (Some p) s →
  wp E (let! s := get in lift (Get (fileTable s (space s)) id)) Q s.
Proof.
  intros [Ht Hs _ _] HQ. apply wp_bind, wp_get. apply (wp_lift _ (Some p)); [|done].
  rewrite (Get_spec _ _ Ht). by rewrite Hs.
Qed.

(** What Write leaves behind: the bytes are in the file, at the offset. *)
Record written_to (s : Files) (p : nat) (f : OpenFile) (bytes text : list Z) (s' : Files) : Prop := {
  wt_text : WriteAt (default [] (host s !! file f)) bytes (currentOffset f) = Done text;
  wt_host : host s' = <[file f := text]> (host s);
  wt_open : open_files s' = <[p := mkOpenFile (file f) (s32 (currentOffset f + Z.of_nat (length bytes)))]> (open_files s);
  wt_table : fileTable s' = fileTable s;
  wt_mem : after_copy (mem s) (mem s')
}.

Lemma Write_spec s id p f vaddr bytes : (1 <= fuel)%nat → (∀ n, 0 <= rand n) → um_ok (mem s) → bytes_at (mem s) vaddr bytes → opened s id p f →
  0 <= currentOffset f →
  wp halts (Write_Syscall vaddr (Z.of_nat (length bytes)) id) (λ _ s', ∃ text, written_to s p f bytes text s') s.
Proof.
  intros Hfuel Hrand Hok Hb Ho Hoff. pose proof Ho as [Ht Hs Hf [Hi0 Hi1]]. unfold Write_Syscall.
  rewrite (proj2 (Z.eqb_neq _ _) Hi0), (proj2 (Z.eqb_neq _ _) Hi1). apply wp_bind, wp_new_char; [lia|].
  apply wp_bind, wp_on_mem. eapply wp_mono; [by apply copyin_wp|]. cbn. intros r m [-> Ha].
  cbn [fst snd]. rewrite (proj2 (Z.eqb_neq (Z.of_nat (length bytes)) (-1))) by lia. apply wp_bind, wp_get, wp_bind.
  assert (space (with_mem m s) = space s) as Hsp by (unfold space; cbn; apply Ha).
  apply (wp_lift _ (Some p)). { rewrite Hsp, (Get_spec _ _ Ht). by rewrite Hs. }
  apply wp_bind. unfold OpenFile_Write. apply wp_bind, (wp_get_open _ p f); [done|]. apply wp_bind, wp_get.
  destruct (host_write_spec (default [] (host s !! file f)) bytes (currentOffset f) Hoff) as (text & HW & _).
  apply wp_bind, (wp_lift _ text); [done|]. apply wp_bind, wp_put, wp_ret, wp_ret. exists text. by constructor.
Qed.

(** Read into pages that are in the TLB. *)
Lemma Read_spec s id p f vaddr len bytes : um_ok (mem s) → opened s id p f → 0 <= len →
  ReadAt (default [] (host s !! file f)) len (currentOffset f) = Done bytes → Forall byte bytes →
  0 <= vaddr → vaddr + Z.of_nat (length bytes) <= 2 ^ 32 →
  (∀ i, (i < length bytes)%nat → writable (mem s) (page (vaddr + Z.of_nat i))) →
  ∃ s', Read_Syscall vaddr len id s = Done (Z.of_nat (length bytes), s') ∧
    copied (mem s) vaddr (length bytes) (mem s') ∧ bytes_at (mem s') vaddr bytes ∧
    open_files s' = <[p := mkOpenFile (file f) (s32 (currentOffset f + Z.of_nat (length bytes)))]> (open_files s) ∧
    host s' = host s ∧ fileTable s' = fileTable s.
Proof.
  intros Hok [Ht Hs Hf [Hi0 Hi1]] Hlen HR Hby H0 Hn Hw.
  destruct (copyout_hit big_endian USEFIFO rand bytes (mem s) vaddr Hby Hok H0 Hn Hw) as (m & HC & Hcp & Hb).
  unfold Read_Syscall, new_char, OpenFile_Read, get_open, Files_copyout, bind, get, put, lift, ret.
  rewrite (proj2 (Z.eqb_neq _ _) Hi0), (proj2 (Z.eqb_neq _ _) Hi1), (proj2 (Z.ltb_ge len 0)) by lia.
  rewrite (Get_spec _ _ Ht), Hs. change (default None (Some (Some p))) with (Some p). cbv beta iota. rewrite Hf. cbv beta iota. rewrite HR. cbv beta iota zeta. cbn [fst snd].
  destruct (Z.ltb_spec 0 (Z.of_nat (length bytes))) as [Hpos|Hpos].
  - unfold on_mem. cbn [with_open mem]. rewrite HC. eexists. split; [reflexivity|]. done.
  - destruct bytes; [|cbn in Hpos; lia]. cbn in HC. injection HC as <-. eexists. split; [reflexivity|].
    split; [cbn; by constructor|]. split; [by intros i b Hi|]. done.
Qed.

(** Read into a page that is not in the TLB. *)
Lemma Read_miss_spec s id p f vaddr len b bytes : (∀ n, 0 <= rand n) → um_ok (mem s) → opened s id p f → 0 <= len →
  ReadAt (default [] (host s !! file f)) len (currentOffset f) = Done (b :: bytes) →
  ¬ mapped (mem s) (page vaddr) → backed (mem s) (page vaddr) →
  wp halts (Read_Syscall vaddr len id) (λ n s', n = Z.of_nat (length (b :: bytes)) ∧
    after_copy (mem s) (mem s') ∧ mapped (mem s') (page vaddr) ∧ host s' = host s ∧ fileTable s' = fileTable s ∧
    open_files s' = <[p := mkOpenFile (file f) (s32 (currentOffset f + Z.of_nat (length (b :: bytes))))]> (open_files s)) s.
Proof.
  intros Hrand Hok [Ht Hs Hf [Hi0 Hi1]] Hlen HR Hm Hb. unfold Read_Syscall.
  rewrite (proj2 (Z.eqb_neq _ _) Hi1). apply wp_bind, wp_new_char; [done|]. rewrite (proj2 (Z.eqb_neq _ _) Hi0).
  apply wp_bind, wp_get, wp_bind, (wp_lift _ (Some p)). { rewrite (Get_spec _ _ Ht). by rewrite Hs. }
  apply wp_bind. unfold OpenFile_Read. apply wp_bind, (wp_get_open _ p f); [done|]. apply wp_bind, wp_get.
  apply wp_bind, (wp_lift _ (b :: bytes)); [done|]. apply wp_bind, wp_put, wp_ret. cbv zeta.
  rewrite (proj2 (Z.ltb_lt _ _)) by (cbn; lia). apply wp_bind, wp_bind, wp_on_mem. cbn [with_open mem].
  eapply wp_mono; [by apply copyout_miss|]. cbn. intros _ m (_ & Ha & Hm1). apply wp_ret, wp_ret. done.
Qed.

(** A file that exists is opened under the least number that is free. *)
Lemma Open_spec s vaddr buf text : (1 <= fuel)%nat → (∀ n, 0 <= rand n) → um_ok (mem s) → bytes_at (mem s) vaddr buf →
  Z.of_nat (length buf) < 2 ^ 31 - 1 → table_ok (fileTable s (space s)) → refused (c_string buf) = false →
  host s !! c_string buf = Some text →
  wp halts (Open_Syscall vaddr (Z.of_nat (length buf))) (λ id s', after_copy (mem s) (mem s') ∧
    host s' = host s ∧ console s' = console s ∧ table_ok (fileTable s' (space s')) ∧
    ((id = -1 ∧ (∀ i, 0 <= i < tsize (fileTable s (space s)) → is_Some (slot (fileTable s (space s)) i))) ∨
     (0 <= id < tsize (fileTable s (space s)) ∧ slot (fileTable s (space s)) id = None ∧
      (∀ j, 0 <= j < id → is_Some (slot (fileTable s (space s)) j)) ∧
      slot (fileTable s' (space s')) id = Some (Some (next_address s)) ∧
      open_files s' !! next_address s = Some (mkOpenFile (c_string buf) 0)))) s.
Proof.
  intros Hfuel Hrand Hok Hb Hlen Ht Hr Htext. unfold Open_Syscall.
  apply wp_bind, wp_new_char. { rewrite s32_nonneg; lia. }
  apply wp_bind, wp_on_mem. eapply wp_mono; [by apply copyin_wp|]. cbn. intros r m [-> Ha]. cbn [fst snd].
  rewrite (proj2 (Z.eqb_neq (Z.of_nat (length buf)) (-1))) by lia.
  assert (space (with_mem m s) = space s) as Hsp by (unfold space; cbn; apply Ha).
  apply wp_bind. unfold FileSystem_Open, OpenForReadWrite. apply wp_bind, wp_bind, wp_get, wp_ret.
  cbn [host with_mem]. rewrite Hr, Htext. cbn [negb andb]. rewrite bool_decide_eq_true_2 by done. cbn [negb].
  apply wp_bind, wp_get, wp_bind, wp_put, wp_ret. cbn [next_address with_mem with_open open_files].
  set (s1 := with_open _ _ _). apply wp_bind, wp_get. assert (space s1 = space s) as Hsp1 by exact Hsp.
  rewrite Hsp1. assert (fileTable s1 = fileTable s) as Hft by done. rewrite Hft.
  destruct (Put_spec (fileTable s (space s)) (Some (next_address s)) Ht)
    as [[HP Hall]|(k & t' & HP & Hk & Hn & Hlt & Ht' & _ & Hsl)];
    apply wp_bind, (wp_lift _ _ _ _ _ HP); cbn [fst snd]; apply wp_bind, wp_put.
  - cbn [Z.eqb Pos.eqb]. apply wp_bind. unfold delete_open. apply wp_bind.
    eapply wp_get_open; [cbn; by rewrite lookup_insert_eq|]. apply wp_modify, wp_ret. cbn. split; [done|].
    split; [done|]. split; [done|]. split; [|by left].
    change (table_ok ((<[space s := fileTable s (space s)]> (fileTable s)) (space (with_mem m s)))).
    by rewrite Hsp, fn_lookup_insert.
  - rewrite (proj2 (Z.eqb_neq k (-1))) by lia. apply wp_bind, wp_ret, wp_ret.
    cbn [mem host console with_table with_open with_mem s1 open_files]. split; [done|].
    split; [done|]. split; [done|].
    change (space (with_table (space s) t' s1)) with (space s1). rewrite Hsp1.
    cbn [fileTable with_table]. rewrite fn_lookup_insert. split; [done|]. right.
    split; [done|]. split; [done|]. split; [done|]. split; [by rewrite Hsl, decide_True|by rewrite lookup_insert_eq].
Qed.
End files.

Lemma new_fileTable_spec memory stale : Z.of_nat (length stale) = MaxOpenFiles → ∃ t,
  new_fileTable memory stale = Done t ∧ table_ok t ∧ tsize t = MaxOpenFiles ∧
  ∀ j, slot t j = if decide (j = ConsoleInput ∨ j = ConsoleOutput) then Some None else None.
Proof.
  intros Hl. destruct (new_Table_ok memory stale MaxOpenFiles ltac:(done) Hl) as (t0 & H0 & Hok0 & Hs0 & Hn0).
  unfold new_fileTable. rewrite H0. cbn [obind]. clear H0.
  destruct (Put_spec t0 None Hok0) as [[_ Hall]|(k & t1 & H1 & Hk & _ & Hlt & Hok1 & Hs1 & Hsl1)].
  { destruct (Hall 0) as [? Ha]; [rewrite Hs0; done|]. by rewrite Hn0 in Ha. }
  rewrite H1. cbn [obind snd]. clear H1.
  assert (k = 0) as ->. { destruct (decide (k = 0)); [done|]. destruct (Hlt 0) as [? Ha]; [lia|]. by rewrite Hn0 in Ha. }
  destruct (Put_spec t1 None Hok1) as [[_ Hall]|(k & t2 & H2 & Hk2 & Hn2 & Hlt2 & Hok2 & Hs2 & Hsl2)].
  { destruct (Hall 1) as [? Ha]; [rewrite Hs1, Hs0; done|]. rewrite Hsl1, decide_False in Ha by lia. by rewrite Hn0 in Ha. }
  rewrite H2. cbn [obind snd].
  assert (k = 1) as ->.
  { rewrite Hsl1 in Hn2. destruct (decide (k = 0)); [done|]. destruct (decide (k = 1)); [done|].
    destruct (Hlt2 1) as [? Ha]; [lia|]. rewrite Hsl1, decide_False in Ha by lia. by rewrite Hn0 in Ha. }
  exists t2. split; [done|]. split; [done|]. split; [congruence|]. intros j. rewrite Hsl2, Hsl1, Hn0.
  unfold ConsoleInput, ConsoleOutput. repeat case_decide; lia || done.
Qed.

(** ** Concrete runs *)

(** A process with the file of two bytes' name at address 130, open twice. *)
Definition ex_name : list Z := [170; 171].
Definition ex_fresh : outcome (Table nat) := new_fileTable (λ _, 0) (replicate 256 None).
Definition ex_start (t : Table nat) : Files :=
  mkFiles (mkMem (example_vm 130) 0) {[ex_name := [1; 2; 3; 4; 5; 6; 7; 8]]}
    {[0%nat := mkOpenFile ex_name 0; 1%nat := mkOpenFile ex_name 0]} 2 (λ _, t) [] [].
Definition ex_table : outcome (Table nat) :=
  let? t := ex_fresh in let? r := Put t (Some 0%nat) in let? r := Put r.2 (Some 1%nat) in Done r.2.
Definition ex_files : Files := match ex_table with Done t => ex_start t | Fault _ => ex_start (mkTable (mkBitMap 0 0 []) [] 0) end.

Definition ex_write : M Files unit := Write_Syscall false true (λ _, 0) 1 130 4 2.
Definition ex_written : Files := match ex_write ex_files with Done (_, s) => s | Fault _ => ex_files end.
Definition ex_read : M Files Z := Read_Syscall false true (λ _, 0) [] 132 4 2.
Definition ex_lost : Files := match ex_read ex_files with Done (_, s) => s | Fault _ => ex_files end.

Lemma ex_write_Done : ex_write ex_files = Done ((), ex_written).
Proof.
  assert (match ex_write ex_files with Done _ => true | Fault _ => false end = true) as H by (vm_compute; reflexivity).
  unfold ex_written. destruct (ex_write ex_files) as [[[] s]|f]; [reflexivity|discriminate H].
Qed.
Lemma ex_read_Done : ex_read ex_files = Done (4, ex_lost).
Proof.
  assert (match ex_read ex_files with Done (n, _) => n | Fault _ => 0 end = 4) as H by (vm_compute; reflexivity).
  unfold ex_lost. destruct (ex_read ex_files) as [[n s]|f]; [by rewrite H|discriminate H].
Qed.

Lemma example_ok t : um_ok (mem (ex_start t)).
Proof.
  split; [exact (example_vm_inv 130)|]. split; [reflexivity|]. exists 0. split; [reflexivity|lia].
Qed.

Lemma example_bytes t n : (n <= 126)%nat → bytes_at (mem (ex_start t)) 130 (take n (drop 170 example_file)).
Proof.
  intros Hn i b Hi. apply lookup_take_Some in Hi as [Hi Hlt]. rewrite lookup_drop in Hi.
  assert (u32 (130 + Z.of_nat i) = 130 + Z.of_nat i) as Hu by (apply Z.mod_small; lia).
  exists (take 128 (drop 168 example_file)). unfold page. rewrite Hu. unfold PageSize, SectorSize.
  assert ((130 + Z.of_nat i) / 128 = 1) as -> by (symmetry; apply Z.div_unique with (2 + Z.of_nat i); lia).
  assert ((130 + Z.of_nat i) mod 128 = 2 + Z.of_nat i) as -> by (symmetry; apply Z.mod_unique with 1; lia).
  split; [exact (example_content 130)|]. rewrite lookup_take_lt, lookup_drop by lia.
  rewrite <- Hi. f_equal. lia.
Qed.

Lemma ex_files_start : ∃ t, ex_table = Done t ∧ ex_files = ex_start t.
Proof.
  assert (match ex_table with Done _ => true | Fault _ => false end = true) as H by (vm_compute; reflexivity).
  unfold ex_files. destruct ex_table as [t|f]; [by exists t|discriminate H].
Qed.

Lemma example_unmapped t addr : ¬ mapped (mem (ex_start t)) (page addr).
Proof.
  intros (p & x & Hh). destruct (hit_entry _ (example_vm_inv 130) _ _ _ Hh) as (j & _ & Hj & Hv & _).
  exact (example_no_hit 130 j x Hj Hv).
Qed.

(** After the write the page is in the first entry of the TLB. *)
Lemma ex_written_writable i : (i < 4)%nat → writable (mem ex_written) (page (132 + Z.of_nat i)).
Proof.
  intros Hi. assert (page (132 + Z.of_nat i) = 1) as ->.
  { destruct i as [|[|[|[|i]]]]; [reflexivity..|lia]. }
  set (t := match tlb (machine (vm (mem ex_written))) with Some t => t | None => [] end).
  assert (tlb (machine (vm (mem ex_written))) = Some t) as Ht by (vm_compute; reflexivity).
  exists (InTLB (Z.of_nat 0)), (default blank (t !! 0%nat)). split; [|vm_compute; reflexivity].
  apply (hit_tlb _ _ t 0); [exact Ht|vm_compute; reflexivity..|]. intros j e Hj. lia.
Qed.

Definition ex_new : Files := match ex_fresh with Done t => ex_start t | Fault _ => ex_files end.
Lemma ex_new_start : ∃ t, ex_fresh = Done t ∧ ex_new = ex_start t.
Proof.
  assert (match ex_fresh with Done _ => true | Fault _ => false end = true) as H by (vm_compute; reflexivity).
  unfold ex_new. destruct ex_fresh as [t|f]; [by exists t|discriminate H].
Qed.
Lemma ex_open s1 : Close_Syscall 0 ex_new = Done ((), s1) → ∃ id s2,
  Open_Syscall false true (λ _, 0) 1 (λ _, false) 130 2 s1 = Done (id, s2).
Proof.
  intros H.
  assert (match Close_Syscall 0 ex_new with
    | Done (_, s) => match Open_Syscall false true (λ _, 0) 1 (λ _, false) 130 2 s with Done _ => true | Fault _ => false end
    | Fault _ => false end = true) as Hb by (vm_compute; reflexivity).
  rewrite H in Hb. destruct (Open_Syscall false true (λ _, 0) 1 (λ _, false) 130 2 s1) as [[id s2]|f]; [by exists id, s2|discriminate Hb].
Qed.

(** The first two files are opened as 2 and 3. *)
Lemma first_numbers (t : Table nat) p q : table_ok t → tsize t = MaxOpenFiles →
  (∀ j, slot t j = if decide (j = ConsoleInput ∨ j = ConsoleOutput) then Some None else None) →
  ∃ t1 t2, Put t (Some p) = Done (2, t1) ∧ Put t1 (Some q) = Done (3, t2) ∧ table_ok t2 ∧
    slot t2 2 = Some (Some p) ∧ slot t2 3 = Some (Some q).
Proof.
  intros Hok Hs Hsl.
  assert (∀ j, slot t j = None ↔ j ≠ 0 ∧ j ≠ 1) as Hfree.
  { intros j. rewrite Hsl. unfold ConsoleInput, ConsoleOutput. case_decide; naive_solver lia. }
  destruct (Put_spec t (Some p) Hok) as [[_ Hall]|(k & t1 & H1 & Hk & Hn & Hlt & Hok1 & Hs1 & Hsl1)].
  { destruct (Hall 2) as [? Ha]; [by rewrite Hs|]. by rewrite Hsl in Ha. }
  assert (k = 2) as ->.
  { apply Hfree in Hn. destruct (decide (k = 2)); [done|]. destruct (Hlt 2) as [? Ha]; [lia|]. by rewrite Hsl in Ha. }
  destruct (Put_spec t1 (Some q) Hok1) as [[_ Hall]|(k & t2 & H2 & Hk2 & Hn2 & Hlt2 & Hok2 & Hs2 & Hsl2)].
  { destruct (Hall 3) as [? Ha]; [by rewrite Hs1, Hs|]. by rewrite Hsl1, Hsl in Ha. }
  assert (k = 3) as ->.
  { rewrite Hsl1 in Hn2. destruct (decide (k = 2)); [done|]. apply Hfree in Hn2.
    destruct (decide (k = 3)); [done|]. destruct (Hlt2 3) as [? Ha]; [lia|]. by rewrite Hsl1, Hsl in Ha. }
  exists t1, t2. by rewrite !Hsl2, Hsl1.
Qed.

Lemma ex_opened id p : (id = 2 ∧ p = 0%nat) ∨ (id = 3 ∧ p = 1%nat) → opened ex_files id p (mkOpenFile ex_name 0).
Proof.
  intros H. destruct (new_fileTable_spec (λ _, 0) (replicate 256 None) eq_refl) as (t & Ht & Hok & Hs & Hsl).
  destruct (first_numbers t 0%nat 1%nat Hok Hs Hsl) as (t1 & t2 & H1 & H2 & Hok2 & Hsl2 & Hsl3).
  destruct ex_files_start as (t' & Ht' & He). unfold ex_table, ex_fresh in Ht'. rewrite Ht in Ht'. cbn [obind] in Ht'.
  rewrite H1 in Ht'. cbn [obind snd] in Ht'. rewrite H2 in Ht'. cbn [obind snd] in Ht'. injection Ht' as <-.
  clear Ht H1 H2. rewrite He. constructor; [exact Hok2| | |].
  - change (slot t2 id = Some (Some p)). destruct H as [[-> ->]|[-> ->]]; [exact Hsl2|exact Hsl3].
  - destruct H as [[-> ->]|[-> ->]]; reflexivity.
  - unfold ConsoleInput, ConsoleOutput. destruct H as [[-> _]|[-> _]]; split; discriminate.
Qed.

Lemma ex_written_opened : opened ex_written 3 1%nat (mkOpenFile ex_name 0).
Proof.
  destruct ex_files_start as (t & _ & He).
  assert (um_ok (mem ex_files)) as Hok by (rewrite He; exact (example_ok t)).
  assert (bytes_at (mem ex_files) 130 [170; 171; 172; 173]) as Hb.
  { rewrite He. exact (example_bytes t 4 ltac:(lia)). }
  pose proof (ex_opened 2 0%nat (or_introl (conj eq_refl eq_refl))) as Ho.
  assert (wp halts ex_write (λ _ s', ∃ text, written_to ex_files 0%nat (mkOpenFile ex_name 0) [170; 171; 172; 173] text s') ex_files) as Hw.
  { exact (Write_spec false true (λ _, 0) 1 ex_files 2 0%nat _ 130 _ (le_n 1) (λ _, Z.le_refl 0) Hok Hb Ho (Z.le_refl 0)). }
  destruct (wp_done _ _ _ _ _ _ Hw ex_write_Done) as (text & [_ _ Hop Hft Ha]).
  assert (space ex_written = space ex_files) as Hsp by exact (ac_space _ _ Ha).
  destruct (ex_opened 3 1%nat (or_intror (conj eq_refl eq_refl))) as [Ht Hs Hf Hid].
  constructor; [rewrite Hsp, Hft; exact Ht|rewrite Hsp, Hft; exact Hs| |exact Hid].
  rewrite Hop, lookup_insert_ne by discriminate. exact Hf.
Qed.

#[local] Opaque ex_files ex_written ex_lost ex_new.

(** ** Properties *)

(** C8: Write copies the bytes of the program, wherever their
    pages are (it only stops when the swap file is full), changes no page and no
    other file, and puts them into the file at the offset of the open file, which
    moves past them; from then on Read at that offset, by this or any other open
    file of the same name, gives the same bytes back, when the pages it copies
    them to are in the TLB. *)
Theorem Write_Read_roundtrip big_endian USEFIFO rand fuel garbage s id p f vaddr bytes :
  (1 <= fuel)%nat → (∀ n, 0 <= rand n) → um_ok (mem s) → bytes_at (mem s) vaddr bytes → opened s id p f →
  0 <= currentOffset f →
  wp halts (Write_Syscall big_endian USEFIFO rand fuel vaddr (Z.of_nat (length bytes)) id) (λ _ s',
    um_ok (mem s') ∧ keeps_content (vm (mem s)) (vm (mem s')) ∧
    (∀ name, name ≠ file f → host s' !! name = host s !! name) ∧
    open_files s' !! p = Some (mkOpenFile (file f) (s32 (currentOffset f + Z.of_nat (length bytes)))) ∧
    ∀ id' q g vaddr', opened s' id' q g → file g = file f → currentOffset g = currentOffset f → 0 <= vaddr' →
      vaddr' + Z.of_nat (length bytes) <= 2 ^ 32 →
      (∀ i, (i < length bytes)%nat → writable (mem s') (page (vaddr' + Z.of_nat i))) →
      ∃ s'', Read_Syscall big_endian USEFIFO rand garbage vaddr' (Z.of_nat (length bytes)) id' s' =
        Done (Z.of_nat (length bytes), s'') ∧ bytes_at (mem s'') vaddr' bytes) s.
Proof.
  intros Hfuel Hrand Hok Hb Ho Hoff. eapply wp_mono; [by apply (Write_spec big_endian USEFIFO rand fuel s id p f)|].
  intros [] s' (text & [HW Hh Hop Hft Ha]). split_and!; [apply Ha|apply Ha| | |].
  - intros name Hne. by rewrite Hh, lookup_insert_ne.
  - by rewrite Hop, lookup_insert_eq.
  - intros id' q g vaddr' Ho' Hfile Hgo H0 Hn Hw.
    assert (Forall byte bytes) as Hby.
    { apply Forall_lookup. intros i b Hi. by eapply (byte_at_byte (mem s)), Hb. }
    destruct (Read_spec big_endian USEFIFO rand garbage s' id' q g vaddr' (Z.of_nat (length bytes)) bytes)
      as (s'' & HR & _ & Hb' & _); [apply Ha|done|lia| |done|done|done|done|by exists s''].
    rewrite Hfile, Hgo, Hh, lookup_insert_eq. cbn. by eapply host_write_read.
Qed.

Lemma Write_Read_roundtrip_witness : ∃ s'', ex_write ex_files = Done ((), ex_written) ∧
  Read_Syscall false true (λ _, 0) [] 132 4 3 ex_written = Done (4, s'') ∧ bytes_at (mem s'') 132 [170; 171; 172; 173].
Proof.
  destruct ex_files_start as (t & _ & He).
  assert (um_ok (mem ex_files)) as Hok by (rewrite He; exact (example_ok t)).
  assert (bytes_at (mem ex_files) 130 [170; 171; 172; 173]) as Hb.
  { rewrite He. exact (example_bytes t 4 ltac:(lia)). }
  pose proof ex_write_Done as HD. unfold ex_write in HD.
  destruct (wp_done _ _ _ _ _ _ (Write_Read_roundtrip false true (λ _, 0) 1 [] ex_files 2 0%nat (mkOpenFile ex_name 0) 130
    [170; 171; 172; 173] (le_n 1) (λ _, Z.le_refl 0) Hok Hb (ex_opened 2 0%nat (or_introl (conj eq_refl eq_refl)))
    (Z.le_refl 0)) HD) as (_ & _ & _ & _ & Hread).
  destruct (Hread 3 1%nat (mkOpenFile ex_name 0) 132) as (s'' & HR & Hb'').
  - exact ex_written_opened.
  - reflexivity.
  - reflexivity.
  - lia.
  - cbn. lia.
  - exact ex_written_writable.
  - exists s''. split; [exact ex_write_Done|]. split; [exact HR|exact Hb''].
Defined.

(** C37: Read into a page that is not in the TLB answers that it has
    read the bytes, and the offset of the open file moves past them, but none is
    stored: every page of every program is as before.  (The page is now in the
    TLB, so a second Read stores what follows.) *)
Theorem Read_loses_data big_endian USEFIFO rand garbage s id p f vaddr len b bytes :
  (∀ n, 0 <= rand n) → um_ok (mem s) → opened s id p f → 0 <= len →
  ReadAt (default [] (host s !! file f)) len (currentOffset f) = Done (b :: bytes) →
  ¬ mapped (mem s) (page vaddr) → backed (mem s) (page vaddr) →
  wp halts (Read_Syscall big_endian USEFIFO rand garbage vaddr len id) (λ n s',
    n = Z.of_nat (length (b :: bytes)) ∧ keeps_content (vm (mem s)) (vm (mem s')) ∧
    open_files s' !! p = Some (mkOpenFile (file f) (s32 (currentOffset f + n))) ∧
    mapped (mem s') (page vaddr)) s.
Proof.
  intros Hrand Hok Ho Hlen HR Hm Hb.
  eapply wp_mono; [by apply (Read_miss_spec big_endian USEFIFO rand garbage s id p f vaddr len b bytes)|].
  intros n s' (-> & Ha & Hm' & _ & _ & Hop). split_and!; [done|apply Ha| |done]. by rewrite Hop, lookup_insert_eq.
Qed.

Lemma Read_loses_data_witness : ex_read ex_files = Done (4, ex_lost) ∧
  keeps_content (vm (mem ex_files)) (vm (mem ex_lost)) ∧ open_files ex_lost !! 0%nat = Some (mkOpenFile ex_name 4).
Proof.
  split; [exact ex_read_Done|]. destruct ex_files_start as (t & _ & He).
  assert (um_ok (mem ex_files)) as Hok by (rewrite He; exact (example_ok t)).
  assert (ReadAt (default [] (host ex_files !! ex_name)) 4 0 = Done [1; 2; 3; 4]) as HR by (vm_compute; reflexivity).
  assert (¬ mapped (mem ex_files) (page 132)) as Hm by (rewrite He; exact (example_unmapped t 132)).
  assert (backed (mem ex_files) (page 132)) as Hbk by (rewrite He; exact (example_offset 130)).
  pose proof (Read_loses_data false true (λ _, 0) [] ex_files 2 0%nat (mkOpenFile ex_name 0) 132 4 1 [2; 3; 4]
    (λ _, Z.le_refl 0) Hok (ex_opened 2 0%nat (or_introl (conj eq_refl eq_refl))) ltac:(lia) HR Hm Hbk) as Hw.
  destruct (wp_done _ _ _ _ _ _ Hw ex_read_Done) as (_ & Hk & Hop & _). split; [exact Hk|exact Hop].
Defined.

(** In a new process, Close of 0 frees the number the constructor
    of the address space took for the console, although it says that the file
    was not open; the next file is opened as 0, and what is then written to it
    is thrown away. *)
Theorem Close_console big_endian USEFIFO rand fuel refused s memory stale buf vaddr text :
  (1 <= fuel)%nat → (∀ n, 0 <= rand n) → um_ok (mem s) → bytes_at (mem s) vaddr buf →
  Z.of_nat (length buf) < 2 ^ 31 - 1 → Z.of_nat (length stale) = MaxOpenFiles →
  new_fileTable memory stale = Done (fileTable s (space s)) → refused (c_string buf) = false →
  host s !! c_string buf = Some text →
  ∃ s1, Close_Syscall 0 s = Done ((), s1) ∧
    wp halts (Open_Syscall big_endian USEFIFO rand fuel refused vaddr (Z.of_nat (length buf))) (λ id s2,
      id = 0 ∧ slot (fileTable s2 (space s2)) 0 = Some (Some (next_address s)) ∧
      open_files s2 !! next_address s = Some (mkOpenFile (c_string buf) 0) ∧
      ∀ v l, Write_Syscall big_endian USEFIFO rand fuel v l 0 s2 = Done ((), s2)) s1.
Proof.
  intros Hfuel Hrand Hok Hb Hlen Hst HT Hr Htext.
  destruct (new_fileTable_spec memory stale Hst) as (t & HT' & Ht & Hsize & Hsl). rewrite HT in HT'. injection HT' as HT'.
  clear HT. rewrite <- HT' in Ht, Hsize, Hsl. clear HT' t. destruct (Remove_spec _ 0 Ht) as (t1 & HR & Ht1 & Hs1 & Hsl1).
  set (s1 := with_table (space s) t1 s). exists s1. split.
  { unfold Close_Syscall, bind, get, put, lift. rewrite HR, Hsl, decide_True by by left. reflexivity. }
  assert (fileTable s1 (space s1) = t1) as Hft by (cbn; change (space s1) with (space s); by rewrite fn_lookup_insert).
  eapply wp_mono; [apply (Open_spec big_endian USEFIFO rand fuel refused s1 vaddr buf text)|];
    try done; [by rewrite Hft|]. rewrite Hft.
  intros id s2 (_ & _ & _ & _ & [[_ Hall]|(Hid & _ & Hlt & Hs2 & Hop)]).
  - destruct (Hall 0) as [? H0]; [rewrite Hs1, Hsize; done|]. by rewrite Hsl1, decide_True in H0.
  - assert (id = 0) as ->.
    { destruct (decide (id = 0)); [done|]. destruct (Hlt 0) as [? H0]; [lia|]. by rewrite Hsl1, decide_True in H0. }
    split; [done|]. split; [done|]. split; [done|]. done.
Qed.

Lemma Close_console_witness : ∃ s1 s2, Close_Syscall 0 ex_new = Done ((), s1) ∧
  Open_Syscall false true (λ _, 0) 1 (λ _, false) 130 2 s1 = Done (0, s2) ∧
  Write_Syscall false true (λ _, 0) 1 130 2 0 s2 = Done ((), s2).
Proof.
  destruct ex_new_start as (t & Ht & He).
  assert (um_ok (mem ex_new)) as Hok by (rewrite He; exact (example_ok t)).
  assert (bytes_at (mem ex_new) 130 ex_name) as Hb by (rewrite He; exact (example_bytes t 2 ltac:(lia))).
  assert (new_fileTable (λ _, 0) (replicate 256 None) = Done (fileTable ex_new (space ex_new))) as Hft by (by rewrite He).
  assert (host ex_new !! ex_name = Some [1; 2; 3; 4; 5; 6; 7; 8]) as Hh by (rewrite He; reflexivity).
  destruct (Close_console false true (λ _, 0) 1 (λ _, false) ex_new (λ _, 0) (replicate 256 None) ex_name 130
    [1; 2; 3; 4; 5; 6; 7; 8] (le_n 1) (λ _, Z.le_refl 0) Hok Hb ltac:(cbn; lia) eq_refl Hft eq_refl Hh) as (s1 & HC & Hw).
  exists s1. destruct (ex_open s1 HC) as (id & s2 & HO).
  destruct (wp_done _ _ _ _ _ _ Hw HO) as (Hid & _ & _ & HW). rewrite Hid in HO.
  exists s2. split; [exact HC|]. split; [exact HO|apply HW].
Defined.
