(* ===== verification/Interrupt.v ===== *)
(** * Interrupt: the simulated interrupt hardware of machine/interrupt.cc

    The clock, the list of interrupts that devices have scheduled, and the
    four routines that move time: [OneTick], [Idle], [SetLevel] and
    [CheckIfDue].  The interrupts are in a [List] of threads/list.cc, keyed by
    the time they are due (file PtrList).  What a device does when its
    interrupt fires is the class [Hardware]; [HardwareOK] is what the clock
    relies on: a handler may schedule interrupts for later and change the rest
    of the machine, but neither moves the clock nor enables interrupts.  File
    Devices holds the instance of the simulated devices.

    [totalTicks] and the times of interrupts are [int64_t] in the code; they
    are integers here, as the clock does not reach 2^63. *)
From S2P Require Import Prelude PtrList Translate.
From Stdlib Require Import ZArith Lia ZifyBool.
From stdpp Require Import base list gmap sorting.

Local Open Scope Z_scope.

(** ** Data of interrupt.h and stats.h *)

Inductive IntStatus := IntOff | IntOn.
Inductive IntType :=
  TimerInt | DiskInt | ConsoleWriteInt | ConsoleReadInt | NetworkSendInt | NetworkRecvInt.

#[export] Instance IntStatus_eq_dec : EqDecision IntStatus.
Proof. solve_decision. Defined.
#[export] Instance MachineStatus_eq_dec : EqDecision MachineStatus.
Proof. solve_decision. Defined.
#[export] Instance IntType_eq_dec : EqDecision IntType.
Proof. solve_decision. Defined.

Record Statistics := mkStatistics {
  totalTicks : Z;
  idleTicks : Z;
  systemTicks : Z;
  userTicks : Z;
  numDiskReads : Z;
  numDiskWrites : Z;
  numConsoleCharsRead : Z;
  numConsoleCharsWritten : Z;
  numPageFaults : Z;
  numPacketsSent : Z;
  numPacketsRecvd : Z
}.

Definition new_Statistics : Statistics := mkStatistics 0 0 0 0 0 0 0 0 0 0 0.

Definition UserTick : Z := 1.
Definition SystemTick : Z := 10.
Definition RotationTime : Z := 500.
Definition SeekTime : Z := 500.
Definition ConsoleTime : Z := 100.
Definition NetworkTime : Z := 100.
Definition TimerTicks : Z := 100.

Section interrupt.
(** The handlers of the devices, and the machine around the clock. *)
Context {H W : Type}.

Record PendingInterrupt := mkPendingInterrupt {
  handler : H;
  arg : Z;
  when : Z;
  type : IntType
}.

Record Interrupt := mkInterrupt {
  level : IntStatus;
  pending : List PendingInterrupt;
  inHandler : bool;
  yieldOnReturn : bool;
  status : MachineStatus
}.

(** The globals [interrupt] and [stats] of threads/system.cc, and the rest. *)
Record Nachos := mkNachos { interrupt : Interrupt; stats : Statistics; rest : W }.

Definition new_Interrupt : Interrupt := mkInterrupt IntOff (new_List ∅) false false SystemMode.

Definition now (m : Nachos) : Z := totalTicks (stats m).

Definition with_interrupt (i : Interrupt) (m : Nachos) : Nachos := mkNachos i (stats m) (rest m).
Definition with_stats (s : Statistics) (m : Nachos) : Nachos := mkNachos (interrupt m) s (rest m).
Definition with_rest (w : W) (m : Nachos) : Nachos := mkNachos (interrupt m) (stats m) w.

Definition with_level (l : IntStatus) (m : Nachos) : Nachos :=
  let i := interrupt m in
  with_interrupt (mkInterrupt l (pending i) (inHandler i) (yieldOnReturn i) (status i)) m.
Definition with_pending (l : List PendingInterrupt) (m : Nachos) : Nachos :=
  let i := interrupt m in
  with_interrupt (mkInterrupt (level i) l (inHandler i) (yieldOnReturn i) (status i)) m.
Definition with_inHandler (b : bool) (m : Nachos) : Nachos :=
  let i := interrupt m in
  with_interrupt (mkInterrupt (level i) (pending i) b (yieldOnReturn i) (status i)) m.
Definition with_yield (b : bool) (m : Nachos) : Nachos :=
  let i := interrupt m in
  with_interrupt (mkInterrupt (level i) (pending i) (inHandler i) b (status i)) m.
Definition with_status (st : MachineStatus) (m : Nachos) : Nachos :=
  let i := interrupt m in
  with_interrupt (mkInterrupt (level i) (pending i) (inHandler i) (yieldOnReturn i) st) m.

(** The three ways the clock moves: [n] ticks of kernel, of user code, or idle. *)
Definition add_ticks (idle system user : Z) (m : Nachos) : Nachos :=
  let s := stats m in
  with_stats (mkStatistics (totalTicks s + (idle + system + user)) (idleTicks s + idle)
    (systemTicks s + system) (userTicks s + user) (numDiskReads s) (numDiskWrites s)
    (numConsoleCharsRead s) (numConsoleCharsWritten s) (numPageFaults s)
    (numPacketsSent s) (numPacketsRecvd s)) m.

(** What the devices do: the call of [handler] on [arg], and [machine->DelayedLoad(0, 0)]
    when there is a machine. *)
Class Hardware : Type := {
  invoke : H → Z → M Nachos unit;
  finish_load : M Nachos unit
}.

Definition on_pending {A} (op : M (List PendingInterrupt) A) : M Nachos A := λ m,
  match op (pending (interrupt m)) with
  | Done (a, l) => Done (a, with_pending l m)
  | Fault f => Fault f
  end.

Section operations.
Context `{Hardware}.

Definition ChangeLevel (old now : IntStatus) : M Nachos unit := modify (with_level now).

Definition Schedule (h : H) (arg fromNow : Z) (type : IntType) : M Nachos unit :=
  let! m := get in
  let when := now m + fromNow in
  let toOccur := mkPendingInterrupt h arg when type in
  ASSERT (0 <? fromNow) ;;;
  on_pending (SortedInsert (Some toOccur) when).

(** The end of [CheckIfDue]: call the handler in kernel mode. *)
Definition fire (toOccur : PendingInterrupt) : M Nachos unit :=
  let! m := get in
  let old := status (interrupt m) in
  finish_load ;;;
  modify (with_inHandler true) ;;;
  modify (with_status SystemMode) ;;;
  invoke (handler toOccur) (arg toOccur) ;;;
  modify (with_status old) ;;;
  modify (with_inHandler false).

Definition CheckIfDue (advanceClock : bool) : M Nachos bool :=
  let! m := get in
  ASSERT (bool_decide (level (interrupt m) = IntOff)) ;;;
  let! r := on_pending SortedRemove in
  match r with
  | (Some toOccur, Some when) =>
      (if advanceClock then
         if now m <? when then modify (add_ticks (when - now m) 0 0) else ret ()
       else ret ()) ;;;
      if negb advanceClock && (now m <? when) then
        on_pending (SortedInsert (Some toOccur) when) ;;; ret false
      else
        let! isEmpty := on_pending IsEmpty in
        if bool_decide (status (interrupt m) = IdleMode) &&
           bool_decide (type toOccur = TimerInt) && isEmpty
        then on_pending (SortedInsert (Some toOccur) when) ;;; ret false
        else fire toOccur ;;; ret true
  | _ => ret false
  end.

(** [while (CheckIfDue(FALSE)) ;] *)
Fixpoint check_loop (fuel : nat) : M Nachos unit :=
  match fuel with
  | O => fail OutOfFuel
  | S fuel' => let! b := CheckIfDue false in if b : bool then check_loop fuel' else ret ()
  end.

Definition check_pending : M Nachos unit :=
  let! m := get in check_loop (S (size (heap (pending (interrupt m))))).

(** [OneTick] up to the switch of threads: [Some old] when the running thread
    must yield, to come back to mode [old] ([OneTick_resume]). *)
Definition OneTick : M Nachos (option MachineStatus) :=
  let! m := get in
  let old := status (interrupt m) in
  (match old with
   | SystemMode => modify (add_ticks 0 SystemTick 0)
   | _ => modify (add_ticks 0 0 UserTick)
   end) ;;;
  ChangeLevel IntOn IntOff ;;;
  check_pending ;;;
  ChangeLevel IntOff IntOn ;;;
  let! m := get in
  if yieldOnReturn (interrupt m) then
    modify (with_yield false) ;;;
    modify (with_status SystemMode) ;;;
    ret (Some old)
  else ret None.

(** [status = old], after [currentThread->Yield()] has returned. *)
Definition OneTick_resume (old : MachineStatus) : M Nachos unit := modify (with_status old).

(** The old level, and what [OneTick] asks for. *)
Definition SetLevel (now : IntStatus) : M Nachos (IntStatus * option MachineStatus) :=
  let! m := get in
  let old := level (interrupt m) in
  ASSERT (bool_decide (now = IntOff) || negb (inHandler (interrupt m))) ;;;
  ChangeLevel old now ;;;
  if bool_decide (now = IntOn) && bool_decide (old = IntOff) then
    let! y := OneTick in ret (old, y)
  else ret (old, None).

Definition Enable : M Nachos (option MachineStatus) := let! r := SetLevel IntOn in ret r.2.

Definition YieldOnReturn : M Nachos unit :=
  let! m := get in
  ASSERT (inHandler (interrupt m)) ;;;
  modify (with_yield true).

(** [Idle]: [Halt()] ends the simulation. *)
Definition Idle : M Nachos unit :=
  modify (with_status IdleMode) ;;;
  let! b := CheckIfDue true in
  if b : bool then
    check_pending ;;;
    modify (with_yield false) ;;;
    modify (with_status SystemMode)
  else fail Halted.

(** The loop of the destructor: remove until the list is empty. *)
Fixpoint destroy_pending (fuel : nat) : M Nachos unit :=
  match fuel with
  | O => fail OutOfFuel
  | S fuel' =>
      let! e := on_pending IsEmpty in
      if e : bool then ret () else let! _p := on_pending Remove in destroy_pending fuel'
  end.
End operations.

(** ** The pending list as a queue in the order of time *)

Definition holds (l : List PendingInterrupt) (q : list PendingInterrupt) : Prop :=
  ∃ cs, rep l cs ∧ cs.*2 = (λ p, (when p, Some p)) <$> q.

Definition queued (m : Nachos) (q : list PendingInterrupt) : Prop := holds (pending (interrupt m)) q.

Definition in_order (q : list PendingInterrupt) : Prop :=
  StronglySorted (λ p p', when p <= when p') q.

(** Behind the interrupts of the same time. *)
Fixpoint enqueue (p : PendingInterrupt) (q : list PendingInterrupt) : list PendingInterrupt :=
  match q with
  | [] => [p]
  | p' :: q' => if when p <? when p' then p :: q else p' :: enqueue p q'
  end.

Definition enqueue_all (new q : list PendingInterrupt) : list PendingInterrupt :=
  foldl (λ q p, enqueue p q) q new.

Definition due (t : Z) (q : list PendingInterrupt) : list PendingInterrupt :=
  filter (λ p, when p <= t) q.

Definition all_later (t : Z) (q : list PendingInterrupt) : Prop := ∀ p, p ∈ q → t < when p.

Lemma enqueue_perm p q : enqueue p q ≡ₚ p :: q.
Proof.
  induction q as [|p' q IH]; cbn; [done|]. case_match; [done|]. rewrite IH. apply Permutation_swap.
Qed.

Lemma elem_of_enqueue p p' q : p' ∈ enqueue p q ↔ p' = p ∨ p' ∈ q.
Proof. by rewrite (enqueue_perm p q), elem_of_cons. Qed.

Lemma in_order_cons p q : in_order (p :: q) ↔ (∀ p', p' ∈ q → when p <= when p') ∧ in_order q.
Proof. unfold in_order. by rewrite StronglySorted_cons, Forall_forall. Qed.

Lemma enqueue_order p q : in_order q → in_order (enqueue p q).
Proof.
  induction q as [|p' q IH]; cbn; [repeat constructor|]. rewrite in_order_cons. intros [Hp' Hq].
  destruct (Z.ltb_spec (when p) (when p')); rewrite !in_order_cons.
  - split; [|done]. intros x [->|Hx%Hp']%elem_of_cons; lia.
  - split; [|auto]. intros x [->|Hx%Hp']%elem_of_enqueue; lia.
Qed.

Lemma enqueue_all_perm new q : enqueue_all new q ≡ₚ new ++ q.
Proof.
  revert q. induction new as [|p new IH]; intros q; cbn; [done|]. unfold enqueue_all in IH.
  rewrite IH, enqueue_perm. apply Permutation_sym, Permutation_middle.
Qed.

Lemma enqueue_all_order new q : in_order q → in_order (enqueue_all new q).
Proof. revert q. induction new as [|p new IH]; intros q Hq; cbn; [done|]. apply IH. by apply enqueue_order. Qed.

Lemma enqueue_all_app new new' q : enqueue_all new' (enqueue_all new q) = enqueue_all (new ++ new') q.
Proof. unfold enqueue_all. by rewrite foldl_app. Qed.

Lemma due_nil t q : all_later t q → due t q = [].
Proof.
  intros Hq. induction q as [|p q IH]; [done|]. unfold due. rewrite filter_cons_False.
  - apply IH. intros p' Hp'. apply Hq. by right.
  - specialize (Hq p ltac:(by left)). lia.
Qed.

Lemma later_all t q : all_later t q → filter (λ p, t < when p) q = q.
Proof.
  intros Hq. induction q as [|p q IH]; [done|]. rewrite filter_cons_True by (apply Hq; by left).
  rewrite IH; [done|]. intros p' Hp'. apply Hq. by right.
Qed.

(** An interrupt goes behind all that are due at its time. *)
Lemma enqueue_split p q : in_order q →
  enqueue p q = due (when p) q ++ p :: filter (λ p', when p < when p') q.
Proof.
  induction q as [|p' q IH]; [done|]. intros [Hp' Hq]%in_order_cons. cbn [enqueue]. unfold due.
  destruct (Z.ltb_spec (when p) (when p')).
  - assert (all_later (when p) (p' :: q)) as Hl by (intros x [->|Hx%Hp']%elem_of_cons; lia).
    pose proof (due_nil _ _ Hl) as Hd. unfold due in Hd. by rewrite Hd, (later_all _ _ Hl).
  - rewrite filter_cons_True, filter_cons_False by lia. cbn. by rewrite (IH Hq).
Qed.

Lemma due_enqueue t p q : t < when p → due t (enqueue p q) = due t q.
Proof.
  intros Hp. induction q as [|p' q IH]; cbn [enqueue]; unfold due.
  - rewrite filter_cons_False by lia. done.
  - destruct (when p <? when p'); [rewrite filter_cons_False by lia; done|].
    rewrite !filter_cons. unfold due in IH. by rewrite IH.
Qed.

Lemma due_enqueue_all t new q : all_later t new → due t (enqueue_all new q) = due t q.
Proof.
  revert q. induction new as [|p new IH]; intros q Hn; [done|].
  change (enqueue_all (p :: new) q) with (enqueue_all new (enqueue p q)).
  rewrite IH; [apply due_enqueue, Hn; by left|]. intros x Hx. apply Hn. by right.
Qed.

(** The interrupts that are due are the first of the queue. *)
Lemma due_first t q : in_order q →
  match q with
  | [] => due t q = []
  | p :: q' => (when p <= t ∧ due t q = p :: due t q') ∨ (t < when p ∧ all_later t q ∧ due t q = [])
  end.
Proof.
  destruct q as [|p q]; [done|]. intros [Hp Hq]%in_order_cons. destruct (decide (when p <= t)) as [Ht|Ht].
  - left. split; [done|]. unfold due. by rewrite filter_cons_True.
  - right. assert (all_later t (p :: q)) as Hl by (intros x [->|Hx%Hp]%elem_of_cons; lia).
    split_and!; [lia|done|by apply due_nil].
Qed.

Lemma holds_nil h : holds (new_List h) [].
Proof. exists []. split; [|done]. constructor; cbn; [done|constructor|]. by intros ? []. Qed.

Lemma spec_insert_enqueue p q : spec_insert (when p, Some p) ((λ p, (when p, Some p)) <$> q) =
  (λ p, (when p, Some p)) <$> enqueue p q.
Proof. induction q as [|p' q IH]; cbn; [done|]. case_match; cbn; [done|]. by rewrite IH. Qed.

Lemma holds_insert p q : ∀ l, holds l q →
  ∃ l', SortedInsert (Some p) (when p) l = Done ((), l') ∧ holds l' (enqueue p q).
Proof.
  intros l (cs & Hr & Hq). destruct (SortedInsert_rep l cs (Some p) (when p) Hr) as (n & l' & He & Hr' & _).
  exists l'. split; [done|]. exists (insert_by_key (n, (when p, Some p)) cs). split; [done|].
  rewrite insert_by_key_snd, Hq. apply spec_insert_enqueue.
Qed.

Lemma holds_remove q : ∀ l, holds l q →
  ∃ l', SortedRemove l = Done (match q with [] => (None, None) | p :: _ => (Some p, Some (when p)) end, l') ∧
    holds l' (tail q) ∧ (length q ≤ size (heap l))%nat.
Proof.
  intros l (cs & Hr & Hq). destruct (SortedRemove_rep l cs Hr) as (l' & He & Hr' & _). exists l'.
  assert (length q ≤ size (heap l))%nat as Hs.
  { pose proof (seg_size _ _ _ _ (rep_seg _ _ Hr) (rep_nodup _ _ Hr)). apply (f_equal length) in Hq.
    rewrite !length_fmap in Hq. lia. }
  destruct cs as [|[n [k it]] cs], q as [|p q]; try done; cbn in *.
  - split_and!; [done| |done]. by exists [].
  - injection Hq as -> -> Hq. split_and!; [done| |done]. by exists cs.
Qed.

(** The queue of a list is determined by it. *)
Lemma holds_eq l q q' : holds l q → holds l q' → q = q'.
Proof.
  intros (cs & Hr & Hq) (cs' & Hr' & Hq'). destruct (exec_cmd_refines CMapcar l cs Hr) as (? & _ & He & _).
  destruct (exec_cmd_refines CMapcar l cs' Hr') as (? & _ & He' & _).
  rewrite He in He'. cbn in He'. injection He' as He' _. rewrite Hq, Hq', <- !list_fmap_compose in He'.
  by apply (inj (fmap Some)).
Qed.

Lemma holds_IsEmpty q l : holds l q → IsEmpty l = Done (bool_decide (q = []), l).
Proof.
  intros (cs & Hr & Hq). unfold IsEmpty, bind, get, ret. rewrite (rep_empty l cs Hr).
  by destruct cs, q.
Qed.

(** ** What the clock relies on *)

(** The part of the clock that no handler moves. *)
Definition clock (m : Nachos) : Z * Z * Z * Z :=
  (totalTicks (stats m), idleTicks (stats m), systemTicks (stats m), userTicks (stats m)).

(** From [m] to [m'] only interrupts of a later time were added. *)
Record later (m m' : Nachos) (q q' : list PendingInterrupt) : Prop := {
  later_level : level (interrupt m') = level (interrupt m);
  later_status : status (interrupt m') = status (interrupt m);
  later_handler : inHandler (interrupt m') = inHandler (interrupt m);
  later_clock : clock m' = clock m;
  later_new : ∃ new, q' = enqueue_all new q ∧ all_later (now m) new
}.

(** [device_inv q w]: the devices of [w] and the interrupts [q] they have
    scheduled agree.  A handler finds its own interrupt gone from the list. *)
Class HardwareOK `{Hardware} := {
  device_inv : list PendingInterrupt → W → Prop;
  device_perm q q' w : q ≡ₚ q' → device_inv q w → device_inv q' w;
  finish_load_ok m q : device_inv q (rest m) →
    wp no_fault finish_load (λ _ m', ∃ w, m' = with_rest w m ∧ device_inv q w) m;
  invoke_ok m p q : queued m q → level (interrupt m) = IntOff → inHandler (interrupt m) = true →
    status (interrupt m) = SystemMode → device_inv (p :: q) (rest m) →
    wp no_fault (invoke (handler p) (arg p)) (λ _ m', ∃ q',
      queued m' q' ∧ later m m' q q' ∧ device_inv q' (rest m')) m
}.

Lemma later_trans m m1 m2 q q1 q2 : later m m1 q q1 → later m1 m2 q1 q2 → later m m2 q q2.
Proof.
  intros [? ? ? Hc (new & -> & Hn)] [? ? ? Hc' (new' & -> & Hn')]. constructor; try congruence.
  exists (new ++ new'). rewrite enqueue_all_app. split; [done|].
  assert (now m1 = now m) as Hm by (unfold clock, now in *; congruence). rewrite Hm in Hn'.
  intros p [?|?]%elem_of_app; auto.
Qed.

Lemma later_refl m q : later m m q q.
Proof. constructor; [done..|]. exists []. by split; [|intros ? ?%not_elem_of_nil]. Qed.

Lemma clock_now m m' : clock m' = clock m → now m' = now m.
Proof. unfold clock, now. congruence. Qed.

Lemma later_due m m' q q' : later m m' q q' → due (now m') q' = due (now m) q.
Proof.
  intros [_ _ _ Hc (new & -> & Hn)]. rewrite (clock_now _ _ Hc). by apply due_enqueue_all.
Qed.

Section operations.
Context `{HardwareOK}.

(** The clock between two of its steps, with the interrupts [q] pending. *)
Record clock_ok (m : Nachos) (q : list PendingInterrupt) : Prop := {
  ok_queued : queued m q;
  ok_order : in_order q;
  ok_devices : device_inv q (rest m);
  ok_level : level (interrupt m) = IntOff
}.

Lemma fire_spec m p q : queued m q → in_order q → device_inv (p :: q) (rest m) →
  level (interrupt m) = IntOff → inHandler (interrupt m) = false →
  wp no_fault (fire p) (λ _ m', ∃ q', clock_ok m' q' ∧ later m m' q q') m.
Proof.
  intros Hq Ho Hd Hl Hh. unfold fire. apply wp_bind, wp_get. cbn zeta. apply wp_bind.
  eapply wp_mono; [by apply finish_load_ok|]. intros _ m1 (w & -> & Hw).
  apply wp_bind, wp_modify, wp_bind, wp_modify, wp_bind.
  eapply wp_mono; [eapply (invoke_ok _ _ q); [exact Hq|exact Hl|done|done|exact Hw]|].
  intros _ m2 (q' & Hq' & [Hl' Hs' Hh' Hc (new & Hn & Hnew)] & Hd').
  apply wp_bind, wp_modify, wp_modify. exists q'. split.
  - constructor; [exact Hq'| |exact Hd'|cbn in *; congruence]. rewrite Hn. by apply enqueue_all_order.
  - constructor; cbn in *; [done|done|done|exact Hc|]. by exists new.
Qed.

Lemma on_pending_Done {A} (op : M (List PendingInterrupt) A) m a l :
  op (pending (interrupt m)) = Done (a, l) → on_pending op m = Done (a, with_pending l m).
Proof. unfold on_pending. by intros ->. Qed.

(** [CheckIfDue] once the first interrupt is off the list. *)
Lemma CheckIfDue_removes adv m r l : level (interrupt m) = IntOff →
  SortedRemove (pending (interrupt m)) = Done (r, l) →
  CheckIfDue adv m = (match r with
    | (Some toOccur, Some when) =>
        (if adv then
           if now m <? when then modify (add_ticks (when - now m) 0 0) else ret ()
         else ret ()) ;;;
        if negb adv && (now m <? when) then
          on_pending (SortedInsert (Some toOccur) when) ;;; ret false
        else
          let! isEmpty := on_pending IsEmpty in
          if bool_decide (status (interrupt m) = IdleMode) &&
             bool_decide (type toOccur = TimerInt) && isEmpty
          then on_pending (SortedInsert (Some toOccur) when) ;;; ret false
          else fire toOccur ;;; ret true
    | _ => ret false
    end) (with_pending l m).
Proof.
  intros Hl He. unfold CheckIfDue. rewrite (bind_Done get _ _ _ _ eq_refl), bool_decide_true by done.
  rewrite (bind_Done (ASSERT true) _ _ _ _ eq_refl).
  by rewrite (bind_Done _ _ _ _ _ (on_pending_Done _ _ _ _ He)).
Qed.

(** [CheckIfDue] by the state of the queue. *)
Lemma CheckIfDue_cases adv m q : level (interrupt m) = IntOff → queued m q →
  match q with
  | [] => ∃ l, CheckIfDue adv m = Done (false, with_pending l m) ∧ holds l []
  | p :: q' =>
      let m' := if adv && (now m <? when p) then add_ticks (when p - now m) 0 0 m else m in
      if negb adv && (now m <? when p) then
        ∃ l, CheckIfDue adv m = Done (false, with_pending l m) ∧ holds l (enqueue p q')
      else if bool_decide (status (interrupt m) = IdleMode) && bool_decide (type p = TimerInt) &&
              bool_decide (q' = []) then
        ∃ l, CheckIfDue adv m = Done (false, with_pending l m') ∧ holds l [p]
      else ∃ l, CheckIfDue adv m = (fire p ;;; ret true) (with_pending l m') ∧ holds l q' ∧
             on_pending SortedRemove m = Done ((Some p, Some (when p)), with_pending l m)
  end.
Proof.
  intros Hl Hq. destruct (holds_remove q _ Hq) as (l & He & Hq' & _).
  pose proof (CheckIfDue_removes adv m _ _ Hl He) as Hrun. apply on_pending_Done in He.
  destruct q as [|p q]; cbn [tail] in Hq'; [by exists l|]. cbn zeta.
  destruct (holds_insert p q l Hq') as (l' & Hi & Hl').
  assert (∀ m1, pending (interrupt m1) = l →
    on_pending IsEmpty m1 = Done (bool_decide (q = []), m1) ∧
    on_pending (SortedInsert (Some p) (when p)) m1 = Done ((), with_pending l' m1)) as Hl1.
  { intros m1 Hm1. unfold on_pending. rewrite Hm1, (holds_IsEmpty q), Hi by done. by destruct m1 as [[] ? ?]; cbn in *; subst. }
  assert (∀ m1, pending (interrupt m1) = l → status (interrupt m1) = status (interrupt m) →
    let b := bool_decide (status (interrupt m) = IdleMode) && bool_decide (type p = TimerInt) &&
      bool_decide (q = []) in
    (let! isEmpty := on_pending IsEmpty in
     if bool_decide (status (interrupt m) = IdleMode) && bool_decide (type p = TimerInt) && isEmpty
     then on_pending (SortedInsert (Some p) (when p)) ;;; ret false
     else fire p ;;; ret true) m1 =
    if b then Done (false, with_pending l' m1) else (fire p ;;; ret true) m1) as Htail.
  { intros m1 Hm1 Hs b. destruct (Hl1 m1 Hm1) as [Hem Hins]. rewrite (bind_Done _ _ _ _ _ Hem). subst b.
    destruct (_ && _ && bool_decide (q = [])); [|done]. by rewrite (bind_Done _ _ _ _ _ Hins). }
  cbn zeta in Htail.
  set (lone := bool_decide (status (interrupt m) = IdleMode) && bool_decide (type p = TimerInt) &&
    bool_decide (q = [])) in *.
  assert (lone = true → enqueue p q = [p]) as Hlone.
  { intros Hb. unfold lone in Hb. apply andb_prop in Hb as [_ ->%bool_decide_eq_true]. done. }
  destruct adv; cbn [negb andb] in *.
  - destruct (now m <? when p) eqn:Hw.
    all: rewrite (bind_Done _ _ _ _ _ eq_refl), Htail in Hrun by done.
    all: rewrite Hrun; destruct lone; [exists l'; by rewrite <- Hlone|by exists l].
  - rewrite (bind_Done (ret ()) _ _ _ _ eq_refl) in Hrun. destruct (now m <? when p) eqn:Hw; cbn iota in Hrun.
    + rewrite (bind_Done _ _ _ _ _ (proj2 (Hl1 (with_pending l m) eq_refl))) in Hrun. rewrite Hrun. by exists l'.
    + rewrite Htail in Hrun by done. rewrite Hrun. destruct lone; [exists l'; by rewrite <- Hlone|by exists l].
Qed.

Lemma clock_ok_pending m q q' l : clock_ok m q → holds l q' → in_order q' → q ≡ₚ q' →
  clock_ok (with_pending l m) q'.
Proof. intros [_ _ Hd Hl] Hq Ho Hp. constructor; [done..| |done]. by eapply device_perm. Qed.

(** The head of the queue, off the list and fired. *)
Lemma fire_head m p q l : clock_ok m (p :: q) → inHandler (interrupt m) = false → holds l q →
  wp no_fault (fire p) (λ _ m', ∃ q', clock_ok m' q' ∧ later m m' q q') (with_pending l m).
Proof.
  intros [_ [_ Ho]%in_order_cons Hd Hl] Hh Hq.
  eapply wp_mono; [by apply (fire_spec _ p q)|]. intros _ m' (q' & Hok & []). exists q'.
  by split; [|constructor].
Qed.

(** What [check_pending] leaves: the interrupts that were not due and new ones,
    all of a later time; or the timer alone, when the machine idles. *)
Definition settled (m : Nachos) (q q' : list PendingInterrupt) : Prop :=
  (∃ new, all_later (now m) new ∧ q' ≡ₚ new ++ filter (λ p, now m < when p) q) ∨
  (status (interrupt m) = IdleMode ∧ ∃ p, q' = [p] ∧ type p = TimerInt ∧ when p <= now m).

Record passed (m m' : Nachos) (q q' : list PendingInterrupt) : Prop := {
  passed_level : level (interrupt m') = level (interrupt m);
  passed_status : status (interrupt m') = status (interrupt m);
  passed_handler : inHandler (interrupt m') = inHandler (interrupt m);
  passed_clock : clock m' = clock m;
  passed_settled : settled m q q'
}.

Lemma settled_early m p q q' : in_order (p :: q) → now m < when p → q' ≡ₚ p :: q → settled m (p :: q) q'.
Proof.
  intros Ho Hp Hq. left. exists []. split; [by intros ? ?%not_elem_of_nil|]. rewrite app_nil_l.
  rewrite later_all; [done|]. intros x Hx. apply in_order_cons in Ho as [Ho _].
  apply elem_of_cons in Hx as [->|Hx%Ho]; lia.
Qed.

(** Firing the head of the queue first changes nothing for what is left. *)
Lemma settled_fired m m1 p q q1 q' : when p <= now m → later m m1 q q1 → settled m1 q1 q' →
  settled m (p :: q) q'.
Proof.
  intros Hp [_ Hs _ Hc (new & -> & Hn)] [(new' & Hn' & Hq')|(Hi & Hq')]; [left|right].
  - rewrite (clock_now _ _ Hc) in *. exists (new' ++ new). split.
    { intros x [?|?]%elem_of_app; auto. }
    rewrite filter_cons_False by lia. rewrite Hq', <- app_assoc. f_equiv.
    assert (∀ a b : list PendingInterrupt, a ≡ₚ b →
      filter (λ p, now m < when p) a ≡ₚ filter (λ p, now m < when p) b) as Hf by (by intros a b ->).
    rewrite (Hf _ _ (enqueue_all_perm new q)), filter_app, (later_all _ new) by done. done.
  - rewrite (clock_now _ _ Hc) in Hq'. split; [congruence|done].
Qed.

Lemma due_length_head t p q : in_order (p :: q) → when p <= t →
  length (due t (p :: q)) = S (length (due t q)).
Proof. intros _ Hp. unfold due. by rewrite filter_cons_True. Qed.

Lemma lone_timer m p (q : list PendingInterrupt) :
  bool_decide (status (interrupt m) = IdleMode) && bool_decide (type p = TimerInt) &&
    bool_decide (q = []) = true →
  status (interrupt m) = IdleMode ∧ type p = TimerInt ∧ q = [].
Proof. rewrite !andb_true_iff, !bool_decide_eq_true. tauto. Qed.

(** The loop [while (CheckIfDue(FALSE)) ;] ends. *)
Lemma check_loop_spec fuel : ∀ m q, clock_ok m q → inHandler (interrupt m) = false →
  (length (due (now m) q) < fuel)%nat →
  wp no_fault (check_loop fuel) (λ _ m', ∃ q', clock_ok m' q' ∧ passed m m' q q') m.
Proof.
  induction fuel as [|fuel IH]; intros m q Hok Hh Hf; [lia|]. cbn [check_loop]. apply wp_bind.
  pose proof (CheckIfDue_cases false m q (ok_level _ _ Hok) (ok_queued _ _ Hok)) as Hc.
  unfold wp at 1. destruct q as [|p q]; cbn zeta in Hc.
  { destruct Hc as (l & -> & Hl). apply wp_ret. exists []. split; [by apply (clock_ok_pending m []); [..|constructor|]|].
    constructor; [done..|]. left. exists []. by split; [intros ? ?%not_elem_of_nil|]. }
  cbn [negb andb] in Hc. pose proof (ok_order _ _ Hok) as Ho.
  destruct (Z.ltb_spec (now m) (when p)) as [Hw|Hw].
  { destruct Hc as (l & -> & Hl). apply wp_ret. exists (enqueue p q). split.
    - apply (clock_ok_pending m (p :: q)); [done..| |by rewrite enqueue_perm].
      by apply enqueue_order, (in_order_cons p q).
    - constructor; [done..|]. apply settled_early; [done..|]. apply enqueue_perm. }
  destruct (_ && _ && _) eqn:Hlone.
  { apply lone_timer in Hlone as (Hi & Ht & ->). destruct Hc as (l & -> & Hl). apply wp_ret.
    exists [p]. split; [by apply (clock_ok_pending m [p])|]. constructor; [done..|]. right. split; [done|]. by exists p. }
  destruct Hc as (l & -> & Hl & _). pose proof (fire_head m p q l Hok Hh Hl) as Hfire.
  apply wp_no_fault in Hfire as ([] & m1 & He & q1 & Hok1 & Hlat).
  rewrite (bind_Done _ _ _ _ _ He). cbn.
  rewrite due_length_head in Hf by done.
  eapply wp_mono; [apply (IH m1 q1 Hok1)|].
  - destruct Hlat; congruence.
  - pose proof (later_due _ _ _ _ Hlat) as Hd. rewrite Hd. lia.
  - intros _ m' (q' & Hok' & [? ? ? ? ?]). exists q'. split; [done|].
    pose proof Hlat as [? ? ? ? _]. constructor; [congruence..|]. by eapply settled_fired.
Qed.

Lemma check_pending_spec m q : clock_ok m q → inHandler (interrupt m) = false →
  wp no_fault check_pending (λ _ m', ∃ q', clock_ok m' q' ∧ passed m m' q q') m.
Proof.
  intros Hok Hh. unfold check_pending. apply wp_bind, wp_get. apply check_loop_spec; [done..|].
  destruct (holds_remove q _ (ok_queued _ _ Hok)) as (_ & _ & _ & Hs).
  pose proof (length_filter (λ p, when p <= now m) q). unfold due. lia.
Qed.

(** ** The order in which interrupts fire *)

(** The reference: take the interrupts [ps] off the list one by one, each
    fired before the next. *)
Fixpoint deliver_all (ps : list PendingInterrupt) : M Nachos unit :=
  match ps with
  | [] => ret ()
  | p :: ps' => let! _r := on_pending SortedRemove in fire p ;;; deliver_all ps'
  end.

Lemma check_loop_delivers fuel : ∀ m q, clock_ok m q → inHandler (interrupt m) = false →
  status (interrupt m) ≠ IdleMode → (length (due (now m) q) < fuel)%nat →
  ∃ m1 q1 q' l, deliver_all (due (now m) q) m = Done ((), m1) ∧ clock_ok m1 q1 ∧ all_later (now m) q1 ∧
    check_loop fuel m = Done ((), with_pending l m1) ∧ holds l q' ∧ in_order q' ∧ q' ≡ₚ q1.
Proof.
  induction fuel as [|fuel IH]; intros m q Hok Hh Hst Hf; [lia|]. cbn [check_loop].
  pose proof (CheckIfDue_cases false m q (ok_level _ _ Hok) (ok_queued _ _ Hok)) as Hc.
  pose proof (due_first (now m) q (ok_order _ _ Hok)) as Hd. destruct q as [|p q]; cbn zeta in Hc.
  { destruct Hc as (l & Hc & Hl). rewrite Hd, (bind_Done _ _ _ _ _ Hc). exists m, [], [], l.
    split; [done|]. split; [done|]. split; [by intros ? ?%not_elem_of_nil|].
    split_and!; [done..|constructor|done]. }
  rewrite (bool_decide_false (status (interrupt m) = IdleMode)) in Hc by done. cbn [negb andb] in Hc.
  destruct Hd as [[Hp Hd]|(Hp & Hall & Hd)]; rewrite Hd in *.
  - rewrite (proj2 (Z.ltb_ge _ _) Hp) in Hc. destruct Hc as (l & Hc & Hl & Hr).
    cbn [deliver_all]. rewrite (bind_Done _ _ _ _ _ Hr).
    destruct (wp_no_fault _ _ _ (fire_head m p q l Hok Hh Hl)) as ([] & m1 & He & q1 & Hok1 & Hlat).
    rewrite (bind_Done _ _ _ _ _ He). rewrite (bind_Done _ _ _ _ _ He) in Hc. rewrite (bind_Done _ _ _ _ _ Hc).
    pose proof Hlat as [_ Hs1 Hh1 Hc1 _]. pose proof (later_due _ _ _ _ Hlat) as Hd1.
    apply clock_now in Hc1. change (now (with_pending l m)) with (now m) in *.
    cbn in Hf. destruct (IH m1 q1) as (m2 & q2 & q' & l' & IH1 & IH2 & IH3 & IH4 & IH5 & IH6); [done|congruence..|by rewrite Hd1; lia|].
    rewrite Hd1 in IH1. rewrite Hc1 in IH3. by exists m2, q2, q', l'.
  - rewrite (proj2 (Z.ltb_lt _ _) Hp) in Hc. destruct Hc as (l & Hc & Hl).
    rewrite (bind_Done _ _ _ _ _ Hc). exists m, (p :: q), (enqueue p q), l.
    split; [done|]. split; [done|]. split; [done|]. split_and!; [done..| |apply enqueue_perm].
    by apply enqueue_order, (in_order_cons p q), (ok_order _ _ Hok).
Qed.

Lemma check_pending_delivers m q : clock_ok m q → inHandler (interrupt m) = false →
  status (interrupt m) ≠ IdleMode →
  ∃ m1 q1 q' l, deliver_all (due (now m) q) m = Done ((), m1) ∧ clock_ok m1 q1 ∧ all_later (now m) q1 ∧
    check_pending m = Done ((), with_pending l m1) ∧ holds l q' ∧ in_order q' ∧ q' ≡ₚ q1 ∧
    passed m (with_pending l m1) q q1.
Proof.
  intros Hok Hh Hs. destruct (holds_remove q _ (ok_queued _ _ Hok)) as (_ & _ & _ & Hsz).
  destruct (check_loop_delivers (S (size (heap (pending (interrupt m))))) m q Hok Hh Hs)
    as (m1 & q1 & q' & l & Hd & Hok1 & Hall & Hrun & Hl & Ho & Hp).
  { pose proof (length_filter (λ p, when p <= now m) q). unfold due. lia. }
  assert (check_pending m = Done ((), with_pending l m1)) as Hcp by exact Hrun.
  exists m1, q1, q', l. do 7 (split; [done|]).
  pose proof (wp_done _ _ _ _ _ _ (check_pending_spec m q Hok Hh) Hcp) as (q2 & [Hq2 _ _ _] & [? ? ? ? Hset]).
  constructor; [done..|]. destruct Hset as [(new & Hn & Hq)|[? _]]; [|done]. left. exists new. split; [done|].
  pose proof (holds_eq _ _ _ Hl Hq2). subst q2. by rewrite <- Hq.
Qed.

(** The clock after the tick of [OneTick], with interrupts off. *)
Definition ticked (m : Nachos) : Nachos :=
  with_level IntOff (match status (interrupt m) with
                     | SystemMode => add_ticks 0 SystemTick 0 m
                     | _ => add_ticks 0 0 UserTick m end).

Lemma OneTick_starts m : OneTick m =
  (check_pending ;;;
   ChangeLevel IntOff IntOn ;;;
   let! m1 := get in
   if yieldOnReturn (interrupt m1) then
     modify (with_yield false) ;;; modify (with_status SystemMode) ;;; ret (Some (status (interrupt m)))
   else ret None) (ticked m).
Proof. unfold OneTick, ticked, bind at 1, get at 1. by destruct (status (interrupt m)). Qed.

Lemma ticked_ok m q : queued m q → in_order q → device_inv q (rest m) → clock_ok (ticked m) q.
Proof. intros. unfold ticked. by destruct (status (interrupt m)); constructor. Qed.

(** [OneTick] against the reference. *)
Lemma OneTick_spec m q : queued m q → in_order q → device_inv q (rest m) →
  inHandler (interrupt m) = false → status (interrupt m) ≠ IdleMode →
  ∃ m1 q1 r m' q', deliver_all (due (now (ticked m)) q) (ticked m) = Done ((), m1) ∧ clock_ok m1 q1 ∧
    all_later (now (ticked m)) q1 ∧ OneTick m = Done (r, m') ∧ queued m' q' ∧ in_order q' ∧ q' ≡ₚ q1 ∧
    level (interrupt m') = IntOn ∧ clock m' = clock (ticked m) ∧ rest m' = rest m1 ∧
    inHandler (interrupt m') = false ∧ yieldOnReturn (interrupt m') = false ∧
    (if yieldOnReturn (interrupt m1) then r = Some (status (interrupt m)) ∧ status (interrupt m') = SystemMode
     else r = None ∧ status (interrupt m') = status (interrupt m)).
Proof.
  intros Hq Ho Hd Hh Hs. pose proof (ticked_ok m q Hq Ho Hd) as Hok.
  assert (inHandler (interrupt (ticked m)) = false ∧ status (interrupt (ticked m)) = status (interrupt m))
    as [Hh' Hs'] by (unfold ticked; by destruct (status (interrupt m)) eqn:?).
  destruct (check_pending_delivers (ticked m) q Hok Hh') as
    (m1 & q1 & q' & l & Hdel & Hok1 & Hall & Hrun & Hl & Ho' & Hp & Hpass); [congruence|].
  destruct Hpass as [_ Hst Hha Hck _]. rewrite Hs' in Hst. rewrite Hh' in Hha.
  change (status (interrupt m1) = status (interrupt m)) in Hst. change (inHandler (interrupt m1) = false) in Hha.
  rewrite OneTick_starts, (bind_Done _ _ _ _ _ Hrun), (bind_Done (ChangeLevel IntOff IntOn) _ _ _ _ eq_refl),
    (bind_Done get _ _ _ _ eq_refl).
  change (yieldOnReturn (interrupt (with_level IntOn (with_pending l m1)))) with (yieldOnReturn (interrupt m1)).
  exists m1, q1. destruct (yieldOnReturn (interrupt m1)) eqn:Hy; do 2 eexists; exists q'.
  all: split; [exact Hdel|]; split; [exact Hok1|]; split; [exact Hall|]; split; [reflexivity|].
  all: split; [exact Hl|]; split; [exact Ho'|]; split; [exact Hp|]; split; [done|]; split; [exact Hck|].
  all: split_and!; cbn; congruence.
Qed.

(** ** Idling *)

(** The clock moved on to the time [t], if that is later. *)
Definition idled (t : Z) (m : Nachos) : Nachos :=
  let m := with_status IdleMode m in
  if now m <? t then add_ticks (t - now m) 0 0 m else m.

Lemma idled_facts t m : level (interrupt (idled t m)) = level (interrupt m) ∧
  inHandler (interrupt (idled t m)) = inHandler (interrupt m) ∧
  status (interrupt (idled t m)) = IdleMode ∧ rest (idled t m) = rest m ∧
  pending (interrupt (idled t m)) = pending (interrupt m) ∧ now (idled t m) = Z.max (now m) t ∧
  clock (idled t m) = (Z.max (now m) t, idleTicks (stats m) + (Z.max (now m) t - now m),
    systemTicks (stats m), userTicks (stats m)).
Proof.
  unfold idled, clock. change (now (with_status IdleMode m)) with (now m). unfold now.
  destruct (Z.ltb_spec (totalTicks (stats m)) t); cbn; split_and!; try reflexivity; try lia.
  all: repeat (apply (f_equal2 pair)); lia.
Qed.

(** Idling stops the machine when nothing but the timer is pending. *)
Definition only_timer (q : list PendingInterrupt) : Prop :=
  match q with [] => True | [p] => type p = TimerInt | _ => False end.

Lemma Idle_halts m q : clock_ok m q → only_timer q → Idle m = Fault Halted.
Proof.
  intros [Hq Ho Hd Hl] Ht. unfold Idle. rewrite (bind_Done _ _ _ _ _ eq_refl).
  pose proof (CheckIfDue_cases true (with_status IdleMode m) q Hl Hq) as Hc.
  destruct q as [|p [|]]; cbn zeta in Hc; [|cbn in Ht|done].
  - destruct Hc as (l & Hc & _). by rewrite (bind_Done _ _ _ _ _ Hc).
  - cbn [negb andb] in Hc. rewrite !bool_decide_true in Hc by done. destruct Hc as (l & Hc & _).
    by rewrite (bind_Done _ _ _ _ _ Hc).
Qed.

Lemma Idle_fires m p q : clock_ok m (p :: q) → ¬ only_timer (p :: q) →
  ∃ l, holds l q ∧ Idle m = (fire p ;;; check_pending ;;; modify (with_yield false) ;;;
    modify (with_status SystemMode)) (with_pending l (idled (when p) m)).
Proof.
  intros [Hq Ho Hd Hl] Ht. unfold Idle. rewrite (bind_Done _ _ _ _ _ eq_refl).
  pose proof (CheckIfDue_cases true (with_status IdleMode m) (p :: q) Hl Hq) as Hc.
  cbn [negb andb] in Hc. cbn zeta in Hc. destruct (_ && _ && _) eqn:Hlone in Hc.
  { apply lone_timer in Hlone as (_ & Hty & ->). by destruct Ht. }
  destruct Hc as (l & Hc & Hl' & _). exists l. split; [done|].
  rewrite (bind_run _ _ _ _ _ Hc), bind_assoc. reflexivity.
Qed.

Lemma Idle_spec m p q : clock_ok m (p :: q) → inHandler (interrupt m) = false → ¬ only_timer (p :: q) →
  wp no_fault Idle (λ _ m', ∃ q', clock_ok m' q' ∧ (all_later (now m') q' ∨ only_timer q') ∧
    now m' = Z.max (now m) (when p) ∧
    clock m' = (now m', idleTicks (stats m) + (now m' - now m), systemTicks (stats m), userTicks (stats m)) ∧
    status (interrupt m') = SystemMode ∧ yieldOnReturn (interrupt m') = false ∧
    inHandler (interrupt m') = false) m.
Proof.
  intros Hok Hh Ht. destruct (Idle_fires m p q Hok Ht) as (l & Hl & Hi).
  eapply wp_run; [exact Hi|]. clear Hi.
  pose proof (idled_facts (when p) m) as (Hlv & Hh' & Hs' & Hr' & Hp' & Hn' & Hc').
  assert (clock_ok (idled (when p) m) (p :: q)) as Hok'.
  { destruct Hok as [? ? ? ?]. constructor; [by unfold queued; rewrite Hp'|done|by rewrite Hr'|congruence]. }
  rewrite Hh in Hh'. apply wp_bind. eapply wp_mono; [by apply (fire_head _ p q)|].
  intros _ m1 (q1 & Hok1 & Hlat). pose proof Hlat as [_ Hs1 Hh1 Hc1 _].
  apply wp_bind. eapply wp_mono; [apply (check_pending_spec m1 q1 Hok1); congruence|].
  intros _ m2 (q2 & [? ? ? ?] & [_ Hs2 Hh2 Hc2 Hset]). apply wp_bind, wp_modify, wp_modify. exists q2.
  assert (clock m2 = clock (idled (when p) m)) as Hck by congruence.
  split; [by constructor|]. change (now (with_status _ _)) with (now m2). rewrite (clock_now _ _ Hck), Hn'.
  split_and!; [|done| |done..|].
  - destruct Hset as [(new & Hnew & Hq2)|(_ & x & -> & Ht' & _)]; [left|by right].
    assert (now m1 = Z.max (now m) (when p)) as Hn1 by (rewrite <- Hn'; by apply clock_now).
    rewrite Hn1 in *. intros x. rewrite Hq2, elem_of_app, list_elem_of_filter. intros [?|[? _]]; auto.
  - change (clock (with_status _ _)) with (clock m2). by rewrite Hck, Hc'.
  - cbn. congruence.
Qed.

(** ** Between the routines *)

(** The machine outside the routines of this file. *)
Record machine_ok (m : Nachos) (q : list PendingInterrupt) : Prop := {
  mo_queued : queued m q;
  mo_order : in_order q;
  mo_devices : device_inv q (rest m);
  mo_handler : inHandler (interrupt m) = false;
  mo_status : status (interrupt m) ≠ IdleMode;
  mo_now : 0 <= now m
}.

Lemma machine_ok_level m q l : machine_ok m q → machine_ok (with_level l m) q.
Proof. by intros []. Qed.

Lemma machine_ok_status m q st : st ≠ IdleMode → machine_ok m q → machine_ok (with_status st m) q.
Proof. by intros ? []. Qed.

Lemma now_ticked m : now (ticked m) =
  now m + match status (interrupt m) with SystemMode => SystemTick | _ => UserTick end.
Proof. unfold ticked, now. by destruct (status (interrupt m)). Qed.

Lemma OneTick_ok m q : machine_ok m q →
  wp no_fault OneTick (λ r m', ∃ q', machine_ok m' q' ∧ all_later (now m') q' ∧ level (interrupt m') = IntOn ∧
    now m < now m' ∧
    match r with
    | None => status (interrupt m') = status (interrupt m)
    | Some st => st = status (interrupt m) ∧ status (interrupt m') = SystemMode
    end) m.
Proof.
  intros [Hq Ho Hd Hh Hs Hn].
  destruct (OneTick_spec m q Hq Ho Hd Hh Hs) as
    (m1 & q1 & r & m' & q' & _ & [_ _ Hd1 _] & Hl & He & Hq' & Ho' & Hp & Hlv & Hc & Hr & Hh' & Hy' & Hres).
  unfold wp. rewrite He. exists q'.
  assert (now m' = now (ticked m)) as Hnow by (by apply clock_now).
  pose proof (now_ticked m) as Ht. rewrite Hnow.
  assert (now m < now (ticked m)) as Hlt.
  { rewrite Ht. unfold SystemTick, UserTick. destruct (status (interrupt m)); lia. }
  split; [|split; [|split; [done|split; [done|]]]].
  - constructor; try done; [rewrite Hr; by eapply device_perm| |rewrite Hnow; lia].
    destruct (yieldOnReturn (interrupt m1)); destruct Hres as [_ ->]; done.
  - intros p. rewrite Hp. apply Hl.
  - destruct (yieldOnReturn (interrupt m1)); [by destruct Hres as [-> ?]|by destruct Hres as [-> ?]].
Qed.

Lemma Idle_ok m q : machine_ok m q → level (interrupt m) = IntOff → ¬ only_timer q →
  wp no_fault Idle (λ _ m', ∃ q', machine_ok m' q' ∧ level (interrupt m') = IntOff) m.
Proof.
  intros [Hq Ho Hd Hh Hs Hn] Hl Ht. destruct q as [|p q]; [by destruct Ht|].
  eapply wp_mono; [apply (Idle_spec m p q); [by constructor|done..]|].
  intros _ m' (q' & [? ? ? ?] & _ & Hnow & _ & Hst & Hy & Hh'). exists q'. split; [|done].
  constructor; try done; [by rewrite Hst|rewrite Hnow; lia].
Qed.

Lemma SetLevel_off m : SetLevel IntOff m = Done ((level (interrupt m), None), with_level IntOff m).
Proof. done. Qed.

Lemma SetLevel_on m : inHandler (interrupt m) = false → level (interrupt m) = IntOff →
  SetLevel IntOn m = (let! y := OneTick in ret (IntOff, y)) (with_level IntOn m).
Proof. intros Hh Hl. unfold SetLevel, bind at 1, get. by rewrite Hh, Hl. Qed.
End operations.
End interrupt.
