(* ===== verification/Drive.v ===== *)
(** * Drive: the time a request to the disk takes, machine/disk.cc

    The disk turns at one sector per [RotationTime] ticks and its head crosses
    one track per [SeekTime]; a buffer holds the track under the head since
    [bufferInit].  The clock is 64 bits wide and [timeAfter] and [bufferInit]
    are [int]s, so both are wrapped here as the code's conversions wrap them. *)
From S2P Require Import Prelude Translate HostFile Disk PtrList Interrupt.
From stdpp Require Import base list.
From Stdlib Require Import ZArith Lia ZifyBool.

Local Open Scope Z_scope.
#[local] Ltac Zify.zify_post_hook ::= Z.to_euclidean_division_equations.

(** The rest of [class Disk]: file Disk has the file and [active]. *)
Record Drive := mkDrive {
  disk : Disk;
  lastSector : Z;
  bufferInit : Z
}.

(** [TimeToSeek]: the seek, and the [rotation] to the next sector boundary. *)
Definition TimeToSeek (d : Drive) (totalTicks newSector : Z) : Z * Z :=
  let newTrack := Z.quot newSector SectorsPerTrack in
  let oldTrack := Z.quot (lastSector d) SectorsPerTrack in
  let seek := s32 (Z.abs (newTrack - oldTrack) * SeekTime) in
  let over := s32 (Z.rem (totalTicks + seek) RotationTime) in
  (seek, if 0 <? over then s32 (RotationTime - over) else 0).

Definition ModuloDiff (to from : Z) : Z :=
  let toOffset := Z.rem to SectorsPerTrack in
  let fromOffset := Z.rem from SectorsPerTrack in
  Z.rem ((toOffset - fromOffset) + SectorsPerTrack) SectorsPerTrack.

(** Whether the request is served from the track buffer. *)
Definition buffered (d : Drive) (newSector : Z) (writing : bool) (seek timeAfter : Z) : bool :=
  negb writing && (seek =? 0) &&
  (ModuloDiff newSector (s32 (Z.quot (bufferInit d) RotationTime)) <?
     Z.quot (timeAfter - bufferInit d) RotationTime).

Definition ComputeLatency (d : Drive) (totalTicks newSector : Z) (writing : bool) : Z :=
  let '(seek, rotation) := TimeToSeek d totalTicks newSector in
  let timeAfter := s32 (totalTicks + seek + rotation) in
  if buffered d newSector writing seek timeAfter then RotationTime
  else
    let rotation := s32 (rotation + ModuloDiff newSector (s32 (Z.quot timeAfter RotationTime)) * RotationTime) in
    s32 (seek + rotation + RotationTime).

Definition UpdateLast (d : Drive) (totalTicks newSector : Z) : Drive :=
  let '(seek, rotate) := TimeToSeek d totalTicks newSector in
  mkDrive (disk d) newSector
    (if seek =? 0 then bufferInit d else s32 (totalTicks + seek + rotate)).

(** ** Bounds *)

(** The head is over a sector of the disk. *)
Definition head_ok (d : Drive) : Prop := is_sector (lastSector d).

Lemma s32_in_range z : - 2 ^ 31 <= z < 2 ^ 31 → s32 z = z.
Proof. unfold s32, u32. intros Hz. destruct (Z.ltb_spec (z mod 2 ^ 32) (2 ^ 31)); lia. Qed.

Lemma ModuloDiff_range to from : 0 <= to → 0 <= ModuloDiff to from < SectorsPerTrack.
Proof. unfold ModuloDiff, SectorsPerTrack. intros. lia. Qed.

(** From the head's track at most 31 tracks away, then to a sector boundary. *)
Lemma TimeToSeek_spec d t n : head_ok d → is_sector n → 0 <= t →
  let '(seek, rotation) := TimeToSeek d t n in
  seek = Z.abs (n / SectorsPerTrack - lastSector d / SectorsPerTrack) * SeekTime ∧
  0 <= seek <= 31 * SeekTime ∧ 0 <= rotation < RotationTime ∧ (t + seek + rotation) mod RotationTime = 0.
Proof.
  unfold head_ok, is_sector, NumSectors, SectorsPerTrack, NumTracks, TimeToSeek, RotationTime, SeekTime, SectorsPerTrack.
  intros Hd Hn Ht. cbn zeta.
  rewrite (Z.quot_div_nonneg n), (Z.quot_div_nonneg (lastSector d)) by lia.
  set (k := Z.abs (n / 32 - lastSector d / 32)). assert (0 <= k <= 31) as Hk by (unfold k; lia). clearbody k.
  rewrite (s32_in_range (k * 500)) by lia.
  rewrite Z.rem_mod_nonneg by lia. rewrite (s32_in_range ((t + k * 500) mod 500)) by lia.
  destruct (Z.ltb_spec 0 ((t + k * 500) mod 500)); [rewrite s32_in_range by lia|]; split_and!; lia.
Qed.

(** Every request takes at least one sector's time, so that its interrupt is
    scheduled for later, whatever the clock and the buffer. *)
Lemma ComputeLatency_bounds d t n w : head_ok d → is_sector n → 0 <= t →
  RotationTime <= ComputeLatency d t n w <= 31 * SeekTime + 33 * RotationTime.
Proof.
  intros Hd Hn Ht. pose proof (TimeToSeek_spec d t n Hd Hn Ht) as Hs. unfold ComputeLatency.
  destruct (TimeToSeek d t n) as [seek rotation]. destruct Hs as (_ & Hs & Hr & _).
  cbn zeta. destruct (buffered _ _ _ _ _); [unfold RotationTime, SeekTime; lia|].
  pose proof (ModuloDiff_range n (s32 (Z.quot (s32 (t + seek + rotation)) RotationTime)) ltac:(apply Hn)) as Hm.
  unfold RotationTime, SeekTime, SectorsPerTrack in *. rewrite (s32_in_range (rotation + _)) by lia.
  rewrite s32_in_range by lia. lia.
Qed.

Lemma UpdateLast_ok d t n : is_sector n → head_ok (UpdateLast d t n).
Proof. unfold UpdateLast, head_ok. by destruct (TimeToSeek d t n). Qed.

(** Until the sector [to] the disk turns by [ModuloDiff to from] sectors from
    the sector [from]. *)
Lemma ModuloDiff_spec to from : 0 <= to → 0 <= from →
  (from + ModuloDiff to from) mod SectorsPerTrack = to mod SectorsPerTrack ∧
  ∀ k, 0 <= k < ModuloDiff to from → (from + k) mod SectorsPerTrack ≠ to mod SectorsPerTrack.
Proof.
  intros Ht Hf. unfold ModuloDiff, SectorsPerTrack. rewrite !Z.rem_mod_nonneg by lia.
  split; [lia|]. intros k Hk. lia.
Qed.

(** At the time [t] the sector [n] of its track comes under the head. *)
Definition sector_starts (t n : Z) : Prop :=
  t mod RotationTime = 0 ∧ (t / RotationTime) mod SectorsPerTrack = n mod SectorsPerTrack.

(** C31: the time the disk charges for a write is the time
    the mechanics need.  The transfer, of one rotation of a sector, starts when
    the head is over the track and the sector comes under it, and not at a later
    passage of the sector than the first after the head has arrived. *)
Theorem write_reaches_sector d t n : head_ok d → is_sector n → 0 <= t < 2 ^ 31 - 2 ^ 16 →
  let start := t + ComputeLatency d t n true - RotationTime in
  let arrived := t + (TimeToSeek d t n).1 in
  arrived <= start ∧ sector_starts start n ∧ ∀ u, arrived <= u < start → ¬ sector_starts u n.
Proof.
  intros Hd Hn Ht. pose proof (TimeToSeek_spec d t n Hd Hn ltac:(lia)) as Hs. unfold ComputeLatency.
  destruct (TimeToSeek d t n) as [seek rotation]. destruct Hs as (_ & Hs & Hr & Ho).
  cbn [buffered negb andb fst]. cbn zeta.
  unfold RotationTime, SeekTime in *.
  rewrite (s32_in_range (t + seek + rotation)) by lia. set (a := t + seek + rotation) in *.
  rewrite Z.quot_div_nonneg by lia. rewrite (s32_in_range (a / 500)) by lia.
  pose proof (ModuloDiff_range n (a / 500) ltac:(apply Hn)) as Hm.
  destruct (ModuloDiff_spec n (a / 500)) as [Hmod Hfirst]; [apply Hn|lia|].
  set (k := ModuloDiff n (a / 500)) in *. clearbody k. unfold SectorsPerTrack in *.
  rewrite (s32_in_range (rotation + k * 500)) by lia. rewrite s32_in_range by lia.
  assert (t + (seek + (rotation + k * 500) + 500) - 500 = a + k * 500) as -> by lia.
  assert ((a + k * 500) / 500 = a / 500 + k) as Hdiv by lia. unfold sector_starts, RotationTime, SectorsPerTrack.
  split_and!; [lia|lia|by rewrite Hdiv|]. intros u Hu [Hu0 Hu1].
  assert (a <= u) as Hau by lia.
  apply (Hfirst (u / 500 - a / 500)); [lia|]. by replace (a / 500 + (u / 500 - a / 500)) with (u / 500) by lia.
Qed.

Lemma write_reaches_sector_witness :
  let d := mkDrive (mkDisk [] false) 40 0 in
  sector_starts (1234 + ComputeLatency d 1234 70 true - RotationTime) 70 ∧
  ComputeLatency d 1234 70 true = 2266.
Proof.
  intros d. split; [|vm_compute; reflexivity].
  apply (write_reaches_sector d 1234 70); vm_compute; split; discriminate || reflexivity.
Defined.
