(* ===== verification/Devices.v ===== *)
(** * Devices: the simulated timer, console, network and disk

    machine/timer.cc, machine/console.cc, machine/network.cc and
    machine/disk.cc over the clock of file Interrupt, with the kernel's
    handlers, each of which signals a semaphore of file Synch (the timer's asks
    for a context switch).  A handler runs with interrupts off, so that the
    [SetLevel] calls of [V] change nothing.

    The outside is in the state: characters typed at the keyboard and not read
    yet, those displayed, datagrams that wait at the socket and those sent.
    [Random()] is an argument, indexed by the number of the call. *)
From S2P Require Import Prelude PtrList ServerState Translate HostFile Disk Synch Interrupt Drive.
From Stdlib Require Import ZArith QArith Lia ZifyBool.
From stdpp Require Import functions base list gmap sorting.

Local Open Scope Z_scope.
#[local] Ltac Zify.zify_post_hook ::= Z.to_euclidean_division_equations.

(** ** Data *)

(** The procedures that are passed to [Schedule]; their argument is the
    device, of which there is one of each kind. *)
Inductive DeviceHandler :=
| TimerHandler | ConsoleReadPoll | ConsoleWriteDone | NetworkReadPoll | NetworkSendDone | DiskDone.

Definition kind_of (h : DeviceHandler) : IntType :=
  match h with
  | TimerHandler => TimerInt | ConsoleReadPoll => ConsoleReadInt | ConsoleWriteDone => ConsoleWriteInt
  | NetworkReadPoll => NetworkRecvInt | NetworkSendDone => NetworkSendInt | DiskDone => DiskInt
  end.

Record Timer := mkTimer { randomize : bool }.

(** [incoming] is a [char], or [EOF]; the handlers signal the semaphores
    [charAvail] and [charDone]. *)
Record Console := mkConsole {
  charAvail : nat;
  charDone : nat;
  putBusy : bool;
  incoming : Z;
  keyboard : list Z;
  display : list Z
}.
Definition EOF : Z := -1.

Record PacketHeader := mkPacketHeader { pkt_to : Z; pkt_from : Z; pkt_length : Z }.

(** [chanceToWork] is a [double], here a rational. *)
Record Network := mkNetwork {
  pktAvail : nat;
  pktSent : nat;
  ident : Z;
  chanceToWork : Q;
  sendBusy : bool;
  inHdr : PacketHeader;
  inbox : list Z;
  socket : list (list Z);
  wire : list (Z * list Z)
}.

Record Devices := mkDevices {
  kernel : Kernel;
  timer : option Timer;
  console : option Console;
  network : option Network;
  drive : option Drive;
  diskDone : nat;                (* the semaphore of [SynchDisk] *)
  machine : option Machine;
  randoms : nat                  (* calls of [Random()] so far *)
}.

Notation Nachos := (Interrupt.Nachos (H := DeviceHandler) (W := Devices)).
Notation Pending := (PendingInterrupt (H := DeviceHandler)).

Definition with_kernel (k : Kernel) (d : Devices) : Devices :=
  mkDevices k (timer d) (console d) (network d) (drive d) (diskDone d) (machine d) (randoms d).
Definition with_timer (t : option Timer) (d : Devices) : Devices :=
  mkDevices (kernel d) t (console d) (network d) (drive d) (diskDone d) (machine d) (randoms d).
Definition with_console (c : Console) (d : Devices) : Devices :=
  mkDevices (kernel d) (timer d) (Some c) (network d) (drive d) (diskDone d) (machine d) (randoms d).
Definition with_network (n : Network) (d : Devices) : Devices :=
  mkDevices (kernel d) (timer d) (console d) (Some n) (drive d) (diskDone d) (machine d) (randoms d).
Definition with_drive (x : Drive) (d : Devices) : Devices :=
  mkDevices (kernel d) (timer d) (console d) (network d) (Some x) (diskDone d) (machine d) (randoms d).
Definition with_machine (m : Machine) (d : Devices) : Devices :=
  mkDevices (kernel d) (timer d) (console d) (network d) (drive d) (diskDone d) (Some m) (randoms d).
Definition with_randoms (n : nat) (d : Devices) : Devices :=
  mkDevices (kernel d) (timer d) (console d) (network d) (drive d) (diskDone d) (machine d) n.

(** [there x]: a device the code reaches through a pointer. *)
Definition there {A} (x : option A) : M Nachos A :=
  match x with Some a => ret a | None => fail NullDeref end.

Definition set_rest (f : Devices → Devices) : M Nachos unit := modify (λ m, with_rest (f (rest m)) m).

(** An operation of the kernel. *)
Definition on_kernel {A} (op : M Kernel A) : M Nachos A := λ m,
  match op (kernel (rest m)) with
  | Done (a, k) => Done (a, with_rest (with_kernel k (rest m)) m)
  | Fault f => Fault f
  end.

Definition signal (s : nat) : M Nachos unit := let! _r := on_kernel (V s) in ret ().

(** One more event in the statistics. *)
Definition count_char_read (m : Nachos) : Nachos :=
  let s := stats m in
  with_stats (mkStatistics (totalTicks s) (idleTicks s) (systemTicks s) (userTicks s) (numDiskReads s)
    (numDiskWrites s) (numConsoleCharsRead s + 1) (numConsoleCharsWritten s) (numPageFaults s)
    (numPacketsSent s) (numPacketsRecvd s)) m.
Definition count_char_written (m : Nachos) : Nachos :=
  let s := stats m in
  with_stats (mkStatistics (totalTicks s) (idleTicks s) (systemTicks s) (userTicks s) (numDiskReads s)
    (numDiskWrites s) (numConsoleCharsRead s) (numConsoleCharsWritten s + 1) (numPageFaults s)
    (numPacketsSent s) (numPacketsRecvd s)) m.
Definition count_packet_sent (m : Nachos) : Nachos :=
  let s := stats m in
  with_stats (mkStatistics (totalTicks s) (idleTicks s) (systemTicks s) (userTicks s) (numDiskReads s)
    (numDiskWrites s) (numConsoleCharsRead s) (numConsoleCharsWritten s) (numPageFaults s)
    (numPacketsSent s + 1) (numPacketsRecvd s)) m.
Definition count_packet_recvd (m : Nachos) : Nachos :=
  let s := stats m in
  with_stats (mkStatistics (totalTicks s) (idleTicks s) (systemTicks s) (userTicks s) (numDiskReads s)
    (numDiskWrites s) (numConsoleCharsRead s) (numConsoleCharsWritten s) (numPageFaults s)
    (numPacketsSent s) (numPacketsRecvd s + 1)) m.
Definition count_disk (reads writes : Z) (m : Nachos) : Nachos :=
  let s := stats m in
  with_stats (mkStatistics (totalTicks s) (idleTicks s) (systemTicks s) (userTicks s)
    (numDiskReads s + reads) (numDiskWrites s + writes) (numConsoleCharsRead s)
    (numConsoleCharsWritten s) (numPageFaults s) (numPacketsSent s) (numPacketsRecvd s)) m.

(** ** The devices *)

Section devices.
Context (big_endian : bool) (Random : nat → Z).

Definition random : M Nachos Z :=
  let! m := get in
  let n := randoms (rest m) in
  set_rest (with_randoms (S n)) ;;; ret (Random n).

(** *** machine/timer.cc *)

Definition TimeOfNextInterrupt (t : Timer) : M Nachos Z :=
  if randomize t then let! r := random in ret (1 + Z.rem r (TimerTicks * 2)) else ret TimerTicks.

(** [TimerInterruptHandler] of threads/system.cc. *)
Definition TimerInterruptHandler : M Nachos unit :=
  let! m := get in
  if bool_decide (status (interrupt m) = IdleMode) then ret () else YieldOnReturn.

Definition TimerExpired : M Nachos unit :=
  let! m := get in
  let! t := there (timer (rest m)) in
  let! time := TimeOfNextInterrupt t in
  Schedule TimerHandler 0 time TimerInt ;;;
  TimerInterruptHandler.

Definition new_Timer (doRandom : bool) : M Nachos unit :=
  let t := mkTimer doRandom in
  let! time := TimeOfNextInterrupt t in
  Schedule TimerHandler 0 time TimerInt ;;;
  set_rest (with_timer (Some t)).

(** *** machine/console.cc *)

Definition CheckCharAvail : M Nachos unit :=
  Schedule ConsoleReadPoll 0 ConsoleTime ConsoleReadInt ;;;
  let! m := get in
  let! c := there (console (rest m)) in
  if negb (incoming c =? EOF) then ret ()
  else match keyboard c with
  | [] => ret ()
  | b :: typed =>
      set_rest (with_console (mkConsole (charAvail c) (charDone c) (putBusy c) (s8 b) typed (display c))) ;;;
      modify count_char_read ;;;
      signal (charAvail c)
  end.

Definition WriteDone : M Nachos unit :=
  let! m := get in
  let! c := there (console (rest m)) in
  set_rest (with_console (mkConsole (charAvail c) (charDone c) false (incoming c) (keyboard c) (display c))) ;;;
  modify count_char_written ;;;
  signal (charDone c).

Definition GetChar : M Nachos Z :=
  let! m := get in
  let! c := there (console (rest m)) in
  let ch := incoming c in
  set_rest (with_console (mkConsole (charAvail c) (charDone c) (putBusy c) EOF (keyboard c) (display c))) ;;;
  ret ch.

Definition PutChar (ch : Z) : M Nachos unit :=
  let! m := get in
  let! c := there (console (rest m)) in
  ASSERT (negb (putBusy c)) ;;;
  set_rest (with_console (mkConsole (charAvail c) (charDone c) true (incoming c) (keyboard c)
    (display c ++ [ch]))) ;;;
  Schedule ConsoleWriteDone 0 ConsoleTime ConsoleWriteInt.

Definition new_Console (readAvail writeDone : nat) : M Nachos unit :=
  set_rest (with_console (mkConsole readAvail writeDone false EOF [] [])) ;;;
  Schedule ConsoleReadPoll 0 ConsoleTime ConsoleReadInt.

(** *** machine/network.cc *)

Definition header_bytes (h : PacketHeader) : list Z :=
  host_bytes big_endian 4 (u32 (pkt_to h)) ++ host_bytes big_endian 4 (u32 (pkt_from h)) ++
  host_bytes big_endian 4 (pkt_length h).
Definition header_of (bs : list Z) : PacketHeader :=
  mkPacketHeader (s32 (host_value big_endian (take 4 bs)))
    (s32 (host_value big_endian (take 4 (drop 4 bs)))) (host_value big_endian (take 4 (drop 8 bs))).

(** [ReadFromSocket]: a datagram of the expected size. *)
Definition ReadFromSocket (n : Network) : M Nachos (list Z) :=
  match socket n with
  | [] => fail AssertFailed
  | d :: ds =>
      ASSERT (Z.of_nat (length d) =? MaxWireSize) ;;;
      set_rest (with_network (mkNetwork (pktAvail n) (pktSent n) (ident n) (chanceToWork n) (sendBusy n)
        (inHdr n) (inbox n) ds (wire n))) ;;;
      ret d
  end.

Definition CheckPktAvail : M Nachos unit :=
  Schedule NetworkReadPoll 0 NetworkTime NetworkRecvInt ;;;
  let! m := get in
  let! n := there (network (rest m)) in
  if negb (pkt_length (inHdr n) =? 0) then ret ()
  else if bool_decide (socket n = []) then ret ()
  else
    let! buffer := ReadFromSocket n in
    let h := header_of buffer in
    ASSERT ((pkt_to h =? ident n) && (pkt_length h <=? MaxPacketSize)) ;;;
    let! data := lift (mem_read buffer sizeof_PacketHeader (Z.to_nat (pkt_length h))) in
    let! inbox := lift (mem_write (inbox n) 0 data) in
    set_rest (with_network (mkNetwork (pktAvail n) (pktSent n) (ident n) (chanceToWork n) (sendBusy n)
      h inbox (tail (socket n)) (wire n))) ;;;
    modify count_packet_recvd ;;;
    signal (pktAvail n).

Definition SendDone : M Nachos unit :=
  let! m := get in
  let! n := there (network (rest m)) in
  set_rest (with_network (mkNetwork (pktAvail n) (pktSent n) (ident n) (chanceToWork n) false
    (inHdr n) (inbox n) (socket n) (wire n))) ;;;
  modify count_packet_sent ;;;
  signal (pktSent n).

Section send.
(** The success of [sendto] to the socket of a machine, and what [new] finds in
    a buffer of [MaxWireSize] bytes. *)
Context (sendto : nat → Z → bool) (junk : list Z).

(** [Send]: nothing sets [sendBusy]. *)
Definition Network_Send (hdr : PacketHeader) (data : list Z) : M Nachos bool :=
  let! m := get in
  let! n := there (network (rest m)) in
  ASSERT (negb (sendBusy n) && (0 <? pkt_length hdr) && (pkt_length hdr <=? MaxPacketSize) &&
          (pkt_from hdr =? ident n)) ;;;
  Schedule NetworkSendDone 0 NetworkTime NetworkSendInt ;;;
  let! r := random in
  if Qle_bool (chanceToWork n * 100) (inject_Z (Z.rem r 100)) then ret true
  else
    let! buffer := lift (mem_write junk 0 (header_bytes hdr)) in
    let! payload := lift (mem_read data 0 (Z.to_nat (pkt_length hdr))) in
    let! buffer := lift (mem_write buffer sizeof_PacketHeader payload) in
    let! m := get in
    if sendto (randoms (rest m)) (pkt_to hdr) then
      set_rest (with_network (mkNetwork (pktAvail n) (pktSent n) (ident n) (chanceToWork n) (sendBusy n)
        (inHdr n) (inbox n) (socket n) (wire n ++ [(pkt_to hdr, buffer)]))) ;;;
      ret true
    else ret false.
End send.

(** [Receive], with the bytes stored at [data]. *)
Definition Network_Receive : M Nachos (PacketHeader * list Z) :=
  let! m := get in
  let! n := there (network (rest m)) in
  let hdr := inHdr n in
  set_rest (with_network (mkNetwork (pktAvail n) (pktSent n) (ident n) (chanceToWork n) (sendBusy n)
    (mkPacketHeader (pkt_to hdr) (pkt_from hdr) 0) (inbox n) (socket n) (wire n))) ;;;
  if pkt_length hdr =? 0 then ret (hdr, [])
  else let! data := lift (mem_read (inbox n) 0 (Z.to_nat (pkt_length hdr))) in ret (hdr, data).

(** The constructor clamps the reliability. *)
Definition new_Network (addr : Z) (reliability : Q) (readAvail writeDone : nat) (hdr : PacketHeader)
    (box : list Z) : M Nachos unit :=
  let chance := if Qle_bool 0 reliability then if Qle_bool reliability 1 then reliability else 1%Q else 0%Q in
  set_rest (with_network (mkNetwork readAvail writeDone addr chance false
    (mkPacketHeader (pkt_to hdr) (pkt_from hdr) 0) box [] [])) ;;;
  Schedule NetworkReadPoll 0 NetworkTime NetworkRecvInt.

(** *** machine/disk.cc *)

Definition on_disk {A} (op : M Disk A) : M Nachos A :=
  let! m := get in
  let! d := there (drive (rest m)) in
  let! r := lift (op (disk d)) in
  set_rest (with_drive (mkDrive r.2 (lastSector d) (bufferInit d))) ;;;
  ret r.1.

(** What both requests do after the file operation. *)
Definition request_sent (sectorNumber ticks : Z) : M Nachos unit :=
  let! m := get in
  let! d := there (drive (rest m)) in
  set_rest (with_drive (UpdateLast d (now m) sectorNumber)) ;;;
  Schedule DiskDone 0 ticks DiskInt.

Definition Drive_ReadRequest (sectorNumber : Z) : M Nachos (list Z) :=
  let! m := get in
  let! d := there (drive (rest m)) in
  let ticks := ComputeLatency d (now m) sectorNumber false in
  let! data := on_disk (ReadRequest sectorNumber) in
  modify (count_disk 1 0) ;;;
  request_sent sectorNumber ticks ;;;
  ret data.

Definition Drive_WriteRequest (sectorNumber : Z) (data : list Z) : M Nachos unit :=
  let! m := get in
  let! d := there (drive (rest m)) in
  let ticks := ComputeLatency d (now m) sectorNumber true in
  on_disk (WriteRequest sectorNumber data) ;;;
  modify (count_disk 0 1) ;;;
  request_sent sectorNumber ticks.

Definition Drive_HandleInterrupt : M Nachos unit :=
  let! m := get in
  on_disk HandleInterrupt ;;;
  signal (diskDone (rest m)).

(** ** The hardware *)

Definition device_handler (h : DeviceHandler) (arg : Z) : M Nachos unit :=
  match h with
  | TimerHandler => TimerExpired
  | ConsoleReadPoll => CheckCharAvail
  | ConsoleWriteDone => WriteDone
  | NetworkReadPoll => CheckPktAvail
  | NetworkSendDone => SendDone
  | DiskDone => Drive_HandleInterrupt
  end.

(** [machine->DelayedLoad(0, 0)], when user programs run. *)
Definition machine_finish_load : M Nachos unit :=
  let! m := get in
  match machine (rest m) with
  | None => ret ()
  | Some x => let! r := lift (DelayedLoad 0 0 x) in set_rest (with_machine r.2)
  end.

#[export] Instance device_hardware : Hardware := {
  invoke := device_handler;
  finish_load := machine_finish_load
}.

(** ** What the devices have scheduled *)

Definition scheduled (k : IntType) (q : list Pending) : nat := length (filter (λ p, type p = k) q).

Definition present {A} (x : option A) : nat := match x with Some _ => 1%nat | None => O end.
Definition busy (b : bool) : nat := if b then 1%nat else O.

(** A datagram that a machine of this network sent to the machine [id]. *)
Definition datagram_ok (id : Z) (d : list Z) : Prop :=
  Z.of_nat (length d) = MaxWireSize ∧ pkt_to (header_of d) = id ∧ 0 <= pkt_length (header_of d) <= MaxPacketSize.

(** The delayed load of the machine names a general register. *)
Definition load_ok (m : Machine) : Prop :=
  length (registers m) = Z.to_nat NumTotalRegs ∧ ∃ r, registers m !! Z.to_nat LoadReg = Some r ∧ 0 <= r < 32.

(** What is known of the kernel, kept by the signals of the handlers. *)
Context (kernel_inv : Kernel → Prop).

(** Each device has what it waits for on the list, once: the timer its next
    tick, console and network their next poll, and a write, or a request to
    the disk, its end. *)
Record devices_ok (q : list Pending) (w : Devices) : Prop := {
  dv_kind : ∀ p, p ∈ q → type p = kind_of (handler p);
  dv_timer : scheduled TimerInt q = present (timer w);
  dv_read : scheduled ConsoleReadInt q = present (console w);
  dv_write : scheduled ConsoleWriteInt q = match console w with Some c => busy (putBusy c) | None => O end;
  dv_recv : scheduled NetworkRecvInt q = present (network w);
  dv_send : network w = None → scheduled NetworkSendInt q = 0%nat;
  dv_disk : scheduled DiskInt q = match drive w with Some d => busy (active (disk d)) | None => O end;
  dv_net : ∀ n, network w = Some n → Forall (datagram_ok (ident n)) (socket n) ∧
             Z.of_nat (length (inbox n)) = MaxPacketSize ∧ 0 <= pkt_length (inHdr n) <= MaxPacketSize ∧
             sendBusy n = false;
  dv_head : ∀ d, drive w = Some d → head_ok d;
  dv_load : ∀ m, machine w = Some m → load_ok m;
  dv_kernel : kernel_inv (kernel w)
}.

Lemma scheduled_perm k q q' : q ≡ₚ q' → scheduled k q = scheduled k q'.
Proof. unfold scheduled. by intros ->. Qed.

Lemma scheduled_cons k p q :
  scheduled k (p :: q) = ((if decide (type p = k) then 1 else 0) + scheduled k q)%nat.
Proof. unfold scheduled. rewrite filter_cons. by case_decide. Qed.

Lemma scheduled_enqueue k p q :
  scheduled k (enqueue p q) = ((if decide (type p = k) then 1 else 0) + scheduled k q)%nat.
Proof. by rewrite (scheduled_perm _ _ _ (enqueue_perm p q)), scheduled_cons. Qed.

Lemma devices_perm q q' w : q ≡ₚ q' → devices_ok q w → devices_ok q' w.
Proof.
  intros Hq []. constructor; try done; try (by rewrite <- (scheduled_perm _ _ _ Hq)).
  intros p Hp. apply dv_kind0. by rewrite Hq.
Qed.

Lemma wp_Schedule E h a t k (Q : unit → Nachos → Prop) m q : queued m q → 0 < t →
  (∀ l, holds l (enqueue (mkPendingInterrupt h a (now m + t) k) q) → Q () (with_pending l m)) →
  wp E (Schedule h a t k) Q m.
Proof.
  intros Hq Ht HQ. unfold Schedule. apply wp_bind, wp_get. cbn zeta. apply wp_bind, wp_ASSERT; [|lia].
  intros _. destruct (holds_insert (mkPendingInterrupt h a (now m + t) k) q _ Hq) as (l & Hi & Hl).
  unfold wp, on_pending. cbn [when] in Hi. rewrite Hi. by apply HQ.
Qed.

Lemma V_returns s K : ∃ K', V s K = Done (Returned, K').
Proof.
  unfold V, bind, get, put, ret, ReadyToRun, modify. destruct (sem_queue (sems K s)); eauto.
Qed.

Lemma wp_signal E s (Q : unit → Nachos → Prop) m :
  (∀ K', V s (kernel (rest m)) = Done (Returned, K') → Q () (with_rest (with_kernel K' (rest m)) m)) →
  wp E (signal s) Q m.
Proof.
  intros HQ. destruct (V_returns s (kernel (rest m))) as (K' & HV).
  unfold wp, signal, bind, on_kernel. rewrite HV. by apply HQ.
Qed.

Section handlers.
Context (Random_nonneg : ∀ n, 0 <= Random n).
Context (kernel_V : ∀ s K K', kernel_inv K → V s K = Done (Returned, K') → kernel_inv K').

(** A handler's contract: its interrupt [p] is off the list [q]. *)
Definition handles (m : Nachos) (q : list Pending) (m' : Nachos) : Prop :=
  ∃ q', queued m' q' ∧ later m m' q q' ∧ devices_ok q' (rest m').

Lemma handled_one m m' p q : queued m' (enqueue p q) → now m < when p → clock m' = clock m →
  level (interrupt m') = level (interrupt m) → status (interrupt m') = status (interrupt m) →
  inHandler (interrupt m') = inHandler (interrupt m) → devices_ok (enqueue p q) (rest m') → handles m q m'.
Proof.
  intros Hq Hp Hc Hl Hs Hh Hd. exists (enqueue p q). split; [done|]. split; [|done].
  constructor; [done..|]. exists [p]. split; [done|]. by intros ? ->%list_elem_of_singleton.
Qed.

Lemma handled_none m m' q : queued m' q → clock m' = clock m →
  level (interrupt m') = level (interrupt m) → status (interrupt m') = status (interrupt m) →
  inHandler (interrupt m') = inHandler (interrupt m) → devices_ok q (rest m') → handles m q m'.
Proof.
  intros Hq Hc Hl Hs Hh Hd. exists q. split; [done|]. split; [|done].
  constructor; [done..|]. exists []. split; [done|]. by intros ? ?%not_elem_of_nil.
Qed.

(** The fired interrupt [p] is scheduled again as [p']. *)
Lemma devices_again p p' q w : type p' = type p → type p' = kind_of (handler p') → devices_ok (p :: q) w →
  devices_ok (enqueue p' q) w.
Proof.
  intros Ht Hk [Hkind ? ? ? ? ? ? ? ? ? ?].
  constructor; try done; try (by rewrite scheduled_enqueue, Ht, <- scheduled_cons).
  - intros x [->|Hx]%elem_of_enqueue; [done|]. apply Hkind. by right.
Qed.

Lemma wp_random E (Q : Z → Nachos → Prop) m :
  (∀ r w, 0 <= r → w = with_randoms (S (randoms (rest m))) (rest m) → Q r (with_rest w m)) → wp E random Q m.
Proof. intros HQ. unfold random. apply wp_bind, wp_get. apply wp_bind, wp_modify, wp_ret. by apply HQ. Qed.

(** [devices_ok] does not look at these fields. *)
Lemma devices_ext q w w' : timer w' = timer w → console w' = console w → network w' = network w →
  drive w' = drive w → machine w' = machine w → kernel_inv (kernel w') → devices_ok q w → devices_ok q w'.
Proof. intros Ht Hc Hn Hd Hm Hk []. constructor; rewrite ?Ht, ?Hc, ?Hn, ?Hd, ?Hm; done. Qed.

Lemma devices_signal q w s K' : devices_ok q w → V s (kernel w) = Done (Returned, K') →
  devices_ok q (with_kernel K' w).
Proof. intros Hd HV. eapply devices_ext; [..|exact Hd]; try done. cbn. eapply kernel_V; [apply Hd|done]. Qed.

Lemma scheduled_here k p q n : type p = k → scheduled k (p :: q) = n → n ≠ 0%nat ∧ n = S (scheduled k q).
Proof. intros Ht <-. rewrite scheduled_cons, decide_True by done. lia. Qed.

Lemma wp_there {A} E (x : option A) a (Q : A → Nachos → Prop) m : x = Some a → Q a m → wp E (there x) Q m.
Proof. by intros ->. Qed.

(** What [CheckPktAvail] leaves of the network once the packet [d] is read. *)
Lemma network_read n d ds id w q' bs box : network w = Some n → devices_ok q' w → socket n = d :: ds →
  mem_write (inbox n) 0 bs = Done box → 0 <= pkt_length id <= MaxPacketSize →
  devices_ok q' (with_network (mkNetwork (pktAvail n) (pktSent n) (ident n) (chanceToWork n) (sendBusy n)
    id box ds (wire n)) w).
Proof.
  intros Hn [? ? ? ? Hr ? ? Hnet ? ? ?] Hs Hbox Hid. destruct (Hnet n Hn) as (Hsock & Hbl & _ & Hsb). rewrite Hn in *.
  constructor; cbn; try done. intros ? [= <-]. cbn. rewrite Hs in Hsock. apply Forall_cons in Hsock as [_ Hsock].
  apply mem_write_written in Hbox as (Hl & _). split_and!; [done|by rewrite Hl|lia..|done].
Qed.

Section one.
Context (m : Nachos) (p : Pending) (q : list Pending).
Context (Hq : queued m q) (Hh : inHandler (interrupt m) = true) (Hs : status (interrupt m) = SystemMode).
Context (Hd : devices_ok (p :: q) (rest m)).

Lemma TimerExpired_ok : type p = TimerInt → wp no_fault TimerExpired (λ _ m', handles m q m') m.
Proof.
  intros Ht. destruct (scheduled_here _ _ _ _ Ht (dv_timer _ _ Hd)) as [Hn _].
  destruct (timer (rest m)) as [t|] eqn:Htm; [|done].
  unfold TimerExpired. apply wp_bind, wp_get. rewrite Htm. apply wp_bind, wp_ret. apply wp_bind.
  assert (∀ w time, 0 < time → devices_ok (p :: q) w →
    wp no_fault (Schedule TimerHandler 0 time TimerInt ;;; TimerInterruptHandler) (λ _ m', handles m q m') (with_rest w m)) as Hrun.
  { intros w time Htime Hw. apply wp_bind, (wp_Schedule _ _ _ _ _ _ _ q); [exact Hq|done|]. intros l Hl.
    unfold TimerInterruptHandler. apply wp_bind, wp_get.
    rewrite bool_decide_false by (cbn; rewrite Hs; done).
    unfold YieldOnReturn. apply wp_bind, wp_get, wp_bind, wp_ASSERT; [|cbn; congruence].
    intros _. apply wp_modify. eapply handled_one; [exact Hl| |done..|]; [unfold now; cbn; lia|].
    by apply (devices_again p). }
  unfold TimeOfNextInterrupt, TimerTicks. destruct (randomize t).
  - apply wp_bind, wp_random. intros r w Hr ->. apply wp_ret. apply Hrun; [lia|].
    eapply devices_ext; [..|exact Hd]; try done. apply Hd.
  - apply wp_ret. destruct m as [i st w]. by apply (Hrun w).
Qed.

Lemma WriteDone_ok : type p = ConsoleWriteInt → wp no_fault WriteDone (λ _ m', handles m q m') m.
Proof.
  intros Ht. destruct (scheduled_here _ _ _ _ Ht (dv_write _ _ Hd)) as [Hn Hq0].
  destruct (console (rest m)) as [c|] eqn:Hc; [|done].
  unfold WriteDone. apply wp_bind, wp_get. rewrite Hc. apply wp_bind, wp_ret, wp_bind, wp_modify.
  apply wp_bind, wp_modify, wp_signal. intros K' HV. apply handled_none; [exact Hq|done..|].
  eapply devices_signal; [|exact HV].
  destruct Hd as [Hkind ? ? ? ? ? ? ? ? ? ?]. rewrite !scheduled_cons, !Ht in *. cbn in *.
  constructor; cbn; try done.
  - intros x Hx. apply Hkind. by right.
  - by rewrite Hc in *.
  - destruct (putBusy c); cbn in *; lia.
Qed.

Lemma CheckCharAvail_ok : type p = ConsoleReadInt → wp no_fault CheckCharAvail (λ _ m', handles m q m') m.
Proof.
  intros Ht. destruct (scheduled_here _ _ _ _ Ht (dv_read _ _ Hd)) as [Hn _].
  destruct (console (rest m)) as [c|] eqn:Hc; [|done].
  unfold CheckCharAvail. apply wp_bind, (wp_Schedule _ _ _ _ _ _ _ q); [exact Hq|done|]. intros l Hl.
  set (p' := mkPendingInterrupt ConsoleReadPoll 0 _ _) in *.
  assert (devices_ok (enqueue p' q) (rest m)) as Hd' by (by apply (devices_again p)).
  apply wp_bind, wp_get. cbn [rest with_pending with_interrupt]. rewrite Hc. apply wp_bind, wp_ret.
  assert (∀ m', queued m' (enqueue p' q) → clock m' = clock m → level (interrupt m') = level (interrupt m) →
    status (interrupt m') = status (interrupt m) → inHandler (interrupt m') = inHandler (interrupt m) →
    devices_ok (enqueue p' q) (rest m') → handles m q m') as Hdone.
  { intros m' ? ? ? ? ? ?. eapply handled_one; try done. unfold p', ConsoleTime. cbn. lia. }
  destruct (negb (incoming c =? EOF)); [by apply wp_ret, Hdone|].
  destruct (keyboard c) as [|b typed]; [by apply wp_ret, Hdone|].
  apply wp_bind, wp_modify, wp_bind, wp_modify, wp_signal. intros K' HV. apply Hdone; [exact Hl|done..|].
  eapply devices_signal; [|exact HV]. clear Hd. destruct Hd' as [? ? ? ? ? ? ? ? ? ? ?]. rewrite Hc in *. constructor; cbn; done.
Qed.

Lemma SendDone_ok : type p = NetworkSendInt → wp no_fault SendDone (λ _ m', handles m q m') m.
Proof.
  intros Ht. destruct (network (rest m)) as [n|] eqn:Hn.
  2: { pose proof (dv_send _ _ Hd Hn) as H0. by destruct (scheduled_here _ _ _ _ Ht H0). }
  unfold SendDone. apply wp_bind, wp_get. rewrite Hn. apply wp_bind, wp_ret, wp_bind, wp_modify.
  apply wp_bind, wp_modify, wp_signal. intros K' HV. apply handled_none; [exact Hq|done..|].
  eapply devices_signal; [|exact HV].
  destruct Hd as [Hkind ? ? ? ? ? ? Hnet ? ? ?]. rewrite !scheduled_cons, !Ht in *. rewrite Hn in *. cbn in *.
  constructor; cbn; try done.
  - intros x Hx. apply Hkind. by right.
  - intros ? [= <-]. destruct (Hnet n eq_refl) as (? & ? & ? & _). done.
Qed.

Lemma CheckPktAvail_ok : type p = NetworkRecvInt → wp no_fault CheckPktAvail (λ _ m', handles m q m') m.
Proof.
  intros Ht. destruct (scheduled_here _ _ _ _ Ht (dv_recv _ _ Hd)) as [Hpr _].
  destruct (network (rest m)) as [n|] eqn:Hn; [|done]. clear Hpr.
  unfold CheckPktAvail. apply wp_bind, (wp_Schedule _ _ _ _ _ _ _ q); [exact Hq|done|]. intros l Hl.
  set (p' := mkPendingInterrupt NetworkReadPoll 0 _ _) in *.
  assert (devices_ok (enqueue p' q) (rest m)) as Hd' by (by apply (devices_again p)).
  apply wp_bind, wp_get. cbn [rest with_pending with_interrupt]. rewrite Hn. apply wp_bind, wp_ret.
  assert (∀ m', queued m' (enqueue p' q) → clock m' = clock m → level (interrupt m') = level (interrupt m) →
    status (interrupt m') = status (interrupt m) → inHandler (interrupt m') = inHandler (interrupt m) →
    devices_ok (enqueue p' q) (rest m') → handles m q m') as Hdone.
  { intros m' ? ? ? ? ? ?. eapply handled_one; try done. unfold p', NetworkTime. cbn. lia. }
  destruct (negb (pkt_length (inHdr n) =? 0)); [by apply wp_ret, Hdone|].
  destruct (dv_net _ _ Hd' n Hn) as (Hsock & Hbox & _).
  destruct (socket n) as [|d ds] eqn:Hso; [by apply wp_ret, Hdone|]. rewrite bool_decide_false by done.
  apply Forall_cons in Hsock as [(Hdl & Hto & Hdlen) _].
  apply wp_bind. unfold ReadFromSocket. rewrite Hso. apply wp_bind, wp_ASSERT; [|lia]. intros _.
  apply wp_bind, wp_modify, wp_ret. cbn zeta. apply wp_bind, wp_ASSERT; [|lia]. intros _.
  unfold MaxPacketSize, MaxWireSize, sizeof_PacketHeader in *.
  apply wp_bind. eapply wp_lift; [apply mem_read_in; lia|].
  set (bs := take _ _). assert (length bs <= Z.to_nat (pkt_length (header_of d)))%nat as Hbs
    by (unfold bs; rewrite length_take; lia).
  destruct (mem_write (inbox n) 0 bs) as [box|] eqn:Hw; [|by rewrite mem_write_in in Hw by lia].
  apply wp_bind. eapply wp_lift; [reflexivity|].
  apply wp_bind, wp_modify, wp_bind, wp_modify, wp_signal. intros K' HV. apply Hdone; [exact Hl|done..|].
  eapply devices_signal; [|exact HV].
  eapply devices_ext; [..|eapply (network_read n d ds _ (rest m)); [exact Hn|exact Hd'|exact Hso|exact Hw|]].
  all: cbn; rewrite ?Hso; try done. apply Hd.
Qed.

Lemma HandleInterrupt_ok : type p = DiskInt → wp no_fault Drive_HandleInterrupt (λ _ m', handles m q m') m.
Proof.
  intros Ht. destruct (scheduled_here _ _ _ _ Ht (dv_disk _ _ Hd)) as [Hpr Hq0].
  destruct (drive (rest m)) as [d|] eqn:Hdr; [|done].
  unfold Drive_HandleInterrupt, on_disk. apply wp_bind, wp_get. apply wp_bind, wp_bind, wp_get. rewrite Hdr.
  apply wp_bind, wp_ret, wp_bind. eapply wp_lift; [reflexivity|]. apply wp_bind, wp_modify, wp_ret, wp_signal.
  intros K' HV. apply handled_none; [exact Hq|done..|]. eapply devices_signal; [|exact HV].
  destruct Hd as [Hkind ? ? ? ? ? ? ? Hhead ? ?]. rewrite !scheduled_cons, !Ht in *. rewrite Hdr in *. cbn in *.
  constructor; cbn; try done.
  - intros x Hx. apply Hkind. by right.
  - destruct (active (disk d)); cbn in *; lia.
  - intros ? [= <-]. exact (Hhead d eq_refl).
Qed.
End one.

Lemma DelayedLoad_ok x : load_ok x → wp no_fault (DelayedLoad 0 0) (λ _ x', load_ok x') x.
Proof.
  intros (Hl & r & Hr & Hr0). unfold DelayedLoad, NumTotalRegs, LoadReg, LoadValueReg in *.
  apply wp_bind, wp_get, wp_bind. eapply wp_lift; [by apply (vget_Done _ 37)|].
  destruct (lookup_lt_is_Some_2 (registers x) 38) as [v Hv]; [lia|].
  apply wp_bind. eapply wp_lift; [by apply (vget_Done _ 38)|].
  do 4 (apply wp_bind; eapply wp_lift; [apply vset_in; rewrite ?length_insert; lia|]).
  apply wp_put. unfold load_ok, NumTotalRegs, LoadReg. cbn. rewrite !length_insert. split; [done|].
  exists 0. rewrite !list_lookup_insert_ne by done. rewrite list_lookup_insert_eq; [done|].
  rewrite length_insert. lia.
Qed.

Lemma finish_load_keeps m q : devices_ok q (rest m) →
  wp no_fault machine_finish_load (λ _ m', ∃ w, m' = with_rest w m ∧ devices_ok q w) m.
Proof.
  intros Hd. unfold machine_finish_load. apply wp_bind, wp_get. destruct (machine (rest m)) as [x|] eqn:Hm.
  2: { apply wp_ret. exists (rest m). by destruct m. }
  destruct (wp_no_fault _ _ _ (DelayedLoad_ok x (dv_load _ _ Hd x Hm))) as ([] & x' & He & Hx').
  apply wp_bind. eapply wp_lift; [exact He|]. apply wp_modify. eexists. split; [done|].
  destruct Hd. constructor; cbn; try done. by intros ? [= <-].
Qed.

Lemma device_handler_ok m p q : queued m q → level (interrupt m) = IntOff →
  inHandler (interrupt m) = true → status (interrupt m) = SystemMode → devices_ok (p :: q) (rest m) →
  wp no_fault (device_handler (handler p) (arg p)) (λ _ m', handles m q m') m.
Proof.
  intros Hq _ Hh Hs Hd. pose proof (dv_kind _ _ Hd p ltac:(by left)) as Hk.
  destruct (handler p) eqn:Hp; cbn in Hk; cbn [device_handler].
  - by apply (TimerExpired_ok m p q).
  - by apply (CheckCharAvail_ok m p q).
  - by apply (WriteDone_ok m p q).
  - by apply (CheckPktAvail_ok m p q).
  - by apply (SendDone_ok m p q).
  - by apply (HandleInterrupt_ok m p q).
Qed.

#[export] Instance device_hardware_ok : HardwareOK := {
  device_inv := devices_ok;
  device_perm := devices_perm;
  finish_load_ok := finish_load_keeps;
  invoke_ok := device_handler_ok
}.

(** ** The constructors *)

Section constructors.
Context (m : Nachos) (q : list Pending).
Context (Hq : queued m q) (Hd : devices_ok q (rest m)).

(** The constructors start the polling of their device. *)
Lemma new_Timer_keeps b : timer (rest m) = None → wp no_fault (new_Timer b) (λ _ m', handles m q m') m.
Proof.
  intros Ht. unfold new_Timer. cbn zeta. apply wp_bind.
  assert (∀ w time, 0 < time → (∀ x, devices_ok (mkPendingInterrupt TimerHandler 0 (now m + time) TimerInt :: q) (with_timer (Some x) w)) →
    wp no_fault (Schedule TimerHandler 0 time TimerInt ;;; set_rest (with_timer (Some (mkTimer b))))
      (λ _ m', handles m q m') (with_rest w m)) as Hrun.
  { intros w time Htime Hw. apply wp_bind, (wp_Schedule _ _ _ _ _ _ _ q); [exact Hq|done|]. intros l Hl.
    apply wp_modify. eapply handled_one; [exact Hl|unfold now; cbn; lia|done..|].
    eapply devices_perm; [symmetry; apply enqueue_perm|]. exact (Hw (mkTimer b)). }
  assert (∀ time x, devices_ok (mkPendingInterrupt TimerHandler 0 (now m + time) TimerInt :: q) (with_timer (Some x) (rest m))) as Hok.
  { intros time x. destruct Hd as [Hkind Htm ? ? ? ? ? ? ? ? ?]. rewrite Ht in Htm.
    constructor; try done; try (by rewrite scheduled_cons).
    - intros p [->|Hp]%elem_of_cons; [done|auto].
    - by rewrite scheduled_cons, Htm. }
  unfold TimeOfNextInterrupt, TimerTicks. destruct (randomize _).
  - apply wp_bind, wp_random. intros r w Hr ->. apply wp_ret, Hrun; [lia|]. intros x.
    eapply devices_ext; [..|apply (Hok (1 + Z.rem r (100 * 2)) x)]; try done. apply Hd.
  - apply wp_ret. destruct m as [j st w]. by apply (Hrun w).
Qed.

Lemma new_Console_keeps readAvail writeDone : console (rest m) = None →
  wp no_fault (new_Console readAvail writeDone) (λ _ m', handles m q m') m.
Proof.
  intros Hc. unfold new_Console. apply wp_bind, wp_modify. eapply wp_Schedule; [exact Hq|done|]. intros l Hl.
  eapply handled_one; [exact Hl|unfold now, ConsoleTime; cbn; lia|done..|].
  destruct Hd as [Hkind ? Hr Hw ? ? ? ? ? ? ?]. rewrite Hc in *.
  constructor; cbn; try done; try (by rewrite scheduled_enqueue).
  - intros p [->|Hp]%elem_of_enqueue; [done|auto].
  - by rewrite scheduled_enqueue, Hr.
Qed.

Lemma new_Network_keeps addr rely readAvail writeDone hdr box : network (rest m) = None →
  Z.of_nat (length box) = MaxPacketSize →
  wp no_fault (new_Network addr rely readAvail writeDone hdr box) (λ _ m', handles m q m') m.
Proof.
  intros Hn Hb. unfold new_Network. cbn zeta. apply wp_bind, wp_modify. eapply wp_Schedule; [exact Hq|done|]. intros l Hl.
  eapply handled_one; [exact Hl|unfold now, NetworkTime; cbn; lia|done..|].
  destruct Hd as [Hkind ? ? ? Hr Hs ? ? ? ? ?]. rewrite Hn in *.
  constructor; cbn; try done; try (by rewrite scheduled_enqueue).
  - intros p [->|Hp]%elem_of_enqueue; [done|auto].
  - by rewrite scheduled_enqueue, Hr.
  - intros ? [= <-]. by split_and!.
Qed.
End constructors.

(** ** The requests of the kernel *)

Section requests.
Context (sendto : nat → Z → bool) (junk : list Z).

(** What the kernel asks of a device. *)
Inductive request :=
| ReqPut (ch : Z) | ReqGet
| ReqSend (hdr : PacketHeader) (data : list Z) | ReqReceive
| ReqRead (sector : Z) | ReqWrite (sector : Z) (data : list Z).

Definition run_request (x : request) : M Nachos unit :=
  match x with
  | ReqPut ch => PutChar ch
  | ReqGet => let! _c := GetChar in ret ()
  | ReqSend hdr data => let! _b := Network_Send sendto junk hdr data in ret ()
  | ReqReceive => let! _r := Network_Receive in ret ()
  | ReqRead sector => let! _d := Drive_ReadRequest sector in ret ()
  | ReqWrite sector data => Drive_WriteRequest sector data
  end.

Definition any_fault : fault → Prop := λ _, True.

Lemma wp_there_any {A} (x : option A) (Q : A → Nachos → Prop) m :
  (∀ a, x = Some a → Q a m) → wp any_fault (there x) Q m.
Proof. destruct x; [|done]. intros HQ. by apply HQ. Qed.

Lemma wp_lift_any {A} (o : outcome A) (Q : A → Nachos → Prop) m :
  (∀ a, o = Done a → Q a m) → wp any_fault (lift o) Q m.
Proof. destruct o; [|done]. intros HQ. by apply HQ. Qed.

(** What a change of the network that keeps its inbox in bounds leaves. *)
Lemma network_kept q n n' w : network w = Some n → devices_ok q w → ident n' = ident n →
  sendBusy n' = false → socket n' = socket n → length (inbox n') = length (inbox n) →
  0 <= pkt_length (inHdr n') <= MaxPacketSize → devices_ok q (with_network n' w).
Proof.
  intros Hn [? ? ? ? Hr ? ? Hnet ? ? ?] Hi Hb Hs Hl Hh. rewrite Hn in *.
  destruct (Hnet n eq_refl) as (? & ? & _). constructor; cbn; try done.
  intros ? [= <-]. rewrite Hi, Hs, Hl. split_and!; try done; lia.
Qed.

Lemma request_sector sector (d : Disk) r : ReadRequest sector d = Done r →
  active d = false ∧ is_sector sector ∧ active r.2 = true.
Proof.
  unfold ReadRequest, bind, get, ASSERT, is_sector. destruct (active d); cbn; [done|].
  destruct (_ && _) eqn:Hs; cbn; [|done]. unfold lift. destruct (Read _ _ _); cbn; [|done].
  intros [= <-]. cbn. split_and!; [done|lia..|done].
Qed.

Lemma write_sector sector data (d : Disk) r : WriteRequest sector data d = Done r →
  active d = false ∧ is_sector sector ∧ active r.2 = true.
Proof.
  unfold WriteRequest, bind, get, ASSERT, is_sector. destruct (active d); cbn; [done|].
  destruct (_ && _) eqn:Hs; cbn; [|done]. unfold lift. destruct (mem_read _ _ _); cbn; [|done].
  destruct (WriteAt _ _ _); cbn; [|done]. intros [= <-]. cbn. split_and!; [done|lia..|done].
Qed.

Section keeps.
Context (m : Nachos) (q : list Pending).
Context (Hq : queued m q) (Hd : devices_ok q (rest m)) (Hnow : 0 <= now m).

Lemma PutChar_keeps E ch c : console (rest m) = Some c → (putBusy c = true → E AssertFailed) →
  wp E (PutChar ch) (λ _ m', handles m q m') m.
Proof.
  intros Hc HE. unfold PutChar. apply wp_bind, wp_get. rewrite Hc. apply wp_bind, wp_ret.
  apply wp_bind, wp_ASSERT; [|intros ?; apply HE; by destruct (putBusy c)].
  intros Hb%negb_true_iff. apply wp_bind, wp_modify. eapply wp_Schedule; [exact Hq|done|]. intros l Hl.
  eapply handled_one; [exact Hl|unfold now, ConsoleTime; cbn; lia|done..|].
  destruct Hd as [Hkind ? ? Hw ? ? ? ? ? ? ?]. rewrite Hc in *. rewrite Hb in Hw.
  constructor; cbn; try done; try (by rewrite scheduled_enqueue).
  - intros x [->|Hx]%elem_of_enqueue; [done|by apply Hkind].
  - by rewrite scheduled_enqueue, Hw.
Qed.

Lemma GetChar_keeps E c : console (rest m) = Some c → wp E GetChar (λ _ m', handles m q m') m.
Proof.
  intros Hc. unfold GetChar. apply wp_bind, wp_get. rewrite Hc. apply wp_bind, wp_ret, wp_bind, wp_modify, wp_ret.
  apply handled_none; [exact Hq|done..|]. destruct Hd. rewrite Hc in *. constructor; cbn; done.
Qed.

Lemma Network_Receive_keeps n : network (rest m) = Some n →
  wp any_fault Network_Receive (λ _ m', handles m q m') m.
Proof.
  intros Hn. unfold Network_Receive. apply wp_bind, wp_get. rewrite Hn. apply wp_bind, wp_ret, wp_bind, wp_modify.
  assert (∀ m', m' = with_rest (with_network (mkNetwork (pktAvail n) (pktSent n) (ident n) (chanceToWork n)
    (sendBusy n) (mkPacketHeader (pkt_to (inHdr n)) (pkt_from (inHdr n)) 0) (inbox n) (socket n) (wire n)) (rest m)) m →
    handles m q m') as Hdone.
  { intros m' ->. destruct (dv_net _ _ Hd n Hn) as (? & ? & ? & ?).
    apply handled_none; [exact Hq|done..|]. by eapply (network_kept _ n). }
  destruct (_ =? 0); [by apply wp_ret, Hdone|]. apply wp_bind, wp_lift_any. intros bs _. by apply wp_ret, Hdone.
Qed.

Lemma Network_Send_keeps hdr data n : network (rest m) = Some n →
  wp any_fault (Network_Send sendto junk hdr data) (λ _ m', handles m q m') m.
Proof.
  intros Hn. unfold Network_Send. apply wp_bind, wp_get. rewrite Hn. apply wp_bind, wp_ret, wp_bind, wp_ASSERT; [|done].
  intros _. apply wp_bind. eapply wp_Schedule; [exact Hq|done|]. intros l Hl.
  apply wp_bind, wp_random. intros r w _ ->. cbn [rest with_pending with_interrupt].
  set (p' := mkPendingInterrupt NetworkSendDone 0 _ _) in *.
  assert (devices_ok (enqueue p' q) (rest m)) as Hd'.
  { destruct Hd as [Hkind ? ? ? ? ? ? ? ? ? ?]. constructor; try done; try (by rewrite scheduled_enqueue).
    - intros x [->|Hx]%elem_of_enqueue; [done|by apply Hkind].
    - by rewrite Hn. }
  assert (∀ m', queued m' (enqueue p' q) → clock m' = clock m → level (interrupt m') = level (interrupt m) →
    status (interrupt m') = status (interrupt m) → inHandler (interrupt m') = inHandler (interrupt m) →
    devices_ok (enqueue p' q) (rest m') → handles m q m') as Hdone.
  { intros m' ? ? ? ? ? ?. eapply handled_one; try done. unfold p', NetworkTime. cbn. lia. }
  destruct (dv_net _ _ Hd' n Hn) as (? & ? & ? & ?).
  assert (∀ k n', ident n' = ident n → sendBusy n' = sendBusy n → socket n' = socket n → inbox n' = inbox n →
    inHdr n' = inHdr n → devices_ok (enqueue p' q) (with_network n' (with_randoms k (rest m)))) as Hnet.
  { intros k n' Hi Hb Hs Hbx Hh. eapply (network_kept _ n); [exact Hn| |done|congruence|done|congruence|by rewrite Hh].
    eapply devices_ext; [..|exact Hd']; try done. apply Hd. }
  assert (∀ k, devices_ok (enqueue p' q) (with_randoms k (rest m))) as Hrnd.
  { intros k. eapply devices_ext; [..|exact Hd']; try done. apply Hd. }
  destruct (Qle_bool _ _); [apply wp_ret, Hdone; [exact Hl|done..|apply Hrnd]|].
  apply wp_bind, wp_lift_any. intros b1 _. apply wp_bind, wp_lift_any. intros b2 _.
  apply wp_bind, wp_lift_any. intros b3 _. apply wp_bind, wp_get.
  destruct (sendto _ _); [|apply wp_ret, Hdone; [exact Hl|done..|apply Hrnd]]. apply wp_bind, wp_modify, wp_ret.
  apply Hdone; [exact Hl|done..|]. by apply Hnet.
Qed.

(** A request to the disk that was idle. *)
Lemma request_keeps d d' sector ticks a b : drive (rest m) = Some d → active (disk d) = false →
  is_sector sector → 0 < ticks → active d' = true →
  wp any_fault (request_sent sector ticks) (λ _ m', handles m q m')
    (count_disk a b (with_rest (with_drive (mkDrive d' (lastSector d) (bufferInit d)) (rest m)) m)).
Proof.
  intros Hdr Ha Hs Ht Ha'. unfold request_sent. apply wp_bind, wp_get. cbn. apply wp_bind, wp_ret.
  apply wp_bind, wp_modify. eapply wp_Schedule; [exact Hq|done|]. intros l Hl.
  eapply handled_one; [exact Hl|unfold now; cbn; lia|done..|].
  destruct Hd as [Hkind ? ? ? ? ? Hdk ? Hhd ? ?]. rewrite Hdr in *. rewrite Ha in Hdk.
  constructor; cbn; try done; try (by rewrite scheduled_enqueue).
  - intros y [->|Hy]%elem_of_enqueue; [done|by apply Hkind].
  - rewrite scheduled_enqueue, Hdk. unfold UpdateLast. cbn. by rewrite Ha'.
  - intros ? [= <-]. exact Hs.
Qed.

Lemma latency_pos d sector w : drive (rest m) = Some d → is_sector sector →
  0 < ComputeLatency d (now m) sector w.
Proof.
  intros Hdr Hs. pose proof (ComputeLatency_bounds d (now m) sector w (dv_head _ _ Hd d Hdr) Hs Hnow).
  unfold RotationTime in *. lia.
Qed.

(** After the operation on the file, the rest of a request can only go well. *)
Lemma on_disk_request {A} (op : M Disk A) sector w a b d :
  (∀ x r, op x = Done r → active x = false ∧ is_sector sector ∧ active r.2 = true) →
  drive (rest m) = Some d →
  wp any_fault (on_disk op) (λ _ m1, wp any_fault
    (request_sent sector (ComputeLatency d (now m) sector w)) (λ _ m', handles m q m') (count_disk a b m1)) m.
Proof.
  intros Hop Hdr. unfold on_disk. apply wp_bind, wp_get. rewrite Hdr. apply wp_bind, wp_ret.
  apply wp_bind, wp_lift_any. intros r (Ha & Hs & Ha')%Hop. apply wp_bind, wp_modify, wp_ret.
  eapply (request_keeps d); [exact Hdr|done|exact Hs| |exact Ha']. by apply latency_pos.
Qed.

Lemma run_request_keeps x : wp any_fault (run_request x) (λ _ m', handles m q m') m.
Proof.
  destruct x as [ch| |hdr data| |sector|sector data]; cbn [run_request].
  - destruct (console (rest m)) as [c|] eqn:Hc; [by eapply PutChar_keeps|].
    unfold PutChar. apply wp_bind, wp_get. by rewrite Hc.
  - destruct (console (rest m)) as [c|] eqn:Hc.
    + apply wp_bind. eapply wp_mono; [by eapply GetChar_keeps|]. intros ? ? ?. by apply wp_ret.
    + unfold GetChar. apply wp_bind, wp_bind, wp_get. by rewrite Hc.
  - destruct (network (rest m)) as [n|] eqn:Hn.
    + apply wp_bind. eapply wp_mono; [by eapply Network_Send_keeps|]. intros ? ? ?. by apply wp_ret.
    + unfold Network_Send. apply wp_bind, wp_bind, wp_get. by rewrite Hn.
  - destruct (network (rest m)) as [n|] eqn:Hn.
    + apply wp_bind. eapply wp_mono; [by eapply Network_Receive_keeps|]. intros ? ? ?. by apply wp_ret.
    + unfold Network_Receive. apply wp_bind, wp_bind, wp_get. by rewrite Hn.
  - apply wp_bind. unfold Drive_ReadRequest. apply wp_bind, wp_get, wp_bind, wp_there_any. intros d Hdr.
    apply wp_bind. eapply wp_mono; [by apply (on_disk_request _ _ false 1 0 d (request_sector sector))|].
    intros r m1 Hm1. apply wp_bind, wp_modify, wp_bind. eapply wp_mono; [exact Hm1|]. intros. by apply wp_ret, wp_ret.
  - unfold Drive_WriteRequest. apply wp_bind, wp_get, wp_bind, wp_there_any. intros d Hdr.
    apply wp_bind. eapply wp_mono; [by apply (on_disk_request _ _ true 0 1 d (write_sector sector data))|].
    intros r m1 Hm1. by apply wp_bind, wp_modify.
Qed.

End keeps.
End requests.
End handlers.
End devices.

(** The machine before any device is created. *)
Definition bare_machine (K : Kernel) : Nachos :=
  mkNachos new_Interrupt new_Statistics (mkDevices K None None None None 0 None 0).

Lemma bare_machine_ok big_endian (KI : Kernel → Prop) K : KI K → devices_ok big_endian KI [] (rest (bare_machine K)).
Proof. intros HK. constructor; cbn; try done. by intros p ?%not_elem_of_nil. Qed.

(** The pending interrupts do not depend on the kernel. *)
Lemma devices_kernel big_endian (KI KI' : Kernel → Prop) q w K : devices_ok big_endian KI q w → KI' K →
  devices_ok big_endian KI' q (with_kernel K w).
Proof. intros [] HK. by constructor. Qed.

(** ** Properties *)

Lemma scheduled_only_timer q k : only_timer (H := DeviceHandler) q → k ≠ TimerInt → scheduled k q = 0%nat.
Proof.
  intros Ht Hk. destruct q as [|p [|]]; [done| |done]. cbn in Ht.
  rewrite scheduled_cons, decide_False by congruence. done.
Qed.

(** Console and network poll, so that their next poll is always pending. *)
Lemma polls_pending big_endian KI q w : devices_ok big_endian KI q w → only_timer q →
  console w = None ∧ network w = None.
Proof.
  intros [_ _ Hc _ Hn _ _ _ _ _ _] Ht. rewrite (scheduled_only_timer q) in Hc, Hn by done.
  by destruct (console w), (network w).
Qed.

Section properties.
Context (big_endian : bool) (Random : nat → Z) (KI : Kernel → Prop).
Context (Random_nonneg : ∀ n, 0 <= Random n).
Context (KI_V : ∀ s K K', KI K → V s K = Done (Returned, K') → KI K').

#[local] Instance hardware : Hardware := device_hardware big_endian Random.
#[local] Instance hardware_ok : HardwareOK := device_hardware_ok big_endian Random KI Random_nonneg KI_V.

(** C29: a tick moves the clock by 10 in the kernel and by 1
    in a user program, and then calls the handlers of exactly the interrupts
    that are due at the new time, one after the other in the order of their
    times (those of one time in the order of the list), each with its interrupt
    off the list: the devices and threads end as these calls leave them.  What
    is pending then is all later, in the order of time, and what the devices
    wait for; and the tick asks for a context switch just when a handler did. *)
Theorem OneTick_fires_in_order m q : queued m q → in_order q → devices_ok big_endian KI q (rest m) →
  inHandler (interrupt m) = false → status (interrupt m) ≠ IdleMode →
  ∃ m1 m' q', deliver_all (due (now (ticked m)) q) (ticked m) = Done ((), m1) ∧
    OneTick m = Done (if yieldOnReturn (interrupt m1) then Some (status (interrupt m)) else None, m') ∧
    rest m' = rest m1 ∧ queued m' q' ∧ in_order q' ∧ devices_ok big_endian KI q' (rest m') ∧
    all_later (now m') q' ∧ level (interrupt m') = IntOn ∧
    now m' = now m + match status (interrupt m) with SystemMode => SystemTick | _ => UserTick end.
Proof.
  intros Hq Ho Hd Hh Hs.
  destruct (@OneTick_spec _ _ hardware hardware_ok m q Hq Ho Hd Hh Hs) as
    (m1 & q1 & r & m' & q' & Hdel & [_ _ Hd1 _] & Hl & He & Hq' & Ho' & Hp & Hlv & Hc & Hr & _ & _ & Hres).
  pose proof (clock_now _ _ Hc) as Hn. exists m1, m', q'. split; [exact Hdel|].
  split. { rewrite He. by destruct (yieldOnReturn (interrupt m1)); destruct Hres as [-> _]. }
  split; [exact Hr|]. split; [exact Hq'|]. split; [exact Ho'|].
  split. { rewrite Hr. by eapply devices_perm. }
  split. { intros p. rewrite Hp, Hn. apply Hl. }
  split; [exact Hlv|]. rewrite Hn. apply now_ticked.
Qed.

(** With no thread to run, the clock jumps to the time of the
    next interrupt if that is later, the gap is counted as idle time, and
    nothing that was due is left pending, but for a lone timer; the machine
    halts just when no interrupt but the timer's is pending, which never
    happens while there is a console or a network. *)
Theorem Idle_moves_clock m q : queued m q → in_order q → devices_ok big_endian KI q (rest m) →
  level (interrupt m) = IntOff → inHandler (interrupt m) = false →
  (only_timer q → Idle m = Fault Halted ∧ console (rest m) = None ∧ network (rest m) = None) ∧
  (∀ p q1, q = p :: q1 → ¬ only_timer q → ∃ m' q', Idle m = Done ((), m') ∧
     now m' = Z.max (now m) (when p) ∧
     clock m' = (now m', idleTicks (stats m) + (now m' - now m), systemTicks (stats m), userTicks (stats m)) ∧
     queued m' q' ∧ in_order q' ∧ devices_ok big_endian KI q' (rest m') ∧
     (all_later (now m') q' ∨ only_timer q') ∧ status (interrupt m') = SystemMode).
Proof.
  intros Hq Ho Hd Hl Hh. assert (@clock_ok _ _ hardware hardware_ok m q) as Hok by (by constructor). split.
  - intros Ht. split; [by eapply Idle_halts|]. by eapply polls_pending.
  - intros p q1 -> Ht.
    destruct (wp_no_fault _ _ _ (Idle_spec m p q1 Hok Hh Ht)) as
      ([] & m' & He & q' & [H1 H2 H3 _] & Hlate & Hn & Hc & Hs & _).
    exists m', q'. split; [exact He|]. split; [exact Hn|]. split; [exact Hc|]. done.
Qed.

(** A check that comes before the first interrupt is due
    fires nothing, and does not leave the list as it was: the interrupt goes
    back behind the others of its time.  So interrupts of one time do not fire
    in the order they were scheduled in. *)
Theorem early_check_rotates m p q : queued m (p :: q) → in_order (p :: q) →
  level (interrupt m) = IntOff → now m < when p →
  ∃ l, CheckIfDue false m = Done (false, with_pending l m) ∧
    holds l (filter (λ p', when p' = when p) q ++ p :: filter (λ p', when p < when p') q).
Proof.
  intros Hq Ho Hl Hp. pose proof (CheckIfDue_cases false m (p :: q) Hl Hq) as Hc. cbn zeta in Hc.
  cbn [negb andb] in Hc. rewrite (proj2 (Z.ltb_lt _ _) Hp) in Hc. destruct Hc as (l & Hc & Hh).
  exists l. split; [exact Hc|]. apply in_order_cons in Ho as [Hle Ho]. rewrite enqueue_split in Hh by done.
  assert (due (when p) q = filter (λ p', when p' = when p) q) as <-; [|exact Hh].
  clear - Hle. unfold due. induction q as [|x q IH]; [done|]. rewrite !filter_cons.
  pose proof (Hle x ltac:(by left)). rewrite IH by (intros y Hy; apply Hle; by right).
  repeat case_decide; try done; lia.
Qed.
End properties.

(** ** Examples *)

(** A typed character waits, and the poll of the keyboard and the tick of the
    timer are both due at 100. *)
Definition example_poll : Pending := mkPendingInterrupt ConsoleReadPoll 0 100 ConsoleReadInt.
Definition example_tick : Pending := mkPendingInterrupt TimerHandler 0 100 TimerInt.
Definition example_clock (t : Z) (l : IntStatus) : Nachos :=
  mkNachos
    (mkInterrupt l (mkList (<[0%nat := mkElement (Some 1%nat) 100 (Some example_poll)]>
      (<[1%nat := mkElement None 100 (Some example_tick)]> ∅)) (Some 0%nat) (Some 1%nat)) false false SystemMode)
    (mkStatistics t 0 t 0 0 0 0 0 0 0 0)
    (mkDevices (initial [] (λ _, 0)) (Some (mkTimer false)) (Some (mkConsole 1 2 false EOF [97] []))
      None None 0 None 0).

Lemma example_queued t l : queued (example_clock t l) [example_poll; example_tick].
Proof.
  exists [(0%nat, (100, Some example_poll)); (1%nat, (100, Some example_tick))]. split; [|done]. constructor.
  - cbn. split; [done|]. exists (Some 1%nat). split; [by vm_compute|]. split; [done|]. exists None. by split; [vm_compute|].
  - apply (bool_decide_unpack _). by vm_compute.
  - intros c [|? [|? [|]]]; cbn; intros ?; by simplify_eq.
Qed.

Lemma example_order : in_order [example_poll; example_tick].
Proof. repeat constructor; cbn; lia. Qed.

Lemma example_devices t l : devices_ok false (λ _, True) [example_poll; example_tick] (rest (example_clock t l)).
Proof.
  constructor; cbn; try done.
  intros p [->|[->|?%not_elem_of_nil]%elem_of_cons]%elem_of_cons; done.
Qed.

Definition zero (n : nat) : Z := 0.
Lemma zero_pos n : 0 <= zero n.
Proof. done. Qed.
Lemma always_V (s : nat) (K K' : Kernel) : (λ _ : Kernel, True) K → V s K = Done (Returned, K') → (λ _ : Kernel, True) K'.
Proof. done. Qed.

Notation console_of m := (console (rest m)).

Lemma OneTick_fires_in_order_witness : ∃ m',
  @OneTick _ _ (hardware false zero) (example_clock 95 IntOn) = Done (Some SystemMode, m') ∧
  now m' = 105 ∧ console_of m' = Some (mkConsole 1 2 false 97 [] []).
Proof.
  destruct (OneTick_fires_in_order false zero (λ _, True) zero_pos always_V (example_clock 95 IntOn)
    [example_poll; example_tick] (example_queued _ _) example_order (example_devices _ _)) as
    (m1 & m' & q' & Hd & He & Hr & _ & _ & _ & _ & _ & Hn); [reflexivity|discriminate|].
  assert (yieldOnReturn (interrupt m1) = true ∧ console_of m1 = Some (mkConsole 1 2 false 97 [] [])) as [Hy Hc].
  { revert Hd. vm_compute. intros [= <-]. by split. }
  exists m'. rewrite Hy in He. split; [exact He|]. split; [exact Hn|]. by rewrite Hr.
Defined.

Lemma Idle_moves_clock_witness : ∃ m',
  @Idle _ _ (hardware false zero) (example_clock 20 IntOff) = Done ((), m') ∧ now m' = 100 ∧
  idleTicks (stats m') = 80.
Proof.
  destruct (Idle_moves_clock false zero (λ _, True) zero_pos always_V (example_clock 20 IntOff)
    [example_poll; example_tick] (example_queued _ _) example_order (example_devices _ _)) as [_ Hi];
    [reflexivity..|].
  destruct (Hi _ _ eq_refl ltac:(cbn; auto)) as (m' & q' & He & Hn & Hc & _). exists m'.
  split; [exact He|]. split; [exact Hn|]. unfold clock in Hc. injection Hc as Hidle _ _. rewrite Hidle, Hn. reflexivity.
Defined.

Lemma early_check_rotates_witness : ∃ l,
  @CheckIfDue _ _ (hardware false zero) false (example_clock 20 IntOff) =
    Done (false, with_pending l (example_clock 20 IntOff)) ∧ holds l [example_tick; example_poll].
Proof.
  destruct (early_check_rotates false zero (example_clock 20 IntOff) example_poll [example_tick]
    (example_queued _ _) example_order) as (l & He & Hl); [reflexivity|vm_compute; reflexivity|].
  exists l. split; [exact He|]. exact Hl.
Defined.

