(* ===== verification/Preempt.v ===== *)
(** * Preempt: threads, interrupts and devices together

    The kernel of file Synch on the machine of file Devices.  The routines of
    threads/synch.cc start with [SetLevel(IntOff)] and end with
    [SetLevel(oldLevel)]; enabling interrupts ticks the clock, interrupts fire,
    and the timer's makes the thread yield inside [SetLevel].  What a thread has
    left to do when the processor goes elsewhere is its stack of [frame]s on
    top of the resumption that Synch keeps.  Everything that happens is a
    [step], and the threads and objects of every reachable system are reachable
    in Synch: interrupts and preemption add no behaviour to the kernel. *)
From S2P Require Import Prelude PtrList Translate Disk Synch Interrupt Drive Devices.
From Stdlib Require Import ZArith Lia ZifyBool.
From stdpp Require Import functions base list gmap sorting.

Local Open Scope Z_scope.

(** [Restore old]: the [SetLevel(oldLevel)] at the end of a routine.
    [Resumed old]: the [status = old] after the [Yield] of [OneTick]. *)
Inductive frame := Restore (old : IntStatus) | Resumed (old : MachineStatus).

Record System := mkSystem { mach : Nachos; frames : tid → list frame }.

Definition kernel_of (S : System) : Kernel := kernel (rest (mach S)).

Section system.
Context (big_endian : bool) (Random : nat → Z) (sendto : nat → Z → bool) (junk : list Z).

#[local] Instance the_hardware : Hardware := device_hardware big_endian Random.

Definition on_mach {A} (op : M Nachos A) : M System A := λ S,
  match op (mach S) with
  | Done (a, m) => Done (a, mkSystem m (frames S))
  | Fault f => Fault f
  end.

Definition running : M System tid :=
  let! S := get in
  match current (kernel_of S) with Some t => ret t | None => fail NullDeref end.

Definition set_frames (t : tid) (fs : list frame) : M System unit :=
  modify (λ S, mkSystem (mach S) (<[t := fs]> (frames S))).
Definition push_frame (t : tid) (f : frame) : M System unit :=
  let! S := get in set_frames t (f :: frames S t).

(** The tick wants the thread to yield: [currentThread->Yield()], to be resumed
    with the end of [Yield] and then that of [OneTick]. *)
Definition after_tick (t : tid) (y : option MachineStatus) : M System unit :=
  match y with
  | None => ret ()
  | Some st =>
      push_frame t (Resumed st) ;;;
      let! r := on_mach (SetLevel IntOff) in
      push_frame t (Restore r.1) ;;;
      let! _s := on_mach (on_kernel Yield) in ret ()
  end.

(** What the running thread does next: a routine of the kernel up to its end or
    its [Sleep]; what its frames say; a call to a device; the tick after an
    instruction of [Machine::Run]; a change of mode. *)
Definition call_kernel (x : call) : M System unit :=
  let! t := running in
  let! r := on_mach (SetLevel IntOff) in
  push_frame t (Restore r.1) ;;;
  let! _s := on_mach (on_kernel (run_call x)) in ret ().

Definition unwind : M System unit :=
  let! t := running in
  let! S := get in
  match frames S t with
  | [] => ret ()
  | Restore old :: fs =>
      set_frames t fs ;;;
      let! r := on_mach (SetLevel old) in after_tick t r.2
  | Resumed old :: fs => set_frames t fs ;;; on_mach (OneTick_resume old)
  end.

Definition call_device (x : request) : M System unit := on_mach (run_request big_endian Random sendto junk x).

Definition instruction_tick : M System unit :=
  let! t := running in
  let! y := on_mach OneTick in after_tick t y.

Definition setStatus (st : MachineStatus) : M System unit := on_mach (modify (with_status st)).

(** No thread runs: the loop of [Thread::Sleep]. *)
Definition idle_or_run : M System unit :=
  let! S := get in
  match readyList (kernel_of S) with
  | [] => on_mach Idle
  | _ => let! _s := on_mach (on_kernel dispatch) in ret ()
  end.

(** ** The system *)

Inductive step (S : System) : System → Prop :=
| step_kernel t x S' : current (kernel_of S) = Some t → frames S t = [] →
    call_kernel x S = Done ((), S') → step S S'
| step_unwind t S' : current (kernel_of S) = Some t → frames S t ≠ [] →
    unwind S = Done ((), S') → step S S'
| step_device t x S' : current (kernel_of S) = Some t → frames S t = [] →
    call_device x S = Done ((), S') → step S S'
| step_tick t S' : current (kernel_of S) = Some t → frames S t = [] →
    instruction_tick S = Done ((), S') → step S S'
| step_mode t st S' : current (kernel_of S) = Some t → frames S t = [] → st ≠ IdleMode →
    setStatus st S = Done ((), S') → step S S'
| step_idle S' : current (kernel_of S) = None → idle_or_run S = Done ((), S') → step S S'
(** Somebody types, a datagram for this machine arrives. *)
| step_typed c b : console (rest (mach S)) = Some c →
    step S (mkSystem (with_rest (with_console (mkConsole (charAvail c) (charDone c) (putBusy c)
      (incoming c) (keyboard c ++ [b]) (display c)) (rest (mach S))) (mach S)) (frames S))
| step_arrived n d : network (rest (mach S)) = Some n → datagram_ok big_endian (ident n) d →
    step S (mkSystem (with_rest (with_network (mkNetwork (pktAvail n) (pktSent n) (ident n)
      (chanceToWork n) (sendBusy n) (inHdr n) (inbox n) (socket n ++ [d]) (wire n)) (rest (mach S)))
      (mach S)) (frames S)).

Inductive runs (S0 : System) : System → Prop :=
| runs_start : runs S0 S0
| runs_step S S' : runs S0 S → step S S' → runs S0 S'.

(** ** The invariant *)

(** [ThreadRoot] and [Yield] leave interrupts to be enabled; under that a thread
    has only interrupted ticks to finish. *)
Definition is_resumed (f : frame) : Prop :=
  match f with Resumed st => st ≠ IdleMode | Restore _ => False end.

Definition parked (fs : list frame) : Prop :=
  match fs with Restore IntOn :: fs' => Forall is_resumed fs' | _ => False end.

Definition running_frames (l : IntStatus) (fs : list frame) : Prop :=
  match l with IntOn => Forall is_resumed fs | IntOff => parked fs end.

Definition frames_ok (S : System) : Prop :=
  match current (kernel_of S) with
  | None => level (interrupt (mach S)) = IntOff ∧ ∀ t, parked (frames S t)
  | Some t => running_frames (level (interrupt (mach S))) (frames S t) ∧
              ∀ t', t' ≠ t → parked (frames S t')
  end.

Context (Random_nonneg : ∀ n, 0 <= Random n).
Context (ts : list tid) (values : nat → Z) (ts_distinct : NoDup (0%nat :: ts)) (values_pos : ∀ s, 0 <= values s).

(** What a handler keeps of the kernel: it is reachable, and runs the thread [c]. *)
Definition kernel_at (c : option tid) (K : Kernel) : Prop := reachable ts values K ∧ current K = c.

Lemma kernel_at_V c s K K' : kernel_at c K → V s K = Done (Returned, K') → kernel_at c K'.
Proof.
  intros [Hr Hc] HV. destruct (kernel_goes_on ts values K ts_distinct values_pos Hr) as (_ & _ & Hi).
  destruct (Hi s) as (K1 & HV1 & Hr1 & Hc1). rewrite HV in HV1. injection HV1 as <-. split; congruence.
Qed.

Definition hardware_at (c : option tid) : HardwareOK :=
  device_hardware_ok big_endian Random (kernel_at c) Random_nonneg (kernel_at_V c).

(** The clock, its interrupts and devices are in order, thread [c] runs. *)
Definition mach_at (c : option tid) (m : Nachos) (q : list Pending) : Prop :=
  @machine_ok _ _ _ (hardware_at c) m q.

Definition sysinv (S : System) : Prop :=
  (∃ q, mach_at (current (kernel_of S)) (mach S) q) ∧ frames_ok S.

Lemma mach_at_kernel c c' m q K : mach_at c m q → kernel_at c' K →
  mach_at c' (with_rest (with_kernel K (rest m)) m) q.
Proof.
  intros [] HK. constructor; try done. cbn in *. by eapply devices_kernel.
Qed.

Lemma mach_at_current c m q : mach_at c m q → current (kernel (rest m)) = c ∧ reachable ts values (kernel (rest m)).
Proof. intros [_ _ Hd _ _ _]. destruct (dv_kernel _ _ _ _ Hd). done. Qed.

Lemma wp_on_mach {A} E (op : M Nachos A) (Q : A → System → Prop) S :
  wp E op (λ a m, Q a (mkSystem m (frames S))) (mach S) → wp E (on_mach op) Q S.
Proof. unfold wp, on_mach. by destruct (op (mach S)) as [[a m]|]. Qed.

Lemma wp_on_kernel {A} E (op : M Kernel A) (Q : A → Nachos → Prop) m a K :
  op (kernel (rest m)) = Done (a, K) → Q a (with_rest (with_kernel K (rest m)) m) → wp E (on_kernel op) Q m.
Proof. intros He HQ. unfold wp, on_kernel. by rewrite He. Qed.

Lemma wp_running E t (Q : tid → System → Prop) S : current (kernel_of S) = Some t → Q t S → wp E running Q S.
Proof. intros Hc HQ. unfold running. apply wp_bind, wp_get. by rewrite Hc. Qed.

(** All threads parked: whichever runs next, the frames are in order. *)
Definition all_parked (S : System) : Prop :=
  level (interrupt (mach S)) = IntOff ∧ ∀ t, parked (frames S t).

Lemma all_parked_ok S : all_parked S → frames_ok S.
Proof.
  intros [Hl Hp]. unfold frames_ok. destruct (current (kernel_of S)) as [t|]; [|done].
  rewrite Hl. split; [apply Hp|]. intros t' _. apply Hp.
Qed.

(** A step of the kernel with interrupts off. *)
Lemma kernel_step {A} (op : M Kernel A) a K S c q : all_parked S → mach_at c (mach S) q →
  op (kernel_of S) = Done (a, K) → reachable ts values K →
  wp no_fault (on_mach (on_kernel op)) (λ _ S', sysinv S') S.
Proof.
  intros Hp Hm He HK. apply wp_on_mach. eapply wp_on_kernel; [exact He|]. split.
  - exists q. eapply mach_at_kernel; [exact Hm|]. by split.
  - apply all_parked_ok. exact Hp.
Qed.

Lemma parked_insert (F : tid → list frame) t fs : parked fs → (∀ t', t' ≠ t → parked (F t')) →
  ∀ t', parked (<[t := fs]> F t').
Proof.
  intros Hf Hp t'. destruct (decide (t' = t)) as [->|]; [by rewrite fn_lookup_insert|].
  rewrite fn_lookup_insert_ne by done. auto.
Qed.

(** The running thread [t] with interrupts on. *)
Record runs_on (t : tid) (S : System) : Prop := {
  ro_mach : ∃ q, mach_at (Some t) (mach S) q;
  ro_level : level (interrupt (mach S)) = IntOn;
  ro_frames : Forall is_resumed (frames S t);
  ro_others : ∀ t', t' ≠ t → parked (frames S t')
}.

Lemma runs_on_inv t S : runs_on t S → sysinv S.
Proof.
  intros [[q Hm] Hl Hf Ho]. destruct (mach_at_current _ _ _ Hm) as [Hc _].
  assert (current (kernel_of S) = Some t) as Hct by exact Hc. split.
  - rewrite Hct. by exists q.
  - unfold frames_ok. rewrite Hct, Hl. done.
Qed.

Lemma after_tick_ok t y S : runs_on t S →
  match y with None => True | Some st => st ≠ IdleMode end →
  wp no_fault (after_tick t y) (λ _ S', sysinv S') S.
Proof.
  intros Hon Hy. destruct y as [st|]; [|apply wp_ret; by eapply runs_on_inv].
  destruct Hon as [[q Hm] Hl Hf Ho]. destruct (mach_at_current _ _ _ Hm) as [Hc Hr].
  unfold after_tick. apply wp_bind, wp_bind, wp_get, wp_modify, wp_bind, wp_on_mach.
  unfold wp at 1. rewrite SetLevel_off. cbn [frames mach fst]. rewrite Hl.
  apply wp_bind, wp_bind, wp_get, wp_modify, wp_bind. cbn [frames mach].
  destruct (kernel_goes_on ts values _ ts_distinct values_pos Hr) as (Hrun & _).
  destruct (Hrun t Hc) as (_ & st' & K' & HY & HK').
  eapply wp_mono; [eapply (kernel_step _ st' K' _ (Some t) q); [|exact (machine_ok_level _ _ _ Hm)|exact HY|exact HK']|].
  - split; [done|]. cbn [frames]. rewrite fn_lookup_insert. apply parked_insert; [by constructor|].
    intros t' Ht'. rewrite fn_lookup_insert_ne by done. auto.
  - intros ? S' HS'. by apply wp_ret.
Qed.

(** The running thread, by its frames. *)
Lemma running_cases t S : sysinv S → current (kernel_of S) = Some t →
  (runs_on t S) ∨
  (∃ q fs, mach_at (Some t) (mach S) q ∧ all_parked S ∧ frames S t = Restore IntOn :: fs ∧ Forall is_resumed fs).
Proof.
  intros [[q Hm] Hf] Hc. unfold frames_ok in Hf. rewrite Hc in *. destruct Hf as [Hrun Ho].
  unfold running_frames in Hrun. destruct (level (interrupt (mach S))) eqn:Hl; [right|left; by constructor; [exists q|..]].
  exists q. destruct (frames S t) as [|[[]|] fs] eqn:Hfr; cbn in Hrun; try done. exists fs.
  split; [exact Hm|]. split; [|done]. split; [done|]. intros t'.
  destruct (decide (t' = t)) as [->|]; [rewrite Hfr; exact Hrun|exact (Ho _ ltac:(done))].
Qed.

Lemma no_frames_on t S : sysinv S → current (kernel_of S) = Some t → frames S t = [] → runs_on t S.
Proof. intros Hi Hc Hf. destruct (running_cases t S Hi Hc) as [?|(q & fs & _ & _ & ? & _)]; [done|congruence]. Qed.

Lemma call_kernel_ok t x S : runs_on t S → frames S t = [] → wp no_fault (call_kernel x) (λ _ S', sysinv S') S.
Proof.
  intros [[q Hm] Hl Hf Ho] Hfr. destruct (mach_at_current _ _ _ Hm) as [Hc Hr].
  unfold call_kernel. apply wp_bind, (wp_running _ t); [done|]. apply wp_bind, wp_on_mach.
  unfold wp at 1. rewrite SetLevel_off. cbn [frames mach fst]. rewrite Hl.
  apply wp_bind, wp_bind, wp_get, wp_modify, wp_bind. cbn [frames mach]. rewrite Hfr.
  destruct (kernel_goes_on ts values _ ts_distinct values_pos Hr) as (Hrun & _).
  destruct (Hrun t Hc) as (Hx & _). destruct (Hx x) as (st' & K' & HX & HK' & _).
  eapply wp_mono; [eapply (kernel_step _ st' K' _ (Some t) q); [|exact (machine_ok_level _ _ _ Hm)|exact HX|exact HK']|].
  - split; [done|]. cbn [frames]. apply parked_insert; [by constructor|done].
  - intros ? S' HS'. by apply wp_ret.
Qed.

(** A tick of the clock while [t] runs. *)
Lemma tick_ok t S q : mach_at (Some t) (mach S) q → Forall is_resumed (frames S t) →
  (∀ t', t' ≠ t → parked (frames S t')) →
  wp no_fault (let! y := on_mach OneTick in after_tick t y) (λ _ S', sysinv S') S.
Proof.
  intros Hm Hf Ho. apply wp_bind, wp_on_mach. pose proof (mo_status _ _ Hm) as Hst.
  eapply wp_mono; [exact (OneTick_ok (mach S) q Hm)|].
  intros y m' (q' & Hm' & _ & Hl' & _ & Hy). apply after_tick_ok.
  - constructor; cbn; [by exists q'|done..].
  - destruct y as [st|]; [|done]. destruct Hy as [-> _]. exact Hst.
Qed.

Lemma instruction_tick_ok t S : runs_on t S → wp no_fault instruction_tick (λ _ S', sysinv S') S.
Proof.
  intros [[q Hm] Hl Hf Ho]. destruct (mach_at_current _ _ _ Hm) as [Hc Hr].
  unfold instruction_tick. apply wp_bind, (wp_running _ t); [done|]. by eapply tick_ok.
Qed.

Lemma unwind_ok t S : sysinv S → current (kernel_of S) = Some t → wp no_fault unwind (λ _ S', sysinv S') S.
Proof.
  intros Hi Hc. unfold unwind. apply wp_bind, (wp_running _ t); [done|]. apply wp_bind, wp_get.
  destruct (running_cases t S Hi Hc) as [[[q Hm] Hl Hf Ho]|(q & fs & Hm & [Hl Hp] & Hfr & Hf)].
  - destruct (frames S t) as [|[old|old] fs] eqn:Hfr; [by apply wp_ret|by apply Forall_cons in Hf as [[] _]|].
    apply Forall_cons in Hf as [Hold Hf]. apply wp_bind, wp_modify, wp_on_mach, wp_modify.
    eapply (runs_on_inv t). constructor; cbn.
    + exists q. by apply machine_ok_status.
    + done.
    + by rewrite fn_lookup_insert.
    + intros t' Ht'. rewrite fn_lookup_insert_ne by done. auto.
  - rewrite Hfr. apply wp_bind, wp_modify.
    assert (inHandler (interrupt (mach S)) = false) as Hh by apply (mo_handler _ _ Hm).
    set (S1 := mkSystem (with_level IntOn (mach S)) (<[t := fs]> (frames S))).
    eapply (wp_run _ _ (let! y := on_mach OneTick in after_tick t y) _ _ S1).
    + unfold bind at 1 2, on_mach at 1 2. cbn [mach frames S1]. rewrite SetLevel_on by done.
      unfold bind at 1. unfold ret at 1. by destruct (OneTick _) as [[y m']|].
    + apply (tick_ok t S1 q); [exact (machine_ok_level _ _ _ Hm)|by cbn; rewrite fn_lookup_insert|].
      intros t' Ht'. cbn. rewrite fn_lookup_insert_ne by done. auto.
Qed.

Lemma only_timer_dec (q : list Pending) : only_timer q ∨ ¬ only_timer q.
Proof. destruct q as [|p [|]]; cbn; [by left| |by right; auto]. destruct (decide (type p = TimerInt)); auto. Qed.

(** What an idle processor does. *)
Lemma idle_ok S q : mach_at None (mach S) q → all_parked S →
  (readyList (kernel_of S) = [] ∧ only_timer q ∧ idle_or_run S = Fault Halted) ∨
  wp no_fault idle_or_run (λ _ S', sysinv S') S.
Proof.
  intros Hm [Hl Hp]. destruct (mach_at_current _ _ _ Hm) as [Hc Hr].
  unfold idle_or_run. rewrite (bind_Done get _ _ _ _ eq_refl).
  destruct (readyList (kernel_of S)) as [|n ready] eqn:Hrl.
  - destruct (only_timer_dec q) as [Ht|Ht].
    + left. split; [done|]. split; [done|]. unfold on_mach.
      destruct Hm as [H1 H2 H3 _ _ _]. by rewrite (Idle_halts (mach S) q (Build_clock_ok _ _ H1 H2 H3 Hl) Ht).
    + right. eapply (wp_run _ _ (on_mach Idle) _ S S).
      * unfold bind at 1, get. by rewrite Hrl.
      * apply wp_on_mach. eapply wp_mono; [exact (Idle_ok (mach S) q Hm Hl Ht)|].
        intros _ m' (q' & Hm' & Hl'). destruct (mach_at_current _ _ _ Hm') as [Hc' _]. split.
        -- exists q'. unfold kernel_of. cbn. rewrite Hc'. exact Hm'.
        -- by apply all_parked_ok.
  - right. destruct (kernel_goes_on ts values _ ts_distinct values_pos Hr) as (_ & Hd & _).
    destruct (Hd Hc) as (st & K' & HD & HK'). apply wp_bind, wp_get. rewrite Hrl. apply wp_bind.
    eapply wp_mono; [by eapply (kernel_step _ _ K' _ None q)|]. intros ? S' HS'. by apply wp_ret.
Qed.

Lemma device_ok t x S S' : runs_on t S → call_device x S = Done ((), S') → runs_on t S'.
Proof.
  intros [[q Hm] Hl Hf Ho] Hx. destruct Hm as [Hq Hord Hd Hh Hst Hn].
  pose proof (run_request_keeps big_endian Random (kernel_at (Some t)) Random_nonneg sendto junk (mach S) q Hq Hd Hn x) as Hk.
  unfold call_device, on_mach in Hx. destruct (run_request _ _ _ _ _ _) as [[[] m']|] eqn:He; [|done].
  injection Hx as <-. destruct (wp_done _ _ _ _ _ _ Hk He) as (q' & Hq' & [? ? ? Hck (new & -> & _)] & Hd').
  constructor; cbn; [|congruence|done..]. exists (enqueue_all new q). constructor; try done; try congruence.
  - by apply enqueue_all_order.
  - by rewrite (clock_now _ _ Hck).
Qed.

(** The environment changes a device and nothing the invariant looks at. *)
Lemma environment_ok S w : sysinv S → kernel w = kernel_of S →
  (∀ KI q, devices_ok big_endian KI q (rest (mach S)) → devices_ok big_endian KI q w) →
  sysinv (mkSystem (with_rest w (mach S)) (frames S)).
Proof.
  intros [[q Hm] Hf] Hk Hw. assert (kernel_of (mkSystem (with_rest w (mach S)) (frames S)) = kernel_of S) as HK by exact Hk.
  split; [|unfold frames_ok; rewrite HK; exact Hf]. rewrite HK. exists q. destruct Hm as [H1 H2 H3 ? ? ?].
  constructor; try done. cbn in *. by apply Hw.
Qed.

Lemma typed_ok KI q w c b : console w = Some c → devices_ok big_endian KI q w →
  devices_ok big_endian KI q (with_console (mkConsole (charAvail c) (charDone c) (putBusy c)
    (incoming c) (keyboard c ++ [b]) (display c)) w).
Proof. intros Hc []. rewrite Hc in *. by constructor. Qed.

Lemma arrived_ok KI q w n d : network w = Some n → datagram_ok big_endian (ident n) d →
  devices_ok big_endian KI q w →
  devices_ok big_endian KI q (with_network (mkNetwork (pktAvail n) (pktSent n) (ident n) (chanceToWork n)
    (sendBusy n) (inHdr n) (inbox n) (socket n ++ [d]) (wire n)) w).
Proof.
  intros Hn Hd [? ? ? ? ? ? ? Hnet ? ? ?]. rewrite Hn in *. constructor; try done.
  cbn. intros ? [= <-]. destruct (Hnet n eq_refl) as (Hs & ?). split; [|done].
  cbn. apply Forall_app. split; [done|]. by constructor.
Qed.

Lemma step_inv S S' : sysinv S → step S S' → sysinv S'.
Proof.
  intros Hi [t x S1 Hc Hf Hx|t S1 Hc Hf Hx|t x S1 Hc Hf Hx|t S1 Hc Hf Hx|t st S1 Hc Hf Hst Hx|S1 Hc Hx|c b Hc|n d Hn Hd].
  - by apply (wp_done _ _ _ _ _ _ (call_kernel_ok t x S (no_frames_on t S Hi Hc Hf) Hf) Hx).
  - by apply (wp_done _ _ _ _ _ _ (unwind_ok t S Hi Hc) Hx).
  - eapply (runs_on_inv t), device_ok; [by apply no_frames_on|exact Hx].
  - by apply (wp_done _ _ _ _ _ _ (instruction_tick_ok t S (no_frames_on t S Hi Hc Hf)) Hx).
  - destruct (no_frames_on t S Hi Hc Hf) as [[q Hm] ? ? ?]. injection Hx as <-.
    apply (runs_on_inv t). constructor; cbn; [|done..]. exists q. by apply machine_ok_status.
  - destruct Hi as [[q Hm] Hfr]. unfold frames_ok in Hfr. rewrite Hc in *.
    destruct (idle_ok S q Hm Hfr) as [(_ & _ & Hh)|Hw]; [congruence|]. by apply (wp_done _ _ _ _ _ _ Hw Hx).
  - apply environment_ok; [done|done|]. intros KI q. by apply typed_ok.
  - apply environment_ok; [done|done|]. intros KI q. by apply arrived_ok.
Qed.

(** Thread 0 runs, the others of [ts] have not run yet, no routine has been called. *)
Record system_start (S : System) : Prop := {
  start_kernel : kernel_of S = initial ts values;
  start_level : level (interrupt (mach S)) = IntOn;
  start_frames : frames S = λ t, if decide (t = 0%nat) then [] else [Restore IntOn];
  start_machine : ∃ q, mach_at (Some 0%nat) (mach S) q
}.

Lemma start_inv S : system_start S → sysinv S.
Proof.
  intros [Hk Hl Hf [q Hm]]. split; [rewrite Hk; by exists q|].
  unfold frames_ok. rewrite Hk, Hl, Hf. cbn. split; [constructor|]. intros t Ht. rewrite decide_False by done. by constructor.
Qed.

Lemma runs_inv S0 S : system_start S0 → runs S0 S → sysinv S.
Proof. intros H0. induction 1 as [|S S' _ IH Hs]; [by apply start_inv|by eapply step_inv]. Qed.

Lemma mach_at_devices c m q : mach_at c m q → devices_ok big_endian (λ _, True) q (rest m).
Proof. intros [_ _ Hd _ _ _]. destruct Hd. by constructor. Qed.

(** C22: from a start where thread 0 runs, threads may
    call the kernel and the devices, execute instructions, be preempted by the
    timer inside any [SetLevel] and nested ticks, sleep and idle, while keys are
    pressed and packets arrive.  In every system so reached the threads and
    objects are in a state the kernel reaches without interrupts, and every
    device has exactly the interrupts pending that it waits for.  No routine of
    the running thread faults, whether it enters the kernel, finishes what a
    switch interrupted, or ticks; and an idle processor finds work or moves the
    clock on, unless there is neither console nor network, when it halts. *)
Theorem preemption_refines_kernel S0 S : system_start S0 → runs S0 S →
  reachable ts values (kernel_of S) ∧
  (∃ q, queued (mach S) q ∧ in_order q ∧ devices_ok big_endian (λ _, True) q (rest (mach S))) ∧
  (∀ t, current (kernel_of S) = Some t →
     if decide (frames S t = []) then
       (∀ x, ∃ S', call_kernel x S = Done ((), S') ∧ runs S0 S') ∧
       ∃ S', instruction_tick S = Done ((), S') ∧ runs S0 S'
     else ∃ S', unwind S = Done ((), S') ∧ runs S0 S') ∧
  (current (kernel_of S) = None →
     (∃ S', idle_or_run S = Done ((), S') ∧ runs S0 S') ∨
     (idle_or_run S = Fault Halted ∧ readyList (kernel_of S) = [] ∧
      console (rest (mach S)) = None ∧ network (rest (mach S)) = None)).
Proof.
  intros H0 Hr. pose proof (runs_inv S0 S H0 Hr) as Hi. pose proof Hi as [[q Hm] Hf].
  assert (∀ m, wp no_fault m (λ _ S', sysinv S') S → (∀ S', m S = Done ((), S') → step S S') →
    ∃ S', m S = Done ((), S') ∧ runs S0 S') as Hgo.
  { intros op Hw Hs. destruct (wp_no_fault _ _ _ Hw) as ([] & S' & He & _). exists S'. split; [done|].
    eapply runs_step; [exact Hr|by apply Hs]. }
  destruct (mach_at_current _ _ _ Hm) as [_ HK]. split; [exact HK|]. split; [|split].
  - exists q. split; [apply Hm|]. split; [apply Hm|]. by eapply mach_at_devices.
  - intros t Hc. destruct (decide (frames S t = [])) as [Hfr|Hfr].
    + pose proof (no_frames_on t S Hi Hc Hfr) as Hon. split; [intros x|]; apply Hgo.
      * by eapply call_kernel_ok.
      * intros S' HS'. by eapply step_kernel.
      * by eapply instruction_tick_ok.
      * intros S' HS'. by eapply step_tick.
    + apply Hgo; [by eapply unwind_ok|]. intros S' HS'. by eapply step_unwind.
  - intros Hc. unfold frames_ok in Hf. rewrite Hc in Hm, Hf.
    destruct (idle_ok S q Hm Hf) as [(Hrl & Ht & Hh)|Hw].
    + right. split; [done|]. split; [done|]. eapply polls_pending; [by eapply mach_at_devices|done].
    + left. apply Hgo; [done|]. intros S' HS'. by eapply step_idle.
Qed.

(** ** Schedules, executed *)

Inductive action :=
| AKernel (x : call) | AUnwind | ADevice (x : request) | ATick | AMode (st : MachineStatus) | AIdle | AType (b : Z).

Definition guarded (b : bool) (m : M System unit) : M System unit := ASSERT b ;;; m.

Definition at_rest (S : System) : bool :=
  match current (kernel_of S) with Some t => bool_decide (frames S t = []) | None => false end.

Definition act (a : action) : M System unit :=
  let! S := get in
  match a with
  | AKernel x => guarded (at_rest S) (call_kernel x)
  | AUnwind => guarded (bool_decide (current (kernel_of S) ≠ None) && negb (at_rest S)) unwind
  | ADevice x => guarded (at_rest S) (call_device x)
  | ATick => guarded (at_rest S) instruction_tick
  | AMode st => guarded (at_rest S && negb (bool_decide (st = IdleMode))) (setStatus st)
  | AIdle => guarded (bool_decide (current (kernel_of S) = None)) idle_or_run
  | AType b =>
      match console (rest (mach S)) with
      | Some c => on_mach (set_rest (with_console (mkConsole (charAvail c) (charDone c) (putBusy c)
          (incoming c) (keyboard c ++ [b]) (display c))))
      | None => fail NullDeref
      end
  end.

Fixpoint act_all (l : list action) (S : System) : System :=
  match l with
  | [] => S
  | a :: l' => match act a S with Done (_, S') => act_all l' S' | Fault _ => S end
  end.

Lemma guarded_Done b (m : M System unit) S S' : guarded b m S = Done ((), S') → b = true ∧ m S = Done ((), S').
Proof. unfold guarded, ASSERT, bind, ret, fail. by destruct b. Qed.

Lemma at_rest_spec S : at_rest S = true → ∃ t, current (kernel_of S) = Some t ∧ frames S t = [].
Proof.
  unfold at_rest. destruct (current (kernel_of S)) as [t|]; [|done]. intros H%bool_decide_eq_true. by exists t.
Qed.

Lemma act_step a S S' : act a S = Done ((), S') → step S S'.
Proof.
  unfold act. rewrite (bind_Done get _ _ _ _ eq_refl). destruct a as [x| |x| |st| |b].
  - intros [(t & Hc & Hf)%at_rest_spec Hx]%guarded_Done. by eapply step_kernel.
  - intros [[Hc%bool_decide_eq_true Hr%negb_true_iff]%andb_prop Hx]%guarded_Done.
    unfold at_rest in Hr. destruct (current (kernel_of S)) as [t|] eqn:Hct; [|done].
    apply bool_decide_eq_false in Hr. exact (step_unwind S t S' Hct Hr Hx).
  - intros [(t & Hc & Hf)%at_rest_spec Hx]%guarded_Done. by eapply step_device.
  - intros [(t & Hc & Hf)%at_rest_spec Hx]%guarded_Done. by eapply step_tick.
  - intros [[(t & Hc & Hf)%at_rest_spec Hs%negb_true_iff%bool_decide_eq_false]%andb_prop Hx]%guarded_Done.
    by eapply step_mode.
  - intros [Hc%bool_decide_eq_true Hx]%guarded_Done. by eapply step_idle.
  - destruct (console (rest (mach S))) as [c|] eqn:Hc; [|done]. intros [= <-]. by apply step_typed.
Qed.

Lemma act_all_runs l S0 S : runs S0 S → runs S0 (act_all l S).
Proof.
  revert S. induction l as [|a l IH]; intros S HS; [done|]. cbn [act_all].
  destruct (act a S) as [[[] S']|] eqn:He; [|done]. apply IH. eapply runs_step; [exact HS|by apply (act_step a)].
Qed.

Lemma handles_mach c m m' q : mach_at c m q → handles big_endian (kernel_at c) m q m' → ∃ q', mach_at c m' q'.
Proof.
  intros [Hq Hord Hd Hh Hst Hn] (q' & Hq' & [? ? ? Hck (new & -> & _)] & Hd').
  exists (enqueue_all new q). constructor; try done; try congruence.
  - by apply enqueue_all_order.
  - by rewrite (clock_now _ _ Hck).
Qed.

Lemma wp_handles c m q (op op' : M Nachos unit) (Q : unit → Nachos → Prop) : mach_at c m q →
  (queued m q → devices_ok big_endian (kernel_at c) q (rest m) → wp no_fault op (λ _ m', handles big_endian (kernel_at c) m q m') m) →
  (∀ m' q', mach_at c m' q' → wp no_fault op' Q m') → wp no_fault (op ;;; op') Q m.
Proof.
  intros Hm Hop Hop'. apply wp_bind. eapply wp_mono; [apply Hop; apply Hm|].
  intros ? m' Hh. destruct (handles_mach _ _ _ _ Hm Hh) as (q' & Hm'). by eapply Hop'.
Qed.
End system.

(** ** An example *)

Definition example_random (n : nat) : Z := Z.of_nat n * 37.

(** A machine with a random timer, a console on the semaphores 1 and 2, and two
    more threads; the first to run is thread 0. *)
Definition example_machine : Nachos :=
  match (new_Timer example_random true ;;; new_Console 1 2) (bare_machine (initial [1; 2]%nat (λ _, 0))) with
  | Done (_, m) => with_level IntOn m
  | Fault _ => bare_machine (initial [] (λ _, 0))
  end.
Definition example_system : System :=
  mkSystem example_machine (λ t, if decide (t = 0%nat) then [] else [Restore IntOn]).

(** The timer interrupts thread 0, then thread 1 while it has lock 0; thread 2
    waits for the lock, thread 0 for a character; thread 1 waits in [P], and a
    key is pressed. *)
Definition example_actions : list action :=
  [ATick; AUnwind; AKernel (CallAcquire 0); AUnwind; ATick; ATick;
   AUnwind; AKernel (CallAcquire 0); AIdle; AUnwind; AUnwind; AKernel (CallP 1);
   AIdle; AUnwind; AUnwind; AKernel (CallP 3); AType 97].
Definition example_end : System :=
  act_all false example_random (λ _ _, true) [] example_actions example_system.

Lemma example_random_nonneg n : 0 <= example_random n.
Proof. unfold example_random. lia. Qed.
Lemma example_values (s : nat) : 0 <= (λ _ : nat, 0) s.
Proof. done. Qed.
Lemma example_threads : NoDup [0%nat; 1%nat; 2%nat].
Proof. apply (bool_decide_unpack _). by vm_compute. Qed.

Notation example_at := (mach_at false example_random example_random_nonneg [1; 2]%nat (λ _, 0) example_threads example_values).

Lemma bare_ok : example_at (Some 0%nat) (bare_machine (initial [1; 2]%nat (λ _, 0))) [].
Proof.
  constructor; try done; [apply holds_nil|constructor|].
  apply bare_machine_ok. split; [apply reach_init|done].
Qed.

Lemma example_boots : wp no_fault (new_Timer example_random true ;;; new_Console 1 2)
  (λ _ m, ∃ q, example_at (Some 0%nat) m q) (bare_machine (initial [1; 2]%nat (λ _, 0))).
Proof.
  pose proof bare_ok as Hb. pose proof (mo_queued _ _ Hb) as Hq. pose proof (mo_devices _ _ Hb) as Hd. cbn in Hd.
  apply wp_bind. eapply wp_mono; [apply wp_conj|].
  - eapply new_Timer_keeps; [exact example_random_nonneg|exact Hq|exact Hd|done].
  - instantiate (1 := λ _ m, console (rest m) = None). vm_compute. reflexivity.
  - intros ? m1 [H1 Hc]. destruct (handles_mach _ _ _ _ _ _ _ _ _ _ _ Hb H1) as (q1 & Hm1).
    pose proof (mo_queued _ _ Hm1) as Hq1. pose proof (mo_devices _ _ Hm1) as Hd1. cbn in Hd1.
    eapply wp_mono; [by eapply new_Console_keeps|].
    intros ? m2 H2. exact (handles_mach _ _ _ _ _ _ _ _ _ _ _ Hm1 H2).
Qed.

Lemma example_started : system_start false example_random example_random_nonneg [1; 2]%nat (λ _, 0)
  example_threads example_values example_system.
Proof.
  pose proof example_boots as Hb. apply wp_no_fault in Hb as ([] & m & He & q & Hm).
  destruct (mach_at_current _ _ _ _ _ _ _ _ _ _ Hm) as [Hc _].
  constructor; [by vm_compute|by vm_compute|done|]. exists q.
  unfold example_system, example_machine. cbn [mach]. rewrite He. exact (machine_ok_level _ _ _ Hm).
Qed.

Lemma preemption_refines_kernel_witness :
  reachable [1; 2]%nat (λ _, 0) (kernel_of example_end) ∧
  lockOwner (locks (kernel_of example_end) 0) = Some 1%nat ∧
  ∃ S', idle_or_run false example_random example_end = Done ((), S') ∧
    runs false example_random (λ _ _, true) [] example_system S'.
Proof.
  destruct (preemption_refines_kernel false example_random (λ _ _, true) [] example_random_nonneg [1; 2]%nat (λ _, 0)
    example_threads example_values example_system example_end example_started) as (Hr & _ & _ & Hi).
  - apply act_all_runs, runs_start.
  - split; [exact Hr|]. split; [vm_compute; reflexivity|].
    destruct Hi as [Hi|(_ & _ & Hc & _)]; [vm_compute; reflexivity|exact Hi|].
    exfalso. revert Hc. vm_compute. discriminate.
Defined.
