(* ===== verification/PostOffice.v ===== *)
(** * PostOffice: what network/post.cc does to a message

    [Send] puts the mail header before the data and the packet header before
    both, the network takes the datagram to the socket of the machine it is
    for, and the postal worker there takes the two headers off again and puts
    the message into its mailbox.  The threads that wait, in the locks of
    [Send] and in the lists behind the mailboxes, are in file SynchList; a
    routine is cut here at the places where it can sleep. *)
From S2P Require Import Prelude PtrList ServerState Translate HostFile Disk FileHeader Synch Interrupt Drive Devices.
From Stdlib Require Import ZArith QArith Lia ZifyBool.
From stdpp Require Import functions base list gmap sorting.

Local Open Scope Z_scope.
#[local] Ltac Zify.zify_post_hook ::= Z.to_euclidean_division_equations.

Record MailHeader := mkMailHeader { mail_to : Z; mail_from : Z; mail_length : Z }.

(** [class Mail]: the headers and [data[MaxMailSize]]. *)
Record Letter := mkLetter { pktHdr : PacketHeader; mailHdr : MailHeader; letter_data : list Z }.

(** The parts of [class PostOffice] that its routines here use. *)
Record PostOffice := mkPostOffice {
  netAddr : Z;
  numBoxes : Z;
  messageAvailable : nat;
  messageSent : nat;
  sendLock : nat
}.

Section post.
Context (big_endian : bool) (Random : nat → Z) (sendto : nat → Z → bool).
(** What [new] and the stack hold where nothing was written yet. *)
Context (junk : Z → list Z).

Definition mail_bytes (h : MailHeader) : list Z :=
  host_bytes big_endian 4 (u32 (mail_to h)) ++ host_bytes big_endian 4 (u32 (mail_from h)) ++
  host_bytes big_endian 4 (mail_length h).
Definition mail_of (bs : list Z) : MailHeader :=
  mkMailHeader (s32 (host_value big_endian (take 4 bs)))
    (s32 (host_value big_endian (take 4 (drop 4 bs)))) (host_value big_endian (take 4 (drop 8 bs))).

Definition new_Mail (pktH : PacketHeader) (mailH : MailHeader) (msgData : list Z) : outcome Letter :=
  let? _ := assert (mail_length mailH <=? MaxMailSize) in
  let? bs := mem_read msgData 0 (Z.to_nat (mail_length mailH)) in
  let? data := mem_write (junk MaxMailSize) 0 bs in
  Done (mkLetter pktH mailH data).

(** [Send] up to [sendLock->Acquire()]: the packet and its header. *)
Definition Send_packet (po : PostOffice) (pktHdr : PacketHeader) (mailHdr : MailHeader) (data : list Z) :
    outcome (PacketHeader * list Z) :=
  let buffer := junk MaxPacketSize in
  let? _ := assert (mail_length mailHdr <=? MaxMailSize) in
  let? _ := assert ((0 <=? mail_to mailHdr) && (mail_to mailHdr <? numBoxes po)) in
  let hdr := mkPacketHeader (pkt_to pktHdr) (netAddr po) (u32 (mail_length mailHdr + sizeof_MailHeader)) in
  let? buffer := mem_write buffer 0 (mail_bytes mailHdr) in
  let? bs := mem_read data 0 (Z.to_nat (mail_length mailHdr)) in
  let? buffer := mem_write buffer sizeof_MailHeader bs in
  Done (hdr, buffer).

(** With the lock: to the network, then [messageSent->P()]. *)
Definition Send_transmit (po : PostOffice) (hdr : PacketHeader) (buffer : list Z) :
    M Nachos (bool * Synch.status) :=
  let! success := Network_Send big_endian Random sendto (junk MaxWireSize) hdr buffer in
  let! st := on_kernel (P (messageSent po)) in ret (success, st).

Definition Send_finish (po : PostOffice) : M Nachos Synch.status := on_kernel (Release (sendLock po)).

(** An iteration of [PostalDelivery] after [messageAvailable->P()]: the mailbox
    and the message for its [Put]. *)
Definition PostalDelivery (po : PostOffice) : M Nachos (Z * Letter) :=
  let! '(hdr, bs) := Network_Receive in
  let! buffer := lift (mem_write (junk MaxPacketSize) 0 bs) in
  let! mailHdr := lift (let? h := mem_read buffer 0 12 in Done (mail_of h)) in
  ASSERT ((0 <=? mail_to mailHdr) && (mail_to mailHdr <? numBoxes po)) ;;;
  ASSERT (mail_length mailHdr <=? MaxMailSize) ;;;
  let! mail := lift (new_Mail hdr mailHdr (drop (Z.to_nat sizeof_MailHeader) buffer)) in
  ret (mail_to mailHdr, mail).

(** [MailBox::Get] and [Receive] with the message off the list: the headers and
    the bytes copied to [data]. *)
Definition open_mail (mail : Letter) : outcome (PacketHeader * MailHeader * list Z) :=
  let? bs := mem_read (letter_data mail) 0 (Z.to_nat (mail_length (mailHdr mail))) in
  let? _ := assert (mail_length (mailHdr mail) <=? MaxMailSize) in
  Done (pktHdr mail, mailHdr mail, bs).

(** The interrupt handlers. *)
Definition IncomingPacket (po : PostOffice) : M Nachos unit := signal (messageAvailable po).
Definition PacketSent (po : PostOffice) : M Nachos unit := signal (messageSent po).

(** ** Round trip of a message *)

Record mail_ok (po : PostOffice) (h : MailHeader) (data : list Z) : Prop := {
  mo_to : 0 <= mail_to h < numBoxes po;
  mo_to_int : is_int (mail_to h);
  mo_from : is_int (mail_from h);
  mo_length : 0 <= mail_length h <= MaxMailSize;
  mo_data : mail_length h <= Z.of_nat (length data)
}.

Lemma length_word w : length (host_bytes big_endian 4 w) = 4%nat.
Proof. apply length_host_bytes. Qed.

Lemma int_roundtrip z : is_int z → s32 (host_value big_endian (host_bytes big_endian 4 (u32 z))) = z.
Proof.
  intros Hz. rewrite host_roundtrip. change (2 ^ (8 * Z.of_nat 4)) with (2 ^ 32).
  rewrite <- (s32_u32 z Hz) at 2. unfold u32. by rewrite Z.mod_mod by lia.
Qed.

Lemma unsigned_roundtrip z : 0 <= z < 2 ^ 32 → host_value big_endian (host_bytes big_endian 4 z) = z.
Proof. intros Hz. rewrite host_roundtrip. by apply Z.mod_small. Qed.

(** The three words of a header, read back. *)
Lemma words a b c d :
  let bs := host_bytes big_endian 4 a ++ host_bytes big_endian 4 b ++ host_bytes big_endian 4 c ++ d in
  take 4 bs = host_bytes big_endian 4 a ∧ take 4 (drop 4 bs) = host_bytes big_endian 4 b ∧
  take 4 (drop 8 bs) = host_bytes big_endian 4 c.
Proof.
  cbn zeta. split_and!.
  - by rewrite take_app_length' by (by rewrite length_word).
  - rewrite drop_app_length' by (by rewrite length_word). by rewrite take_app_length' by (by rewrite length_word).
  - rewrite app_assoc, drop_app_length' by (rewrite length_app, !length_word; done).
    by rewrite take_app_length' by (by rewrite length_word).
Qed.

Lemma header_of_bytes h rest : is_int (pkt_to h) → is_int (pkt_from h) → 0 <= pkt_length h < 2 ^ 32 →
  header_of big_endian (header_bytes big_endian h ++ rest) = h.
Proof.
  intros Ht Hf Hl. unfold header_of, header_bytes. rewrite <- !app_assoc.
  destruct (words (u32 (pkt_to h)) (u32 (pkt_from h)) (pkt_length h) rest) as (-> & -> & ->).
  rewrite !int_roundtrip, unsigned_roundtrip by done. by destruct h.
Qed.

Lemma mail_of_bytes h rest : is_int (mail_to h) → is_int (mail_from h) → 0 <= mail_length h < 2 ^ 32 →
  mail_of (mail_bytes h ++ rest) = h.
Proof.
  intros Ht Hf Hl. unfold mail_of, mail_bytes. rewrite <- !app_assoc.
  destruct (words (u32 (mail_to h)) (u32 (mail_from h)) (mail_length h) rest) as (-> & -> & ->).
  rewrite !int_roundtrip, unsigned_roundtrip by done. by destruct h.
Qed.

Lemma length_packet_header h : length (header_bytes big_endian h) = 12%nat.
Proof. unfold header_bytes. by rewrite !length_app, !length_word. Qed.
Lemma length_mail_bytes h : length (mail_bytes h) = 12%nat.
Proof. unfold mail_bytes. by rewrite !length_app, !length_word. Qed.

(** A buffer that holds a header of 12 bytes and the first [k] bytes of the
    data after it. *)
Lemma fill_buffer (buffer header data : list Z) k : length header = 12%nat → 0 <= k →
  12 + k <= Z.of_nat (length buffer) → k <= Z.of_nat (length data) →
  ∃ rest, (let? b := mem_write buffer 0 header in
           let? bs := mem_read data 0 (Z.to_nat k) in mem_write b 12 bs) =
          Done (header ++ take (Z.to_nat k) data ++ rest) ∧
          length (header ++ take (Z.to_nat k) data ++ rest) = length buffer.
Proof.
  intros Hh Hk Hb Hd. rewrite mem_write_in by lia. cbn [obind]. rewrite mem_read_in by lia. cbn [obind].
  rewrite drop_0, take_0. cbn [app Nat.add Z.to_nat].
  rewrite mem_write_in by (rewrite ?length_app, ?length_drop, ?length_take; lia).
  replace (Z.to_nat 12) with (length header) by lia. rewrite take_app_length.
  eexists. split; [reflexivity|].
  rewrite !length_app, !length_drop, !length_app, !length_take, !length_drop. lia.
Qed.

Context (junk_length : ∀ z, 0 <= z → length (junk z) = Z.to_nat z).

Lemma Send_packet_spec po ph mh data : mail_ok po mh data → ∃ rest,
  Send_packet po ph mh data = Done (mkPacketHeader (pkt_to ph) (netAddr po) (mail_length mh + 12),
    mail_bytes mh ++ take (Z.to_nat (mail_length mh)) data ++ rest) ∧
  length (mail_bytes mh ++ take (Z.to_nat (mail_length mh)) data ++ rest) = Z.to_nat MaxPacketSize.
Proof.
  intros [Hto _ _ Hl Hd]. unfold Send_packet, assert.
  unfold MaxMailSize, sizeof_MailHeader, sizeof_PacketHeader, MaxPacketSize, MaxWireSize, sizeof_PacketHeader in *.
  rewrite (proj2 (Z.leb_le _ _)), (proj2 (andb_true_iff _ _)) by lia. cbn [obind].
  destruct (fill_buffer (junk 52) (mail_bytes mh) data (mail_length mh)) as (rest & He & Hr).
  1-4: rewrite ?length_mail_bytes, ?junk_length; try lia.
  rewrite junk_length in Hr by lia. exists rest. split; [|exact Hr].
  destruct (mem_write _ 0 _) as [b|f]; [|done]. cbn [obind] in *.
  destruct (mem_read _ 0 _) as [bs|f]; [|done]. cbn [obind] in *. change (64 - 12 - 12) with 40 in *. rewrite He. cbn [obind].
  do 3 f_equal. unfold u32. by rewrite Z.mod_small by lia.
Qed.

Definition gets_through (n : Network) (m : Nachos) (to : Z) : Prop :=
  Qle_bool (chanceToWork n * 100) (inject_Z (Z.rem (Random (randoms (rest m))) 100)) = false ∧
  sendto (S (randoms (rest m))) to = true.

Lemma Network_Send_spec m q n hdr data : queued m q → network (rest m) = Some n → sendBusy n = false →
  pkt_from hdr = ident n → 0 < pkt_length hdr <= MaxPacketSize → pkt_length hdr <= Z.of_nat (length data) →
  gets_through n m (pkt_to hdr) →
  ∃ m' n' tail, Network_Send big_endian Random sendto (junk MaxWireSize) hdr data m = Done (true, m') ∧
    network (rest m') = Some n' ∧
    wire n' = wire n ++ [(pkt_to hdr, header_bytes big_endian hdr ++ take (Z.to_nat (pkt_length hdr)) data ++ tail)] ∧
    length (header_bytes big_endian hdr ++ take (Z.to_nat (pkt_length hdr)) data ++ tail) = Z.to_nat MaxWireSize.
Proof.
  intros Hq Hn Hb Hf Hl Hd [Hch Hok].
  destruct (fill_buffer (junk MaxWireSize) (header_bytes big_endian hdr) data (pkt_length hdr))
    as (tail & He & Ht);
    [by rewrite length_packet_header|lia|rewrite junk_length by done; unfold MaxPacketSize, MaxWireSize,
     sizeof_PacketHeader in *; lia|lia|].
  rewrite junk_length in Ht by done.
  cut (wp no_fault (Network_Send big_endian Random sendto (junk MaxWireSize) hdr data)
    (λ ok m', ok = true ∧ ∃ n', network (rest m') = Some n' ∧
       wire n' = wire n ++ [(pkt_to hdr, header_bytes big_endian hdr ++
         take (Z.to_nat (pkt_length hdr)) data ++ tail)]) m).
  { intros (ok & m' & Hm' & -> & n' & ? & ?)%wp_no_fault. by exists m', n', tail. }
  unfold Network_Send. apply wp_bind, wp_get. rewrite Hn. apply wp_bind, wp_ret, wp_bind, wp_ASSERT;
    [intros _|rewrite Hb; lia].
  apply wp_bind. eapply wp_Schedule; [exact Hq|done|]. intros l _.
  apply wp_bind. unfold random. apply wp_bind, wp_get, wp_bind, wp_modify, wp_ret.
  cbn [rest with_pending with_interrupt]. rewrite Hch.
  unfold sizeof_PacketHeader. destruct (mem_write _ 0 _) as [b|f]; [|done]. cbn [obind] in He.
  apply wp_bind. eapply wp_lift; [reflexivity|].
  destruct (mem_read _ 0 _) as [bs|f]; [|done]. cbn [obind] in He. apply wp_bind. eapply wp_lift; [reflexivity|].
  apply wp_bind. eapply wp_lift; [exact He|]. apply wp_bind, wp_get. cbn [rest with_rest randoms with_randoms].
  rewrite Hok. apply wp_bind, wp_modify, wp_ret. split; [done|]. by eexists.
Qed.

(** The next datagram at the socket goes into the empty input buffer. *)
Lemma CheckPktAvail_takes m q n h payload tail ds : queued m q → network (rest m) = Some n →
  is_int (pkt_to h) → is_int (pkt_from h) → pkt_to h = ident n → 0 < pkt_length h <= MaxPacketSize →
  length payload = Z.to_nat (pkt_length h) → Z.of_nat (length (inbox n)) = MaxPacketSize →
  pkt_length (inHdr n) = 0 → socket n = (header_bytes big_endian h ++ payload ++ tail) :: ds →
  length (header_bytes big_endian h ++ payload ++ tail) = Z.to_nat MaxWireSize →
  wp no_fault (CheckPktAvail big_endian) (λ _ m', ∃ n', network (rest m') = Some n' ∧ inHdr n' = h ∧
    socket n' = ds ∧ length (inbox n') = Z.to_nat MaxPacketSize ∧ take (length payload) (inbox n') = payload) m.
Proof.
  intros Hq Hn Hto Hfrom Hid Hlen Hpl Hbox Hempty Hso Hsize.
  unfold MaxPacketSize, MaxWireSize, sizeof_PacketHeader in *.
  unfold CheckPktAvail. apply wp_bind. eapply wp_Schedule; [exact Hq|done|]. intros l _.
  apply wp_bind, wp_get. cbn [rest with_pending with_interrupt]. rewrite Hn. apply wp_bind, wp_ret.
  rewrite Hempty, Hso. cbn [Z.eqb negb]. rewrite bool_decide_false by done.
  apply wp_bind. unfold ReadFromSocket. rewrite Hso.
  apply wp_bind, wp_ASSERT; [intros _|rewrite Hsize; unfold MaxWireSize; lia]. apply wp_bind, wp_modify, wp_ret.
  rewrite header_of_bytes by (done || lia). cbn zeta. rewrite Hid.
  apply wp_bind, wp_ASSERT; [intros _|unfold MaxPacketSize, MaxWireSize, sizeof_PacketHeader; lia].
  apply wp_bind. unfold sizeof_PacketHeader. eapply wp_lift; [apply mem_read_in; [done|rewrite Hsize; lia]|].
  replace (Z.to_nat 12) with (length (header_bytes big_endian h)) by (by rewrite length_packet_header).
  rewrite drop_app_length, <- Hpl, take_app_length.
  apply wp_bind. eapply wp_lift; [apply mem_write_in; lia|].
  apply wp_bind, wp_modify, wp_bind, wp_modify, wp_signal. intros K' _. eexists. split; [done|].
  cbn. change (Z.to_nat 0) with O. rewrite !take_0. cbn [app]. rewrite take_app_length, length_app, length_drop. split_and!; [done..|lia|done].
Qed.

(** The postal worker turns a packet with a message in it into a letter. *)
Lemma PostalDelivery_spec po m n h mh payload : network (rest m) = Some n → inHdr n = h →
  pkt_length h = mail_length mh + 12 → mail_ok po mh payload → length payload = Z.to_nat (mail_length mh) →
  length (inbox n) = Z.to_nat MaxPacketSize →
  take (Z.to_nat (pkt_length h)) (inbox n) = mail_bytes mh ++ payload →
  wp no_fault (PostalDelivery po) (λ r _, r.1 = mail_to mh ∧ open_mail r.2 = Done (h, mh, payload)) m.
Proof.
  intros Hn Hh Hl [Hto Hti Hfr Hml _] Hpl Hbox Hin.
  unfold MaxMailSize, MaxPacketSize, MaxWireSize, sizeof_PacketHeader, sizeof_MailHeader in *.
  unfold PostalDelivery, Network_Receive. apply wp_bind, wp_bind, wp_get. rewrite Hn.
  apply wp_bind, wp_ret, wp_bind, wp_modify. rewrite Hh, (proj2 (Z.eqb_neq _ _)) by lia.
  apply wp_bind. eapply wp_lift; [apply mem_read_in; lia|]. apply wp_ret.
  rewrite drop_0, Hin.
  apply wp_bind. eapply wp_lift;
    [apply mem_write_in; [done|rewrite junk_length, length_app, length_mail_bytes by done;
       unfold MaxPacketSize, MaxWireSize, sizeof_PacketHeader; lia]|].
  rewrite take_0. cbn [app]. rewrite <- app_assoc. set (buffer := mail_bytes mh ++ _).
  assert (Z.of_nat (length buffer) = 52) as Hb.
  { unfold buffer. rewrite !length_app, length_drop, length_mail_bytes, junk_length by done.
    unfold MaxPacketSize, MaxWireSize, sizeof_PacketHeader. lia. }
  assert (mem_read buffer 0 12 = Done (mail_bytes mh)) as Hread.
  { rewrite mem_read_in by lia. unfold buffer. by rewrite drop_0, take_app_length' by (by rewrite length_mail_bytes). }
  apply wp_bind. eapply wp_lift; [rewrite Hread; cbn [obind];
    rewrite <- (app_nil_r (mail_bytes mh)), mail_of_bytes by (done || lia); reflexivity|].
  apply wp_bind, wp_ASSERT; [intros _|lia].
  apply wp_bind, wp_ASSERT; [intros _|unfold MaxMailSize, MaxPacketSize, MaxWireSize, sizeof_PacketHeader, sizeof_MailHeader; lia].
  apply wp_bind. unfold new_Mail, assert. unfold MaxMailSize, MaxPacketSize, MaxWireSize, sizeof_PacketHeader, sizeof_MailHeader.
  rewrite (proj2 (Z.leb_le _ _)) by lia. cbn [obind].
  replace (drop (Z.to_nat 12) buffer) with (payload ++ drop (Z.to_nat 0 + length (mail_bytes mh ++ payload)) (junk (64 - 12)))
    by (unfold buffer; by rewrite drop_app_length' by (by rewrite length_mail_bytes)).
  rewrite mem_read_in by (rewrite ?length_app; lia). cbn [obind]. rewrite drop_0, take_app_length' by lia.
  rewrite mem_write_in by (rewrite ?junk_length; lia). cbn [obind]. eapply wp_lift; [reflexivity|].
  apply wp_ret. split; [done|]. unfold open_mail, assert. cbn [letter_data mailHdr pktHdr snd].
  rewrite mem_read_in by (rewrite ?length_app; lia). cbn [obind].
  rewrite drop_0, take_0. cbn [app]. rewrite take_app_length' by lia.
  by rewrite (proj2 (Z.leb_le _ _)) by (unfold MaxMailSize, MaxPacketSize, MaxWireSize, sizeof_PacketHeader, sizeof_MailHeader; lia).
Qed.

(** C30: a message survives the two layers of headers.  What
    [Send] puts together is accepted by the network, goes out as one datagram
    of the wire's size addressed to the machine it is for, and when that
    machine polls its socket with an empty input buffer the postal worker puts
    a letter into the mailbox the sender named; opened, it holds the address
    of the sender, the sender's mail header and its bytes, no more and no less,
    whatever the byte order of the hosts. *)
Theorem mail_roundtrip po m q n ph mh data : mail_ok po mh data → is_int (pkt_to ph) → is_int (netAddr po) →
  queued m q → network (rest m) = Some n → sendBusy n = false → netAddr po = ident n →
  gets_through n m (pkt_to ph) →
  ∃ hdr buffer m1 n1 d,
    Send_packet po ph mh data = Done (hdr, buffer) ∧
    Network_Send big_endian Random sendto (junk MaxWireSize) hdr buffer m = Done (true, m1) ∧
    network (rest m1) = Some n1 ∧ wire n1 = wire n ++ [(pkt_to ph, d)] ∧ datagram_ok big_endian (pkt_to ph) d ∧
    ∀ po' m' q' n' ds, queued m' q' → network (rest m') = Some n' → ident n' = pkt_to ph →
      socket n' = d :: ds → Z.of_nat (length (inbox n')) = MaxPacketSize → pkt_length (inHdr n') = 0 →
      mail_to mh < numBoxes po' →
      ∃ letter m2, (CheckPktAvail big_endian ;;; PostalDelivery po') m' = Done ((mail_to mh, letter), m2) ∧
        open_mail letter = Done (mkPacketHeader (pkt_to ph) (netAddr po) (mail_length mh + sizeof_MailHeader), mh,
          take (Z.to_nat (mail_length mh)) data).
Proof.
  intros Hok Hto Haddr Hq Hn Hb Hid Hch. pose proof Hok as [? ? ? Hl Hdata].
  destruct (Send_packet_spec po ph mh data Hok) as (rest1 & Hs & Hs1).
  set (hdr := mkPacketHeader _ _ _) in Hs. set (msg := take _ data) in *.
  unfold MaxMailSize, sizeof_MailHeader, MaxPacketSize, MaxWireSize, sizeof_PacketHeader in *.
  assert (length msg = Z.to_nat (mail_length mh)) as Hmsg by (unfold msg; rewrite length_take; lia).
  destruct (Network_Send_spec m q n hdr _ Hq Hn Hb Hid ltac:(cbn; unfold MaxPacketSize, MaxWireSize, sizeof_PacketHeader; lia)
    ltac:(rewrite Hs1; cbn; lia) Hch) as (m1 & n1 & tail & Hsend & Hn1 & Hw & Hd).
  assert (take (Z.to_nat (pkt_length hdr)) (mail_bytes mh ++ msg ++ rest1) = mail_bytes mh ++ msg) as Htake.
  { rewrite app_assoc, take_app_length'; [done|]. rewrite length_app, length_mail_bytes. cbn. lia. }
  rewrite Htake in *. assert (header_of big_endian (header_bytes big_endian hdr ++ (mail_bytes mh ++ msg) ++ tail) = hdr) as Hh
    by (apply header_of_bytes; cbn; [done|done|lia]).
  eexists hdr, _, m1, n1, _. split; [exact Hs|]. split; [exact Hsend|]. split; [exact Hn1|]. split; [exact Hw|].
  split.
  { split; [rewrite Hd; unfold MaxWireSize; lia|]. rewrite Hh. split; [done|].
    cbn. unfold MaxPacketSize, MaxWireSize, sizeof_PacketHeader. lia. }
  intros po' m' q' n' ds Hq' Hn' Hid' Hso Hbox Hempty Hbx.
  cut (wp no_fault (CheckPktAvail big_endian ;;; PostalDelivery po')
    (λ r _, r.1 = mail_to mh ∧ open_mail r.2 = Done (hdr, mh, msg)) m').
  { intros ([z letter] & m2 & Hm2 & Hz & Hopen)%wp_no_fault. cbn in Hz, Hopen. subst z. by exists letter, m2. }
  assert (length (mail_bytes mh ++ msg) = Z.to_nat (pkt_length hdr)) as Hpay
    by (rewrite length_app, length_mail_bytes; cbn; lia).
  apply wp_bind. eapply wp_mono; [eapply (CheckPktAvail_takes m' q' n' hdr (mail_bytes mh ++ msg) tail ds)|];
    cbn; try done; try (unfold MaxPacketSize, MaxWireSize, sizeof_PacketHeader; lia).
  intros _ m2 (n2 & Hn2 & Hh2 & _ & Hb2 & Ht2).
  eapply PostalDelivery_spec; [exact Hn2|exact Hh2|done| |done|done|].
  all: try (constructor; try done; unfold MaxMailSize, sizeof_MailHeader, MaxPacketSize, MaxWireSize, sizeof_PacketHeader; lia).
  by rewrite <- Hpay.
Qed.
End post.

(** ** A message between two machines *)

Definition sample_junk (z : Z) : list Z := replicate (Z.to_nat z) 7.
Definition sample_office (addr : Z) : PostOffice := mkPostOffice addr 2 0 1 0.
Definition sample_network (addr : Z) (box : list Z) (ds : list (list Z)) : Network :=
  mkNetwork 0 1 addr 1 false (mkPacketHeader 0 0 0) box ds [].
Definition sample_net (addr : Z) (box : list Z) (ds : list (list Z)) : Nachos :=
  mkNachos new_Interrupt new_Statistics
    (mkDevices (initial [] (λ _, 0)) None None
      (Some (sample_network addr box ds)) None 0 None 0).
Definition sample_mail : MailHeader := mkMailHeader 1 0 3.
Definition sample_wire (m : Nachos) : list (list Z) :=
  match network (rest m) with Some n => map snd (wire n) | None => [] end.
Definition sample_send : outcome (bool * Nachos) :=
  let? p := Send_packet false sample_junk (sample_office 4) (mkPacketHeader 5 0 0) sample_mail [104; 105; 0] in
  Network_Send false (λ _, 0) (λ _ _, true) (sample_junk MaxWireSize) p.1 p.2 (sample_net 4 (sample_junk MaxPacketSize) []).
Definition sample_datagrams : list (list Z) :=
  match sample_send with Done (_, m) => sample_wire m | Fault _ => [] end.

Lemma mail_roundtrip_witness : ∃ letter m2,
  (CheckPktAvail false ;;; PostalDelivery false sample_junk (sample_office 5))
    (sample_net 5 (sample_junk MaxPacketSize) sample_datagrams) = Done ((1, letter), m2) ∧
  open_mail letter = Done (mkPacketHeader 5 4 15, sample_mail, [104; 105; 0]).
Proof.
  assert (∀ z, 0 <= z → length (sample_junk z) = Z.to_nat z) as Hj by (intros z Hz; apply length_replicate).
  assert (∀ a b ds, queued (sample_net a b ds) []) as Hq by (intros; apply holds_nil).
  destruct (mail_roundtrip false (λ _, 0) (λ _ _, true) sample_junk Hj (sample_office 4)
    (sample_net 4 (sample_junk MaxPacketSize) []) [] (sample_network 4 (sample_junk MaxPacketSize) [])
    (mkPacketHeader 5 0 0) sample_mail [104; 105; 0])
    as (hdr & buffer & m1 & n1 & d & Hs & Hsend & Hn1 & Hw & _ & Hget).
  - constructor; unfold is_int, INT_MIN, INT_MAX, MaxMailSize, MaxPacketSize, MaxWireSize, sizeof_MailHeader, sizeof_PacketHeader; cbn; lia.
  - unfold is_int, INT_MIN, INT_MAX. cbn. lia.
  - unfold is_int, INT_MIN, INT_MAX. cbn. lia.
  - apply Hq.
  - reflexivity.
  - reflexivity.
  - reflexivity.
  - split; reflexivity.
  - assert (sample_datagrams = [d]) as Hd.
    { unfold sample_datagrams, sample_send. rewrite Hs. cbn [obind fst snd]. rewrite Hsend.
      unfold sample_wire. rewrite Hn1, Hw. reflexivity. }
    destruct (Hget (sample_office 5) (sample_net 5 (sample_junk MaxPacketSize) sample_datagrams) []
      (sample_network 5 (sample_junk MaxPacketSize) sample_datagrams) [] (Hq _ _ _) eq_refl eq_refl Hd eq_refl eq_refl eq_refl) as (letter & m2 & Hr & Ho).
    exists letter, m2. split; [exact Hr|exact Ho].
Defined.
