(* ===== verification/SynchList.v ===== *)
(** * SynchList: the list threads wait on, threads/synchlist.cc

    Any number of threads run [Append], [Remove] and [Mapcar] on one list.  What
    a thread has left to do is its [pc]; a step runs it to the next call of the
    kernel, so that it can be preempted between any two.  The lock, the condition
    variable and the scheduler are those of Synch, the list inside is PtrList's.
    A mailbox of network/post.cc is such a list of letters. *)
From S2P Require Import Prelude PtrList ServerState Translate Synch SynchFrame Interrupt Devices PostOffice.
From Stdlib Require Import ZArith Lia.
From stdpp Require Import functions base list gmap.

#[local] Notation List := PtrList.List.
#[local] Notation holds := Synch.holds.

(** Where a thread is: outside; in [Append], before the item is on the list and
    before the signal; in [Remove], at the test of the loop, past it, and with the
    item; in [Mapcar]; before the [Release] of a call without a result. *)
Inductive pc (A : Type) :=
| Out
| Appending (it : A) | Signalling
| Testing | Taking | Removed (it : A)
| Mapping
| Releasing.
Arguments Out {A}.
Arguments Appending {A} it.
Arguments Signalling {A}.
Arguments Testing {A}.
Arguments Taking {A}.
Arguments Removed {A} it.
Arguments Mapping {A}.
Arguments Releasing {A}.

(** One object of the class and the threads. *)
Record World (A : Type) := mkWorld { kern : Kernel; items : List A; at_pc : tid → pc A }.
Arguments mkWorld {A} kern items at_pc.
Arguments kern {A} _.
Arguments items {A} _.
Arguments at_pc {A} _ _.

Section synchlist.
Context {A : Type}.
(** The members [lock] and [listEmpty]. *)
Context (lock listEmpty : nat).

Implicit Types (W : World A) (q : list A) (t u : tid) (K : Kernel).

Definition with_kern K W : World A := mkWorld K (items W) (at_pc W).

Definition on_kern {B} (op : M Kernel B) : M (World A) B := λ W,
  match op (kern W) with Done (b, K) => Done (b, with_kern K W) | Fault f => Fault f end.
Definition on_items {B} (op : M (List A) B) : M (World A) B := λ W,
  match op (items W) with Done (b, l) => Done (b, mkWorld (kern W) l (at_pc W)) | Fault f => Fault f end.
Definition go_to t (p : pc A) : M (World A) unit :=
  modify (λ W, mkWorld (kern W) (items W) (<[t := p]> (at_pc W))).

(** A call starts with [lock->Acquire()], and goes on at [p] with the lock. *)
Definition begin t (p : pc A) : M (World A) unit :=
  go_to t p ;;; let! _s := on_kern (Acquire lock) in ret ().

Definition SynchList_Append t (item : A) : M (World A) unit := begin t (Appending item).
Definition SynchList_Remove t : M (World A) unit := begin t Testing.
Definition SynchList_Mapcar t : M (World A) unit := begin t Mapping.

(** What thread [t] does next.  [Wait] comes back to the test. *)
Definition go_on t : M (World A) unit :=
  let! W := get in
  match at_pc W t with
  | Out => ret ()
  | Appending item => on_items (Append (Some item)) ;;; go_to t Signalling
  | Signalling => go_to t Releasing ;;; let! _s := on_kern (Signal listEmpty (Some lock)) in ret ()
  | Testing =>
      let! isEmpty := on_items IsEmpty in
      if isEmpty : bool then let! _s := on_kern (Wait listEmpty (Some lock)) in ret ()
      else go_to t Taking
  | Taking =>
      let! item := on_items PtrList.Remove in
      match item with
      | None => fail AssertFailed
      | Some item => go_to t (Removed item)
      end
  | Mapping => let! _l := on_items Mapcar in go_to t Releasing
  | Removed _ | Releasing => go_to t Out ;;; let! _s := on_kern (Release lock) in ret ()
  end.

(** ** The system *)

(** A call that has nothing to do with the list. *)
Definition elsewhere (x : call) : Prop :=
  match x with
  | CallP _ | CallV _ => True
  | CallAcquire l | CallRelease l => l ≠ lock
  | CallWait c l | CallSignal c l => c ≠ listEmpty ∧ l ≠ Some lock
  end.

(** What a step puts on the list and takes off it. *)
Definition added (p : pc A) : list A := match p with Appending it => [it] | _ => [] end.
Definition taken (p p' : pc A) : list A :=
  match p, p' with Taking, Removed it => [it] | _, _ => [] end.

Inductive step W : World A → list A → list A → Prop :=
| step_append t item W' : current (kern W) = Some t → at_pc W t = Out →
    SynchList_Append t item W = Done ((), W') → step W W' [] []
| step_remove t W' : current (kern W) = Some t → at_pc W t = Out →
    SynchList_Remove t W = Done ((), W') → step W W' [] []
| step_mapcar t W' : current (kern W) = Some t → at_pc W t = Out →
    SynchList_Mapcar t W = Done ((), W') → step W W' [] []
| step_on t W' : current (kern W) = Some t → at_pc W t ≠ Out → go_on t W = Done ((), W') →
    step W W' (added (at_pc W t)) (taken (at_pc W t) (at_pc W' t))
| step_call t x st K' : current (kern W) = Some t → at_pc W t = Out → elsewhere x →
    run_call x (kern W) = Done (st, K') → step W (with_kern K' W) [] []
| step_yield t st K' : current (kern W) = Some t → Yield (kern W) = Done (st, K') →
    step W (with_kern K' W) [] []
| step_dispatch st K' : current (kern W) = None → dispatch (kern W) = Done (st, K') →
    step W (with_kern K' W) [] []
| step_interrupt s st K' : V s (kern W) = Done (st, K') → step W (with_kern K' W) [] [].

(** The items put on the list and taken off it so far, in order. *)
Inductive runs W0 : World A → list A → list A → Prop :=
| runs_start : runs W0 W0 [] []
| runs_step W ins outs W' more less : runs W0 W ins outs → step W W' more less →
    runs W0 W' (ins ++ more) (outs ++ less).

(** ** What the kernel leaves alone *)

Definition about (r : resumption) : Prop :=
  match r with InP _ => False | InAcquire l => l = lock | InWait c l => c = listEmpty ∨ l = lock end.

(** ** The invariant *)

Context (ts : list tid).

Definition stored (l : List A) q : Prop := ∃ cs, rep l cs ∧ cs.*2.*2 = Some <$> q.

(** A thread inside has the lock, or sleeps until it gets it. *)
Definition place_ok K u (p : pc A) : Prop :=
  match p with
  | Out => True
  | Appending _ | Mapping => holds K lock u ∨ suspended K u = Some (InAcquire lock)
  | Testing => holds K lock u ∨ suspended K u = Some (InAcquire lock) ∨
      suspended K u = Some (InWait listEmpty lock)
  | Signalling | Taking | Removed _ | Releasing => holds K lock u
  end.

Definition sleeper_ok (r : resumption) (p : pc A) : Prop :=
  match r with
  | InP _ => True
  | InAcquire _ => match p with Appending _ | Testing | Mapping => True | _ => False end
  | InWait c l => c = listEmpty ∧ l = lock ∧ p = Testing
  end.

(** On its way to take an item or to wake one who does.  Such a thread may sleep
    in the queue of the list's lock; [covered_awake] says who is awake then. *)
Definition mover K u (p : pc A) : Prop :=
  match p with
  | Signalling | Taking => True
  | Testing => u ∉ cond_queue (conds K listEmpty)
  | _ => False
  end.

(** While somebody waits for an item, every item on the list has a mover of its
    own. *)
Definition covered K (at_pc : tid → pc A) q : Prop :=
  cond_queue (conds K listEmpty) = [] ∨
  ∃ ms, NoDup ms ∧ (∀ u, u ∈ ms → mover K u (at_pc u)) ∧ length q ≤ length ms.

Record inv W q : Prop := {
  v_kernel : kinv ts (kern W);
  v_items : stored (items W) q;
  v_place : ∀ u, place_ok (kern W) u (at_pc W u);
  v_sleeper : ∀ u r, suspended (kern W) u = Some r → about r → sleeper_ok r (at_pc W u);
  v_taking : ∀ u, at_pc W u = Taking → q ≠ [];
  v_covered : covered (kern W) (at_pc W) q
}.

(** A move of the kernel that takes nobody's lock away and wakes nobody who
    waits for an item. *)
Record keeps K K' : Prop := {
  ke_kinv : kinv ts K';
  ke_conds : conds K' listEmpty = conds K listEmpty;
  ke_holds : ∀ u, holds K lock u → holds K' lock u;
  ke_acquire : ∀ u, suspended K u = Some (InAcquire lock) →
    holds K' lock u ∨ suspended K' u = Some (InAcquire lock);
  ke_wait : ∀ u, suspended K u = Some (InWait listEmpty lock) →
    holds K' lock u ∨ suspended K' u = Some (InAcquire lock) ∨ suspended K' u = Some (InWait listEmpty lock);
  ke_back : ∀ u r, suspended K' u = Some r → about r →
    suspended K u = Some r ∨ (r = InAcquire lock ∧ ∃ c, suspended K u = Some (InWait c lock))
}.

Lemma place_keeps K K' u p : keeps K K' → place_ok K u p → place_ok K' u p.
Proof. intros []. destruct p; cbn; naive_solver. Qed.

Lemma inv_keeps W q K' : inv W q → keeps (kern W) K' → inv (with_kern K' W) q.
Proof.
  intros [Hk Hi Hp Hs Ht Hc] HK. constructor; cbn; [apply HK|done| | |done|].
  - intros u. by apply (place_keeps (kern W)).
  - intros u r Hr Ha. destruct (ke_back _ _ HK u r Hr Ha) as [Hr'|(-> & c & Hr')]; [by apply Hs|].
    specialize (Hs u _ Hr' ltac:(by right)). destruct Hs as (_ & _ & ->). done.
  - unfold covered, mover in *. by rewrite (ke_conds _ _ HK).
Qed.

Lemma keeps_frame K K' : kinv ts K' → conds K' listEmpty = conds K listEmpty → locks K' lock = locks K lock →
  (∀ u, suspended K' u = suspended K u ∨
        (suspended K u = None ∧ ∀ r, suspended K' u = Some r → ¬ about r)) → keeps K K'.
Proof.
  intros Hk Hc Hl Hs. constructor; [done|done|unfold holds; by rewrite Hl|..].
  - intros u Hu. right. destruct (Hs u) as [->|[? _]]; [done|congruence].
  - intros u Hu. right. right. destruct (Hs u) as [->|[? _]]; [done|congruence].
  - intros u r Hr Ha. left. destruct (Hs u) as [<-|[_ Hn]]; [done|by destruct (Hn r)].
Qed.

Lemma call_keeps x K st K' t : kinv ts K → current K = Some t → elsewhere x → run_call x K = Done (st, K') →
  keeps K K'.
Proof.
  intros Hk Hc He Hx. destruct (call_framed listEmpty x K st K' t Hc Hx) as [Ho Hself Hcd].
  { destruct x; cbn in He; tauto. }
  apply keeps_frame; [eapply step_kinv; [done|by eapply Synch.step_call]|done|eapply call_lock; [done| |done]; by destruct x; cbn in *; naive_solver|].
  intros u. destruct (decide (u = t)) as [->|]; [|left; auto].
  right. split; [by apply (pl_current _ _ _ _ _ (k_places _ _ _ Hk))|]. intros r Hr.
  destruct Hself as [[_ Hs]|(_ & Hs & _)].
  - rewrite Hs in Hr. destruct (pl_current _ _ _ _ _ (k_places _ _ _ Hk) t Hc). congruence.
  - rewrite Hs in Hr. destruct x as [s|s|l|l|c [l|]|c l]; cbn in *; simplify_eq; cbn; [tauto|done|].
    intros [->| ->]; by destruct He.
Qed.

Lemma V_keeps s K st K' : kinv ts K → V s K = Done (st, K') → keeps K K'.
Proof.
  intros Hk HV. destruct (V_framed _ _ _ _ HV) as (_ & Hs & Hc & Hl).
  apply keeps_frame; [by eapply step_kinv; [|eapply Synch.step_interrupt]|by rewrite Hc|by rewrite Hl|].
  intros u. left. by rewrite Hs.
Qed.

(** The thread switched to goes on with its lock or sleeps until it has it. *)
Lemma run_keeps K K0 n st K' : Run n K0 = Done (st, K') → resumed n (ts := ts) (suspended K0 n) st K' →
  suspended K0 = suspended K → conds K0 = conds K → locks K0 = locks K → kinv ts K → keeps K K'.
Proof.
  intros HR [[Hk' Hcur] Hw] Hs Hcd Hl Hk. destruct (Run_framed listEmpty n K0 st K' HR) as (Ho & Hn & Hsl & Hc').
  rewrite Hs in *.
  assert (∀ u, holds K lock u → holds K' lock u) as Hh.
  { intros u Hu. refine (wp_done _ _ (λ _ K', holds K' lock u) _ _ _ (Run_holds lock u n K0 _ _) HR).
    - unfold Synch.holds. by rewrite Hl.
    - rewrite Hl. apply (li_owner _ _ _ _ (k_locks _ _ _ Hk lock)). by exists u. }
  constructor; [done|by rewrite Hc', Hcd|done|..].
  - intros u Hu. destruct (decide (u = n)) as [->|]; [|right; by rewrite Ho].
    rewrite Hu in *. destruct st; [left; by apply Hw|]. by destruct Hsl.
  - intros u Hu. destruct (decide (u = n)) as [->|]; [|right; right; by rewrite Ho].
    rewrite Hu in *. destruct st; [left; by apply Hw|]. by right; left.
  - intros u r Hr Ha. destruct (decide (u = n)) as [->|]; [|left; by rewrite Ho in Hr].
    destruct st; [congruence|]. rewrite Hn in Hr.
    destruct (suspended K n) as [[s|l|c l]|]; cbn in Hr; simplify_eq; cbn in Ha; [done|]. subst l. right. eauto.
Qed.

Lemma keeps_refl K : kinv ts K → keeps K K.
Proof. intros Hk. apply keeps_frame; [done..|]. intros u. by left. Qed.

Lemma dispatch_keeps K st K' : kinv ts K → current K = None → dispatch K = Done (st, K') → keeps K K'.
Proof.
  intros Hk Hc Hd. pose proof (wp_done _ _ _ _ _ _ (dispatch_kinv K Hk Hc) Hd) as HD. cbn in HD.
  unfold dispatch in Hd. destruct (readyList K) as [|n r] eqn:Hr.
  - destruct HD as [_ ->]. by apply keeps_refl.
  - destruct HD as (st' & -> & HD). rewrite (bind_Done _ _ _ _ _ (FindNextToRun_cons K n r Hr)) in Hd.
    unfold bind in Hd. destruct (Run n (with_ready r K)) as [[st1 K1]|] eqn:HR; [|done]. injection Hd as -> ->.
    by eapply run_keeps.
Qed.

Lemma Yield_keeps K st K' t : kinv ts K → current K = Some t → Yield K = Done (st, K') → keeps K K'.
Proof.
  intros Hk Hc Hd. pose proof (wp_done _ _ _ _ _ _ (Yield_kinv t K Hk Hc) Hd) as HD. cbn in HD.
  unfold Yield in Hd. rewrite (bind_Done _ _ K t K) in Hd by (unfold currentThread, bind, get; by rewrite Hc).
  destruct (readyList K) as [|n r] eqn:Hr.
  - destruct HD as [_ ->]. by apply keeps_refl.
  - rewrite (bind_Done _ _ _ _ _ (FindNextToRun_cons K n r Hr)) in Hd.
    apply (run_keeps K (with_ready (r ++ [t]) K) n st); [exact Hd|exact HD|done..].
Qed.

(** ** The list inside *)

Lemma stored_append l q it : stored l q → ∃ l', Append (Some it) l = Done ((), l') ∧ stored l' (q ++ [it]).
Proof.
  intros (cs & Hr & Hq). destruct (Append_rep l cs (Some it) Hr) as (n & l' & He & Hr' & _).
  exists l'. split; [done|]. exists (cs ++ [(n, (0%Z, Some it))]). split; [done|]. by rewrite !fmap_app, Hq.
Qed.

Lemma stored_remove l it q : stored l (it :: q) → ∃ l', PtrList.Remove l = Done (Some it, l') ∧ stored l' q.
Proof.
  intros (cs & Hr & Hq). destruct (Remove_rep l cs Hr) as (l' & He & Hr' & _).
  destruct cs as [|[n [k it']] cs]; [done|]. cbn in *. injection Hq as -> Hq.
  exists l'. split; [done|]. by exists cs.
Qed.

Lemma stored_IsEmpty l q : stored l q → IsEmpty l = Done (bool_decide (q = []), l).
Proof.
  intros (cs & Hr & Hq). unfold IsEmpty, bind, get, ret. rewrite (rep_empty l cs Hr). by destruct cs, q.
Qed.

Lemma stored_Mapcar l q : stored l q → Mapcar l = Done (Some <$> q, l).
Proof.
  intros (cs & Hr & Hq). unfold Mapcar, bind, get. cbn -[mapcar_loop].
  pose proof (seg_size _ _ _ _ (rep_seg _ _ Hr) (rep_nodup _ _ Hr)).
  rewrite (mapcar_loop_spec l _ cs) by (apply Hr || lia). by rewrite Hq.
Qed.

(** ** A step of the running thread *)

Lemma wp_on_kern {B} (op : M Kernel B) (Q : B → World A → Prop) W :
  wp no_fault op (λ b K', Q b (with_kern K' W)) (kern W) → wp no_fault (on_kern op) Q W.
Proof. unfold wp, on_kern. by destruct (op (kern W)) as [[]|]. Qed.

Lemma wp_on_items {B} (op : M (List A) B) (Q : B → World A → Prop) W b l :
  op (items W) = Done (b, l) → Q b (mkWorld (kern W) l (at_pc W)) → wp no_fault (on_items op) Q W.
Proof. unfold wp, on_items. by intros ->. Qed.

Lemma covered_pc K pcs q t p : (mover K t (pcs t) → mover K t p) → covered K pcs q → covered K (<[t := p]> pcs) q.
Proof.
  intros Hp [?|(ms & Hn & Hm & Hl)]; [by left|right]. exists ms. split_and!; [done| |done].
  intros u Hu. destruct (decide (u = t)) as [->|]; [rewrite fn_lookup_insert; auto|rewrite fn_lookup_insert_ne; auto].
Qed.

Lemma covered_append K pcs q t p it : ¬ mover K t (pcs t) → mover K t p → covered K pcs q →
  covered K (<[t := p]> pcs) (q ++ [it]).
Proof.
  intros Hp Hp' [?|(ms & Hn & Hm & Hl)]; [by left|right]. exists (t :: ms).
  rewrite length_app. cbn. split_and!; [constructor; [|done]; by intros ?%Hm| |lia].
  intros u [->|Hu]%elem_of_cons; [by rewrite fn_lookup_insert|].
  rewrite fn_lookup_insert_ne; [auto|]. intros <-. by apply Hp, Hm.
Qed.

(** The movers but one. *)
Lemma without t (ms : list tid) : NoDup ms → ∃ ms', NoDup ms' ∧ (∀ u, u ∈ ms' ↔ u ∈ ms ∧ u ≠ t) ∧
  length ms ≤ S (length ms').
Proof.
  intros Hn. exists (filter (λ u, u ≠ t) ms). split_and!; [by apply NoDup_filter| |].
  - intros u. rewrite list_elem_of_filter. tauto.
  - induction Hn as [|u ms Hu Hn IH]; [cbn; lia|]. rewrite filter_cons. case_decide as Hd; cbn; [lia|].
    subst u.
    assert (filter (λ u, u ≠ t) ms = ms) as ->; [|done].
    clear IH Hn. induction ms as [|u ms IH]; [done|]. apply not_elem_of_cons in Hu as [? ?].
    rewrite filter_cons, decide_True by done. by rewrite IH.
Qed.

Lemma covered_take K pcs it q t p : covered K pcs (it :: q) → covered K (<[t := p]> pcs) q.
Proof.
  intros [?|(ms & Hn & Hm & Hl)]; [by left|right]. destruct (without t ms Hn) as (ms' & Hn' & Hin & Hl').
  exists ms'. cbn in Hl. split_and!; [done| |lia].
  intros u [? ?]%Hin. rewrite fn_lookup_insert_ne; auto.
Qed.

Lemma inside_holds W q t : inv W q → current (kern W) = Some t → at_pc W t ≠ Out → Synch.holds (kern W) lock t.
Proof.
  intros [Hk _ Hp _ _ _] Hc Ho. specialize (Hp t).
  destruct (pl_current _ _ _ _ _ (k_places _ _ _ Hk) t Hc) as [Hs _].
  destruct (at_pc W t); cbn in Hp; try done; rewrite Hs in Hp; naive_solver.
Qed.

(** The other threads when [t], which has the lock, moves. *)
Lemma others_place K K' t u p : holds K lock t → u ≠ t → suspended K' u = suspended K u →
  place_ok K u p → place_ok K' u p.
Proof.
  intros Ht Hu Hs. assert (¬ holds K lock u) by (unfold Synch.holds in *; congruence).
  destruct p; cbn; rewrite ?Hs; tauto.
Qed.

Lemma begin_ok W q t p : inv W q → current (kern W) = Some t → at_pc W t = Out →
  match p with Appending _ | Testing | Mapping => True | _ => False end →
  wp no_fault (begin t p) (λ _ W', inv W' q ∧ at_pc W' = <[t := p]> (at_pc W)) W.
Proof.
  intros [Hk Hi Hp Hs Ht Hcv] Hc Hout Hpc. unfold begin, go_to. apply wp_bind, wp_modify, wp_bind, wp_on_kern. cbn.
  pose proof (Acquire_kinv lock t _ Hk Hc) as Ha. unfold wp in *.
  destruct (Acquire lock (kern W)) as [[st K']|] eqn:HA; [|done]. destruct Ha as [[Hk' _] Hown].
  destruct (Acquire_framed listEmpty lock _ st K' t Hc HA) as [Ho Hself Hcd].
  destruct (pl_current _ _ _ _ _ (k_places _ _ _ Hk) t Hc) as [Hsl _].
  apply wp_ret. split; [|done]. constructor; cbn; [done|done|..].
  - intros u. destruct (decide (u = t)) as [->|].
    + rewrite fn_lookup_insert. unfold Synch.holds.
      assert (lockOwner (locks K' lock) = Some t ∨ suspended K' t = Some (InAcquire lock)) as [?|?]
        by (destruct Hself as [[-> _]|(-> & ? & _)]; auto).
      all: destruct p; cbn; unfold Synch.holds; tauto.
    + rewrite fn_lookup_insert_ne by done. specialize (Hp u).
      assert (holds (kern W) lock u → holds K' lock u) as Hh.
      { intros Hu. refine (wp_done _ _ _ _ _ _ (Acquire_holds lock u lock _ Hu _) HA).
        apply (li_owner _ _ _ _ (k_locks _ _ _ Hk lock)). by exists u. }
      destruct (at_pc W u); cbn in *; rewrite ?Ho by done; tauto.
  - intros u r. destruct (decide (u = t)) as [->|].
    + rewrite fn_lookup_insert. intros Hr _. destruct Hself as [[_ He]|(_ & He & _)]; [congruence|].
      rewrite He in Hr. injection Hr as <-. by destruct p.
    + rewrite fn_lookup_insert_ne by done. rewrite Ho by done. apply Hs.
  - intros u. destruct (decide (u = t)) as [->|]; [rewrite fn_lookup_insert; by intros ->|].
    rewrite fn_lookup_insert_ne by done. apply Ht.
  - unfold covered, mover. rewrite Hcd. apply (covered_pc (kern W)); [by rewrite Hout|done].
Qed.

(** A step of [t] that only changes the list and where [t] is. *)
Lemma inv_local W q q' l t p : inv W q → holds (kern W) lock t → stored l q' →
  suspended (kern W) t = None → place_ok (kern W) t p → (p = Taking → q' ≠ []) →
  covered (kern W) (<[t := p]> (at_pc W)) q' → inv (mkWorld (kern W) l (<[t := p]> (at_pc W))) q'.
Proof.
  intros [Hk Hi Hp Hs Ht Hcv] Ho Hi' Hsl Hp' Ht' Hcv'. constructor; cbn; [done|done|..|done].
  - intros u. destruct (decide (u = t)) as [->|]; [by rewrite fn_lookup_insert|by rewrite fn_lookup_insert_ne].
  - intros u r. destruct (decide (u = t)) as [->|]; [congruence|rewrite fn_lookup_insert_ne by done; apply Hs].
  - intros u. destruct (decide (u = t)) as [->|]; [rewrite fn_lookup_insert; auto|].
    rewrite fn_lookup_insert_ne by done. intros Hu. specialize (Hp u). rewrite Hu in Hp. cbn in Hp.
    unfold Synch.holds in *. congruence.
Qed.

(** A step of [t] in the kernel: from [t]'s own lock nobody else has a claim
    but a place in a queue. *)
Lemma inv_moved W q t K' pcs : inv W q → holds (kern W) lock t → kinv ts K' →
  (∀ u, u ≠ t → suspended K' u = suspended (kern W) u ∧ pcs u = at_pc W u) → place_ok K' t (pcs t) →
  (∀ r, suspended K' t = Some r → about r → sleeper_ok r (pcs t)) → pcs t ≠ Taking →
  covered K' pcs q → inv (mkWorld K' (items W) pcs) q.
Proof.
  intros [Hk Hi Hp Hs Ht Hcv] Ho Hk' Hoth Hp' Hs' Htk Hcv'. constructor; cbn; [done|done|..|done].
  - intros u. destruct (decide (u = t)) as [->|]; [done|]. destruct (Hoth u) as [? ->]; [done|].
    apply (others_place (kern W) K' t); auto.
  - intros u r. destruct (decide (u = t)) as [->|]; [auto|]. destruct (Hoth u) as [-> ->]; [done|]. apply Hs.
  - intros u. destruct (decide (u = t)) as [->|]; [done|]. destruct (Hoth u) as [_ ->]; [done|]. apply Ht.
Qed.

Lemma queue_sleeper W q u : inv W q → u ∈ cond_queue (conds (kern W) listEmpty) →
  waitingLock (conds (kern W) listEmpty) = Some lock ∧ suspended (kern W) u = Some (InWait listEmpty lock) ∧
  at_pc W u = Testing.
Proof.
  intros Hi Hu. destruct (ci_lock _ _ _ (k_conds _ _ _ (v_kernel _ _ Hi) listEmpty) u Hu) as (l & Hs & Hw).
  destruct (v_sleeper _ _ Hi u _ Hs) as (_ & -> & ?); [by left|done].
Qed.

Lemma Signal_ok W q t : inv W q → current (kern W) = Some t → at_pc W t = Signalling →
  wp no_fault (go_on t) (λ _ W', inv W' q ∧ at_pc W' t = Releasing) W.
Proof.
  intros Hi Hc Hpc. pose proof (inside_holds W q t Hi Hc ltac:(congruence)) as Hown.
  destruct (pl_current _ _ _ _ _ (k_places _ _ _ (v_kernel _ _ Hi)) t Hc) as [Hsl Htr].
  unfold go_on. apply wp_bind, wp_get. rewrite Hpc. unfold go_to. apply wp_bind, wp_modify, wp_bind, wp_on_kern. cbn.
  eapply wp_mono; [apply wp_conj; [by apply (Signal_kinv (ts := ts) listEmpty (Some lock) t); [apply Hi|]|]|].
  { instantiate (1 := λ _ K', suspended K' = suspended (kern W) ∧ locks K' = locks (kern W) ∧
      cond_queue (conds K' listEmpty) = tail (cond_queue (conds (kern W) listEmpty))).
    destruct (cond_queue (conds (kern W) listEmpty)) as [|w r] eqn:Hq.
    - unfold Signal. apply wp_bind, wp_get. cbn zeta.
      rewrite (proj2 (ci_tied _ _ _ (k_conds _ _ _ (v_kernel _ _ Hi) listEmpty)) Hq). by apply wp_ret.
    - destruct (queue_sleeper W q w Hi ltac:(rewrite Hq; by left)) as (Hw & _ & _).
      unfold wp. rewrite (Signal_pop listEmpty lock _ w r Hw Hq). cbn. by rewrite fn_lookup_insert. }
  cbn. intros st K' [(_ & Hk' & _) (Hs' & Hl' & Hq')]. apply wp_ret. split; [|by cbn; rewrite fn_lookup_insert].
  apply (inv_moved W q t K' (<[t := Releasing]> (at_pc W))); [done..| | | | |]; rewrite ?fn_lookup_insert.
  - intros u ?. by rewrite Hs', fn_lookup_insert_ne.
  - cbn. unfold Synch.holds. by rewrite Hl'.
  - intros r. rewrite Hs'. congruence.
  - done.
  - destruct (cond_queue (conds (kern W) listEmpty)) as [|w r] eqn:Hq; [by left|right].
    destruct (queue_sleeper W q w Hi ltac:(rewrite Hq; by left)) as (_ & Hws & Hwp).
    destruct (v_covered _ _ Hi) as [Hn|(ms & Hn & Hm & Hlen)]; [congruence|].
    destruct (without t ms Hn) as (ms' & Hn' & Hin & Hlen').
    assert (w ≠ t) as Hwt by congruence.
    pose proof (pl_nodup _ _ _ _ _ (k_places _ _ _ (v_kernel _ _ Hi)) (OCond listEmpty)) as Hnd.
    cbn in Hnd. rewrite Hq in Hnd. apply NoDup_cons in Hnd as [Hwr _].
    exists (w :: ms'). split_and!; [|intros u [->|Hu]%elem_of_cons|cbn; lia].
    + constructor; [|done]. intros [Hw _]%Hin. specialize (Hm w Hw). rewrite Hwp in Hm. cbn in Hm.
      rewrite Hq in Hm. apply Hm. by left.
    + rewrite fn_lookup_insert_ne, Hwp by done. cbn. by rewrite Hq'.
    + apply Hin in Hu as [Hu Hut]. rewrite fn_lookup_insert_ne by done. specialize (Hm u Hu).
      destruct (at_pc W u); cbn in *; try done. rewrite Hq', Hq in *. cbn. intros ?. apply Hm. by right.
Qed.

Lemma Release_ok W q t : inv W q → current (kern W) = Some t →
  match at_pc W t with Removed _ | Releasing => True | _ => False end →
  wp no_fault (go_on t) (λ _ W', inv W' q ∧ at_pc W' t = Out) W.
Proof.
  intros Hi Hc Hpc. pose proof (inside_holds W q t Hi Hc ltac:(by destruct (at_pc W t))) as Hown.
  destruct (pl_current _ _ _ _ _ (k_places _ _ _ (v_kernel _ _ Hi)) t Hc) as [Hsl _].
  unfold go_on. apply wp_bind, wp_get.
  assert (wp no_fault (go_to t Out ;;; let! _s := on_kern (Release lock) in ret ())
    (λ _ W', inv W' q ∧ at_pc W' t = Out) W); [|by destruct (at_pc W t)].
  unfold go_to. apply wp_bind, wp_modify, wp_bind, wp_on_kern. cbn.
  eapply wp_mono; [by apply (Release_kinv (ts := ts) lock t); [apply Hi|]|].
  cbn. intros st K' (_ & Hk' & _ & _ & Hcd & Hs'). apply wp_ret. split; [|by cbn; rewrite fn_lookup_insert].
  apply (inv_moved W q t K' (<[t := Out]> (at_pc W))); [done..| | | | |]; rewrite ?fn_lookup_insert.
  - intros u ?. by rewrite Hs', fn_lookup_insert_ne.
  - done.
  - intros r. rewrite Hs'. congruence.
  - done.
  - unfold covered, mover. rewrite Hcd. apply (covered_pc (kern W)); [|apply Hi]. by destruct (at_pc W t).
Qed.

Lemma Wait_sleeps c l K t : kinv ts K → current K = Some t →
  waitingLock (conds K c) = None ∨ waitingLock (conds K c) = Some l →
  wp no_fault (Wait c (Some l)) (λ st _, st = Slept) K.
Proof.
  intros Hk Hc Hw. unfold Wait. apply wp_bind, (wp_currentThread t); [done|]. apply wp_bind, wp_get. cbn zeta.
  apply wp_bind, wp_put. cbn [waitingLock cond_queue]. rewrite bool_decide_true by (by destruct Hw as [-> | ->]).
  cbn [negb]. apply wp_bind, wp_modify.
  destruct (wp_no_fault _ _ _ (Release_kinv l t K Hk Hc)) as (r & K' & Hr & _ & _ & Hc' & _).
  apply wp_bind. unfold wp. rewrite (Release_with_cond _ c _ _ _ _ (Release_with_cond _ c _ _ _ _ Hr)).
  apply wp_bind, (wp_Sleep t); [done|]. by apply wp_ret.
Qed.

Lemma Wait_ok W t : inv W [] → current (kern W) = Some t → at_pc W t = Testing →
  wp no_fault (Wait listEmpty (Some lock)) (λ _ K', inv (with_kern K' W) []) (kern W).
Proof.
  intros Hi Hc Hpc. pose proof (inside_holds W [] t Hi Hc ltac:(congruence)) as Hown.
  destruct (wp_no_fault _ _ _ (wp_conj _ _ _ _ _ (Wait_kinv listEmpty (Some lock) t _ (v_kernel _ _ Hi) Hc)
    (Wait_sleeps listEmpty lock _ t (v_kernel _ _ Hi) Hc
       ltac:(destruct (cond_queue (conds (kern W) listEmpty)) as [|w r] eqn:Hq;
             [left; by apply (ci_tied _ _ _ (k_conds _ _ _ (v_kernel _ _ Hi) listEmpty))|
              right; by apply (queue_sleeper W [] w Hi); rewrite Hq; left]))))
    as (st & K' & HW & [Hk' _] & ->).
  destruct (call_framed (S listEmpty) (CallWait listEmpty (Some lock)) _ _ _ t Hc HW ltac:(cbn; lia)) as [Ho Hself _].
  destruct Hself as [[? _]|(_ & Hself & _)]; [done|]. cbn in Hself. unfold wp. rewrite HW.
  apply (inv_moved W [] t K' (at_pc W)); [done..| | | | |]; rewrite ?Hpc.
  - intros u ?. by rewrite Ho.
  - by right; right.
  - intros r Hr _. rewrite Hself in Hr. by injection Hr as <-.
  - done.
  - right. exists []. split_and!; [constructor|by intros u ?%not_elem_of_nil|done].
Qed.

Lemma go_on_ok W q t : inv W q → current (kern W) = Some t → at_pc W t ≠ Out →
  wp no_fault (go_on t) (λ _ W', ∃ q', inv W' q' ∧
    q ++ added (at_pc W t) = taken (at_pc W t) (at_pc W' t) ++ q') W.
Proof.
  intros Hi Hc Hin. pose proof (inside_holds W q t Hi Hc Hin) as Hown.
  destruct (pl_current _ _ _ _ _ (k_places _ _ _ (v_kernel _ _ Hi)) t Hc) as [Hsl _].
  assert (∀ p, wp no_fault (go_on t) (λ _ W', inv W' q ∧ at_pc W' t = p) W →
    added (at_pc W t) = [] → taken (at_pc W t) p = [] → wp no_fault (go_on t) (λ _ W', ∃ q', inv W' q' ∧
    q ++ added (at_pc W t) = taken (at_pc W t) (at_pc W' t) ++ q') W) as Hsame.
  { intros p Hw Ha Ht. eapply wp_mono; [exact Hw|]. cbn. intros _ W1 [? Hp]. exists q. split; [done|].
    by rewrite Hp, Ha, Ht, app_nil_r. }
  destruct (at_pc W t) as [|it| | | |it| |] eqn:Hpc; [done|..].
  - destruct (stored_append _ _ it (v_items _ _ Hi)) as (l & Hl & Hst).
    unfold go_on. apply wp_bind, wp_get. rewrite Hpc. apply wp_bind. eapply wp_on_items; [exact Hl|].
    apply wp_modify. exists (q ++ [it]). split; [|done]. apply (inv_local W q); [done..|].
    apply covered_append; [rewrite Hpc; intros []|done|apply Hi].
  - apply (Hsame Releasing); [by apply Signal_ok|done..].
  - unfold go_on. apply wp_bind, wp_get. rewrite Hpc. apply wp_bind.
    eapply wp_on_items; [by apply stored_IsEmpty, Hi|]. destruct W as [K l pcs]. cbn in *.
    case_bool_decide as Hq.
    + subst q. apply wp_bind, wp_on_kern. eapply wp_mono; [by apply (Wait_ok _ t Hi)|].
      cbn. intros st K' HK'. apply wp_ret. by exists [].
    + apply wp_modify. exists q. split; [|by rewrite app_nil_r].
      apply (inv_local _ q q _ _ _ Hi); cbn; [done|apply Hi|done..|].
      apply covered_pc; [done|apply Hi].
  - destruct q as [|it q]; [by pose proof (v_taking _ _ Hi t Hpc)|].
    destruct (stored_remove _ _ _ (v_items _ _ Hi)) as (l & Hl & Hst).
    unfold go_on. apply wp_bind, wp_get. rewrite Hpc. apply wp_bind. eapply wp_on_items; [exact Hl|].
    apply wp_modify. exists q. split; [|by cbn; rewrite fn_lookup_insert, app_nil_r].
    apply (inv_local W (it :: q)); [done..|]. by eapply covered_take, v_covered.
  - apply (Hsame Out); [apply Release_ok; [done..|by rewrite Hpc]|done..].
  - unfold go_on. apply wp_bind, wp_get. rewrite Hpc. apply wp_bind.
    eapply wp_on_items; [by apply stored_Mapcar, Hi|]. apply wp_modify. exists q.
    split; [|by rewrite app_nil_r].
    apply (inv_local W q); [done|done|apply Hi|done..|]. apply covered_pc; [by rewrite Hpc|apply Hi].
  - apply (Hsame Out); [apply Release_ok; [done..|by rewrite Hpc]|done..].
Qed.

Lemma list_step_inv W q W' more less : inv W q → step W W' more less → ∃ q', inv W' q' ∧ q ++ more = less ++ q'.
Proof.
  intros Hi Hs. destruct Hs as [t it W' Hc Ho Hx|t W' Hc Ho Hx|t W' Hc Ho Hx|t W' Hc Ho Hx
    |t x st K' Hc Ho He Hx|t st K' Hc Hx|st K' Hc Hx|s st K' Hx].
  1-3: exists q; split; [|by rewrite app_nil_r]; unshelve eapply (wp_done _ _ _ _ _ _ (begin_ok W q t _ Hi Hc Ho _) Hx);
    exact I.
  1: exact (wp_done _ _ _ _ _ _ (go_on_ok W q t Hi Hc Ho) Hx).
  all: exists q; split; [|by rewrite app_nil_r]; apply inv_keeps; [done|].
  - by eapply call_keeps; [apply Hi|..].
  - by eapply Yield_keeps; [apply Hi|..].
  - by eapply dispatch_keeps; [apply Hi|..].
  - by eapply V_keeps; [apply Hi|..].
Qed.

(** ** Who has the lock is awake *)

Definition placed K u : Prop := current K = Some u ∨ u ∈ readyList K ∨ ∃ o, u ∈ queue_of K o.
Definition awake K u : Prop := current K = Some u ∨ u ∈ readyList K.

(** The holder of the lock is inside, and sleeps for nothing but this lock. *)
Definition holder_ok K (p : pc A) u : Prop :=
  placed K u ∧ (suspended K u = None ∨ suspended K u = Some (InAcquire lock)) ∧ p ≠ Out.
Definition holders W : Prop := ∀ u, holds (kern W) lock u → holder_ok (kern W) (at_pc W u) u.

Lemma placed_kinv K u : kinv ts K → placed K u → kinv (u :: ts) K.
Proof.
  intros [[] ? ? ?] Hu. constructor; [|done..]. constructor; [done..|].
  intros v [->|Hv]%elem_of_cons; [exact Hu|auto].
Qed.

Lemma placed_step K K' u : kinv ts K → Synch.step K K' → placed K u → placed K' u.
Proof.
  intros Hk Hs Hu. pose proof (step_kinv (ts := u :: ts) K K' (placed_kinv K u Hk Hu) Hs) as Hk'.
  apply (pl_all _ _ _ _ _ (k_places _ _ _ Hk')). by left.
Qed.

Lemma holder_awake K p u : kinv ts K → holds K lock u → holder_ok K p u → awake K u.
Proof.
  intros Hk Ho ([?|[?|[o Hu]]] & Hs & _); [by left|by right|].
  destruct (pl_queue _ _ _ _ _ (k_places _ _ _ Hk) o u Hu) as (r & Hr & <-).
  destruct Hs as [Hs|Hs]; rewrite Hs in Hr; simplify_eq.
  by destruct (li_apart _ _ _ _ (k_locks _ _ _ Hk lock) u Ho).
Qed.

(** One who sleeps in the lock's queue will have it, and is awake then. *)
Lemma queue_holder K u : kinv ts K → u ∈ lock_queue (locks K lock) →
  placed K u ∧ suspended K u = Some (InAcquire lock) ∧ ¬ holds K lock u ∧ ∃ h, holds K lock h.
Proof.
  intros Hk Hu. destruct (k_locks _ _ _ Hk lock) as [Hown Hfree Hap _].
  destruct (pl_queue _ _ _ _ _ (k_places _ _ _ Hk) (OLock lock) u Hu) as (r & Hr & Hw).
  destruct r; cbn in Hw; simplify_eq. split_and!; [right; right; by exists (OLock lock)|done| |].
  - intros Ho. by destruct (Hap u Ho).
  - destruct (lockState (locks K lock)) eqn:Hb; [by rewrite Hfree in Hu; [apply not_elem_of_nil in Hu|]|].
    by destruct (proj1 Hown eq_refl) as [h ?]; exists h.
Qed.

Lemma holders_frame W K' pcs : holders W → kinv ts (kern W) → Synch.step (kern W) K' →
  (∀ u, holds K' lock u → holds (kern W) lock u ∧ suspended K' u = suspended (kern W) u ∧
        (at_pc W u ≠ Out → pcs u ≠ Out)) → ∀ l, holders (mkWorld K' l pcs).
Proof.
  intros HJ Hk Hs Hf l u Hu. destruct (Hf u Hu) as (Ho & Hsu & Hpc). destruct (HJ u Ho) as (Hpl & Hsl & Hout).
  cbn. split_and!; [by eapply placed_step|by rewrite Hsu|auto].
Qed.

(** The next owner comes from the queue. *)
Lemma Release_owner K st K' t u : current K = Some t → holds K lock t → Release lock K = Done (st, K') →
  holds K' lock u → u ∈ lock_queue (locks K lock).
Proof.
  unfold holds, Release, isHeldByCurrentThread, currentThread, bind, get. cbn. intros Hc Ho. rewrite Hc. cbn.
  rewrite bool_decide_true by done. cbn.
  destruct (lock_queue (locks K lock)); intros [= <- <-]; cbn; rewrite fn_lookup_insert; cbn; [done|].
  intros [= ->]. by left.
Qed.

Lemma Acquire_owner l K st K' t u : current K = Some t → Acquire l K = Done (st, K') →
  holds K' lock u → holds K lock u ∨ u = t ∧ l = lock.
Proof.
  unfold holds, Acquire, isHeldByCurrentThread, currentThread, bind, get. cbn. intros Hc. rewrite Hc. cbn.
  rewrite Hc. cbn. case_bool_decide; cbn; [intros [= <- <-]; auto|].
  unfold Sleep, currentThread, bind, get. destruct (lockState (locks K l)); cbn; rewrite ?Hc; intros [= <- <-]; cbn;
    (destruct (decide (l = lock)) as [->|]; [rewrite fn_lookup_insert|rewrite fn_lookup_insert_ne by done]; cbn;
     [intros [= ->] || idtac; auto|auto]).
Qed.
Lemma Wait_owner c K st K' t u : current K = Some t → holds K lock t → Wait c (Some lock) K = Done (st, K') →
  holds K' lock u → (u = t ∧ st = Returned) ∨ u ∈ lock_queue (locks K lock).
Proof.
  intros Hc Ho Hx Hu. unfold Wait, currentThread in Hx. unfold bind, get in Hx. cbn in Hx. rewrite Hc in Hx. cbn in Hx.
  case_bool_decide; cbn in Hx; [|injection Hx as <- <-; left; unfold Synch.holds in *; cbn in Hu; split; congruence].
  match type of Hx with match Release _ ?x with _ => _ end = _ => set (K1 := x) in Hx end.
  destruct (Release lock K1) as [[r K2]|] eqn:HR; [|done]. right.
  unfold Sleep, currentThread, bind, get in Hx. cbn in Hx. destruct (current K2); [|done]. injection Hx as _ <-.
  by apply (Release_owner K1 r K2 t).
Qed.

(** The owner is the next in the queue after the running thread let go. *)
Lemma holders_handed W q t K' pcs : inv W q → holders W → current (kern W) = Some t → holds (kern W) lock t →
  Synch.step (kern W) K' → (∀ u, u ≠ t → suspended K' u = suspended (kern W) u ∧ pcs u = at_pc W u) →
  (∀ u, holds K' lock u → u ∈ lock_queue (locks (kern W) lock)) → ∀ l, holders (mkWorld K' l pcs).
Proof.
  intros Hi HJ Hc Ho Hs Hf Hq l u Hu. apply Hq in Hu.
  destruct (queue_holder _ u (v_kernel _ _ Hi) Hu) as (Hpl & Hsu & Hno & _).
  assert (u ≠ t) as Hut by congruence. destruct (Hf u Hut) as [Hsu' Hpc]. cbn.
  pose proof (v_sleeper _ _ Hi u _ Hsu ltac:(done)) as Hok. split_and!.
  - eapply placed_step; [apply Hi|done|done].
  - right. by rewrite Hsu'.
  - rewrite Hpc. intros Hout. by rewrite Hout in Hok.
Qed.

Lemma holders_run W q n K0 st K' : inv W q → holders W → Run n K0 = Done (st, K') →
  Synch.step (kern W) K' → suspended K0 = suspended (kern W) → locks K0 = locks (kern W) →
  n ∈ readyList (kern W) → holders (with_kern K' W).
Proof.
  intros Hi HJ HR Hs Hsu Hl Hn u Hu. change (holds K' lock u) in Hu.
  change (holder_ok K' (at_pc W u) u). destruct (Run_framed listEmpty n K0 st K' HR) as (Hoth & Hself & _ & _). rewrite Hsu in *.
  assert (holds (kern W) lock u ∨ u = n ∧ ∃ c, suspended (kern W) n = Some (InWait c lock)) as Hcase.
  { assert ((∃ c, suspended K0 n = Some (InWait c lock)) ∨ ∀ c, suspended K0 n ≠ Some (InWait c lock))
      as [(c & Hw)|Hno].
    { destruct (suspended K0 n) as [[s|l|c l]|]; try (by right). destruct (decide (l = lock)) as [->|]; [left; eauto|].
      right. naive_solver. }
    - unfold Run, bind, put, get in HR. cbn in HR. rewrite Hw in HR. cbn [resume] in HR.
      rewrite Hsu in Hw. match type of HR with Acquire lock ?x = _ => set (K1 := x) in HR end.
      destruct (Acquire_owner lock K1 st K' n u eq_refl HR Hu) as [Ho|[-> _]].
      + left. unfold Synch.holds in *. cbn in Ho. by rewrite <- Hl.
      + right. split; [done|]. by exists c.
    - left. unfold Synch.holds in *. rewrite <- Hl, <- (Run_lock lock n K0 st K' HR); done. }
  destruct Hcase as [Ho|(-> & c & Hw)].
  - destruct (HJ u Ho) as (Hpl & Hsl & Hout). split_and!; [eapply placed_step; [apply Hi|done|done]| |done].
    destruct (decide (u = n)) as [->|]; [|by rewrite Hoth].
    rewrite Hself. destruct st; [by left|]. destruct Hsl as [-> | ->]; by left.
  - split_and!.
    + eapply placed_step; [apply Hi|done|]. right. by left.
    + rewrite Hself, Hw. destruct st; auto.
    + pose proof (v_sleeper _ _ Hi n _ Hw ltac:(by right)) as (_ & _ & ->). done.
Qed.

Lemma holders_begin W W' q t p : inv W q → holders W → current (kern W) = Some t → at_pc W t = Out → p ≠ Out →
  begin t p W = Done ((), W') → holders W'.
Proof.
  intros Hi HJ Hc Hout Hp Hx. unfold begin, go_to, on_kern, bind, modify in Hx. cbn in Hx.
  destruct (Acquire lock (kern W)) as [[st K']|] eqn:HA; [|done]. injection Hx as <-. intros u Hu.
  change (holds K' lock u) in Hu. cbn.
  assert (Synch.step (kern W) K') as Hs by (eapply (Synch.step_call _ _ (CallAcquire lock)); [by rewrite Hc|done]).
  destruct (Acquire_framed listEmpty lock _ st K' t Hc HA) as [Hoth Hself _].
  destruct (pl_current _ _ _ _ _ (k_places _ _ _ (v_kernel _ _ Hi)) t Hc) as [Hsl _].
  destruct (Acquire_owner lock _ st K' t u Hc HA Hu) as [Ho|[-> _]].
  - destruct (HJ u Ho) as (Hpl & Hsu & Hpc). assert (u ≠ t) by congruence.
    rewrite fn_lookup_insert_ne by done. unfold holder_ok. rewrite Hoth by done. split_and!; [|done..].
    eapply placed_step; [apply Hi|done|done].
  - rewrite fn_lookup_insert. split_and!; [|destruct Hself as [[_ ->]|(_ & -> & _)]; auto|done].
    eapply placed_step; [apply Hi|done|by left].
Qed.

Lemma holders_on W W' q t : inv W q → holders W → current (kern W) = Some t → at_pc W t ≠ Out →
  go_on t W = Done ((), W') → holders W'.
Proof.
  intros Hi HJ Hc Hin Hx. pose proof (inside_holds W q t Hi Hc Hin) as Ho.
  assert (∀ p l, p ≠ Out → holders (mkWorld (kern W) l (<[t := p]> (at_pc W)))) as Hlocal.
  { intros p l Hp u Hu. destruct (HJ u Hu) as (? & ? & ?). cbn. split_and!; [done..|].
    destruct (decide (u = t)) as [->|]; [by rewrite fn_lookup_insert|by rewrite fn_lookup_insert_ne]. }
  assert (∀ st K', Release lock (kern W) = Done (st, K') → ∀ l, holders (mkWorld K' l (<[t := Out]> (at_pc W)))) as Hrel.
  { intros st K' HR. apply (holders_handed W q t); [done..| | |].
    - eapply (Synch.step_call _ _ (CallRelease lock)); [by rewrite Hc|exact HR].
    - intros u Hu. destruct (Release_framed _ _ _ _ HR) as (_ & -> & _). by rewrite fn_lookup_insert_ne.
    - intros u. by apply (Release_owner (kern W) st K' t). }
  unfold go_on, go_to, on_items, on_kern, bind, get, modify in Hx.
  cbn -[insert Append IsEmpty PtrList.Remove Mapcar Signal Wait Release] in Hx.
  destruct (at_pc W t) as [|it| | | |it| |] eqn:Hpc; cbn -[insert Append IsEmpty PtrList.Remove Mapcar Signal Wait Release] in Hx;
    [done|..].
  - destruct (Append (Some it) (items W)) as [[[] l]|]; [|done]. injection Hx as <-. by apply Hlocal.
  - destruct (Signal listEmpty (Some lock) (kern W)) as [[st K']|] eqn:HS; [|done]. injection Hx as <-.
    apply (holders_frame W); [done|apply Hi|by eapply (Synch.step_call _ _ (CallSignal _ _)); [rewrite Hc|exact HS]|].
    intros u Hu. unfold Synch.holds in *.
    rewrite (call_lock lock (CallSignal listEmpty (Some lock)) _ st K' t Hc I HS) in Hu. split_and!; [done| |].
    + destruct (call_framed (S listEmpty) (CallSignal listEmpty (Some lock)) _ st K' t Hc HS ltac:(cbn; lia)) as [Hoth Hself _].
      destruct (decide (u = t)) as [->|]; [|by apply Hoth]. by destruct Hself as [[_ ->]|(_ & _ & [? ?])].
    + intros Hu'. cbn [at_pc]. destruct (decide (u = t)) as [->|]; [by rewrite fn_lookup_insert|by rewrite fn_lookup_insert_ne].
  - destruct (IsEmpty (items W)) as [[[] l]|]; [| |done]; [|injection Hx as <-; by apply Hlocal].
    cbn in Hx. destruct (Wait listEmpty (Some lock) (kern W)) as [[st K']|] eqn:HW; [|done]. injection Hx as <-.
    destruct (call_framed (S listEmpty) (CallWait listEmpty (Some lock)) _ st K' t Hc HW ltac:(cbn; lia)) as [Hoth _ _].
    eapply (holders_handed W q t K' (at_pc W)); [done..| | |].
    + by eapply (Synch.step_call _ _ (CallWait _ _)); [rewrite Hc|exact HW].
    + intros u Hu. by rewrite Hoth.
    + intros u Hu. destruct (Wait_owner listEmpty _ st K' t u Hc Ho HW Hu) as [[-> ->]|]; [|done].
      pose proof (Wait_sleeps listEmpty lock _ t (v_kernel _ _ Hi) Hc) as Hsl. unfold wp in Hsl. rewrite HW in Hsl.
      exfalso. cut (Returned = Slept); [done|]. apply Hsl.
      destruct (cond_queue (conds (kern W) listEmpty)) as [|w r] eqn:Hq;
        [left; by apply (ci_tied _ _ _ (k_conds _ _ _ (v_kernel _ _ Hi) listEmpty))|
         right; by apply (queue_sleeper W q w Hi); rewrite Hq; left].
  - destruct (PtrList.Remove (items W)) as [[[it|] l]|]; [|done|done]. injection Hx as <-. by apply Hlocal.
  - destruct (Release lock (kern W)) as [[st K']|] eqn:HR; [|done]. injection Hx as <-. by eapply Hrel.
  - destruct (Mapcar (items W)) as [[its l]|]; [|done]. injection Hx as <-. by apply Hlocal.
  - destruct (Release lock (kern W)) as [[st K']|] eqn:HR; [|done]. injection Hx as <-. by eapply Hrel.
Qed.

Lemma list_step_holders W q W' more less : inv W q → holders W → step W W' more less → holders W'.
Proof.
  intros Hi HJ Hs. destruct Hs as [t it W' Hc Ho Hx|t W' Hc Ho Hx|t W' Hc Ho Hx|t W' Hc Ho Hx
    |t x st K' Hc Ho He Hx|t st K' Hc Hx|st K' Hc Hx|s st K' Hx].
  1-3: by eapply holders_begin; [..|exact Hx].
  - by eapply holders_on.
  - apply (holders_frame W); [done|apply Hi|by eapply Synch.step_call; [rewrite Hc|exact Hx]|].
    intros u Hu. unfold Synch.holds in *.
    rewrite (call_lock lock x _ st K' t Hc) in Hu; [|by destruct x; cbn in *; naive_solver|done].
    split_and!; [done| |done].
    destruct (call_framed listEmpty x _ st K' t Hc Hx) as [Hoth _ _]; [by destruct x; cbn in *; naive_solver|].
    apply Hoth. intros ->. by destruct (HJ t Hu) as (_ & _ & ?).
  - assert (Synch.step (kern W) K') as Hst by (eapply Synch.step_yield; [by rewrite Hc|done]).
    unfold Yield in Hx. rewrite (bind_Done _ _ (kern W) t (kern W)) in Hx by (unfold currentThread, bind, get; by rewrite Hc).
    destruct (readyList (kern W)) as [|n r] eqn:Hr.
    + rewrite (bind_Done _ _ _ _ _ (FindNextToRun_nil _ Hr)) in Hx. injection Hx as _ <-. by destruct W.
    + rewrite (bind_Done _ _ _ _ _ (FindNextToRun_cons _ n r Hr)) in Hx.
      by apply (holders_run W q n (with_ready (r ++ [t]) (kern W)) st K'); [..|rewrite Hr; left].
  - assert (Synch.step (kern W) K') as Hst by by eapply Synch.step_dispatch.
    unfold dispatch in Hx. destruct (readyList (kern W)) as [|n r] eqn:Hr.
    + rewrite (bind_Done _ _ _ _ _ (FindNextToRun_nil _ Hr)) in Hx. injection Hx as _ <-. by destruct W.
    + rewrite (bind_Done _ _ _ _ _ (FindNextToRun_cons _ n r Hr)) in Hx. unfold bind in Hx.
      destruct (Run n (with_ready r (kern W))) as [[st1 K1]|] eqn:HR; [|done]. injection Hx as _ ->.
      by apply (holders_run W q n (with_ready r (kern W)) st1 K'); [..|rewrite Hr; left].
  - destruct (V_framed _ _ _ _ Hx) as (_ & Hs & _ & Hl).
    apply (holders_frame W); [done|apply Hi|by eapply Synch.step_interrupt|]. intros u. unfold Synch.holds. by rewrite Hs, Hl.
Qed.

Lemma stored_inj l q q' : stored l q → stored l q' → q = q'.
Proof.
  intros Hq Hq'. pose proof (stored_Mapcar l q Hq) as H1. rewrite (stored_Mapcar l q' Hq') in H1.
  injection H1 as H1. by apply (inj (fmap Some)) in H1.
Qed.
End synchlist.

(** ** Mailboxes *)

Section mailbox.
Context (junk : Z → list Z) (lock listEmpty : nat).

(** [MailBox::Put]: the letter is put together before the list's lock is asked
    for. *)
Definition MailBox_Put t (pktHdr : PacketHeader) (mailHdr : MailHeader) (data : list Z) : M (World Letter) unit :=
  let! mail := lift (new_Mail junk pktHdr mailHdr data) in SynchList_Append lock t mail.

(** [MailBox::Get] and [Receive] up to the letter, and what they do with it. *)
Definition Receive_begin t (po : PostOffice) (box : Z) : M (World Letter) unit :=
  ASSERT ((0 <=? box) && (box <? numBoxes po))%Z ;;; SynchList_Remove lock t.
Definition Receive_end t : M (World Letter) (PacketHeader * MailHeader * list Z) :=
  let! W := get in
  match at_pc W t with
  | Removed mail => lift (open_mail mail)
  | _ => fail AssertFailed
  end.

(** A message of a legal length comes out of the box as it was put in. *)
Lemma MailBox_letter h mh data : (∀ z, 0 <= z → length (junk z) = Z.to_nat z)%Z →
  (0 <= mail_length mh <= MaxMailSize)%Z → (mail_length mh <= Z.of_nat (length data))%Z →
  ∃ mail, new_Mail junk h mh data = Done mail ∧
    open_mail mail = Done (h, mh, take (Z.to_nat (mail_length mh)) data) ∧
    ∀ t W, MailBox_Put t h mh data W = SynchList_Append lock t mail W.
Proof.
  intros Hj Hl Hd. enough (∃ mail, new_Mail junk h mh data = Done mail ∧
    open_mail mail = Done (h, mh, take (Z.to_nat (mail_length mh)) data)) as (mail & Hm & Ho).
  { exists mail. split_and!; [done|done|]. intros t W. unfold MailBox_Put, bind, lift. by rewrite Hm. }
  unfold new_Mail, open_mail, assert. rewrite (proj2 (Z.leb_le _ _)) by lia. cbn [obind].
  rewrite mem_read_in by lia. cbn [obind]. rewrite drop_0. set (bs := take _ data).
  assert (length bs = Z.to_nat (mail_length mh)) as Hbs by (unfold bs; rewrite length_take; lia).
  unfold MaxMailSize, MaxPacketSize, MaxWireSize, sizeof_PacketHeader, sizeof_MailHeader in *.
  rewrite mem_write_in by (rewrite ?Hj; lia). cbn [obind]. eexists. split; [done|].
  cbn [letter_data mailHdr pktHdr]. change (Z.to_nat 0) with 0. rewrite take_0. cbn [app].
  rewrite mem_read_in by (rewrite ?length_app; lia). cbn [obind]. rewrite drop_0, take_app_length' by lia.
  by rewrite (proj2 (Z.leb_le _ _)) by lia.
Qed.
End mailbox.

(** ** Properties *)

Section properties.
Context {A : Type} (lock listEmpty : nat).

(** A new list: nobody sleeps for its lock or its condition variable. *)
Record start (ts : list tid) (W : World A) : Prop := {
  st_threads : NoDup (0 :: ts);
  st_kernel : ∃ values, (∀ s, 0 <= values s)%Z ∧ reachable ts values (kern W);
  st_sleepers : ∀ u r, suspended (kern W) u = Some r → ¬ about lock listEmpty r;
  st_cond : conds (kern W) listEmpty = new_Condition;
  st_items : ∃ h, items W = new_List h;
  st_out : ∀ u, at_pc W u = Out
}.

Lemma list_start_inv ts W : start ts W → inv lock listEmpty (0 :: ts) W [].
Proof.
  intros [Hts (values & Hv & Hr) Hs Hc (h & Hi) Ho]. constructor.
  - by eapply reachable_kinv.
  - rewrite Hi. exists []. split; [|done]. constructor; cbn; [done|constructor|by intros ? []].
  - intros u. by rewrite Ho.
  - intros u r Hr' Ha. by destruct (Hs u r Hr').
  - intros u. by rewrite Ho.
  - left. by rewrite Hc.
Qed.

Lemma list_runs_inv ts W0 W ins outs : start ts W0 → runs lock listEmpty W0 W ins outs →
  ∃ q, inv lock listEmpty (0 :: ts) W q ∧ ins = outs ++ q.
Proof.
  intros H0. induction 1 as [|W ins outs W' more less _ IH Hs]; [by exists []; split; [apply list_start_inv|]|].
  destruct IH as (q & Hi & ->). destruct (list_step_inv lock listEmpty _ W q W' more less Hi Hs) as (q' & Hi' & He).
  exists q'. split; [done|]. by rewrite <- !app_assoc, He.
Qed.

Lemma list_runs_holders ts W0 W ins outs : start ts W0 → lockOwner (locks (kern W0) lock) = None →
  runs lock listEmpty W0 W ins outs → holders lock W.
Proof.
  intros H0 Hn. induction 1 as [|W ins outs W' more less Hr IH Hs]; [intros u; unfold Synch.holds; congruence|].
  destruct (list_runs_inv ts W0 W ins outs H0 Hr) as (q & Hi & _). by eapply list_step_holders.
Qed.

(** A mover is awake, or waits its turn for the lock of one that is. *)
Definition on_its_way (W : World A) (u : tid) : Prop :=
  mover listEmpty (kern W) u (at_pc W u) ∧
  (awake (kern W) u ∨
   u ∈ lock_queue (locks (kern W) lock) ∧
   ∃ h, holds (kern W) lock h ∧ at_pc W h ≠ Out ∧ awake (kern W) h).

Lemma mover_on_its_way ts W q u : inv lock listEmpty ts W q → holders lock W →
  mover listEmpty (kern W) u (at_pc W u) → on_its_way W u.
Proof.
  intros Hi HJ Hm. split; [done|]. pose proof (v_kernel _ _ _ _ _ Hi) as Hk.
  assert (∀ v, holds (kern W) lock v → awake (kern W) v) as Ha by (intros v Hv; by eapply holder_awake, HJ).
  assert (holds (kern W) lock u ∨ suspended (kern W) u = Some (InAcquire lock) ∨
    suspended (kern W) u = Some (InWait listEmpty lock) ∧ u ∉ cond_queue (conds (kern W) listEmpty)) as [Ho|[Hs|[Hs Hn]]].
  { pose proof (v_place _ _ _ _ _ Hi u) as Hp. destruct (at_pc W u); cbn in *; tauto. }
  - left. auto.
  - destruct (pl_susp _ _ _ _ _ (k_places _ _ _ Hk) u _ Hs) as [?|Hq]; [left; by right|right]. split; [done|].
    destruct (queue_holder lock ts _ u Hk Hq) as (_ & _ & _ & h & Hh). exists h. split_and!; [done|by apply HJ|auto].
  - left. right. by destruct (pl_susp _ _ _ _ _ (k_places _ _ _ Hk) u _ Hs).
Qed.

(** Past the lock. *)
Definition critical (p : pc A) : Prop :=
  match p with Signalling | Taking | Removed _ | Releasing => True | _ => False end.

(** C26: any number of threads append, remove and look at the list,
    preempted between any two calls of the kernel, among threads that do other
    things with semaphores, locks and conditions.  What was put on the list is
    what was taken off it, in the same order, followed by what is on it; no item
    is lost or taken twice; one thread at a time is past the lock; and whoever
    runs inside goes on without a fault, so that the item a thread takes after
    its wait is never NULL. *)
Theorem SynchList_fifo ts W0 W ins outs : start ts W0 → runs lock listEmpty W0 W ins outs →
  ∃ q, stored (items W) q ∧ ins = outs ++ q ∧
    (∀ t u, critical (at_pc W t) → critical (at_pc W u) → t = u) ∧
    (∀ t, current (kern W) = Some t → at_pc W t ≠ Out → ∃ W', go_on lock listEmpty t W = Done ((), W')).
Proof.
  intros H0 Hr. destruct (list_runs_inv ts W0 W ins outs H0 Hr) as (q & Hi & He). exists q.
  split_and!; [apply Hi|done|..].
  - assert (∀ t, critical (at_pc W t) → Synch.holds (kern W) lock t) as Hh.
    { intros t Ht. pose proof (v_place _ _ _ _ _ Hi t) as Hp. by destruct (at_pc W t). }
    intros t u ?%Hh ?%Hh. unfold Synch.holds in *. congruence.
  - intros t Hc Ho. destruct (wp_no_fault _ _ _ (go_on_ok lock listEmpty _ W q t Hi Hc Ho)) as ([] & W' & HW & _).
    by exists W'.
Qed.

(** C27: while threads wait for an item of a list whose lock nobody held at the
    start, each item on the list has a thread of its own that is about to signal,
    about to take an item or on its way to the test that finds one; that thread
    runs or is ready, or it sleeps for the list's lock, and then the holder of the
    lock is inside a routine of the list and runs or is ready.  So when no thread
    inside these routines runs or is ready, the list is empty: nobody sleeps for
    an item that is there. *)
Theorem SynchList_no_lost_wakeup ts W0 W ins outs q : start ts W0 → lockOwner (locks (kern W0) lock) = None →
  runs lock listEmpty W0 W ins outs → stored (items W) q → cond_queue (conds (kern W) listEmpty) ≠ [] →
  (∃ ms, NoDup ms ∧ length q ≤ length ms ∧ ∀ u, u ∈ ms → on_its_way W u) ∧
  ((∀ u, at_pc W u ≠ Out → ¬ awake (kern W) u) → q = []).
Proof.
  intros H0 Hnone Hr Hq Hn. destruct (list_runs_inv ts W0 W ins outs H0 Hr) as (q' & Hi & _).
  pose proof (list_runs_holders ts W0 W ins outs H0 Hnone Hr) as HJ.
  rewrite (stored_inj _ _ _ Hq (v_items _ _ _ _ _ Hi)). destruct (v_covered _ _ _ _ _ Hi) as [?|(ms & Hd & Hm & Hl)]; [done|].
  assert (∀ u, u ∈ ms → on_its_way W u) as Hw by (intros u Hu; by eapply mover_on_its_way, Hm).
  split; [by exists ms|]. intros Hsleep. destruct ms as [|u ms]; [destruct q'; [done|cbn in Hl; lia]|].
  destruct (Hw u ltac:(by left)) as [Hmu [Ha|(_ & h & _ & Hout & Ha)]]; [|by destruct (Hsleep h)].
  destruct (Hsleep u); [|done]. intros Ho. by rewrite Ho in Hmu.
Qed.

(** ** Schedules, executed *)

Inductive action := DoAppend (it : A) | DoRemove | DoGo | DoYield | DoDispatch.

Definition is_out (p : pc A) : bool := match p with Out => true | _ => false end.

Definition act (a : action) (W : World A) : option (World A * list A * list A) :=
  let done o more less := match o with Done ((), W') => Some (W', more, less W') | Fault _ => None end in
  match current (kern W), a with
  | Some t, DoAppend it => if is_out (at_pc W t) then done (SynchList_Append lock t it W) [] (λ _, []) else None
  | Some t, DoRemove => if is_out (at_pc W t) then done (SynchList_Remove lock t W) [] (λ _, []) else None
  | Some t, DoGo => if is_out (at_pc W t) then None else
      done (go_on lock listEmpty t W) (added (at_pc W t)) (λ W', taken (at_pc W t) (at_pc W' t))
  | Some t, DoYield => match Yield (kern W) with Done (_, K') => Some (with_kern K' W, [], []) | Fault _ => None end
  | None, DoDispatch => match dispatch (kern W) with Done (_, K') => Some (with_kern K' W, [], []) | Fault _ => None end
  | _, _ => None
  end.

Fixpoint act_all (l : list action) (W : World A) (ins outs : list A) : World A * list A * list A :=
  match l with
  | [] => (W, ins, outs)
  | a :: l' => match act a W with
               | Some (W', more, less) => act_all l' W' (ins ++ more) (outs ++ less)
               | None => (W, ins, outs)
               end
  end.

Lemma list_act_step a W W' more less : act a W = Some (W', more, less) → step lock listEmpty W W' more less.
Proof.
  unfold act. destruct (current (kern W)) as [t|] eqn:Hc, a as [it| | | |]; try done.
  - destruct (at_pc W t) eqn:Hp; try done. cbn [is_out]. destruct (SynchList_Append _ _ _ _) as [[[] W1]|] eqn:He; [|done].
    intros [= <- <- <-]. by eapply (step_append _ _ _ _ it).
  - destruct (at_pc W t) eqn:Hp; try done. cbn [is_out]. destruct (SynchList_Remove _ _ _) as [[[] W1]|] eqn:He; [|done].
    intros [= <- <- <-]. by eapply step_remove.
  - destruct (is_out (at_pc W t)) eqn:Hp; [done|]. destruct (go_on _ _ _ _) as [[[] W1]|] eqn:He; [|done].
    intros [= <- <- <-]. apply step_on; [done| |done]. intros Ho. by rewrite Ho in Hp.
  - destruct (Yield (kern W)) as [[st K']|] eqn:He; [|done]. intros [= <- <- <-]. by eapply step_yield.
  - destruct (dispatch (kern W)) as [[st K']|] eqn:He; [|done]. intros [= <- <- <-]. by eapply step_dispatch.
Qed.

Lemma act_all_run l W0 W ins outs : runs lock listEmpty W0 W ins outs →
  runs lock listEmpty W0 (act_all l W ins outs).1.1 (act_all l W ins outs).1.2 (act_all l W ins outs).2.
Proof.
  revert W ins outs. induction l as [|a l IH]; intros W ins outs Hr; [done|]. cbn [act_all].
  destruct (act a W) as [[[W' more] less]|] eqn:He; [|done]. apply IH. eapply runs_step; [done|]. by apply (list_act_step a).
Qed.
End properties.

(** Two threads that remove and one that appends two letters. *)
Definition post_threads : list tid := [1; 2].
Definition post_start : World nat := mkWorld (initial post_threads (λ _, 0%Z)) (new_List ∅) (λ _, Out).
Definition post_actions : list (action (A := nat)) :=
  [DoRemove; DoGo; DoDispatch; DoRemove; DoGo; DoDispatch; DoAppend 7; DoGo; DoGo; DoYield; DoDispatch; DoGo;
   DoAppend 8].
Definition post_end : World nat * list nat * list nat := act_all 0 0 post_actions post_start [] [].

Lemma post_start_ok : start 0 0 post_threads post_start.
Proof.
  constructor; [apply (bool_decide_unpack _); by vm_compute| |done|done|by exists ∅|done].
  exists (λ _, 0%Z). split; [done|apply reach_init].
Qed.

Lemma post_runs l : runs 0 0 post_start (act_all 0 0 l post_start [] []).1.1
  (act_all 0 0 l post_start [] []).1.2 (act_all 0 0 l post_start [] []).2.
Proof. apply act_all_run, runs_start. Qed.

(** Then thread 0 takes 7; it still has the lock. *)
Definition post_done : World nat * list nat * list nat :=
  act_all 0 0 (post_actions ++ [DoDispatch; DoGo; DoGo]) post_start [] [].
Lemma post_done_runs : runs 0 0 post_start post_done.1.1 post_done.1.2 post_done.2.
Proof. apply post_runs. Qed.
Lemma post_end_runs : runs 0 0 post_start post_end.1.1 post_end.1.2 post_end.2.
Proof. apply post_runs. Qed.

Lemma SynchList_fifo_witness : post_done.1.2 = [7] ∧ post_done.2 = [7] ∧ stored (items post_done.1.1) [] ∧
  ∃ W', go_on 0 0 0 post_done.1.1 = Done ((), W').
Proof.
  destruct (SynchList_fifo 0 0 post_threads post_start post_done.1.1 post_done.1.2 post_done.2 post_start_ok
    post_done_runs) as (q & Hq & He & _ & Hgo).
  assert (post_done.1.2 = [7] ∧ post_done.2 = [7] ∧ current (kern post_done.1.1) = Some 0 ∧
    at_pc post_done.1.1 0 = Removed 7) as (Hi & Ho & Hc & Hp) by (split_and!; vm_compute; reflexivity).
  split; [exact Hi|]. split; [exact Ho|]. split.
  - rewrite Hi, Ho in He. injection He as He. rewrite He. exact Hq.
  - apply Hgo; [exact Hc|]. rewrite Hp. discriminate.
Defined.

Lemma post_end_stored : stored (items post_end.1.1) [7].
Proof.
  destruct (list_runs_inv 0 0 _ _ _ _ _ post_start_ok post_end_runs) as (q & Hq & He).
  assert (post_end.1.2 = [7] ∧ post_end.2 = []) as [Hi Ho] by (split; vm_compute; reflexivity).
  rewrite Hi, Ho in He. cbn in He. subst q. apply Hq.
Qed.

Lemma SynchList_no_lost_wakeup_witness : cond_queue (conds (kern post_end.1.1) 0) = [1] ∧
  ∃ ms, NoDup ms ∧ 1 ≤ length ms ∧ ∀ u, u ∈ ms → on_its_way 0 0 post_end.1.1 u.
Proof.
  assert (cond_queue (conds (kern post_end.1.1) 0) = [1]) as Hw by (vm_compute; reflexivity).
  split; [exact Hw|].
  destruct (SynchList_no_lost_wakeup 0 0 post_threads post_start post_end.1.1 post_end.1.2 post_end.2 [7]
    post_start_ok eq_refl post_end_runs post_end_stored) as [Hm _]; [rewrite Hw; discriminate|exact Hm].
Defined.
